(* ===== verification/_CoqProject ===== *)
-Q . S2P
Prelude.v
GoStrings.v
Taxonomy.v
Classification.v
Delivery.v
Circuit.v
Health.v
Dispatcher.v
DispatcherFacts.v
DispatcherProps.v
Correlator.v
SessionCorrelator.v
ToolChain.v
VerdictCache.v
ActionStore.v
FindingTable.v
PolicyEngine.v
AssetPolicy.v
Admission.v
SeverityActions.v
Watcher.v
Paths.v
Regexp.v
SensitiveQuery.v
NetAddr.v
Netguard.v
NetguardV8.v
Snapshot.v
Rescan.v
RescanFacts.v
RescanProps.v
PolicyFiles.v
WatchLoop.v
Json.v
RedactionProfile.v
Detector.v
RedactionEngine.v
RoutingPlan.v
PlanFacts.v
ManagedPlan.v
ManagedFacts.v
Router.v
RouterFacts.v
RouterProps.v
ProfileAdapter.v
Pipeline.v
PipelineProps.v
RuntimeGraph.v
ReportSpool.v
RuntimeManager.v
ManagerFacts.v
ManagerInvariants.v
ManagerCleanup.v
ManagerTrace.v
ManagerProps.v
PathFacts.v
AssetTree.v
Quarantine.v
QuarantineFacts.v
QuarantineProps.v
QuarantineRecovery.v
QuarantineJournal.v
QuarantineWatch.v
QuarantineWatchProps.v
