(* ===== verification/Prelude.v ===== *)
(** * DefenseClaw

    DefenseClaw stands between AI agents and their tools.  It gates what may be
    installed, watches what agents do, and turns what it sees into telemetry
    that leaves the machine only as far as a plan allows.  This library models
    the Go core under src/internal/ and proves what makes it correct.  All paths
    below are under src/internal/.

    ** The parts, and where they are modelled

    Gates.  An asset (skill, plugin, MCP server) is admitted by a chain of
    decisions.  [ActionStore] is the actions table of audit/store.go with its
    statements and their failures; [PolicyEngine] (enforce/policy.go) answers
    from it; [AssetPolicy] (config/asset_policy.go) is the gate over the
    configuration; [Admission] is the built-in gate (policy/fallback.go) and the
    Rego entry point (policy/engine.go); [SeverityActions] (config/actions.go)
    maps severities to actions; [Watcher] (watcher/watcher.go) runs the chain on
    an install event and enforces the verdict.

    Watch.  [WatchLoop] (watcher/watcher.go) takes file-system notifications,
    debounces them and hands each install to the admission.  [Snapshot]
    (watcher/snapshot.go) hashes an installed tree; [Rescan] (watcher/rescan.go)
    compares it, cycle after cycle, with the baseline in target_snapshots, decides
    whether to scan, and reports drift; [PolicyFiles]
    (watcher/policy_files_watch.go) records changes of policy files and bumps the
    provenance generation, which is part of every scanner fingerprint.  [Paths]
    and [Regexp] model what the watcher uses of path/filepath and regexp.

    Quarantine.  [AssetTree] is an asset as a tree of files, its hash and its
    copy; [Quarantine] (enforce/quarantine_asset.go) moves it into the quarantine
    and back by system calls that may fail or be cut short; [QuarantineJournal]
    (audit/quarantine_provenance.go) is the write-ahead journal of these moves;
    [QuarantineWatch] (watcher/watcher.go) runs both for a blocked asset and for
    a restore.  [PathFacts] relates clean paths to lists of names.

    Guardrails.  [Correlator] evaluates correlation patterns over a window of
    findings (guardrail/correlator.go), [SessionCorrelator] keeps the windows and
    the firing ledger under concurrent calls (guardrail/session_correlator.go),
    [FindingTable] is the table of findings behind it, with the SQL of its
    ledger (audit/scan_persist.go),
    [ToolChain] matches multi-step tool chains (guardrail/tool_chain.go),
    [VerdictCache] remembers the verdicts of judges (guardrail/verdict_cache.go).

    Network.  [NetAddr] models IP addresses and prefixes of the Go library,
    [Netguard] the SSRF guard (netguard/netguard.go, allowlist.go) and
    [NetguardV8] the guard of push exporters (netguard_v8.go); [SensitiveQuery]
    recognises credentials in query keys (sensitivequery/key.go).

    Redaction.  [Json] is the payload and its JSON pointers, [RedactionProfile]
    the profiles and their catalog, [Detector] the detection inside a field and
    [RedactionEngine] the projection of a whole record
    (observability/redaction/).

    Routing.  [Taxonomy] and [Classification] name a record
    (observability/taxonomy.go, classification.go); [RoutingPlan] compiles the
    telemetry section of the configuration into a plan (the config/observability_v8 files),
    [ManagedPlan] adds the destination of a managed deployment; [Router]
    (observability/router/router.go) indexes the plan and decides which
    destinations a record goes to, under which profile.

    Pipeline.  [ProfileAdapter] turns the profiles of a plan into those of the
    engine; [Pipeline] (observability/pipeline/) puts router, engine and store
    together: a log is admitted, built, stored locally, then projected once per
    optional destination.  It returns its calls of engine and store in order.

    Delivery.  [Delivery], [Circuit], [Health] and [Dispatcher]
    (observability/delivery/) are the queue between a destination and its
    exporter: limits, batches, retries, back-off, the circuit breaker, health.

    Runtime graph.  [RuntimeGraph], [ReportSpool] and [RuntimeManager]
    (observability/runtimegraph/manager.go) publish one generation of the plan
    with its components after another, retire the old one when its last user is
    gone, and report on it.

    The files [...Facts], [...Props], [QuarantineRecovery], [ManagerInvariants],
    [ManagerCleanup] and [ManagerTrace] hold invariants and theorems of the component they are named
    after.  [Prelude] holds what is shared: integers of the machine, [run] and
    [reachable] of a labelled machine, lists; [GoStrings] the string functions of
    the Go library.

    ** How state and operations correspond

    A struct is a [Record] with the same field names, an enumeration an
    [Inductive] with the names of the constants (a prefix tells apart what two
    packages name alike), a method a [Definition] of the same name that takes the
    state and returns the new one.  An error is a value of a sum or an option.
    Durations and counters that can wrap are [Z] with the wrap-around or the
    saturation written out; counters that only order events are [nat].  Strings
    are byte strings.  A map is a [gmap]; where the source iterates over one, the
    iteration order is an argument and the theorems hold for all of them.

    Concurrency is explicit.  The dispatcher, the verdict cache, the session
    correlator, the circuit and the runtime manager are labelled machines: a
    label is one critical section, one atomic access, one call of other code or
    one iteration of a teardown, and a goroutine that is between two of them is
    part of the state with its program point.  [reachable] ranges over all interleavings.  What other code
    answers (an exporter, a scanner, a reporter, a context, a clock) comes in with
    the label or is a function the operations take.

    Crashes are explicit too.  The operations of the quarantine keep every state
    the file system and the database went through; a theorem about all of them is
    a theorem about every point where the process may stop.  What a copy or a
    removal in progress looks like, which calls fail and what other processes
    write meanwhile is chosen by an arbitrary environment ([OS]).

    ** What the theorems show

    - Redaction and routing: [Project_noninterference], [exporter_noninterference]
      and [redaction_as_planned] say that what leaves the machine depends on a
      record only through what the profile of the destination keeps;
      [log_accounted] and [mandatory_log_kept] that no mandatory record is lost
      silently; [durable_first] that no destination's copy is made before the
      store has the record; [deliveries_have_profiles], [pipeline_assembles],
      [compiled_plan_accepted] that a compiled plan has all it needs;
      [inventory_stays] and [managed_fallback_sound] the rules of a managed
      deployment; [Evaluate_first_match] is the routing function against its
      declarative reading.
    - Delivery: [Dispatcher_refines_queue] (simulation of a plain queue),
      [Dispatcher_exactly_once_in_order], [Dispatcher_conservation],
      [Drain_terminates], and in the same file the bounds of the queue and the
      completeness of Flush and Drain.
    - Runtime graph: [lease_safety] (nothing is torn down under a lease),
      [one_owner] and [WaitCleanup_complete] (nothing is leaked),
      [Acquire_linearizes], [reports_in_order], [cleanup_completes],
      [teardown_complete], [teardown_retries_failures], [generations_in_order],
      [local_settings_fixed]; [Close_report_lost] is a run that loses a report.
    - Gates: [ActionStore_refines] and [PolicyEngine_refines] (a table of rules as
      the specification), [admission_sound], [rejection_is_enforced],
      [scan_fails_closed], [blocked_asset_is_refused].
    - Watch: [watch_loop_refines_path] and [notified_is_admitted] (every install is
      admitted, once), [baseline_is_scanned] and [baseline_never_downgraded] (what
      counts as trusted was scanned), [drift_is_alerted], [unchanged_is_silent],
      [cycle_refines_visits], [compareSnapshots_exact], [diffFindings_exact],
      [content_hash_binds_tree] with its limit [content_hash_ambiguous],
      [extractEndpoints_exact], [poll_exact], [policy_change_forces_rescan].
    - Quarantine: [quarantine_crash_safe], [quarantine_is_write_ahead] and
      [restore_returns_asset] (no crash loses an asset, its record or what the
      record is needed for), [quarantine_verifies] (also against a program that
      keeps writing its directory), [stopped_quarantine_resumes] with its limit
      [interrupted_removal_is_stuck], [journal_invariant],
      [asset_hash_binds_tree] with its limit [asset_hash_ambiguous], and what can
      not be quarantined: [other_version_stays], [linked_asset_survives_block],
      [uncopyable_asset_stays].
    - Guardrails: [Evaluate_reports], [Correlation_once_per_partition],
      [MatchToolChains_exact], [VerdictCache_no_stale].
    - Network: [IsPrivateOrReserved_exact], [SafeDialContext_sound],
      [V8SafeDialContext_sound], [scrubRawQuery_hides].

    ** Fuel and bounds

    Recursion that is not structural runs on fuel that is computed from the input
    and proved to suffice: the detector and the scrubber of URLs consume at least
    one byte per unit, percent-decoding is bounded by the number of rounds the
    source allows, the draining of a dispatcher by a measure of its state, a
    teardown by its list of iterations.  Theorems state results, not only
    results in case there is one.

    ** Parameters

    Code of other modules is an argument with hypotheses that say what is
    documented of it: SHA-256 and HMAC, the regular expressions of the
    recognizers, the JSON encoder, the YAML parser, the URL parser, DNS and
    dialling, the failures of the SQL driver, the Rego evaluator, the
    generated tables of event identities and producers, the marshalling of a
    plan for its provenance and digest. Every theorem with such a hypothesis has
    a witness with concrete functions.

    ** Not modelled, and why

    HTTP servers, hook adapters and the command line (I/O over the components
    above); generated builders of telemetry records; rule packs, CEL and the
    shell classification behind action facts (tables and third-party
    evaluators); exporters and their wire formats (behind [Deliver]); scanners
    and sandboxes (processes); the direct enforcers behind the API, which move
    directories without the journal; migrations and the remaining tables of the
    store; installers and platform helpers; the parts of the repository in other
    languages. Of the modelled files: time stamps that nothing reads, test
    hooks, and periodic health snapshots. The runtime that starts the pipelines
    (observability/runtime/dispatch.go) and the loading of configuration files
    wire these components together and are left out with the formats they read.
    In the quarantine, paths that run through a link are refused (the code
    checks the ancestors of what it moves), and an asset that changes while its
    hash is computed is taken as it was at one moment. *)
From stdpp Require Import base list strings gmap.
From Stdlib Require Import ZArith Lia.

(** ** Notations of the development *)

Declare Scope go_scope.
Delimit Scope go_scope with go.

(** ** Tactics *)

(** [split_cases] splits every [if]/[match] of the goal and of the hypotheses
    on which the program branches, keeping the equations. *)
Ltac split_cases :=
  repeat (case_match; simplify_eq/=; try done).

(** [bool_facts] turns the boolean tests of the code into propositions. *)
Ltac bool_facts :=
  repeat match goal with
  | H : (_ && _)%bool = true |- _ => apply andb_true_iff in H as [? ?]
  | H : (_ || _)%bool = false |- _ => apply orb_false_iff in H as [? ?]
  | H : negb _ = true |- _ => apply negb_true_iff in H
  | H : negb _ = false |- _ => apply negb_false_iff in H
  | H : (_ <? _)%Z = true |- _ => apply Z.ltb_lt in H
  | H : (_ <? _)%Z = false |- _ => apply Z.ltb_ge in H
  | H : (_ <=? _)%Z = true |- _ => apply Z.leb_le in H
  | H : (_ <=? _)%Z = false |- _ => apply Z.leb_gt in H
  | H : (_ >? _)%Z = _ |- _ => rewrite Z.gtb_ltb in H
  | H : (_ >=? _)%Z = _ |- _ => rewrite Z.geb_leb in H
  | H : (_ =? _)%Z = true |- _ => apply Z.eqb_eq in H
  | H : (_ =? _)%Z = false |- _ => apply Z.eqb_neq in H
  | H : (_ =? _)%string = true |- _ => apply String.eqb_eq in H
  | H : (_ =? _)%string = false |- _ => apply String.eqb_neq in H
  end.

(** The hint database of the development: the components add the lemmas that
    automate their common cases. *)
Create HintDb claw.
Create Rewrite HintDb claw.

(** ** Machine integers *)

Definition two64 : Z := 18446744073709551616.
Definition two32 : Z := 4294967296.
Definition max_u64 : Z := two64 - 1.
Definition int_max : Z := 9223372036854775807.
Definition int_min : Z := -9223372036854775808.

(** Go's unsigned arithmetic wraps around. *)
Definition u64 (z : Z) : Z := z `mod` two64.
Definition u32 (z : Z) : Z := z `mod` two32.

(** Signed 64-bit arithmetic ([int], [int64], [time.Duration]) wraps around too. *)
Definition i64 (z : Z) : Z := (z - int_min) `mod` two64 + int_min.

Notation "a +u b" := (u64 (a + b)%Z) (at level 50, left associativity) : go_scope.

Lemma u64_range z : (0 <= u64 z < two64)%Z.
Proof. apply Z.mod_pos_bound. done. Qed.

Lemma u64_small z : (0 <= z < two64)%Z -> u64 z = z.
Proof. apply Z.mod_small. Qed.

Lemma u64_add_l a b : u64 (u64 a + b) = u64 (a + b).
Proof. apply Zplus_mod_idemp_l. Qed.

Lemma u64_add_r a b : u64 (a + u64 b) = u64 (a + b).
Proof. apply Zplus_mod_idemp_r. Qed.

Lemma u64_idemp a : u64 (u64 a) = u64 a.
Proof. apply Zmod_mod. Qed.

Lemma i64_small z : (int_min <= z <= int_max)%Z -> i64 z = z.
Proof.
  unfold i64, int_min, int_max, two64. intros Hz. rewrite Z.mod_small; lia.
Qed.

#[export] Hint Rewrite u64_add_l u64_add_r u64_idemp : claw.
#[export] Hint Resolve u64_range : claw.

(** [u64_eq] proves [u64 a = u64 b] when [a] and [b] are equal integers, after
    the nested wrap-arounds are removed. *)
Ltac u64_eq := autorewrite with claw; f_equal; try lia.

(** ** Instants and durations

    [time.Time] is the number of nanoseconds since the zero [Time]: the zero
    value is [0], [Before] is [<] and [UTC] does not change the instant.
    [time.Duration] is its number of nanoseconds. *)
Abbreviation Time := Z (only parsing).
Abbreviation Duration := Z (only parsing).

Definition zero_time : Z := 0.
Definition IsZero (t : Z) : bool := (t =? zero_time)%Z.
Definition Before (a b : Z) : bool := (a <? b)%Z.
Definition After (a b : Z) : bool := (b <? a)%Z.

Definition Nanosecond : Z := 1.
Definition Millisecond : Z := 1000000.
Definition Second : Z := 1000000000.
Definition Minute : Z := 60 * Second.
Definition Hour : Z := 60 * Minute.

(** [Time.Sub] saturates at the limits of a [Duration]. *)
Definition Sub (a b : Z) : Z := Z.max int_min (Z.min int_max (a - b)).

Lemma Sub_gtb a b d : (int_min <= d < int_max)%Z -> (Sub a b >? d)%Z = (a - b >? d)%Z.
Proof.
  unfold Sub, int_min, int_max. intros Hd.
  destruct (Z.gtb_spec (a - b) d), (Z.gtb_spec (Z.max (-9223372036854775808)
    (Z.min 9223372036854775807 (a - b))) d); lia.
Qed.

(** ** Errors of other components

    What [errors.Is] finds in an error whose text is not looked at. *)
Record ExternalError := mkExternal { is_Canceled : bool; is_DeadlineExceeded : bool }.

(** ** State machines with a trace

    A component whose operations interleave is a partial function [step] from a
    label and a state to the next state and the events of the step.  [run]
    executes a sequence of labels and [reachable] is its inductive form, the
    one invariants are proved on by rule induction. *)
Section Machine.
Context {S L E : Type} (step : L -> S -> option (S * list E)).

Fixpoint run (ls : list L) (s : S) : option (S * list E) :=
  match ls with
  | [] => Some (s, [])
  | l :: ls' =>
      match step l s with
      | None => None
      | Some (s', es) =>
          match run ls' s' with
          | None => None
          | Some (s'', es') => Some (s'', es ++ es')
          end
      end
  end.

Inductive reachable (s0 : S) : list L -> S -> list E -> Prop :=
| reach_init : reachable s0 [] s0 []
| reach_step ls s tr l s' es :
    reachable s0 ls s tr ->
    step l s = Some (s', es) ->
    reachable s0 (ls ++ [l]) s' (tr ++ es).

Lemma reachable_trans s0 ls1 s1 tr1 ls2 s2 tr2 :
  reachable s0 ls1 s1 tr1 -> reachable s1 ls2 s2 tr2 ->
  reachable s0 (ls1 ++ ls2) s2 (tr1 ++ tr2).
Proof.
  intros H1 H2. induction H2 as [|ls s tr l s' es _ IH Hs].
  - by rewrite !app_nil_r.
  - rewrite !(assoc_L (++)). by econstructor.
Qed.

Lemma run_app ls1 ls2 s s1 tr1 s2 tr2 :
  run ls1 s = Some (s1, tr1) -> run ls2 s1 = Some (s2, tr2) -> run (ls1 ++ ls2) s = Some (s2, tr1 ++ tr2).
Proof.
  revert s tr1. induction ls1 as [|l ls1 IH]; intros s tr1; cbn; [by intros [= -> <-] ->|].
  destruct (step l s) as [[s' es]|]; [|done]. destruct (run ls1 s') as [[s'' es']|] eqn:Hr; [|done].
  intros [= -> <-] H2. by rewrite (IH _ _ Hr H2), (assoc_L (++)).
Qed.

Lemma run_reachable ls s0 s tr : run ls s0 = Some (s, tr) -> reachable s0 ls s tr.
Proof.
  revert s0 tr. induction ls as [|l ls IH]; intros s0 tr; simpl.
  - intros [= <- <-]. constructor.
  - destruct (step l s0) as [[s1 es]|] eqn:Hs; [|done].
    destruct (run ls s1) as [[s2 es']|] eqn:Hr; [|done]. intros [= <- <-].
    apply (reachable_trans s0 [l] s1 es); [|by apply IH].
    apply (reach_step s0 [] s0 [] l s1 es); [constructor|done].
Qed.

(** Rule induction: what holds initially and is preserved by every step holds
    in every reachable state. *)
Lemma reachable_ind_inv (P : list L -> S -> list E -> Prop) s0 :
  P [] s0 [] ->
  (forall ls s tr l s' es,
    P ls s tr -> step l s = Some (s', es) -> P (ls ++ [l]) s' (tr ++ es)) ->
  forall ls s tr, reachable s0 ls s tr -> P ls s tr.
Proof. intros H0 HS ls s tr H. induction H; eauto. Qed.

Lemma reachable_invariant (P : S -> Prop) s0 :
  P s0 ->
  (forall l s s' es, P s -> step l s = Some (s', es) -> P s') ->
  forall ls s tr, reachable s0 ls s tr -> P s.
Proof.
  intros H0 HS. apply (reachable_ind_inv (fun _ s _ => P s)); eauto.
Qed.
End Machine.

(** ** Lists *)

Definition sumZ {A} (f : A -> Z) (l : list A) : Z := foldr (fun x acc => f x + acc)%Z 0%Z l.

Lemma sumZ_app {A} (f : A -> Z) l k : sumZ f (l ++ k) = (sumZ f l + sumZ f k)%Z.
Proof. induction l as [|x l IH]; simpl; [done|]. rewrite IH. lia. Qed.

Lemma sumZ_nonneg {A} (f : A -> Z) l : (forall x, 0 <= f x)%Z -> (0 <= sumZ f l)%Z.
Proof. intros Hf. induction l as [|x l IH]; simpl; [done|]. specialize (Hf x). lia. Qed.

Definition zlen {A} (l : list A) : Z := Z.of_nat (length l).

Lemma zlen_app {A} (l k : list A) : zlen (l ++ k) = (zlen l + zlen k)%Z.
Proof. unfold zlen. rewrite length_app. lia. Qed.

Lemma zlen_nonneg {A} (l : list A) : (0 <= zlen l)%Z.
Proof. unfold zlen. lia. Qed.

#[export] Hint Rewrite @zlen_app @sumZ_app : claw.
#[export] Hint Resolve zlen_nonneg : claw.

Lemma sublist_rev {A} (l k : list A) : l `sublist_of` k -> reverse l `sublist_of` reverse k.
Proof.
  induction 1; [done| |]; rewrite ?reverse_cons; [by apply sublist_app|by apply sublist_inserts_r].
Qed.
