(* ===== verification/GoStrings.v ===== *)
(** * Go strings

    A Go [string] (and an immutable [[]byte]) is a sequence of bytes, here a
    [string].  The functions of the packages [strings] and [unicode/utf8] that
    the program calls are defined on the bytes.  The case tables and the space
    class of Unicode are the class [GoUnicode]: like Go, the functions use
    their own ASCII loop on strings of ASCII bytes and consult the tables only
    when a string has a byte of 0x80 or more. *)
From stdpp Require Import base list strings.
From Stdlib Require Import ZArith Lia Ascii.
From S2P Require Import Prelude.

Local Open Scope string_scope.

(** [len(s)] *)
Definition slen (s : string) : Z := Z.of_nat (String.length s).

Definition byte_of (c : ascii) : nat := nat_of_ascii c.

Fixpoint sall (f : ascii -> bool) (s : string) : bool :=
  match s with
  | "" => true
  | String c r => f c && sall f r
  end.

Fixpoint smap (f : ascii -> ascii) (s : string) : string :=
  match s with
  | "" => ""
  | String c r => String (f c) (smap f r)
  end.

Definition is_ascii_byte (c : ascii) : bool := (byte_of c <? 128)%nat.
Definition is_ascii (s : string) : bool := sall is_ascii_byte s.

Definition byte_in (lo hi : nat) (c : ascii) : bool :=
  ((lo <=? byte_of c)%nat && (byte_of c <=? hi)%nat)%bool.

Definition ascii_upper (c : ascii) : ascii :=
  if byte_in 97 122 c then ascii_of_nat (byte_of c - 32) else c.
Definition ascii_lower (c : ascii) : ascii :=
  if byte_in 65 90 c then ascii_of_nat (byte_of c + 32) else c.

(** ASCII white space of [strings.TrimSpace]: \t \n \v \f \r and the blank. *)
Definition ascii_space (c : ascii) : bool := byte_in 9 13 c || (byte_of c =? 32)%nat.

(** The Unicode tables behind [strings.ToUpper], [ToLower], [TrimSpace] and
    [EqualFold], consulted only for strings with a byte of 0x80 or more. *)
Class GoUnicode := {
  unicode_upper : string -> string;
  unicode_lower : string -> string;
  unicode_trim : string -> string;
  unicode_fold : string -> string -> bool;
  unicode_quote : string -> string;
}.

(** Tables that leave such strings unchanged: the instance of the witnesses. *)
Definition ascii_only : GoUnicode := {|
  unicode_upper s := s; unicode_lower s := s; unicode_trim s := s;
  unicode_fold := String.eqb; unicode_quote s := s |}.

Fixpoint trim_left (f : ascii -> bool) (s : string) : string :=
  match s with
  | "" => ""
  | String c r => if f c then trim_left f r else s
  end.

Fixpoint trim_right (f : ascii -> bool) (s : string) : string :=
  match s with
  | "" => ""
  | String c r =>
      match trim_right f r with
      | "" => if f c then "" else String c ""
      | r' => String c r'
      end
  end.

Section Unicode.
Context {U : GoUnicode}.

Definition ToUpper (s : string) : string :=
if is_ascii s then smap ascii_upper s else unicode_upper s.

Definition ToLower (s : string) : string :=
if is_ascii s then smap ascii_lower s else unicode_lower s.

Definition TrimSpace (s : string) : string :=
if is_ascii s then trim_right ascii_space (trim_left ascii_space s) else unicode_trim s.

Definition EqualFold (s t : string) : bool :=
if is_ascii s && is_ascii t then smap ascii_lower s =? smap ascii_lower t
else unicode_fold s t.
End Unicode.

(** [strings.HasPrefix], [HasSuffix], [Contains], [TrimPrefix] *)
Fixpoint HasPrefix (s prefix : string) : bool :=
  match prefix, s with
  | "", _ => true
  | String p ps, String c cs => Ascii.eqb p c && HasPrefix cs ps
  | String _ _, "" => false
  end.

Fixpoint HasSuffix (s suffix : string) : bool :=
  (s =? suffix) ||
  match s with
  | "" => false
  | String _ r => HasSuffix r suffix
  end.

Fixpoint Contains (s sub : string) : bool :=
  HasPrefix s sub ||
  match s with
  | "" => false
  | String _ r => Contains r sub
  end.

(** [strings.ReplaceAll] for a one-byte pattern. *)
Fixpoint ReplaceByte (s : string) (old : ascii) (new : string) : string :=
  match s with
  | "" => ""
  | String c r => (if Ascii.eqb c old then new else String c "") ++ ReplaceByte r old new
  end.

(** [strings.Join] *)
Fixpoint Join (l : list string) (sep : string) : string :=
  match l with
  | [] => ""
  | [x] => x
  | x :: r => x ++ sep ++ Join r sep
  end.

(** [strings.Trim] with a cut set of ASCII bytes. *)
Definition TrimCut (s : string) (cutset : ascii -> bool) : string :=
  trim_right cutset (trim_left cutset s).

(** [strings.Split] at a separator of one byte. *)
Fixpoint SplitByte (s : string) (sep : ascii) : list string :=
  match s with
  | "" => [""]
  | String c r =>
      if Ascii.eqb c sep then "" :: SplitByte r sep
      else match SplitByte r sep with
           | [] => [String c ""]
           | w :: ws => String c w :: ws
           end
  end.

(** The byte 0, the separator of the composite keys of the program. *)
Definition NUL : string := String zero "".

(** [utf8.ValidString]: the well-formed byte sequences of the UTF-8 table
    (overlong forms, surrogates and code points above 0x10FFFF excluded). *)
Definition cont_byte : ascii -> bool := byte_in 128 191.

Fixpoint valid_utf8 (s : string) : bool :=
  match s with
  | "" => true
  | String c r =>
      if byte_in 0 127 c then valid_utf8 r
      else if byte_in 194 223 c then
        match r with
        | String c1 r1 => cont_byte c1 && valid_utf8 r1
        | _ => false
        end
      else if byte_in 224 239 c then
        match r with
        | String c1 (String c2 r2) =>
            (if (byte_of c =? 224)%nat then byte_in 160 191 c1
             else if (byte_of c =? 237)%nat then byte_in 128 159 c1 else cont_byte c1)
            && cont_byte c2 && valid_utf8 r2
        | _ => false
        end
      else if byte_in 240 244 c then
        match r with
        | String c1 (String c2 (String c3 r3)) =>
            (if (byte_of c =? 240)%nat then byte_in 144 191 c1
             else if (byte_of c =? 244)%nat then byte_in 128 143 c1 else cont_byte c1)
            && cont_byte c2 && cont_byte c3 && valid_utf8 r3
        | _ => false
        end
      else false
  end.

(** ** Lemmas *)

Lemma sapp_assoc (a b c : string) : a ++ b ++ c = (a ++ b) ++ c.
Proof. induction a as [|x a IH]; [done|]. exact (f_equal (String x) IH). Qed.

Lemma sapp_nil_r (a : string) : a ++ "" = a.
Proof. induction a as [|x a IH]; [done|]. exact (f_equal (String x) IH). Qed.

Lemma slen_nonneg s : (0 <= slen s)%Z.
Proof. unfold slen. lia. Qed.

Lemma sapp_inv_head a b c : a ++ b = a ++ c -> b = c.
Proof. induction a as [|x a IH]; [done|]. intros H. injection H. exact IH. Qed.

(** A separator that occurs in neither prefix splits a concatenation in one
    way only. *)
Definition has_nul (s : string) : bool := negb (sall (fun c => negb (Ascii.eqb c zero)) s).

Definition avoids (z : ascii) (s : string) : bool := sall (fun c => negb (Ascii.eqb c z)) s.

Lemma sep_split z a a' b b' :
  avoids z a = true -> avoids z a' = true ->
  a ++ String z b = a' ++ String z b' -> a = a' /\ b = b'.
Proof.
  unfold avoids. revert a'. induction a as [|x a IH]; intros [|x' a'] Ha Ha' H; injection H.
  - intros Hb. split; [done|exact Hb].
  - intros _ <-. simpl in Ha'. by rewrite Ascii.eqb_refl in Ha'.
  - intros _ ->. simpl in Ha. by rewrite Ascii.eqb_refl in Ha.
  - intros Heq ->. apply andb_true_iff in Ha as [_ Ha], Ha' as [_ Ha'].
    destruct (IH a' Ha Ha' Heq) as [-> ->]; done.
Qed.

Lemma nul_split a a' b b' :
  has_nul a = false -> has_nul a' = false ->
  a ++ NUL ++ b = a' ++ NUL ++ b' -> a = a' /\ b = b'.
Proof. unfold has_nul. intros ?%negb_false_iff ?%negb_false_iff. by apply sep_split. Qed.

Lemma HasPrefix_spec s p : HasPrefix s p = true <-> exists r, s = p ++ r.
Proof.
  revert s. induction p as [|x p IH]; intros s; simpl.
  - split; [by exists s|]. by destruct s.
  - destruct s as [|c s]; simpl; [split; [done|by intros [r H]]|].
    rewrite andb_true_iff, Ascii.eqb_eq, IH. split.
    + intros [-> [r ->]]. by exists r.
    + intros [r H]. injection H. intros -> ->. eauto.
Qed.

#[export] Hint Resolve slen_nonneg : claw.

(** ** Evaluation on concrete inputs *)

Example ToUpper_ex : ToUpper (U := ascii_only) "High" = "HIGH".
Proof. reflexivity. Qed.
Example TrimSpace_ex : TrimSpace (U := ascii_only) "  a b " = "a b".
Proof. reflexivity. Qed.
Example HasSuffix_ex : HasSuffix "run_shell" "_shell" = true.
Proof. reflexivity. Qed.
Example Contains_ex : Contains "a/.defenseclaw/x" ".defenseclaw" = true.
Proof. reflexivity. Qed.
Example valid_utf8_ex :
  valid_utf8 (String (ascii_of_nat 195) (String (ascii_of_nat 169) "")) = true
  /\ valid_utf8 (String (ascii_of_nat 192) (String (ascii_of_nat 128) "")) = false.
Proof. split; reflexivity. Qed.

(** ** Hexadecimal (encoding/hex) *)

Local Open Scope Z_scope.

Definition hex_digit (n : Z) : ascii :=
  ascii_of_nat (Z.to_nat (if n <? 10 then 48 + n else 87 + n)).

(** [hex.EncodeToString] *)
Fixpoint hex_encode (s : string) : string :=
  match s with
  | EmptyString => ""
  | String c r => String (hex_digit (Z.of_nat (byte_of c) / 16))
                    (String (hex_digit (Z.of_nat (byte_of c) mod 16)) (hex_encode r))
  end.

(** [hex.DecodeString] succeeds: an even number of hexadecimal digits. *)
Definition is_hex (c : ascii) : bool := byte_in 48 57 c || byte_in 97 102 c || byte_in 65 70 c.
Definition hex_decodes (s : string) : bool := (slen s mod 2 =? 0) && sall is_hex s.

Lemma app_eq_length (a b c d : string) :
  String.length a = String.length b -> (a ++ c)%string = (b ++ d)%string -> a = b /\ c = d.
Proof.
  revert b. induction a as [|x a IH]; intros [|y b]; simpl; try done.
  intros [= Hl] Heq. injection Heq as -> Heq. destruct (IH b Hl Heq) as [-> ->]. done.
Qed.

Lemma ascii_byte_inj a b : (a < 256)%nat -> (b < 256)%nat -> ascii_of_nat a = ascii_of_nat b -> a = b.
Proof. intros Ha Hb H. by rewrite <- (nat_ascii_embedding a Ha), <- (nat_ascii_embedding b Hb), H. Qed.

Lemma hex_digit_inj a b : 0 <= a < 16 -> 0 <= b < 16 -> hex_digit a = hex_digit b -> a = b.
Proof.
  unfold hex_digit. intros Ha Hb H. apply ascii_byte_inj in H; destruct (Z.ltb_spec a 10), (Z.ltb_spec b 10); lia.
Qed.

Lemma hex_encode_inj s : forall t, hex_encode s = hex_encode t -> s = t.
Proof.
  induction s as [|c s IH]; intros [|d t]; simpl; try done. intros H.
  injection H as H1 H2 H3. apply IH in H3 as ->. f_equal. unfold byte_of in *.
  pose proof (nat_ascii_bounded c). pose proof (nat_ascii_bounded d).
  apply hex_digit_inj in H1, H2; try (apply Z.mod_pos_bound; lia);
    try (split; [apply Z.div_pos; lia|apply Z.div_lt_upper_bound; lia]).
  rewrite <- (ascii_nat_embedding c), <- (ascii_nat_embedding d). f_equal.
  pose proof (Z.div_mod (Z.of_nat (nat_of_ascii c)) 16 ltac:(lia)).
  pose proof (Z.div_mod (Z.of_nat (nat_of_ascii d)) 16 ltac:(lia)). lia.
Qed.

Lemma hex_encode_length s : slen (hex_encode s) = 2 * slen s.
Proof. unfold slen. induction s as [|c s IH]; simpl in *; lia. Qed.

(** [strconv.Quote], the verb [%q]: the ASCII escapes; a string with other
    bytes is escaped by the tables of Unicode. *)
Definition byte_string (n : nat) : string := String (ascii_of_nat n) "".
Definition QUOTE : string := byte_string 34.

Definition quote_byte (c : ascii) : string :=
  let n := byte_of c in
  if (n =? 34)%nat then byte_string 92 ++ QUOTE
  else if (n =? 92)%nat then byte_string 92 ++ byte_string 92
  else if (32 <=? n)%nat && (n <? 127)%nat then String c ""
  else byte_string 92 ++
    (if (n =? 7)%nat then "a" else if (n =? 8)%nat then "b" else if (n =? 12)%nat then "f"
     else if (n =? 10)%nat then "n" else if (n =? 13)%nat then "r" else if (n =? 9)%nat then "t"
     else if (n =? 11)%nat then "v" else "x" ++ hex_encode (String c "")).

Fixpoint quote_bytes (s : string) : string :=
  match s with EmptyString => "" | String c r => quote_byte c ++ quote_bytes r end.

Definition Quote {U : GoUnicode} (s : string) : string :=
  QUOTE ++ (if is_ascii s then quote_bytes s else unicode_quote s) ++ QUOTE.

(** [filepath.Base] on a system whose only separator is the slash. *)
Definition is_slash (c : ascii) : bool := (byte_of c =? 47)%nat.

Definition filepath_Base (path : string) : string :=
  if (path =? "")%string then "."
  else match List.last (SplitByte (trim_right is_slash path) (ascii_of_nat 47)) "" with
       | EmptyString => "/"
       | base => base
       end.

Example filepath_Base_ok :
  filepath_Base "/usr/bin/node" = "node" /\ filepath_Base "a/b//" = "b" /\
  filepath_Base "///" = "/" /\ filepath_Base "" = "." /\ filepath_Base "sh" = "sh".
Proof. repeat split. Qed.

(** ** Text in JSON (encoding/json) *)

(** json.Marshal writes each byte that does not belong to a UTF-8 sequence as
    U+FFFD; reading the text back gives the sequence of U+FFFD. *)
Definition replacement : string :=
  String (ascii_of_nat 239) (String (ascii_of_nat 191) (String (ascii_of_nat 189) "")).

Definition second_ok (c c1 : ascii) : bool :=
  if (byte_of c =? 224)%nat then byte_in 160 191 c1
  else if (byte_of c =? 237)%nat then byte_in 128 159 c1
  else if (byte_of c =? 240)%nat then byte_in 144 191 c1
  else if (byte_of c =? 244)%nat then byte_in 128 143 c1
  else cont_byte c1.

Fixpoint json_string (s : string) : string :=
  match s with
  | "" => ""
  | String c r =>
      if byte_in 0 127 c then String c (json_string r)
      else if byte_in 194 223 c then
        match r with
        | String c1 r1 => if cont_byte c1 then String c (String c1 (json_string r1)) else replacement ++ json_string r
        | "" => replacement
        end
      else if byte_in 224 239 c then
        match r with
        | String c1 (String c2 r2) =>
            if second_ok c c1 && cont_byte c2 then String c (String c1 (String c2 (json_string r2)))
            else replacement ++ json_string r
        | _ => replacement ++ json_string r
        end
      else if byte_in 240 244 c then
        match r with
        | String c1 (String c2 (String c3 r3)) =>
            if second_ok c c1 && cont_byte c2 && cont_byte c3
            then String c (String c1 (String c2 (String c3 (json_string r3))))
            else replacement ++ json_string r
        | _ => replacement ++ json_string r
        end
      else replacement ++ json_string r
  end.

(** ** Text in SQLite

    LOWER and the collation NOCASE fold ASCII letters only; TRIM cuts blanks only. *)
Definition sql_lower (s : string) : string := smap ascii_lower s.
Definition sql_trim (s : string) : string := TrimCut s (fun c => (byte_of c =? 32)%nat).
Definition sql_norm (s : string) : string := sql_lower (sql_trim s).

(** ASCII text without white space is the same for Go and for SQLite. *)
Definition plain_byte (c : ascii) : bool := is_ascii_byte c && negb (ascii_space c).
Definition plain_text (s : string) : bool := sall plain_byte s.

Lemma sall_weaken (f g : ascii -> bool) s : (forall c, f c = true -> g c = true) -> sall f s = true -> sall g s = true.
Proof.
  intros H. induction s as [|c s IH]; [done|]. cbn. rewrite !andb_true_iff. intros [Hc Hs]. auto.
Qed.

Lemma trim_nothing (f : ascii -> bool) s : sall (fun c => negb (f c)) s = true -> trim_right f (trim_left f s) = s.
Proof.
  assert (Hr : forall s, sall (fun c => negb (f c)) s = true -> trim_right f s = s).
  { clear s. induction s as [|c s IH]; [done|]. cbn. intros [Hc%negb_true_iff Hs]%andb_true_iff. rewrite (IH Hs).
    destruct s; [by rewrite Hc|done]. }
  intros Hs. destruct s as [|c s]; [done|]. cbn in Hs |- *. apply andb_true_iff in Hs as [Hc%negb_true_iff Hs].
  rewrite Hc. apply Hr. cbn. by rewrite Hc, Hs.
Qed.

Lemma plain_byte_blank c : plain_byte c = true -> negb (byte_of c =? 32)%nat = true.
Proof.
  unfold plain_byte, ascii_space. intros [_ H%negb_true_iff]%andb_true_iff. apply orb_false_iff in H as [_ H]. by rewrite H.
Qed.

Lemma plain_text_ascii s : plain_text s = true -> is_ascii s = true.
Proof. apply sall_weaken. intros c [H _]%andb_true_iff. exact H. Qed.

Lemma TrimSpace_plain {U : GoUnicode} s : plain_text s = true -> TrimSpace s = s.
Proof.
  intros H. unfold TrimSpace. rewrite plain_text_ascii by done. apply trim_nothing. revert H. apply sall_weaken.
  by intros c [_ H]%andb_true_iff.
Qed.

Lemma ToLower_plain {U : GoUnicode} s : plain_text s = true -> ToLower s = sql_lower s.
Proof. intros H. unfold ToLower. by rewrite plain_text_ascii. Qed.

Lemma sql_trim_plain s : plain_text s = true -> sql_trim s = s.
Proof. intros H. apply trim_nothing. revert H. apply sall_weaken, plain_byte_blank. Qed.
