(* ===== verification/Taxonomy.v ===== *)
(** * The telemetry vocabulary (internal/observability/taxonomy.go, event_registry.go)

    Buckets, signals, severities, stable tokens, event names and the identity of
    a family; the normalisation of a severity; the validation of a selector.
    The set of registered identities is generated and a parameter. *)
From stdpp Require Import base list gmap strings.
From Stdlib Require Import ZArith Lia Ascii.
From S2P Require Import Prelude GoStrings.

Local Open Scope string_scope.

(** ** Closed lists *)

Definition CurrentBucketCatalogVersion : Z := 1.

Definition BucketEnforcementAction : string := "enforcement.action".
Definition BucketAIDiscovery : string := "ai.discovery".
Definition BucketPlatformHealth : string := "platform.health".

Definition Buckets : list string :=
  ["compliance.activity"; "security.finding"; "guardrail.evaluation"; BucketEnforcementAction;
   "model.io"; "tool.activity"; "asset.scan"; "asset.lifecycle"; "network.egress";
   "agent.lifecycle"; BucketAIDiscovery; "telemetry.ingest"; BucketPlatformHealth; "diagnostic"].

Definition IsBucket (bucket : string) : bool := existsb (String.eqb bucket) Buckets.

Definition SignalLogs : string := "logs".
Definition SignalTraces : string := "traces".
Definition SignalMetrics : string := "metrics".
Definition Signals : list string := [SignalLogs; SignalTraces; SignalMetrics].

Definition IsSignal (signal : string) : bool := existsb (String.eqb signal) Signals.

Definition SourceOTelReceiver : string := "otel_receiver".

(** ** Severities *)

Definition SeverityInfo : string := "INFO".
Definition SeverityLow : string := "LOW".
Definition SeverityMedium : string := "MEDIUM".
Definition SeverityHigh : string := "HIGH".
Definition SeverityCritical : string := "CRITICAL".
Definition Severities : list string :=
  [SeverityInfo; SeverityLow; SeverityMedium; SeverityHigh; SeverityCritical].

Fixpoint rank_from (index : Z) (order : list string) (severity : string) : option Z :=
  match order with
  | [] => None
  | candidate :: r => if candidate =? severity then Some (index + 1)%Z else rank_from (index + 1)%Z r severity
  end.

(** [None] for the second result false. *)
Definition SeverityRank (severity : string) : option Z := rank_from 0 Severities severity.

Record SeverityNormalization := mkSev {
  Severity : string;
  LogLevel : string;
  Present : bool;
  Valid : bool;
  CleanEvaluation : bool;
  LegacyAcknowledged : bool;
}.

Section Severity.
Context {U : GoUnicode}.

Definition NormalizeSeverity (value : string) : SeverityNormalization :=
  let normalized := ToUpper (TrimSpace value) in
  let canonical severity level := mkSev severity level true true false false in
  if normalized =? "NONE" then mkSev SeverityInfo "" true true true false
  else if normalized =? "TRACE" then canonical SeverityInfo "TRACE"
  else if normalized =? "DEBUG" then canonical SeverityInfo "DEBUG"
  else if normalized =? "INFO" then canonical SeverityInfo "INFO"
  else if normalized =? "LOW" then canonical SeverityLow ""
  else if (normalized =? "WARN") || (normalized =? "WARNING") then canonical SeverityMedium "WARN"
  else if normalized =? "MEDIUM" then canonical SeverityMedium ""
  else if normalized =? "ERROR" then canonical SeverityHigh "ERROR"
  else if normalized =? "HIGH" then canonical SeverityHigh ""
  else if normalized =? "FATAL" then canonical SeverityCritical "FATAL"
  else if normalized =? "CRITICAL" then canonical SeverityCritical ""
  else if normalized =? "" then mkSev "" "" false true false false
  else mkSev "" "" false false false false.

Definition NormalizeLegacyAuditSeverity (action value : string) : SeverityNormalization :=
  if negb (EqualFold (TrimSpace value) "ACK") then NormalizeSeverity value
  else if (action =? "acknowledge-alerts") || (action =? "dismiss-alerts") || (action =? "dismiss-alert")
  then mkSev SeverityInfo "INFO" true true false true
  else mkSev "" "" false true false true.
End Severity.

(** ** Tokens and names *)

Definition MaxStableTokenBytes : Z := 128.
Definition stable_first (c : ascii) : bool := byte_in 97 122 c || byte_in 48 57 c.
Definition stable_byte (c : ascii) : bool :=
  stable_first c || Ascii.eqb c "_" || Ascii.eqb c "." || Ascii.eqb c "-".

(** [ValidateStableToken]: the pattern ^[a-z0-9][a-z0-9_.-]*$ and its bound. *)
Definition IsStableToken (value : string) : bool :=
  match value with
  | "" => false
  | String c r => (slen value <=? MaxStableTokenBytes)%Z && stable_first c && sall stable_byte r
  end.

Definition lower_byte (c : ascii) : bool := byte_in 97 122 c.
Definition name_byte (c : ascii) : bool := lower_byte c || byte_in 48 57 c || Ascii.eqb c "_".

(** [eventNamePattern], dotted segments that start with a letter, after the first byte. *)
Fixpoint name_rest (s : string) : bool :=
  match s with
  | "" => true
  | String c r =>
      if Ascii.eqb c "." then match r with "" => false | String d r' => lower_byte d && name_rest r' end
      else name_byte c && name_rest r
  end.

Definition EventName_Validate (name : string) : bool :=
  match name with "" => false | String c r => lower_byte c && name_rest r end.

(** ** Identities *)

Record EventIdentity := mkIdentity { id_Bucket : string; id_Signal : string; id_Name : string }.

#[export] Instance EventIdentity_eq_dec : EqDecision EventIdentity.
Proof. solve_decision. Defined.

Section Registry.
(** [registeredEventIdentitySet] and [registeredEventNameSet]. *)
Variable registered : EventIdentity -> bool.

Definition IsRegisteredEventIdentity (identity : EventIdentity) : bool :=
  IsBucket (id_Bucket identity) && IsSignal (id_Signal identity) &&
  EventName_Validate (id_Name identity) && registered identity.

Inductive IdentityError := UnknownBucket | UnknownSignal | InvalidName | NotRegistered.

Definition EventIdentity_Validate (identity : EventIdentity) : option IdentityError :=
  if negb (IsBucket (id_Bucket identity)) then Some UnknownBucket
  else if negb (IsSignal (id_Signal identity)) then Some UnknownSignal
  else if negb (EventName_Validate (id_Name identity)) then Some InvalidName
  else if negb (IsRegisteredEventIdentity identity) then Some NotRegistered
  else None.

Lemma EventIdentity_Validate_None identity :
  EventIdentity_Validate identity = None <-> IsRegisteredEventIdentity identity = true.
Proof.
  unfold EventIdentity_Validate, IsRegisteredEventIdentity.
  destruct (IsBucket _), (IsSignal _), (EventName_Validate _), (registered _); done.
Qed.
End Registry.

(** ** Selectors *)

Record Selector := mkSelector {
  sel_Buckets : list string;
  sel_Sources : list string;
  sel_Connectors : list string;
  sel_Actions : list string;
  sel_EventNames : list string;
  sel_MinSeverity : string;
}.

Inductive SelectorError :=
| WildcardNotAlone (field : string) | EmptyValue (field : string) | DuplicateValue (field value : string)
| BadValue (field value : string) | UnknownMinSeverity (severity : string).

(** The loop of [validateWildcardValues]; [total] is the length of the list. *)
Fixpoint wildcard_loop (field : string) (total : nat) (validate : string -> bool) (seen values : list string) :
    option SelectorError :=
  match values with
  | [] => None
  | value :: r =>
      if value =? "*" then
        if negb (total =? 1)%nat then Some (WildcardNotAlone field)
        else wildcard_loop field total validate seen r
      else if value =? "" then Some (EmptyValue field)
      else if bool_decide (value ∈ seen) then Some (DuplicateValue field value)
      else if negb (validate value) then Some (BadValue field value)
      else wildcard_loop field total validate (value :: seen) r
  end.

Definition validateWildcardValues (field : string) (values : list string) (validate : string -> bool) :
    option SelectorError :=
  wildcard_loop field (length values) validate [] values.

(** The first error of a sequence of checks. *)
Definition first_error {E} (checks : list (option E)) : option E := head (omap id checks).

Definition Selector_Validate (s : Selector) : option SelectorError :=
  first_error [
    validateWildcardValues "buckets" (sel_Buckets s) IsBucket;
    validateWildcardValues "sources" (sel_Sources s) (fun _ => true);
    validateWildcardValues "connectors" (sel_Connectors s) (fun _ => true);
    validateWildcardValues "actions" (sel_Actions s) (fun _ => true);
    validateWildcardValues "event_names" (sel_EventNames s) EventName_Validate;
    if sel_MinSeverity s =? "" then None
    else match SeverityRank (sel_MinSeverity s) with
         | Some _ => None
         | None => Some (UnknownMinSeverity (sel_MinSeverity s))
         end].

(** ** Lemmas *)

Lemma IsBucket_elem b : IsBucket b = true <-> b ∈ Buckets.
Proof.
  unfold IsBucket. rewrite existsb_exists. split.
  - intros (x & Hx & ->%String.eqb_eq). by apply list_elem_of_In.
  - intros H. exists b. split; [by apply list_elem_of_In|apply String.eqb_refl].
Qed.

Lemma IsSignal_elem s : IsSignal s = true <-> s ∈ Signals.
Proof.
  unfold IsSignal. rewrite existsb_exists. split.
  - intros (x & Hx & ->%String.eqb_eq). by apply list_elem_of_In.
  - intros H. exists s. split; [by apply list_elem_of_In|apply String.eqb_refl].
Qed.

Lemma Buckets_NoDup : NoDup Buckets.
Proof. apply (bool_decide_unpack _). vm_compute. exact I. Qed.

Lemma SeverityRank_elem s : is_Some (SeverityRank s) <-> s ∈ Severities.
Proof.
  unfold SeverityRank. generalize 0%Z. induction Severities as [|x l IH]; intros i; cbn [rank_from].
  - split; [intros []; done|set_solver].
  - destruct (x =? s) eqn:E.
    + apply String.eqb_eq in E as ->. split; [set_solver|eauto].
    + apply String.eqb_neq in E. rewrite IH. set_solver.
Qed.

(** What a normalisation yields is canonical. *)
Definition normal_ok (n : SeverityNormalization) : Prop :=
  (Present n = true -> Severity n ∈ Severities) /\ (Present n = false -> Severity n = "").

Lemma NormalizeSeverity_ok {U : GoUnicode} value : normal_ok (NormalizeSeverity value).
Proof.
  unfold NormalizeSeverity. repeat case_match; split; try done; intros _; cbn; set_solver.
Qed.

Lemma NormalizeLegacyAuditSeverity_ok {U : GoUnicode} action value :
  normal_ok (NormalizeLegacyAuditSeverity action value).
Proof.
  unfold NormalizeLegacyAuditSeverity. case_match; [apply NormalizeSeverity_ok|].
  case_match; split; try done; intros _; cbn; set_solver.
Qed.
