(* ===== verification/Classification.v ===== *)
(** * Classification of producers (internal/observability/classification.go)

    A producer names itself by a kind and a key; the registry fixes its bucket,
    its event name, its severity policy and the rules under which its record is
    mandatory.  [Resolve] turns the typed facts of a call site into the identity,
    severity and mandatory flag of a log.  The tables of the registry are
    generated (zz_generated_telemetry_producers.go) and are parameters. *)
From stdpp Require Import base list gmap strings sorting.
From Stdlib Require Import ZArith Lia Ascii.
From S2P Require Import Prelude GoStrings Taxonomy.

Local Open Scope string_scope.

(** ** Vocabularies *)

Definition ProducerGatewayEvent : string := "gateway_event".
Definition ProducerAuditAction : string := "audit_action".

Definition EventNameFixed : string := "fixed".
Definition EventNameContextOptional : string := "context_optional".
Definition EventNameContextRequired : string := "context_required".

Definition SeverityFindingRequired : string := "finding_required".
Definition SeverityFailureOrSource : string := "failure_or_source".
Definition SeverityMalformedOrSource : string := "malformed_or_source".

Definition CompanionEnforcementWhenEnforced : string := "enforcement_when_enforced".
Definition CompanionAssetLifecycleOnChange : string := "asset_lifecycle_on_state_change".
Definition CompanionFindingPerObservation : string := "finding_per_observation".

Record MandatoryFacts := {
  ControlPlaneMutation : bool;
  ApprovalResolution : bool;
  AlertMutation : bool;
  ProtectedBoundaryAuthFailure : bool;
  EnforcedOutcome : bool;
  EnforcementStateChange : bool;
  SchemaValidationFailure : bool;
  SQLiteFailure : bool;
  ExporterInitializationFailure : bool;
  DurableHealthTransition : bool;
  DestinationTestActivity : bool;
  ManagedAIDFailOpen : bool;
}.

(** The switch of [isMandatory]: the fact behind a rule. *)
Definition fact_of (rule : string) (facts : MandatoryFacts) : bool :=
  if rule =? "always" then true
  else if rule =? "control_plane_mutation" then ControlPlaneMutation facts
  else if rule =? "approval_resolution" then ApprovalResolution facts
  else if rule =? "alert_mutation" then AlertMutation facts
  else if rule =? "protected_boundary_auth_failure" then ProtectedBoundaryAuthFailure facts
  else if rule =? "enforced_outcome" then EnforcedOutcome facts
  else if rule =? "enforcement_state_change" then EnforcementStateChange facts
  else if rule =? "schema_validation_failure" then SchemaValidationFailure facts
  else if rule =? "sqlite_failure" then SQLiteFailure facts
  else if rule =? "exporter_initialization_failure" then ExporterInitializationFailure facts
  else if rule =? "durable_health_transition" then DurableHealthTransition facts
  else if rule =? "destination_test_activity" then DestinationTestActivity facts
  else if rule =? "managed_aid_fail_open" then ManagedAIDFailOpen facts
  else false.

Definition isMandatory (rules : list string) (facts : MandatoryFacts) : bool :=
  existsb (fun rule => fact_of rule facts) rules.

Record Classification := mkClassification {
  Kind : string;
  Key : string;
  c_Bucket : string;
  DefaultEventName : string;
  c_EventNamePolicy : string;
  c_SeverityPolicy : string;
  MandatoryRules : list string;
  c_CompanionRules : list string;
  AllowedContextBuckets : list string;
}.

Record ClassificationContext := mkContext {
  ctx_Bucket : string;
  ctx_EventName : string;
  RawSeverity : string;
  Facts : MandatoryFacts;
  Enforced : bool;
  StateChanged : bool;
  FindingCount : Z;
}.

Record ResolvedClassification := mkResolved {
  Identity : EventIdentity;
  ResolvedSeverity : SeverityNormalization;
  Mandatory : bool;
  RequiredCompanions : list string;
}.

Inductive ClassificationError :=
| NegativeFindingCount | ContextBucketNotAllowed | ContextBucketRequired | FixedEventName | EventNameRequired
| UnknownEventNamePolicy | IdentityInvalid (e : IdentityError) | PolicyDisagrees | IdentityDisagrees
| AbsentFromRegistry | InvalidSeverity | UnrecoverableACK | FindingSeverityRequired.

(** ** The generated registry *)

Record ProducerIdentity := mkProducerIdentity {
  pi_EventName : string;
  pi_Bucket : string;
  pi_LegacyMandatoryRules : list string;
  pi_CompanionRules : list string;
}.

Record ProducerGroup := mkGroup {
  g_Kind : string;
  g_Key : string;
  g_EventNamePolicy : string;
  g_SeverityPolicy : string;
  HasDefaultIdentity : bool;
  DefaultIdentityKey : string * string;
  ContextIdentitySetID : string;
  LegacyMandatoryRules : list string;
  g_CompanionRules : list string;
}.

(** Keys of identities are (event name, bucket). *)
Record Registry := {
  producerGroups : list ProducerGroup;
  producerIdentities : gmap (string * string) ProducerIdentity;
  contextIdentitySets : gmap string (list (string * string));
}.

Definition string_le (a b : string) : Prop := String.leb a b = true.
#[local] Instance string_le_dec : RelDecision string_le := fun a b => bool_eq_dec _ _.

(** [sortedGeneratedBuckets] and its siblings: the values once, in order. *)
Definition sorted_values (values : list string) : list string :=
  merge_sort string_le (remove_dups values).

Section Classify.
Context {U : GoUnicode}.
Variable registered : EventIdentity -> bool.
Variable registry : Registry.

Definition lookupGeneratedProducerGroup (kind key : string) : option ProducerGroup :=
  find (fun g => (g_Kind g =? kind) && (g_Key g =? key)) (producerGroups registry).

Definition context_keys (group : ProducerGroup) : list (string * string) :=
  default [] (contextIdentitySets registry !! ContextIdentitySetID group).

(** [selectIdentity]: the identity of a key, with the rules of the group. *)
Definition selectIdentity (group : ProducerGroup) (key : string * string) : option ProducerIdentity :=
  match producerIdentities registry !! key with
  | Some identity =>
      Some (mkProducerIdentity (pi_EventName identity) (pi_Bucket identity) (LegacyMandatoryRules group)
              (g_CompanionRules group))
  | None => None
  end.

(** [selectContext]: the first key of the set that is the context. *)
Definition selectContext (group : ProducerGroup) (bucket name : string) : option ProducerIdentity :=
  match find (fun k : string * string => (k.2 =? bucket) && (k.1 =? name)) (context_keys group) with
  | Some k => selectIdentity group k
  | None => None
  end.

(** [None] is an error. *)
Definition resolveGeneratedProducerIdentity (kind key bucket name : string) : option ProducerIdentity :=
  match lookupGeneratedProducerGroup kind key with
  | None => None
  | Some group =>
      let hasBucket := negb (bucket =? "") in
      if negb (Bool.eqb hasBucket (negb (name =? ""))) then None
      else
        let selected := selectIdentity group (DefaultIdentityKey group) in
        if g_EventNamePolicy group =? EventNameFixed then
          match selected with
          | Some identity =>
              if negb (HasDefaultIdentity group) then None
              else if hasBucket && (negb (pi_Bucket identity =? bucket) || negb (pi_EventName identity =? name))
              then None else Some identity
          | None => None
          end
        else if g_EventNamePolicy group =? EventNameContextOptional then
          if negb hasBucket then (if HasDefaultIdentity group then selected else None)
          else selectContext group bucket name
        else if g_EventNamePolicy group =? EventNameContextRequired then
          if negb hasBucket then None else selectContext group bucket name
        else None
  end.

(** [None]: the program panics while it starts. *)
Definition classificationFromGeneratedProducerGroup (group : ProducerGroup) : option Classification :=
  let build bucket name :=
    match (if ContextIdentitySetID group =? "" then Some []
           else match contextIdentitySets registry !! ContextIdentitySetID group with
                | Some ks => mapM (fun k => pi_Bucket <$> producerIdentities registry !! k) ks
                | None => None
                end) with
    | Some buckets =>
        Some (mkClassification (g_Kind group) (g_Key group) bucket name (g_EventNamePolicy group)
                (g_SeverityPolicy group) (sorted_values (LegacyMandatoryRules group))
                (sorted_values (g_CompanionRules group)) (sorted_values buckets))
    | None => None
    end in
  if HasDefaultIdentity group then
    match producerIdentities registry !! DefaultIdentityKey group with
    | Some identity => build (pi_Bucket identity) (pi_EventName identity)
    | None => None
    end
  else if g_EventNamePolicy group =? EventNameContextRequired then build "" ""
  else None.

(** [GatewayEventClassification] and [AuditActionClassification]. *)
Definition registeredClassification (kind key : string) : option Classification :=
  if (kind =? ProducerGatewayEvent) || (kind =? ProducerAuditAction) then
    match lookupGeneratedProducerGroup kind key with
    | Some group => classificationFromGeneratedProducerGroup group
    | None => None
    end
  else None.

(** ** Resolution *)

Definition bucketAllowed (bucket : string) (allowed : list string) : bool := existsb (String.eqb bucket) allowed.

Definition resolveSeverity (c : Classification) (raw : string) : ClassificationError + SeverityNormalization :=
  let normalized := if Kind c =? ProducerAuditAction then NormalizeLegacyAuditSeverity (Key c) raw
                    else NormalizeSeverity raw in
  let given s := inr (mkSev s "" true true false false) in
  if negb (Valid normalized) then inl InvalidSeverity
  else if LegacyAcknowledged normalized && negb (Present normalized) then inl UnrecoverableACK
  else if Present normalized then inr normalized
  else if c_SeverityPolicy c =? SeverityFindingRequired then inl FindingSeverityRequired
  else if c_SeverityPolicy c =? SeverityFailureOrSource then given SeverityHigh
  else if c_SeverityPolicy c =? SeverityMalformedOrSource then given SeverityMedium
  else given SeverityInfo.

Definition resolve_bucket (c : Classification) (ctx : ClassificationContext) : ClassificationError + string :=
  let picked :=
    if negb (ctx_Bucket ctx =? "") && negb (ctx_Bucket ctx =? c_Bucket c) then
      if bucketAllowed (ctx_Bucket ctx) (AllowedContextBuckets c) then inr (ctx_Bucket ctx)
      else inl ContextBucketNotAllowed
    else inr (c_Bucket c) in
  match picked with
  | inl e => inl e
  | inr bucket =>
      if bucket =? "" then
        if bucketAllowed (ctx_Bucket ctx) (AllowedContextBuckets c) then inr (ctx_Bucket ctx)
        else inl ContextBucketRequired
      else inr bucket
  end.

Definition resolve_name (c : Classification) (ctx : ClassificationContext) : ClassificationError + string :=
  if c_EventNamePolicy c =? EventNameFixed then
    if negb (ctx_EventName ctx =? "") && negb (ctx_EventName ctx =? DefaultEventName c)
    then inl FixedEventName else inr (DefaultEventName c)
  else if c_EventNamePolicy c =? EventNameContextOptional then
    inr (if negb (ctx_EventName ctx =? "") then ctx_EventName ctx else DefaultEventName c)
  else if c_EventNamePolicy c =? EventNameContextRequired then
    if ctx_EventName ctx =? "" then inl EventNameRequired else inr (ctx_EventName ctx)
  else inl UnknownEventNamePolicy.

(** The rules that apply at run time. *)
Definition runtime_rules (c : Classification) (bucket name : string) :
    ClassificationError + (list string * list string) :=
  match lookupGeneratedProducerGroup (Kind c) (Key c) with
  | Some group =>
      if negb (g_EventNamePolicy group =? c_EventNamePolicy c) || negb (g_SeverityPolicy group =? c_SeverityPolicy c)
      then inl PolicyDisagrees
      else match resolveGeneratedProducerIdentity (Kind c) (Key c) bucket name with
           | Some identity =>
               if negb (pi_Bucket identity =? bucket) || negb (pi_EventName identity =? name)
               then inl IdentityDisagrees
               else inr (pi_LegacyMandatoryRules identity, pi_CompanionRules identity)
           | None => inl IdentityDisagrees
           end
  | None =>
      if (Kind c =? ProducerGatewayEvent) || (Kind c =? ProducerAuditAction) then inl AbsentFromRegistry
      else inr (MandatoryRules c, c_CompanionRules c)
  end.

Definition companion_due (ctx : ClassificationContext) (bucket rule : string) : bool :=
  if rule =? CompanionEnforcementWhenEnforced then Enforced ctx && negb (bucket =? BucketEnforcementAction)
  else if rule =? CompanionAssetLifecycleOnChange then StateChanged ctx
  else if rule =? CompanionFindingPerObservation then (FindingCount ctx >? 0)%Z
  else false.

Definition Resolve (c : Classification) (ctx : ClassificationContext) :
    ClassificationError + ResolvedClassification :=
  if (FindingCount ctx <? 0)%Z then inl NegativeFindingCount
  else match resolve_bucket c ctx with
  | inl e => inl e
  | inr bucket =>
  match resolve_name c ctx with
  | inl e => inl e
  | inr name =>
  let identity := mkIdentity bucket SignalLogs name in
  match EventIdentity_Validate registered identity with
  | Some e => inl (IdentityInvalid e)
  | None =>
  match runtime_rules c bucket name with
  | inl e => inl e
  | inr (mandatoryRules, companionRules) =>
  match resolveSeverity c (RawSeverity ctx) with
  | inl e => inl e
  | inr severity =>
      inr (mkResolved identity severity (isMandatory mandatoryRules (Facts ctx))
             (List.filter (companion_due ctx bucket) companionRules))
  end end end end end.

(** ** Lemmas *)

Lemma isMandatory_spec rules facts :
  isMandatory rules facts = true <-> exists rule, rule ∈ rules /\ fact_of rule facts = true.
Proof.
  unfold isMandatory. rewrite existsb_exists. split; intros (r & H & E); exists r; split; try done;
    by apply list_elem_of_In.
Qed.

Lemma resolveSeverity_ok c raw n :
  resolveSeverity c raw = inr n -> Present n = true /\ Severity n ∈ Severities.
Proof.
  unfold resolveSeverity.
  set (m := if Kind c =? ProducerAuditAction then _ else _). assert (Hm : normal_ok m).
  { unfold m. case_match; [apply NormalizeLegacyAuditSeverity_ok|apply NormalizeSeverity_ok]. }
  destruct (negb (Valid m)); [done|]. destruct (LegacyAcknowledged m && negb (Present m)); [done|].
  destruct (Present m) eqn:Hp; [intros [= <-]; split; [done|by apply Hm]|].
  repeat case_match; intros [= <-]; cbn; set_solver.
Qed.

(** The identities the registry offers to a group. *)
Definition offered (group : ProducerGroup) (bucket name : string) : Prop :=
  exists k identity, producerIdentities registry !! k = Some identity /\
    pi_Bucket identity = bucket /\ pi_EventName identity = name /\
    (k = DefaultIdentityKey group \/ k ∈ context_keys group).

(** What the generated lookup answers: an offered identity with the group's rules. *)
Definition selected_of (group : ProducerGroup) (identity : ProducerIdentity) : Prop :=
  offered group (pi_Bucket identity) (pi_EventName identity) /\
  pi_LegacyMandatoryRules identity = LegacyMandatoryRules group /\ pi_CompanionRules identity = g_CompanionRules group.

Lemma selectIdentity_of group key identity :
  selectIdentity group key = Some identity -> key = DefaultIdentityKey group \/ key ∈ context_keys group ->
  selected_of group identity.
Proof.
  unfold selectIdentity. intros H Hk. destruct (producerIdentities registry !! key) as [i|] eqn:Hi; [|done].
  injection H as <-. split; [|done]. by exists key, i.
Qed.

Lemma generated_offered kind key bucket name identity :
  resolveGeneratedProducerIdentity kind key bucket name = Some identity ->
  exists group, lookupGeneratedProducerGroup kind key = Some group /\ selected_of group identity.
Proof.
  unfold resolveGeneratedProducerIdentity. destruct (lookupGeneratedProducerGroup kind key) as [g|]; [|done].
  intros H. exists g. split; [done|].
  assert (Hs : selectContext g bucket name = Some identity \/
               selectIdentity g (DefaultIdentityKey g) = Some identity).
  { repeat case_match; simplify_eq; auto. }
  destruct Hs as [Hs|Hd]; [|eapply selectIdentity_of; eauto].
  unfold selectContext in Hs. case_match eqn:Hf; [|done]. apply List.find_some in Hf as [Hin _].
  eapply selectIdentity_of; [exact Hs|]. right. by apply list_elem_of_In.
Qed.

Lemma classification_fields group c :
  classificationFromGeneratedProducerGroup group = Some c -> Kind c = g_Kind group /\ Key c = g_Key group.
Proof. unfold classificationFromGeneratedProducerGroup. intros H. by repeat case_match; simplify_eq. Qed.

Lemma registeredClassification_lookup kind key c :
  registeredClassification kind key = Some c ->
  Kind c = kind /\ Key c = key /\ is_Some (lookupGeneratedProducerGroup kind key).
Proof.
  unfold registeredClassification. repeat case_match; try done. intros Hc%classification_fields.
  match goal with H : lookupGeneratedProducerGroup _ _ = Some _ |- _ =>
    apply List.find_some in H as [_ Hk] end.
  bool_facts. destruct Hc as [-> ->]. subst. eauto.
Qed.

Lemma runtime_rules_ok c bucket name rules companions group :
  runtime_rules c bucket name = inr (rules, companions) ->
  lookupGeneratedProducerGroup (Kind c) (Key c) = Some group ->
  rules = LegacyMandatoryRules group /\ companions = g_CompanionRules group /\ offered group bucket name.
Proof.
  unfold runtime_rules. intros H Hg. rewrite Hg in H.
  case_match; [done|]. case_match eqn:Hi; [|done]. case_match; [done|]. simplify_eq. bool_facts.
  apply generated_offered in Hi as (g & Hl & Ho & Hm & Hc). simplify_eq. by subst.
Qed.

(** The rules at run time do not depend on the identity that was selected: the
    generated code copies those of the group onto every identity, although the
    comment in [Resolve] says that they are narrowed to the selected one. *)
Lemma runtime_rules_of_group c bucket name bucket' name' rules rules' group :
  lookupGeneratedProducerGroup (Kind c) (Key c) = Some group ->
  runtime_rules c bucket name = inr rules -> runtime_rules c bucket' name' = inr rules' -> rules = rules'.
Proof.
  destruct rules as [r1 c1], rules' as [r2 c2]. intros Hg H1 H2.
  destruct (runtime_rules_ok _ _ _ _ _ _ H1 Hg) as (-> & -> & _), (runtime_rules_ok _ _ _ _ _ _ H2 Hg) as (-> & -> & _).
  done.
Qed.

(** ** Theorems *)

(** C31: a producer cannot choose what it is not registered for: a resolved log has
    an identity the registry offers to that producer and that is a registered
    family, a canonical severity, and it is mandatory exactly when a rule of the
    producer's group holds of the typed facts; the companions due are those of
    the group whose condition holds.  The rules are those of the whole group, not
    of the selected identity ([runtime_rules_of_group]). *)
Theorem Resolve_sound kind key c ctx r :
  registeredClassification kind key = Some c -> Resolve c ctx = inr r ->
  exists group, lookupGeneratedProducerGroup kind key = Some group /\
    IsRegisteredEventIdentity registered (Identity r) = true /\ id_Signal (Identity r) = SignalLogs /\
    offered group (id_Bucket (Identity r)) (id_Name (Identity r)) /\
    Present (ResolvedSeverity r) = true /\ Severity (ResolvedSeverity r) ∈ Severities /\
    (Mandatory r = true <->
       exists rule, rule ∈ LegacyMandatoryRules group /\ fact_of rule (Facts ctx) = true) /\
    (forall rule, rule ∈ RequiredCompanions r <->
       rule ∈ g_CompanionRules group /\ companion_due ctx (id_Bucket (Identity r)) rule = true).
Proof.
  intros (Hk & Hy & [group Hg])%registeredClassification_lookup H. exists group. split; [done|].
  unfold Resolve in H. repeat case_match; simplify_eq.
  assert (Hl : lookupGeneratedProducerGroup (Kind c) (Key c) = Some group) by (by subst).
  match goal with H : runtime_rules _ _ _ = _ |- _ =>
    destruct (runtime_rules_ok _ _ _ _ _ _ H Hl) as (-> & -> & Ho) end.
  match goal with H : resolveSeverity _ _ = _ |- _ => apply resolveSeverity_ok in H as [? ?] end.
  match goal with H : EventIdentity_Validate _ _ = None |- _ => apply EventIdentity_Validate_None in H end.
  split_and!; [done..|apply isMandatory_spec|].
  intros rule. cbn [RequiredCompanions Identity id_Bucket]. rewrite !list_elem_of_In, List.filter_In. done.
Qed.
End Classify.

(** ** A registry *)

Definition w_group : ProducerGroup :=
  mkGroup ProducerAuditAction "skill-block" EventNameContextOptional "canonical_or_info" true
    ("enforcement.applied", BucketEnforcementAction) "set" ["enforcement_state_change"]
    [CompanionAssetLifecycleOnChange].

Definition w_registry : Registry := {|
  producerGroups := [w_group];
  producerIdentities := {[ ("enforcement.applied", BucketEnforcementAction) :=
    mkProducerIdentity "enforcement.applied" BucketEnforcementAction [] [] ]};
  contextIdentitySets := {[ "set" := [("enforcement.applied", BucketEnforcementAction)] ]};
|}.

Definition w_facts (changed : bool) : MandatoryFacts :=
  {| ControlPlaneMutation := false; ApprovalResolution := false; AlertMutation := false;
     ProtectedBoundaryAuthFailure := false; EnforcedOutcome := false; EnforcementStateChange := changed;
     SchemaValidationFailure := false; SQLiteFailure := false; ExporterInitializationFailure := false;
     DurableHealthTransition := false; DestinationTestActivity := false; ManagedAIDFailOpen := false |}.

Definition w_context (changed : bool) : ClassificationContext :=
  mkContext "" "" "high" (w_facts changed) true changed 0.

#[local] Instance w_unicode : GoUnicode := ascii_only.

Definition w_class : Classification :=
  default (mkClassification "" "" "" "" "" "" [] [] []) (registeredClassification w_registry ProducerAuditAction "skill-block").

Definition w_resolved (changed : bool) : ClassificationError + ResolvedClassification :=
  Resolve (fun _ => true) w_registry w_class (w_context changed).

Lemma Resolve_sound_witness :
  exists r group, w_resolved true = inr r /\ Mandatory r = true /\
    lookupGeneratedProducerGroup w_registry ProducerAuditAction "skill-block" = Some group.
Proof.
  destruct (w_resolved true) as [e|r] eqn:E; [by vm_compute in E|].
  destruct (Resolve_sound (fun _ => true) w_registry ProducerAuditAction "skill-block" w_class
    (w_context true) r) as (group & Hg & _ & _ & _ & _ & _ & Hm & _); [by vm_compute|exact E|].
  exists r, group. split_and!; [done| |done]. apply Hm. exists "enforcement_state_change".
  vm_compute in Hg. injection Hg as <-. split; [constructor|done].
Defined.
