(* ===== verification/Delivery.v ===== *)
(** * Delivery: data of the bounded handoff to a destination

    The types and pure functions of internal/observability/delivery: payloads
    (payload.go), outcomes, results, configuration and size estimation
    (types.go), and the pure decisions of the worker (dispatcher.go): backoff,
    batch selection, partial-result validation. *)
From stdpp Require Import base list strings.
From Stdlib Require Import ZArith Lia Ascii.
From S2P Require Import Prelude GoStrings Taxonomy.

Local Open Scope Z_scope.

(** ** Payloads (payload.go) *)

Definition MaxCanonicalRecordBytes : Z := 4 * 1024 * 1024.
Definition MaxPayloadBytes : Z := MaxCanonicalRecordBytes + 4 * 1024.
Definition MaxRecordIDBytes : Z := 512.

Record RoutingIdentity := {
  RecordID : string;
  Bucket : string;
  Signal : string;
  EventName : string;
  OriginDestination : string;
}.

Record Payload := {
  encoded : string;
  identity : RoutingIdentity;
}.

Inductive ErrorCode := ErrorInvalidConfig | ErrorInvalidContext | ErrorInvalidPayload | ErrorInvalidIdentity.

(** The control characters are single bytes of a valid UTF-8 string. *)
Definition validRecordID (value : string) : bool :=
  if (value =? "")%string || (slen value >? MaxRecordIDBytes) || negb (valid_utf8 value) then false
  else sall (fun c => negb (byte_in 0 31 c || byte_in 127 127 c)) value.

Definition Size (p : Payload) : Z := slen (encoded p).

(** [registered] is the generated catalog of event identities
    ([observability.IsRegisteredEventIdentity]). *)
Definition NewPayload (registered : string -> string -> string -> bool)
    (enc : string) (id : RoutingIdentity) : Payload + ErrorCode :=
  if (slen enc =? 0) || (slen enc >? MaxPayloadBytes) then inr ErrorInvalidPayload
  else if negb (validRecordID (RecordID id))
          || negb (registered (Bucket id) (Signal id) (EventName id))
          || (negb (OriginDestination id =? "")%string && negb (IsStableToken (OriginDestination id)))
  then inr ErrorInvalidIdentity
  else inl {| encoded := enc; identity := id |}.

Definition payload_valid (p : Payload) : bool :=
  (slen (encoded p) >? 0) && (slen (encoded p) <=? MaxPayloadBytes)
  && validRecordID (RecordID (identity p)).

(** ** Outcomes, results, health and circuit vocabularies (types.go) *)

(** The Go types are strings: [OutcomeOther] is any other string an adapter
    returns, the empty one included. *)
Inductive DeliveryOutcome :=
| OutcomeDelivered
| OutcomePartial
| OutcomeTransient
| OutcomeAuthentication
| OutcomePermanentPayload
| OutcomeUnsafeEndpoint
| OutcomeAmbiguous
| OutcomeOther (text : string).

(** [FailureClassOther] is any other string, the zero value included. *)
Inductive FailureClass :=
| FailureClassTransient
| FailureClassAuthentication
| FailureClassPermanentPayload
| FailureClassUnsafeEndpoint
| FailureClassOther (text : string).

Record DeliveryResult := {
  Outcome : DeliveryOutcome;
  DeliveredItems : Z;
  RejectedItems : Z;
}.

Inductive EnqueueReason :=
| ReasonNone | ReasonCountLimit | ReasonByteLimit | ReasonCountAndByteLimit | ReasonInactive
| ReasonIntakeStopped | ReasonOriginLoop | ReasonInvalidPayload | ReasonCircuitOpen.

Inductive EnqueueDisposition := EnqueueAccepted | EnqueueDropped | EnqueueRejected.

Record EnqueueResult := { Disposition : EnqueueDisposition; Reason : EnqueueReason }.

Inductive HealthState :=
| HealthDisabled | HealthInitializing | HealthHealthy | HealthDegraded | HealthFailing
| HealthDraining | HealthStopped.

(** [HealthReasonUnset] is the zero value of a dispatcher that has made no
    transition. *)
Inductive HealthReason :=
| HealthReasonUnset
| HealthReasonActivated | HealthReasonQueueFull | HealthReasonRetryable | HealthReasonPartial
| HealthReasonDeliveryFailed | HealthReasonRecovered | HealthReasonIntakeStopped | HealthReasonClosed
| HealthReasonOriginLoop | HealthReasonCircuitOpen | HealthReasonCircuitHalfOpen.

(** [CircuitUnset] is the zero value of a snapshot of a nil circuit. *)
Inductive CircuitState := CircuitUnset | CircuitClosed | CircuitOpen | CircuitHalfOpen.

#[export] Instance HealthState_eq_dec : EqDecision HealthState.
Proof. solve_decision. Defined.
#[export] Instance HealthReason_eq_dec : EqDecision HealthReason.
Proof. solve_decision. Defined.
#[export] Instance CircuitState_eq_dec : EqDecision CircuitState.
Proof. solve_decision. Defined.
#[export] Instance FailureClass_eq_dec : EqDecision FailureClass.
Proof. solve_decision. Defined.

(** Record counters: atomic [uint64] values, which wrap around. *)
Record Counters := {
  Accepted : Z;
  Delivered : Z;
  Retried : Z;
  Dropped : Z;
  Rejected : Z;
  Failed : Z;
}.

Definition zero_counters : Counters :=
  {| Accepted := 0; Delivered := 0; Retried := 0; Dropped := 0; Rejected := 0; Failed := 0 |}.

(** [counters.x.Add(n)], one function for the six atomics. *)
Definition count (acc del ret drp rej fai : Z) (c : Counters) : Counters := {|
  Accepted := u64 (Accepted c + acc);
  Delivered := u64 (Delivered c + del);
  Retried := u64 (Retried c + ret);
  Dropped := u64 (Dropped c + drp);
  Rejected := u64 (Rejected c + rej);
  Failed := u64 (Failed c + fai) |}.

(** ** Policies and configuration (types.go, circuit.go, dispatcher.go) *)

Record CircuitPolicy := {
  TransientFailureThreshold : Z;
  OpenDuration : Duration;
}.

(** [Jitter] is a caller's function: [None] is the nil function, and a call that
    panics returns [None]. *)
Record RetryPolicy := {
  MaxAttempts : Z;
  InitialBackoff : Duration;
  MaxBackoff : Duration;
  Jitter : option (Duration -> Z -> option Duration);
}.

Record Config := {
  Destination : string;
  Generation : Z;
  ConfigSignal : string;
  Enabled : bool;
  MaxQueueItems : Z;
  MaxQueueBytes : Z;
  MaxBatchItems : Z;
  MaxBatchBytes : Z;
  ScheduledDelay : Duration;
  AttemptTimeout : Duration;
  Retry : RetryPolicy;
  CircuitCfg : CircuitPolicy;
  ObserverInterval : Duration;
}.

Definition maxCircuitFailureThreshold : Z := 32.
Definition maxCircuitOpenDuration : Z := 24 * Hour.
Definition defaultCircuitFailureThreshold : Z := 3.
Definition defaultCircuitOpenDuration : Z := 30 * Second.
Definition immediateCircuitOpenDuration : Z := maxCircuitOpenDuration.
Definition authenticationCircuitOpenDuration : Z := 5 * Minute.
Definition halfOpenProbeDeadline : Z := 10 * Minute.

Definition maxQueueItems : Z := 65536.
Definition maxQueueBytes : Z := 256 * 1024 * 1024.
Definition maxBatchItems : Z := 8192.
Definition maxBatchBytes : Z := 64 * 1024 * 1024.
Definition maxAttempts : Z := 32.

Definition normalizedCircuitPolicy (policy : CircuitPolicy) : option CircuitPolicy :=
  if (TransientFailureThreshold policy =? 0) && (OpenDuration policy =? 0) then
    Some {| TransientFailureThreshold := defaultCircuitFailureThreshold;
            OpenDuration := defaultCircuitOpenDuration |}
  else if (TransientFailureThreshold policy <=? 0)
          || (TransientFailureThreshold policy >? maxCircuitFailureThreshold)
          || (OpenDuration policy <=? 0) || (OpenDuration policy >? maxCircuitOpenDuration)
  then None
  else Some policy.

Definition immediateCircuitOpenDurationFor (class : FailureClass) : Duration :=
  match class with
  | FailureClassAuthentication => authenticationCircuitOpenDuration
  | _ => immediateCircuitOpenDuration
  end.

Definition immediateFailure (class : FailureClass) : bool :=
  match class with
  | FailureClassAuthentication | FailureClassUnsafeEndpoint => true
  | _ => false
  end.

(** The saturating increment of a failure streak. *)
Definition bumpFailures (failures : Z) : Z :=
  if failures <? max_u64 then u64 (failures + 1) else failures.

Definition failureClassForOutcome (outcome : DeliveryOutcome) : FailureClass :=
  match outcome with
  | OutcomeTransient | OutcomeAmbiguous => FailureClassTransient
  | OutcomeAuthentication => FailureClassAuthentication
  | OutcomeUnsafeEndpoint => FailureClassUnsafeEndpoint
  | _ => FailureClassPermanentPayload
  end.

(** [has_adapter]: the adapter interface is not nil. *)
Definition validEnabledConfig (config : Config) (has_adapter : bool) : bool :=
  has_adapter
  && (MaxQueueItems config >? 0) && (MaxQueueItems config <=? maxQueueItems)
  && (MaxQueueBytes config >? 0) && (MaxQueueBytes config <=? maxQueueBytes)
  && (MaxBatchItems config >? 0) && (MaxBatchItems config <=? maxBatchItems)
  && (MaxBatchItems config <=? MaxQueueItems config)
  && (MaxBatchBytes config >? 0) && (MaxBatchBytes config <=? maxBatchBytes)
  && (ScheduledDelay config >=? 0) && (AttemptTimeout config >? 0)
  && (MaxAttempts (Retry config) >? 0) && (MaxAttempts (Retry config) <=? maxAttempts)
  && (InitialBackoff (Retry config) >=? 0) && (MaxBackoff (Retry config) >=? 0)
  && (InitialBackoff (Retry config) <=? MaxBackoff (Retry config)).

(** ** Size estimation (types.go) *)

Fixpoint delimited_loop (separator : Z) (sizes : list Z) (first : bool) (total : Z) : option Z :=
  match sizes with
  | [] => Some total
  | size :: rest =>
      if (size <? 0) || (total >? i64 (int_max - size)) then None
      else
        let total := i64 (total + size) in
        if first then delimited_loop separator rest false total
        else if total >? i64 (int_max - separator) then None
        else delimited_loop separator rest false (i64 (total + separator))
  end.

Definition DelimitedEncodedSize (sizes : list Z) (prefix separator suffix : Z) : option Z :=
  if (prefix <? 0) || (separator <? 0) || (suffix <? 0) then None
  else if prefix >? i64 (int_max - suffix) then None
  else delimited_loop separator sizes true (i64 (prefix + suffix)).

(** ** Worker decisions (dispatcher.go) *)

Definition validPartialResult (result : DeliveryResult) (batchItems : Z) : bool :=
  (batchItems >? 1) && (DeliveredItems result >? 0) && (RejectedItems result >? 0)
  && (DeliveredItems result <=? batchItems)
  && (RejectedItems result <=? i64 (batchItems - DeliveredItems result))
  && (i64 (DeliveredItems result + RejectedItems result) =? batchItems).

(** The doubling loop of [boundedBackoff], [n] iterations. *)
Fixpoint backoff_loop (maxBackoff : Duration) (n : nat) (delay : Duration) : Duration :=
  match n with
  | O => delay
  | S n' =>
      if delay >? Z.quot maxBackoff 2 then maxBackoff
      else backoff_loop maxBackoff n' (i64 (delay * 2))
  end.

Definition safeJitter (function : Duration -> Z -> option Duration) (delay : Duration) (attempt : Z) : Duration :=
  match function delay attempt with
  | Some result => result
  | None => delay
  end.

(** [draw delay] is the outcome of the random expression
    [time.Duration(rand.Float64() * float64(delay))]. *)
Definition boundedBackoff (draw : Duration -> Duration) (policy : RetryPolicy) (attempt : Z) : Duration :=
  let delay := backoff_loop (MaxBackoff policy) (Z.to_nat (attempt - 1)) (InitialBackoff policy) in
  let delay := if delay >? MaxBackoff policy then MaxBackoff policy else delay in
  let delay :=
    match Jitter policy with
    | Some function => safeJitter function delay attempt
    | None => if delay >? 0 then draw delay else delay
    end in
  if delay <? 0 then 0
  else if delay >? MaxBackoff policy then MaxBackoff policy
  else delay.

(** The selection loop of [takeBatch]: [estimate] is the adapter's
    [EncodedSize], whose panics are recovered as [ok = false] ([encodedSize]).
    The result is the number of candidates taken, the encoded size and the
    oversized flag. *)
Fixpoint select_loop (estimate : list Z -> option Z) (maxBytes : Z) (candidates : list Payload)
    (sizes : list Z) (selected : nat) (projectedSize encodedSize : Z) : nat * Z * bool :=
  let stop := match selected with O => (1%nat, encodedSize, true) | _ => (selected, encodedSize, false) end in
  match candidates with
  | [] => (selected, encodedSize, false)
  | p :: rest =>
      if projectedSize >? i64 (int_max - Size p) then stop
      else
        let projectedSize := i64 (projectedSize + Size p) in
        let sizes := sizes ++ [Size p] in
        match estimate sizes with
        | None => stop
        | Some est =>
            if (est <? projectedSize) || (est >? maxBytes) then stop
            else select_loop estimate maxBytes rest sizes (S selected) projectedSize est
        end
  end.

Definition select_batch (config : Config) (estimate : list Z -> option Z) (candidates : list Payload)
    : nat * Z * bool :=
  select_loop estimate (MaxBatchBytes config) candidates [] 0 0 0.

(** The prefix of the pending queue that one batch may hold. *)
Definition batch_limit (config : Config) (pending : list Payload) : nat :=
  Z.to_nat (Z.min (zlen pending) (MaxBatchItems config)).

(** ** Facts *)

Definition int_ok (z : Z) : Prop := int_min <= z <= int_max.

Lemma bumpFailures_range n : 0 <= n <= max_u64 -> 0 <= bumpFailures n <= max_u64.
Proof.
  unfold bumpFailures. intros H. destruct (Z.ltb_spec n max_u64); [|done].
  unfold max_u64 in *. pose proof (u64_range (n + 1)). lia.
Qed.

(** The sum of a list of sizes. *)
Abbreviation zsum := (sumZ (fun z : Z => z)).

Definition delimited_total (sizes : list Z) (prefix separator suffix : Z) : Z :=
  prefix + suffix + zsum sizes + separator * Z.of_nat (pred (length sizes)).

Lemma zsum_nonneg sizes : forallb (fun s => 0 <=? s) sizes = true -> 0 <= zsum sizes.
Proof. induction sizes as [|x r IH]; simpl; [done|]. intros H. bool_facts. specialize (IH H0). lia. Qed.

Lemma delimited_loop_spec separator sizes first total :
  0 <= separator <= int_max -> 0 <= total <= int_max -> Forall int_ok sizes ->
  let t := total + zsum sizes
           + separator * Z.of_nat (if first : bool then pred (length sizes) else length sizes) in
  delimited_loop separator sizes first total =
  if forallb (fun s => 0 <=? s) sizes && (t <=? int_max) then Some t else None.
Proof.
  intros Hsep. revert first total.
  induction sizes as [|size rest IH]; intros first total Ht Hok; cbn zeta; simpl.
  - replace (total + 0 + separator * Z.of_nat (if first then 0%nat else 0%nat)) with total
      by (destruct first; lia).
    destruct (Z.leb_spec total int_max); [done|lia].
  - apply Forall_cons in Hok as [Hs Hok]. unfold int_ok, int_min, int_max in *.
    pose proof (zsum_nonneg rest) as Hrest.
    destruct (Z.ltb_spec size 0), (Z.leb_spec 0 size); try lia; simpl; [done|].
    rewrite !i64_small by (unfold int_max, int_min in *; lia).
    destruct (Z.gtb_spec total (9223372036854775807 - size)) as [Hov|Hfit].
    { destruct (forallb _ rest); [|done]. specialize (Hrest eq_refl). simpl.
      case_match eqn:E; [|done]. apply Z.leb_le in E. destruct first; nia. }
    rewrite !i64_small by (unfold int_max, int_min in *; lia).
    destruct first; cbn [pred].
    + rewrite (IH false) by (done || lia). rewrite (Z.add_assoc total). done.
    + destruct (Z.gtb_spec (total + size) (9223372036854775807 - separator)) as [Hov|Hfit2].
      { destruct (forallb _ rest); [|done]. specialize (Hrest eq_refl). simpl.
        case_match eqn:E; [|done]. apply Z.leb_le in E. nia. }
      rewrite i64_small by (unfold int_max, int_min in *; lia).
      rewrite (IH false) by (done || lia).
      replace (total + (size + zsum rest) + separator * Z.of_nat (S (length rest)))
        with (total + size + separator + zsum rest + separator * Z.of_nat (length rest)) by lia.
      done.
Qed.

Lemma backoff_loop_spec maxBackoff n delay :
  0 <= delay <= maxBackoff -> maxBackoff <= int_max ->
  backoff_loop maxBackoff n delay = Z.min maxBackoff (delay * 2 ^ Z.of_nat n).
Proof.
  intros Hd Hm. revert delay Hd. induction n as [|n IH]; intros delay Hd.
  - simpl. lia.
  - rewrite Nat2Z.inj_succ, Z.pow_succ_r by lia. simpl.
    rewrite Z.quot_div_nonneg by lia.
    assert (0 < 2 ^ Z.of_nat n) by (apply Z.pow_pos_nonneg; lia).
    pose proof (Z.div_mod maxBackoff 2 ltac:(lia)). pose proof (Z.mod_pos_bound maxBackoff 2 ltac:(lia)).
    destruct (Z.gtb_spec delay (maxBackoff / 2)).
    + nia.
    + rewrite i64_small by (unfold int_min, int_max in *; lia).
      rewrite IH by lia. f_equal. lia.
Qed.

Section Selection.
Context (estimate : list Z -> option Z) (maxBytes : Z).

(** What a selection of the first [n] candidates with encoded size [enc]
guarantees when it is not oversized. *)
Definition selection_fits (candidates : list Payload) (n : nat) (enc : Z) : Prop :=
(n <= length candidates)%nat
/\ estimate (map Size (take n candidates)) = Some enc
/\ sumZ Size (take n candidates) <= enc <= maxBytes.

Lemma sumZ_Size_nonneg ps : 0 <= sumZ Size ps.
Proof. apply sumZ_nonneg. intros p. apply slen_nonneg. Qed.

Lemma select_loop_spec taken rest enc :
(taken = [] \/ selection_fits (taken ++ rest) (length taken) enc) ->
sumZ Size taken <= int_max -> Forall (fun p => Size p <= int_max) rest ->
let '(n, e, over) :=
select_loop estimate maxBytes rest (map Size taken) (length taken) (sumZ Size taken) enc in
if over : bool then n = 1%nat /\ taken = [] /\ rest <> []
else (n = 0%nat /\ taken ++ rest = []) \/ (0 < n)%nat /\ selection_fits (taken ++ rest) n e.
Proof.
revert taken enc. induction rest as [|p rest IH]; intros taken enc Hd Hint Hsz.
- simpl. rewrite app_nil_r in *. destruct Hd as [->|Hd]; [by left|].
destruct taken as [|q taken]; [by left|]. right. split; [simpl; lia|done].
- simpl. set (stop := match length taken with O => _ | _ => _ end).
assert (Hstop : let '(n, e, over) := stop in
  if over : bool then n = 1%nat /\ taken = [] /\ p :: rest <> []
  else (n = 0%nat /\ taken ++ p :: rest = [])
       \/ (0 < n)%nat /\ selection_fits (taken ++ p :: rest) n e).
{ subst stop. destruct taken as [|q taken]; [done|]. right. split; [simpl; lia|].
  destruct Hd; done. }
clearbody stop. apply Forall_cons in Hsz as [Hp Hsz].
pose proof (slen_nonneg (encoded p)) as Hp0. fold (Size p) in Hp0.
pose proof (sumZ_Size_nonneg taken) as Ht0.
rewrite i64_small by (unfold int_min, int_max in *; lia).
destruct (Z.gtb_spec (sumZ Size taken) (int_max - Size p)) as [|Hfit]; [done|].
rewrite i64_small by (unfold int_min, int_max in *; lia).
destruct (estimate (map Size taken ++ [Size p])) as [est|] eqn:Hest; [|done].
destruct (_ || _) eqn:Hbad; [done|]. bool_facts.
specialize (IH (taken ++ [p]) est).
rewrite map_app, sumZ_app, length_app, <- (assoc_L (++)), Nat.add_comm in IH. simpl in IH.
rewrite Z.add_0_r in IH.
assert (Hfits : selection_fits (taken ++ p :: rest) (S (length taken)) est).
{ unfold selection_fits. rewrite length_app. simpl.
  rewrite take_app. replace (S (length taken) - length taken)%nat with 1%nat by lia.
  rewrite take_ge by lia. simpl. rewrite take_0, map_app, sumZ_app. simpl.
  split; [lia|]. split; [done|]. lia. }
specialize (IH (or_intror Hfits) ltac:(lia) Hsz).
destruct (select_loop _ _ rest _ _ _ _) as [[n e] over].
destruct over; [by destruct IH as (_ & ?%app_nil & _); naive_solver|].
destruct IH as [[_ ?]|IH]; [by destruct taken|]. by right.
Qed.
End Selection.

Lemma select_batch_facts config estimate pending :
  0 < MaxBatchItems config -> Forall (fun p => Size p <= int_max) pending ->
  let candidates := take (batch_limit config pending) pending in
  let '(n, enc, oversized) := select_batch config estimate candidates in
  Z.of_nat n <= MaxBatchItems config /\ (n <= length pending)%nat
  /\ (pending <> [] -> (0 < n)%nat)
  /\ if oversized : bool then n = 1%nat
     else n = 0%nat \/
          estimate (map Size (take n pending)) = Some enc
          /\ sumZ Size (take n pending) <= enc <= MaxBatchBytes config.
Proof.
  intros Hpos Hsz. cbv zeta. unfold select_batch.
  set (limit := batch_limit config pending).
  assert (Hlim : (limit <= length pending)%nat /\ Z.of_nat limit <= MaxBatchItems config
                 /\ (pending <> [] -> (0 < limit)%nat)).
  { unfold limit, batch_limit, zlen. destruct pending; simpl length; [|]; split; try split; try lia; done. }
  destruct Hlim as (Hl1 & Hl2 & Hl3).
  assert (Hlen : length (take limit pending) = limit) by (rewrite length_take; lia).
  pose proof (select_loop_spec estimate (MaxBatchBytes config) [] (take limit pending) 0
    (or_introl eq_refl) ltac:(done) (Forall_take _ _ _ Hsz)) as Hsel. simpl in Hsel.
  destruct (select_loop _ _ _ _ _ _ _) as [[n enc] over]. destruct over.
  - destruct Hsel as (-> & _ & Hne).
    assert (limit <> 0%nat) by (intros Hz; rewrite Hz, take_0 in Hne; done).
    repeat split; lia.
  - destruct Hsel as [[-> Hnil]|(Hn & Hle & Hest & Hsum)].
    + rewrite Hnil in Hlen. simpl in Hlen. repeat split; [lia..| |by left].
      intros Hne. specialize (Hl3 Hne). lia.
    + rewrite Hlen in Hle. rewrite take_take, Nat.min_l in Hest, Hsum by lia.
      repeat split; try lia. right. done.
Qed.

(** ** Properties *)

(** [DelimitedEncodedSize] computes exactly prefix + suffix + the sizes + one
    separator between two of them, and answers [ok = false] exactly when an
    argument is negative or the total does not fit an [int]: no intermediate
    sum wraps around. *)
Theorem DelimitedEncodedSize_exact sizes prefix separator suffix :
  int_ok prefix -> int_ok separator -> int_ok suffix -> Forall int_ok sizes ->
  DelimitedEncodedSize sizes prefix separator suffix =
  if (0 <=? prefix) && (0 <=? separator) && (0 <=? suffix)
     && forallb (fun s => 0 <=? s) sizes
     && (delimited_total sizes prefix separator suffix <=? int_max)
  then Some (delimited_total sizes prefix separator suffix) else None.
Proof.
  unfold DelimitedEncodedSize, delimited_total, int_ok. intros Hp Hs Hx Hok.
  destruct (Z.ltb_spec prefix 0), (Z.leb_spec 0 prefix); try lia; [done|].
  destruct (Z.ltb_spec separator 0), (Z.leb_spec 0 separator); try lia; [done|].
  destruct (Z.ltb_spec suffix 0), (Z.leb_spec 0 suffix); try lia; [done|]. simpl.
  rewrite i64_small by (unfold int_max, int_min in *; lia).
  pose proof (zsum_nonneg sizes) as Hsum.
  destruct (Z.gtb_spec prefix (int_max - suffix)).
  - destruct (forallb _ sizes); [|done]. specialize (Hsum eq_refl). simpl.
    case_match eqn:E; [|done]. apply Z.leb_le in E. unfold int_max in *. nia.
  - rewrite i64_small by (unfold int_max, int_min in *; lia).
    by rewrite delimited_loop_spec by (done || lia).
Qed.

Lemma DelimitedEncodedSize_exact_witness :
  DelimitedEncodedSize [10; 20; 30] 1 2 1 = Some 66
  /\ DelimitedEncodedSize [int_max] 1 0 0 = None.
Proof.
  split; rewrite DelimitedEncodedSize_exact; try reflexivity;
    unfold int_ok; repeat constructor; discriminate.
Defined.

(** For every retry policy that activation accepts, every jitter function,
    every random draw and every attempt, the delay before a retry is within
    [0, MaxBackoff]. *)
Theorem boundedBackoff_bounded draw policy attempt :
  0 <= MaxBackoff policy ->
  0 <= boundedBackoff draw policy attempt <= MaxBackoff policy.
Proof.
  intros H. unfold boundedBackoff. cbv zeta.
  match goal with |- context [if ?d <? 0 then _ else _] => generalize d; intros delay end.
  destruct (Z.ltb_spec delay 0), (Z.gtb_spec delay (MaxBackoff policy)); lia.
Qed.

Lemma boundedBackoff_bounded_witness :
  let policy := {| MaxAttempts := 5; InitialBackoff := 10; MaxBackoff := 35;
                   Jitter := Some (fun d n => if n =? 2 then Some (-7) else None) |} in
  0 <= boundedBackoff (fun d => d) policy 2 <= 35
  /\ boundedBackoff (fun d => d) policy 2 = 0 /\ boundedBackoff (fun d => d) policy 4 = 35.
Proof. intros policy. split; [exact (boundedBackoff_bounded (fun d => d) policy 2 ltac:(discriminate))|done]. Defined.

(** Without jitter or randomness the delay before attempt [n + 1] is the
    doubling schedule [min(MaxBackoff, InitialBackoff * 2^(n-1))], for every
    attempt number: the doubling never overflows. *)
Theorem boundedBackoff_schedule policy attempt :
  Jitter policy = Some (fun delay _ => None) ->
  0 <= InitialBackoff policy <= MaxBackoff policy -> MaxBackoff policy <= int_max -> 1 <= attempt ->
  boundedBackoff (fun d => d) policy attempt =
  Z.min (MaxBackoff policy) (InitialBackoff policy * 2 ^ (attempt - 1)).
Proof.
  intros Hj Hb Hm Ha. unfold boundedBackoff. rewrite Hj, backoff_loop_spec by lia.
  rewrite Z2Nat.id by lia. unfold safeJitter. cbv zeta.
  assert (0 < 2 ^ (attempt - 1)) by (apply Z.pow_pos_nonneg; lia).
  set (t := InitialBackoff policy * 2 ^ (attempt - 1)) in *.
  assert (0 <= t) by (subst t; nia).
  destruct (Z.gtb_spec (Z.min (MaxBackoff policy) t) (MaxBackoff policy)); [lia|].
  destruct (Z.ltb_spec (Z.min (MaxBackoff policy) t) 0); [lia|].
  destruct (Z.gtb_spec (Z.min (MaxBackoff policy) t) (MaxBackoff policy)); lia.
Qed.

Lemma boundedBackoff_schedule_witness :
  let policy := {| MaxAttempts := 5; InitialBackoff := 10; MaxBackoff := 35;
                   Jitter := Some (fun _ _ => None) |} in
  boundedBackoff (fun d => d) policy 2 = 20 /\ boundedBackoff (fun d => d) policy 32 = 35.
Proof.
  intros policy. split; rewrite boundedBackoff_schedule; done.
Defined.

(** The batch selected from the pending queue is a prefix of it of at most
    [MaxBatchItems] records, non-empty when the queue is; it holds the
    estimator's answer for exactly those records, which is at most
    [MaxBatchBytes] and at least their own bytes; or it is the single first
    record, flagged oversized. *)
Theorem select_batch_spec config estimate pending :
  0 < MaxBatchItems config -> Forall (fun p => Size p <= int_max) pending ->
  let candidates := take (batch_limit config pending) pending in
  let '(n, enc, oversized) := select_batch config estimate candidates in
  Z.of_nat n <= MaxBatchItems config /\ (n <= length pending)%nat
  /\ (pending <> [] -> (0 < n)%nat)
  /\ if oversized : bool then n = 1%nat
     else n = 0%nat \/
          estimate (map Size (take n pending)) = Some enc
          /\ sumZ Size (take n pending) <= enc <= MaxBatchBytes config.
Proof. apply select_batch_facts. Qed.

Definition demo_payload (bytes : string) : Payload :=
  {| encoded := bytes;
     identity := {| RecordID := "r1"; Bucket := "b"; Signal := "logs"; EventName := "e";
                    OriginDestination := "" |} |}.

Definition demo_config (items bytes : Z) : Config :=
  {| Destination := "dest"; Generation := 1; ConfigSignal := "logs"; Enabled := true;
     MaxQueueItems := 4; MaxQueueBytes := 64; MaxBatchItems := items; MaxBatchBytes := bytes;
     ScheduledDelay := 0; AttemptTimeout := 1;
     Retry := {| MaxAttempts := 2; InitialBackoff := 0; MaxBackoff := 0; Jitter := None |};
     CircuitCfg := {| TransientFailureThreshold := 1; OpenDuration := 30 |};
     ObserverInterval := 0 |}.

Lemma select_batch_spec_witness :
  let pending := [demo_payload "aaaa"; demo_payload "bb"; demo_payload "c"] in
  let estimate sizes := DelimitedEncodedSize sizes 1 1 1 in
  select_batch (demo_config 2 9) estimate pending = (2%nat, 9, false)
  /\ Z.of_nat 2 <= 2.
Proof.
  intros pending estimate. split; [reflexivity|].
  pose proof (select_batch_spec (demo_config 2 9) estimate pending) as H.
  destruct H as (H & _); [done|repeat constructor; discriminate|exact H].
Defined.
