(* ===== verification/Circuit.v ===== *)
(** * The standalone delivery circuit (internal/observability/delivery/circuit.go)

    [Circuit] is the circuit breaker of the exporters that do not use the
    dispatcher.  A Go [*Circuit] may be nil, so the methods take an option.
    The mutex makes each method atomic: a method is one step. *)
From stdpp Require Import base list strings.
From Stdlib Require Import ZArith Lia.
From S2P Require Import Prelude Delivery.

Local Open Scope Z_scope.

Inductive CircuitAdmission := CircuitAdmissionNormal | CircuitAdmissionBlocked | CircuitAdmissionProbe.

Record Circuit := {
  policy : CircuitPolicy;
  state : CircuitState;
  consecutiveFailures : Z;
  openUntil : Time;
  halfOpenUntil : Time;
  lastFailureClass : FailureClass;
}.

Record CircuitSnapshot := {
  snap_State : CircuitState;
  snap_ConsecutiveFailures : Z;
  snap_OpenUntil : Time;
  snap_LastFailureClass : FailureClass;
}.

Definition NewCircuit (p : CircuitPolicy) : Circuit + ErrorCode :=
  match normalizedCircuitPolicy p with
  | None => inr ErrorInvalidConfig
  | Some normalized =>
      inl {| policy := normalized; state := CircuitClosed; consecutiveFailures := 0;
             openUntil := zero_time; halfOpenUntil := zero_time;
             lastFailureClass := FailureClassOther "" |}
  end.

Definition grantProbeLocked (c : Circuit) (now : Time) : Circuit :=
  {| policy := policy c; state := CircuitHalfOpen; consecutiveFailures := consecutiveFailures c;
     openUntil := openUntil c; halfOpenUntil := now + halfOpenProbeDeadline;
     lastFailureClass := lastFailureClass c |}.

(** The bodies under the mutex, for a circuit that is not nil. *)
Definition admit_locked (c : Circuit) (now : Time) : Circuit * CircuitAdmission :=
  match state c with
  | CircuitClosed => (c, CircuitAdmissionNormal)
  | CircuitOpen =>
      if Before now (openUntil c) then (c, CircuitAdmissionBlocked)
      else (grantProbeLocked c now, CircuitAdmissionProbe)
  | CircuitHalfOpen =>
      if Before now (halfOpenUntil c) then (c, CircuitAdmissionBlocked)
      else (grantProbeLocked c now, CircuitAdmissionProbe)
  | CircuitUnset => (c, CircuitAdmissionBlocked)
  end.

Definition recordSuccess_locked (c : Circuit) : Circuit :=
  {| policy := policy c; state := CircuitClosed; consecutiveFailures := 0;
     openUntil := zero_time; halfOpenUntil := zero_time;
     lastFailureClass := lastFailureClass c |}.

Definition abortProbe_locked (c : Circuit) : Circuit * bool :=
  if decide (state c = CircuitHalfOpen) then
    ({| policy := policy c; state := CircuitOpen;
        consecutiveFailures := consecutiveFailures c; openUntil := openUntil c;
        halfOpenUntil := zero_time; lastFailureClass := lastFailureClass c |}, true)
  else (c, false).

(** The closed vocabulary of [RecordFailure]: any other class is recorded as a
    permanent payload failure. *)
Definition normalizeClass (class : FailureClass) : FailureClass :=
  match class with
  | FailureClassOther _ => FailureClassPermanentPayload
  | _ => class
  end.

Definition recordFailure_locked (c : Circuit) (class : FailureClass) (at_ : Time) : Circuit * bool :=
  let failures := bumpFailures (consecutiveFailures c) in
  let shouldOpen :=
    bool_decide (state c = CircuitHalfOpen) || immediateFailure class
    || (failures >=? u64 (TransientFailureThreshold (policy c))) in
  if negb shouldOpen then
    ({| policy := policy c; state := state c; consecutiveFailures := failures;
        openUntil := openUntil c; halfOpenUntil := halfOpenUntil c;
        lastFailureClass := class |}, false)
  else
    let openDuration :=
      if immediateFailure class then immediateCircuitOpenDurationFor class
      else OpenDuration (policy c) in
    ({| policy := policy c; state := CircuitOpen; consecutiveFailures := failures;
        openUntil := at_ + openDuration; halfOpenUntil := zero_time;
        lastFailureClass := class |}, true).

Definition Admit (circuit : option Circuit) (now : Time) : option Circuit * CircuitAdmission :=
  match circuit with
  | None => (None, CircuitAdmissionBlocked)
  | Some c => let (c', a) := admit_locked c now in (Some c', a)
  end.

Definition RecordSuccess (circuit : option Circuit) : option Circuit :=
  match circuit with
  | None => None
  | Some c => Some (recordSuccess_locked c)
  end.

Definition AbortProbe (circuit : option Circuit) : option Circuit * bool :=
  match circuit with
  | None => (None, false)
  | Some c => let (c', b) := abortProbe_locked c in (Some c', b)
  end.

Definition RecordFailure (circuit : option Circuit) (class : FailureClass) (at_ : Time)
    : option Circuit * bool :=
  match circuit with
  | None => (None, true)
  | Some c => let (c', b) := recordFailure_locked c (normalizeClass class) at_ in (Some c', b)
  end.

Definition Snapshot (circuit : option Circuit) : CircuitSnapshot :=
  match circuit with
  | None => {| snap_State := CircuitUnset; snap_ConsecutiveFailures := 0;
               snap_OpenUntil := zero_time; snap_LastFailureClass := FailureClassOther "" |}
  | Some c => {| snap_State := state c; snap_ConsecutiveFailures := consecutiveFailures c;
                 snap_OpenUntil := openUntil c; snap_LastFailureClass := lastFailureClass c |}
  end.

(** ** The circuit as a state machine: the calls in the order of the mutex *)

Inductive call :=
| CallAdmit (now : Time)
| CallSuccess
| CallAbort
| CallFailure (class : FailureClass) (at_ : Time).

Inductive outcome := AdmitAnswer (a : CircuitAdmission) | Closed_ | Aborted (b : bool) | Opened (b : bool).

Definition step (l : call) (c : Circuit) : option (Circuit * list outcome) :=
  match l with
  | CallAdmit now => let (c', a) := admit_locked c now in Some (c', [AdmitAnswer a])
  | CallSuccess => Some (recordSuccess_locked c, [Closed_])
  | CallAbort => let (c', b) := abortProbe_locked c in Some (c', [Aborted b])
  | CallFailure class at_ =>
      let (c', b) := recordFailure_locked c (normalizeClass class) at_ in Some (c', [Opened b])
  end.

Definition call_time (l : call) : option Time :=
  match l with
  | CallAdmit now => Some now
  | CallFailure _ at_ => Some at_
  | _ => None
  end.

(** The calls of [ls] happened at or before [t]. *)
Definition calls_until (t : Time) (ls : list call) : Prop :=
  Forall (fun l => match call_time l with Some u => u <= t | None => True end) ls.

(** ** The invariant *)

Definition policy_ok (p : CircuitPolicy) : Prop :=
  0 < TransientFailureThreshold p <= maxCircuitFailureThreshold
  /\ 0 < OpenDuration p <= maxCircuitOpenDuration.

(** The data of a circuit after calls made at or before [t]. *)
Record circuit_ok (t : Time) (c : Circuit) : Prop := {
  ok_policy : policy_ok (policy c);
  ok_failures : 0 <= consecutiveFailures c <= max_u64;
  ok_set : state c <> CircuitUnset;
  ok_closed : state c = CircuitClosed ->
    consecutiveFailures c < TransientFailureThreshold (policy c);
  ok_open : state c = CircuitOpen -> openUntil c <= t + maxCircuitOpenDuration;
  ok_half : state c = CircuitHalfOpen ->
    openUntil c <= t + maxCircuitOpenDuration /\ halfOpenUntil c <= t + halfOpenProbeDeadline;
}.

Lemma normalized_ok p q : normalizedCircuitPolicy p = Some q -> policy_ok q.
Proof.
  unfold normalizedCircuitPolicy, policy_ok. intros H.
  destruct (_ && _) eqn:E; [simplify_eq; vm_compute; done|].
  destruct (_ || _) eqn:E2; [done|]. simplify_eq. bool_facts. lia.
Qed.

Lemma NewCircuit_ok p c t : NewCircuit p = inl c -> circuit_ok t c.
Proof.
  unfold NewCircuit. destruct (normalizedCircuitPolicy p) eqn:E; [|done]. intros [= <-].
  apply normalized_ok in E as E'. destruct E' as [? ?].
  split; simpl; try done; lia.
Qed.

Lemma immediate_duration_le class : immediateCircuitOpenDurationFor class <= maxCircuitOpenDuration.
Proof. destruct class; vm_compute; done. Qed.

Lemma circuit_ok_mono t u c : t <= u -> circuit_ok t c -> circuit_ok u c.
Proof.
  intros Htu [? ? ? ? Ho Hh]. split; try done; intros E.
  - specialize (Ho E). lia.
  - destruct (Hh E). lia.
Qed.

Lemma step_ok t l c c' es :
  circuit_ok t c -> match call_time l with Some u => u <= t | None => True end ->
  step l c = Some (c', es) -> circuit_ok t c'.
Proof.
  intros Hok Ht Hs. pose proof Hok as [Hp Hf Hset Hc Ho Hh]. pose proof Hp as [Hp1 Hp2].
  destruct l as [now| | |class at_]; simpl in *.
  - destruct (admit_locked c now) as [c1 a] eqn:Ha. simplify_eq.
    unfold admit_locked, Before in Ha. destruct (state c) eqn:E; simplify_eq; try done;
      case_match; simplify_eq; try done; split; simpl; try done; intros _.
    + specialize (Ho eq_refl). split; [done|lia].
    + destruct (Hh eq_refl). split; [done|lia].
  - simplify_eq. split; simpl; try done; lia.
  - destruct (abortProbe_locked c) as [c1 b] eqn:Ha. simplify_eq.
    unfold abortProbe_locked in Ha. case_decide; simplify_eq; try done.
    split; simpl; try done. intros _. by apply Hh.
  - set (class' := normalizeClass class) in *. pose proof (immediate_duration_le class') as Hi.
    destruct (recordFailure_locked c class' at_) as [c1 b] eqn:Ha. simplify_eq.
    pose proof (bumpFailures_range _ Hf) as Hfl.
    unfold recordFailure_locked in Ha. destruct (negb _) eqn:E; simplify_eq.
    + bool_facts. apply bool_decide_eq_false in H. split; simpl; try done.
      intros _. rewrite u64_small in * by (unfold two64, maxCircuitFailureThreshold in *; lia). lia.
    + split; simpl; try done. intros _. destruct (immediateFailure class'); lia.
Qed.

Lemma reachable_ok p c0 ls c tr t :
  NewCircuit p = inl c0 -> reachable step c0 ls c tr -> calls_until t ls -> circuit_ok t c.
Proof.
  intros Hn. revert c tr. revert ls.
  apply (reachable_ind_inv step (fun ls c tr => calls_until t ls -> circuit_ok t c)).
  - intros _. by eapply NewCircuit_ok.
  - intros ls c tr l c' es IH Hs Hu. apply Forall_app in Hu as [Hu Hl].
    apply Forall_cons in Hl as [Hl _]. eapply step_ok; [by apply IH|exact Hl|exact Hs].
Qed.

(** ** Properties *)

(** A destination is never suppressed for longer than the longest bounded
    open interval.  Whatever the calls on a fresh circuit were, lost probes
    included, if they happened at or before [t] then a caller that arrives 24
    hours later is admitted. *)
Theorem Circuit_bounded_suppression p c0 ls c tr t now :
  NewCircuit p = inl c0 -> reachable step c0 ls c tr -> calls_until t ls ->
  t + maxCircuitOpenDuration <= now ->
  snd (Admit (Some c) now) <> CircuitAdmissionBlocked.
Proof.
  intros Hn Hr Hu Hnow. pose proof (reachable_ok _ _ _ _ _ _ Hn Hr Hu) as [_ _ Hset _ Ho Hh].
  unfold Admit, admit_locked, Before. destruct (state c) eqn:E; try done.
  - specialize (Ho eq_refl). destruct (Z.ltb_spec now (openUntil c)); [lia|done].
  - destruct (Hh eq_refl) as [_ Hh'].
    destruct (Z.ltb_spec now (halfOpenUntil c)); [|done].
    assert (halfOpenProbeDeadline <= maxCircuitOpenDuration) by (vm_compute; done). lia.
Qed.

Definition demo_calls : list call :=
  [CallFailure FailureClassUnsafeEndpoint 100; CallAdmit 200; CallAdmit (100 + 24 * Hour);
   CallAdmit (101 + 24 * Hour)].

Definition demo_circuit : Circuit :=
  match NewCircuit {| TransientFailureThreshold := 2; OpenDuration := 50 |} with
  | inl c => c
  | inr _ => {| policy := {| TransientFailureThreshold := 2; OpenDuration := 50 |};
                state := CircuitUnset; consecutiveFailures := 0; openUntil := 0;
                halfOpenUntil := 0; lastFailureClass := FailureClassOther "" |}
  end.

Lemma Circuit_bounded_suppression_witness :
  exists c tr, run step demo_calls demo_circuit = Some (c, tr)
  /\ tr = [Opened true; AdmitAnswer CircuitAdmissionBlocked; AdmitAnswer CircuitAdmissionProbe;
           AdmitAnswer CircuitAdmissionBlocked]
  /\ snd (Admit (Some c) (101 + 48 * Hour)) <> CircuitAdmissionBlocked.
Proof.
  eexists _, _. split; [reflexivity|]. split; [reflexivity|].
  refine (Circuit_bounded_suppression {| TransientFailureThreshold := 2; OpenDuration := 50 |}
    demo_circuit demo_calls _ _ (101 + 24 * Hour) (101 + 48 * Hour) _ _ _ _).
  - reflexivity.
  - apply run_reachable. reflexivity.
  - repeat constructor; discriminate.
  - discriminate.
Defined.

(** A granted probe is exclusive: until a caller reports an outcome or the
    probe deadline passes, every further [Admit] is blocked and leaves the
    circuit as it is. *)
Theorem Circuit_probe_exclusive c now c' nows :
  Admit (Some c) now = (Some c', CircuitAdmissionProbe) ->
  Forall (fun t => t < now + halfOpenProbeDeadline) nows ->
  run step (map CallAdmit nows) c' =
  Some (c', map (fun _ => AdmitAnswer CircuitAdmissionBlocked) nows).
Proof.
  unfold Admit. destruct (admit_locked c now) as [c1 a] eqn:Ha. intros [= -> ->] Hf.
  assert (Hc : state c' = CircuitHalfOpen /\ halfOpenUntil c' = now + halfOpenProbeDeadline).
  { unfold admit_locked in Ha. destruct (state c); simplify_eq; case_match; simplify_eq; done. }
  destruct Hc as [Hc1 Hc2]. induction Hf as [|t nows Ht _ IH]; [done|].
  assert (admit_locked c' t = (c', CircuitAdmissionBlocked)) as Hb.
  { unfold admit_locked, Before. rewrite Hc1, Hc2. by destruct (Z.ltb_spec t (now + halfOpenProbeDeadline)); [|lia]. }
  simpl. by rewrite Hb, IH.
Qed.

Lemma Circuit_probe_exclusive_witness :
  let c := fst (recordFailure_locked demo_circuit FailureClassAuthentication 0) in
  let c' := fst (admit_locked c (5 * Minute)) in
  run step (map CallAdmit [5 * Minute; 14 * Minute]) c' =
  Some (c', [AdmitAnswer CircuitAdmissionBlocked; AdmitAnswer CircuitAdmissionBlocked]).
Proof.
  intros c c'. refine (Circuit_probe_exclusive c (5 * Minute) c' [5 * Minute; 14 * Minute] _ _).
  - reflexivity.
  - repeat constructor.
Defined.

(** A streak of [n] failures that opened the circuit exactly when it reached
    the threshold. *)
Definition streak (n : Z) (c : Circuit) : Prop :=
  consecutiveFailures c = n /\ 0 <= n /\ policy_ok (policy c) /\
  (state c = CircuitClosed /\ n < TransientFailureThreshold (policy c) \/
   state c = CircuitOpen /\ TransientFailureThreshold (policy c) <= n).

Lemma streak_failure n c class t :
  streak n c -> n < max_u64 -> immediateFailure class = false ->
  let c' := fst (recordFailure_locked c class t) in
  streak (n + 1) c' /\ policy c' = policy c
  /\ (state c' = CircuitOpen -> openUntil c' = t + OpenDuration (policy c)).
Proof.
  intros (Hn & Hn0 & Hp & Hst) Hlt Hcl. pose proof Hp as [Hthr _].
  unfold recordFailure_locked, bumpFailures. rewrite Hn, Hcl, orb_false_r.
  destruct (Z.ltb_spec n max_u64); [|lia]. unfold maxCircuitFailureThreshold in Hthr.
  rewrite !u64_small by (unfold max_u64, two64 in *; lia).
  assert (state c <> CircuitHalfOpen) by (destruct Hst as [[? _]|[? _]]; congruence).
  rewrite (bool_decide_eq_false_2 (state c = CircuitHalfOpen)) by done. simpl.
  destruct (Z.geb_spec (n + 1) (TransientFailureThreshold (policy c))); simpl; unfold streak; simpl.
  - split; [|done]. split; [done|]. split; [lia|]. split; [done|]. right. split; [done|lia].
  - destruct Hst as [[Hc ?]|[? ?]]; [|lia]. split; [|by rewrite Hc].
    split; [done|]. split; [lia|]. split; [done|]. left. split; [done|lia].
Qed.

Lemma NewCircuit_streak p c : NewCircuit p = inl c -> streak 0 c.
Proof.
  intros Hn. pose proof (NewCircuit_ok p c 0 Hn) as [Hp _ _ Hc _ _].
  unfold NewCircuit in Hn. case_match; simplify_eq.
  split; [done|]. split; [done|]. split; [done|]. left. split; [done|by apply Hc].
Qed.

(** Consecutive failures of one class at the given times. *)
Definition failures (class : FailureClass) (ts : list Time) : list call := map (CallFailure class) ts.

(** The failure threshold is exact.  After [n] consecutive transient (or
    payload) failures a fresh circuit counts [n] failures; it is open if and
    only if [n] is at least the configured threshold, and then until the last
    failure plus the configured interval. *)
Theorem Circuit_threshold p c0 class ts t c tr :
  NewCircuit p = inl c0 ->
  immediateFailure (normalizeClass class) = false ->
  zlen ts < max_u64 ->
  run step (failures class (ts ++ [t])) c0 = Some (c, tr) ->
  consecutiveFailures c = zlen ts + 1
  /\ (state c = CircuitOpen <-> TransientFailureThreshold (policy c0) <= zlen ts + 1)
  /\ (state c = CircuitOpen -> openUntil c = t + OpenDuration (policy c0)).
Proof.
  intros Hn Hcl Hlen Hr. apply NewCircuit_streak in Hn. change (zlen ts) with (0 + zlen ts) in *.
  revert Hn Hlen Hr. clear p. generalize 0. revert c0 tr. unfold zlen.
  induction ts as [|t1 ts IH]; intros c0 tr n Hn Hlen; simpl in *.
  - pose proof (streak_failure n c0 _ t Hn ltac:(lia) Hcl) as (Hs & Hp & Ho).
    destruct (recordFailure_locked _ _ _) as [c1 b]. intros [= <- <-]. simpl in *.
    destruct Hs as (? & _ & _ & Hst). rewrite Hp in Hst.
    split; [lia|]. split; [|done]. split; destruct Hst as [[? ?]|[? ?]]; [congruence|lia..|done].
  - pose proof (streak_failure n c0 _ t1 Hn ltac:(lia) Hcl) as (Hs & Hp & _).
    destruct (recordFailure_locked _ _ _) as [c1 b]. simpl in *.
    destruct (run step _ c1) as [[c2 tr2]|] eqn:Hr; [|done]. intros [= -> _].
    destruct (IH c1 tr2 (n + 1) Hs ltac:(lia) Hr) as (Hc & Ho & Hu). rewrite Hp in Ho, Hu.
    replace (n + Z.of_nat (S (length ts))) with (n + 1 + Z.of_nat (length ts)) by lia. done.
Qed.

Lemma Circuit_threshold_witness :
  exists c tr,
    run step (failures FailureClassTransient ([10] ++ [20])) demo_circuit = Some (c, tr)
    /\ tr = [Opened false; Opened true] /\ consecutiveFailures c = 2.
Proof.
  eexists _, _. split; [reflexivity|]. split; [reflexivity|].
  refine (proj1 (Circuit_threshold {| TransientFailureThreshold := 2; OpenDuration := 50 |}
    demo_circuit FailureClassTransient [10] 20 _ _ _ _ _ _)); reflexivity.
Defined.
