(* ===== verification/Health.v ===== *)
(** * Destination health (internal/observability/delivery/health.go)

    The health state of a dispatcher, its transitions, and the observer
    goroutine that reports them.  [healthMu] makes every operation one step. *)
From stdpp Require Import base list strings.
From Stdlib Require Import ZArith Lia Sorted.
From S2P Require Import Prelude Delivery.

Local Open Scope Z_scope.

Record HealthTransition := {
  ht_Destination : string;
  ht_Generation : Z;
  ht_Previous : HealthState;
  ht_Current : HealthState;
  ht_Reason : HealthReason;
  ht_Counters : Counters;
  ht_OccurredAt : Time;
  ht_sequence : Z;
}.

(** The fields of [Dispatcher] that [transitionHealth] reads and writes. *)
Record HealthRec := {
  health : HealthState;
  healthReason : HealthReason;
  lastSuccess : Time;
  lastFailure : Time;
  healthSequence : Z;
  pendingTransition : option HealthTransition;
  healthNotify : bool;
}.

Definition initial_health (h : HealthState) : HealthRec :=
  {| health := h; healthReason := HealthReasonUnset; lastSuccess := zero_time;
     lastFailure := zero_time; healthSequence := 0; pendingTransition := None;
     healthNotify := false |}.

(** Operational transitions never leave the lifecycle states. *)
Definition lifecycle_state (h : HealthState) : bool :=
  match h with
  | HealthDraining | HealthStopped | HealthDisabled => true
  | _ => false
  end.

Definition failing_state (h : HealthState) : bool :=
  match h with
  | HealthDegraded | HealthFailing => true
  | _ => false
  end.

Definition transitionHealth (config : Config) (counters : Counters) (now : Time)
    (st : HealthState) (reason : HealthReason) (operational : bool) (h : HealthRec) : HealthRec :=
  let previous := health h in
  let previousReason := healthReason h in
  if operational && lifecycle_state previous then h
  else if bool_decide (previous = st) && bool_decide (previousReason = reason) then h
  else
    let sequence := u64 (healthSequence h + 1) in
    {| health := st; healthReason := reason; lastSuccess := lastSuccess h;
       lastFailure := if failing_state st then now else lastFailure h;
       healthSequence := sequence;
       pendingTransition := Some {|
         ht_Destination := Destination config; ht_Generation := Generation config;
         ht_Previous := previous; ht_Current := st; ht_Reason := reason;
         ht_Counters := counters; ht_OccurredAt := now; ht_sequence := sequence |};
       healthNotify := true |}.

Definition setOperationalHealth config counters now st reason h :=
  transitionHealth config counters now st reason true h.
Definition setHealth config counters now st reason h :=
  transitionHealth config counters now st reason false h.

Definition recordSuccess (at_ : Time) (h : HealthRec) : HealthRec :=
  if IsZero at_ then h
  else {| health := health h; healthReason := healthReason h; lastSuccess := at_;
          lastFailure := lastFailure h; healthSequence := healthSequence h;
          pendingTransition := pendingTransition h; healthNotify := healthNotify h |}.

Definition recordFailure (at_ : Time) (h : HealthRec) : HealthRec :=
  if IsZero at_ then h
  else {| health := health h; healthReason := healthReason h; lastSuccess := lastSuccess h;
          lastFailure := at_; healthSequence := healthSequence h;
          pendingTransition := pendingTransition h; healthNotify := healthNotify h |}.

Definition peekTransition (h : HealthRec) : option HealthTransition := pendingTransition h.

Definition consumeTransition (expected : HealthTransition) (h : HealthRec) : HealthRec * bool :=
  match pendingTransition h with
  | Some t =>
      if ht_sequence t =? ht_sequence expected then
        ({| health := health h; healthReason := healthReason h; lastSuccess := lastSuccess h;
            lastFailure := lastFailure h; healthSequence := healthSequence h;
            pendingTransition := None; healthNotify := healthNotify h |}, true)
      else (h, false)
  | None => (h, false)
  end.

Definition take_notify (h : HealthRec) : HealthRec :=
  {| health := health h; healthReason := healthReason h; lastSuccess := lastSuccess h;
     lastFailure := lastFailure h; healthSequence := healthSequence h;
     pendingTransition := pendingTransition h; healthNotify := false |}.

(** ** The observer goroutine ([observeHealth])

    [OIdle] is the head of the loop; [OBlocked] the select without a pending
    transition; [OHave t] the point after a successful peek, where the rate
    limit decides between delivering now and waiting: the timer is the choice
    of the scheduler.  [OStopping] is [emitPendingTransition] after
    [observerStop]; [OStopHave] the same after its peek. *)
Inductive observer_pc :=
| OIdle
| OBlocked
| OHave (t : HealthTransition)
| OWaiting
| OTimer (t : HealthTransition)
| OStopping
| OStopHave (t : HealthTransition)
| OExited.

Record Monitor := { hr : HealthRec; opc : observer_pc }.

Inductive monitor_label :=
| MTransition (counters : Counters) (now : Time) (st : HealthState) (reason : HealthReason)
    (operational : bool)
| MSuccess (at_ : Time)
| MFailure (at_ : Time)
| MObserve (interval_passed : bool)
| MNotified
| MTimer
| MStop.

Definition emit (t : HealthTransition) (m : HealthRec) (next : observer_pc) : Monitor * list HealthTransition :=
  let (h, ok) := consumeTransition t m in
  ({| hr := h; opc := next |}, if ok then [t] else []).

Definition at_pc (h : HealthRec) (p : observer_pc) : Monitor := {| hr := h; opc := p |}.

Definition monitor_step (config : Config) (l : monitor_label) (m : Monitor)
    : option (Monitor * list HealthTransition) :=
  let h := hr m in
  match l, opc m with
  | MTransition counters now st reason op, p =>
      Some (at_pc (transitionHealth config counters now st reason op h) p, [])
  | MSuccess at_, p => Some (at_pc (recordSuccess at_ h) p, [])
  | MFailure at_, p => Some (at_pc (recordFailure at_ h) p, [])
  | MObserve _, OIdle =>
      match peekTransition h with
      | None => Some (at_pc h OBlocked, [])
      | Some t => Some (at_pc h (OHave t), [])
      end
  | MObserve true, OHave t => Some (emit t h OIdle)
  | MObserve false, OHave _ => Some (at_pc h OWaiting, [])
  | MNotified, OBlocked => if healthNotify h then Some (at_pc (take_notify h) OIdle, []) else None
  | MNotified, OWaiting => if healthNotify h then Some (at_pc (take_notify h) OIdle, []) else None
  | MTimer, OWaiting =>
      match peekTransition h with
      | Some t => Some (at_pc h (OTimer t), [])
      | None => Some (at_pc h OIdle, [])
      end
  | MObserve _, OTimer t => Some (emit t h OIdle)
  | MStop, OBlocked => Some (at_pc h OStopping, [])
  | MStop, OWaiting => Some (at_pc h OStopping, [])
  | MObserve _, OStopping =>
      match peekTransition h with
      | Some t => Some (at_pc h (OStopHave t), [])
      | None => Some (at_pc h OExited, [])
      end
  | MObserve _, OStopHave t => Some (emit t h OExited)
  | _, _ => None
  end.

(** ** Facts *)

Section MonitorFacts.
Context (config : Config).

(** What the observer has reported lies strictly below the pending
transition, which is not newer than the sequence counter. *)
Record monitor_ok (n : Z) (m : Monitor) (tr : list HealthTransition) : Prop := {
mo_bound : 0 <= healthSequence (hr m) <= n;
mo_sorted : StronglySorted (fun a b => ht_sequence a < ht_sequence b) tr;
mo_tr : Forall (fun e => ht_sequence e <= healthSequence (hr m)) tr;
mo_pending : forall p, pendingTransition (hr m) = Some p ->
ht_sequence p <= healthSequence (hr m) /\ Forall (fun e => ht_sequence e < ht_sequence p) tr;
mo_blocked : opc m = OBlocked -> pendingTransition (hr m) <> None -> healthNotify (hr m) = true;
}.

Lemma StronglySorted_snoc {A} (R : A -> A -> Prop) l x :
StronglySorted R l -> Forall (fun y => R y x) l -> StronglySorted R (l ++ [x]).
Proof.
induction 1 as [|y l Hl IH Hy]; intros Hx; simpl; [by repeat constructor|].
apply Forall_cons in Hx as [Hxy Hx]. constructor; [by apply IH|].
apply Forall_app. split; [done|]. by constructor.
Qed.

(** A step that changes neither the counter nor the pending transition. *)
Lemma monitor_ok_same n m m' tr :
monitor_ok n m tr -> healthSequence (hr m') = healthSequence (hr m) ->
pendingTransition (hr m') = pendingTransition (hr m) ->
(opc m' = OBlocked -> pendingTransition (hr m) <> None -> healthNotify (hr m') = true) ->
monitor_ok (n + 1) m' (tr ++ []).
Proof.
intros [] Hs Hp Hb. rewrite app_nil_r. split; rewrite ?Hs, ?Hp; try done. lia.
Qed.

Lemma transitionHealth_ok n m tr counters now st reason op :
n < max_u64 -> monitor_ok n m tr ->
monitor_ok (n + 1) (at_pc (transitionHealth config counters now st reason op (hr m)) (opc m)) (tr ++ []).
Proof.
intros Hn Hok. unfold transitionHealth.
destruct (op && _); [by eapply monitor_ok_same; [done..|]; destruct Hok|].
destruct (_ && _); [by eapply monitor_ok_same; [done..|]; destruct Hok|].
destruct Hok as [Hb Hsort Htr _ _]. rewrite app_nil_r.
rewrite u64_small by (unfold max_u64, two64 in *; lia).
split; simpl; try done; [lia|..].
- eapply Forall_impl; [done|]. simpl. lia.
- intros p [= <-]. simpl. split; [lia|]. eapply Forall_impl; [done|]. simpl. lia.
Qed.

Lemma emit_ok n m tr t next m' es :
monitor_ok n m tr -> emit t (hr m) next = (m', es) -> next <> OBlocked ->
monitor_ok (n + 1) m' (tr ++ es).
Proof.
unfold emit, consumeTransition. intros Hok He Hnext. pose proof Hok as [Hb Hsort Htr Hp _].
destruct (pendingTransition (hr m)) as [p|] eqn:E; simplify_eq; [|by eapply monitor_ok_same].
destruct (Z.eqb_spec (ht_sequence p) (ht_sequence t)) as [Heq|]; simplify_eq;
[|by eapply monitor_ok_same].
destruct (Hp p eq_refl) as [Hle Hlt]. split; simpl; try done; [lia|..].
- apply StronglySorted_snoc; [done|]. eapply Forall_impl; [done|]. simpl. lia.
- apply Forall_app. split; [done|]. constructor; [lia|done].
Qed.

Lemma monitor_step_ok n l m m' tr es :
n < max_u64 -> monitor_ok n m tr -> monitor_step config l m = Some (m', es) ->
monitor_ok (n + 1) m' (tr ++ es).
Proof.
intros Hn Hok Hs. destruct m as [h p].
pose proof (mo_blocked _ _ _ Hok) as Hblk. simpl in Hblk.
destruct l; simpl in Hs; simplify_eq; try (by eapply transitionHealth_ok in Hok).
- eapply monitor_ok_same; [done|unfold recordSuccess; simpl; by destruct (IsZero at_)..|].
simpl. intros ? ?. unfold recordSuccess. destruct (IsZero at_); by apply Hblk.
- eapply monitor_ok_same; [done|unfold recordFailure; simpl; by destruct (IsZero at_)..|].
simpl. intros ? ?. unfold recordFailure. destruct (IsZero at_); by apply Hblk.
- destruct p; repeat (case_match; simplify_eq/=); try done;
  try (by eapply monitor_ok_same); by eapply emit_ok.
- destruct p; simplify_eq; case_match; simplify_eq; by eapply monitor_ok_same.
- destruct p; simplify_eq; case_match; simplify_eq; by eapply monitor_ok_same.
- destruct p; simplify_eq; by eapply monitor_ok_same.
Qed.

Lemma reachable_monitor_ok st ls m tr :
zlen ls <= max_u64 ->
reachable (monitor_step config) (at_pc (initial_health st) OIdle) ls m tr ->
monitor_ok (zlen ls) m tr.
Proof.
intros Hlen H. revert Hlen.
eapply (reachable_ind_inv _ (fun ls m tr => zlen ls <= max_u64 -> monitor_ok (zlen ls) m tr));
[| |exact H].
- intros _. split; simpl; try done. constructor.
- intros ls0 m0 tr0 l m' es IH Hs Hlen. unfold zlen in *. rewrite length_app in *. simpl in *.
replace (Z.of_nat (length ls0 + 1)) with (Z.of_nat (length ls0) + 1) in * by lia.
eapply monitor_step_ok; [lia|apply IH; lia|done].
Qed.
End MonitorFacts.

(** ** Properties *)

(** The observer never reports a health transition twice or out of order:
    whatever the interleaving of transitions, peeks, timers, notifications and
    the final drain, the reported sequence numbers strictly increase; and an
    observer blocked on its channel while a transition is pending has a
    notification waiting, so no transition is lost to a missed wake-up. *)
Theorem observer_reports_in_order config st ls m tr :
  zlen ls <= max_u64 ->
  reachable (monitor_step config) (at_pc (initial_health st) OIdle) ls m tr ->
  StronglySorted (fun a b => ht_sequence a < ht_sequence b) tr
  /\ (opc m = OBlocked -> pendingTransition (hr m) <> None ->
      exists m', monitor_step config MNotified m = Some (m', [])).
Proof.
  intros Hl H. destruct (reachable_monitor_ok _ _ _ _ _ Hl H) as [_ Hs _ _ Hb].
  split; [done|]. intros Hp Hne. destruct m as [h p]; simpl in *. subst p.
  unfold monitor_step. simpl. rewrite (Hb eq_refl Hne). eauto.
Qed.

Definition demo_monitor_labels : list monitor_label :=
  [MObserve true; MTransition zero_counters 5 HealthHealthy HealthReasonActivated true; MNotified;
   MObserve true; MTransition zero_counters 6 HealthFailing HealthReasonDeliveryFailed true;
   MObserve true; MObserve true; MObserve false; MNotified; MObserve true; MObserve true].

Lemma observer_reports_in_order_witness :
  exists m tr,
    run (monitor_step (demo_config 2 9)) demo_monitor_labels
      (at_pc (initial_health HealthInitializing) OIdle) = Some (m, tr)
    /\ map ht_sequence tr = [2]
    /\ StronglySorted (fun a b => ht_sequence a < ht_sequence b) tr.
Proof.
  eexists _, _. split; [vm_compute; reflexivity|]. split; [reflexivity|].
  refine (proj1 (observer_reports_in_order (demo_config 2 9) HealthInitializing
    (take 10 demo_monitor_labels ++ [MObserve true]) _ _ _ _)).
  - discriminate.
  - apply run_reachable. vm_compute. reflexivity.
Defined.

(** An operational transition never leaves a lifecycle state: once the
    destination drains, has stopped or is disabled, no delivery outcome changes
    its health, its reason, its pending transition or its failure time. *)
Theorem operational_health_keeps_lifecycle config h ts :
  lifecycle_state (health h) = true ->
  fold_left (fun h '(c, now, st, reason) => setOperationalHealth config c now st reason h) ts h = h.
Proof.
  intros Hl. induction ts as [|[[[c now] st] reason] ts IH]; [done|]. simpl.
  unfold setOperationalHealth at 2, transitionHealth. by rewrite Hl.
Qed.

Lemma operational_health_keeps_lifecycle_witness :
  let h := setHealth (demo_config 2 9) zero_counters 7 HealthDraining HealthReasonIntakeStopped
             (initial_health HealthHealthy) in
  fold_left (fun h '(c, now, st, reason) => setOperationalHealth (demo_config 2 9) c now st reason h)
    [(zero_counters, 8, HealthFailing, HealthReasonDeliveryFailed)] h = h.
Proof. intros h. apply operational_health_keeps_lifecycle. reflexivity. Defined.
