(* ===== verification/Dispatcher.v ===== *)
(** * The dispatcher (internal/observability/delivery/dispatcher.go)

    One destination's queue, its worker goroutine and its lifecycle.  The state
    is the Go struct, with the worker's position in [run] as an explicit
    program point; a label is one critical section of a producer, of the
    lifecycle calls or of the worker, so that every interleaving of the locks
    is a sequence of labels.  What a lock section is followed by without
    another lock in between (atomic counters, the nonblocking signals) belongs
    to the same step. *)
From stdpp Require Import base list strings.
From Stdlib Require Import ZArith Lia.
From S2P Require Import Prelude GoStrings Taxonomy Delivery Health.

Local Open Scope Z_scope.

(** ** State *)

Record Lifecycle := {
  activated : bool;
  accepting : bool;
  intakeStopped : bool;
  closeStarted : bool;
  workerStarted : bool;
  observerStarted : bool;
}.

Record Queue := {
  pending : list Payload;
  chargedItems : Z;
  chargedBytes : Z;
  inFlightItems : Z;
  inFlightBytes : Z;
}.

Record Breaker := {
  circuitState : CircuitState;
  consecutiveFailures : Z;
  circuitOpenUntil : Time;
  lastFailureClass : FailureClass;
}.

(** What follows a [release]: the loop head, the recovery report of a
    delivered batch, or the exit of [deliver] with [false]. *)
Inductive after_release := ThenLoop | ThenRecovered | ThenExit.

(** The program points of the worker goroutine. *)
Inductive worker_pc :=
| WNotStarted
| WLaunching                                  (* Activate, after its lock section *)
| WTop                                        (* head of the loop of run *)
| WWait                                       (* the lock section of waitForPending *)
| WSelect                                     (* its select *)
| WMode                                       (* before circuitMode *)
| WBlocked                                    (* before takeCircuitRejectedBatch *)
| WDelay                                      (* waitScheduledDelay *)
| WDelaySelect                                (* its select *)
| WTake (probe : bool)                        (* first lock section of takeBatch *)
| WCommit (probe : bool) (batch : list Payload) (size : Z) (oversized : bool)
                                              (* second lock section of takeBatch *)
| WOversized (batch : list Payload)
| WDeliver (batch : list Payload) (size : Z) (probe : bool) (attempt : Z)
| WBackoff (batch : list Payload) (size : Z) (probe : bool) (attempt : Z)
| WRelease (batch : list Payload) (next : after_release)
| WRecovered                                  (* setOperationalHealth(Healthy, Recovered) *)
| WAbandon (abort : bool)                     (* abortCircuitProbe; abandonPending; return *)
| WDone.

(** A caller of [Flush]: at the loop test or blocked in the select. *)
Inductive flusher := FCheck (target : Z) | FWait (target : Z).

Record Dispatcher := {
  life : Lifecycle;
  rootCancelled : bool;
  queue : Queue;
  breaker : Breaker;
  hrec : HealthRec;
  counters : Counters;
  completed : Z;
  wake : bool;
  flushNotify : bool;
  workerDone : bool;
  observerStop : bool;
  pc : worker_pc;
  flushers : list flusher;
}.

Definition with_life l d := {| life := l; rootCancelled := rootCancelled d; queue := queue d;
  breaker := breaker d; hrec := hrec d; counters := counters d; completed := completed d;
  wake := wake d; flushNotify := flushNotify d; workerDone := workerDone d;
  observerStop := observerStop d; pc := pc d; flushers := flushers d |}.
Definition with_queue q d := {| life := life d; rootCancelled := rootCancelled d; queue := q;
  breaker := breaker d; hrec := hrec d; counters := counters d; completed := completed d;
  wake := wake d; flushNotify := flushNotify d; workerDone := workerDone d;
  observerStop := observerStop d; pc := pc d; flushers := flushers d |}.
Definition with_breaker b d := {| life := life d; rootCancelled := rootCancelled d; queue := queue d;
  breaker := b; hrec := hrec d; counters := counters d; completed := completed d;
  wake := wake d; flushNotify := flushNotify d; workerDone := workerDone d;
  observerStop := observerStop d; pc := pc d; flushers := flushers d |}.
Definition with_hrec h d := {| life := life d; rootCancelled := rootCancelled d; queue := queue d;
  breaker := breaker d; hrec := h; counters := counters d; completed := completed d;
  wake := wake d; flushNotify := flushNotify d; workerDone := workerDone d;
  observerStop := observerStop d; pc := pc d; flushers := flushers d |}.
Definition with_counters c d := {| life := life d; rootCancelled := rootCancelled d; queue := queue d;
  breaker := breaker d; hrec := hrec d; counters := c; completed := completed d;
  wake := wake d; flushNotify := flushNotify d; workerDone := workerDone d;
  observerStop := observerStop d; pc := pc d; flushers := flushers d |}.
Definition with_pc p d := {| life := life d; rootCancelled := rootCancelled d; queue := queue d;
  breaker := breaker d; hrec := hrec d; counters := counters d; completed := completed d;
  wake := wake d; flushNotify := flushNotify d; workerDone := workerDone d;
  observerStop := observerStop d; pc := p; flushers := flushers d |}.
Definition with_flushers f d := {| life := life d; rootCancelled := rootCancelled d; queue := queue d;
  breaker := breaker d; hrec := hrec d; counters := counters d; completed := completed d;
  wake := wake d; flushNotify := flushNotify d; workerDone := workerDone d;
  observerStop := observerStop d; pc := pc d; flushers := f |}.
Definition with_wake w d := {| life := life d; rootCancelled := rootCancelled d; queue := queue d;
  breaker := breaker d; hrec := hrec d; counters := counters d; completed := completed d;
  wake := w; flushNotify := flushNotify d; workerDone := workerDone d;
  observerStop := observerStop d; pc := pc d; flushers := flushers d |}.
Definition with_notify n d := {| life := life d; rootCancelled := rootCancelled d; queue := queue d;
  breaker := breaker d; hrec := hrec d; counters := counters d; completed := completed d;
  wake := wake d; flushNotify := n; workerDone := workerDone d;
  observerStop := observerStop d; pc := pc d; flushers := flushers d |}.
Definition with_completed n d := {| life := life d; rootCancelled := rootCancelled d; queue := queue d;
  breaker := breaker d; hrec := hrec d; counters := counters d; completed := n;
  wake := wake d; flushNotify := flushNotify d; workerDone := workerDone d;
  observerStop := observerStop d; pc := pc d; flushers := flushers d |}.
Definition with_done r w o d := {| life := life d; rootCancelled := r; queue := queue d;
  breaker := breaker d; hrec := hrec d; counters := counters d; completed := completed d;
  wake := wake d; flushNotify := flushNotify d; workerDone := w;
  observerStop := o; pc := pc d; flushers := flushers d |}.

Definition add_counts (acc del ret drp rej fai : Z) (d : Dispatcher) : Dispatcher :=
  with_counters (count acc del ret drp rej fai (counters d)) d.

(** What an outside observer of a run sees: the answers of [Enqueue], the calls
    of the adapter, the terminal disposition of each batch, the releases and the
    returns of [Flush]. *)
Inductive event :=
| EvEnqueued (p : Payload) (result : EnqueueResult)
| EvAttempt (batch : list Payload)
| EvDelivered (batch : list Payload)
| EvPartial (batch : list Payload) (delivered rejected : Z)
| EvRejected (batch : list Payload)
| EvDropped (batch : list Payload)
| EvReleased (batch : list Payload)
| EvFlushed (target : Z).

Definition NewDispatcher (config : Config) (has_adapter : bool) : Dispatcher + ErrorCode :=
  if negb (IsStableToken (Destination config)) || (ObserverInterval config <? 0)
     || (negb (ConfigSignal config =? "")%string
         && negb (existsb (String.eqb (ConfigSignal config)) ["logs"; "traces"; "metrics"])%string)
  then inr ErrorInvalidConfig
  else match normalizedCircuitPolicy (CircuitCfg config) with
  | None => inr ErrorInvalidConfig
  | Some _ =>
      if Enabled config && negb (validEnabledConfig config has_adapter) then inr ErrorInvalidConfig
      else inl {|
        life := {| activated := false; accepting := false; intakeStopped := false;
                   closeStarted := false; workerStarted := false; observerStarted := false |};
        rootCancelled := false;
        queue := {| pending := []; chargedItems := 0; chargedBytes := 0; inFlightItems := 0;
                    inFlightBytes := 0 |};
        breaker := {| circuitState := CircuitClosed; consecutiveFailures := 0;
                      circuitOpenUntil := zero_time; lastFailureClass := FailureClassOther "" |};
        hrec := initial_health (if Enabled config then HealthInitializing else HealthDisabled);
        counters := zero_counters; completed := 0; wake := false; flushNotify := false;
        workerDone := false; observerStop := false; pc := WNotStarted; flushers := [] |}
  end.

(** The configuration a dispatcher owns: the circuit policy is normalized. *)
Definition owned_config (config : Config) : Config :=
  match normalizedCircuitPolicy (CircuitCfg config) with
  | None => config
  | Some circuit =>
      {| Destination := Destination config; Generation := Generation config;
         ConfigSignal := ConfigSignal config; Enabled := Enabled config;
         MaxQueueItems := MaxQueueItems config; MaxQueueBytes := MaxQueueBytes config;
         MaxBatchItems := MaxBatchItems config; MaxBatchBytes := MaxBatchBytes config;
         ScheduledDelay := ScheduledDelay config; AttemptTimeout := AttemptTimeout config;
         Retry := Retry config; CircuitCfg := circuit; ObserverInterval := ObserverInterval config |}
  end.

(** ** Operations *)

Section Ops.
Context (config : Config).

Definition intakeIsStopped (d : Dispatcher) : bool :=
intakeStopped (life d) || closeStarted (life d).

Definition signalWorker (d : Dispatcher) : Dispatcher := with_wake true d.
Definition signalFlush (d : Dispatcher) : Dispatcher := with_notify true d.
Definition finishWorker (d : Dispatcher) : Dispatcher :=
with_done (rootCancelled d) true (observerStop d) d.

Definition set_op (now : Time) (st : HealthState) (reason : HealthReason) (d : Dispatcher) : Dispatcher :=
with_hrec (setOperationalHealth config (counters d) now st reason (hrec d)) d.
Definition set_health (now : Time) (st : HealthState) (reason : HealthReason) (d : Dispatcher) : Dispatcher :=
with_hrec (setHealth config (counters d) now st reason (hrec d)) d.
Definition record_failure (now : Time) (d : Dispatcher) : Dispatcher :=
with_hrec (recordFailure now (hrec d)) d.
Definition record_success (now : Time) (d : Dispatcher) : Dispatcher :=
with_hrec (recordSuccess now (hrec d)) d.

(** *** The breaker *)

Definition set_circuit (st : CircuitState) (b : Breaker) : Breaker :=
{| circuitState := st; consecutiveFailures := consecutiveFailures b;
 circuitOpenUntil := circuitOpenUntil b; lastFailureClass := lastFailureClass b |}.

(** The answer is (admitted, half-open). *)
Definition admitCircuit (now : Time) (b : Breaker) : Breaker * (bool * bool) :=
match circuitState b with
| CircuitClosed => (b, (true, false))
| CircuitOpen =>
  if Before now (circuitOpenUntil b) then (b, (false, false))
  else (set_circuit CircuitHalfOpen b, (true, true))
| CircuitHalfOpen => (b, (false, false))
| CircuitUnset => (b, (false, false))
end.

Inductive circuitDeliveryMode := circuitDeliveryNormal | circuitDeliveryBlocked | circuitDeliveryProbe.

Definition circuitMode (now : Time) (b : Breaker) : Breaker * (circuitDeliveryMode * bool) :=
match circuitState b with
| CircuitClosed => (b, (circuitDeliveryNormal, false))
| CircuitOpen =>
  if Before now (circuitOpenUntil b) then (b, (circuitDeliveryBlocked, false))
  else (set_circuit CircuitHalfOpen b, (circuitDeliveryProbe, true))
| CircuitHalfOpen => (b, (circuitDeliveryProbe, false))
| CircuitUnset => (b, (circuitDeliveryBlocked, false))
end.

Definition recordCircuitSuccess (b : Breaker) : Breaker :=
{| circuitState := CircuitClosed; consecutiveFailures := 0; circuitOpenUntil := zero_time;
 lastFailureClass := lastFailureClass b |}.

Definition abortCircuitProbe (b : Breaker) : Breaker :=
if bool_decide (circuitState b = CircuitHalfOpen) then set_circuit CircuitOpen b else b.

Definition recordCircuitFailure (class : FailureClass) (at_ : Time) (b : Breaker) : Breaker * bool :=
let failures := bumpFailures (consecutiveFailures b) in
let shouldOpen :=
bool_decide (circuitState b = CircuitHalfOpen) || immediateFailure class
|| (failures >=? u64 (TransientFailureThreshold (CircuitCfg config))) in
if negb shouldOpen then
({| circuitState := circuitState b; consecutiveFailures := failures;
    circuitOpenUntil := circuitOpenUntil b; lastFailureClass := class |}, false)
else
let openDuration :=
  if immediateFailure class then immediateCircuitOpenDurationFor class
  else OpenDuration (CircuitCfg config) in
({| circuitState := CircuitOpen; consecutiveFailures := failures;
    circuitOpenUntil := at_ + openDuration; lastFailureClass := class |}, true).

(** *** Producers and lifecycle *)

Definition reject (reason : EnqueueReason) (d : Dispatcher) : Dispatcher * EnqueueResult :=
(d, {| Disposition := EnqueueRejected; Reason := reason |}).

Definition full_reason (countFull byteFull : bool) : EnqueueReason :=
if countFull && byteFull then ReasonCountAndByteLimit
else if byteFull then ReasonByteLimit else ReasonCountLimit.

Definition push (p : Payload) (q : Queue) : Queue :=
{| pending := pending q ++ [p]; chargedItems := i64 (chargedItems q + 1);
 chargedBytes := i64 (chargedBytes q + Size p); inFlightItems := inFlightItems q;
 inFlightBytes := inFlightBytes q |}.

Definition Enqueue (p : Payload) (now : Time) (d : Dispatcher) : Dispatcher * EnqueueResult :=
if negb (payload_valid p) then
reject ReasonInvalidPayload (record_failure now (add_counts 0 0 0 0 1 0 d))
else if negb (OriginDestination (identity p) =? "")%string
      && (OriginDestination (identity p) =? Destination config)%string then
reject ReasonOriginLoop
  (set_op now HealthDegraded HealthReasonOriginLoop (record_failure now (add_counts 0 0 0 0 1 0 d)))
else
let active := activated (life d) && Enabled config && negb (closeStarted (life d)) in
if negb active || negb (accepting (life d)) then
  reject (if active || intakeIsStopped d then ReasonIntakeStopped else ReasonInactive)
    (add_counts 0 0 0 0 1 0 d)
else
  let countFull := chargedItems (queue d) >=? MaxQueueItems config in
  let byteFull := Size p >? i64 (MaxQueueBytes config - chargedBytes (queue d)) in
  if countFull || byteFull then
    (set_op now HealthDegraded HealthReasonQueueFull
       (record_failure now (add_counts 0 0 0 1 0 0 d)),
     {| Disposition := EnqueueDropped; Reason := full_reason countFull byteFull |})
  else
    let '(b, (admitted, halfOpen)) := admitCircuit now (breaker d) in
    let d := with_breaker b d in
    if negb admitted then reject ReasonCircuitOpen (add_counts 0 0 0 0 1 0 d)
    else
      let d := add_counts 1 0 0 0 0 0 (with_queue (push p (queue d)) d) in
      let d := if halfOpen then set_op now HealthDegraded HealthReasonCircuitHalfOpen d else d in
      (signalWorker d, {| Disposition := EnqueueAccepted; Reason := ReasonNone |}).

(** The lock section of [Activate], then its publication of the initial state
and the start of the goroutines. *)
Definition Activate_flags (d : Dispatcher) : Dispatcher :=
let l := life d in
if activated l || closeStarted l then d
else if negb (Enabled config) then
with_life {| activated := true; accepting := accepting l; intakeStopped := intakeStopped l;
             closeStarted := closeStarted l; workerStarted := workerStarted l;
             observerStarted := observerStarted l |} d
else
with_pc WLaunching
  (with_life {| activated := true; accepting := negb (intakeStopped l);
                intakeStopped := intakeStopped l; closeStarted := closeStarted l;
                workerStarted := true; observerStarted := true |} d).

Definition Activate_launch (now : Time) (d : Dispatcher) : option Dispatcher :=
match pc d with
| WLaunching =>
  Some (with_pc WTop
    (if intakeIsStopped d then set_health now HealthDraining HealthReasonIntakeStopped d
     else set_op now HealthHealthy HealthReasonActivated d))
| _ => None
end.

Definition StopIntake (now : Time) (d : Dispatcher) : Dispatcher :=
let l := life d in
let d := with_life {| activated := activated l; accepting := false; intakeStopped := true;
                    closeStarted := closeStarted l; workerStarted := workerStarted l;
                    observerStarted := observerStarted l |} d in
let d := if activated l && Enabled config && negb (closeStarted l)
       then set_health now HealthDraining HealthReasonIntakeStopped d else d in
signalWorker d.

(** [Close]: after its call of [StopIntake], its lock section; then the first
caller's cancellation; then, once the worker is done, the end. *)
Definition Close_mark (d : Dispatcher) : option Dispatcher :=
let l := life d in
if negb (intakeStopped l) then None
else Some (with_life {| activated := activated l; accepting := false;
           intakeStopped := intakeStopped l; closeStarted := true;
           workerStarted := workerStarted l; observerStarted := observerStarted l |} d).

Definition Close_cancel (d : Dispatcher) : option Dispatcher :=
if negb (closeStarted (life d)) then None
else
let d := signalWorker (with_done true (workerDone d) (observerStop d) d) in
Some (if negb (workerStarted (life d)) then finishWorker d else d).

Definition Close_finish (now : Time) (d : Dispatcher) : option Dispatcher :=
if negb (closeStarted (life d)) || negb (workerDone d) then None
else
let d := set_health now HealthStopped HealthReasonClosed d in
Some (with_done (rootCancelled d) (workerDone d) (observerStop d || observerStarted (life d)) d).

(** *** Queue operations of the worker *)

Definition take_queue (n : nat) (q : Queue) : Queue :=
{| pending := drop n (pending q); chargedItems := chargedItems q; chargedBytes := chargedBytes q;
 inFlightItems := zlen (take n (pending q)); inFlightBytes := sumZ Size (take n (pending q)) |}.

(** [takeCircuitRejectedBatch] *)
Definition takeCircuitRejectedBatch (q : Queue) : Queue * list Payload :=
let limit := batch_limit config (pending q) in
match limit with
| O => (q, [])
| _ => (take_queue limit q, take limit (pending q))
end.

Definition uncharge (ps : list Payload) (q : Queue) : Queue :=
fold_left (fun q p =>
{| pending := pending q; chargedItems := i64 (chargedItems q - 1);
   chargedBytes := i64 (chargedBytes q - Size p); inFlightItems := inFlightItems q;
   inFlightBytes := inFlightBytes q |}) ps q.

Definition release (ps : list Payload) (d : Dispatcher) : Dispatcher :=
let q := uncharge ps (queue d) in
let q := {| pending := pending q; chargedItems := chargedItems q; chargedBytes := chargedBytes q;
          inFlightItems := 0; inFlightBytes := 0 |} in
signalFlush (with_completed (u64 (completed d + zlen ps)) (with_queue q d)).

Definition abandonPending (d : Dispatcher) : Dispatcher :=
let ps := pending (queue d) in
let q := uncharge ps (queue d) in
let q := {| pending := []; chargedItems := chargedItems q; chargedBytes := chargedBytes q;
          inFlightItems := inFlightItems q; inFlightBytes := inFlightBytes q |} in
let d := with_queue q d in
match ps with
| [] => d
| _ => signalFlush (with_completed (u64 (completed d + zlen ps)) (add_counts 0 0 0 (zlen ps) 0 0 d))
end.

(** *** The outcome of an attempt *)

Definition zero_items (r : DeliveryResult) : bool :=
(DeliveredItems r =? 0) && (RejectedItems r =? 0).

(** A terminal failure of the batch: its counters, the failure time, the
breaker and the health, in the order of the code. *)
Definition fail_batch (class : FailureClass) (now : Time) (d : Dispatcher) : Dispatcher :=
let d := record_failure now d in
let (b, opened) := recordCircuitFailure class now (breaker d) in
set_op now HealthFailing
(if opened then HealthReasonCircuitOpen else HealthReasonDeliveryFailed) (with_breaker b d).

Definition rejectMalformedResult (ps : list Payload) (now : Time) (d : Dispatcher) : Dispatcher :=
with_pc (WRelease ps ThenLoop)
(fail_batch FailureClassPermanentPayload now (add_counts 0 0 0 0 (zlen ps) 1 d)).

Definition attempts_allowed (probe : bool) : Z :=
if probe then 1 else MaxAttempts (Retry config).

(** The switch of [deliver] on the adapter's result. *)
Definition deliver_outcome (ps : list Payload) (size : Z) (probe : bool) (attempt : Z) (now : Time)
(result : DeliveryResult) (d : Dispatcher) : Dispatcher * list event :=
let n := zlen ps in
let malformed := (rejectMalformedResult ps now d, [EvRejected ps]) in
match Outcome result with
| OutcomeDelivered =>
  if negb (zero_items result) then malformed
  else
    let d := record_success now (add_counts 0 n 0 0 0 0 d) in
    (with_pc (WRelease ps ThenRecovered) (with_breaker (recordCircuitSuccess (breaker d)) d),
     [EvDelivered ps])
| OutcomePartial =>
  if negb (validPartialResult result n) then malformed
  else
    let d := add_counts 0 (DeliveredItems result) 0 0 (RejectedItems result) 1 d in
    let d := record_failure now (record_success now d) in
    let d := with_breaker (recordCircuitSuccess (breaker d)) d in
    (with_pc (WRelease ps ThenLoop) (set_op now HealthDegraded HealthReasonPartial d),
     [EvPartial ps (DeliveredItems result) (RejectedItems result)])
| OutcomeTransient | OutcomeAmbiguous =>
  if negb (zero_items result) then malformed
  else if attempt =? attempts_allowed probe then
    (with_pc (WRelease ps ThenLoop)
       (fail_batch FailureClassTransient now (add_counts 0 0 0 0 n 1 d)), [EvRejected ps])
  else
    (with_pc (WBackoff ps size probe attempt)
       (set_op now HealthDegraded HealthReasonRetryable (add_counts 0 0 n 0 0 1 d)), [])
| OutcomeAuthentication | OutcomePermanentPayload | OutcomeUnsafeEndpoint =>
  if negb (zero_items result) then malformed
  else
    (with_pc (WRelease ps ThenLoop)
       (fail_batch (failureClassForOutcome (Outcome result)) now (add_counts 0 0 0 0 n 1 d)),
     [EvRejected ps])
| OutcomeOther _ =>
  (with_pc (WRelease ps ThenLoop)
     (fail_batch FailureClassPermanentPayload now (add_counts 0 0 0 0 n 1 d)), [EvRejected ps])
end.

Definition drop_batch (ps : list Payload) (d : Dispatcher) : Dispatcher * list event :=
(with_pc (WRelease ps ThenExit) (add_counts 0 0 0 (zlen ps) 0 0 d), [EvDropped ps]).

(** [callAdapter]: a panic is the zero result of a permanent payload failure. *)
Definition callAdapter (answer : option DeliveryResult) : DeliveryResult :=
match answer with
| Some r => r
| None => {| Outcome := OutcomePermanentPayload; DeliveredItems := 0; RejectedItems := 0 |}
end.

Definition deliver (ps : list Payload) (size : Z) (probe : bool) (attempt : Z) (now : Time)
(answer : option DeliveryResult) (d : Dispatcher) : Dispatcher * list event :=
if attempt <=? attempts_allowed probe then
let (d', es) :=
  if rootCancelled d then drop_batch ps d
  else deliver_outcome ps size probe attempt now (callAdapter answer) d in
(d', EvAttempt ps :: es)
else (with_pc WTop d, []).

(** *** The worker *)

(** The ready case that a select takes, when several are ready. *)
Inductive select_case := SelDone | SelWake | SelTimer.

(** What the environment decides in a step of the worker: the clock, the case
of a select, the adapter's estimator and answer, the random draw. *)
Record worker_input := {
in_now : Time;
in_select : select_case;
in_estimate : list Z -> option Z;
in_answer : option DeliveryResult;
in_draw : Duration -> Duration;
}.

Definition silent (d : Dispatcher) : option (Dispatcher * list event) := Some (d, []).

(** [takeBatch], first section: the batch is selected on a copy of the head of
the queue. *)
Definition takeBatch_select (probe : bool) (estimate : list Z -> option Z) (d : Dispatcher) : Dispatcher :=
let candidates := take (batch_limit config (pending (queue d))) (pending (queue d)) in
match select_batch config estimate candidates with
| (O, _, _) =>
  with_pc WTop (if probe then with_breaker (abortCircuitProbe (breaker d)) d else d)
| (n, size, oversized) => with_pc (WCommit probe (take n candidates) size oversized) d
end.

(** [waitForPending]: its lock section, and its select. *)
Definition waitForPending (d : Dispatcher) : option (Dispatcher * list event) :=
match pending (queue d) with
| _ :: _ => silent (with_pc WMode d)
| [] => if intakeIsStopped d then silent (with_pc WDone (finishWorker d))
      else silent (with_pc WSelect d)
end.

Definition waitForPending_select (i : worker_input) (d : Dispatcher) : option (Dispatcher * list event) :=
match in_select i with
| SelDone => if rootCancelled d then silent (with_pc WDone (finishWorker d)) else None
| SelWake => if wake d then silent (with_pc WWait (with_wake false d)) else None
| SelTimer => None
end.

(** The part of [run] from [circuitMode] to the choice of the next call. *)
Definition run_mode (now : Time) (d : Dispatcher) : option (Dispatcher * list event) :=
let '(b, (mode, enteredHalfOpen)) := circuitMode now (breaker d) in
let d := with_breaker b d in
let d := if enteredHalfOpen then set_op now HealthDegraded HealthReasonCircuitHalfOpen d else d in
silent (with_pc (match mode with
               | circuitDeliveryBlocked => WBlocked
               | circuitDeliveryNormal => WDelay
               | circuitDeliveryProbe => WTake true
               end) d).

(** Its branch for a blocked circuit. *)
Definition run_blocked (d : Dispatcher) : option (Dispatcher * list event) :=
match takeCircuitRejectedBatch (queue d) with
| (_, []) => silent (with_pc WTop d)
| (q, ps) =>
  Some (with_pc (WRelease ps ThenLoop) (add_counts 0 0 0 0 (zlen ps) 0 (with_queue q d)),
        [EvRejected ps])
end.

Definition waitScheduledDelay (d : Dispatcher) : option (Dispatcher * list event) :=
if (ScheduledDelay config <=? 0) || intakeIsStopped d then
silent (with_pc (if rootCancelled d then WAbandon false else WTake false) d)
else silent (with_pc WDelaySelect d).

Definition waitScheduledDelay_select (i : worker_input) (d : Dispatcher)
: option (Dispatcher * list event) :=
match in_select i with
| SelDone => if rootCancelled d then silent (with_pc (WAbandon false) d) else None
| SelTimer => silent (with_pc (WTake false) d)
| SelWake =>
  if wake d then
    let d := with_wake false d in
    silent (if intakeIsStopped d then with_pc (WTake false) d else d)
  else None
end.

(** [takeBatch], second section: the selected records leave the queue. *)
Definition takeBatch_commit (probe : bool) (ps : list Payload) (size : Z) (oversized : bool)
(d : Dispatcher) : Dispatcher :=
let q := queue d in
let q := {| pending := drop (length ps) (pending q); chargedItems := chargedItems q;
          chargedBytes := chargedBytes q; inFlightItems := zlen ps;
          inFlightBytes := sumZ Size ps |} in
with_pc (if oversized then WOversized ps else WDeliver ps size probe 1) (with_queue q d).

(** The branch of [run] for a batch that no request can hold. *)
Definition run_oversized (now : Time) (ps : list Payload) (d : Dispatcher)
: option (Dispatcher * list event) :=
Some (with_pc (WRelease ps ThenLoop)
      (fail_batch FailureClassPermanentPayload now (add_counts 0 0 0 0 (zlen ps) 1 d)),
    [EvRejected ps]).

Definition waitBackoff (ps : list Payload) (size : Z) (probe : bool) (attempt : Z) (i : worker_input)
(d : Dispatcher) : option (Dispatcher * list event) :=
let delay := boundedBackoff (in_draw i) (Retry config) attempt in
let again := silent (with_pc (WDeliver ps size probe (attempt + 1)) d) in
if delay <=? 0 then (if rootCancelled d then Some (drop_batch ps d) else again)
else
match in_select i with
| SelDone => if rootCancelled d then Some (drop_batch ps d) else None
| SelTimer => again
| SelWake => None
end.

(** The exits of [run] that abandon what is pending. *)
Definition run_abandon (abort : bool) (d : Dispatcher) : option (Dispatcher * list event) :=
let d := if abort then with_breaker (abortCircuitProbe (breaker d)) d else d in
Some (with_pc WDone (finishWorker (abandonPending d)),
    match pending (queue d) with
    | [] => []
    | ps => [EvDropped ps; EvReleased ps]
    end).

Definition worker_step (i : worker_input) (d : Dispatcher) : option (Dispatcher * list event) :=
match pc d with
| WNotStarted | WLaunching | WDone => None
| WTop => silent (with_pc (if rootCancelled d then WAbandon true else WWait) d)
| WWait => waitForPending d
| WSelect => waitForPending_select i d
| WMode => run_mode (in_now i) d
| WBlocked => run_blocked d
| WDelay => waitScheduledDelay d
| WDelaySelect => waitScheduledDelay_select i d
| WTake probe => silent (takeBatch_select probe (in_estimate i) d)
| WCommit probe ps size oversized => silent (takeBatch_commit probe ps size oversized d)
| WOversized ps => run_oversized (in_now i) ps d
| WDeliver ps size probe attempt => Some (deliver ps size probe attempt (in_now i) (in_answer i) d)
| WBackoff ps size probe attempt => waitBackoff ps size probe attempt i d
| WRelease ps next =>
  Some (with_pc (match next with
                 | ThenLoop => WTop
                 | ThenRecovered => WRecovered
                 | ThenExit => WAbandon true
                 end) (release ps d), [EvReleased ps])
| WRecovered => silent (with_pc WTop (set_op (in_now i) HealthHealthy HealthReasonRecovered d))
| WAbandon abort => run_abandon abort d
end.

(** [Flush]: a caller reads its target and then alternates between the test
and the select on the notification channel. *)
Definition flusher_step (i : nat) (d : Dispatcher) : option (Dispatcher * list event) :=
match flushers d !! i with
| None => None
| Some (FCheck target) =>
  if completed d <? target then silent (with_flushers (<[i := FWait target]> (flushers d)) d)
  else Some (with_flushers (delete i (flushers d)) d, [EvFlushed target])
| Some (FWait target) =>
  if flushNotify d then
    silent (with_notify false (with_flushers (<[i := FCheck target]> (flushers d)) d))
  else None
end.

(** ** The machine *)

Inductive label :=
| LActivate
| LLaunch (now : Time)
| LEnqueue (p : Payload) (now : Time)
| LStopIntake (now : Time)
| LCloseMark
| LCloseCancel
| LCloseFinish (now : Time)
| LWorker (i : worker_input)
| LFlush
| LFlusher (i : nat).

Definition quiet (o : option Dispatcher) : option (Dispatcher * list event) :=
match o with Some d => Some (d, []) | None => None end.

Definition step (l : label) (d : Dispatcher) : option (Dispatcher * list event) :=
match l with
| LActivate => silent (Activate_flags d)
| LLaunch now => quiet (Activate_launch now d)
| LEnqueue p now => let (d', r) := Enqueue p now d in Some (d', [EvEnqueued p r])
| LStopIntake now => silent (StopIntake now d)
| LCloseMark => quiet (Close_mark d)
| LCloseCancel => quiet (Close_cancel d)
| LCloseFinish now => quiet (Close_finish now d)
| LWorker i => worker_step i d
| LFlush => silent (with_flushers (flushers d ++ [FCheck (Accepted (counters d))]) d)
| LFlusher i => flusher_step i d
end.
End Ops.

(** Opens the step of the worker in a hypothesis or the goal. *)
Ltac open_worker :=
  unfold worker_step, waitForPending, waitForPending_select, run_mode, run_blocked, waitScheduledDelay,
    waitScheduledDelay_select, takeBatch_commit, run_oversized, waitBackoff, run_abandon, silent in *.
