(* ===== verification/DispatcherFacts.v ===== *)
(** * The dispatcher against its specification

    The specification of a dispatcher is a bounded first-in first-out queue with
    one batch in flight ([qstep]).  The invariant of the detailed machine
    ([disp_ok]), the refinement of every step by the specification and, from
    them, ordering, conservation, bounds and the exactly-once accounting of the
    records. *)
From stdpp Require Import base list strings.
From Stdlib Require Import ZArith Lia.
From S2P Require Import Prelude GoStrings Delivery Health Dispatcher.

Local Open Scope Z_scope.

(** ** Configurations that activation accepts *)

Record config_ok (config : Config) : Prop := {
  cok_items : 0 < MaxQueueItems config <= maxQueueItems;
  cok_bytes : 0 < MaxQueueBytes config <= maxQueueBytes;
  cok_batch : 0 < MaxBatchItems config <= maxBatchItems;
  cok_attempts : 1 <= MaxAttempts (Retry config) <= maxAttempts;
  cok_enabled : Enabled config = true;
}.

Lemma validEnabledConfig_ok config adapter :
  Enabled config = true -> validEnabledConfig config adapter = true -> config_ok config.
Proof.
  unfold validEnabledConfig. intros He H. bool_facts. split; try done; lia.
Qed.

Lemma NewDispatcher_config_ok config adapter d :
  Enabled config = true -> NewDispatcher config adapter = inl d -> config_ok (owned_config config).
Proof.
  unfold NewDispatcher, owned_config. intros He. destruct (_ || _); [done|].
  destruct (normalizedCircuitPolicy _) as [c|]; [|done]. rewrite He. simpl.
  destruct (validEnabledConfig config adapter) eqn:Hv; [|done]. intros _.
  apply (validEnabledConfig_ok _ _ He) in Hv as []. by split.
Qed.

(** ** The specification: a bounded FIFO with one batch in flight *)

Record spec := {
  sp_pending : list Payload;
  sp_batch : list Payload;
  sp_settled : bool;
}.

(** The records an event settles, and how it counts them. *)
Definition ev_settles (e : event) : option (list Payload) :=
  match e with
  | EvDelivered ps | EvPartial ps _ _ | EvRejected ps | EvDropped ps => Some ps
  | _ => None
  end.

Definition ev_accepted (e : event) : list Payload :=
  match e with
  | EvEnqueued p {| Disposition := EnqueueAccepted |} => [p]
  | _ => []
  end.

Definition ev_settled (e : event) : list Payload := default [] (ev_settles e).
Definition ev_released (e : event) : list Payload :=
  match e with EvReleased ps => ps | _ => [] end.

Definition n_offered (e : event) : Z := match e with EvEnqueued _ _ => 1 | _ => 0 end.
Definition n_accepted (e : event) : Z := zlen (ev_accepted e).
Definition n_delivered (e : event) : Z :=
  match e with EvDelivered ps => zlen ps | EvPartial _ d _ => d | _ => 0 end.
Definition n_rejected (e : event) : Z :=
  match e with
  | EvRejected ps => zlen ps
  | EvPartial _ _ r => r
  | EvEnqueued _ {| Disposition := EnqueueRejected |} => 1
  | _ => 0
  end.
Definition n_dropped (e : event) : Z :=
  match e with
  | EvDropped ps => zlen ps
  | EvEnqueued _ {| Disposition := EnqueueDropped |} => 1
  | _ => 0
  end.
Definition n_attempts (e : event) : Z := match e with EvAttempt _ => 1 | _ => 0 end.

(** One step of the specification, with the events it shows. *)
Inductive qstep (config : Config) : spec -> list event -> spec -> Prop :=
| q_idle s : qstep config s [] s
| q_flush s t : qstep config s [EvFlushed t] s
| q_attempt pend ps : ps <> [] ->
    qstep config {| sp_pending := pend; sp_batch := ps; sp_settled := false |} [EvAttempt ps]
      {| sp_pending := pend; sp_batch := ps; sp_settled := false |}
| q_refuse s p r : Disposition r <> EnqueueAccepted -> qstep config s [EvEnqueued p r] s
| q_accept pend ps b p :
    payload_valid p = true ->
    zlen (pend ++ ps) + 1 <= MaxQueueItems config ->
    sumZ Size (pend ++ ps) + Size p <= MaxQueueBytes config ->
    qstep config {| sp_pending := pend; sp_batch := ps; sp_settled := b |}
      [EvEnqueued p {| Disposition := EnqueueAccepted; Reason := ReasonNone |}]
      {| sp_pending := pend ++ [p]; sp_batch := ps; sp_settled := b |}
| q_take ps rest : ps <> [] -> zlen ps <= MaxBatchItems config ->
    qstep config {| sp_pending := ps ++ rest; sp_batch := []; sp_settled := false |} []
      {| sp_pending := rest; sp_batch := ps; sp_settled := false |}
| q_settle pend ps es e : ps <> [] ->
    es = [] \/ es = [EvAttempt ps] -> ev_settles e = Some ps ->
    n_delivered e + n_rejected e + n_dropped e = zlen ps ->
    qstep config {| sp_pending := pend; sp_batch := ps; sp_settled := false |} (es ++ [e])
      {| sp_pending := pend; sp_batch := ps; sp_settled := true |}
| q_suppress ps rest : ps <> [] -> zlen ps <= MaxBatchItems config ->
    qstep config {| sp_pending := ps ++ rest; sp_batch := []; sp_settled := false |} [EvRejected ps]
      {| sp_pending := rest; sp_batch := ps; sp_settled := true |}
| q_release pend ps :
    qstep config {| sp_pending := pend; sp_batch := ps; sp_settled := true |} [EvReleased ps]
      {| sp_pending := pend; sp_batch := []; sp_settled := false |}
| q_abandon ps : ps <> [] ->
    qstep config {| sp_pending := ps; sp_batch := []; sp_settled := false |}
      [EvDropped ps; EvReleased ps] {| sp_pending := []; sp_batch := []; sp_settled := false |}.

(** ** The abstraction of a dispatcher *)

(** The batch the worker holds at a program point. *)
Definition held (p : worker_pc) : list Payload :=
  match p with
  | WOversized ps | WDeliver ps _ _ _ | WBackoff ps _ _ _ | WRelease ps _ => ps
  | _ => []
  end.

Definition settled (p : worker_pc) : bool :=
  match p with WRelease _ _ => true | _ => false end.

Definition view (d : Dispatcher) : spec :=
  {| sp_pending := pending (queue d); sp_batch := held (pc d); sp_settled := settled (pc d) |}.

(** ** The invariant *)

(** The records the worker is about to remove are still the head of the queue:
    only the worker removes records. *)
Definition pc_ok (config : Config) (pend : list Payload) (p : worker_pc) : Prop :=
  match p with
  | WCommit _ ps _ _ => ps <> [] /\ zlen ps <= MaxBatchItems config /\ exists rest, pend = ps ++ rest
  | WOversized ps => ps <> [] /\ zlen ps <= MaxBatchItems config
  | WDeliver ps _ probe a =>
      ps <> [] /\ zlen ps <= MaxBatchItems config /\ 1 <= a <= attempts_allowed config probe
  | WBackoff ps _ probe a =>
      ps <> [] /\ zlen ps <= MaxBatchItems config /\ 1 <= a < attempts_allowed config probe
  | WRelease ps _ => ps <> [] /\ zlen ps <= MaxBatchItems config
  | _ => True
  end.

Record life_ok (config : Config) (d : Dispatcher) : Prop := {
  lo_accepting : accepting (life d) = true ->
    activated (life d) = true /\ intakeStopped (life d) = false /\ closeStarted (life d) = false;
  lo_cancel : rootCancelled d = true -> closeStarted (life d) = true;
  lo_started : workerStarted (life d) = true -> activated (life d) = true;
  lo_pc : pc d <> WNotStarted -> workerStarted (life d) = true;
  lo_done : pc d = WDone -> workerDone d = true;
}.

Record queue_ok (config : Config) (q : Queue) (p : worker_pc) : Prop := {
  qo_items : chargedItems q = zlen (pending q) + zlen (held p);
  qo_bytes : chargedBytes q = sumZ Size (pending q) + sumZ Size (held p);
  qo_cap_items : chargedItems q <= MaxQueueItems config;
  qo_cap_bytes : chargedBytes q <= MaxQueueBytes config;
  qo_valid : Forall (fun x => payload_valid x = true) (pending q ++ held p);
  qo_inflight_items : inFlightItems q = zlen (held p);
  qo_inflight_bytes : inFlightBytes q = sumZ Size (held p);
  qo_pc : pc_ok config (pending q) p;
}.

Record disp_ok (config : Config) (d : Dispatcher) : Prop := {
  do_life : life_ok config d;
  do_queue : queue_ok config (queue d) (pc d);
}.

Lemma initial_ok config adapter d : NewDispatcher config adapter = inl d -> forall cfg,
  config_ok cfg -> disp_ok cfg d.
Proof.
  unfold NewDispatcher. destruct (_ || _); [done|]. destruct (normalizedCircuitPolicy _); [|done].
  destruct (_ && _); [done|]. intros [= <-] cfg [? ?].
  split; split; simpl; try done; unfold zlen; simpl; lia.
Qed.

(** ** Frames: what the small operations leave alone *)

Section Frames.
Context (config : Config).

Lemma fail_batch_frame class now d :
let d' := fail_batch config class now d in
life d' = life d /\ rootCancelled d' = rootCancelled d /\ queue d' = queue d
/\ counters d' = counters d /\ completed d' = completed d /\ wake d' = wake d
/\ flushNotify d' = flushNotify d /\ workerDone d' = workerDone d /\ pc d' = pc d
/\ flushers d' = flushers d.
Proof. unfold fail_batch. simpl. by destruct (recordCircuitFailure _ _ _ _). Qed.

Lemma uncharge_spec ps q :
int_min <= chargedItems q - zlen ps -> chargedItems q <= int_max ->
int_min <= chargedBytes q - sumZ Size ps -> chargedBytes q <= int_max ->
uncharge ps q =
{| pending := pending q; chargedItems := chargedItems q - zlen ps;
 chargedBytes := chargedBytes q - sumZ Size ps; inFlightItems := inFlightItems q;
 inFlightBytes := inFlightBytes q |}.
Proof.
unfold uncharge. revert q. induction ps as [|p ps IH]; intros q H1 H2 H3 H4; simpl.
- unfold zlen. simpl. rewrite !Z.sub_0_r. by destruct q.
- unfold zlen in *. simpl in *. pose proof (slen_nonneg (encoded p)). fold (Size p) in *.
pose proof (sumZ_Size_nonneg ps).
rewrite !i64_small by (unfold int_min, int_max in *; lia).
rewrite IH by (simpl; lia). simpl. f_equal; lia.
Qed.
End Frames.

Ltac frames :=
  repeat match goal with
  | |- context [fail_batch ?c ?f ?n ?d] =>
      let H := fresh in
      pose proof (fail_batch_frame c f n d) as H; cbv zeta in H;
      generalize dependent (fail_batch c f n d); intros;
      destruct H as (? & ? & ? & ? & ? & ? & ? & ? & ? & ?)
  end.

(** ** The steps of the worker and of the producers refine the specification *)

Section Refinement.
Context (config : Config) (Hcfg : config_ok config).

Lemma charged_range q p : queue_ok config q p ->
0 <= chargedItems q <= maxQueueItems /\ 0 <= chargedBytes q <= maxQueueBytes.
Proof.
intros [Hi Hb Hci Hcb _ _ _ _]. destruct Hcfg.
pose proof (zlen_nonneg (pending q)). pose proof (zlen_nonneg (held p)).
pose proof (sumZ_Size_nonneg (pending q)). pose proof (sumZ_Size_nonneg (held p)). lia.
Qed.

Lemma payload_valid_size p : payload_valid p = true -> 0 < Size p <= MaxPayloadBytes.
Proof. unfold payload_valid, Size. intros H. bool_facts. lia. Qed.

(** Changing only the program point. *)
Lemma queue_ok_pc q p p' :
queue_ok config q p -> held p' = held p -> pc_ok config (pending q) p' -> queue_ok config q p'.
Proof. intros [] Hh Hpc. split; rewrite ?Hh; done. Qed.

(** Appending an accepted record. *)
Lemma queue_ok_push q p x :
queue_ok config q p -> payload_valid x = true ->
(chargedItems q >=? MaxQueueItems config)
|| (Size x >? i64 (MaxQueueBytes config - chargedBytes q)) = false ->
queue_ok config (push x q) p
/\ zlen (pending q ++ held p) + 1 <= MaxQueueItems config
/\ sumZ Size (pending q ++ held p) + Size x <= MaxQueueBytes config.
Proof.
intros Hq Hx Hfull. pose proof (charged_range _ _ Hq) as [Hri Hrb].
destruct Hq as [Hi Hb Hci Hcb Hv Hfi Hfb Hpc]. destruct Hcfg as [[] [] _ _ _].
pose proof (payload_valid_size _ Hx) as Hsz.
unfold maxQueueItems, maxQueueBytes, MaxPayloadBytes, MaxCanonicalRecordBytes in *.
apply orb_false_iff in Hfull as [Hf1 Hf2]. rewrite Z.geb_leb in Hf1. apply Z.leb_gt in Hf1.
rewrite i64_small in Hf2 by (unfold int_min, int_max; lia).
rewrite Z.gtb_ltb in Hf2. apply Z.ltb_ge in Hf2.
rewrite zlen_app, sumZ_app. split; [|lia].
split; simpl; rewrite ?i64_small by (unfold int_min, int_max; lia);
autorewrite with claw; simpl; unfold zlen in *; simpl; try lia.
- rewrite <- (assoc_L (++)). apply Forall_app in Hv as [? ?]. repeat (apply Forall_app; split); auto.
- destruct p; simpl in *; try done. destruct Hpc as (? & ? & rest & ->).
repeat split; try done. exists (rest ++ [x]). by rewrite (assoc_L (++)).
Qed.

(** Removing a non-empty batch from the head into the worker's hands. *)
Lemma queue_ok_take q p ps rest p' :
queue_ok config q p -> held p = [] -> pending q = ps ++ rest -> held p' = ps ->
pc_ok config rest p' ->
queue_ok config {| pending := rest; chargedItems := chargedItems q; chargedBytes := chargedBytes q;
                 inFlightItems := zlen ps; inFlightBytes := sumZ Size ps |} p'.
Proof.
intros [] Hh Hp Hh' Hpc. rewrite Hh, Hp in *. autorewrite with claw in *. simpl in *.
unfold zlen in *. simpl in *.
split; simpl; rewrite ?Hh'; try done; unfold zlen; try lia.
rewrite app_nil_r in qo_valid0. apply Forall_app in qo_valid0 as [? ?].
apply Forall_app. done.
Qed.

Lemma queue_ok_release q ps next p' :
queue_ok config q (WRelease ps next) -> held p' = [] -> pc_ok config (pending q) p' ->
let q' := uncharge ps q in
pending q' = pending q
/\ queue_ok config {| pending := pending q'; chargedItems := chargedItems q';
                    chargedBytes := chargedBytes q'; inFlightItems := 0; inFlightBytes := 0 |} p'.
Proof.
intros Hq Hh Hpc. pose proof (charged_range _ _ Hq) as [? ?]. destruct Hq as [Hi Hb Hci Hcb Hv _ _ _].
simpl in *. pose proof (zlen_nonneg (pending q)). pose proof (sumZ_Size_nonneg (pending q)).
pose proof (zlen_nonneg ps). pose proof (sumZ_Size_nonneg ps).
unfold maxQueueItems, maxQueueBytes in *.
rewrite uncharge_spec by (unfold int_min, int_max; lia). simpl. split; [done|].
apply Forall_app in Hv as [? ?].
split; simpl; rewrite ?Hh, ?app_nil_r; try done; unfold zlen in *; simpl; lia.
Qed.

Lemma queue_ok_abandon q p :
queue_ok config q p -> held p = [] ->
let q' := uncharge (pending q) q in
queue_ok config {| pending := []; chargedItems := chargedItems q'; chargedBytes := chargedBytes q';
                 inFlightItems := inFlightItems q'; inFlightBytes := inFlightBytes q' |} WDone
/\ chargedItems q' = 0 /\ chargedBytes q' = 0.
Proof.
intros Hq Hh. pose proof (charged_range _ _ Hq) as [? ?]. destruct Hq as [Hi Hb Hci Hcb Hv Hf Hg _].
rewrite Hh in *. unfold zlen in *. simpl in *.
pose proof (zlen_nonneg (pending q)). pose proof (sumZ_Size_nonneg (pending q)).
unfold maxQueueItems, maxQueueBytes, zlen in *.
rewrite uncharge_spec by (unfold int_min, int_max, zlen; lia). simpl.
split; [|unfold zlen; lia]. split; simpl; unfold zlen; simpl; try done; lia.
Qed.

(** A step that touches neither the queue nor what the worker holds. *)
Definition keeps (d d' : Dispatcher) : Prop :=
queue d' = queue d /\ held (pc d') = held (pc d) /\ settled (pc d') = settled (pc d)
/\ pc_ok config (pending (queue d)) (pc d').

Lemma keeps_refines d d' :
queue_ok config (queue d) (pc d) -> keeps d d' ->
qstep config (view d) [] (view d') /\ queue_ok config (queue d') (pc d').
Proof.
intros Hq (Hqq & Hh & Hs & Hpc). unfold view. rewrite Hqq, Hh, Hs. split; [constructor|].
by eapply queue_ok_pc.
Qed.

Lemma Enqueue_refines p now d d' r :
queue_ok config (queue d) (pc d) -> Enqueue config p now d = (d', r) ->
qstep config (view d) [EvEnqueued p r] (view d') /\ queue_ok config (queue d') (pc d').
Proof.
intros Hq. unfold Enqueue, reject.
destruct (payload_valid p) eqn:Hv; simpl; [|intros [= <- <-]; split; [by constructor|done]].
destruct (_ && _); [intros [= <- <-]; split; [by constructor|done]|].
destruct (_ || _); [intros [= <- <-]; split; [by constructor|done]|].
destruct (_ || _) eqn:Hfull; [intros [= <- <-]; split; [by constructor|done]|].
destruct (admitCircuit now (breaker d)) as [b [admitted halfOpen]].
destruct admitted; simpl; [|intros [= <- <-]; split; [by constructor|done]].
destruct (queue_ok_push _ _ _ Hq Hv Hfull) as (Hpush & Hc1 & Hc2).
destruct halfOpen; intros [= <- <-]; (split; [|done]);
unfold view; simpl; constructor; done.
Qed.

Lemma validPartialResult_sum r n :
0 <= n <= maxBatchItems -> validPartialResult r n = true ->
DeliveredItems r + RejectedItems r = n /\ 0 < DeliveredItems r < n.
Proof.
unfold validPartialResult, maxBatchItems. intros Hn H. bool_facts.
assert (E1 : i64 (n - DeliveredItems r) = n - DeliveredItems r)
by (apply i64_small; unfold int_min, int_max; lia).
rewrite E1 in *.
assert (E2 : i64 (DeliveredItems r + RejectedItems r) = DeliveredItems r + RejectedItems r)
by (apply i64_small; unfold int_min, int_max; lia).
lia.
Qed.

(** The two ways out of an attempt: the batch is settled by one event that
counts each of its records once, or the worker waits for a retry. *)
Definition attempt_result (ps : list Payload) (size : Z) (probe : bool) (attempt : Z)
(d d' : Dispatcher) (es : list event) : Prop :=
queue d' = queue d /\
((exists next e, pc d' = WRelease ps next /\ es = [e] /\ ev_settles e = Some ps
  /\ n_delivered e + n_rejected e + n_dropped e = zlen ps)
 \/ (pc d' = WBackoff ps size probe attempt /\ es = []
   /\ attempt <> attempts_allowed config probe)).

Lemma settle_by e ps next size probe attempt d d' :
ev_settles e = Some ps -> n_delivered e + n_rejected e + n_dropped e = zlen ps ->
queue d' = queue d -> attempt_result ps size probe attempt d (with_pc (WRelease ps next) d') [e].
Proof. intros. split; [done|]. left. by exists next, e. Qed.

Lemma fail_batch_queue class now d : queue (fail_batch config class now d) = queue d.
Proof. by destruct (fail_batch_frame config class now d) as (_ & _ & ? & _). Qed.

Lemma deliver_outcome_result ps size probe attempt now result d d' es :
zlen ps <= MaxBatchItems config ->
deliver_outcome config ps size probe attempt now result d = (d', es) ->
attempt_result ps size probe attempt d d' es.
Proof.
intros Hlen. unfold deliver_outcome.
assert (Hmal : forall d1 es1, (rejectMalformedResult config ps now d, [EvRejected ps]) = (d1, es1) ->
attempt_result ps size probe attempt d d1 es1).
{ intros d1 es1 [= <- <-]. unfold rejectMalformedResult.
apply settle_by; [done|simpl; lia|by rewrite fail_batch_queue]. }
destruct (Outcome result); try (destruct (negb (zero_items result)); [by apply Hmal|]).
- intros [= <- <-]. apply settle_by; [done|simpl; lia|done].
- destruct (validPartialResult result (zlen ps)) eqn:Hp; [|by apply Hmal].
intros [= <- <-]. simpl. apply settle_by; [done| |done].
destruct Hcfg as [_ _ [] _ _]. pose proof (zlen_nonneg ps).
apply validPartialResult_sum in Hp; [simpl; lia|lia].
- destruct (Z.eqb_spec attempt (attempts_allowed config probe)); intros [= <- <-].
+ apply settle_by; [done|simpl; lia|by rewrite fail_batch_queue].
+ split; [done|]. by right.
- intros [= <- <-]. apply settle_by; [done|simpl; lia|by rewrite fail_batch_queue].
- intros [= <- <-]. apply settle_by; [done|simpl; lia|by rewrite fail_batch_queue].
- intros [= <- <-]. apply settle_by; [done|simpl; lia|by rewrite fail_batch_queue].
- destruct (Z.eqb_spec attempt (attempts_allowed config probe)); intros [= <- <-].
+ apply settle_by; [done|simpl; lia|by rewrite fail_batch_queue].
+ split; [done|]. by right.
- intros [= <- <-]. apply settle_by; [done|simpl; lia|by rewrite fail_batch_queue].
Qed.

Lemma deliver_refines ps size probe attempt now answer d d' es :
pc d = WDeliver ps size probe attempt -> queue_ok config (queue d) (pc d) ->
deliver config ps size probe attempt now answer d = (d', es) ->
qstep config (view d) es (view d') /\ queue_ok config (queue d') (pc d').
Proof.
intros Hpc Hq. pose proof (qo_pc _ _ _ Hq) as Hok. rewrite Hpc in Hok. simpl in Hok.
destruct Hok as (Hne & Hlen & Ha). unfold deliver.
destruct (Z.leb_spec attempt (attempts_allowed config probe)); [|lia].
set (inner := if rootCancelled d then _ else _).
assert (Hinner : forall d1 es1, inner = (d1, es1) -> attempt_result ps size probe attempt d d1 es1).
{ unfold inner, drop_batch. destruct (rootCancelled d); intros d1 es1.
- intros [= <- <-]. apply settle_by; [done|simpl; lia|done].
- by apply deliver_outcome_result. }
clearbody inner. destruct inner as [d1 es1]. intros [= <- <-].
destruct (Hinner _ _ eq_refl) as [Hqq [(next & e & Hpc' & -> & He & Hn)|(Hpc' & -> & Hlt)]];
unfold view; rewrite Hqq, Hpc', Hpc; simpl.
- split; [by apply (q_settle config _ ps [EvAttempt ps] e); auto|].
rewrite Hpc in Hq. eapply queue_ok_pc; [exact Hq|done|done].
- split; [by constructor|]. rewrite Hpc in Hq. eapply queue_ok_pc; [exact Hq|done|].
simpl. repeat split; try done; lia.
Qed.

Lemma payloads_fit q p : queue_ok config q p -> Forall (fun x => Size x <= int_max) (pending q).
Proof.
intros Hq. destruct Hq as [_ _ _ _ Hv _ _ _]. apply Forall_app in Hv as [Hv _].
eapply Forall_impl; [done|]. intros x Hx. apply payload_valid_size in Hx.
unfold MaxPayloadBytes, MaxCanonicalRecordBytes, int_max in *. lia.
Qed.

Lemma takeBatch_refines probe estimate d :
pc d = WTake probe -> queue_ok config (queue d) (pc d) ->
keeps d (takeBatch_select config probe estimate d).
Proof.
intros Hpc Hq. unfold takeBatch_select, keeps.
pose proof (select_batch_facts config estimate (pending (queue d)) (proj1 (cok_batch _ Hcfg))
(payloads_fit _ _ Hq)) as Hsel. cbv zeta in Hsel.
destruct (select_batch _ _ _) as [[[|n] size] over]; rewrite Hpc; simpl; [by destruct probe|].
destruct Hsel as (Hn & Hlen & _ & _). split; [done|]. split; [done|]. split; [done|].
set (q := pending (queue d)) in *.
assert (Htake : exists k, (0 < k)%nat /\ take (S n) (take (batch_limit config q) q) = take k q
                        /\ (k <= S n)%nat).
{ rewrite take_take. exists (S n `min` batch_limit config q)%nat. split; [|split; [done|lia]].
unfold batch_limit, zlen. destruct Hcfg as [_ _ [] _ _].
clearbody q. destruct q as [|x q]; cbn [length] in *; lia. }
destruct Htake as (k & Hk0 & -> & Hk). split; [|split].
- destruct q; [simpl in Hlen; lia|]. by destruct k; [lia|].
- unfold zlen. rewrite length_take. lia.
- exists (drop k q). by rewrite take_drop.
Qed.

Lemma circuit_batch_split q :
match takeCircuitRejectedBatch config q with
| (_, []) => True
| (q', ps) => exists rest, pending q = ps ++ rest /\ zlen ps <= MaxBatchItems config
  /\ q' = {| pending := rest; chargedItems := chargedItems q; chargedBytes := chargedBytes q;
             inFlightItems := zlen ps; inFlightBytes := sumZ Size ps |}
end.
Proof.
unfold takeCircuitRejectedBatch, take_queue. destruct (batch_limit config (pending q)) eqn:E; [done|].
rewrite <- E. set (k := batch_limit config (pending q)) in *.
destruct (take k (pending q)) eqn:Ht; [done|]. rewrite <- Ht. exists (drop k (pending q)).
split; [by rewrite take_drop|]. split; [|done]. unfold zlen. rewrite length_take.
unfold k, batch_limit, zlen. destruct Hcfg as [_ _ [] _ _]. lia.
Qed.

Lemma worker_refines i d d' es :
queue_ok config (queue d) (pc d) -> worker_step config i d = Some (d', es) ->
qstep config (view d) es (view d') /\ queue_ok config (queue d') (pc d').
Proof.
intros Hq Hs. pose proof (qo_pc _ _ _ Hq) as Hok. open_worker.
assert (Hkeep : forall d1, keeps d d1 -> Some (d1, []) = Some (d', es) ->
qstep config (view d) es (view d') /\ queue_ok config (queue d') (pc d')).
{ intros d1 Hk [= <- <-]. by apply keeps_refines. }
destruct (pc d) eqn:Hpc; try done; simpl in Hok.
- eapply Hkeep, Hs. unfold keeps; rewrite Hpc; simpl. by destruct (rootCancelled d).
- destruct (pending (queue d)) eqn:Hp; [destruct (intakeIsStopped d)|];
  (eapply Hkeep, Hs; unfold keeps; rewrite Hpc; done).
- destruct (in_select i); try done; case_match; try done;
  (eapply Hkeep, Hs; unfold keeps; rewrite Hpc; done).
- destruct (circuitMode _ _) as [b [mode entered]].
eapply Hkeep, Hs. unfold keeps; rewrite Hpc. by destruct entered, mode.
- pose proof (circuit_batch_split (queue d)) as Hb.
destruct (takeCircuitRejectedBatch _ _) as [q' [|p ps]].
{ eapply Hkeep, Hs. unfold keeps; rewrite Hpc. done. }
destruct Hb as (rest & Hp & Hlen & ->). injection Hs as <- <-.
unfold view; rewrite Hp, Hpc; simpl. split; [by apply (q_suppress config (p :: ps) rest)|].
by apply (queue_ok_take (queue d) WBlocked (p :: ps) rest).
- case_match; (eapply Hkeep, Hs; unfold keeps; rewrite Hpc; simpl); by destruct (rootCancelled d).
- destruct (in_select i); [case_match| case_match |]; try done;
  (eapply Hkeep, Hs; unfold keeps; rewrite Hpc; simpl); [done| |done].
by destruct (intakeIsStopped (with_wake false d)); simpl; rewrite ?Hpc.
- eapply Hkeep, Hs. by apply takeBatch_refines; [|rewrite Hpc].
- destruct Hok as (Hne & Hlen & rest & Hp). injection Hs as <- <-.
unfold view; rewrite Hp, Hpc, drop_app_length; simpl.
destruct oversized; simpl; (split; [by apply q_take|]);
  eapply queue_ok_take; try done; simpl; repeat split; try done;
  destruct Hcfg as [_ _ _ [? ?] _], probe; simpl; lia.
- destruct Hok as (Hne & Hlen). injection Hs as <- <-. unfold view.
rewrite Hpc. simpl. rewrite fail_batch_queue. simpl. split.
+ apply (q_settle config _ batch [] (EvRejected batch)); auto. simpl. lia.
+ by eapply queue_ok_pc.
- injection Hs as Hs. eapply deliver_refines; [done| |done]. by rewrite Hpc.
- destruct Hok as (Hne & Hlen & Ha).
assert (Hdrop : Some (drop_batch batch d) = Some (d', es) ->
  qstep config (view d) es (view d') /\ queue_ok config (queue d') (pc d')).
{ unfold drop_batch. intros [= <- <-]. unfold view; rewrite Hpc; simpl. split.
  - apply (q_settle config _ batch [] (EvDropped batch)); auto.
  - by eapply queue_ok_pc. }
assert (Hagain : keeps d (with_pc (WDeliver batch size probe (attempt + 1)) d)).
{ unfold keeps; rewrite Hpc. simpl. repeat split; try done; lia. }
repeat case_match; try done; try (by apply Hdrop); by eapply Hkeep.
- injection Hs as <- <-.
assert (Hr : forall p', held p' = [] -> settled p' = false -> pc_ok config (pending (queue d)) p' ->
  qstep config (view d) [EvReleased batch] (view (with_pc p' (release batch d)))
  /\ queue_ok config (queue (release batch d)) p').
{ intros p' Hh Hst Hp'. destruct (queue_ok_release _ _ _ _ Hq Hh Hp') as [He Hq'].
  split; [|done]. unfold view. rewrite Hpc. simpl. rewrite Hh, Hst, He. constructor. }
destruct next; by apply Hr.
- eapply Hkeep, Hs. unfold keeps; rewrite Hpc. done.
- injection Hs as <- <-. destruct (queue_ok_abandon _ _ Hq eq_refl) as [Hq' _].
set (d1 := if abort then _ else d).
assert (Hd1 : queue d1 = queue d) by (by unfold d1; destruct abort).
unfold abandonPending, view. rewrite Hd1, Hpc.
destruct (pending (queue d)) eqn:Hp; simpl;
  (split; [rewrite ?Hp; by constructor|exact Hq']).
Qed.

(** *** The lifecycle part of the invariant *)

Definition launched (p : worker_pc) : bool :=
match p with WNotStarted | WLaunching => false | _ => true end.

Lemma deliver_outcome_frame ps size probe attempt now r d :
let d' := fst (deliver_outcome config ps size probe attempt now r d) in
life d' = life d /\ rootCancelled d' = rootCancelled d /\ workerDone d' = workerDone d
/\ flushers d' = flushers d /\ flushNotify d' = flushNotify d /\ completed d' = completed d
/\ wake d' = wake d /\ pc d' <> WDone /\ launched (pc d') = true.
Proof.
unfold deliver_outcome, rejectMalformedResult.
destruct (Outcome r); repeat case_match; simpl;
try match goal with
| |- context [fail_batch ?c ?f ?n ?x] =>
    destruct (fail_batch_frame c f n x) as (-> & -> & _ & _ & -> & -> & -> & -> & _ & ->)
end; done.
Qed.

Lemma worker_frame i d d' es :
worker_step config i d = Some (d', es) ->
life d' = life d /\ rootCancelled d' = rootCancelled d /\ flushers d' = flushers d
/\ pc d <> WNotStarted /\ launched (pc d') = true /\ (pc d' = WDone -> workerDone d' = true)
/\ (workerDone d = true -> workerDone d' = true).
Proof.
intros Hs. open_worker.
destruct (pc d) eqn:Hpc; try done.
- simplify_eq. simpl. by destruct (rootCancelled d).
- repeat case_match; simplify_eq/=; done.
- repeat case_match; simplify_eq/=; done.
- destruct (circuitMode _ _) as [b [mode entered]]. simplify_eq. by destruct entered, mode.
- repeat case_match; simplify_eq/=; done.
- repeat case_match; simplify_eq/=; by destruct (rootCancelled d).
- repeat case_match; simplify_eq/=; try case_match; simpl; by rewrite ?Hpc.
- simplify_eq. unfold takeBatch_select. by repeat (case_match; simpl).
- simplify_eq. simpl. by destruct oversized.
- simplify_eq. simpl.
match goal with |- context [fail_batch ?c ?f ?n ?x] =>
  destruct (fail_batch_frame c f n x) as (-> & -> & _ & _ & _ & _ & _ & -> & _ & ->) end. done.
- unfold deliver in Hs. destruct (_ <=? _); [|by simplify_eq].
destruct (rootCancelled d) eqn:Hr; [unfold drop_batch in Hs; by simplify_eq/=; rewrite Hr|].
pose proof (deliver_outcome_frame batch size probe attempt (in_now i) (callAdapter (in_answer i)) d) as Hf.
destruct (deliver_outcome _ _ _ _ _ _ _ _) as [d1 es1]. simplify_eq/=.
destruct Hf as (-> & -> & -> & -> & _ & _ & _ & ? & ?). done.
- unfold drop_batch in Hs. repeat case_match; simplify_eq/=; done.
- simplify_eq/=. by destruct next.
- simplify_eq/=. done.
- simplify_eq/=. unfold abandonPending.
destruct abort; simpl; destruct (pending (queue d)); done.
Qed.

Lemma worker_life_ok i d d' es :
life_ok config d -> worker_step config i d = Some (d', es) -> life_ok config d'.
Proof.
intros [Ha Hc Hs Hp Hd] Hw.
destruct (worker_frame _ _ _ _ Hw) as (Hl & Hr & _ & Hn & _ & Hd' & _).
split; rewrite ?Hl, ?Hr; auto.
Qed.

Lemma Enqueue_frame p now d d' r : Enqueue config p now d = (d', r) ->
life d' = life d /\ rootCancelled d' = rootCancelled d /\ pc d' = pc d
/\ workerDone d' = workerDone d /\ flushers d' = flushers d /\ completed d' = completed d
/\ flushNotify d' = flushNotify d.
Proof.
unfold Enqueue, reject. intros H.
repeat (destruct (_ || _) in H; [by simplify_eq/=|]).
repeat case_match; by simplify_eq/=.
Qed.

Lemma idle_pc d : life_ok config d -> activated (life d) = false -> pc d = WNotStarted.
Proof.
intros [_ _ Hs Hp _] Ha. destruct (pc d) eqn:E; try done;
(rewrite Hs in Ha; [done|apply Hp; rewrite ?E; done]).
Qed.

Ltac control :=
split; [repeat split; simpl; try done; eauto; by case_match
     |split; [split; simpl; naive_solver|eauto]].

(** The steps other than the worker's and the producers' leave the queue alone. *)
Lemma control_refines l d d' es :
match l with LEnqueue _ _ | LWorker _ => False | _ => True end ->
disp_ok config d -> step config l d = Some (d', es) ->
keeps d d' /\ life_ok config d' /\ (es = [] \/ exists t, es = [EvFlushed t]).
Proof.
intros Hl [Hlife Hq] Hs. pose proof (qo_pc _ _ _ Hq) as Hok.
pose proof (idle_pc _ Hlife) as Hidle. destruct Hlife as [Ha Hc Hw Hp Hd].
destruct l; try done; unfold step, silent, quiet in Hs.
- simplify_eq/=. unfold Activate_flags. destruct (activated (life d)) eqn:Hact; simpl; [by control|].
destruct (closeStarted (life d)) eqn:Hcl; [by control|].
rewrite (cok_enabled _ Hcfg). simpl. rewrite (Hidle eq_refl) in *. unfold keeps. simpl.
rewrite (Hidle eq_refl). destruct (intakeStopped (life d)); by control.
- unfold Activate_launch in Hs. destruct (pc d) eqn:Hpc; try done. simplify_eq/=.
assert (workerStarted (life d) = true) by (by apply Hp).
unfold keeps; rewrite Hpc. destruct (intakeIsStopped d); by control.
- simplify_eq/=. unfold StopIntake. cbv zeta. destruct (_ && _ && _); by control.
- unfold Close_mark in Hs. destruct (intakeStopped (life d)) eqn:Hst; simplify_eq/=. by control.
- unfold Close_cancel in Hs. destruct (closeStarted (life d)) eqn:Hcl; [|done]. simpl in Hs.
destruct (workerStarted (life d)) eqn:Hws; simplify_eq/=; by control.
- unfold Close_finish in Hs. destruct (_ || _); [done|]. simplify_eq/=. by control.
- simplify_eq/=. by control.
- unfold flusher_step, silent in Hs. repeat case_match; simplify_eq/=; by control.
Qed.

Lemma step_simulation l d d' es :
disp_ok config d -> step config l d = Some (d', es) ->
qstep config (view d) es (view d') /\ disp_ok config d'.
Proof.
intros Hok Hs. destruct (match l with LEnqueue _ _ | LWorker _ => true | _ => false end) eqn:Hl.
- destruct Hok as [Hlife Hq]. destruct l; try done; simpl in Hs.
+ destruct (Enqueue config p now d) as [d1 r] eqn:He. simplify_eq.
  destruct (Enqueue_refines _ _ _ _ _ Hq He) as [? ?].
  destruct (Enqueue_frame _ _ _ _ _ He) as (El & Er & Ep & Ed & _).
  split; [done|]. split; [|done]. destruct Hlife. split; rewrite ?El, ?Er, ?Ep, ?Ed; auto.
+ destruct (worker_refines _ _ _ _ Hq Hs) as [? ?]. split; [done|].
  split; [by eapply worker_life_ok|done].
- destruct (control_refines l d d' es) as (Hk & Hlife & He); [by destruct l|done|done|].
destruct (keeps_refines _ _ (do_queue _ _ Hok) Hk) as [Hv Hq].
split; [|by split]. destruct He as [->|[t ->]]; [done|].
unfold keeps in Hk. unfold view. destruct Hk as (-> & -> & -> & _). constructor.
Qed.
End Refinement.

(** ** What the specification keeps *)

Definition accepted (tr : list event) : list Payload := flat_map ev_accepted tr.
Definition settled_in (tr : list event) : list Payload := flat_map ev_settled tr.
Definition released (tr : list event) : list Payload := flat_map ev_released tr.

(** The records the specification still owes a disposition. *)
Definition owed (s : spec) : list Payload :=
  (if sp_settled s then [] else sp_batch s) ++ sp_pending s.

Definition spec_ok (s : spec) : Prop := sp_settled s = true -> sp_batch s <> [].

Lemma qstep_fifo config s es s' R A :
  qstep config s es s' -> A = R ++ sp_batch s ++ sp_pending s ->
  A ++ accepted es = (R ++ released es) ++ sp_batch s' ++ sp_pending s'.
Proof.
  intros Hq ->. unfold accepted, released.
  destruct Hq; simpl; rewrite ?app_nil_r; try done; rewrite <- ?(assoc_L (++)); try done.
  - destruct r as [[] ?]; simpl in *; try done; by rewrite ?app_nil_r.
  - destruct H0 as [->| ->]; destruct e; simplify_eq/=; by rewrite ?app_nil_r.
Qed.

Lemma qstep_settled config s es s' R A :
  qstep config s es s' -> A = R ++ owed s -> A ++ accepted es = (R ++ settled_in es) ++ owed s'.
Proof.
  intros Hq ->. unfold accepted, settled_in, owed, ev_settled.
  destruct Hq; simpl; rewrite ?app_nil_r; try done; rewrite <- ?(assoc_L (++)); try done.
  - destruct r as [[] ?]; simpl in *; try done; by rewrite ?app_nil_r.
  - destruct H0 as [->| ->]; destruct e; simplify_eq/=; by rewrite ?app_nil_r, <- ?(assoc_L (++)).
Qed.

Lemma qstep_conserves config s es s' :
  qstep config s es s' ->
  sumZ n_offered es = sumZ n_delivered es + sumZ n_rejected es + sumZ n_dropped es
                      + (zlen (owed s') - zlen (owed s)).
Proof.
  unfold owed, zlen.
  destruct 1; simpl; rewrite ?length_app; unfold zlen in *; simpl; try lia.
  - destruct r as [[] ?]; simpl in *; try done; lia.
  - destruct H0 as [->| ->]; destruct e; simplify_eq/=; unfold zlen in *; lia.
Qed.

(** ** The counters are tallies of the events *)

(** A counter that a step adds [n] to, or leaves alone when [n] is zero. *)
Definition moved (x n x' : Z) : Prop := (x' = x /\ n = 0) \/ x' = u64 (x + n).

Lemma moved_tally x s n x' : x = u64 s -> moved x n x' -> x' = u64 (s + n).
Proof. intros -> [[-> ->]| ->]; [by rewrite Z.add_0_r|by rewrite u64_add_l]. Qed.

Record counted (d d' : Dispatcher) (es : list event) : Prop := {
  ct_accepted : moved (Accepted (counters d)) (sumZ n_accepted es) (Accepted (counters d'));
  ct_delivered : moved (Delivered (counters d)) (sumZ n_delivered es) (Delivered (counters d'));
  ct_rejected : moved (Rejected (counters d)) (sumZ n_rejected es) (Rejected (counters d'));
  ct_dropped : moved (Dropped (counters d)) (sumZ n_dropped es) (Dropped (counters d'));
  ct_completed : moved (completed d) (zlen (released es)) (completed d');
}.

Ltac count_one :=
  first [left; split; [reflexivity|unfold zlen; reflexivity]
        |right; f_equal; unfold zlen; simpl; rewrite ?app_nil_r; simpl; lia].
Ltac counting := simplify_eq/=; split; simpl; count_one.

Lemma fail_batch_counted config class now d0 d es p :
  counted d0 d es -> counted d0 (with_pc p (fail_batch config class now d)) es.
Proof.
  destruct (fail_batch_frame config class now d) as (_ & _ & _ & Hc & Hn & _).
  intros []. split; simpl; rewrite ?Hc, ?Hn; done.
Qed.

Lemma deliver_outcome_counted config ps size probe attempt now r d d' es :
  deliver_outcome config ps size probe attempt now r d = (d', es) -> counted d d' (EvAttempt ps :: es).
Proof.
  unfold deliver_outcome, rejectMalformedResult.
  destruct (Outcome r); intros H; repeat case_match; simplify_eq;
    try (apply fail_batch_counted); counting.
Qed.

Lemma worker_counted config i d d' es :
  worker_step config i d = Some (d', es) -> counted d d' es.
Proof.
  intros H. open_worker. unfold drop_batch in H.
  destruct (pc d) eqn:Hpc; try done.
  - counting.
  - repeat case_match; counting.
  - repeat case_match; counting.
  - destruct (circuitMode _ _) as [b [mode entered]]. destruct entered; counting.
  - repeat case_match; counting.
  - repeat case_match; counting.
  - repeat case_match; simplify_eq; repeat case_match; counting.
  - simplify_eq. unfold takeBatch_select. repeat case_match; counting.
  - counting.
  - simplify_eq. apply fail_batch_counted. counting.
  - unfold deliver in H. destruct (_ <=? _); [|counting].
    destruct (rootCancelled d); [unfold drop_batch in H; counting|].
    destruct (deliver_outcome _ _ _ _ _ _ _ _) eqn:Hd. simplify_eq.
    by eapply deliver_outcome_counted.
  - repeat case_match; counting.
  - counting.
  - counting.
  - simplify_eq. unfold abandonPending.
    destruct abort; simpl; destruct (pending (queue d)); counting.
Qed.

Lemma step_counted config l d d' es : step config l d = Some (d', es) -> counted d d' es.
Proof.
  destruct l; simpl; unfold silent, quiet; intros H.
  - unfold Activate_flags in H. repeat case_match; counting.
  - unfold Activate_launch in H. repeat case_match; counting.
  - unfold Enqueue, reject in H. repeat case_match; counting.
  - unfold StopIntake in H. simplify_eq. destruct (_ && _ && _); counting.
  - unfold Close_mark in H. repeat case_match; counting.
  - unfold Close_cancel in H. repeat case_match; counting.
  - unfold Close_finish in H. repeat case_match; counting.
  - by eapply worker_counted.
  - counting.
  - unfold flusher_step, silent in H. repeat case_match; counting.
Qed.
