(* ===== verification/DispatcherProps.v ===== *)
(** * Properties of the dispatcher

    Theorems about the reachable states of a dispatcher built by
    [NewDispatcher], for every interleaving of producers, lifecycle calls,
    flushers and the worker. *)
From stdpp Require Import base list strings.
From Stdlib Require Import ZArith Lia.
From S2P Require Import Prelude GoStrings Delivery Health Dispatcher DispatcherFacts.

Local Open Scope Z_scope.

(** ** Reachable states *)

Section Reach.
Context (config0 : Config) (adapter : bool) (d0 : Dispatcher).
Context (Hen : Enabled config0 = true) (Hnew : NewDispatcher config0 adapter = inl d0).
Abbreviation config := (owned_config config0).

Lemma reach_cfg : config_ok config.
Proof. by eapply NewDispatcher_config_ok. Qed.

Lemma new_state :
queue d0 = {| pending := []; chargedItems := 0; chargedBytes := 0; inFlightItems := 0;
            inFlightBytes := 0 |}
/\ pc d0 = WNotStarted /\ counters d0 = zero_counters /\ completed d0 = 0
/\ flushers d0 = [] /\ intakeIsStopped d0 = false /\ rootCancelled d0 = false.
Proof.
pose proof Hnew as H. revert H. unfold NewDispatcher. destruct (_ || _); [done|].
destruct (normalizedCircuitPolicy _); [|done]. destruct (_ && _); [done|]. by intros [= <-].
Qed.

Lemma reach_ok ls d tr : reachable (step config) d0 ls d tr -> disp_ok config d.
Proof.
apply (reachable_invariant (step config) (disp_ok config)).
- eapply initial_ok; [done|apply reach_cfg].
- intros l s s' es Hok Hs. by eapply step_simulation in Hs as [_ ?]; [|apply reach_cfg|].
Qed.

Lemma reach_order ls d tr : reachable (step config) d0 ls d tr ->
accepted tr = released tr ++ sp_batch (view d) ++ sp_pending (view d)
/\ accepted tr = settled_in tr ++ owed (view d)
/\ sumZ n_offered tr = sumZ n_delivered tr + sumZ n_rejected tr + sumZ n_dropped tr
                     + zlen (owed (view d)).
Proof.
destruct new_state as (Hq & Hp & _).
induction 1 as [|ls d tr l d' es Hr IH Hs].
{ unfold owed, view. rewrite Hq, Hp. done. }
destruct IH as (I1 & I2 & I3). pose proof (reach_ok _ _ _ Hr) as Hok.
destruct (step_simulation config reach_cfg _ _ _ _ Hok Hs) as [Hqs _].
pose proof (qstep_fifo _ _ _ _ _ _ Hqs I1) as J1.
pose proof (qstep_settled _ _ _ _ _ _ Hqs I2) as J2.
pose proof (qstep_conserves _ _ _ _ Hqs) as J3.
unfold accepted, released, settled_in in *. rewrite !flat_map_app.
split; [exact J1|]. split; [exact J2|]. rewrite !sumZ_app. lia.
Qed.

Lemma reach_counters ls d tr : reachable (step config) d0 ls d tr ->
Accepted (counters d) = u64 (sumZ n_accepted tr)
/\ Delivered (counters d) = u64 (sumZ n_delivered tr)
/\ Rejected (counters d) = u64 (sumZ n_rejected tr)
/\ Dropped (counters d) = u64 (sumZ n_dropped tr)
/\ completed d = u64 (zlen (released tr)).
Proof.
destruct new_state as (_ & _ & Hc & Hn & _).
induction 1 as [|ls d tr l d' es Hr IH Hs].
{ rewrite Hc, Hn. done. }
destruct IH as (? & ? & ? & ? & ?). destruct (step_counted _ _ _ _ _ Hs).
rewrite !sumZ_app. unfold released in *. rewrite flat_map_app, zlen_app.
repeat split; eapply moved_tally; eauto.
Qed.

Lemma accepted_count tr : sumZ n_accepted tr = zlen (accepted tr).
Proof.
induction tr as [|e tr IH]; [done|]. unfold accepted in *. simpl. rewrite zlen_app, IH. done.
Qed.
End Reach.

(** ** Retries *)

(** The attempts since a batch was last settled, and the test that no batch had
    more than [max] of them. *)
Definition attempts_after (k : Z) (e : event) : Z :=
  match e with
  | EvAttempt _ => k + 1
  | EvDelivered _ | EvPartial _ _ _ | EvRejected _ | EvDropped _ => 0
  | _ => k
  end.

Fixpoint attempts_within (max k : Z) (tr : list event) : bool :=
  match tr with
  | [] => true
  | e :: tr => (attempts_after k e <=? max) && attempts_within max (attempts_after k e) tr
  end.

Lemma attempts_within_app max k tr es :
  attempts_within max k (tr ++ es) =
  attempts_within max k tr && attempts_within max (fold_left attempts_after tr k) es.
Proof.
  revert k. induction tr as [|e tr IH]; intros k; simpl; [done|]. by rewrite IH, andb_assoc.
Qed.

(** The attempts already made for the batch that the worker holds. *)
Definition tries (p : worker_pc) : Z :=
  match p with WDeliver _ _ _ a => a - 1 | WBackoff _ _ _ a => a | _ => 0 end.

Definition tries_step (config : Config) (d d' : Dispatcher) (es : list event) : Prop :=
  attempts_within (MaxAttempts (Retry config)) (tries (pc d)) es = true
  /\ fold_left attempts_after es (tries (pc d)) = tries (pc d').

Lemma allowed_le config probe : config_ok config ->
  1 <= attempts_allowed config probe <= MaxAttempts (Retry config).
Proof. intros []. unfold attempts_allowed. destruct probe; lia. Qed.

Lemma deliver_tries config ps size probe attempt now answer d d' es :
  config_ok config -> pc d = WDeliver ps size probe attempt -> pc_ok config (pending (queue d)) (pc d) ->
  deliver config ps size probe attempt now answer d = (d', es) -> tries_step config d d' es.
Proof.
  intros Hcfg Hpc Hok. rewrite Hpc in Hok. destruct Hok as (Hne & Hlen & Ha).
  pose proof (allowed_le config probe Hcfg) as Hall. unfold deliver, tries_step. rewrite Hpc.
  destruct (Z.leb_spec attempt (attempts_allowed config probe)); [|lia].
  destruct (rootCancelled d).
  - unfold drop_batch. intros [= <- <-]. simpl. split; [|done].
    rewrite !andb_true_r. apply andb_true_iff; split; apply Z.leb_le; lia.
  - destruct (deliver_outcome _ _ _ _ _ _ _ _) as [d1 es1] eqn:Hd. intros [= <- <-].
    destruct (deliver_outcome_result config Hcfg _ _ _ _ _ _ _ _ _ Hlen Hd)
      as [_ [(next & e & -> & -> & He & _)|(-> & -> & _)]]; simpl.
    + destruct e; simplify_eq/=; (split; [|done]);
        rewrite !andb_true_r; apply andb_true_iff; split; apply Z.leb_le; lia.
    + split; [|lia]. rewrite andb_true_r. apply Z.leb_le. lia.
Qed.

Lemma worker_tries config i d d' es :
  config_ok config -> pc_ok config (pending (queue d)) (pc d) ->
  worker_step config i d = Some (d', es) -> tries_step config d d' es.
Proof.
  intros Hcfg Hok Hs. pose proof (cok_attempts _ Hcfg) as Hm.
  assert (Hz : 0 <= MaxAttempts (Retry config)) by lia.
  open_worker. unfold tries_step.
  destruct (pc d) eqn:Hpc; try done; simpl.
  - simplify_eq. by destruct (rootCancelled d).
  - by repeat case_match; simplify_eq/=.
  - by repeat case_match; simplify_eq/=.
  - destruct (circuitMode _ _) as [b [mode entered]]. simplify_eq. by destruct entered, mode.
  - repeat case_match; simplify_eq/=; rewrite ?andb_true_r, ?Z.leb_le; done.
  - by repeat case_match; simplify_eq/=.
  - repeat case_match; simplify_eq/=; try case_match; simpl; by rewrite ?Hpc.
  - simplify_eq. unfold takeBatch_select. by repeat (case_match; simpl).
  - simplify_eq. simpl. by destruct oversized.
  - simplify_eq/=. by rewrite andb_true_r, Z.leb_le.
  - injection Hs as Hs. rewrite <- Hpc in Hok.
    pose proof (deliver_tries config _ _ _ _ _ _ _ _ _ Hcfg Hpc Hok Hs) as Ht.
    unfold tries_step in Ht. by rewrite Hpc in Ht.
  - unfold drop_batch in Hs. simpl in Hok.
    repeat case_match; simplify_eq/=; rewrite ?andb_true_r, ?Z.leb_le; (split; [done|lia]).
  - simplify_eq/=. rewrite ?andb_true_r, ?Z.leb_le. by destruct next.
  - by simplify_eq/=.
  - simplify_eq. repeat case_match; simpl; rewrite ?andb_true_r, ?andb_true_iff, ?Z.leb_le; done.
Qed.

(** ** Steps that are not the worker's *)

Definition is_worker (l : label) : bool := match l with LWorker _ => true | _ => false end.

Inductive pc_moves : worker_pc -> worker_pc -> Prop :=
| pm_same p : pc_moves p p
| pm_activate : pc_moves WNotStarted WLaunching
| pm_launch : pc_moves WLaunching WTop.

Record control (d d' : Dispatcher) (es : list event) : Prop := {
  cf_pc : pc_moves (pc d) (pc d');
  cf_stopped : intakeIsStopped d = true -> intakeIsStopped d' = true;
  cf_cancelled : rootCancelled d = true -> rootCancelled d' = true;
  cf_wake : wake d = true -> wake d' = true;
  cf_signal : intakeIsStopped d = false -> intakeIsStopped d' = true -> wake d' = true;
  cf_stopped_queue : intakeIsStopped d = true -> accepted es = [] /\ pending (queue d') = pending (queue d);
  cf_pending : exists ps, pending (queue d') = pending (queue d) ++ ps;
  cf_attempts : sumZ n_attempts es = 0;
  cf_settles : Forall (fun e => ev_settles e = None) es;
}.

Ltac frame_pc :=
  split; unfold intakeIsStopped in *; simpl in *; auto using pc_moves; try done; try congruence;
  try (by repeat constructor); try (exists []; by rewrite app_nil_r).

Lemma control_frame config l d d' es :
  is_worker l = false -> config_ok config -> life_ok config d ->
  step config l d = Some (d', es) -> control d d' es.
Proof.
  intros Hl Hcfg Hlife Hs. pose proof (idle_pc config _ Hlife) as Hidle.
  destruct l; try done; simpl in Hs; unfold silent, quiet in Hs; clear Hl.
  - simplify_eq. unfold Activate_flags. destruct (activated (life d)) eqn:Ha; simpl; [by frame_pc|].
    destruct (closeStarted (life d)) eqn:Hc; [by frame_pc|]. rewrite (cok_enabled _ Hcfg). simpl.
    frame_pc. rewrite Hidle by done. constructor.
  - unfold Activate_launch in Hs. destruct (pc d) eqn:Hpc; try done. simplify_eq.
    destruct (intakeIsStopped d) eqn:Hst; frame_pc; rewrite Hpc; constructor.
  - destruct (Enqueue config p now d) as [d1 r] eqn:He. simplify_eq.
    destruct (Enqueue_frame config _ _ _ _ _ He) as (El & Er & Ep & _).
    split; unfold intakeIsStopped; rewrite ?El, ?Er, ?Ep; auto using pc_moves; try congruence.
    all: try (by repeat constructor).
    + unfold Enqueue, reject in He. repeat case_match; simplify_eq/=; done.
    + intros Hst. assert (Hacc : accepting (life d) = false).
      { destruct (accepting (life d)) eqn:E; [|done].
        destruct (lo_accepting _ _ Hlife E) as (_ & H1 & H2). by rewrite H1, H2 in Hst. }
      unfold Enqueue, reject in He. rewrite Hacc in He. simpl in He. rewrite orb_true_r in He.
      repeat case_match; simplify_eq/=; done.
    + unfold Enqueue, reject in He.
      repeat case_match; simplify_eq/=; try (by exists []; rewrite app_nil_r); by exists [p].
  - simplify_eq. unfold StopIntake. destruct (_ && _ && _); by frame_pc.
  - unfold Close_mark in Hs. destruct (intakeStopped (life d)) eqn:E; simplify_eq/=. frame_pc. by rewrite E.
  - unfold Close_cancel in Hs. destruct (closeStarted (life d)) eqn:E; [|done].
    simpl in Hs. destruct (workerStarted (life d)); simplify_eq/=; by frame_pc.
  - unfold Close_finish in Hs. destruct (_ || _); [done|]. simplify_eq. by frame_pc.
  - simplify_eq. by frame_pc.
  - unfold flusher_step, silent in Hs. repeat case_match; simplify_eq; by frame_pc.
Qed.

Lemma quiet_attempts max k es :
  0 <= k <= max -> sumZ n_attempts es = 0 -> Forall (fun e => ev_settles e = None) es ->
  attempts_within max k es = true /\ fold_left attempts_after es k = k.
Proof.
  intros Hk. induction es as [|e es IH]; [done|]. simpl. intros Hn [He Hes]%Forall_cons.
  assert (Hnn : 0 <= sumZ n_attempts es).
  { apply sumZ_nonneg. intros []; simpl; lia. }
  assert (Hk' : attempts_after k e = k) by (destruct e; simplify_eq/=; lia).
  rewrite Hk'. destruct (Z.leb_spec k max); [|lia]. simpl. apply IH; [|done].
  destruct e; simpl in *; lia.
Qed.

Lemma step_tries config l d d' es :
  config_ok config -> disp_ok config d -> step config l d = Some (d', es) -> tries_step config d d' es.
Proof.
  intros Hcfg [Hlife Hq] Hs. destruct (is_worker l) eqn:Hw.
  - destruct l; try done. eapply worker_tries; [done|apply Hq|done].
  - destruct (control_frame config l d d' es Hw Hcfg Hlife Hs) as [Hpc _ _ _ _ _ _ Hn He].
    pose proof (qo_pc _ _ _ Hq) as Hok. pose proof (cok_attempts _ Hcfg) as Hm.
    unfold tries_step. destruct Hpc as [p| |]; try (apply quiet_attempts; simpl; auto; lia).
    apply quiet_attempts; try done.
    destruct p; simpl in *; try lia; destruct Hok as (_ & _ & ?); pose proof (allowed_le config probe Hcfg); lia.
Qed.

(** ** The end of the worker *)

(** Why the worker may be where it is: it gives up only when the dispatcher is
    cancelled, and it ends either for that reason or because intake is stopped
    and nothing is pending; past the wait there is something to take. *)
Definition exit_ok (d : Dispatcher) : Prop :=
  match pc d with
  | WAbandon _ | WRelease _ ThenExit => rootCancelled d = true
  | WDone => rootCancelled d = true \/ intakeIsStopped d = true /\ pending (queue d) = []
  | WMode | WBlocked | WDelay | WDelaySelect | WTake _ => pending (queue d) <> []
  | WSelect => intakeIsStopped d = true -> wake d = true
  | _ => True
  end.

Lemma control_exit_ok config l d d' es :
  is_worker l = false -> config_ok config -> disp_ok config d -> exit_ok d ->
  step config l d = Some (d', es) -> exit_ok d'.
Proof.
  intros Hw Hcfg [Hlife Hq] Hx Hs.
  destruct (control_frame config l d d' es Hw Hcfg Hlife Hs) as [Hpc H1 H2 H3 H4 H5 [ps H6] _ _].
  assert (Hpend : pending (queue d) <> [] -> pending (queue d') <> []).
  { rewrite H6. by intros ? [? _]%app_eq_nil. }
  unfold exit_ok in *. destruct Hpc; try done.
  destruct p; try done; auto.
  - destruct (intakeIsStopped d) eqn:E; auto.
  - by destruct next; auto.
  - destruct Hx as [Hx|[Hst Hnil]]; [by left; auto|right].
    destruct (H5 Hst) as [_ ->]. auto.
Qed.

Lemma deliver_outcome_pc config ps size probe attempt now r d :
  match pc (fst (deliver_outcome config ps size probe attempt now r d)) with
  | WRelease _ ThenExit => False
  | WRelease _ _ | WBackoff _ _ _ _ => True
  | _ => False
  end.
Proof.
  unfold deliver_outcome, rejectMalformedResult.
  destruct (Outcome r); repeat case_match; by simplify_eq/=.
Qed.

Lemma worker_exit_ok config i d d' es :
  config_ok config -> disp_ok config d -> exit_ok d -> worker_step config i d = Some (d', es) -> exit_ok d'.
Proof.
  intros Hcfg [Hlife Hq] Hx Hs. open_worker. unfold exit_ok in *.
  destruct (pc d) eqn:Hpc; try done.
  - simplify_eq/=. by destruct (rootCancelled d) eqn:?.
  - destruct (pending (queue d)) eqn:Hp; [destruct (intakeIsStopped d) eqn:E|]; simplify_eq/=.
    + by right.
    + unfold intakeIsStopped in *. simpl. congruence.
    + by rewrite Hp.
  - repeat case_match; simplify_eq/=; try done. by left.
  - destruct (circuitMode _ _) as [b [mode entered]]. simplify_eq. by destruct entered, mode.
  - repeat case_match; simplify_eq/=; done.
  - repeat case_match; simplify_eq/=; done.
  - repeat case_match; simplify_eq/=; try done; try case_match; simpl in *; simplify_eq; by rewrite ?Hpc in *.
  - simplify_eq. unfold takeBatch_select. by repeat (case_match; simpl).
  - simplify_eq/=. by destruct oversized.
  - by simplify_eq/=.
  - unfold deliver in Hs. destruct (_ <=? _); [|by simplify_eq].
    destruct (rootCancelled d) eqn:Hr; [unfold drop_batch in Hs; by simplify_eq/=|].
    pose proof (deliver_outcome_pc config batch size probe attempt (in_now i) (callAdapter (in_answer i)) d) as Hd.
    destruct (deliver_outcome _ _ _ _ _ _ _ _) as [d1 es1]. simplify_eq/=. by destruct (pc d'); try destruct next.
  - unfold drop_batch in Hs. repeat case_match; simplify_eq/=; done.
  - simplify_eq/=. by destruct next.
  - simplify_eq/=. done.
  - simplify_eq/=. left. unfold abandonPending. destruct abort; simpl; destruct (pending (queue d)); done.
Qed.

(** ** Draining *)

(** An upper bound of the worker steps left once intake is stopped. *)
Definition phase (config : Config) (p : worker_pc) : Z :=
  match p with
  | WNotStarted => 12
  | WLaunching => 11
  | WTop | WSelect => 10
  | WWait => 9
  | WMode => 8
  | WBlocked | WDelay => 7
  | WDelaySelect => 6
  | WTake _ => 5
  | WCommit _ _ _ _ => 4
  | WDeliver _ _ _ a => 2 * (MaxAttempts (Retry config) - a) + 14
  | WBackoff _ _ _ a => 2 * (MaxAttempts (Retry config) - a) + 13
  | WOversized _ => 13
  | WRelease _ _ => 12
  | WRecovered => 11
  | WAbandon _ => 1
  | WDone => 0
  end.

Definition drain_fuel (config : Config) (d : Dispatcher) : Z :=
  (2 * MaxAttempts (Retry config) + 12) * zlen (pending (queue d)) + phase config (pc d).

Lemma drain_fuel_nonneg config d : config_ok config -> disp_ok config d -> 0 <= drain_fuel config d.
Proof.
  intros Hcfg [_ [_ _ _ _ _ _ _ Hok]]. pose proof (zlen_nonneg (pending (queue d))).
  pose proof (cok_attempts _ Hcfg). unfold drain_fuel.
  assert (0 <= phase config (pc d)); [|nia].
  destruct (pc d); simpl in *; try lia; destruct Hok as (_ & _ & ?);
    pose proof (allowed_le config probe Hcfg); lia.
Qed.

Lemma deliver_fuel config ps size probe attempt now answer d d' es :
  config_ok config -> pc d = WDeliver ps size probe attempt -> pc_ok config (pending (queue d)) (pc d) ->
  deliver config ps size probe attempt now answer d = (d', es) ->
  drain_fuel config d' < drain_fuel config d.
Proof.
  intros Hcfg Hpc Hok. rewrite Hpc in Hok. destruct Hok as (Hne & Hlen & Ha).
  pose proof (allowed_le config probe Hcfg) as Hall. unfold deliver, drain_fuel. rewrite Hpc.
  destruct (Z.leb_spec attempt (attempts_allowed config probe)); [|lia].
  destruct (rootCancelled d).
  - unfold drop_batch. intros [= <- <-]. simpl. lia.
  - destruct (deliver_outcome _ _ _ _ _ _ _ _) as [d1 es1] eqn:Hd. intros [= <- <-].
    destruct (deliver_outcome_result config Hcfg _ _ _ _ _ _ _ _ _ Hlen Hd)
      as [-> [(next & e & -> & _)|(-> & _)]]; simpl; lia.
Qed.

Lemma uncharge_pending ps q : pending (uncharge ps q) = pending q.
Proof. unfold uncharge. revert q. induction ps as [|p ps IH]; intros q; simpl; [done|]. by rewrite IH. Qed.

Lemma worker_fuel config i d d' es :
  config_ok config -> disp_ok config d -> exit_ok d -> intakeIsStopped d = true ->
  worker_step config i d = Some (d', es) -> drain_fuel config d' < drain_fuel config d.
Proof.
  intros Hcfg [_ Hq] Hx Hst Hs. pose proof (cok_attempts _ Hcfg) as Hm.
  pose proof (qo_pc _ _ _ Hq) as Hok. pose proof (payloads_fit config _ _ Hq) as Hfit.
  open_worker. unfold exit_ok in Hx. unfold drain_fuel.
  destruct (pc d) eqn:Hpc; try done; simpl in Hok.
  - simplify_eq/=. destruct (rootCancelled d); simpl; lia.
  - rewrite Hst in Hs. destruct (pending (queue d)) eqn:Hp; simplify_eq/=; rewrite Hp; lia.
  - repeat case_match; simplify_eq/=; lia.
  - destruct (circuitMode _ _) as [b [mode entered]]. simplify_eq. destruct entered, mode; simpl; lia.
  - pose proof (circuit_batch_split config Hcfg (queue d)) as Hb.
    destruct (takeCircuitRejectedBatch _ _) as [q' [|p ps]] eqn:Ht.
    { unfold takeCircuitRejectedBatch, batch_limit in Ht. destruct (pending (queue d)) eqn:Hp; [done|].
      pose proof (cok_batch _ Hcfg). destruct (Z.to_nat _) eqn:E; [unfold zlen in E; simpl length in E; lia|done]. }
    destruct Hb as (rest & -> & _ & ->). simplify_eq/=. unfold zlen. simpl length. rewrite length_app. nia.
  - rewrite Hst, orb_true_r in Hs. simplify_eq/=. destruct (rootCancelled d); simpl; lia.
  - repeat case_match; simplify_eq/=; try lia; unfold intakeIsStopped in *; simpl in *; try congruence; lia.
  - simplify_eq. unfold takeBatch_select.
    pose proof (select_batch_facts config (in_estimate i) _ (proj1 (cok_batch _ Hcfg)) Hfit) as Hsel.
    cbv zeta in Hsel. destruct (select_batch _ _ _) as [[[|n] size] over].
    + destruct Hsel as (_ & _ & Hsel & _). specialize (Hsel Hx). lia.
    + simpl. lia.
  - simplify_eq. destruct Hok as (Hne & _ & rest & Hp). simpl. rewrite Hp, drop_app_length, zlen_app.
    assert (1 <= zlen batch) by (destruct batch; [done|unfold zlen; simpl; lia]).
    destruct oversized; simpl; nia.
  - simplify_eq. simpl. rewrite fail_batch_queue. simpl. lia.
  - injection Hs as Hs. apply (deliver_fuel config) in Hs; [|done|done|by rewrite Hpc].
    unfold drain_fuel in Hs. by rewrite Hpc in Hs.
  - pose proof (allowed_le config probe Hcfg).
    unfold drop_batch in Hs. repeat case_match; simplify_eq/=; lia.
  - simplify_eq/=. rewrite uncharge_pending. destruct next; simpl; lia.
  - simplify_eq/=. lia.
  - simplify_eq. unfold abandonPending. pose proof (zlen_nonneg (pending (queue d))).
    destruct abort; simpl; destruct (pending (queue d)); unfold zlen in *; simpl in *; nia.
Qed.

(** The steps of a run that are the worker's. *)
Definition worker_steps (ls : list label) : Z := zlen (List.filter is_worker ls).

Lemma control_fuel config l d d' es :
  config_ok config -> disp_ok config d -> is_worker l = false -> intakeIsStopped d = true ->
  step config l d = Some (d', es) -> drain_fuel config d' <= drain_fuel config d.
Proof.
  intros Hcfg [Hlife Hq] Hw Hst Hs.
  destruct (control_frame config l d d' es Hw Hcfg Hlife Hs) as [Hpc _ _ _ _ H5 _ _ _].
  unfold drain_fuel. destruct (H5 Hst) as [_ ->]. destruct Hpc; simpl; lia.
Qed.

Lemma worker_accepts_nothing config i d d' es : worker_step config i d = Some (d', es) ->
  accepted es = [] /\ intakeIsStopped d' = intakeIsStopped d.
Proof.
  intros Hs. destruct (worker_frame config _ _ _ _ Hs) as (Hl & _).
  split; [|by unfold intakeIsStopped; rewrite Hl].
  destruct (worker_counted _ _ _ _ _ Hs) as [_ _ _ _ _]. revert Hs.
  intros Hs. open_worker. unfold deliver, drop_batch, deliver_outcome in Hs. repeat case_match; simplify_eq/=; done.
Qed.

Section Stopped.
Context (config : Config) (Hcfg : config_ok config).

Record stopped_ok (d : Dispatcher) : Prop := {
so_disp : disp_ok config d;
so_exit : exit_ok d;
so_stop : intakeIsStopped d = true;
}.

Lemma stopped_step l d d' es :
stopped_ok d -> step config l d = Some (d', es) ->
stopped_ok d' /\ accepted es = []
/\ worker_steps [l] + drain_fuel config d' <= drain_fuel config d.
Proof.
intros [Hok Hx Hst] Hs. destruct (step_simulation config Hcfg _ _ _ _ Hok Hs) as [_ Hok'].
destruct (is_worker l) eqn:Hw.
- assert (Hlen : worker_steps [l] = 1) by (unfold worker_steps; simpl; by rewrite Hw).
destruct l as [| | | | | | |i| |]; try done. simpl in Hs.
destruct (worker_accepts_nothing _ _ _ _ _ Hs) as [He Hst'].
pose proof (worker_fuel config i d d' es Hcfg Hok Hx Hst Hs).
split; [|split; [done|rewrite Hlen; lia]]. split; [done| |congruence].
by apply (worker_exit_ok config i d d' es).
- assert (Hlen : worker_steps [l] = 0) by (unfold worker_steps; simpl; by rewrite Hw).
pose proof (control_fuel config l d d' es Hcfg Hok Hw Hst Hs).
destruct (control_frame config l d d' es Hw Hcfg (do_life _ _ Hok) Hs) as [_ H1 _ _ _ H5 _ _ _].
split; [|split; [by apply H5|rewrite Hlen; lia]]. split; [done| |by apply H1].
by apply (control_exit_ok config l d d' es).
Qed.

Lemma stopped_run d ls d' tr : stopped_ok d -> reachable (step config) d ls d' tr ->
stopped_ok d' /\ accepted tr = [] /\ worker_steps ls + drain_fuel config d' <= drain_fuel config d.
Proof.
intros Hok. induction 1 as [|ls s tr l s' es _ IH Hs].
{ split; [done|]. split; [done|]. unfold worker_steps, zlen. simpl. lia. }
destruct IH as (Hs1 & He & Hf). destruct (stopped_step _ _ _ _ Hs1 Hs) as (? & He' & ?).
split; [done|]. unfold accepted in *. rewrite flat_map_app, He, He'. split; [done|].
unfold worker_steps in *. rewrite List.filter_app, zlen_app. lia.
Qed.

(** While the worker runs, some choice of the environment lets it step. *)
Lemma worker_progress d : stopped_ok d ->
launched (pc d) = true -> pc d <> WDone -> exists i d' es, worker_step config i d = Some (d', es).
Proof.
intros [_ Hx Hst] H1 H2. unfold exit_ok in Hx.
pose (input s := {| in_now := 0; in_select := s; in_estimate := fun _ => None;
                  in_answer := None; in_draw := fun d => d |}).
pose (i := input (match pc d with WSelect => SelWake | _ => SelTimer end)).
destruct (worker_step config i d) as [[d' es]|] eqn:Hs; [by eauto|exfalso].
unfold i in Hs. open_worker. destruct (pc d) eqn:Hpc; try done; simpl in Hs;
rewrite ?Hx in Hs by done; by repeat case_match.
Qed.

Lemma drains n d : stopped_ok d -> launched (pc d) = true -> drain_fuel config d < Z.of_nat n ->
exists inputs d' tr, reachable (step config) d (map LWorker inputs) d' tr /\ pc d' = WDone.
Proof.
revert d. induction n as [|n IH]; intros d Hok Hl Hf.
{ pose proof (drain_fuel_nonneg config d Hcfg (so_disp _ Hok)). lia. }
assert (Hdec : pc d = WDone \/ pc d <> WDone) by (destruct (pc d); by auto).
destruct Hdec as [Hd|Hd]; [exists [], d, []; split; [constructor|done]|].
destruct (worker_progress d Hok Hl Hd) as (i & d1 & es & Hs).
destruct (stopped_step (LWorker i) d d1 es Hok Hs) as (Hok1 & _ & Hf1).
destruct (worker_frame config _ _ _ _ Hs) as (_ & _ & _ & _ & Hl1 & _).
destruct (IH d1 Hok1 Hl1) as (inputs & d' & tr & Hr & Hd').
{ unfold worker_steps, zlen in Hf1. simpl in Hf1. lia. }
exists (i :: inputs), d', (es ++ tr). split; [|done].
apply (reachable_trans _ d [LWorker i] d1 es); [|done].
apply (reach_step _ d [] d []); [constructor|done].
Qed.
End Stopped.

(** ** Demonstration runs *)

Definition demo_input (now : Time) (s : select_case) (r : DeliveryResult) : label :=
  LWorker {| in_now := now; in_select := s; in_estimate := fun sizes => DelimitedEncodedSize sizes 0 0 0;
             in_answer := Some r; in_draw := fun d => d |}.
Definition demo_result (o : DeliveryOutcome) : DeliveryResult :=
  {| Outcome := o; DeliveredItems := 0; RejectedItems := 0 |}.
Definition demo_work (now : Time) (n : nat) : list label :=
  repeat (demo_input now SelWake (demo_result OutcomeDelivered)) n.
Definition demo_fail (now : Time) (o : DeliveryOutcome) : label :=
  demo_input now SelTimer (demo_result o).

(** Two records are accepted, the first attempt fails, the retry delivers both,
    and a flush waits for them. *)
Definition demo_labels : list label :=
  [LActivate; LLaunch 1; LEnqueue (demo_payload "aa") 2; LEnqueue (demo_payload "b") 3]
  ++ demo_work 4 6 ++ [demo_fail 5 OutcomeTransient; demo_fail 6 OutcomeTransient; LFlush]
  ++ demo_work 7 3.

Definition demo_dest : Config := demo_config 2 64.

Definition demo_outcome (ls : list label) : option (Dispatcher * list event) :=
  match NewDispatcher demo_dest true with
  | inl d0 => run (step (owned_config demo_dest)) ls d0
  | inr _ => None
  end.

(** The dispatcher [d] is reached, with the events [tr], by the steps [ls] of an
    enabled dispatcher that [NewDispatcher] built. *)
Definition runs (config : Config) (ls : list label) (d : Dispatcher) (tr : list event) : Prop :=
  Enabled config = true /\ exists adapter d0, NewDispatcher config adapter = inl d0
  /\ reachable (step (owned_config config)) d0 ls d tr.

Lemma demo_runs ls d tr : demo_outcome ls = Some (d, tr) -> runs demo_dest ls d tr.
Proof.
  unfold demo_outcome. intros H. split; [done|]. exists true.
  destruct (NewDispatcher demo_dest true) as [d0|]; [|done].
  exists d0. split; [done|]. by apply run_reachable.
Qed.

(** Closes a witness: the run is evaluated. *)
Ltac by_demo := apply demo_runs; vm_compute; reflexivity.

(** A run of the specification. *)
Inductive qruns (config : Config) : spec -> list event -> spec -> Prop :=
| qr_start s : qruns config s [] s
| qr_step s0 tr s es s' : qruns config s0 tr s -> qstep config s es s' -> qruns config s0 (tr ++ es) s'.

Definition empty_spec : spec := {| sp_pending := []; sp_batch := []; sp_settled := false |}.

Lemma runs_ok config ls d tr : runs config ls d tr ->
  config_ok (owned_config config) /\ disp_ok (owned_config config) d /\ exit_ok d.
Proof.
  intros (He & adapter & d0 & Hn & Hr).
  assert (Hcfg : config_ok (owned_config config)) by (by eapply NewDispatcher_config_ok).
  split; [done|]. split; [by eapply reach_ok|].
  destruct (new_state _ _ _ Hn) as (_ & Hp & _).
  induction Hr as [|ls d tr l d' es Hr IH Hs]; [unfold exit_ok; by rewrite Hp|].
  assert (Hok : disp_ok (owned_config config) d) by (by eapply reach_ok).
  destruct (is_worker l) eqn:Hw; [|by eapply control_exit_ok].
  destruct l; try done. by eapply worker_exit_ok.
Qed.

Lemma runs_more config ls d tr ls2 d2 tr2 : runs config ls d tr ->
  reachable (step (owned_config config)) d ls2 d2 tr2 -> runs config (ls ++ ls2) d2 (tr ++ tr2).
Proof.
  intros (He & adapter & d0 & Hn & Hr) Hr2. split; [done|]. exists adapter, d0. split; [done|].
  by eapply reachable_trans.
Qed.

(** ** Properties *)

(** C17: refinement.  Every run of the dispatcher, for every interleaving of
    producers, lifecycle calls, flushers and the worker, and for every answer of
    the adapter, is a run of a bounded first-in first-out queue with one batch
    in flight: the same events, and the queue and batch of the dispatcher are
    those of the specification. *)
Theorem Dispatcher_refines_queue config ls d tr :
  runs config ls d tr -> qruns (owned_config config) empty_spec tr (view d).
Proof.
  intros Hruns. destruct (runs_ok _ _ _ _ Hruns) as (Hcfg & _).
  destruct Hruns as (He & adapter & d0 & Hn & Hr).
  destruct (new_state _ _ _ Hn) as (Hq & Hp & _).
  induction Hr as [|ls d tr l d' es Hr IH Hs].
  - unfold view. rewrite Hq, Hp. constructor.
  - eapply qr_step; [exact IH|]. eapply step_simulation; [done| |done]. by eapply reach_ok.
Qed.

Lemma Dispatcher_refines_queue_witness :
  exists d tr, demo_outcome demo_labels = Some (d, tr)
  /\ qruns (owned_config demo_dest) empty_spec tr (view d).
Proof.
  eexists _, _. split; [vm_compute; reflexivity|].
  apply (Dispatcher_refines_queue demo_dest demo_labels). by_demo.
Defined.

(** C18: every accepted record is settled at most once, in the order of
    acceptance, and none leaves the queue unsettled: at any moment the accepted
    records are the settled ones, then the batch being delivered, then the
    pending queue, each as often as it was accepted.  That a pending record is
    settled one day is another matter: the worker may end at a [Close] with
    records still pending ([close_can_lose_record]). *)
Theorem Dispatcher_exactly_once_in_order config ls d tr :
  runs config ls d tr ->
  accepted tr = settled_in tr ++ (if settled (pc d) then [] else held (pc d)) ++ pending (queue d)
  /\ accepted tr = released tr ++ held (pc d) ++ pending (queue d).
Proof.
  intros (He & adapter & d0 & Hn & Hr).
  destruct (reach_order _ _ _ He Hn _ _ _ Hr) as (H1 & H2 & _). done.
Qed.

Lemma Dispatcher_exactly_once_in_order_witness :
  exists d tr, demo_outcome demo_labels = Some (d, tr)
  /\ map encoded (accepted tr) = ["aa"; "b"]%string
  /\ accepted tr = released tr ++ held (pc d) ++ pending (queue d).
Proof.
  eexists _, _. split; [vm_compute; reflexivity|]. split; [reflexivity|].
  refine (proj2 (Dispatcher_exactly_once_in_order demo_dest demo_labels _ _ _)). by_demo.
Defined.

(** Conservation.  The counters account for every offered record once:
    delivered + rejected + dropped, plus the records still owed a disposition,
    is the number of [Enqueue] calls (in the 64-bit arithmetic of the atomics). *)
Theorem Dispatcher_conservation config ls d tr :
  runs config ls d tr ->
  u64 (Delivered (counters d) + Rejected (counters d) + Dropped (counters d)
       + zlen ((if settled (pc d) then [] else held (pc d)) ++ pending (queue d)))
  = u64 (sumZ n_offered tr)
  /\ Accepted (counters d) = u64 (zlen (accepted tr)).
Proof.
  intros (He & adapter & d0 & Hn & Hr).
  destruct (reach_order _ _ _ He Hn _ _ _ Hr) as (_ & _ & ->).
  destruct (reach_counters _ _ _ Hn _ _ _ Hr) as (-> & -> & -> & -> & _).
  rewrite accepted_count. split; [|done].
  rewrite <- !Z.add_assoc, !u64_add_l. rewrite (Z.add_comm (sumZ n_delivered tr)), <- !Z.add_assoc, u64_add_l.
  rewrite (Z.add_comm (sumZ n_rejected tr)), <- !Z.add_assoc, u64_add_l. f_equal.
  change (zlen ((if settled (pc d) then [] else held (pc d)) ++ pending (queue d)))
    with (zlen (owed (view d))). lia.
Qed.

Lemma Dispatcher_conservation_witness :
  exists d tr, demo_outcome demo_labels = Some (d, tr)
  /\ Delivered (counters d) = 2 /\ Accepted (counters d) = u64 (zlen (accepted tr)).
Proof.
  eexists _, _. split; [vm_compute; reflexivity|]. split; [reflexivity|].
  refine (proj2 (Dispatcher_conservation demo_dest demo_labels _ _ _)). by_demo.
Defined.

(** Bounded memory.  The charges of the queue are exact and never exceed the
    configured item and byte limits, the batch in flight included, and a batch
    never exceeds the configured number of items. *)
Theorem Dispatcher_bounded config ls d tr :
  runs config ls d tr ->
  let q := queue d in
  chargedItems q = zlen (pending q) + inFlightItems q
  /\ chargedBytes q = sumZ Size (pending q) + inFlightBytes q
  /\ 0 <= chargedItems q <= MaxQueueItems config /\ 0 <= chargedBytes q <= MaxQueueBytes config
  /\ inFlightItems q = zlen (held (pc d)) /\ inFlightItems q <= MaxBatchItems config.
Proof.
  intros Hruns. destruct (runs_ok _ _ _ _ Hruns) as (Hcfg & [_ Hq] & _).
  destruct (charged_range _ Hcfg _ _ Hq) as [? ?].
  assert (Hsame : MaxQueueItems (owned_config config) = MaxQueueItems config
    /\ MaxQueueBytes (owned_config config) = MaxQueueBytes config
    /\ MaxBatchItems (owned_config config) = MaxBatchItems config).
  { unfold owned_config. by destruct (normalizedCircuitPolicy _). }
  destruct Hsame as (E1 & E2 & E3). destruct Hq as [Hi Hb Hci Hcb _ Hfi Hfb Hok].
  pose proof (cok_batch _ Hcfg). rewrite E1, E2, E3 in *. cbv zeta. rewrite Hfi, Hfb.
  assert (zlen (held (pc d)) <= MaxBatchItems config); [|lia].
  destruct (pc d); simpl in *; rewrite ?E3 in Hok; try (unfold zlen; simpl; lia); apply Hok.
Qed.

Lemma Dispatcher_bounded_witness :
  exists d tr, demo_outcome (take 4 demo_labels) = Some (d, tr)
  /\ chargedItems (queue d) = 2 /\ chargedBytes (queue d) = sumZ Size (pending (queue d)) + inFlightBytes (queue d).
Proof.
  eexists _, _. split; [vm_compute; reflexivity|]. split; [reflexivity|].
  refine (proj1 (proj2 (Dispatcher_bounded demo_dest (take 4 demo_labels) _ _ _))). by_demo.
Defined.

(** [Flush].  When a call of [Flush] made after the run [tr1] returns, every
    record accepted before the call has been released, in order, whatever
    happened since (as long as fewer than 2^64 records were accepted). *)
Theorem Flush_complete config ls1 d1 tr1 ls2 d2 tr2 i d3 :
  runs config ls1 d1 tr1 ->
  reachable (step (owned_config config)) d1 ls2 d2 tr2 ->
  zlen (accepted (tr1 ++ tr2)) < two64 ->
  flusher_step i d2 = Some (d3, [EvFlushed (Accepted (counters d1))]) ->
  exists later, released (tr1 ++ tr2) = accepted tr1 ++ later.
Proof.
  intros Hruns Hr2 Hsmall Hf.
  pose proof (runs_more _ _ _ _ _ _ _ Hruns Hr2) as (He & adapter & d0 & Hn & Hr).
  destruct (reach_order _ _ _ He Hn _ _ _ Hr) as (Hord & _).
  destruct (reach_counters _ _ _ Hn _ _ _ Hr) as (_ & _ & _ & _ & Hcomp).
  assert (Hacc : Accepted (counters d1) = u64 (zlen (accepted tr1))).
  { destruct Hruns as (_ & adapter1 & d0' & Hn' & Hr').
    destruct (reach_counters _ _ _ Hn' _ _ _ Hr') as (-> & _). by rewrite accepted_count. }
  assert (Htarget : Accepted (counters d1) <= completed d2).
  { unfold flusher_step, silent in Hf. destruct (flushers d2 !! i) as [[t|t]|]; [| |done].
    - destruct (Z.ltb_spec (completed d2) t); [done|]. by simplify_eq.
    - by destruct (flushNotify d2). }
  assert (Hsplit : accepted (tr1 ++ tr2) = accepted tr1 ++ accepted tr2)
    by (unfold accepted; apply flat_map_app).
  pose proof (f_equal zlen Hord) as Hlen. rewrite zlen_app in Hlen.
  pose proof (zlen_nonneg (released (tr1 ++ tr2))).
  pose proof (zlen_nonneg (sp_batch (view d2) ++ sp_pending (view d2))).
  rewrite Hsplit in Hsmall. rewrite zlen_app in Hsmall.
  pose proof (zlen_nonneg (accepted tr1)). pose proof (zlen_nonneg (accepted tr2)).
  rewrite Hsplit, zlen_app in Hlen.
  rewrite Hcomp, Hacc, !u64_small in Htarget by lia.
  exists (drop (length (accepted tr1)) (released (tr1 ++ tr2))).
  rewrite Hsplit in Hord. apply (f_equal (take (length (accepted tr1)))) in Hord.
  rewrite take_app_length, take_app_le in Hord by (unfold zlen in Htarget; lia).
  by rewrite Hord at 1; rewrite take_drop.
Qed.

Definition demo_flushed : list label := [LFlusher 0] ++ demo_work 7 3 ++ [LFlusher 0].

Lemma Flush_complete_witness :
  exists d1 tr1 d2 tr2 d3, demo_outcome (take 13 demo_labels) = Some (d1, tr1)
  /\ run (step (owned_config demo_dest)) demo_flushed d1 = Some (d2, tr2)
  /\ flusher_step 0 d2 = Some (d3, [EvFlushed (Accepted (counters d1))])
  /\ exists later, released (tr1 ++ tr2) = accepted tr1 ++ later.
Proof.
  eexists _, _, _, _, _. split; [vm_compute; reflexivity|]. split; [vm_compute; reflexivity|].
  split; [vm_compute; reflexivity|].
  eapply (Flush_complete demo_dest (take 13 demo_labels) _ _ demo_flushed _ _ 0).
  - by_demo.
  - apply run_reachable. vm_compute. reflexivity.
  - vm_compute. reflexivity.
  - vm_compute. reflexivity.
Defined.

(** Intake stops for good.  Once [StopIntake] or [Close] has run, no record
    is accepted any more, whatever is called afterwards. *)
Theorem StopIntake_final config ls d tr ls2 d2 tr2 :
  runs config ls d tr -> intakeIsStopped d = true ->
  reachable (step (owned_config config)) d ls2 d2 tr2 ->
  accepted tr2 = [] /\ intakeIsStopped d2 = true.
Proof.
  intros Hruns Hst Hr2. destruct (runs_ok _ _ _ _ Hruns) as (Hcfg & Hok & Hx).
  destruct (stopped_run _ Hcfg d ls2 d2 tr2) as ([] & ? & _); done.
Qed.

Lemma StopIntake_final_witness :
  exists d tr d2 tr2, demo_outcome (take 3 demo_labels ++ [LStopIntake 9]) = Some (d, tr)
  /\ run (step (owned_config demo_dest)) [LEnqueue (demo_payload "b") 10] d = Some (d2, tr2)
  /\ accepted tr2 = [] /\ intakeIsStopped d2 = true.
Proof.
  eexists _, _, _, _. split; [vm_compute; reflexivity|]. split; [vm_compute; reflexivity|].
  refine (StopIntake_final demo_dest (take 3 demo_labels ++ [LStopIntake 9]) _ _
    [LEnqueue (demo_payload "b") 10] _ _ _ _ _).
  - by_demo.
  - vm_compute. reflexivity.
  - apply run_reachable. vm_compute. reflexivity.
Defined.

(** Bounded retries.  In every run no batch is sent to the adapter more than
    [MaxAttempts] times before it is settled. *)
Theorem Dispatcher_attempts_bounded config ls d tr :
  runs config ls d tr -> attempts_within (MaxAttempts (Retry config)) 0 tr = true.
Proof.
  intros Hruns. destruct (runs_ok _ _ _ _ Hruns) as (Hcfg & _).
  destruct Hruns as (He & adapter & d0 & Hn & Hr).
  destruct (new_state _ _ _ Hn) as (_ & Hp & _).
  assert (E : MaxAttempts (Retry (owned_config config)) = MaxAttempts (Retry config))
    by (unfold owned_config; by destruct (normalizedCircuitPolicy _)).
  enough (attempts_within (MaxAttempts (Retry config)) 0 tr = true
          /\ fold_left attempts_after tr 0 = tries (pc d)) by tauto.
  induction Hr as [|ls d tr l d' es Hr IH Hs]; [by rewrite Hp|].
  assert (Hok : disp_ok (owned_config config) d) by (by eapply reach_ok).
  destruct (step_tries _ _ _ _ _ Hcfg Hok Hs) as [H1 H2]. rewrite E in H1.
  destruct IH as [IH1 IH2]. by rewrite attempts_within_app, fold_left_app, IH1, IH2, H1.
Qed.

Lemma Dispatcher_attempts_bounded_witness :
  exists d tr, demo_outcome demo_labels = Some (d, tr)
  /\ sumZ n_attempts tr = 2 /\ attempts_within 2 0 tr = true.
Proof.
  eexists _, _. split; [vm_compute; reflexivity|]. split; [reflexivity|].
  refine (Dispatcher_attempts_bounded demo_dest demo_labels _ _ _). by_demo.
Defined.

(** C38: draining terminates.  Once intake is stopped, every continuation of a run
    contains at most [drain_fuel] steps of the worker, whatever the adapter
    answers, and some sequence of worker steps reaches its end. *)
Theorem Drain_terminates config ls d tr :
  runs config ls d tr -> intakeIsStopped d = true ->
  (forall ls2 d2 tr2, reachable (step (owned_config config)) d ls2 d2 tr2 ->
     worker_steps ls2 <= drain_fuel (owned_config config) d)
  /\ (launched (pc d) = true ->
      exists inputs d2 tr2, reachable (step (owned_config config)) d (map LWorker inputs) d2 tr2
      /\ pc d2 = WDone).
Proof.
  intros Hruns Hst. destruct (runs_ok _ _ _ _ Hruns) as (Hcfg & Hok & Hx). split.
  - intros ls2 d2 tr2 Hr. destruct (stopped_run _ Hcfg d ls2 d2 tr2) as ([Hok2 _ _] & _ & Hf); [done..|].
    pose proof (drain_fuel_nonneg _ _ Hcfg Hok2). lia.
  - intros Hl. apply (drains _ Hcfg (Z.to_nat (drain_fuel (owned_config config) d) + 1)); try done.
    pose proof (drain_fuel_nonneg _ _ Hcfg Hok). lia.
Qed.

Lemma Drain_terminates_witness :
  exists d tr, demo_outcome (take 4 demo_labels ++ [LStopIntake 9]) = Some (d, tr)
  /\ drain_fuel (owned_config demo_dest) d = 42
  /\ exists inputs d2 tr2, reachable (step (owned_config demo_dest)) d (map LWorker inputs) d2 tr2
     /\ pc d2 = WDone.
Proof.
  eexists _, _. split; [vm_compute; reflexivity|]. split; [vm_compute; reflexivity|].
  refine (proj2 (Drain_terminates demo_dest (take 4 demo_labels ++ [LStopIntake 9]) _ _ _ _) _).
  - by_demo.
  - vm_compute. reflexivity.
  - vm_compute. reflexivity.
Defined.

(** A graceful end leaves nothing behind.  If the worker has ended without a
    cancellation, the queue is empty, every accepted record is settled and
    released, and the counters balance exactly. *)
Theorem Drain_settles_everything config ls d tr :
  runs config ls d tr -> pc d = WDone -> rootCancelled d = false ->
  pending (queue d) = [] /\ settled_in tr = accepted tr /\ released tr = accepted tr
  /\ sumZ n_delivered tr + sumZ n_rejected tr + sumZ n_dropped tr = sumZ n_offered tr.
Proof.
  intros Hruns Hpc Hc. destruct (runs_ok _ _ _ _ Hruns) as (_ & _ & Hx).
  destruct Hruns as (He & adapter & d0 & Hn & Hr).
  destruct (reach_order _ _ _ He Hn _ _ _ Hr) as (H1 & H2 & H3).
  unfold exit_ok in Hx. rewrite Hpc, Hc in Hx. destruct Hx as [Hx|[_ Hp]]; [done|].
  unfold owed, view in *. rewrite Hpc, Hp in *. simpl in *. rewrite !app_nil_r in *.
  unfold zlen in H3. simpl in H3. repeat split; try done; lia.
Qed.

Definition demo_drained : list label := take 12 demo_labels ++ [LStopIntake 8] ++ demo_work 9 5.

Lemma Drain_settles_everything_witness :
  exists d tr, demo_outcome demo_drained = Some (d, tr) /\ length (accepted tr) = 2%nat
  /\ settled_in tr = accepted tr.
Proof.
  eexists _, _. split; [vm_compute; reflexivity|]. split; [reflexivity|].
  refine (proj1 (proj2 (Drain_settles_everything demo_dest demo_drained _ _ _ _ _))).
  - by_demo.
  - vm_compute. reflexivity.
  - vm_compute. reflexivity.
Defined.

(** *** The half-open probe *)

Lemma half_open_refuses config p now d d' r :
  circuitState (breaker d) = CircuitHalfOpen -> Enqueue config p now d = (d', r) ->
  Disposition r <> EnqueueAccepted /\ queue d' = queue d /\ breaker d' = breaker d.
Proof.
  intros Hst. unfold Enqueue, reject, admitCircuit. simpl. rewrite Hst.
  intros H. repeat case_match; by simplify_eq/=.
Qed.

(** Every [Enqueue] at [now] is refused and leaves the queue and the breaker alone. *)
Definition refuses_all (config : Config) (now : Time) (d : Dispatcher) : Prop :=
  forall p d' r, Enqueue config p now d = (d', r) ->
  Disposition r <> EnqueueAccepted /\ queue d' = queue d /\ breaker d' = breaker d.

(** Half-open admits one probe.  While the breaker is half-open every
    [Enqueue] is refused and changes neither the queue nor the breaker; and the
    attempt of a probe batch is final: it settles the batch without a retry and
    leaves the breaker closed (delivered, fully or in part) or open again. *)
Theorem half_open_probe config ps size now i d :
  circuitState (breaker d) = CircuitHalfOpen -> 0 <= OpenDuration (CircuitCfg config) ->
  refuses_all config now d
  /\ (pc d = WDeliver ps size true 1 -> rootCancelled d = false ->
      exists d' e next, worker_step config i d = Some (d', [EvAttempt ps; e])
      /\ pc d' = WRelease ps next /\ ev_settles e = Some ps
      /\ match e with
         | EvDelivered _ | EvPartial _ _ _ => circuitState (breaker d') = CircuitClosed
         | _ => circuitState (breaker d') = CircuitOpen /\ in_now i <= circuitOpenUntil (breaker d')
         end).
Proof.
  intros Hst Hdur. split; [intros p d' r; by apply half_open_refuses|].
  intros Hpc Hc. unfold worker_step. rewrite Hpc. unfold deliver. simpl. rewrite Hc.
  assert (Hfail : forall class d0, circuitState (breaker d0) = CircuitHalfOpen ->
    circuitState (breaker (fail_batch config class (in_now i) d0)) = CircuitOpen
    /\ in_now i <= circuitOpenUntil (breaker (fail_batch config class (in_now i) d0))).
  { intros class d0 H0. unfold fail_batch, recordCircuitFailure. simpl. rewrite H0. simpl.
    split; [done|]. assert (0 <= immediateCircuitOpenDurationFor class)
      by (destruct class; vm_compute; discriminate).
    destruct (immediateFailure class); lia. }
  unfold deliver_outcome, rejectMalformedResult.
  destruct (Outcome _); repeat case_match; simplify_eq;
    eexists _, _, _; (split; [reflexivity|]); (split; [reflexivity|]); (split; [reflexivity|]); simpl; auto.
Qed.

(** A dispatcher whose first delivery failed: the breaker is open until 33. *)
Definition demo_dest1 : Config :=
  {| Destination := "dest"; Generation := 1; ConfigSignal := "logs"; Enabled := true;
     MaxQueueItems := 4; MaxQueueBytes := 64; MaxBatchItems := 2; MaxBatchBytes := 64;
     ScheduledDelay := 0; AttemptTimeout := 1;
     Retry := {| MaxAttempts := 1; InitialBackoff := 0; MaxBackoff := 0; Jitter := None |};
     CircuitCfg := {| TransientFailureThreshold := 1; OpenDuration := 30 |};
     ObserverInterval := 0 |}.
Definition demo_dispatcher1 : option Dispatcher :=
  match NewDispatcher demo_dest1 true with inl d => Some d | inr _ => None end.

(** A second record arrives while the first is being delivered; the first fails
    at time 3 and opens the breaker. *)
Definition demo_opened : list label :=
  [LActivate; LLaunch 1; LEnqueue (demo_payload "aa") 2] ++ demo_work 3 6
  ++ [LEnqueue (demo_payload "b") 3; demo_fail 3 OutcomeTransient; demo_fail 3 OutcomeTransient].

Lemma half_open_probe_witness :
  exists d0 d tr, demo_dispatcher1 = Some d0
  /\ run (step demo_dest1) (demo_opened ++ demo_work 40 5) d0 = Some (d, tr)
  /\ exists d' e next,
       worker_step demo_dest1 {| in_now := 40; in_select := SelTimer; in_estimate := fun _ => None;
         in_answer := None; in_draw := fun d => d |} d = Some (d', [EvAttempt [demo_payload "b"]; e])
       /\ pc d' = WRelease [demo_payload "b"] next /\ ev_settles e = Some [demo_payload "b"]
       /\ match e with
          | EvDelivered _ | EvPartial _ _ _ => circuitState (breaker d') = CircuitClosed
          | _ => circuitState (breaker d') = CircuitOpen /\ 40 <= circuitOpenUntil (breaker d')
          end.
Proof.
  eexists _, _, _. split; [vm_compute; reflexivity|]. split; [vm_compute; reflexivity|].
  refine (proj2 (half_open_probe demo_dest1 [demo_payload "b"] 1 40
    {| in_now := 40; in_select := SelTimer; in_estimate := fun _ => None;
       in_answer := None; in_draw := fun d => d |} _ _ _) _ _); vm_compute; try reflexivity; discriminate.
Defined.

(** *** Interleavings the code does not exclude *)

(** The breaker is half-open, nothing is pending and the worker waits for
    records: no step but the end of intake leaves this state. *)
Definition wedged (d : Dispatcher) : Prop :=
  circuitState (breaker d) = CircuitHalfOpen /\ pending (queue d) = []
  /\ (pc d = WTop \/ pc d = WWait \/ pc d = WSelect).

Lemma wedged_step config l d d' es :
  config_ok config -> disp_ok config d -> exit_ok d -> wedged d -> step config l d = Some (d', es) ->
  accepted es = [] /\ (wedged d' \/ intakeIsStopped d' = true).
Proof.
  intros Hcfg [Hlife Hq] Hx (Hst & Hp & Hpc) Hs. destruct (is_worker l) eqn:Hw.
  - destruct l; try done. simpl in Hs. destruct (worker_accepts_nothing _ _ _ _ _ Hs) as [-> Hi].
    split; [done|]. destruct (intakeIsStopped d) eqn:Hstop; [by right|left].
    assert (Hc : rootCancelled d = false).
    { destruct (rootCancelled d) eqn:E; [|done]. apply (lo_cancel _ _ Hlife) in E.
      unfold intakeIsStopped in Hstop. rewrite E, orb_true_r in Hstop. done. }
    open_worker. unfold wedged.
    destruct Hpc as [Hpc|[Hpc|Hpc]]; rewrite Hpc, ?Hp, ?Hc, ?Hstop in Hs;
      repeat case_match; simplify_eq/=; auto.
  - destruct l; try done; simpl in Hs; unfold silent, quiet in Hs.
    + simplify_eq. split; [done|left]. unfold Activate_flags.
      destruct (activated (life d)) eqn:Ha; [done|].
      pose proof (idle_pc config _ Hlife Ha). exfalso. destruct Hpc as [Hpc|[Hpc|Hpc]]; congruence.
    + unfold Activate_launch in Hs. by destruct Hpc as [Hpc|[Hpc|Hpc]]; rewrite Hpc in Hs.
    + destruct (Enqueue config p now d) as [d1 r] eqn:He. simplify_eq.
      destruct (half_open_refuses _ _ _ _ _ _ Hst He) as (Hr & Hqq & Hb).
      destruct (Enqueue_frame config _ _ _ _ _ He) as (_ & _ & Hpp & _).
      split; [by destruct r as [[] ?]|left]. unfold wedged. by rewrite Hqq, Hb, Hpp.
    + simplify_eq. split; [done|right]. unfold StopIntake. by destruct (_ && _ && _).
    + unfold Close_mark in Hs. repeat case_match; simplify_eq. split; [done|right].
      unfold intakeIsStopped. simpl. apply orb_true_r.
    + unfold Close_cancel in Hs. repeat case_match; simplify_eq; (split; [done|by left]).
    + unfold Close_finish in Hs. repeat case_match; simplify_eq. split; [done|by left].
    + simplify_eq. split; [done|by left].
    + unfold flusher_step, silent in Hs. repeat case_match; simplify_eq; (split; [done|by left]).
Qed.

Lemma wedged_forever config ls d tr ls2 d2 tr2 :
  runs config ls d tr -> wedged d -> reachable (step (owned_config config)) d ls2 d2 tr2 ->
  accepted tr2 = [].
Proof.
  intros Hruns Hw Hr. destruct (runs_ok _ _ _ _ Hruns) as (Hcfg & _).
  enough (runs config (ls ++ ls2) d2 (tr ++ tr2) /\ accepted tr2 = []
          /\ (wedged d2 \/ intakeIsStopped d2 = true)) by tauto.
  induction Hr as [|ls2 s tr2 l s' es Hr IH Hs]; [rewrite !app_nil_r; by auto|].
  destruct IH as (Hruns2 & He & Hw2). destruct (runs_ok _ _ _ _ Hruns2) as (_ & Hok & Hx).
  split.
  { rewrite !(assoc_L (++)). eapply (runs_more config (ls ++ ls2) s); [done|].
    apply (reach_step _ s [] s [] l s' es); [constructor|done]. }
  assert (accepted es = [] /\ (wedged s' \/ intakeIsStopped s' = true)) as [He2 ?].
  { destruct Hw2 as [Hw2|Hst]; [by eapply wedged_step|].
    destruct (stopped_step _ Hcfg l s s' es) as ([] & ? & _); [done..|]. by auto. }
  split; [|done]. unfold accepted in *. by rewrite flat_map_app, He, He2.
Qed.

Definition demo_outcome1 (ls : list label) : option (Dispatcher * list event) :=
  match demo_dispatcher1 with Some d0 => run (step (owned_config demo_dest1)) ls d0 | None => None end.

Lemma demo_runs1 ls d tr : demo_outcome1 ls = Some (d, tr) -> runs demo_dest1 ls d tr.
Proof.
  unfold demo_outcome1, demo_dispatcher1. intros H. split; [done|]. exists true.
  destruct (NewDispatcher demo_dest1 true) as [d0|]; [|done].
  exists d0. split; [done|]. by apply run_reachable.
Qed.

(** The worker reads the breaker as open just before the cool-down ends; a
    producer then becomes the half-open probe; the worker rejects everything
    pending, the probe included. *)
Definition demo_wedge : list label :=
  demo_opened ++ demo_work 4 3 ++ [LEnqueue (demo_payload "p") 33] ++ demo_work 34 2.

(** The half-open probe can be lost.  There is a run after which the breaker
    is half-open with an empty queue, and from then on no record is accepted,
    whatever happens and however much time passes: unlike [Circuit], the
    dispatcher has no deadline for its probe. *)
Theorem half_open_wedge :
  exists ls d tr, runs demo_dest1 ls d tr /\ circuitState (breaker d) = CircuitHalfOpen
  /\ pending (queue d) = [] /\ intakeIsStopped d = false
  /\ forall ls2 d2 tr2, reachable (step (owned_config demo_dest1)) d ls2 d2 tr2 -> accepted tr2 = [].
Proof.
  assert (exists d tr, demo_outcome1 demo_wedge = Some (d, tr) /\ wedged d
          /\ intakeIsStopped d = false) as (d & tr & Hrun & Hw & Hst).
  { eexists _, _. split; [vm_compute; reflexivity|]. split; [|reflexivity].
    split; [reflexivity|]. split; [reflexivity|]. by auto. }
  apply demo_runs1 in Hrun. exists demo_wedge, d, tr. pose proof Hw as (H1 & H2 & _).
  repeat split; try done; try apply Hrun. intros. by eapply wedged_forever.
Qed.

(** A worker that has ended settles nothing, and no step restarts it. *)
Lemma done_forever config ls d tr ls2 d2 tr2 :
  runs config ls d tr -> pc d = WDone -> reachable (step (owned_config config)) d ls2 d2 tr2 ->
  settled_in tr2 = [] /\ pc d2 = WDone.
Proof.
  intros Hruns Hpc Hr.
  induction Hr as [|ls2 s tr2 l s' es Hr IH Hs]; [done|]. destruct IH as [He Hp].
  assert (Hruns2 : runs config (ls ++ ls2) s (tr ++ tr2)) by (by eapply runs_more).
  destruct (runs_ok _ _ _ _ Hruns2) as (Hcfg & [Hlife _] & _).
  destruct (is_worker l) eqn:Hw.
  { destruct l; try done. simpl in Hs. unfold worker_step in Hs. by rewrite Hp in Hs. }
  destruct (control_frame _ l s s' es Hw Hcfg Hlife Hs) as [Hmove _ _ _ _ _ _ _ Hset].
  unfold settled_in in *. rewrite flat_map_app, He. rewrite Hp in Hmove. split.
  - clear -Hset. induction Hset as [|e es He _ IH]; [done|]. simpl in *.
    unfold ev_settled at 1. by rewrite He, IH.
  - by inv Hmove.
Qed.

(** The record is accepted while the worker waits; [Close] cancels before the
    worker has seen the record, and its select takes the cancellation. *)
Definition demo_abandon : list label :=
  [LActivate; LLaunch 1] ++ demo_work 2 2 ++ [LEnqueue (demo_payload "aa") 3; LStopIntake 4;
   LCloseMark; LCloseCancel; demo_input 5 SelDone (demo_result OutcomeDelivered); LCloseFinish 6].

(** [Close] can lose an accepted record without accounting for it.  There is
    a run in which a record is accepted, the dispatcher is closed and its worker
    has ended, and in every continuation the record stays unsettled: it is
    neither delivered nor counted as dropped, and it stays charged. *)
Theorem close_can_lose_record :
  exists ls d tr, runs demo_dest ls d tr /\ workerDone d = true
  /\ accepted tr = [demo_payload "aa"] /\ settled_in tr = [] /\ Dropped (counters d) = 0
  /\ chargedItems (queue d) = 1
  /\ forall ls2 d2 tr2, reachable (step (owned_config demo_dest)) d ls2 d2 tr2 -> settled_in tr2 = [].
Proof.
  assert (exists d tr, demo_outcome demo_abandon = Some (d, tr) /\ pc d = WDone /\ workerDone d = true
    /\ accepted tr = [demo_payload "aa"] /\ settled_in tr = [] /\ Dropped (counters d) = 0
    /\ chargedItems (queue d) = 1) as (d & tr & Hrun & Hpc & H1 & H2 & H3 & H4 & H5).
  { eexists _, _. split; [vm_compute; reflexivity|]. by repeat split. }
  apply demo_runs in Hrun. exists demo_abandon, d, tr. repeat split; try done; try apply Hrun.
  intros ls2 d2 tr2 Hr. by destruct (done_forever _ _ _ _ _ _ _ Hrun Hpc Hr).
Qed.

(** Two callers of [Flush] block on the same record; its release leaves one
    notification. *)
Definition demo_two_flushers : list label :=
  [LActivate; LLaunch 1; LEnqueue (demo_payload "aa") 2; LFlush; LFlush; LFlusher 0; LFlusher 1]
  ++ demo_work 3 9 ++ [LFlusher 0; LFlusher 0] ++ demo_work 4 4.

(** Concurrent [Flush] calls share one notification.  There is a run after
    which a caller of [Flush] whose records are all released is blocked on an
    empty notification channel, while the worker waits for the next record. *)
Theorem flush_notification_shared :
  exists ls d tr target, runs demo_dest ls d tr
  /\ flushers d = [FWait target] /\ target <= completed d /\ flushNotify d = false
  /\ pending (queue d) = [] /\ pc d = WSelect /\ wake d = false
  /\ flusher_step 0 d = None.
Proof.
  assert (exists d tr, demo_outcome demo_two_flushers = Some (d, tr)
    /\ flushers d = [FWait 1] /\ completed d = 1 /\ flushNotify d = false
    /\ pending (queue d) = [] /\ pc d = WSelect /\ wake d = false /\ flusher_step 0 d = None)
    as (d & tr & Hrun & H1 & H2 & H3 & H4 & H5 & H6 & H7).
  { eexists _, _. split; [vm_compute; reflexivity|]. by repeat split. }
  apply demo_runs in Hrun. exists demo_two_flushers, d, tr, 1.
  rewrite H2. by repeat (split; [done|]).
Qed.
