(* ===== verification/Correlator.v ===== *)
(** * The correlation patterns (internal/guardrail/correlator.go)

    A pattern is matched against the recent findings of a session, newest
    first.  [Match] and its four strategies are the loops of the code; the
    specification of each is declarative (for every clause some finding, an
    order-preserving choice of findings, a chain sharing one fingerprint), and
    the matchers are proved sound and complete for it. *)
From stdpp Require Import base list sets strings.
From Stdlib Require Import ZArith Lia Ascii.
From S2P Require Import Prelude GoStrings.

Local Open Scope Z_scope.

(** ** Data *)

Abbreviation DataAxis := string (only parsing).
Abbreviation ToolCapabilityClass := string (only parsing).

Record CorrelationFinding := {
  ID : string;
  RuleID : string;
  Category : string;
  Severity : string;
  f_DataAxis : list DataAxis;
  f_ToolCapabilityClass : ToolCapabilityClass;
  ContentFingerprint : string;
  ExternalEndpoint : string;
  TurnID : Z;
}.

Record PatternClause := {
  Axis : DataAxis;
  c_ToolCapabilityClass : ToolCapabilityClass;
  WithRuleMatch : list string;
  MinSeverity : string;
}.

Record CorrelationPattern := {
  p_ID : string;
  Description : string;
  WindowEvents : Z;
  SeverityOnMatch : string;
  AllOf : list PatternClause;
  Sequence : list string;           (* the severities of the steps *)
  FingerprintLink : list PatternClause;
  Ordered : bool;
}.

Record CorrelationMatch := {
  m_Pattern : CorrelationPattern;
  Contributing : list CorrelationFinding;
}.

(** ** Operations *)

Section Matching.
Context {U : GoUnicode}.

(** [LoadCorrelationPatterns], after the YAML decoder. *)
Definition default_pattern (p : CorrelationPattern) : CorrelationPattern :=
{| p_ID := p_ID p; Description := Description p;
 WindowEvents := if WindowEvents p <=? 0 then 20 else WindowEvents p;
 SeverityOnMatch := if (SeverityOnMatch p =? "")%string then "CRITICAL"%string else SeverityOnMatch p;
 AllOf := AllOf p; Sequence := Sequence p; FingerprintLink := FingerprintLink p;
 Ordered := Ordered p |}.

Definition LoadCorrelationPatterns (unmarshal : string -> option (list CorrelationPattern))
(data : string) : option (list CorrelationPattern) :=
match unmarshal data with
| None => None
| Some ps => Some (map default_pattern ps)
end.

(** The map answers zero for a severity that it does not hold. *)
Definition severityRankCorrelator (s : string) : Z :=
if (s =? "NONE")%string then 0
else if (s =? "LOW")%string then 1
else if (s =? "MEDIUM")%string then 2
else if (s =? "HIGH")%string then 3
else if (s =? "CRITICAL")%string then 4
else 0.

Definition clauseMatches (c : PatternClause) (f : CorrelationFinding) : bool :=
if negb (Axis c =? "")%string && negb (existsb (fun a => (a =? Axis c)%string) (f_DataAxis f)) then false
else if negb (c_ToolCapabilityClass c =? "")%string
      && negb (f_ToolCapabilityClass f =? c_ToolCapabilityClass c)%string then false
else if negb (zlen (WithRuleMatch c) =? 0)
      && negb (existsb (fun r => (r =? RuleID f)%string) (WithRuleMatch c)) then false
else if negb (MinSeverity c =? "")%string
      && (severityRankCorrelator (ToUpper (Severity f)) <? severityRankCorrelator (ToUpper (MinSeverity c)))
   then false
else true.

(** A nil slice and a slice without elements are the empty list: the matchers
return the latter for no input. *)
Fixpoint matchAllOf_loop (window : list CorrelationFinding) (clauses : list PatternClause)
(seen : list string) (contributing : list CorrelationFinding) : list CorrelationFinding :=
match clauses with
| [] => contributing
| clause :: rest =>
  match List.find (clauseMatches clause) window with
  | None => []
  | Some f =>
      if existsb (String.eqb (ID f)) seen then matchAllOf_loop window rest seen contributing
      else matchAllOf_loop window rest (ID f :: seen) (contributing ++ [f])
  end
end.

Definition matchAllOf (p : CorrelationPattern) (window : list CorrelationFinding) : list CorrelationFinding :=
matchAllOf_loop window (AllOf p) [] [].

(** The loop of [matchOrderedAllOf] and [matchSequence] over the findings,
oldest first: [step] is the list of the steps that are left. *)
Fixpoint step_loop {A} (matches : A -> CorrelationFinding -> bool) (ordered : list CorrelationFinding)
(steps : list A) (contributing : list CorrelationFinding) : list CorrelationFinding :=
match steps with
| [] => contributing
| s :: rest =>
  match ordered with
  | [] => []
  | f :: fs =>
      if matches s f then step_loop matches fs rest (contributing ++ [f])
      else step_loop matches fs steps contributing
  end
end.

Definition matchOrderedAllOf (p : CorrelationPattern) (window : list CorrelationFinding) : list CorrelationFinding :=
step_loop clauseMatches (reverse window) (AllOf p) [].

Definition severityMatches (want : string) (f : CorrelationFinding) : bool :=
(ToUpper (Severity f) =? ToUpper (TrimSpace want))%string.

Definition matchSequence (p : CorrelationPattern) (window : list CorrelationFinding) : list CorrelationFinding :=
step_loop severityMatches (reverse window) (Sequence p) [].

(** The candidate loop of [matchFingerprintLink]: the finding, and the findings
after it. *)
Fixpoint find_candidate (clause : PatternClause) (fingerprint : string) (seenIDs : list string)
(candidates : list CorrelationFinding) : option (CorrelationFinding * list CorrelationFinding) :=
match candidates with
| [] => None
| candidate :: rest =>
  if (ID candidate =? "")%string || negb (ContentFingerprint candidate =? fingerprint)%string
     || negb (clauseMatches clause candidate) then find_candidate clause fingerprint seenIDs rest
  else if existsb (String.eqb (ID candidate)) seenIDs then find_candidate clause fingerprint seenIDs rest
  else Some (candidate, rest)
end.

Fixpoint complete_chain (clauses : list PatternClause) (fingerprint : string) (seenIDs : list string)
(rest matched : list CorrelationFinding) : option (list CorrelationFinding) :=
match clauses with
| [] => Some matched
| clause :: cs =>
  match find_candidate clause fingerprint seenIDs rest with
  | None => None
  | Some (f, rest) => complete_chain cs fingerprint (ID f :: seenIDs) rest (matched ++ [f])
  end
end.

Fixpoint link_loop (first_clause : PatternClause) (clauses : list PatternClause)
(ordered : list CorrelationFinding) : list CorrelationFinding :=
match ordered with
| [] => []
| first :: rest =>
  if (ID first =? "")%string || (ContentFingerprint first =? "")%string
     || negb (clauseMatches first_clause first) then link_loop first_clause clauses rest
  else
    match complete_chain clauses (ContentFingerprint first) [ID first] rest [first] with
    | Some matched => matched
    | None => link_loop first_clause clauses rest
    end
end.

Definition matchFingerprintLink (p : CorrelationPattern) (window : list CorrelationFinding)
: list CorrelationFinding :=
match FingerprintLink p with
| [] => []
| first_clause :: clauses => link_loop first_clause clauses (reverse window)
end.

(** The newest [WindowEvents] findings. *)
Definition truncate_window (p : CorrelationPattern) (window : list CorrelationFinding) : list CorrelationFinding :=
if (0 <? WindowEvents p) && (WindowEvents p <? zlen window)
then take (Z.to_nat (WindowEvents p)) window else window.

Definition Match (p : CorrelationPattern) (window : list CorrelationFinding) : list CorrelationFinding :=
match window with
| [] => []
| _ =>
  let window := truncate_window p window in
  match FingerprintLink p, AllOf p, Sequence p with
  | _ :: _, _, _ => matchFingerprintLink p window
  | [], _ :: _, _ => if Ordered p then matchOrderedAllOf p window else matchAllOf p window
  | [], [], _ :: _ => matchSequence p window
  | [], [], [] => []
  end
end.

Fixpoint Evaluate (patterns : list CorrelationPattern) (window : list CorrelationFinding) : list CorrelationMatch :=
match patterns with
| [] => []
| p :: rest =>
  match Match p window with
  | [] => Evaluate rest window
  | contributing => {| m_Pattern := p; Contributing := contributing |} :: Evaluate rest window
  end
end.

Definition SyntheticFindingRuleID (m : CorrelationMatch) : string :=
("CORR-" ++ ToUpper (ReplaceByte (p_ID (m_Pattern m)) "_"%char "-"))%string.
End Matching.

(** ** Specification *)

Section Spec.
Context {U : GoUnicode}.

(** Each step is matched by a finding of its own, in temporal order. *)
Definition in_order {A} (matches : A -> CorrelationFinding -> bool) (steps : list A)
(oldest_first fs : list CorrelationFinding) : Prop :=
fs `sublist_of` oldest_first /\ Forall2 (fun s f => matches s f = true) steps fs.

(** A chain of distinct findings that share one value. *)
Definition chain_of (clauses : list PatternClause) (oldest_first fs : list CorrelationFinding) : Prop :=
in_order clauseMatches clauses oldest_first fs
/\ NoDup (map ID fs) /\ Forall (fun f => ID f <> ""%string) fs
/\ exists fp, fp <> ""%string /\ Forall (fun f => ContentFingerprint f = fp) fs.

(** Every clause is matched by some finding, and [fs] are findings that match,
one per identifier. *)
Definition covers (clauses : list PatternClause) (window fs : list CorrelationFinding) : Prop :=
NoDup (map ID fs)
/\ Forall (fun f => f ∈ window /\ exists c, c ∈ clauses /\ clauseMatches c f = true) fs
/\ Forall (fun c => exists f, f ∈ window /\ clauseMatches c f = true /\ ID f ∈ map ID fs) clauses.

(** What it means that [fs] are the contributors of a pattern on a window. *)
Definition contributes (p : CorrelationPattern) (window fs : list CorrelationFinding) : Prop :=
match FingerprintLink p, AllOf p, Sequence p with
| _ :: _, _, _ => chain_of (FingerprintLink p) (reverse window) fs
| [], _ :: _, _ => if Ordered p then in_order clauseMatches (AllOf p) (reverse window) fs
                 else covers (AllOf p) window fs
| [], [], _ :: _ => in_order severityMatches (Sequence p) (reverse window) fs
| [], [], [] => False
end.

(** ** Facts *)

Lemma step_loop_sound {A} (m : A -> CorrelationFinding -> bool) ordered steps acc :
step_loop m ordered steps acc = [] \/
exists fs, step_loop m ordered steps acc = acc ++ fs /\ in_order m steps ordered fs.
Proof.
revert steps acc. induction ordered as [|f ordered IH]; intros [|s steps] acc; simpl; try (by left);
try (right; exists []; rewrite app_nil_r; repeat split; try constructor; apply sublist_nil_l).
destruct (m s f) eqn:Hm.
- destruct (IH steps (acc ++ [f])) as [->|(fs & -> & Hsub & Hall)]; [by left|right].
exists (f :: fs). rewrite <- (assoc_L (++)). repeat split; [by constructor|by constructor].
- destruct (IH (s :: steps) acc) as [->|(fs & -> & Hsub & Hall)]; [by left|right].
exists fs. repeat split; [by constructor|done].
Qed.

Lemma sublist_tail {A} (x : A) l k : x :: l `sublist_of` k -> l `sublist_of` k.
Proof. intros H. etrans; [|exact H]. by constructor. Qed.

Lemma step_loop_complete {A} (m : A -> CorrelationFinding -> bool) ordered steps acc fs :
in_order m steps ordered fs -> steps <> [] -> step_loop m ordered steps acc <> [].
Proof.
intros [Hsub Hall] Hne.
enough (forall steps acc fs, fs `sublist_of` ordered -> Forall2 (fun s f => m s f = true) steps fs ->
exists k, step_loop m ordered steps acc = acc ++ k /\ length k = length steps) as Hgen.
{ destruct (Hgen steps acc fs Hsub Hall) as (k & -> & Hk). intros [_ ->]%app_eq_nil.
by destruct steps. }
clear. induction ordered as [|f ordered IH]; intros steps acc fs Hsub Hall.
- apply sublist_nil_r in Hsub as ->. inversion Hall; subst. exists []. by rewrite app_nil_r.
- destruct Hall as [|s g steps fs Hsg Hall]; [exists []; by rewrite app_nil_r|]. simpl.
destruct (m s f) eqn:Hm.
+ assert (Hfs : fs `sublist_of` ordered).
  { apply sublist_cons_r in Hsub as [Hsub|(? & [= -> ->] & ?)]; [by eapply sublist_tail|done]. }
  destruct (IH steps (acc ++ [f]) fs Hfs Hall) as (k & -> & Hk).
  exists (f :: k). rewrite <- (assoc_L (++)). split; [done|]. simpl. by rewrite Hk.
+ apply sublist_cons_r in Hsub as [Hsub|(? & [= -> ->] & ?)]; [|congruence].
  apply (IH (s :: steps) acc (g :: fs) Hsub). by constructor.
Qed.

Lemma existsb_ID x l : existsb (String.eqb x) l = true <-> x ∈ l.
Proof.
rewrite existsb_exists. split; [intros (y & Hy & ->%String.eqb_eq); by apply list_elem_of_In|].
intros H. exists x. split; [by apply list_elem_of_In|apply String.eqb_refl].
Qed.

Lemma find_some_elem {A} (f : A -> bool) l x : List.find f l = Some x -> x ∈ l /\ f x = true.
Proof. intros [? ?]%find_some. split; [by apply list_elem_of_In|done]. Qed.

(** The state of the conjunction loop: the contributors so far cover the clauses
already seen. *)
Lemma matchAllOf_loop_sound window clauses : forall done_ seen acc,
covers done_ window acc -> seen ≡ₚ map ID acc ->
matchAllOf_loop window clauses seen acc = [] \/
covers (done_ ++ clauses) window (matchAllOf_loop window clauses seen acc).
Proof.
induction clauses as [|c clauses IH]; intros done_ seen acc (Hnd & Hin & Hcov) Hseen; simpl.
{ right. rewrite app_nil_r. done. }
destruct (List.find _ _) as [f|] eqn:Hf; [|by left].
apply find_some_elem in Hf as [Hfw Hfm].
replace (done_ ++ c :: clauses) with ((done_ ++ [c]) ++ clauses) by (by rewrite <- (assoc_L (++))).
assert (Hin' : Forall (fun g => g ∈ window /\ exists c0, c0 ∈ done_ ++ [c] /\ clauseMatches c0 g = true) acc).
{ eapply Forall_impl; [exact Hin|]. intros g (? & c0 & ? & ?). split; [done|]. exists c0.
split; [by apply elem_of_app; left|done]. }
destruct (existsb _ seen) eqn:He.
- apply existsb_ID in He. rewrite Hseen in He. apply IH; [|done].
split; [done|]. split; [done|]. apply Forall_app. split; [done|]. repeat constructor. by exists f.
- assert (Hnew : ID f ∉ map ID acc).
{ rewrite <- Hseen. intros Hc. apply existsb_ID in Hc. congruence. }
apply IH; [|rewrite Hseen, map_app; simpl; by rewrite Permutation_app_comm].
split; [|split].
+ rewrite map_app. apply NoDup_app. split; [done|]. split; [|apply NoDup_singleton].
  intros x Hx ->%list_elem_of_singleton. done.
+ apply Forall_app. split; [done|]. repeat constructor; [done|]. exists c.
  split; [by apply elem_of_app; right; constructor|done].
+ apply Forall_app. split.
  * eapply Forall_impl; [exact Hcov|]. intros c0 (g & ? & ? & ?). exists g.
    rewrite map_app, elem_of_app. by auto.
  * repeat constructor. exists f. rewrite map_app, elem_of_app. repeat split; try done.
    right. constructor.
Qed.

Lemma matchAllOf_loop_complete window clauses : forall seen acc,
Forall (fun c => exists f, f ∈ window /\ clauseMatches c f = true) clauses ->
(forall x, x ∈ seen -> acc <> []) -> (clauses <> [] \/ acc <> []) ->
matchAllOf_loop window clauses seen acc <> [].
Proof.
induction clauses as [|c clauses IH]; intros seen acc Hall Hseen Hne; simpl; [by destruct Hne|].
apply Forall_cons in Hall as [(f & Hf & Hm) Hall].
destruct (List.find _ _) as [g|] eqn:Hg.
- destruct (existsb _ seen) eqn:He.
+ apply existsb_ID in He. apply IH; [done|done|]. right. by eapply Hseen.
+ apply IH; [done| |right]; [intros _ _|]; by intros [_ ?]%app_eq_nil.
- rewrite (find_none _ _ Hg) in Hm; [done|]. by apply list_elem_of_In.
Qed.

(** The chain loop, for findings with distinct identifiers. *)
Definition linked (fp : string) (c : PatternClause) (f : CorrelationFinding) : bool :=
negb (ID f =? "")%string && (ContentFingerprint f =? fp)%string && clauseMatches c f.

Lemma find_candidate_spec c fp seen l :
match find_candidate c fp seen l with
| None => Forall (fun f => linked fp c f = false \/ ID f ∈ seen) l
| Some (f, rest) => exists skipped, l = skipped ++ f :: rest /\ linked fp c f = true /\ ID f ∉ seen
  /\ Forall (fun g => linked fp c g = false \/ ID g ∈ seen) skipped
end.
Proof.
induction l as [|f l IH]; simpl; [by constructor|].
assert (Hskip : linked fp c f = false \/ ID f ∈ seen ->
match find_candidate c fp seen l with
| None => Forall (fun f => linked fp c f = false \/ ID f ∈ seen) (f :: l)
| Some (g, rest) => exists skipped, f :: l = skipped ++ g :: rest /\ linked fp c g = true
    /\ ID g ∉ seen /\ Forall (fun g => linked fp c g = false \/ ID g ∈ seen) skipped
end).
{ intros Hf. destruct (find_candidate c fp seen l) as [[g rest]|]; [|by constructor].
destruct IH as (sk & -> & ? & ? & ?). exists (f :: sk). repeat split; auto. }
destruct (_ || _) eqn:Hb; [apply Hskip; left|destruct (existsb _ seen) eqn:He].
- unfold linked. destruct (ID f =? "")%string, (ContentFingerprint f =? fp)%string, (clauseMatches c f); done.
- apply Hskip. right. by apply existsb_ID.
- exists []. split; [done|]. split; [|split; [|constructor]].
+ unfold linked. destruct (ID f =? "")%string, (ContentFingerprint f =? fp)%string, (clauseMatches c f); done.
+ intros Hc. apply existsb_ID in Hc. congruence.
Qed.

Lemma complete_chain_sound clauses fp : forall seen rest acc r,
complete_chain clauses fp seen rest acc = Some r ->
exists fs, r = acc ++ fs /\ in_order (linked fp) clauses rest fs
/\ NoDup (map ID fs) /\ forall x, x ∈ map ID fs -> x ∉ seen.
Proof.
induction clauses as [|c clauses IH]; intros seen rest acc r; simpl.
{ intros [= <-]. exists []. rewrite app_nil_r. repeat split; try constructor; [apply sublist_nil_l|set_solver]. }
pose proof (find_candidate_spec c fp seen rest) as Hc.
destruct (find_candidate c fp seen rest) as [[f rest']|]; [|done].
destruct Hc as (sk & -> & Hl & Hnew & _). intros H. apply IH in H as (fs & -> & [Hsub Hall] & Hnd & Hfresh).
exists (f :: fs). rewrite <- (assoc_L (++)). split; [done|]. split; [split|split].
- apply sublist_inserts_l. by constructor.
- by constructor.
- simpl. constructor; [|done]. intros Hf. apply (Hfresh _ Hf). constructor.
- simpl. intros x [->|Hx]%elem_of_cons; [done|]. intros Hs. apply (Hfresh _ Hx). by constructor.
Qed.

Lemma complete_chain_complete clauses fp : forall seen rest acc fs,
NoDup (map ID rest) -> (forall x, x ∈ map ID rest -> x ∉ seen) ->
in_order (linked fp) clauses rest fs -> is_Some (complete_chain clauses fp seen rest acc).
Proof.
induction clauses as [|c clauses IH]; intros seen rest acc fs Hnd Hfresh [Hsub Hall]; simpl; [done|].
inversion Hall as [|? f ? fs' Hf Hall']; subst.
pose proof (find_candidate_spec c fp seen rest) as Hc.
assert (Hno : forall sk, (forall g, g ∈ sk -> ID g ∉ seen) ->
Forall (fun g => linked fp c g = false \/ ID g ∈ seen) sk -> f ∉ sk).
{ intros sk Hs Hsk Hin. rewrite Forall_forall in Hsk.
destruct (Hsk f Hin) as [?|?]; [congruence|]. by apply (Hs f). }
destruct (find_candidate c fp seen rest) as [[g rest']|].
- destruct Hc as (sk & -> & Hl & Hnew & Hsk). rewrite map_app in Hnd, Hfresh. simpl in *.
apply NoDup_app in Hnd as (_ & _ & [Hg Hnd]%NoDup_cons).
apply (IH _ _ _ fs'); [done| |].
+ intros x Hx [->|Hs]%elem_of_cons; [done|]. apply (Hfresh x); set_solver.
+ split; [|done]. apply sublist_app_r in Hsub as (l1 & l2 & Heq & Hl1 & Hl2).
  destruct l1 as [|f1 l1]; simplify_eq/=.
  * apply sublist_cons_r in Hl2 as [Hl2|(? & [= -> ->] & ?)]; [by eapply sublist_tail|done].
  * exfalso. apply (Hno sk); [|done|]; [intros h Hh; apply Hfresh; set_solver|].
    eapply elem_of_sublist; [|done]. constructor.
- exfalso. apply (Hno rest); [|done|].
+ intros h Hh. apply Hfresh. by apply list_elem_of_fmap_2.
+ eapply elem_of_sublist; [|done]. constructor.
Qed.

Lemma linked_iff fp c f : linked fp c f = true <->
ID f <> ""%string /\ ContentFingerprint f = fp /\ clauseMatches c f = true.
Proof.
unfold linked. rewrite !andb_true_iff, negb_true_iff, String.eqb_neq, String.eqb_eq. tauto.
Qed.

Lemma in_order_linked fp clauses l fs : in_order (linked fp) clauses l fs <->
in_order clauseMatches clauses l fs /\ Forall (fun f => ID f <> ""%string) fs
/\ Forall (fun f => ContentFingerprint f = fp) fs.
Proof.
unfold in_order. split.
- intros [Hs Hall]. repeat split; try done; induction Hall as [|c f cs gs Hf _ IH]; try constructor;
  apply linked_iff in Hf as (? & ? & ?); eauto using sublist_tail.
- intros ([Hs Hall] & Hid & Hfp). split; [done|]. clear Hs.
induction Hall; [constructor|]. apply Forall_cons in Hid as [? ?], Hfp as [? ?].
constructor; [by apply linked_iff|auto].
Qed.

Lemma link_loop_spec c cs l :
(link_loop c cs l <> [] -> chain_of (c :: cs) l (link_loop c cs l))
/\ (NoDup (map ID l) -> forall fs, chain_of (c :: cs) l fs -> link_loop c cs l <> []).
Proof.
induction l as [|f l [IH1 IH2]]; simpl.
{ split; [done|]. intros _ fs ([Hs Hall] & _). apply sublist_nil_r in Hs as ->. inversion Hall. }
assert (Hskip1 : link_loop c cs l <> [] -> chain_of (c :: cs) (f :: l) (link_loop c cs l)).
{ intros H. destruct (IH1 H) as ([? ?] & ?). split; [|done]. split; [by constructor|done]. }
destruct (_ || _) eqn:Hb.
- split; [done|]. intros [_ Hnd]%NoDup_cons fs ([Hs Hall] & Hrest). apply (IH2 Hnd fs).
split; [|done]. split; [|done]. apply sublist_cons_r in Hs as [Hs|(fs' & -> & _)]; [done|exfalso].
destruct Hrest as (_ & [Hid _]%Forall_cons & fp & Hfp & [Hf _]%Forall_cons).
inversion Hall; subst. apply String.eqb_neq in Hid, Hfp. rewrite Hid, Hfp in Hb. simpl in Hb.
apply negb_true_iff in Hb. congruence.
- apply orb_false_iff in Hb as [[Hid Hfp]%orb_false_iff Hm].
apply String.eqb_neq in Hid, Hfp. apply negb_false_iff in Hm.
destruct (complete_chain _ _ _ _ _) as [r|] eqn:Hr.
+ apply complete_chain_sound in Hr as (fs & -> & Hin & Hnd & Hfresh).
  apply in_order_linked in Hin as ([Hs Hall] & Hids & Hfps). split; [intros _|done].
  split; [split; [by constructor|by constructor]|]. split; [|split; [by constructor|]].
  * simpl. constructor; [|done]. intros Hf. apply (Hfresh _ Hf). constructor.
  * exists (ContentFingerprint f). split; [done|]. by constructor.
+ split; [done|]. intros [Hnew Hnd]%NoDup_cons fs ([Hs Hall] & Hrest).
  apply sublist_cons_r in Hs as [Hs|(fs' & -> & Hs)]; [by apply (IH2 Hnd fs)|exfalso].
  destruct Hrest as (_ & [_ Hids]%Forall_cons & fp & _ & [<- Hfps]%Forall_cons).
  inversion Hall; subst.
  destruct (complete_chain_complete cs (ContentFingerprint f) [ID f] l [f] fs') as [? ?];
    [done| | |congruence].
  * intros x Hx ->%list_elem_of_singleton. done.
  * by apply in_order_linked.
Qed.

Lemma truncate_sublist p window : truncate_window p window `sublist_of` window.
Proof. unfold truncate_window. destruct (_ && _); [apply sublist_take|done]. Qed.

Lemma map_reverse_NoDup l : NoDup (map ID l) -> NoDup (map ID (reverse l)).
Proof. by rewrite (Permutation_map ID (reverse_Permutation l)). Qed.

Lemma in_order_nonempty {A} (m : A -> CorrelationFinding -> bool) steps l fs :
in_order m steps l fs -> steps <> [] -> l <> [].
Proof. intros [Hs Hall] Hne ->. apply sublist_nil_r in Hs as ->. by inversion Hall; subst. Qed.

Lemma strategy_spec p window : window <> [] ->
(Match p window <> [] -> contributes p (truncate_window p window) (Match p window))
/\ (NoDup (map ID window) -> forall fs, contributes p (truncate_window p window) fs -> Match p window <> []).
Proof.
unfold Match, contributes. destruct window as [|f0 l0]; [done|]. intros _.
pose proof (truncate_sublist p (f0 :: l0)) as Htr.
set (w := truncate_window p (f0 :: l0)) in *. set (full := f0 :: l0) in *. clearbody w full.
destruct (FingerprintLink p) as [|c cs] eqn:Hlink.
- destruct (AllOf p) as [|c cs] eqn:Hall; [destruct (Sequence p) as [|s ss] eqn:Hseq; [done|]|].
+ unfold matchSequence. rewrite Hseq. split.
  * intros H. destruct (step_loop_sound severityMatches (reverse w) (s :: ss) []) as [?|(fs & -> & ?)]; done.
  * intros _ fs Hfs. by eapply step_loop_complete.
+ destruct (Ordered p).
  * unfold matchOrderedAllOf. rewrite Hall. split.
    -- intros H. destruct (step_loop_sound clauseMatches (reverse w) (c :: cs) []) as [?|(fs & -> & ?)]; done.
    -- intros _ fs Hfs. by eapply step_loop_complete.
  * unfold matchAllOf. rewrite Hall. split.
    -- intros H. destruct (matchAllOf_loop_sound w (c :: cs) [] [] []) as [?|Hc]; [|done|done|done].
       split; [constructor|]. split; constructor.
    -- intros _ fs (_ & _ & Hcov). apply matchAllOf_loop_complete; [|set_solver|by left].
       eapply Forall_impl; [exact Hcov|]. intros c0 (f & ? & ? & _). by exists f.
- unfold matchFingerprintLink. rewrite Hlink.
destruct (link_loop_spec c cs (reverse w)) as [H1 H2]. split; [done|]. intros Hnd fs Hfs.
apply (H2 (map_reverse_NoDup _ (sublist_NoDup _ _ Hnd (fmap_sublist ID _ _ Htr))) fs Hfs).
Qed.

(** ** Properties *)

(** C36: [Evaluate] reports exactly the patterns that match.  On a window of
findings with distinct identifiers a pattern of the set is reported if and
only if, among its newest [WindowEvents] findings, there are contributors
in the sense of the specification (a cover of the clauses, an
order-preserving choice, or a chain that shares one value, as the pattern
asks); and the contributors of every report are such findings. *)
Theorem Evaluate_reports patterns window p :
NoDup (map ID window) ->
(p ∈ map m_Pattern (Evaluate patterns window) <->
 p ∈ patterns /\ window <> [] /\ exists fs, contributes p (truncate_window p window) fs)
/\ Forall (fun m => contributes (m_Pattern m) (truncate_window (m_Pattern m) window) (Contributing m))
   (Evaluate patterns window).
Proof.
intros Hnd. destruct (decide (window = [])) as [->|Hne].
{ assert (Evaluate patterns [] = []) as -> by (by induction patterns).
split; [|constructor]. simpl. set_solver. }
induction patterns as [|q qs [IH1 IH2]]; simpl; [set_solver|].
destruct (strategy_spec q window Hne) as [Hs Hc].
destruct (Match q window) as [|f fs] eqn:Hm; simpl.
- split; [|done]. rewrite IH1, elem_of_cons. split; [tauto|].
intros ([->|?] & _ & gs & Hgs); [by apply Hc in Hgs|]. repeat split; [done..|by exists gs].
- split; [|constructor; [by apply Hs|done]]. rewrite !elem_of_cons, IH1. split; [|tauto].
intros [->|?]; [|tauto]. repeat split; [by left|done|]. exists (f :: fs). by apply Hs.
Qed.

(** Only the newest [WindowEvents] findings count: whatever older findings
the window carries, a pattern matches the same contributors. *)
Theorem Match_window_bounded p window older :
0 < WindowEvents p <= zlen window -> Match p (window ++ older) = Match p window.
Proof.
intros Hw. assert (Hne : window <> []) by (intros ->; unfold zlen in Hw; simpl in Hw; lia).
enough (Htr : truncate_window p (window ++ older) = truncate_window p window).
{ unfold Match. rewrite Htr. by destruct window. }
unfold truncate_window. rewrite zlen_app. pose proof (zlen_nonneg older).
destruct (Z.ltb_spec 0 (WindowEvents p)); [|lia]. simpl. unfold zlen in *.
destruct (Z.ltb_spec (WindowEvents p) (Z.of_nat (length window) + Z.of_nat (length older))),
(Z.ltb_spec (WindowEvents p) (Z.of_nat (length window))); try lia.
- rewrite take_app_le by lia. done.
- rewrite take_app_le by lia. by rewrite take_ge by lia.
- assert (length older = 0%nat) by lia. destruct older; [|done]. by rewrite app_nil_r.
Qed.
End Spec.

(** ** Witnesses *)

Definition demo_finding (id rule severity fp : string) (axes : list string) : CorrelationFinding :=
  {| ID := id; RuleID := rule; Category := ""; Severity := severity; f_DataAxis := axes;
     f_ToolCapabilityClass := ""; ContentFingerprint := fp; ExternalEndpoint := ""; TurnID := 0 |}.
Definition demo_clause (axis : string) : PatternClause :=
  {| Axis := axis; c_ToolCapabilityClass := ""; WithRuleMatch := []; MinSeverity := "" |}.
Definition demo_pattern (events : Z) (link : list PatternClause) : CorrelationPattern :=
  {| p_ID := "data_exfil"; Description := ""; WindowEvents := events; SeverityOnMatch := "CRITICAL";
     AllOf := []; Sequence := []; FingerprintLink := link; Ordered := false |}.

(** A secret is read and then sent out; an older secret has no egress. *)
Definition demo_window : list CorrelationFinding :=
  [demo_finding "4" "C2-X" "HIGH" "k1" ["egress_external"];
   demo_finding "3" "CMD" "LOW" "" [];
   demo_finding "2" "SEC-A" "HIGH" "k1" ["sensitive_access"];
   demo_finding "1" "SEC-A" "HIGH" "k0" ["sensitive_access"]]%string.
Definition demo_link : CorrelationPattern :=
  demo_pattern 3 [demo_clause "sensitive_access"; demo_clause "egress_external"].

Lemma Evaluate_reports_witness :
  map ID (Match (U := ascii_only) demo_link demo_window) = ["2"; "4"]%string
  /\ (demo_link ∈ map m_Pattern (Evaluate (U := ascii_only) [demo_link] demo_window) <->
      demo_link ∈ [demo_link] /\ demo_window <> []
      /\ exists fs, contributes (U := ascii_only) demo_link (truncate_window demo_link demo_window) fs).
Proof.
  split; [vm_compute; reflexivity|].
  refine (proj1 (Evaluate_reports (U := ascii_only) [demo_link] demo_window demo_link _)).
  vm_compute. repeat constructor; set_solver.
Defined.

Lemma Match_window_bounded_witness :
  Match (U := ascii_only) demo_link (take 3 demo_window ++ drop 3 demo_window)
  = Match (U := ascii_only) demo_link (take 3 demo_window).
Proof. apply (Match_window_bounded (U := ascii_only) demo_link). vm_compute. split; [done|discriminate]. Defined.
