(* ===== verification/SessionCorrelator.v ===== *)
(** * The session correlator (internal/guardrail/session_correlator.go)

    [RunForSession] reads the recent findings of one agent partition, evaluates
    the patterns on them and persists one synthetic finding per pattern and
    partition.  The audit store is the class [FindingStore]; what the correlator
    relies on is the class [LedgerLaws].  [FindingTable] implements the first with
    the statements of the store and proves the second.  Concurrent calls are a
    relation on a pool of threads whose steps are the accesses to the store. *)
From stdpp Require Import base list sets relations strings pretty.
From Stdlib Require Import ZArith Lia Ascii.
From S2P Require Import Prelude GoStrings Correlator.

Local Open Scope Z_scope.

(** ** Data *)

Record SessionFindingRow := {
  r_ID : string;
  r_AgentID : string;
  r_AgentInstanceID : string;
  r_Scanner : string;
  r_RuleID : option string;
  r_Category : option string;
  r_Severity : string;
  r_Tags : list string;
  r_DataAxis : option string;
  r_ToolCapabilityClass : option string;
  r_ContentFingerprint : option string;
  r_ExternalEndpoint : option string;
  r_TurnID : option Z;
  r_Timestamp : string;
}.

Record correlationAgentPartition := {
  sessionID : string;
  agentInstanceID : string;
  agentID : string;
}.

#[export] Instance partition_eq_dec : EqDecision correlationAgentPartition.
Proof. solve_decision. Defined.

(** The fields of [scanner.ScanFindingMeta] that the correlator uses. *)
Record ScanFindingMeta := {
  meta_SessionID : string;
  meta_AgentInstanceID : string;
  meta_AgentID : string;
  meta_RunID : string;
  meta_RequestID : string;
  meta_TraceID : string;
  meta_EvaluationID : string;
  meta_Timestamp : Time;
}.

(** A copy of the metadata with the time of the synthetic findings. *)
Definition stamped (meta : ScanFindingMeta) (now : Time) : ScanFindingMeta :=
  {| meta_SessionID := meta_SessionID meta; meta_AgentInstanceID := meta_AgentInstanceID meta;
     meta_AgentID := meta_AgentID meta; meta_RunID := meta_RunID meta;
     meta_RequestID := meta_RequestID meta; meta_TraceID := meta_TraceID meta;
     meta_EvaluationID := meta_EvaluationID meta; meta_Timestamp := now |}.

(** The identity columns of the rows written with a metadata. *)
Definition identity (meta : ScanFindingMeta) : correlationAgentPartition :=
  {| sessionID := meta_SessionID meta; agentInstanceID := meta_AgentInstanceID meta;
     agentID := meta_AgentID meta |}.

(** [scanner.Finding]; the confidence and the decision path are left out. *)
Record Finding := {
  F_ID : string;
  F_FindingOccurrenceID : string;
  F_Severity : string;
  F_Title : string;
  F_Description : string;
  F_EvidenceSummary : string;
  F_Location : string;
  F_LineNumber : option Z;
  F_Remediation : string;
  F_Scanner : string;
  F_RuleID : string;
  F_Category : string;
  F_Tags : list string;
  F_DataAxis : list string;
  F_ToolCapabilityClass : string;
  F_ContentFingerprint : string;
  F_ExternalEndpoint : string;
  F_TurnID : option Z;
}.

Record ScanSummaryParams := {
  s_ScanID : string;
  s_Scanner : string;
  s_Target : string;
  s_Timestamp : Time;
  s_FindingCount : Z;
  s_MaxSeverity : string;
  s_Verdict : string;
  s_Partition : correlationAgentPartition;
  s_RunID : string;
  s_RequestID : string;
  s_TraceID : string;
}.

Record SessionCorrelator := {
  patterns : list CorrelationPattern;
  windowLimit : Z;
}.

Definition sessionCorrelatorPartitionLockStripes : Z := 64.
Definition FindingTagDetectionOnly : string := "detection-only".

(** ** The store *)

(** [SessionFindingReader] and [scanner.ScanPersistence].  Every call may change
    the state of the store; an error is [None] for a read and [false] for a
    write, and a write that fails may have changed the state. *)
Class FindingStore (S : Type) := {
  ListRecentFindingsInSession : S -> correlationAgentPartition -> Z -> S * option (list SessionFindingRow);
  ListFiredCorrelationRuleIDsInSession :
    S -> correlationAgentPartition -> list string -> S * option (list string);
  InsertScanSummary : S -> ScanSummaryParams -> S * bool;
  InsertScanFindings : S -> string -> string -> list Finding -> ScanFindingMeta -> S * bool;
}.

(** ** Pure parts *)

Section Pure.
Context {U : GoUnicode}.

Definition NewSessionCorrelator (ps : list CorrelationPattern) : SessionCorrelator :=
let limit := fold_left (fun limit p => if WindowEvents p >? limit then WindowEvents p else limit) ps 0 in
{| patterns := ps; windowLimit := if limit <=? 0 then 50 else limit |}.

Definition newCorrelationAgentPartition (session instance agent : string)
: correlationAgentPartition * bool :=
let partition := {| sessionID := TrimSpace session; agentInstanceID := TrimSpace instance;
                  agentID := TrimSpace agent |} in
(partition, negb (sessionID partition =? "")%string
          && (negb (agentInstanceID partition =? "")%string || negb (agentID partition =? "")%string)).

Definition partition_key (p : correlationAgentPartition) : string :=
(sessionID p ++ NUL ++ agentInstanceID p ++ NUL ++ agentID p)%string.

Definition fnvOffset32 : Z := 2166136261.
Definition fnvPrime32 : Z := 16777619.

Fixpoint fnv_loop (key : string) (hash : Z) : Z :=
match key with
| EmptyString => hash
| String c rest => fnv_loop rest (u32 (Z.lxor hash (Z.of_nat (byte_of c)) * fnvPrime32))
end.

Definition correlationPartitionLockIndex (key : string) : Z :=
fnv_loop key fnvOffset32 `mod` u32 sessionCorrelatorPartitionLockStripes.

Definition includes (p : correlationAgentPartition) (row : SessionFindingRow) : bool :=
let rowInstanceID := TrimSpace (r_AgentInstanceID row) in
let rowAgentID := TrimSpace (r_AgentID row) in
if negb (agentInstanceID p =? "")%string then
if negb (rowInstanceID =? agentInstanceID p)%string then false
else if negb (agentID p =? "")%string then (rowAgentID =? agentID p)%string
else (rowAgentID =? "")%string
else (rowInstanceID =? "")%string && negb (agentID p =? "")%string && (rowAgentID =? agentID p)%string.

Definition correlationInputEligible (row : SessionFindingRow) : bool :=
if EqualFold (TrimSpace (r_Scanner row)) "correlator" then false
else negb (existsb (fun tag => EqualFold (TrimSpace tag) FindingTagDetectionOnly) (r_Tags row)).

Definition norm (s : string) : string := ToLower (TrimSpace s).

Definition correlationPrimitiveKey (row : SessionFindingRow) : option string :=
match r_ContentFingerprint row with
| None => None
| Some fp =>
  let fingerprint := norm fp in
  if (fingerprint =? "")%string then None
  else
    let ruleID := match r_RuleID row with Some r => norm r | None => ""%string end in
    let category := match r_Category row with Some c => norm c | None => ""%string end in
    Some (ruleID ++ NUL ++ category ++ NUL ++ fingerprint)%string
end.

Definition axis_quote (c : ascii) : bool := Ascii.eqb c (ascii_of_nat 34).
Definition axis_cut (c : ascii) : bool := Ascii.eqb c "["%char || Ascii.eqb c "]"%char || axis_quote c.

Definition row_axes (data : option string) : list string :=
match data with
| None => []
| Some s =>
  if (s =? "")%string then []
  else List.filter (fun a => negb (a =? "")%string)
         (map (fun a => TrimSpace (TrimCut a axis_quote)) (SplitByte (TrimCut s axis_cut) ","%char))
end.

Definition rowToCorrelationFinding (r : SessionFindingRow) : CorrelationFinding :=
{| ID := r_ID r; RuleID := default ""%string (r_RuleID r); Category := default ""%string (r_Category r);
 Severity := r_Severity r; f_DataAxis := row_axes (r_DataAxis r);
 f_ToolCapabilityClass := default ""%string (r_ToolCapabilityClass r);
 ContentFingerprint := default ""%string (r_ContentFingerprint r);
 ExternalEndpoint := default ""%string (r_ExternalEndpoint r); TurnID := default 0 (r_TurnID r) |}.

(** The loop of [RunForSession] over the rows, oldest first. *)
Fixpoint dedupe_loop (p : correlationAgentPartition) (oldest_first : list SessionFindingRow)
(seenPrimitive : list string) : list SessionFindingRow :=
match oldest_first with
| [] => []
| r :: rest =>
  if negb (includes p r) || negb (correlationInputEligible r) then dedupe_loop p rest seenPrimitive
  else match correlationPrimitiveKey r with
       | None => r :: dedupe_loop p rest seenPrimitive
       | Some key =>
           if existsb (String.eqb key) seenPrimitive then dedupe_loop p rest seenPrimitive
           else r :: dedupe_loop p rest (key :: seenPrimitive)
       end
end.

Definition session_window (p : correlationAgentPartition) (rows : list SessionFindingRow)
: list CorrelationFinding :=
reverse (map rowToCorrelationFinding (dedupe_loop p (reverse rows) [])).

Definition ledger_key (m : CorrelationMatch) : string := norm (SyntheticFindingRuleID m).

(** The distinct candidate identifiers of the ledger query. *)
Fixpoint candidate_loop (matches : list CorrelationMatch) (candidateSet : list string) : list string :=
match matches with
| [] => []
| m :: rest =>
  if existsb (String.eqb (ledger_key m)) candidateSet then candidate_loop rest candidateSet
  else SyntheticFindingRuleID m :: candidate_loop rest (ledger_key m :: candidateSet)
end.

Definition nl : string := String (ascii_of_nat 10) "".

Definition syntheticFindingFromMatch (m : CorrelationMatch) (uuid8 : string) : Finding :=
let p := m_Pattern m in
let desc := ("Correlation pattern " ++ p_ID p ++ " matched on "
           ++ pretty (zlen (Contributing m)) ++ " contributing findings: "
           ++ Join (map ID (Contributing m)) ", ")%string in
{| F_ID := ("corr-" ++ p_ID p ++ "-" ++ uuid8)%string; F_FindingOccurrenceID := "";
 F_Severity := SeverityOnMatch p; F_Title := ("Correlation: " ++ p_ID p)%string;
 F_Description := if (Description p =? "")%string then desc
                  else (Description p ++ nl ++ nl ++ desc)%string;
 F_EvidenceSummary := ""; F_Location := ""; F_LineNumber := None; F_Remediation := "";
 F_Scanner := "correlator"; F_RuleID := SyntheticFindingRuleID m; F_Category := "correlation";
 F_Tags := ["correlation"%string; p_ID p]; F_DataAxis := []; F_ToolCapabilityClass := "";
 F_ContentFingerprint := ""; F_ExternalEndpoint := ""; F_TurnID := None |}.

(** The matches that are neither persisted nor already scheduled. *)
Fixpoint schedule_loop (uuid8 : nat -> string) (matches : list CorrelationMatch)
(persisted scheduled : list string) (n : nat) : list Finding :=
match matches with
| [] => []
| m :: rest =>
  if existsb (String.eqb (ledger_key m)) persisted then schedule_loop uuid8 rest persisted scheduled n
  else if existsb (String.eqb (ledger_key m)) scheduled then schedule_loop uuid8 rest persisted scheduled n
  else syntheticFindingFromMatch m (uuid8 n)
       :: schedule_loop uuid8 rest persisted (ledger_key m :: scheduled) (S n)
end.
End Pure.

(** ** RunForSession *)

Inductive RunError := ErrReadWindow | ErrReadLedger | ErrInsertSummary | ErrInsertFindings.

(** What a call is given: its metadata, the identifiers it mints and the clock. *)
Record run_call := {
  rc_session : string;
  rc_instance : string;
  rc_target : string;
  rc_meta : ScanFindingMeta;
  rc_scan_id : string;
  rc_uuid8 : nat -> string;
  rc_now : Time;
}.

Section Run.
Context {U : GoUnicode} {S : Type} {Store : FindingStore S} (c : SessionCorrelator).

(** The first part of [RunForSession]: up to the evaluated patterns. *)
Definition collect (call : run_call) (s : S)
: S * (option RunError * option (correlationAgentPartition * list CorrelationMatch)) :=
match patterns c with
| [] => (s, (None, None))
| _ =>
  let (partition, ok) := newCorrelationAgentPartition (rc_session call) (rc_instance call)
                           (meta_AgentID (rc_meta call)) in
  if negb ok then (s, (None, None))
  else
    let (s, read) := ListRecentFindingsInSession s partition (windowLimit c) in
    (s, match read with
        | None => (Some ErrReadWindow, None)
        | Some [] => (None, None)
        | Some rows =>
            match session_window partition rows with
            | [] => (None, None)
            | window =>
                match Evaluate (patterns c) window with
                | [] => (None, None)
                | matches => (None, Some (partition, matches))
                end
            end
        end)
end.

(** The ledger query and the findings to write, under the partition lock. *)
Definition read_ledger (call : run_call) (partition : correlationAgentPartition)
(matches : list CorrelationMatch) (s : S) : S * option (list Finding) :=
let (s, read) := ListFiredCorrelationRuleIDsInSession s partition (candidate_loop matches []) in
(s, match read with
    | None => None
    | Some persistedRuleIDs => Some (schedule_loop (rc_uuid8 call) matches (map norm persistedRuleIDs) [] 0)
    end).

Definition write_summary (call : run_call) (partition : correlationAgentPartition)
(synthetic : list Finding) (s : S) : S * bool :=
InsertScanSummary s
{| s_ScanID := rc_scan_id call; s_Scanner := "correlator"; s_Target := rc_target call;
   s_Timestamp := rc_now call; s_FindingCount := zlen synthetic; s_MaxSeverity := "CRITICAL";
   s_Verdict := "block"; s_Partition := partition; s_RunID := meta_RunID (rc_meta call);
   s_RequestID := meta_RequestID (rc_meta call); s_TraceID := meta_TraceID (rc_meta call) |}.

Definition write_findings (call : run_call) (synthetic : list Finding) (s : S) : S * bool :=
InsertScanFindings s (rc_scan_id call) (rc_target call) synthetic (stamped (rc_meta call) (rc_now call)).

Definition RunForSession (call : run_call) (s : S) : S * option RunError :=
match collect call s with
| (s, (Some e, _)) => (s, Some e)
| (s, (None, None)) => (s, None)
| (s, (None, Some (partition, matches))) =>
  match read_ledger call partition matches s with
  | (s, None) => (s, Some ErrReadLedger)
  | (s, Some []) => (s, None)
  | (s, Some synthetic) =>
      match write_summary call partition synthetic s with
      | (s, false) => (s, Some ErrInsertSummary)
      | (s, true) =>
          match write_findings call synthetic s with
          | (s, false) => (s, Some ErrInsertFindings)
          | (s, true) => (s, None)
          end
      end
  end
end.

(** ** Concurrent calls

A thread is between two accesses to the store; from [TLocked] on it holds
the stripe of its partition. *)
Inductive thread :=
| TStart (call : run_call)
| TMatched (call : run_call) (p : correlationAgentPartition) (matches : list CorrelationMatch)
| TLocked (call : run_call) (p : correlationAgentPartition) (matches : list CorrelationMatch)
| TScheduled (call : run_call) (p : correlationAgentPartition) (synthetic : list Finding)
| TSummarised (call : run_call) (p : correlationAgentPartition) (synthetic : list Finding)
| TDone (error : option RunError).

Definition stripe (t : thread) : option Z :=
match t with
| TLocked _ p _ | TScheduled _ p _ | TSummarised _ p _ =>
  Some (correlationPartitionLockIndex (partition_key p))
| _ => None
end.

(** One thread's next access; [free] says whether a stripe is not held.  The
    findings are written one by one, as [InsertScanFindings] does. *)
Definition thread_step (free : Z -> bool) (t : thread) (s : S) : option (S * thread) :=
match t with
| TStart call =>
  Some (match collect call s with
        | (s, (Some e, _)) => (s, TDone (Some e))
        | (s, (None, None)) => (s, TDone None)
        | (s, (None, Some (p, matches))) => (s, TMatched call p matches)
        end)
| TMatched call p matches =>
  if free (correlationPartitionLockIndex (partition_key p)) then Some (s, TLocked call p matches)
  else None
| TLocked call p matches =>
  Some (match read_ledger call p matches s with
        | (s, None) => (s, TDone (Some ErrReadLedger))
        | (s, Some []) => (s, TDone None)
        | (s, Some synthetic) => (s, TScheduled call p synthetic)
        end)
| TScheduled call p synthetic =>
  Some (match write_summary call p synthetic s with
        | (s, false) => (s, TDone (Some ErrInsertSummary))
        | (s, true) => (s, TSummarised call p synthetic)
        end)
| TSummarised call p [] => Some (s, TDone None)
| TSummarised call p (finding :: rest) =>
  Some (match write_findings call [finding] s with
        | (s, false) => (s, TDone (Some ErrInsertFindings))
        | (s, true) => (s, TSummarised call p rest)
        end)
| TDone _ => None
end.

Definition holds (k : Z) (t : thread) : bool :=
match stripe t with Some k' => k =? k' | None => false end.

(** [EmitScanResult], the only caller, passes the identity of the metadata. *)
Definition emitted (call : run_call) : Prop :=
rc_session call = meta_SessionID (rc_meta call) /\ rc_instance call = meta_AgentInstanceID (rc_meta call).

(** A finding that the ledger query counts, by the scanner it names. *)
Definition of_correlator (f : Finding) : bool := (sql_norm (F_Scanner f) =? "correlator")%string.

(** Calls start and go on in any order, and other scans write their findings. *)
Inductive pool_step : S * list thread -> S * list thread -> Prop :=
| ps_call s ts call : emitted call ->
pool_step (s, ts) (s, ts ++ [TStart call])
| ps_thread s ts i t s' t' :
ts !! i = Some t ->
thread_step (fun k => negb (existsb (holds k) ts)) t s = Some (s', t') ->
pool_step (s, ts) (s', <[i := t']> ts)
| ps_scan s ts id target fs meta :
Forall (fun f => of_correlator f = false) fs ->
pool_step (s, ts) (fst (InsertScanFindings s id target fs meta), ts).
End Run.

(** ** What the correlator relies on *)

Definition finding_key `{GoUnicode} (f : Finding) : string := norm (F_RuleID f).

(** The partition that an identity is trimmed to, and the ones that are trimmed. *)
Definition trimmed {U : GoUnicode} (i : correlationAgentPartition) : correlationAgentPartition :=
  fst (newCorrelationAgentPartition (sessionID i) (agentInstanceID i) (agentID i)).

Definition canonical {U : GoUnicode} (p : correlationAgentPartition) : Prop :=
  trimmed p = p /\ snd (newCorrelationAgentPartition (sessionID p) (agentInstanceID p) (agentID p)) = true.

(** The key a finding adds to the ledger of the partitions that see it. *)
Definition ledger_entry (f : Finding) : option string :=
  if of_correlator f && negb (F_RuleID f =? "")%string then Some (sql_norm (F_RuleID f)) else None.

Definition plain_rule (r : string) : Prop := r <> ""%string /\ plain_text r = true.

(** The persisted firing ledger of a partition, a list with one key per row.  The
    rows of an identity are visible in at most the partition it is trimmed to, and
    there if it is trimmed already.  The query answers membership, for rule ids on
    which Go and SQL agree; a successful write adds its findings, a failed one
    some of the first; nothing else changes the ledger. *)
Class LedgerLaws (S : Type) `{U : GoUnicode} `{Store : FindingStore S} := {
  ledger : S -> correlationAgentPartition -> list string;
  visible : correlationAgentPartition -> correlationAgentPartition -> bool;
  visible_trimmed p i : canonical p -> visible p i = true -> trimmed i = p;
  visible_self p : canonical p -> visible p p = true;
  window_ledger s p limit q : ledger (fst (ListRecentFindingsInSession s p limit)) q = ledger s q;
  query_ledger s p candidates q : ledger (fst (ListFiredCorrelationRuleIDsInSession s p candidates)) q = ledger s q;
  fired_ledger s p candidates fired :
    snd (ListFiredCorrelationRuleIDsInSession s p candidates) = Some fired -> Forall plain_rule candidates ->
    forall r, r ∈ candidates -> norm r ∈ map norm fired <-> norm r ∈ ledger s p;
  summary_ledger s params p : ledger (fst (InsertScanSummary s params)) p = ledger s p;
  findings_ledger s id target fs meta : exists k, (k <= length fs)%nat
    /\ (snd (InsertScanFindings s id target fs meta) = true -> k = length fs)
    /\ forall p, ledger (fst (InsertScanFindings s id target fs meta)) p ≡ₚ
         (if visible p (identity meta) then omap ledger_entry (take k fs) else []) ++ ledger s p;
}.

(** ** Facts *)

Section Plain.
Context {U : GoUnicode}.

Lemma upper_plain c : plain_byte c = true -> plain_byte (ascii_upper c) = true.
Proof. by destruct c as [[] [] [] [] [] [] [] []]. Qed.

Lemma smap_plain f s : (forall c, plain_byte c = true -> plain_byte (f c) = true) ->
  plain_text s = true -> plain_text (smap f s) = true.
Proof.
  intros H. induction s as [|c s IH]; [done|]. cbn. rewrite !andb_true_iff. intros [Hc Hs]. auto.
Qed.

Lemma ReplaceByte_plain s : plain_text s = true -> plain_text (ReplaceByte s "_"%char "-") = true.
Proof.
  unfold plain_text. induction s as [|c s IH]; [done|]. cbn [sall ReplaceByte]. intros [Hc Hs]%andb_true_iff.
  destruct (Ascii.eqb c "_"); change (sall plain_byte (String ?x "" ++ ?y)) with (plain_byte x && sall plain_byte y).
  - by rewrite IH.
  - by rewrite Hc, IH.
Qed.

(** The rule id of a pattern with a plain identifier is plain. *)
Lemma rule_plain m : plain_text (p_ID (m_Pattern m)) = true -> plain_rule (SyntheticFindingRuleID m).
Proof.
  intros H. split; [done|]. unfold SyntheticFindingRuleID. cbn. apply ReplaceByte_plain in H.
  unfold ToUpper. rewrite plain_text_ascii by done. apply smap_plain; [exact upper_plain|done].
Qed.

Lemma norm_plain r : plain_rule r -> norm r = sql_norm r.
Proof.
  intros [_ H]. unfold norm, sql_norm. by rewrite TrimSpace_plain, sql_trim_plain, ToLower_plain.
Qed.

(** A synthetic finding that the ledger query sees under the key of the schedule. *)
Definition synthetic_ok (f : Finding) : Prop := ledger_entry f = Some (finding_key f).

Lemma synthetic_entry m u : plain_rule (SyntheticFindingRuleID m) -> synthetic_ok (syntheticFindingFromMatch m u).
Proof.
  intros H. unfold synthetic_ok, ledger_entry, finding_key. cbn [F_RuleID syntheticFindingFromMatch].
  rewrite norm_plain by done. destruct H as [H _]. apply String.eqb_neq in H. by rewrite H.
Qed.

Lemma entries_keys fs : Forall synthetic_ok fs -> omap ledger_entry fs = map finding_key fs.
Proof. induction 1 as [|f fs Hf _ IH]; [done|]. cbn. by rewrite Hf, IH. Qed.

Lemma schedule_loop_ok uuid8 matches persisted : forall scheduled n,
  Forall (fun m => plain_rule (SyntheticFindingRuleID m)) matches ->
  Forall synthetic_ok (schedule_loop uuid8 matches persisted scheduled n).
Proof.
  induction matches as [|m matches IH]; intros scheduled n Hm; [constructor|]. apply Forall_cons in Hm as [Hm Hms]. cbn.
  destruct (existsb _ persisted); [by apply IH|]. destruct (existsb _ scheduled); [by apply IH|].
  constructor; [by apply synthetic_entry|by apply IH].
Qed.

Lemma candidate_loop_plain matches : forall set,
  Forall (fun m => plain_rule (SyntheticFindingRuleID m)) matches -> Forall plain_rule (candidate_loop matches set).
Proof.
  induction matches as [|m matches IH]; intros set Hm; [constructor|]. apply Forall_cons in Hm as [Hm Hms]. cbn.
  destruct (existsb _ set); [by apply IH|]. constructor; [done|by apply IH].
Qed.

Lemma Evaluate_patterns ps w : Forall (fun m => m_Pattern m ∈ ps) (Evaluate ps w).
Proof.
  induction ps as [|p ps IH]; [constructor|]. cbn.
  assert (IH' : Forall (fun m => m_Pattern m ∈ p :: ps) (Evaluate ps w)).
  { eapply Forall_impl; [exact IH|]. intros m ?. by constructor. }
  destruct (Match p w); [done|]. constructor; [constructor|done].
Qed.
End Plain.

Section Facts.
Context {U : GoUnicode} {S : Type} {Store : FindingStore S} {Laws : LedgerLaws S}.

Lemma schedule_loop_spec uuid8 matches persisted : forall scheduled n,
let keys := map finding_key (schedule_loop uuid8 matches persisted scheduled n) in
NoDup keys /\ (forall x, x ∈ keys -> x ∉ persisted /\ x ∉ scheduled)
/\ (forall x, x ∈ keys -> x ∈ map ledger_key matches)
/\ (forall m, m ∈ matches -> ledger_key m ∈ persisted \/ ledger_key m ∈ scheduled \/ ledger_key m ∈ keys).
Proof.
induction matches as [|m matches IH]; intros scheduled n; simpl.
{ split; [constructor|]. set_solver. }
destruct (existsb _ persisted) eqn:Hp; [|destruct (existsb _ scheduled) eqn:Hs].
- apply existsb_ID in Hp. destruct (IH scheduled n) as (H1 & H2 & H3 & H4).
split; [done|]. split; [done|]. split; [set_solver|].
intros m' [->|Hm]%elem_of_cons; [by left|by apply H4].
- apply existsb_ID in Hs. destruct (IH scheduled n) as (H1 & H2 & H3 & H4).
split; [done|]. split; [done|]. split; [set_solver|].
intros m' [->|Hm]%elem_of_cons; [by right; left|by apply H4].
- assert (Hnp : ledger_key m ∉ persisted) by (intros Hc; apply existsb_ID in Hc; congruence).
assert (Hns : ledger_key m ∉ scheduled) by (intros Hc; apply existsb_ID in Hc; congruence).
destruct (IH (ledger_key m :: scheduled) (Datatypes.S n)) as (H1 & H2 & H3 & H4).
change (finding_key (syntheticFindingFromMatch m (uuid8 n))) with (ledger_key m).
split; [constructor; [|done]|split; [|split]].
+ intros Hc. apply H2 in Hc as [_ Hc]. apply Hc. constructor.
+ intros x [->|Hx]%elem_of_cons; [done|]. apply H2 in Hx as [? Hx]. split; [done|].
  intros ?. apply Hx. by constructor.
+ intros x [->|Hx]%elem_of_cons; [constructor|]. constructor. by apply H3.
+ intros m' [->|Hm]%elem_of_cons; [right; right; constructor|].
  destruct (H4 m' Hm) as [?|[[->|?]%elem_of_cons|?]]; auto; right; right; by constructor.
Qed.

Lemma candidate_loop_spec matches : forall set m, m ∈ matches ->
ledger_key m ∈ set \/ exists r, r ∈ candidate_loop matches set /\ norm r = ledger_key m.
Proof.
induction matches as [|m matches IH]; intros set m' Hm; [by apply not_elem_of_nil in Hm|]. simpl.
apply elem_of_cons in Hm as [->|Hm]; (destruct (existsb _ set) eqn:He).
- left. by apply existsb_ID.
- right. exists (SyntheticFindingRuleID m). split; [constructor|done].
- by apply IH.
- destruct (IH (ledger_key m :: set) m' Hm) as [[->|?]%elem_of_cons|(r & ? & ?)].
+ right. exists (SyntheticFindingRuleID m). split; [constructor|done].
+ by left.
+ right. exists r. split; [by constructor|done].
Qed.

(** What the ledger query and the schedule establish, under the lock. *)
Lemma read_ledger_spec call p matches s s' synthetic :
  Forall (fun m => plain_rule (SyntheticFindingRuleID m)) matches ->
  read_ledger call p matches s = (s', Some synthetic) ->
  NoDup (map finding_key synthetic) /\ Forall synthetic_ok synthetic
  /\ (forall x, x ∈ map finding_key synthetic -> x ∉ ledger s p)
  /\ (forall m, m ∈ matches -> ledger_key m ∈ ledger s p \/ ledger_key m ∈ map finding_key synthetic).
Proof.
  intros Hplain. unfold read_ledger.
  pose proof (fun fired => fired_ledger s p (candidate_loop matches []) fired) as Hled.
  destruct (ListFiredCorrelationRuleIDsInSession _ _ _) as [s1 [fired|]]; [|done].
  intros [= _ <-]. specialize (Hled fired eq_refl (candidate_loop_plain _ [] Hplain)).
  destruct (schedule_loop_spec (rc_uuid8 call) matches (map norm fired) [] 0) as (H1 & H2 & H3 & H4).
  assert (Hiff : forall m, m ∈ matches -> ledger_key m ∈ map norm fired <-> ledger_key m ∈ ledger s p).
  { intros m Hm. destruct (candidate_loop_spec matches [] m Hm) as [?%not_elem_of_nil|(r & Hr & <-)]; [done|].
    by apply Hled. }
  split; [done|]. split; [by apply schedule_loop_ok|]. split.
  - intros x Hx Hl. destruct (H2 x Hx) as [Hn _]. apply Hn. apply H3 in Hx.
    apply list_elem_of_fmap in Hx as (m & -> & Hm). by apply Hiff.
  - intros m Hm. destruct (H4 m Hm) as [?|[?%not_elem_of_nil|?]]; [left; by apply Hiff|done|by right].
Qed.

Lemma read_ledger_keeps call p matches s q : ledger (fst (read_ledger call p matches s)) q = ledger s q.
Proof.
  unfold read_ledger. pose proof (query_ledger s p (candidate_loop matches []) q) as H.
  by destruct (ListFiredCorrelationRuleIDsInSession _ _ _).
Qed.

(** What writing findings does to the ledger of a canonical partition. *)
Lemma write_findings_ledger call synthetic s :
  Forall synthetic_ok synthetic ->
  exists k, (k <= length synthetic)%nat
  /\ (snd (write_findings call synthetic s) = true -> k = length synthetic)
  /\ forall p, ledger (fst (write_findings call synthetic s)) p ≡ₚ
       (if visible p (identity (rc_meta call)) then map finding_key (take k synthetic) else []) ++ ledger s p.
Proof.
  intros Hs. unfold write_findings. destruct (findings_ledger s (rc_scan_id call) (rc_target call) synthetic
    (stamped (rc_meta call) (rc_now call))) as (k & Hk & Hok & Hl).
  exists k. split; [done|]. split; [done|]. intros p. rewrite (Hl p).
  rewrite entries_keys; [done|]. by apply Forall_take.
Qed.

(** *** The pool *)

Variable c : SessionCorrelator.
Hypothesis plain_patterns : Forall (fun p => plain_text (p_ID p) = true) (patterns c).

Lemma collect_spec call s :
  (forall q, ledger (fst (collect c call s)) q = ledger s q)
  /\ forall p matches, snd (collect c call s) = (None, Some (p, matches)) ->
       p = fst (newCorrelationAgentPartition (rc_session call) (rc_instance call) (meta_AgentID (rc_meta call)))
       /\ Forall (fun m => plain_rule (SyntheticFindingRuleID m)) matches.
Proof.
  unfold collect. destruct (patterns c) as [|p0 ps] eqn:Hps; [done|]. rewrite <- Hps.
  destruct (newCorrelationAgentPartition _ _ _) as [q ok]. destruct ok; [|done]. cbn [negb fst].
  pose proof (fun q' => window_ledger s q (windowLimit c) q') as Hw.
  destruct (ListRecentFindingsInSession s q (windowLimit c)) as [s1 read]. cbn [fst snd] in *. split; [exact Hw|].
  assert (Hev : forall w, Forall (fun m => plain_rule (SyntheticFindingRuleID m)) (Evaluate (patterns c) w)).
  { intros w. eapply Forall_impl; [apply Evaluate_patterns|]. intros m Hm. apply rule_plain.
    rewrite Hps in Hm. by apply (proj1 (Forall_forall _ _) plain_patterns). }
  intros p ms H. destruct read as [[|r rs]|]; [done| |done].
  destruct (session_window q (r :: rs)) as [|w ws]; [done|]. specialize (Hev (w :: ws)).
  destruct (Evaluate (patterns c) (w :: ws)); [done|]. by simplify_eq.
Qed.

(** The partition whose ledger is watched. *)
Variable q : correlationAgentPartition.
Hypothesis q_canonical : canonical q.

(** A thread that has read the ledger still knows that its keys are new. *)
Definition thread_ok (s : S) (t : thread) : Prop :=
  match t with
  | TStart call => emitted call
  | TMatched call p matches | TLocked call p matches =>
      p = trimmed (identity (rc_meta call)) /\ Forall (fun m => plain_rule (SyntheticFindingRuleID m)) matches
  | TScheduled call p synthetic | TSummarised call p synthetic =>
      p = trimmed (identity (rc_meta call)) /\ Forall synthetic_ok synthetic /\ NoDup (map finding_key synthetic)
      /\ (p = q -> forall x, x ∈ map finding_key synthetic -> x ∉ ledger s q)
  | TDone _ => True
  end.

Lemma thread_ok_perm s s' t : ledger s' q ≡ₚ ledger s q -> thread_ok s t -> thread_ok s' t.
Proof.
  intros Hl. destruct t as [|?|?|call p syn|call p syn|]; simpl; try done;
    intros (H1 & H2 & H3 & H4); (split; [done|]); (split; [done|]); (split; [done|]);
    intros Hp x Hx Hin; apply (H4 Hp x Hx); by rewrite <- Hl.
Qed.

Record pool_ok (st : S * list thread) : Prop := {
  po_ledger : NoDup (ledger (fst st) q);
  po_threads i t : snd st !! i = Some t -> thread_ok (fst st) t;
  po_stripes i j t u k : snd st !! i = Some t -> snd st !! j = Some u ->
    stripe t = Some k -> stripe u = Some k -> i = j;
}.

(** A step keeps the stripe it holds, gives it up, or takes one that is free. *)
Lemma thread_step_stripe free t s s' t' k :
  thread_step c free t s = Some (s', t') -> stripe t' = Some k -> stripe t = Some k \/ free k = true.
Proof.
  destruct t; simpl; intros H; repeat case_match; simplify_eq/=; auto; intros ?; simplify_eq/=; auto.
Qed.

Abbreviation lock := (correlationPartitionLockIndex (partition_key q)).

(** The step that writes one finding. *)
Lemma write_one_ok call p f rest s s' b :
  thread_ok s (TSummarised call p (f :: rest)) -> NoDup (ledger s q) -> write_findings call [f] s = (s', b) ->
  thread_ok s' (TSummarised call p rest) /\ NoDup (ledger s' q)
  /\ (ledger s' q ≡ₚ ledger s q \/ stripe (TSummarised call p (f :: rest)) = Some lock).
Proof.
  intros (Hp & [Hf Hrest]%Forall_cons & [Hnf Hnd]%NoDup_cons & Hnew) Hq Hw.
  destruct (write_findings_ledger call [f] s) as (k & Hk & _ & Hl); [by constructor|]. rewrite Hw in Hl. cbn [fst] in Hl.
  specialize (Hl q). destruct (visible q (identity (rc_meta call))) eqn:Hv.
  - apply (visible_trimmed _ _ q_canonical) in Hv as Ht. rewrite <- Hp in Ht. subst p. rewrite Ht in *.
    specialize (Hnew eq_refl). destruct k as [|k]; cbn in Hl.
    { split; [|split; [by rewrite Hl|by left]]. split_and!; [done|done|done|]. intros _ x Hx. rewrite Hl. apply Hnew.
      by constructor. }
    rewrite take_nil in Hl. cbn in Hl. split; [|split; [|by right]].
    + split_and!; [done|done|done|]. intros _ x Hx. rewrite Hl, elem_of_cons. intros [->|Hin]; [done|].
      apply (Hnew x); [by constructor|done].
    + rewrite Hl. apply NoDup_cons. split; [|done]. apply Hnew. constructor.
  - cbn in Hl. split; [|split; [by rewrite Hl|by left]]. split_and!; [done|done|done|].
    intros Hpq x Hx. rewrite Hl. apply Hnew; [done|]. by constructor.
Qed.

(** What a thread's step does to the watched ledger: nothing, or a key of its own
    appears in it while the thread holds the stripe of the partition. *)
Lemma thread_step_ledger free t s s' t' :
  thread_ok s t -> NoDup (ledger s q) -> thread_step c free t s = Some (s', t') ->
  thread_ok s' t' /\ NoDup (ledger s' q) /\ (ledger s' q ≡ₚ ledger s q \/ stripe t = Some lock).
Proof.
  destruct t as [call|call p ms|call p ms|call p syn|call p [|f syn]|e]; cbn [thread_step]; intros Hok Hnd H;
    [| | | |simplify_eq; by split_and!; [| |left]| |done].
  - destruct (collect_spec call s) as [Hl Hc]. destruct (collect c call s) as [s1 [[e|] [[p ms]|]]]; cbn in Hl;
      simplify_eq; (split; [|rewrite Hl; by split; [|left]]); try done.
    destruct (Hc p ms eq_refl) as [-> Hms]. split; [|done]. destruct Hok as [-> ->]. done.
  - case_match; simplify_eq. by split_and!; [| |left].
  - pose proof (read_ledger_keeps call p ms s) as Hl. destruct Hok as [Hp Hms].
    destruct (read_ledger call p ms s) as [s1 [[|f fs]|]] eqn:Hr; cbn in Hl; simplify_eq; (split; [|rewrite Hl; by split; [|left]]);
      try done. destruct (read_ledger_spec _ _ _ _ _ _ Hms Hr) as (? & ? & Hnew & _). split_and!; [done|done|done|].
    intros <-. rewrite Hl. exact Hnew.
  - pose proof (fun params => summary_ledger s params q) as Hsum. unfold write_summary in H.
    match type of H with context [InsertScanSummary s ?m] => specialize (Hsum m) end.
    destruct (InsertScanSummary _ _) as [s1 []]; cbn in Hsum; simplify_eq; (split; [|rewrite Hsum; by split; [|left]]); [|done].
    apply (thread_ok_perm s); [by rewrite Hsum|exact Hok].
  - destruct (write_findings call [f] s) as [s1 b] eqn:Hw.
    destruct (write_one_ok _ _ _ _ _ _ _ Hok Hnd Hw) as (Hok' & Hnd' & Hl).
    destruct b; simplify_eq; by split_and!.
Qed.

Lemma pool_step_ok st st' : pool_ok st -> pool_step c st st' -> pool_ok st'.
Proof.
  intros [Hl Ht Hs] Hstep. destruct Hstep as [s ts call Hcall|s ts i t s' t' Hi Hstep|s ts id target fs meta Hfs]; simpl in *.
  - split; simpl; [done| |].
    + intros i t [[_ ?]|[_ <-]]%lookup_snoc_Some; [by eapply Ht|done].
    + intros i j t u k [[_ Hi]|[_ <-]]%lookup_snoc_Some [[_ Hj]|[_ <-]]%lookup_snoc_Some; try done. by apply Hs.
  - destruct (thread_step_ledger _ _ _ _ _ (Ht _ _ Hi) Hl Hstep) as (Hok & Hnd & Hled).
    assert (Hother : forall j u k, ts !! j = Some u -> j <> i -> stripe u = Some k -> stripe t = Some k -> False).
    { intros j u k Hj Hne Hu Htk. by apply Hne, (Hs j i u t k). }
    split; simpl; [done| |].
    + intros j u Hj. apply list_lookup_insert_Some in Hj as [(-> & -> & _)|[Hne Hj]]; [done|].
      pose proof (Ht _ _ Hj) as Hu. destruct Hled as [Hperm|Hst]; [by eapply thread_ok_perm|].
      destruct u as [|?|?|call p syn|call p syn|]; simpl in *; try done;
        destruct Hu as (H1 & H2 & H3 & H4); (split_and!; [done|done|done|]); intros -> ; exfalso;
        by eapply (Hother j).
    + assert (Hfree : forall j u k, ts !! j = Some u -> j <> i -> stripe u = Some k -> stripe t' = Some k -> False).
      { intros j u k Hj Hne Hu Hk. destruct (thread_step_stripe _ _ _ _ _ _ Hstep Hk) as [?|Hfr].
        - by eapply (Hother j u).
        - apply negb_true_iff in Hfr. assert (existsb (holds k) ts = true); [|congruence].
          apply existsb_exists. exists u. split; [by eapply list_elem_of_In, list_elem_of_lookup_2|].
          unfold holds. rewrite Hu. apply Z.eqb_refl. }
      intros j1 j2 u1 u2 k Hj1 Hj2 H1 H2.
      apply list_lookup_insert_Some in Hj1 as [(<- & <- & _)|[Hn1 Hj1]],
        Hj2 as [(<- & <- & _)|[Hn2 Hj2]]; try done.
      * exfalso. by eapply (Hfree j2 u2 k).
      * exfalso. by eapply (Hfree j1 u1 k).
      * by apply (Hs j1 j2 u1 u2 k).
  - destruct (findings_ledger s id target fs meta) as (k & _ & _ & Hled). specialize (Hled q).
    assert (Hnone : omap ledger_entry (take k fs) = []).
    { apply Forall_take with (n := k) in Hfs. revert Hfs. generalize (take k fs) as l. clear.
      induction 1 as [|f l Hf _ IH]; [done|]. cbn. unfold ledger_entry at 1. by rewrite Hf, IH. }
    rewrite Hnone in Hled. assert (Hperm : ledger (fst (InsertScanFindings s id target fs meta)) q ≡ₚ ledger s q)
      by (by destruct (visible q (identity meta))).
    split; simpl; [by rewrite Hperm| |done]. intros i t Hi. eapply thread_ok_perm; [exact Hperm|]. by eapply Ht.
Qed.

(** The invariant over a whole run. *)
Lemma pool_run_NoDup s0 s ts :
  NoDup (ledger s0 q) -> rtc (pool_step c) (s0, []) (s, ts) -> NoDup (ledger s q).
Proof.
  intros H0 Hrun. assert (Hok : pool_ok (s0, [])) by (split; [done|done|by intros []]).
  enough (pool_ok (s, ts)) as [Hl _ _] by apply Hl.
  revert Hok. generalize (s0, @nil thread) (s, ts) Hrun. clear -plain_patterns q_canonical.
  induction 1 as [|st1 st2 st3 Hstep _ IH]; [done|]. intros Hok. by apply IH, (pool_step_ok st1).
Qed.
End Facts.

(** *** The window of a partition *)

Section Window.
Context {U : GoUnicode}.

Definition relevant (p : correlationAgentPartition) (r : SessionFindingRow) : Prop :=
includes p r = true /\ correlationInputEligible r = true.

(** [kept] holds the relevant rows, in order, without those whose primitive was
seen before; every relevant row is kept or represented by an older one. *)
Record dedupe_ok (p : correlationAgentPartition) (seen : list string)
(rows kept : list SessionFindingRow) : Prop := {
dd_sublist : kept `sublist_of` rows;
dd_relevant : Forall (relevant p) kept;
dd_NoDup : NoDup (omap correlationPrimitiveKey kept);
dd_fresh k : k ∈ omap correlationPrimitiveKey kept -> k ∉ seen;
dd_represented older r newer : rows = older ++ r :: newer -> relevant p r ->
r ∈ kept \/ exists k, correlationPrimitiveKey r = Some k
  /\ (k ∈ seen \/ exists q, q ∈ older /\ q ∈ kept /\ correlationPrimitiveKey q = Some k);
}.

Lemma dedupe_skip p seen r rows kept :
dedupe_ok p seen rows kept ->
(relevant p r -> exists k, correlationPrimitiveKey r = Some k /\ k ∈ seen) ->
dedupe_ok p seen (r :: rows) kept.
Proof.
intros [H1 H2 H3 H4 H5] Hr. split; try done; [by constructor|].
intros older r0 newer Heq Hrel. destruct older as [|o older]; simplify_eq/=.
- right. destruct (Hr Hrel) as (k & ? & ?). exists k. by auto.
- destruct (H5 older r0 newer eq_refl Hrel) as [?|(k & ? & [?|(q & ? & ? & ?)])]; [by left| |];
  right; exists k; (split; [done|]); [by left|right; exists q; split; [by constructor|done]].
Qed.

Lemma dedupe_keep p seen seen' r rows kept :
relevant p r -> dedupe_ok p seen' rows kept ->
(forall k, k ∈ seen' <-> k ∈ seen \/ correlationPrimitiveKey r = Some k) ->
(forall k, correlationPrimitiveKey r = Some k -> k ∉ seen) ->
dedupe_ok p seen (r :: rows) (r :: kept).
Proof.
intros Hr [H1 H2 H3 H4 H5] Hseen' Hnew. split; [by constructor|by constructor| | |].
- simpl. destruct (correlationPrimitiveKey r) as [k|] eqn:Hk; [|done]. constructor; [|done].
intros Hin. apply (H4 k Hin), Hseen'. by right.
- simpl. intros k Hin. destruct (correlationPrimitiveKey r) as [k0|] eqn:Hk.
+ apply elem_of_cons in Hin as [->|Hin]; [by apply Hnew|]. intros ?. apply (H4 k Hin), Hseen'. by left.
+ intros ?. apply (H4 k Hin), Hseen'. by left.
- intros older r0 newer Heq Hrel0. destruct older as [|o older]; simplify_eq/=; [left; constructor|].
destruct (H5 older r0 newer eq_refl Hrel0) as [?|(k & ? & [Hk|(q & ? & ? & ?)])];
  [left; by constructor| |]; right; exists k; (split; [done|]).
+ apply Hseen' in Hk as [?|?]; [by left|right]. exists o. repeat split; [constructor|constructor|done].
+ right. exists q. repeat split; [by constructor|by constructor|done].
Qed.

Lemma dedupe_loop_spec p rows : forall seen, dedupe_ok p seen rows (dedupe_loop p rows seen).
Proof.
induction rows as [|r rows IH]; intros seen; simpl.
{ split; [done|constructor|constructor|set_solver|]. by intros [] ? ? [=]. }
destruct (negb (includes p r) || negb (correlationInputEligible r)) eqn:Hrel.
{ apply dedupe_skip; [done|]. unfold relevant.
destruct (includes p r), (correlationInputEligible r); simpl in Hrel; naive_solver. }
assert (Hr : relevant p r).
{ apply orb_false_iff in Hrel as [?%negb_false_iff ?%negb_false_iff]. done. }
destruct (correlationPrimitiveKey r) as [key|] eqn:Hkey.
- destruct (existsb _ seen) eqn:He.
+ apply existsb_ID in He. apply dedupe_skip; [done|]. intros _. by exists key.
+ apply (dedupe_keep p seen (key :: seen)); [done|done| |].
  * intros k. rewrite elem_of_cons, Hkey. naive_solver.
  * rewrite Hkey. intros k [= <-] Hc. apply existsb_ID in Hc. congruence.
- apply (dedupe_keep p seen seen); [done|done| |]; rewrite Hkey; naive_solver.
Qed.
End Window.

(** ** A concrete session *)

Definition demo_row (id rule axis fp : string) : SessionFindingRow :=
  {| r_ID := id; r_AgentID := "a"; r_AgentInstanceID := "i"; r_Scanner := "rules"; r_RuleID := Some rule;
     r_Category := None; r_Severity := "HIGH"; r_Tags := []; r_DataAxis := Some axis;
     r_ToolCapabilityClass := None; r_ContentFingerprint := Some fp; r_ExternalEndpoint := None;
     r_TurnID := None; r_Timestamp := "" |}.
Definition demo_meta : ScanFindingMeta :=
  {| meta_SessionID := "s"; meta_AgentInstanceID := "i"; meta_AgentID := "a"; meta_RunID := "";
     meta_RequestID := ""; meta_TraceID := ""; meta_EvaluationID := ""; meta_Timestamp := 0 |}.
Definition demo_call : run_call :=
  {| rc_session := "s"; rc_instance := "i"; rc_target := "t"; rc_meta := demo_meta; rc_scan_id := "corr-1";
     rc_uuid8 := fun _ => "00000000"%string; rc_now := 1 |}.
(** Newest first: the egress, a replay of the access, the access. *)
Definition demo_rows : list SessionFindingRow :=
  [demo_row "3" "C2-X" "[egress_external]" "k1"; demo_row "2" "SEC-A" "[sensitive_access]" "K1 ";
   demo_row "1" "SEC-A" "[sensitive_access]" "k1"]%string.
Definition demo_correlator : SessionCorrelator := NewSessionCorrelator [demo_link].

(** ** Properties *)

Section Properties.
Context {U : GoUnicode} {S : Type} {Store : FindingStore S} {Laws : LedgerLaws S}.

(** [RunForSession] reports every match once.  If a call with a trimmed identity
    reads a window in which patterns match and returns no error, then afterwards
    every matched rule is in the ledger of the partition; what the call added are
    matched rules that were not in it, and the ledgers of other partitions are
    as before. *)
Theorem RunForSession_fires c call s s1 s' p matches :
  Forall (fun p => plain_text (p_ID p) = true) (patterns c) -> emitted call -> canonical (identity (rc_meta call)) ->
  collect c call s = (s1, (None, Some (p, matches))) -> RunForSession c call s = (s', None) ->
  (forall m, m ∈ matches -> ledger_key m ∈ ledger s' p)
  /\ (exists new, ledger s' p ≡ₚ new ++ ledger s p /\ NoDup new /\ forall x, x ∈ new -> x ∉ ledger s p)
  /\ (forall q, canonical q -> q <> p -> ledger s' q ≡ₚ ledger s q).
Proof.
  intros Hplain [Hs Hi] Hcan Hcol. destruct (collect_spec c Hplain call s) as [Hl1 Hc]. rewrite Hcol in Hl1, Hc.
  destruct (Hc p matches eq_refl) as [Hp Hms]. rewrite Hs, Hi in Hp. change (p = trimmed (identity (rc_meta call))) in Hp.
  destruct Hcan as [Htr Hok]. rewrite Htr in Hp. subst p. set (p := identity (rc_meta call)) in *.
  unfold RunForSession. rewrite Hcol. pose proof (read_ledger_keeps call p matches s1) as Hl2.
  destruct (read_ledger call p matches s1) as [s2 [syn|]] eqn:Hr; [|done]. cbn [fst] in Hl1, Hl2.
  destruct (read_ledger_spec _ _ _ _ _ _ Hms Hr) as (Hnd & Hsyn & Hfresh & Hall).
  setoid_rewrite Hl1 in Hfresh. setoid_rewrite Hl1 in Hall. destruct syn as [|f fs].
  { intros [= <-]. split; [|split].
    - intros m Hm. rewrite Hl2, Hl1. by destruct (Hall m Hm) as [?|?%not_elem_of_nil].
    - exists []. split; [by rewrite Hl2, Hl1|]. split; [constructor|]. by intros x ?%not_elem_of_nil.
    - intros q _ _. by rewrite Hl2, Hl1. }
  pose proof (fun params => summary_ledger s2 params) as Hsum. unfold write_summary.
  match goal with |- context [InsertScanSummary s2 ?m] => specialize (Hsum m) end.
  destruct (InsertScanSummary _ _) as [s3 [|]]; [|done]. cbn [fst] in Hsum.
  destruct (write_findings_ledger call (f :: fs) s3 Hsyn) as (k & _ & Hk & Hl).
  destruct (write_findings call (f :: fs) s3) as [s4 [|]]; [|done]. intros [= <-]. cbn [fst snd] in *.
  rewrite (Hk eq_refl), firstn_all in Hl.
  assert (Hp : ledger s4 p ≡ₚ map finding_key (f :: fs) ++ ledger s p).
  { rewrite (Hl p), Hsum, Hl2, Hl1. by rewrite (visible_self p (conj Htr Hok)). }
  split; [|split].
  - intros m Hm. rewrite Hp, elem_of_app. destruct (Hall m Hm); auto.
  - by exists (map finding_key (f :: fs)).
  - intros q Hq Hne. rewrite (Hl q), Hsum, Hl2, Hl1. fold p. destruct (visible q p) eqn:Hv; [|done].
    apply (visible_trimmed _ _ Hq) in Hv. by rewrite Htr in Hv.
Qed.

(** The window of a partition.  The findings that the patterns see come, in
order, from the rows of exactly this agent that are neither synthetic nor
detection-only; no primitive (rule, category and value) occurs twice, and
every relevant row is in the window unless an older row that is represents
its primitive. *)
Theorem session_window_spec p rows :
exists kept, session_window p rows = map rowToCorrelationFinding kept
/\ kept `sublist_of` rows
/\ Forall (fun r => includes p r = true /\ correlationInputEligible r = true) kept
/\ NoDup (omap correlationPrimitiveKey kept)
/\ forall newer r older, rows = newer ++ r :: older ->
 includes p r = true -> correlationInputEligible r = true ->
 r ∈ kept \/ exists q k, q ∈ older /\ q ∈ kept
   /\ correlationPrimitiveKey r = Some k /\ correlationPrimitiveKey q = Some k.
Proof.
destruct (dedupe_loop_spec p (reverse rows) []) as [H1 H2 H3 _ H5].
exists (reverse (dedupe_loop p (reverse rows) [])). split; [|split; [|split; [|split]]].
- unfold session_window. symmetry. apply (fmap_reverse rowToCorrelationFinding).
- pose proof (sublist_rev _ _ H1) as Hs. by rewrite reverse_involutive in Hs.
- by apply Forall_reverse.
- rewrite reverse_Permutation. done.
- intros newer r older -> Hi He.
assert (Hrev : reverse (newer ++ r :: older) = reverse older ++ r :: reverse newer).
{ by rewrite reverse_app, reverse_cons, <- (assoc_L (++)). }
destruct (H5 _ _ _ Hrev (conj Hi He)) as [Hin|(k & Hk & [Hn|(q & Hq & Hkept & Hqk)])].
+ left. by apply elem_of_reverse.
+ by apply not_elem_of_nil in Hn.
+ right. exists q, k. rewrite elem_of_reverse in Hq |- *. done.
Qed.
End Properties.

Example session_window_ex :
  map ID (session_window (U := ascii_only) (identity demo_meta) demo_rows) = ["3"; "1"]%string.
Proof. vm_compute. reflexivity. Qed.
