(* ===== verification/ToolChain.v ===== *)
(** * Tool chains (internal/guardrail/tool_chain.go)

    The fixed catalog of ordered two-step behaviours and the matcher over a
    window of content-free events.  Masks are bit sets in [Z] ([uint16] and
    [uint8]); [sort.Slice] is any sorting function, since its order among equal
    elements is unspecified.  The fingerprints are length-prefixed digests over
    an abstract SHA-256. *)
From stdpp Require Import base list sets strings pretty.
From Stdlib Require Import ZArith Lia Ascii Sorted.
From S2P Require Import Prelude GoStrings.

Local Open Scope Z_scope.

(** ** Data *)

Definition ToolChainCount : Z := 6.
Definition ToolChainKnownStepMask : Z := Z.shiftl 1 12 - 1.
Definition ToolChainKnownResultMask : Z := Z.shiftl 1 ToolChainCount - 1.

Record ToolChainDefinition := {
  d_ID : string;
  d_Version : string;
  d_Title : string;
  d_Severity : string;
  EventWindow : Z;
  TimeWindow : Duration;
  Step1Bit : Z;
  Step2Bit : Z;
  ResultBit : Z;
  d_Revision : string;
}.

(** [actionfacts.ParseStatus], an open string type with a closed set of values. *)
Definition known_statuses : list string :=
  ["not_applicable"; "complete"; "partial"; "unsupported"; "invalid"; "limit_exceeded"; "ambiguous"]%string.

Record ToolChainProjection := {
  ParseStatus : string;
  DetectionStepMask : Z;
  EnforcementStepMask : Z;
}.

Record ToolChainWindowEvent := {
  SemanticEventID : string;
  Sequence : Z;
  ReceivedAt : Time;
  Projection : ToolChainProjection;
}.

Record ToolChainMatches := {
  DetectedMask : Z;
  EnforcementSafeMask : Z;
  DetectionPredecessors : list string;
  EnforcementPredecessors : list string;
}.

Inductive ToolChainError :=
| ErrUnknownResultBits | ErrParseStatus | ErrDetectionBits | ErrEnforcementBits | ErrNotSubset
| ErrIncompleteFinal | ErrIncompletePrior | ErrOwnerDigest | ErrUnknownChain | ErrRulesetFingerprint.

(** ** The catalog *)

(** An entry before [init], and what [init] adds at its index. *)
Definition entry (id version title : string) (events : Z) (time : Duration) (revision : string)
    : ToolChainDefinition :=
  {| d_ID := id; d_Version := version; d_Title := title; d_Severity := ""; EventWindow := events;
     TimeWindow := time; Step1Bit := 0; Step2Bit := 0; ResultBit := 0; d_Revision := revision |}.

Definition init_entry (i : nat) (d : ToolChainDefinition) : ToolChainDefinition :=
  {| d_ID := d_ID d; d_Version := d_Version d; d_Title := d_Title d; d_Severity := "HIGH";
     EventWindow := EventWindow d; TimeWindow := TimeWindow d;
     Step1Bit := Z.shiftl 1 (2 * Z.of_nat i) `mod` 2 ^ 16;
     Step2Bit := Z.shiftl 1 (2 * Z.of_nat i + 1) `mod` 2 ^ 16;
     ResultBit := Z.shiftl 1 (Z.of_nat i) `mod` 2 ^ 8; d_Revision := d_Revision d |}.

Definition toolChainDefinitions : list ToolChainDefinition := imap init_entry [
  entry "chain.guardrails_off_then_egress" "1.4" "Guardrails disabled before external egress"
    64 (30 * Minute) "n20-to-data-external-egress-v1";
  entry "chain.permission_denied_then_runtime_bypass" "1.3" "Permission denial followed by runtime bypass"
    16 (5 * Minute) "permission-denial-to-n08-v1";
  entry "chain.privilege_discovery_then_elevation" "1.3" "Privilege discovery followed by elevation"
    32 (15 * Minute) "h18-system-root-to-h21-n12-n11-v1";
  entry "chain.secret_manager_read_then_egress" "1.5" "Secret-manager read followed by external egress"
    64 (30 * Minute) "n03-to-data-external-egress-v1";
  entry "chain.secret_read_then_egress" "1.6" "Secret read followed by external egress"
    64 (30 * Minute) "h01-h07-n01-n02-n04-to-data-external-egress-v1";
  entry "chain.workload_identity_then_lateral_execution" "1.6"
    "Workload identity access followed by lateral execution" 32 (15 * Minute) "n04-to-n13-v1"]%string.

Definition ToolChainDefinitionByID (id : string) : option ToolChainDefinition :=
  List.find (fun d => (d_ID d =? id)%string) toolChainDefinitions.

Definition ToolChainStepMask (id : string) (step : Z) : option Z :=
  match ToolChainDefinitionByID id with
  | None => None
  | Some d => if step =? 1 then Some (Step1Bit d) else if step =? 2 then Some (Step2Bit d) else None
  end.

Definition ToolChainResultMask (id : string) : option Z :=
  match ToolChainDefinitionByID id with
  | None => None
  | Some d => Some (ResultBit d)
  end.

(** [mask & bit != 0] and [mask &^ known != 0] *)
Definition has_bit (mask bit : Z) : bool := negb (Z.land mask bit =? 0).
Definition exceeds (mask known : Z) : bool := negb (Z.ldiff mask known =? 0).

Definition ToolChainIDs (mask : Z) : list string + ToolChainError :=
  if exceeds mask ToolChainKnownResultMask then inr ErrUnknownResultBits
  else inl (map d_ID (List.filter (fun d => has_bit mask (ResultBit d)) toolChainDefinitions)).

Definition ValidateToolChainProjection (p : ToolChainProjection) : option ToolChainError :=
  if negb (existsb (String.eqb (ParseStatus p)) known_statuses) then Some ErrParseStatus
  else if exceeds (DetectionStepMask p) ToolChainKnownStepMask then Some ErrDetectionBits
  else if exceeds (EnforcementStepMask p) ToolChainKnownStepMask then Some ErrEnforcementBits
  else if exceeds (EnforcementStepMask p) (DetectionStepMask p) then Some ErrNotSubset
  else None.

(** ** The matcher *)

Definition no_matches : ToolChainMatches :=
  {| DetectedMask := 0; EnforcementSafeMask := 0;
     DetectionPredecessors := repeat ""%string 6; EnforcementPredecessors := repeat ""%string 6 |}.

Definition incomplete (e : ToolChainWindowEvent) : bool :=
  (SemanticEventID e =? "")%string || (Sequence e =? 0) || IsZero (ReceivedAt e).

Definition with_detection (i : nat) (bit : Z) (id : string) (m : ToolChainMatches) : ToolChainMatches :=
  {| DetectedMask := Z.lor (DetectedMask m) bit; EnforcementSafeMask := EnforcementSafeMask m;
     DetectionPredecessors := <[i := id]> (DetectionPredecessors m);
     EnforcementPredecessors := EnforcementPredecessors m |}.
Definition with_enforcement (i : nat) (bit : Z) (id : string) (m : ToolChainMatches) : ToolChainMatches :=
  {| DetectedMask := DetectedMask m; EnforcementSafeMask := Z.lor (EnforcementSafeMask m) bit;
     DetectionPredecessors := DetectionPredecessors m;
     EnforcementPredecessors := <[i := id]> (EnforcementPredecessors m) |}.

Definition slot (l : list string) (i : nat) : string := default ""%string (l !! i).

(** The body of the loop over the catalog, for the entry at [i]. *)
Definition match_entry (final event : ToolChainWindowEvent) (i : nat) (d : ToolChainDefinition)
    (m : ToolChainMatches) : ToolChainMatches :=
  if (u64 (Sequence final - Sequence event) >=? EventWindow d)
     || (Sub (ReceivedAt final) (ReceivedAt event) >? TimeWindow d) then m
  else
    let m :=
      if has_bit (DetectionStepMask (Projection final)) (Step2Bit d)
         && has_bit (DetectionStepMask (Projection event)) (Step1Bit d)
         && (slot (DetectionPredecessors m) i =? "")%string
      then with_detection i (ResultBit d) (SemanticEventID event) m else m in
    if has_bit (EnforcementStepMask (Projection final)) (Step2Bit d)
       && has_bit (EnforcementStepMask (Projection event)) (Step1Bit d)
       && (slot (EnforcementPredecessors m) i =? "")%string
    then with_enforcement i (ResultBit d) (SemanticEventID event) m else m.

Fixpoint match_catalog (final event : ToolChainWindowEvent) (i : nat) (defs : list ToolChainDefinition)
    (m : ToolChainMatches) : ToolChainMatches :=
  match defs with
  | [] => m
  | d :: rest => match_catalog final event (S i) rest (match_entry final event i d m)
  end.

(** The loop over the sorted window. *)
Fixpoint match_loop (final : ToolChainWindowEvent) (window : list ToolChainWindowEvent)
    (m : ToolChainMatches) : ToolChainMatches + ToolChainError :=
  match window with
  | [] => inl m
  | event :: rest =>
      if incomplete event then inr ErrIncompletePrior
      else match ValidateToolChainProjection (Projection event) with
           | Some err => inr err
           | None =>
               if (Sequence event >=? Sequence final) || After (ReceivedAt event) (ReceivedAt final)
               then match_loop final rest m
               else match_loop final rest (match_catalog final event 0 toolChainDefinitions m)
           end
  end.

(** The comparison given to [sort.Slice]. *)
Definition event_less (a b : ToolChainWindowEvent) : bool :=
  if negb (Sequence a =? Sequence b) then Sequence a <? Sequence b
  else if negb (ReceivedAt a =? ReceivedAt b) then Before (ReceivedAt a) (ReceivedAt b)
  else String.ltb (SemanticEventID a) (SemanticEventID b).

Definition MatchToolChains (sort : list ToolChainWindowEvent -> list ToolChainWindowEvent)
    (prior : list ToolChainWindowEvent) (final : ToolChainWindowEvent) : ToolChainMatches + ToolChainError :=
  if incomplete final then inr ErrIncompleteFinal
  else match ValidateToolChainProjection (Projection final) with
       | Some err => inr err
       | None => match_loop final (sort prior) no_matches
       end.

(** ** Specification *)

Definition event_ok (e : ToolChainWindowEvent) : Prop :=
  incomplete e = false /\ ValidateToolChainProjection (Projection e) = None.

(** [e] is a first step, by the given mask, of the chain [d] that [final]
    completes: earlier, within both windows, with the step bits. *)
Definition qualifies (mask : ToolChainProjection -> Z) (final : ToolChainWindowEvent)
    (d : ToolChainDefinition) (e : ToolChainWindowEvent) : bool :=
  (Sequence e <? Sequence final) && negb (After (ReceivedAt e) (ReceivedAt final))
  && (u64 (Sequence final - Sequence e) <? EventWindow d)
  && (Sub (ReceivedAt final) (ReceivedAt e) <=? TimeWindow d)
  && has_bit (mask (Projection final)) (Step2Bit d) && has_bit (mask (Projection e)) (Step1Bit d).

Definition sorting (sort : list ToolChainWindowEvent -> list ToolChainWindowEvent) : Prop :=
  forall l, sort l ≡ₚ l /\ StronglySorted (fun a b => event_less b a = false) (sort l).

(** Insertion sort, the sorting function of the examples. *)
Fixpoint insert_event (e : ToolChainWindowEvent) (l : list ToolChainWindowEvent) : list ToolChainWindowEvent :=
  match l with
  | [] => [e]
  | x :: r => if event_less x e then x :: insert_event e r else e :: l
  end.
Definition insertion_sort (l : list ToolChainWindowEvent) : list ToolChainWindowEvent :=
  foldr insert_event [] l.

(** ** Facts *)

(** What the loop knows about one chain: the predecessor and the bit of each kind. *)
Definition view (j : nat) (m : ToolChainMatches) : string * bool * (string * bool) :=
  (slot (DetectionPredecessors m) j, Z.testbit (DetectedMask m) (Z.of_nat j),
   (slot (EnforcementPredecessors m) j, Z.testbit (EnforcementSafeMask m) (Z.of_nat j))).

Definition lengths_ok (m : ToolChainMatches) : Prop :=
  length (DetectionPredecessors m) = 6%nat /\ length (EnforcementPredecessors m) = 6%nat.

Definition keep_first (hit : bool) (id : string) (v : string * bool) : string * bool :=
  if hit && (fst v =? "")%string then (id, true) else v.

Definition step_view (final e : ToolChainWindowEvent) (d : ToolChainDefinition)
    (v : string * bool * (string * bool)) : string * bool * (string * bool) :=
  if (u64 (Sequence final - Sequence e) >=? EventWindow d)
     || (Sub (ReceivedAt final) (ReceivedAt e) >? TimeWindow d) then v
  else
    (keep_first (has_bit (DetectionStepMask (Projection final)) (Step2Bit d)
                 && has_bit (DetectionStepMask (Projection e)) (Step1Bit d)) (SemanticEventID e) (fst v),
     keep_first (has_bit (EnforcementStepMask (Projection final)) (Step2Bit d)
                 && has_bit (EnforcementStepMask (Projection e)) (Step1Bit d)) (SemanticEventID e) (snd v)).

Lemma slot_insert l i j (id : string) : (i < length l)%nat ->
  slot (<[i := id]> l) j = if decide (i = j) then id else slot l j.
Proof.
  intros Hi. unfold slot. destruct (decide (i = j)) as [<-|Hne].
  - by rewrite list_lookup_insert_eq.
  - by rewrite list_lookup_insert_ne.
Qed.

Lemma testbit_lor_pow mask i j :
  Z.testbit (Z.lor mask (2 ^ Z.of_nat i)) (Z.of_nat j) =
  if decide (i = j) then true else Z.testbit mask (Z.of_nat j).
Proof.
  rewrite Z.lor_spec, Z.pow2_bits_eqb by lia.
  destruct (decide (i = j)) as [->|]; [by rewrite Z.eqb_refl, orb_true_r|].
  destruct (Z.eqb_spec (Z.of_nat i) (Z.of_nat j)); [lia|]. by rewrite orb_false_r.
Qed.

Lemma match_entry_view final e i d m j :
  lengths_ok m -> (i < 6)%nat -> ResultBit d = 2 ^ Z.of_nat i ->
  lengths_ok (match_entry final e i d m)
  /\ view j (match_entry final e i d m) = if decide (i = j) then step_view final e d (view j m) else view j m.
Proof.
  intros [H1 H2] Hi Hbit. unfold match_entry, step_view, keep_first.
  destruct (_ || _); [split; [done|by destruct (decide _)]|]. rewrite Hbit.
  set (c1 := has_bit (DetectionStepMask (Projection final)) _ && _).
  set (c2 := has_bit (EnforcementStepMask (Projection final)) _ && _). cbv zeta.
  assert (Hdet : forall m0, lengths_ok m0 ->
    lengths_ok (with_detection i (2 ^ Z.of_nat i) (SemanticEventID e) m0)
    /\ lengths_ok (with_enforcement i (2 ^ Z.of_nat i) (SemanticEventID e) m0)).
  { intros m0 [? ?]. unfold lengths_ok. simpl. by rewrite !length_insert. }
  unfold view in *. destruct (decide (i = j)) as [->|Hne].
  - destruct (c1 && _) eqn:E1; simpl; rewrite ?E1; simpl;
      (destruct (c2 && _) eqn:E2; simpl; rewrite ?E2; simpl);
      rewrite ?slot_insert, ?testbit_lor_pow, ?decide_True by (done || lia); (split; [|done]);
      repeat (apply Hdet || done).
  - destruct (c1 && _) eqn:E1; simpl;
      (destruct (c2 && _) eqn:E2; simpl);
      rewrite ?slot_insert, ?testbit_lor_pow, ?decide_False by (done || lia); (split; [|done]);
      repeat (apply Hdet || done).
Qed.

Lemma match_catalog_view final e defs : forall i m j,
  lengths_ok m -> (i + length defs <= 6)%nat ->
  (forall k d, defs !! k = Some d -> ResultBit d = 2 ^ Z.of_nat (i + k)) ->
  lengths_ok (match_catalog final e i defs m)
  /\ view j (match_catalog final e i defs m) =
     if decide (j < i)%nat then view j m
     else match defs !! (j - i)%nat with Some d => step_view final e d (view j m) | None => view j m end.
Proof.
  induction defs as [|d defs IH]; intros i m j Hm Hlen Hbits; simpl.
  { split; [done|]. by destruct (decide _). }
  simpl in Hlen. assert (Hd : ResultBit d = 2 ^ Z.of_nat i) by (rewrite (Hbits 0%nat d eq_refl); f_equal; lia).
  destruct (match_entry_view final e i d m j Hm ltac:(lia) Hd) as [Hm' Hv].
  destruct (IH (S i) (match_entry final e i d m) j Hm' ltac:(lia)) as [HL HV].
  { intros k d' Hk. rewrite (Hbits (S k) d' Hk). do 2 f_equal. lia. }
  split; [done|]. rewrite HV, Hv. destruct (decide (i = j)) as [->|Hne].
  - rewrite decide_True, decide_False, Nat.sub_diag by lia. done.
  - destruct (decide (j < i)%nat); [by rewrite decide_True by lia|].
    rewrite decide_False by lia. replace (j - i)%nat with (S (j - S i))%nat by lia. done.
Qed.

Lemma catalog_bits k d : toolChainDefinitions !! k = Some d ->
  ResultBit d = 2 ^ Z.of_nat k /\ (k < 6)%nat.
Proof. do 6 (destruct k as [|k]; [intros [= <-]; split; [reflexivity|lia]|]). done. Qed.

Definition pick (mask : ToolChainProjection -> Z) (final : ToolChainWindowEvent) (d : ToolChainDefinition)
    (w : list ToolChainWindowEvent) (v : string * bool) : string * bool :=
  if (fst v =? "")%string then
    match List.find (qualifies mask final d) w with Some e => (SemanticEventID e, true) | None => v end
  else v.

Lemma qualifies_late mask final d e :
  (Sequence e >=? Sequence final) || After (ReceivedAt e) (ReceivedAt final) = true ->
  qualifies mask final d e = false.
Proof.
  unfold qualifies. intros H. destruct (After _ _); [by rewrite andb_false_r|].
  rewrite orb_false_r, Z.geb_leb in H. apply Z.leb_le in H.
  destruct (Z.ltb_spec (Sequence e) (Sequence final)); [lia|done].
Qed.

Lemma step_view_pick final d e w v :
  SemanticEventID e <> ""%string ->
  (Sequence e >=? Sequence final) || After (ReceivedAt e) (ReceivedAt final) = false ->
  let v' := step_view final e d v in
  (pick DetectionStepMask final d w (fst v'), pick EnforcementStepMask final d w (snd v'))
  = (pick DetectionStepMask final d (e :: w) (fst v), pick EnforcementStepMask final d (e :: w) (snd v)).
Proof.
  intros Hid Hlate. apply orb_false_iff in Hlate as [Hseq Haft]. unfold step_view, pick. simpl.
  assert (Hq : forall mask, qualifies mask final d e =
    negb ((u64 (Sequence final - Sequence e) >=? EventWindow d)
          || (Sub (ReceivedAt final) (ReceivedAt e) >? TimeWindow d))
    && (has_bit (mask (Projection final)) (Step2Bit d) && has_bit (mask (Projection e)) (Step1Bit d))).
  { intros mask. unfold qualifies. rewrite Haft. rewrite Z.geb_leb in Hseq. apply Z.leb_gt in Hseq.
    destruct (Z.ltb_spec (Sequence e) (Sequence final)); [|lia]. simpl.
    rewrite negb_orb, Z.geb_leb, Z.gtb_ltb, <- Z.ltb_antisym, <- Z.leb_antisym. by rewrite !andb_assoc. }
  rewrite !Hq. destruct (_ || _); simpl; [done|]. unfold keep_first.
  apply String.eqb_neq in Hid.
  destruct v as [[s1 b1] [s2 b2]]. simpl.
  destruct (has_bit (DetectionStepMask _) _ && _), (has_bit (EnforcementStepMask _) _ && _),
    (s1 =? "")%string eqn:E1, (s2 =? "")%string eqn:E2; simpl; rewrite ?E1, ?E2, ?Hid; done.
Qed.

Lemma match_loop_view final w : forall m, Forall event_ok w -> lengths_ok m ->
  exists m', match_loop final w m = inl m' /\ lengths_ok m' /\ forall j,
    view j m' = match toolChainDefinitions !! j with
                | Some d => (pick DetectionStepMask final d w (fst (view j m)),
                             pick EnforcementStepMask final d w (snd (view j m)))
                | None => view j m
                end.
Proof.
  induction w as [|e w IH]; intros m Hw Hm; cbn [match_loop].
  { exists m. split; [done|]. split; [done|]. intros j. destruct (_ !! j); [|done].
    unfold pick. cbn [List.find]. destruct (view j m) as [[s1 b1] [s2 b2]]. simpl.
    by destruct (s1 =? "")%string, (s2 =? "")%string. }
  apply Forall_cons in Hw as [[Hinc Hval] Hw]. rewrite Hinc, Hval.
  destruct (_ || _) eqn:Hlate.
  - destruct (IH m Hw Hm) as (m' & -> & HL & HV). exists m'. split; [done|]. split; [done|].
    intros j. rewrite HV. destruct (_ !! j) as [d|]; [|done].
    unfold pick. cbn [List.find]. by rewrite !(qualifies_late _ final d e Hlate).
  - pose proof (fun j => match_catalog_view final e toolChainDefinitions 0 m j Hm ltac:(done)
      (fun k d Hk => proj1 (catalog_bits k d Hk))) as Hcat.
    destruct (IH _ Hw (proj1 (Hcat 0%nat))) as (m' & -> & HL & HV).
    exists m'. split; [done|]. split; [done|]. intros j. rewrite HV, (proj2 (Hcat j)).
    rewrite decide_False, Nat.sub_0_r by lia. destruct (toolChainDefinitions !! j) as [d|]; [|done].
    apply step_view_pick; [|done]. unfold incomplete in Hinc.
    apply orb_false_iff in Hinc as [[Hid _]%orb_false_iff _]. by apply String.eqb_neq.
Qed.

Lemma match_loop_ok final w : forall m m', match_loop final w m = inl m' -> Forall event_ok w.
Proof.
  induction w as [|e w IH]; intros m m'; simpl; [by constructor|].
  destruct (incomplete e) eqn:Hinc; [done|].
  destruct (ValidateToolChainProjection _) eqn:Hval; [done|].
  intros H. constructor; [done|]. destruct (_ || _); by eapply IH.
Qed.

Lemma view_no_matches j : view j no_matches = ((""%string, false), (""%string, false)).
Proof.
  unfold view, no_matches. cbn [DetectedMask EnforcementSafeMask DetectionPredecessors EnforcementPredecessors].
  rewrite !Z.bits_0. unfold slot. do 6 (destruct j as [|j]; [done|]). done.
Qed.

(** Events that the comparison does not separate have one identifier. *)
Lemma event_less_tie a b : event_less a b = false -> event_less b a = false ->
  SemanticEventID a = SemanticEventID b.
Proof.
  unfold event_less, Before. rewrite (Z.eqb_sym (Sequence b)), (Z.eqb_sym (ReceivedAt b)).
  destruct (Z.eqb_spec (Sequence a) (Sequence b)) as [|]; simpl; intros H1 H2; bool_facts; [|lia].
  destruct (Z.eqb_spec (ReceivedAt a) (ReceivedAt b)) as [|]; simpl in *; bool_facts; [|lia].
  unfold String.ltb in *. rewrite String.compare_antisym in H2.
  destruct (String.compare _ _) eqn:E; try done. by apply String.compare_eq_iff.
Qed.

Lemma find_sorted (f : ToolChainWindowEvent -> bool) w e :
  StronglySorted (fun a b => event_less b a = false) w -> List.find f w = Some e ->
  e ∈ w /\ f e = true /\ forall e', e' ∈ w -> f e' = true -> e' = e \/ event_less e' e = false.
Proof.
  intros Hs. induction Hs as [|a w Hs IH Ha]; simpl; [done|].
  destruct (f a) eqn:Hf.
  - intros [= ->]. split; [constructor|]. split; [done|].
    intros e' [->|He']%elem_of_cons _; [by left|right]. rewrite Forall_forall in Ha. by apply Ha.
  - intros He. destruct (IH He) as (Hin & Hfe & Hmin). split; [by constructor|]. split; [done|].
    intros e' [->|He']%elem_of_cons Hfe'; [congruence|]. by apply Hmin.
Qed.

Lemma has_bit_subset a b c : Z.ldiff a b = 0 -> has_bit a c = true -> has_bit b c = true.
Proof.
  unfold has_bit. intros Hd Ha. apply negb_true_iff, Z.eqb_neq. apply negb_true_iff, Z.eqb_neq in Ha.
  intros Hb. apply Ha. apply Z.bits_inj'. intros n Hn.
  pose proof (f_equal (fun z => Z.testbit z n) Hd) as Hdn. pose proof (f_equal (fun z => Z.testbit z n) Hb) as Hbn.
  simpl in *. rewrite Z.ldiff_spec, Z.land_spec, Z.bits_0 in *.
  by destruct (Z.testbit a n), (Z.testbit b n), (Z.testbit c n).
Qed.

Lemma enforcement_qualifies final d e : event_ok final -> event_ok e ->
  qualifies EnforcementStepMask final d e = true -> qualifies DetectionStepMask final d e = true.
Proof.
  assert (Hsub : forall p bit, ValidateToolChainProjection p = None ->
    has_bit (EnforcementStepMask p) bit = true -> has_bit (DetectionStepMask p) bit = true).
  { intros p bit Hv. apply has_bit_subset. unfold ValidateToolChainProjection, exceeds in Hv.
    repeat case_match; try done. by apply Z.eqb_eq, negb_false_iff. }
  intros [_ Hf] [_ He]. unfold qualifies. rewrite !andb_true_iff. intros [[? H1] H2]. auto.
Qed.

(** The result bits and predecessors of one kind of evidence. *)
Definition chain_results (mask : ToolChainProjection -> Z) (prior : list ToolChainWindowEvent)
    (final : ToolChainWindowEvent) (bits : Z) (predecessors : list string) : Prop :=
  forall j d, toolChainDefinitions !! j = Some d ->
    (Z.testbit bits (Z.of_nat j) = true /\ exists e, e ∈ prior /\ qualifies mask final d e = true
       /\ slot predecessors j = SemanticEventID e
       /\ forall e', e' ∈ prior -> qualifies mask final d e' = true -> e' = e \/ event_less e' e = false)
    \/ (Z.testbit bits (Z.of_nat j) = false /\ slot predecessors j = ""%string
        /\ Forall (fun e => qualifies mask final d e = false) prior).

Lemma pick_results mask final d w prior : w ≡ₚ prior ->
  StronglySorted (fun a b => event_less b a = false) w ->
  let r := pick mask final d w (""%string, false) in
  (snd r = true /\ exists e, e ∈ prior /\ qualifies mask final d e = true /\ fst r = SemanticEventID e
     /\ forall e', e' ∈ prior -> qualifies mask final d e' = true -> e' = e \/ event_less e' e = false)
  \/ (snd r = false /\ fst r = ""%string /\ Forall (fun e => qualifies mask final d e = false) prior).
Proof.
  intros Hp Hs. unfold pick. simpl. destruct (List.find _ w) as [e|] eqn:Hf; simpl.
  - left. destruct (find_sorted _ _ _ Hs Hf) as (Hin & Hq & Hmin). split; [done|]. exists e.
    rewrite <- Hp. repeat split; try done. intros e' He'. rewrite <- Hp in He'. by apply Hmin.
  - right. split; [done|]. split; [done|]. rewrite <- Hp. rewrite Forall_forall. intros e He.
    apply (find_none _ _ Hf). by apply list_elem_of_In.
Qed.

Lemma MatchToolChains_inl sort prior final : sorting sort ->
  (event_ok final /\ Forall event_ok prior <-> exists m, MatchToolChains sort prior final = inl m).
Proof.
  intros Hsort. destruct (Hsort prior) as [Hp _]. unfold MatchToolChains, event_ok.
  destruct (incomplete final); [split; [by intros [[? _] _]|by intros [? ?]]|].
  destruct (ValidateToolChainProjection _); [split; [by intros [[_ ?] _]|by intros [? ?]]|].
  split.
  - intros [_ Hprior]. rewrite <- Hp in Hprior.
    destruct (match_loop_view final (sort prior) no_matches Hprior) as (m & Hm & _); [done|by exists m].
  - intros [m Hm]. split; [done|]. rewrite <- Hp. by eapply match_loop_ok.
Qed.

Lemma MatchToolChains_view sort prior final m : sorting sort -> MatchToolChains sort prior final = inl m ->
  lengths_ok m /\ forall j,
  view j m = match toolChainDefinitions !! j with
             | Some d => (pick DetectionStepMask final d (sort prior) (""%string, false),
                          pick EnforcementStepMask final d (sort prior) (""%string, false))
             | None => ((""%string, false), (""%string, false))
             end.
Proof.
  intros Hsort. unfold MatchToolChains. destruct (incomplete final); [done|].
  destruct (ValidateToolChainProjection _); [done|]. intros Hm.
  destruct (match_loop_view final (sort prior) no_matches) as (m' & Hm' & HL & HV);
    [by eapply match_loop_ok|done|].
  rewrite Hm in Hm'. injection Hm' as <-. split; [done|]. intros j. rewrite HV, view_no_matches. done.
Qed.

(** ** Properties *)

(** C37: the matcher is exact.  It answers if and only if the final event and all
    prior events are complete and valid.  Then, for every chain, its detection
    bit is set exactly when some prior event is a first step within both
    windows, and its predecessor is the earliest such event in the order of
    sequence, time and identifier; the same for the enforcement evidence; and
    every enforcement bit is also a detection bit. *)
Theorem MatchToolChains_exact sort prior final :
  sorting sort ->
  (event_ok final /\ Forall event_ok prior <-> exists m, MatchToolChains sort prior final = inl m)
  /\ forall m, MatchToolChains sort prior final = inl m ->
     chain_results DetectionStepMask prior final (DetectedMask m) (DetectionPredecessors m)
     /\ chain_results EnforcementStepMask prior final (EnforcementSafeMask m) (EnforcementPredecessors m)
     /\ forall j : nat, Z.testbit (EnforcementSafeMask m) (Z.of_nat j) = true ->
        Z.testbit (DetectedMask m) (Z.of_nat j) = true.
Proof.
  intros Hsort. split; [by apply MatchToolChains_inl|]. intros m Hm.
  destruct (proj2 (MatchToolChains_inl sort prior final Hsort) (ex_intro _ m Hm)) as [Hf Hprior].
  destruct (MatchToolChains_view _ _ _ _ Hsort Hm) as [_ HV]. destruct (Hsort prior) as [Hp Hs].
  assert (Hres : forall mask j d, toolChainDefinitions !! j = Some d -> _)
    by exact (fun mask j d _ => pick_results mask final d (sort prior) prior Hp Hs).
  assert (Hdet : chain_results DetectionStepMask prior final (DetectedMask m) (DetectionPredecessors m)).
  { intros j d Hd. specialize (HV j). rewrite Hd in HV. injection HV as Hdet Henf.
    specialize (Hres DetectionStepMask j d Hd). cbv zeta in Hres. rewrite <- Hdet in Hres. exact Hres. }
  assert (Henf : chain_results EnforcementStepMask prior final (EnforcementSafeMask m) (EnforcementPredecessors m)).
  { intros j d Hd. specialize (HV j). rewrite Hd in HV. injection HV as Hd' Henf.
    specialize (Hres EnforcementStepMask j d Hd). cbv zeta in Hres. rewrite <- Henf in Hres. exact Hres. }
  split; [done|]. split; [done|]. intros j Hj. destruct (toolChainDefinitions !! j) as [d|] eqn:Hd.
  - destruct (Henf j d Hd) as [(_ & e & He & Hq & _)|(? & _)]; [|congruence].
    destruct (Hdet j d Hd) as [[? _]|(_ & _ & Hno)]; [done|].
    rewrite Forall_forall in Hprior, Hno. specialize (Hno e He).
    rewrite enforcement_qualifies in Hno; [done|done|by apply Hprior|done].
  - specialize (HV j). rewrite Hd in HV. injection HV as _ _ _ HV. congruence.
Qed.

(** The result does not depend on the order of the prior events nor on the
    choices of [sort.Slice] among equal elements: two sorting functions give the
    same matches on permuted windows, or an error on both. *)
Theorem MatchToolChains_order_irrelevant sort1 sort2 prior1 prior2 final m :
  sorting sort1 -> sorting sort2 -> prior1 ≡ₚ prior2 ->
  MatchToolChains sort1 prior1 final = inl m -> MatchToolChains sort2 prior2 final = inl m.
Proof.
  intros Hs1 Hs2 Hp Hm1.
  destruct (proj2 (MatchToolChains_inl sort1 prior1 final Hs1) (ex_intro _ m Hm1)) as [Hf Hpr].
  rewrite Hp in Hpr. destruct (proj1 (MatchToolChains_inl sort2 prior2 final Hs2) (conj Hf Hpr)) as [m2 Hm2].
  rewrite Hm2. f_equal. symmetry.
  destruct (MatchToolChains_view _ _ _ _ Hs1 Hm1) as [[L1 L2] V1].
  destruct (MatchToolChains_view _ _ _ _ Hs2 Hm2) as [[L3 L4] V2].
  assert (Hpick : forall mask d, pick mask final d (sort1 prior1) (""%string, false)
                                 = pick mask final d (sort2 prior2) (""%string, false)).
  { intros mask d. destruct (Hs1 prior1) as [P1 S1], (Hs2 prior2) as [P2 S2].
    pose proof (transitivity P2 (symmetry Hp)) as P2'. clear P2. rename P2' into P2.
    destruct (pick_results mask final d _ _ P1 S1) as [(B1 & e1 & I1 & Q1 & E1 & M1)|(B1 & E1 & N1)],
      (pick_results mask final d _ _ P2 S2) as [(B2 & e2 & I2 & Q2 & E2 & M2)|(B2 & E2 & N2)];
      rewrite ?Forall_forall in *; apply injective_projections; rewrite ?E1, ?E2, ?B1, ?B2; try done;
      try (by rewrite N2 in Q1); try (by rewrite N1 in Q2).
    destruct (M1 e2 I2 Q2) as [->|]; [done|].
    destruct (M2 e1 I1 Q1) as [->|]; [done|]. by apply event_less_tie. }
  assert (HV : forall j, view j m = view j m2).
  { intros j. rewrite V1, V2. destruct (_ !! j); [by rewrite !Hpick|done]. }
  assert (Hbits : forall a b, (forall j : nat, Z.testbit a (Z.of_nat j) = Z.testbit b (Z.of_nat j)) -> a = b).
  { intros a b H. apply Z.bits_inj'. intros n Hn. rewrite <- (Z2Nat.id n) by done. apply H. }
  assert (Hslots : forall l k, length l = 6%nat -> length k = 6%nat -> (forall j, slot l j = slot k j) -> l = k).
  { intros l k Hl Hk H. apply list_eq_same_length with 6%nat; try done. intros j x y _ Hx Hy.
    specialize (H j). unfold slot in H. by rewrite Hx, Hy in H. }
  destruct m as [a1 b1 c1 d1], m2 as [a2 b2 c2 d2]. f_equal;
    (apply Hbits || apply Hslots); try done; intros j; specialize (HV j); by injection HV.
Qed.

(** ** Fingerprints *)

(** [fmt.Sprintf("%04x", m)] of a [uint16]. *)
Definition hex4 (m : Z) : string :=
  String (hex_digit (m / 4096 mod 16)) (String (hex_digit (m / 256 mod 16))
    (String (hex_digit (m / 16 mod 16)) (String (hex_digit (m mod 16)) ""))).

(** [binary.BigEndian.PutUint32] *)
Definition be32 (n : Z) : string :=
  let b k := ascii_of_nat (Z.to_nat (n / 2 ^ k mod 256)) in
  String (b 24) (String (b 16) (String (b 8) (String (b 0) ""))).

(** What is written to the hash: each part after its length. *)
Fixpoint digest_input (parts : list string) : string :=
  match parts with
  | [] => ""
  | part :: rest => be32 (u32 (slen part)) ++ part ++ digest_input rest
  end.

(** [time.Duration.String] of a whole number of seconds. *)
Definition duration_string (d : Duration) : string :=
  let s := d / Second in
  let hours := s / 3600 in
  let minutes := s / 60 mod 60 in
  let seconds := s mod 60 in
  if 0 <? hours then pretty hours ++ "h" ++ pretty minutes ++ "m" ++ pretty seconds ++ "s"
  else if 0 <? minutes then pretty minutes ++ "m" ++ pretty seconds ++ "s"
  else pretty seconds ++ "s".

Section Fingerprints.
Context {U : GoUnicode} (sha256 : string -> string).

Definition toolChainDigest (parts : list string) : string := hex_encode (sha256 (digest_input parts)).

Definition ToolChainProjectionFingerprint (p : ToolChainProjection) : string + ToolChainError :=
match ValidateToolChainProjection p with
| Some err => inr err
| None => inl (toolChainDigest ["defenseclaw.tool-chain.projection.v1"%string; ParseStatus p;
                                hex4 (DetectionStepMask p); hex4 (EnforcementStepMask p)])
end.

Definition toolChainBaseFingerprint (d : ToolChainDefinition) (relevantOwnerDigest : string) : string :=
toolChainDigest ["defenseclaw.tool-chain.catalog.v1"; "actionfacts-v1"; "enforcement-proof-v1";
  "owner-local-fallback-v1"; "external-egress-v1"; "n13-lateral-exec-proof-v1";
  "h18-system-root-proof-v1"; d_ID d; d_Version d; d_Revision d; d_Severity d;
  pretty (Step1Bit d); pretty (Step2Bit d); pretty (ResultBit d); pretty (EventWindow d);
  duration_string (TimeWindow d); relevantOwnerDigest]%string.

Definition valid_digest (s : string) : bool :=
(slen s =? 64) && (s =? ToLower s)%string && hex_decodes s.

Definition ToolChainRulesetFingerprint (relevantOwnerDigest : string) : string + ToolChainError :=
if negb (valid_digest relevantOwnerDigest) then inr ErrOwnerDigest
else inl (toolChainDigest ("defenseclaw.tool-chain.ruleset.v1"%string
            :: map (fun d => toolChainBaseFingerprint d relevantOwnerDigest) toolChainDefinitions)).

Definition ToolChainFingerprint (chainID rulesetFingerprint : string) : string + ToolChainError :=
match ToolChainDefinitionByID chainID with
| None => inr ErrUnknownChain
| Some d =>
    if negb (valid_digest rulesetFingerprint) then inr ErrRulesetFingerprint
    else inl (toolChainDigest ["defenseclaw.tool-chain.definition.v1"%string;
                               toolChainBaseFingerprint d ""; rulesetFingerprint])
end.

(** *** The digest input is injective *)

Definition collision : Prop := exists x y, x <> y /\ sha256 x = sha256 y.

Lemma be32_inj n m : 0 <= n < two32 -> 0 <= m < two32 -> be32 n = be32 m -> n = m.
Proof.
unfold be32, two32. intros Hn Hm. intros [= H3 H2 H1 H0].
assert (Hb : forall z, (Z.to_nat (z mod 256) < 256)%nat).
{ intros z. pose proof (Z.mod_pos_bound z 256 ltac:(lia)). lia. }
apply ascii_byte_inj in H0, H1, H2, H3; try apply Hb.
assert (Hz : forall a b, Z.to_nat (a mod 256) = Z.to_nat (b mod 256) -> a mod 256 = b mod 256).
{ intros a b. pose proof (Z.mod_pos_bound a 256 ltac:(lia)). pose proof (Z.mod_pos_bound b 256 ltac:(lia)). lia. }
apply Hz in H0, H1, H2, H3. rewrite !Z.div_1_r in H0.
change (2 ^ 24) with (256 * 256 * 256) in *. change (2 ^ 16) with (256 * 256) in *. change (2 ^ 8) with 256 in *.
rewrite <- !Z.div_div in * by lia.
pose proof (Z.div_mod n 256 ltac:(lia)). pose proof (Z.div_mod (n / 256) 256 ltac:(lia)).
pose proof (Z.div_mod (n / 256 / 256) 256 ltac:(lia)).
pose proof (Z.div_mod m 256 ltac:(lia)). pose proof (Z.div_mod (m / 256) 256 ltac:(lia)).
pose proof (Z.div_mod (m / 256 / 256) 256 ltac:(lia)).
assert (n / 256 / 256 / 256 < 256) by (rewrite !Z.div_div by lia; apply Z.div_lt_upper_bound; lia).
assert (m / 256 / 256 / 256 < 256) by (rewrite !Z.div_div by lia; apply Z.div_lt_upper_bound; lia).
rewrite (Z.mod_small (n / 256 / 256 / 256)), (Z.mod_small (m / 256 / 256 / 256)) in H3
  by (split; [repeat apply Z.div_pos; lia|lia]).
lia.
Qed.

Lemma digest_input_inj ps qs :
Forall (fun p => slen p < two32) ps -> Forall (fun p => slen p < two32) qs ->
digest_input ps = digest_input qs -> ps = qs.
Proof.
intros Hp. revert qs. induction Hp as [|p ps Hlen Hp IH]; intros [|q qs] Hq; simpl; try done.
apply Forall_cons in Hq as [Hlq Hq]. intros H.
apply app_eq_length in H as [Hl H]; [|done].
pose proof (slen_nonneg p). pose proof (slen_nonneg q).
assert (Hs : slen p = slen q).
{ unfold u32 in Hl. rewrite !Z.mod_small in Hl by (unfold two32 in *; lia). apply be32_inj in Hl; lia. }
unfold slen in Hs. apply app_eq_length in H as [-> H]; [|lia]. f_equal. by apply IH.
Qed.

Lemma toolChainDigest_binds ps qs :
Forall (fun p => slen p < two32) ps -> Forall (fun p => slen p < two32) qs ->
toolChainDigest ps = toolChainDigest qs -> ps = qs \/ collision.
Proof.
intros Hp Hq H. apply hex_encode_inj in H.
destruct (decide (digest_input ps = digest_input qs)) as [Heq|Hne].
- left. by apply digest_input_inj.
- right. by exists (digest_input ps), (digest_input qs).
Qed.

Lemma hex4_inj a b : 0 <= a < 65536 -> 0 <= b < 65536 -> hex4 a = hex4 b -> a = b.
Proof.
intros Ha Hb H. injection H as H3 H2 H1 H0.
apply hex_digit_inj in H0, H1, H2, H3; try (apply Z.mod_pos_bound; lia).
change 4096 with (16 * 16 * 16) in *. change 256 with (16 * 16) in *.
rewrite <- !Z.div_div in * by lia.
pose proof (Z.div_mod a 16 ltac:(lia)). pose proof (Z.div_mod (a / 16) 16 ltac:(lia)).
pose proof (Z.div_mod (a / 16 / 16) 16 ltac:(lia)).
pose proof (Z.div_mod b 16 ltac:(lia)). pose proof (Z.div_mod (b / 16) 16 ltac:(lia)).
pose proof (Z.div_mod (b / 16 / 16) 16 ltac:(lia)).
assert (a / 16 / 16 / 16 < 16) by (rewrite !Z.div_div by lia; apply Z.div_lt_upper_bound; lia).
assert (b / 16 / 16 / 16 < 16) by (rewrite !Z.div_div by lia; apply Z.div_lt_upper_bound; lia).
rewrite (Z.mod_small (a / 16 / 16 / 16)), (Z.mod_small (b / 16 / 16 / 16)) in H3
  by (split; [repeat apply Z.div_pos; lia|lia]).
lia.
Qed.

Definition base_parts (d : ToolChainDefinition) : list string :=
["defenseclaw.tool-chain.catalog.v1"; "actionfacts-v1"; "enforcement-proof-v1";
  "owner-local-fallback-v1"; "external-egress-v1"; "n13-lateral-exec-proof-v1";
  "h18-system-root-proof-v1"; d_ID d; d_Version d; d_Revision d; d_Severity d;
  pretty (Step1Bit d); pretty (Step2Bit d); pretty (ResultBit d); pretty (EventWindow d);
  duration_string (TimeWindow d); ""]%string.

Lemma catalog_parts_short :
Forall (fun d => Forall (fun p => slen p < two32) (base_parts d)) toolChainDefinitions.
Proof. repeat constructor. Qed.

Lemma ByID_spec id d : ToolChainDefinitionByID id = Some d -> d ∈ toolChainDefinitions /\ d_ID d = id.
Proof. intros [Hin Heq%String.eqb_eq]%find_some. split; [by apply list_elem_of_In|done]. Qed.

(** A fingerprint binds what it is computed from.  Two projections with the
  same fingerprint are equal, and two chain fingerprints that agree name the
  same chain under the same ruleset, unless two inputs of the hash function
  collide, which the proof exhibits. *)
Theorem fingerprints_bind :
(forall x, slen (sha256 x) = 32) ->
(forall p q f, 0 <= DetectionStepMask p < 65536 -> 0 <= EnforcementStepMask p < 65536 ->
   0 <= DetectionStepMask q < 65536 -> 0 <= EnforcementStepMask q < 65536 ->
   ToolChainProjectionFingerprint p = inl f -> ToolChainProjectionFingerprint q = inl f ->
   p = q \/ collision)
/\ (forall c1 r1 c2 r2 f, ToolChainFingerprint c1 r1 = inl f -> ToolChainFingerprint c2 r2 = inl f ->
   (c1 = c2 /\ r1 = r2) \/ collision).
Proof.
intros Hsha. split.
- intros p q f Hp1 Hp2 Hq1 Hq2. unfold ToolChainProjectionFingerprint, ValidateToolChainProjection.
  destruct (negb (existsb (String.eqb (ParseStatus p)) _)) eqn:Hsp; [done|].
  destruct (negb (existsb (String.eqb (ParseStatus q)) _)) eqn:Hsq; [repeat case_match; done|].
  assert (Hshort : forall s, negb (existsb (String.eqb s) known_statuses) = false -> slen s < two32).
  { intros s Hs. apply negb_false_iff, existsb_exists in Hs as (x & Hx & ->%String.eqb_eq).
    unfold known_statuses in Hx. simpl in Hx. repeat (destruct Hx as [<-|Hx]; [done|]). done. }
  apply Hshort in Hsp, Hsq. clear Hshort.
  assert (Hparts : forall r, slen (ParseStatus r) < two32 -> Forall (fun x => slen x < two32)
    ["defenseclaw.tool-chain.projection.v1"%string; ParseStatus r; hex4 (DetectionStepMask r);
     hex4 (EnforcementStepMask r)]) by (intros r Hr; repeat constructor; done).
  repeat case_match; intros; simplify_eq.
  match goal with H : toolChainDigest _ = toolChainDigest _ |- _ => apply toolChainDigest_binds in H as [Heq|?] end;
    [|by right|by apply Hparts|by apply Hparts].
  left. pose proof (f_equal (fun l => List.nth 1 l ""%string) Heq) as Hs.
  pose proof (f_equal (fun l => List.nth 2 l ""%string) Heq) as Hd.
  pose proof (f_equal (fun l => List.nth 3 l ""%string) Heq) as He. cbn [List.nth] in Hs, Hd, He.
  apply hex4_inj in Hd, He; try done. destruct p, q. simpl in *. by subst.
- intros c1 r1 c2 r2 f. unfold ToolChainFingerprint.
  destruct (ToolChainDefinitionByID c1) as [d1|] eqn:H1; [|done].
  destruct (ToolChainDefinitionByID c2) as [d2|] eqn:H2; [|by destruct (negb _)].
  apply ByID_spec in H1 as [I1 <-], H2 as [I2 <-].
  destruct (valid_digest r1) eqn:V1, (valid_digest r2) eqn:V2; simpl; try done. intros [= <-] [= H].
  assert (Hr : forall r, valid_digest r = true -> slen r < two32).
  { unfold valid_digest. intros r [[Hl%Z.eqb_eq _]%andb_true_iff _]%andb_true_iff. by rewrite Hl. }
  assert (Hb : forall d, slen (toolChainBaseFingerprint d "") < two32).
  { intros d. unfold toolChainBaseFingerprint, toolChainDigest. by rewrite hex_encode_length, Hsha. }
  apply toolChainDigest_binds in H as [H|?]; [|by right|..]; try (repeat constructor; by auto).
  injection H as Hbase ->.
  pose proof catalog_parts_short as Hcat. rewrite Forall_forall in Hcat.
  apply (toolChainDigest_binds (base_parts d2) (base_parts d1)) in Hbase as [Hbase|?];
    [|by right|by apply Hcat|by apply Hcat].
  left. split; [|done]. unfold base_parts in Hbase. by injection Hbase.
Qed.
End Fingerprints.

(** ** Witnesses *)

Lemma insert_event_perm e l : insert_event e l ≡ₚ e :: l.
Proof.
  induction l as [|x l IH]; simpl; [done|]. destruct (event_less x e); [|done].
  rewrite IH. by constructor.
Qed.

Lemma string_compare_trans a : forall b c,
  String.compare a b <> Gt -> String.compare b c <> Gt -> String.compare a c <> Gt.
Proof.
  induction a as [|x a IH]; intros [|y b] [|z c]; simpl; try done.
  unfold Ascii.compare.
  destruct (N.compare_spec (N_of_ascii x) (N_of_ascii y)), (N.compare_spec (N_of_ascii y) (N_of_ascii z)),
    (N.compare_spec (N_of_ascii x) (N_of_ascii z)); try done; try lia. apply IH.
Qed.

Lemma string_ltb_compare a b : String.ltb a b = false <-> String.compare b a <> Gt.
Proof. unfold String.ltb. rewrite (String.compare_antisym b a). by destruct (String.compare a b). Qed.

Lemma event_less_false a b : event_less b a = false <->
  Sequence a < Sequence b \/ Sequence a = Sequence b /\
  (ReceivedAt a < ReceivedAt b \/ ReceivedAt a = ReceivedAt b
     /\ String.compare (SemanticEventID a) (SemanticEventID b) <> Gt).
Proof.
  unfold event_less, Before.
  destruct (Z.eqb_spec (Sequence b) (Sequence a)); simpl; [|rewrite Z.ltb_ge; lia].
  destruct (Z.eqb_spec (ReceivedAt b) (ReceivedAt a)); simpl; [|rewrite Z.ltb_ge; lia].
  rewrite string_ltb_compare. intuition lia.
Qed.

Lemma event_le_trans a b c : event_less b a = false -> event_less c b = false -> event_less c a = false.
Proof.
  rewrite !event_less_false.
  intros [?|[? [?|[? H1]]]] [?|[? [?|[? H2]]]]; try (left; lia); right; (split; [lia|]); try (left; lia).
  right. split; [lia|]. by eapply string_compare_trans.
Qed.

Lemma event_less_asym a b : event_less a b = true -> event_less b a = false.
Proof.
  rewrite event_less_false. unfold event_less, Before.
  destruct (Z.eqb_spec (Sequence a) (Sequence b)); simpl; [|rewrite Z.ltb_lt; lia].
  destruct (Z.eqb_spec (ReceivedAt a) (ReceivedAt b)); simpl; [|rewrite Z.ltb_lt; lia].
  unfold String.ltb. intros H. right. split; [done|]. right. split; [done|]. by destruct (String.compare _ _).
Qed.

Lemma insertion_sort_sorting : sorting insertion_sort.
Proof.
  intros l. induction l as [|e l [IHp IHs]]; simpl; [split; constructor|]. split.
  - rewrite insert_event_perm. by constructor.
  - revert IHs. clear IHp. generalize (insertion_sort l). clear l. intros l Hs.
    induction Hs as [|x l Hs IH Hx]; simpl; [repeat constructor|].
    destruct (event_less x e) eqn:He.
    + constructor; [done|]. rewrite insert_event_perm. constructor; [by apply event_less_asym|done].
    + constructor; [by constructor|]. constructor; [done|].
      eapply Forall_impl; [exact Hx|]. intros y Hy. by eapply event_le_trans.
Qed.

Definition demo_event (id : string) (seq t det enf : Z) : ToolChainWindowEvent :=
  {| SemanticEventID := id; Sequence := seq; ReceivedAt := t;
     Projection := {| ParseStatus := "complete"; DetectionStepMask := det; EnforcementStepMask := enf |} |}.

(** A secret read (bit 8) is followed by an external egress (bit 9); only the
    later read is enforcement evidence. *)
Definition demo_prior : list ToolChainWindowEvent :=
  [demo_event "e3" 3 30 256 256; demo_event "e1" 1 10 256 0]%string.
Definition demo_final : ToolChainWindowEvent := demo_event "e5" 5 50 512 512.

Lemma MatchToolChains_exact_witness :
  MatchToolChains insertion_sort demo_prior demo_final = inl
    {| DetectedMask := 16; EnforcementSafeMask := 16;
       DetectionPredecessors := [""; ""; ""; ""; "e1"; ""]%string;
       EnforcementPredecessors := [""; ""; ""; ""; "e3"; ""]%string |}
  /\ chain_results DetectionStepMask demo_prior demo_final 16 [""; ""; ""; ""; "e1"; ""]%string.
Proof.
  split; [vm_compute; reflexivity|].
  refine (proj1 (proj2 (MatchToolChains_exact insertion_sort demo_prior demo_final insertion_sort_sorting)
    {| DetectedMask := 16; EnforcementSafeMask := 16;
       DetectionPredecessors := [""; ""; ""; ""; "e1"; ""]%string;
       EnforcementPredecessors := [""; ""; ""; ""; "e3"; ""]%string |} _)).
  vm_compute. reflexivity.
Defined.

Lemma MatchToolChains_order_irrelevant_witness :
  exists m, MatchToolChains insertion_sort demo_prior demo_final = inl m
  /\ MatchToolChains insertion_sort (reverse demo_prior) demo_final = inl m.
Proof.
  eexists. split; [vm_compute; reflexivity|].
  apply (MatchToolChains_order_irrelevant insertion_sort insertion_sort demo_prior);
    [apply insertion_sort_sorting|apply insertion_sort_sorting|symmetry; apply reverse_Permutation|].
  vm_compute. reflexivity.
Defined.

(** A stand-in for the hash function: 32 bytes that start with the first byte
    of the input. *)
Definition demo_sha (s : string) : string :=
  String (match s with EmptyString => "0"%char | String c _ => c end) "...............................".

Lemma fingerprints_bind_witness :
  ToolChainFingerprint (U := ascii_only) demo_sha "chain.secret_read_then_egress"
    "00112233445566778899aabbccddeeff00112233445566778899aabbccddeeff"
  = inl (hex_encode (String (ascii_of_nat 0) "..............................."))
  /\ forall p q f, 0 <= DetectionStepMask p < 65536 -> 0 <= EnforcementStepMask p < 65536 ->
     0 <= DetectionStepMask q < 65536 -> 0 <= EnforcementStepMask q < 65536 ->
     ToolChainProjectionFingerprint demo_sha p = inl f -> ToolChainProjectionFingerprint demo_sha q = inl f ->
     p = q \/ collision demo_sha.
Proof.
  split; [vm_compute; reflexivity|].
  refine (proj1 (fingerprints_bind (U := ascii_only) demo_sha _)). intros x. reflexivity.
Defined.

Example catalog_masks :
  map (fun d => (Step1Bit d, Step2Bit d, ResultBit d)) toolChainDefinitions
  = [(1, 2, 1); (4, 8, 2); (16, 32, 4); (64, 128, 8); (256, 512, 16); (1024, 2048, 32)].
Proof. reflexivity. Qed.
