(* ===== verification/VerdictCache.v ===== *)
(** * The verdict cache (internal/guardrail/verdict_cache.go)

    The cache of judge verdicts as a machine: a label is one locked call, with
    the clock readings and the victim of Go's random map iteration chosen by
    the environment.  The methods of a nil cache do nothing and are left out.
    SHA-256 is a parameter of the key. *)
From stdpp Require Import base list gmap strings pretty.
From Stdlib Require Import ZArith Lia Ascii.
From S2P Require Import Prelude GoStrings.

Local Open Scope Z_scope.

Record VerdictSnapshot := {
  Action : string;
  v_Severity : string;
  v_Reason : string;
  Findings : list string;
  EntityCount : Z;
  v_Scanner : string;
  ScannerSources : list string;
  JudgeFailed : bool;
}.

Definition defaultVerdictCacheMaxEntries : Z := 4096.

Record cacheEntry := {
  until : Time;
  e_generation : Z;
  verdict : VerdictSnapshot;
}.

Record VerdictCache := {
  ttl : Duration;
  maxEntries : Z;
  generation : Z;
  byKey : gmap string cacheEntry;
}.

(** ** Operations *)

Definition NewVerdictCache (t : Duration) : VerdictCache :=
  {| ttl := if t <=? 0 then 30 * Second else t; maxEntries := defaultVerdictCacheMaxEntries;
     generation := 0; byKey := ∅ |}.

Definition SetMaxEntries (n : Z) (c : VerdictCache) : VerdictCache :=
  {| ttl := ttl c; maxEntries := if n <=? 0 then defaultVerdictCacheMaxEntries else n;
     generation := generation c; byKey := byKey c |}.

Definition Invalidate (c : VerdictCache) : VerdictCache :=
  {| ttl := ttl c; maxEntries := maxEntries c; generation := u64 (generation c + 1); byKey := byKey c |}.

Definition with_entries (m : gmap string cacheEntry) (c : VerdictCache) : VerdictCache :=
  {| ttl := ttl c; maxEntries := maxEntries c; generation := generation c; byKey := m |}.

(** [Duration.Round(time.Second)] *)
Definition round_second (d : Duration) : Duration :=
  let r := d mod Second in
  if r + r <? Second then d - r
  else if d + (Second - r) >? int_max then int_max else d + (Second - r).

Definition TTLBucket (t : Duration) : string :=
  if t <=? 0 then "default"
  else if t <? Second then (pretty (t / Millisecond) ++ "ms")%string
  else (pretty (round_second t / Second) ++ "s")%string.

Definition verdictAction (v : option VerdictSnapshot) : string :=
  match v with
  | None => "none"
  | Some v => if JudgeFailed v then "error" else Action v
  end.

Definition cacheKey (sha256 : string -> string) (kind model direction content : string) : string :=
  (kind ++ ":" ++ hex_encode (sha256 (kind ++ NUL ++ model ++ NUL ++ direction ++ NUL ++ content)))%string.

Definition fresh (c : VerdictCache) (now : Time) (e : cacheEntry) : bool :=
  (e_generation e =? generation c) && Before now (until e).

(** [Get] with its key; the answer is what the hit or miss hook sees. *)
Definition Get (now : Time) (key : string) (c : VerdictCache) : VerdictCache * option VerdictSnapshot :=
  match byKey c !! key with
  | Some e => if fresh c now e then (c, Some (verdict e)) else (with_entries (delete key (byKey c)) c, None)
  | None => (c, None)
  end.

Definition size_of (m : gmap string cacheEntry) : Z := Z.of_nat (size m).

(** [None] when the victim is not a key that the iteration could have met. *)
Definition evictIfFullLocked (now : Time) (victim newKey : string) (c : VerdictCache) : option VerdictCache :=
  if (maxEntries c <=? 0) || (size_of (byKey c) <? maxEntries c) then Some c
  else if bool_decide (is_Some (byKey c !! newKey)) then Some c
  else
    let swept := filter (fun ke => fresh c now (snd ke) = true) (byKey c) in
    if size_of swept <? maxEntries c then Some (with_entries swept c)
    else if bool_decide (is_Some (swept !! victim)) then Some (with_entries (delete victim swept) c)
    else None.

Definition Put (now_evict now : Time) (victim key : string) (v : VerdictSnapshot) (c : VerdictCache)
    : option VerdictCache :=
  match evictIfFullLocked now_evict victim key c with
  | None => None
  | Some c =>
      Some (with_entries (<[key := {| until := now + ttl c; e_generation := generation c; verdict := v |}]>
              (byKey c)) c)
  end.

(** ** The machine *)

Inductive cache_label :=
| LGet (now : Time) (key : string)
| LPut (now_evict now : Time) (victim key : string) (v : VerdictSnapshot)
| LInvalidate
| LSetMax (n : Z).

Inductive cache_event :=
| EvHit (key : string) (v : VerdictSnapshot)
| EvMiss (key : string)
| EvPut (key : string) (v : VerdictSnapshot) (now : Time)
| EvInvalidate.

Definition cache_step (l : cache_label) (c : VerdictCache) : option (VerdictCache * list cache_event) :=
  match l with
  | LGet now key =>
      let (c', r) := Get now key c in
      Some (c', [match r with Some v => EvHit key v | None => EvMiss key end])
  | LPut now_evict now victim key v =>
      match Put now_evict now victim key v c with
      | None => None
      | Some c' => Some (c', [EvPut key v now])
      end
  | LInvalidate => Some (Invalidate c, [EvInvalidate])
  | LSetMax n => Some (SetMaxEntries n c, [])
  end.

(** ** Facts *)

Definition invalidations (tr : list cache_event) : Z :=
  sumZ (fun e => match e with EvInvalidate => 1 | _ => 0 end) tr.

Definition puts_key (key : string) (e : cache_event) : Prop :=
  match e with EvPut k _ _ => k = key | _ => False end.

(** The last [Put] of the key stored this entry. *)
Definition stored (t : Duration) (tr : list cache_event) (key : string) (e : cacheEntry) : Prop :=
  exists tr1 now tr2, tr = tr1 ++ EvPut key (verdict e) now :: tr2
    /\ Forall (fun ev => ~ puts_key key ev) tr2
    /\ until e = now + t /\ e_generation e = u64 (invalidations tr1).

Record cache_ok (t : Duration) (c : VerdictCache) (tr : list cache_event) : Prop := {
  ck_ttl : ttl c = t;
  ck_generation : generation c = u64 (invalidations tr);
  ck_entries key e : byKey c !! key = Some e -> stored t tr key e;
}.

Lemma invalidations_nonneg tr : 0 <= invalidations tr.
Proof. apply sumZ_nonneg. by intros []. Qed.

Lemma stored_more t tr es key e :
  stored t tr key e -> Forall (fun ev => ~ puts_key key ev) es -> stored t (tr ++ es) key e.
Proof.
  intros (tr1 & now & tr2 & -> & Hno & Hu & Hg) Hes. exists tr1, now, (tr2 ++ es).
  rewrite <- (assoc_L (++)). split; [done|]. split; [by apply Forall_app|done].
Qed.

Lemma evict_spec now victim key c c' : evictIfFullLocked now victim key c = Some c' ->
  ttl c' = ttl c /\ generation c' = generation c /\ maxEntries c' = maxEntries c /\ byKey c' ⊆ byKey c
  /\ (0 < maxEntries c -> size_of (byKey c) < maxEntries c \/ is_Some (byKey c' !! key)
      \/ size_of (byKey c') < maxEntries c \/ size_of (byKey c') + 1 <= size_of (byKey c)).
Proof.
  unfold evictIfFullLocked. destruct (_ || _) eqn:Hfull.
  { intros [= <-]. repeat split; try done. intros Hm. apply orb_true_iff in Hfull as [?|?]; bool_facts; auto; lia. }
  destruct (bool_decide_reflect (is_Some (byKey c !! key))) as [Hk|Hk].
  { intros [= <-]. repeat split; try done. auto. }
  set (swept := filter _ (byKey c)). assert (Hsw : swept ⊆ byKey c) by apply map_filter_subseteq.
  destruct (Z.ltb_spec (size_of swept) (maxEntries c)).
  { intros [= <-]. repeat split; try done. auto. }
  destruct (bool_decide_reflect (is_Some (swept !! victim))) as [[e He]|]; [|done].
  intros [= <-]. repeat split; try done; simpl.
  - etrans; [apply delete_subseteq|done].
  - intros _. right. right. right. unfold size_of in *.
    assert (Hd : size (delete victim swept) = pred (size swept)) by (apply map_size_delete_Some; by eexists).
    assert (size swept <= size (byKey c))%nat by by apply map_subseteq_size.
    assert (size swept <> 0)%nat.
    { intros Hz%map_size_empty_inv. by rewrite Hz, lookup_empty in He. }
    lia.
Qed.

Lemma cache_step_ok t l c c' tr es :
  cache_ok t c tr -> cache_step l c = Some (c', es) -> cache_ok t c' (tr ++ es).
Proof.
  intros [Ht Hg He] Hs.
  assert (Hinv : forall es0, Forall (fun e => e <> EvInvalidate) es0 ->
    invalidations (tr ++ es0) = invalidations tr).
  { intros es0 H0. unfold invalidations. rewrite sumZ_app.
    enough (sumZ (fun e => match e with EvInvalidate => 1 | _ => 0 end) es0 = 0) as -> by lia.
    induction H0 as [|e es0 H0 _ IH]; [done|]. simpl. rewrite IH. by destruct e. }
  destruct l; simpl in Hs.
  - unfold Get in Hs.
    assert (Hmore : forall r k e, stored t tr k e -> stored t (tr ++ [match r with Some v => EvHit key v | None => EvMiss key end]) k e).
    { intros r k e Hst. apply stored_more; [done|]. destruct r; repeat constructor; auto. }
    destruct (byKey c !! key) as [e|] eqn:Hk; [destruct (fresh c now e)|]; simplify_eq;
      (split; [done|simpl; rewrite Hinv; [done|by repeat constructor]|]); simpl.
    + intros k e' H'. apply (Hmore (Some (verdict e))). by apply He.
    + intros k e' [_ H']%lookup_delete_Some. apply (Hmore None). by apply He.
    + intros k e' H'. apply (Hmore None). by apply He.
  - unfold Put in Hs. destruct (evictIfFullLocked _ _ _ _) as [c1|] eqn:Hev; [|done]. simplify_eq.
    destruct (evict_spec _ _ _ _ _ Hev) as (Ht1 & Hg1 & _ & Hsub & _).
    split; [done|simpl; rewrite Hinv, Hg1; [done|by repeat constructor]|].
    simpl. intros k e' Hk. apply lookup_insert_Some in Hk as [[<- <-]|[Hne Hk]].
    + exists tr, now, []. simpl. rewrite Ht1, Hg1. by repeat split.
    + apply stored_more; [apply He; by eapply lookup_weaken|by repeat constructor].
  - simplify_eq. split; [done| |].
    + simpl. unfold invalidations. rewrite sumZ_app. simpl. rewrite Hg. unfold invalidations. by rewrite u64_add_l.
    + simpl. intros k e Hk. apply stored_more; [by apply He|]. by constructor; [intros ?|constructor].
  - simplify_eq. rewrite app_nil_r. by split.
Qed.

Lemma reachable_cache_ok d ls c tr :
  reachable cache_step (NewVerdictCache d) ls c tr -> cache_ok (ttl (NewVerdictCache d)) c tr.
Proof.
  induction 1 as [|ls c tr l c' es _ IH Hs]; [|by eapply cache_step_ok].
  split; [done|done|]. simpl. intros k e Hk. by rewrite lookup_empty in Hk.
Qed.

(** ** Properties *)

(** C39: no stale verdict is served.  A hit for a key returns the verdict of the
    last [Put] of that key; since that [Put] nothing was invalidated and the
    time to live has not passed, whatever was evicted, expired or replaced in
    between (as long as there were fewer than 2^64 invalidations). *)
Theorem VerdictCache_no_stale d ls c tr now key v c' :
  reachable cache_step (NewVerdictCache d) ls c tr ->
  invalidations tr < two64 ->
  cache_step (LGet now key) c = Some (c', [EvHit key v]) ->
  exists tr1 stored_at tr2, tr = tr1 ++ EvPut key v stored_at :: tr2
  /\ Forall (fun ev => ~ puts_key key ev) tr2 /\ invalidations tr2 = 0
  /\ now < stored_at + ttl (NewVerdictCache d).
Proof.
  intros Hr Hsmall Hs. apply reachable_cache_ok in Hr as [Ht Hg He]. simpl in Hs. unfold Get in Hs.
  destruct (byKey c !! key) as [e|] eqn:Hk; [|by simplify_eq].
  destruct (fresh c now e) eqn:Hf; [|by simplify_eq]. simplify_eq.
  destruct (He key e Hk) as (tr1 & at_ & tr2 & -> & Hno & Hu & Hge).
  unfold fresh, Before in Hf. apply andb_true_iff in Hf as [Hf1%Z.eqb_eq Hf2%Z.ltb_lt].
  exists tr1, at_, tr2. split; [done|]. split; [done|]. split; [|lia].
  pose proof (invalidations_nonneg tr1) as H1. pose proof (invalidations_nonneg tr2) as H2.
  unfold invalidations in *. rewrite sumZ_app in *. simpl in *.
  rewrite Hge, Hg, !u64_small in Hf1 by lia. lia.
Qed.

(** The largest cap a run has had. *)
Definition largest_cap (ls : list cache_label) : Z :=
  foldr (fun l m => match l with LSetMax n => Z.max n m | _ => m end) defaultVerdictCacheMaxEntries ls.

Lemma largest_cap_app ls l : largest_cap (ls ++ [l]) = Z.max (largest_cap ls) (largest_cap [l]).
Proof.
  unfold largest_cap. induction ls as [|l' ls IH]; simpl.
  - destruct l; unfold defaultVerdictCacheMaxEntries; lia.
  - rewrite IH. destruct l'; simpl; lia.
Qed.

(** Bounded memory.  The cache never holds more entries than the largest cap
    it was ever given, whatever the keys are and whichever victims the map
    iteration picks; and a [Put] is never refused, some victim always exists. *)
Theorem VerdictCache_bounded d ls c tr :
  reachable cache_step (NewVerdictCache d) ls c tr ->
  size_of (byKey c) <= largest_cap ls
  /\ forall now_evict now key v, exists victim c', Put now_evict now victim key v c = Some c'.
Proof.
  intros Hr.
  assert (H : size_of (byKey c) <= largest_cap ls /\ 0 < maxEntries c <= largest_cap ls).
  { induction Hr as [|ls c tr l c' es _ [IH1 IH2] Hs].
    { simpl. unfold size_of. rewrite map_size_empty. vm_compute. repeat split; discriminate. }
    rewrite largest_cap_app. destruct l; simpl in Hs.
    - unfold Get in Hs. repeat case_match; simplify_eq; simpl; try lia.
      unfold size_of in *. pose proof (map_subseteq_size _ _ (delete_subseteq (byKey c) key)). lia.
    - unfold Put in Hs. destruct (evictIfFullLocked _ _ _ _) as [c1|] eqn:Hev; [|done]. simplify_eq. simpl.
      destruct (evict_spec _ _ _ _ _ Hev) as (_ & _ & Hm & Hsub & Hsz).
      apply map_subseteq_size in Hsub. rewrite Hm. split; [|lia].
      assert (Hins : forall e, size_of (<[key := e]> (byKey c1)) <= size_of (byKey c1) + 1
        /\ (is_Some (byKey c1 !! key) -> size_of (<[key := e]> (byKey c1)) = size_of (byKey c1))).
      { intros e. unfold size_of. split; [|intros ?; by rewrite map_size_insert_Some].
        rewrite map_size_insert. case_match; unfold id; lia. }
      match goal with |- size_of (<[key := ?e]> _) <= _ => destruct (Hins e) as [H1 H2] end.
      destruct (Hsz ltac:(lia)) as [?|[Hk|[?|?]]]; [unfold size_of in *; lia| |lia|lia].
      rewrite (H2 Hk). unfold size_of in *. lia.
    - simplify_eq. simpl. lia.
    - simplify_eq. simpl. unfold defaultVerdictCacheMaxEntries. case_match; bool_facts; lia. }
  split; [apply H|]. intros now_evict now key v. unfold Put, evictIfFullLocked.
  destruct (_ || _); [by eexists ""%string, _|]. destruct (bool_decide _); [by eexists ""%string, _|].
  set (swept := filter _ (byKey c)). destruct (Z.ltb_spec (size_of swept) (maxEntries c)).
  { by eexists ""%string, _. }
  destruct (map_choose swept) as (k & e & Hk).
  { intros Hz. rewrite Hz in *. unfold size_of in *. rewrite map_size_empty in *. lia. }
  exists k. rewrite bool_decide_true by (by eexists). by eexists.
Qed.

(** What is put is found.  A [Put] that succeeds leaves a cache in which the
    key is answered with the verdict until the time to live has passed, and not
    afterwards; the other keys that survive keep their entries. *)
Theorem VerdictCache_put_get now_evict now victim key v c c' :
  Put now_evict now victim key v c = Some c' ->
  (forall t, t < now + ttl c -> Get t key c' = (c', Some v))
  /\ (forall t, now + ttl c <= t -> snd (Get t key c') = None)
  /\ (forall k e, k <> key -> byKey c' !! k = Some e -> byKey c !! k = Some e).
Proof.
  unfold Put. destruct (evictIfFullLocked _ _ _ _) as [c1|] eqn:Hev; [|done]. intros [= <-].
  destruct (evict_spec _ _ _ _ _ Hev) as (Ht & Hg & _ & Hsub & _).
  unfold Get, fresh, Before. simpl. rewrite lookup_insert_eq. simpl. rewrite Z.eqb_refl, Ht. simpl.
  split; [|split].
  - intros t Hlt. by destruct (Z.ltb_spec t (now + ttl c)); [|lia].
  - intros t Hlt. by destruct (Z.ltb_spec t (now + ttl c)); [lia|].
  - intros k e Hne Hk. rewrite lookup_insert_ne in Hk by done. by eapply lookup_weaken.
Qed.

(** The key binds the request.  Two lookups whose kind, model and direction
    have no NUL byte share a key only if they agree in kind, model, direction
    and content, unless two inputs of the hash function collide. *)
Theorem cacheKey_binds sha256 k m dir ct k' m' dir' ct' :
  (forall x, slen (sha256 x) = 32) ->
  has_nul k = false -> has_nul m = false -> has_nul dir = false ->
  has_nul k' = false -> has_nul m' = false -> has_nul dir' = false ->
  cacheKey sha256 k m dir ct = cacheKey sha256 k' m' dir' ct' ->
  (k = k' /\ m = m' /\ dir = dir' /\ ct = ct') \/ exists x y, x <> y /\ sha256 x = sha256 y.
Proof.
  intros Hsha Hk Hm Hd Hk' Hm' Hd'. unfold cacheKey. set (x := (k ++ NUL ++ _)%string).
  set (y := (k' ++ NUL ++ _)%string). intros Heq.
  assert (Hhex : hex_encode (sha256 x) = hex_encode (sha256 y)).
  { assert (Hl : forall a b, String.length (a ++ b)%string = (String.length a + String.length b)%nat).
    { intros a b. induction a as [|z a IH]; simpl; [done|]. by rewrite <- IH. }
    assert (Hlen : String.length (hex_encode (sha256 x)) = String.length (hex_encode (sha256 y))).
    { pose proof (hex_encode_length (sha256 x)) as H1. pose proof (hex_encode_length (sha256 y)) as H2.
      rewrite Hsha in H1, H2. unfold slen in *. lia. }
    pose proof (f_equal String.length Heq) as Htot. rewrite !Hl in Htot.
    apply app_eq_length in Heq as [_ Heq]; [|lia]. by apply app_eq_length in Heq as [_ ?]. }
  apply hex_encode_inj in Hhex. destruct (decide (x = y)) as [Hxy|Hne]; [left|right; by exists x, y].
  unfold x, y in Hxy. apply nul_split in Hxy as [-> Hxy]; [|done|done].
  apply nul_split in Hxy as [-> Hxy]; [|done|done]. by apply nul_split in Hxy as [-> ->].
Qed.

(** ** Witnesses *)

Definition demo_verdict (action : string) : VerdictSnapshot :=
  {| Action := action; v_Severity := "HIGH"; v_Reason := ""; Findings := []; EntityCount := 0;
     v_Scanner := "judge"; ScannerSources := []; JudgeFailed := false |}.

(** The second [Put] replaces the first; the invalidation precedes both. *)
Definition demo_cache_labels : list cache_label :=
  [LInvalidate; LPut 1 1 "" "k" (demo_verdict "allow"); LPut 2 2 "" "k" (demo_verdict "block")]%string.

Definition demo_cache : VerdictCache * list cache_event :=
  default (NewVerdictCache 10, []) (run cache_step demo_cache_labels (NewVerdictCache 10)).

Lemma demo_cache_reachable :
  reachable cache_step (NewVerdictCache 10) demo_cache_labels (fst demo_cache) (snd demo_cache).
Proof. apply run_reachable. reflexivity. Qed.

Lemma VerdictCache_no_stale_witness :
  exists tr1 stored_at tr2, snd demo_cache = tr1 ++ EvPut "k" (demo_verdict "block") stored_at :: tr2
  /\ Forall (fun ev => ~ puts_key "k" ev) tr2 /\ invalidations tr2 = 0 /\ 11 < stored_at + 10.
Proof.
  apply (VerdictCache_no_stale 10 demo_cache_labels (fst demo_cache) (snd demo_cache) 11 "k"
    (demo_verdict "block") (fst demo_cache)).
  - apply demo_cache_reachable.
  - reflexivity.
  - vm_compute. reflexivity.
Defined.

Lemma VerdictCache_bounded_witness :
  size_of (byKey (fst demo_cache)) = 1 /\ size_of (byKey (fst demo_cache)) <= 4096.
Proof.
  split; [vm_compute; reflexivity|].
  exact (proj1 (VerdictCache_bounded 10 demo_cache_labels (fst demo_cache) (snd demo_cache) demo_cache_reachable)).
Defined.

Lemma VerdictCache_put_get_witness :
  exists c', Put 3 3 "" "q" (demo_verdict "alert") (fst demo_cache) = Some c'
  /\ forall t, t < 3 + 10 -> Get t "q" c' = (c', Some (demo_verdict "alert")).
Proof.
  eexists. split; [vm_compute; reflexivity|].
  refine (proj1 (VerdictCache_put_get 3 3 "" "q" (demo_verdict "alert") (fst demo_cache) _ _)).
  vm_compute. reflexivity.
Defined.

Lemma cacheKey_binds_witness :
  let sha _ := "................................"%string in
  cacheKey sha "injection" "m" "prompt" "x" = cacheKey sha "injection" "m" "prompt" "x"
  /\ (("injection" = "injection" /\ "m" = "m" /\ "prompt" = "prompt" /\ "x" = "x")%string
      \/ exists x y, x <> y /\ sha x = sha y).
Proof.
  intros sha. split; [reflexivity|]. apply (cacheKey_binds sha); intros; reflexivity.
Defined.
