(* ===== verification/ActionStore.v ===== *)
(** * The enforcement table (internal/audit/store.go, "Actions")

    The SQLite table [actions] as a finite map from its unique index (type,
    name, connector) to a row, and the statements of the store over it as
    programs of a small state and error monad.  A statement of the driver may
    fail without effect: the environment decides which ones do.  The column
    [actions_json] holds a JSON object with at most the three keys the program
    writes; [json_set], [json_remove] and [json_extract] act on its keys.

    The abstract specification is a directive [view]: for each target and
    connector one string per dimension, empty when there is no directive.
    [ActionStore_refines] shows that the statements implement it. *)
From stdpp Require Import base list gmap strings sorting.
From Stdlib Require Import ZArith Lia.
From S2P Require Import Prelude GoStrings.

Local Open Scope string_scope.

(** ** Data *)

Record ActionState := { File : string; Runtime : string; Install : string }.

Definition IsEmpty (a : ActionState) : bool :=
  (File a =? "") && (Runtime a =? "") && (Install a =? "").

Definition Summary (a : ActionState) : string :=
  let parts :=
    ((if Install a =? "block" then ["blocked"] else []) ++
     (if Install a =? "allow" then ["allowed"] else []) ++
     (if File a =? "quarantine" then ["quarantined"] else []) ++
     (if Runtime a =? "disable" then ["disabled"] else []))%list in
  match parts with [] => "-" | _ => Join parts ", " end.

Record ActionEntry := {
  ID : string;
  TargetType : string;
  TargetName : string;
  SourcePath : string;
  Actions : ActionState;
  Reason : string;
  UpdatedAt : Time;
  Connector : string;
}.

(** The object of the column [actions_json]: a key that is absent is [None]. *)
Record ActionsJSON := {
  j_file : option string;
  j_runtime : option string;
  j_install : option string;
}.

Definition json_empty : ActionsJSON := {| j_file := None; j_runtime := None; j_install := None |}.

(** The three dimensions; the SQL paths are [$.file], [$.runtime], [$.install]. *)
Inductive Dim := DFile | DRuntime | DInstall.

#[global] Instance Dim_eq_dec : EqDecision Dim.
Proof. solve_decision. Defined.

Definition field_name (d : Dim) : string :=
  match d with DFile => "file" | DRuntime => "runtime" | DInstall => "install" end.

Definition parse_field (field : string) : option Dim :=
  if field =? "install" then Some DInstall
  else if field =? "file" then Some DFile
  else if field =? "runtime" then Some DRuntime else None.

Definition json_extract (j : ActionsJSON) (d : Dim) : option string :=
  match d with DFile => j_file j | DRuntime => j_runtime j | DInstall => j_install j end.

Definition json_put (j : ActionsJSON) (d : Dim) (v : option string) : ActionsJSON :=
  match d with
  | DFile => {| j_file := v; j_runtime := j_runtime j; j_install := j_install j |}
  | DRuntime => {| j_file := j_file j; j_runtime := v; j_install := j_install j |}
  | DInstall => {| j_file := j_file j; j_runtime := j_runtime j; j_install := v |}
  end.

(** The test [actions_json IN ('{}', 'null', '')] of the clean-up. *)
Definition json_is_empty (j : ActionsJSON) : bool :=
  match j_file j, j_runtime j, j_install j with None, None, None => true | _, _, _ => false end.

(** [json.Marshal] of an [ActionState] (every field has [omitempty]) and
    [json.Unmarshal] into a zero one. *)
Definition omitempty (s : string) : option string := if s =? "" then None else Some s.
Definition marshal (a : ActionState) : ActionsJSON :=
  {| j_file := omitempty (File a); j_runtime := omitempty (Runtime a);
     j_install := omitempty (Install a) |}.
Definition unmarshal (j : ActionsJSON) : ActionState :=
  {| File := default "" (j_file j); Runtime := default "" (j_runtime j);
     Install := default "" (j_install j) |}.

Definition state_field (a : ActionState) (d : Dim) : string :=
  match d with DFile => File a | DRuntime => Runtime a | DInstall => Install a end.

Record Row := {
  r_id : string;
  r_source_path : option string;
  r_actions : ActionsJSON;
  r_reason : string;
  r_updated_at : Time;
}.

(** [UNIQUE (target_type, target_name, connector)] *)
Abbreviation Key := (string * string * string)%type.

(** ** The monad of the store

    The environment answers every interaction with the outside by its number:
    whether the statement fails, the clock, the random identifiers.  A failed
    statement changes nothing (a constraint failure on the random id is one). *)
Record Env := {
  fault : nat -> bool;
  Now : nat -> Time;
  NewUUID : nat -> string;
}.

Record Store := { rows : gmap Key Row; tick : nat }.

Inductive error :=
| ErrField (field : string)
| ErrValue (field value : string)
| ErrDB (what : string)
| ErrWrap (what : string) (e : error)
| ErrPartial (target : string) (errs : list error).

Definition M (A : Type) : Type := Store -> Store * (A + error).

Definition ret {A} (a : A) : M A := fun s => (s, inl a).
Definition fail {A} (e : error) : M A := fun s => (s, inr e).
Definition bind {A B} (m : M A) (f : A -> M B) : M B := fun s =>
  match m s with
  | (s', inl a) => f a s'
  | (s', inr e) => (s', inr e)
  end.
(** The error as a value: what the code does when it does not return at once. *)
Definition try {A} (m : M A) : M (option error) := fun s =>
  match m s with
  | (s', inl _) => (s', inl None)
  | (s', inr e) => (s', inl (Some e))
  end.

Notation "x <- m ;; k" := (bind m (fun x => k))
  (at level 100, m at next level, right associativity) : store_scope.
Notation "m ;; k" := (bind m (fun _ => k)) (at level 100, right associativity) : store_scope.
Local Open Scope store_scope.

Definition list_error {A} (o : option A) : list A := match o with Some x => [x] | None => [] end.

Section Store.
Context (env : Env).

Definition interact {A} (f : nat -> A) : M A := fun s =>
  ({| rows := rows s; tick := S (tick s) |}, inl (f (tick s))).

(** [execDB]: the statement either fails or updates the table. *)
Definition execDB (what : string) (upd : gmap Key Row -> gmap Key Row) : M () := fun s =>
  if fault env (tick s) then ({| rows := rows s; tick := S (tick s) |}, inr (ErrDB what))
  else ({| rows := upd (rows s); tick := S (tick s) |}, inl ()).

(** [scanRow] and [queryDB]: the query either fails or reads the table. *)
Definition queryDB {A} (what : string) (q : gmap Key Row -> A) : M A := fun s =>
  ({| rows := rows s; tick := S (tick s) |},
   if fault env (tick s) then inr (ErrDB what) else inl (q (rows s))).

(** ** Operations *)

Definition validateActionFieldAndValue (field value : string) : option error :=
  if field =? "install" then
    if (value =? "") || (value =? "block") || (value =? "allow") || (value =? "none")
    then None else Some (ErrValue field value)
  else if field =? "file" then
    if (value =? "") || (value =? "quarantine") || (value =? "none")
    then None else Some (ErrValue field value)
  else if field =? "runtime" then
    if (value =? "") || (value =? "disable") || (value =? "enable")
    then None else Some (ErrValue field value)
  else Some (ErrField field).

(** [validated field value k] runs [k] with the dimension of a valid field. *)
Definition validated {A} (field value : string) (k : Dim -> M A) : M A :=
  match validateActionFieldAndValue field value with
  | Some e => fail e
  | None =>
      match parse_field field with
      | Some d => k d
      | None => fail (ErrField field)
      end
  end.

Definition nullStr (s : string) : option string := if s =? "" then None else Some s.

(** [COALESCE(excluded.source_path, source_path)] *)
Definition coalesce_path (new old : option string) : option string :=
  match new with Some p => Some p | None => old end.

Definition SetActionForConnector (targetType targetName connector sourcePath : string)
    (state : ActionState) (reason : string) : M () :=
  id <- interact (NewUUID env) ;;
  now <- interact (Now env) ;;
  execDB "set action" (partial_alter (fun old =>
    Some match old with
    | None => {| r_id := id; r_source_path := nullStr sourcePath; r_actions := marshal state;
                 r_reason := reason; r_updated_at := now |}
    | Some r => {| r_id := r_id r;
                   r_source_path := coalesce_path (nullStr sourcePath) (r_source_path r);
                   r_actions := marshal state; r_reason := reason; r_updated_at := now |}
    end) (targetType, targetName, connector)).

Definition SetAction (targetType targetName sourcePath : string) (state : ActionState)
    (reason : string) : M () :=
  SetActionForConnector targetType targetName "" sourcePath state reason.

Definition SetActionFieldForConnector (targetType targetName connector field value reason : string)
    : M () :=
  validated field value (fun d =>
  id <- interact (NewUUID env) ;;
  now <- interact (Now env) ;;
  execDB ("set action field " ++ field) (partial_alter (fun old =>
    Some match old with
    | None => {| r_id := id; r_source_path := None;
                 r_actions := json_put json_empty d (Some value);
                 r_reason := reason; r_updated_at := now |}
    | Some r => {| r_id := r_id r; r_source_path := r_source_path r;
                   r_actions := json_put (r_actions r) d (Some value);
                   r_reason := reason; r_updated_at := now |}
    end) (targetType, targetName, connector))).

Definition SetActionField (targetType targetName field value reason : string) : M () :=
  SetActionFieldForConnector targetType targetName "" field value reason.

Definition SetSourcePathForConnector (targetType targetName connector path : string) : M () :=
  execDB "set source path" (alter (fun r =>
    {| r_id := r_id r; r_source_path := Some path; r_actions := r_actions r;
       r_reason := r_reason r; r_updated_at := r_updated_at r |}) (targetType, targetName, connector)).

Definition SetSourcePath (targetType targetName path : string) : M () :=
  SetSourcePathForConnector targetType targetName "" path.

Definition drop_empty (old : option Row) : option Row :=
  match old with
  | Some r => if json_is_empty (r_actions r) then None else Some r
  | None => None
  end.

(** The second statement, the clean-up, has its error dropped. *)
Definition ClearActionFieldForConnector (targetType targetName connector field : string) : M () :=
  validated field "" (fun d =>
  now <- interact (Now env) ;;
  execDB ("clear action field " ++ field) (alter (fun r =>
    {| r_id := r_id r; r_source_path := r_source_path r;
       r_actions := json_put (r_actions r) d None;
       r_reason := r_reason r; r_updated_at := now |}) (targetType, targetName, connector)) ;;
  try (execDB "delete empty" (partial_alter drop_empty (targetType, targetName, connector))) ;;
  ret ()).

Definition ClearActionField (targetType targetName field : string) : M () :=
  ClearActionFieldForConnector targetType targetName "" field.

Definition RemoveActionForConnector (targetType targetName connector : string) : M () :=
  execDB "remove action" (delete (targetType, targetName, connector)).

Definition RemoveAction (targetType targetName : string) : M () :=
  RemoveActionForConnector targetType targetName "".

Definition entry_of (k : Key) (r : Row) : ActionEntry :=
  {| ID := r_id r; TargetType := k.1.1; TargetName := k.1.2;
     SourcePath := default "" (r_source_path r); Actions := unmarshal (r_actions r);
     Reason := r_reason r; UpdatedAt := r_updated_at r; Connector := k.2 |}.

Definition GetActionForConnector (targetType targetName connector : string) : M (option ActionEntry) :=
  queryDB "get action" (fun m =>
    let k := (targetType, targetName, connector) in entry_of k <$> m !! k).

Definition GetAction (targetType targetName : string) : M (option ActionEntry) :=
  GetActionForConnector targetType targetName "".

Definition extracts (d : Dim) (value : string) (r : Row) : bool :=
  match json_extract (r_actions r) d with Some v => v =? value | None => false end.

(** [SELECT COUNT] over the unique key is 0 or 1. *)
Definition HasActionForConnector (targetType targetName connector field value : string) : M bool :=
  validated field value (fun d =>
  queryDB "has action" (fun m =>
    match m !! (targetType, targetName, connector) with
    | Some r => extracts d value r
    | None => false
    end)).

Definition HasAction (targetType targetName field value : string) : M bool :=
  HasActionForConnector targetType targetName "" field value.

(** [ORDER BY updated_at DESC]; rows with the same instant come in the order of
    the table, which no theorem uses. *)
Definition newer (a b : Key * Row) : Prop := (r_updated_at b.2 <= r_updated_at a.2)%Z.

#[local] Instance newer_dec : RelDecision newer := fun a b => Z_le_dec _ _.

Definition queryActions (sel : Key -> Row -> bool) : M (list ActionEntry) :=
  queryDB "query actions" (fun m =>
    (fun kr => entry_of kr.1 kr.2) <$>
      merge_sort newer (List.filter (fun kr => sel kr.1 kr.2) (map_to_list m))).

Definition ListByAction (field value : string) : M (list ActionEntry) :=
  validated field value (fun d => queryActions (fun _ r => extracts d value r)).

Definition ListByActionAndType (field value targetType : string) : M (list ActionEntry) :=
  validated field value (fun d => queryActions (fun k r => extracts d value r && (k.1.1 =? targetType))).

Definition ListActionsByType (targetType : string) : M (list ActionEntry) :=
  queryActions (fun k _ => k.1.1 =? targetType).

Definition ListActionsByTypeForConnector (targetType connector : string) : M (list ActionEntry) :=
  queryActions (fun k _ => (k.1.1 =? targetType) && (k.2 =? connector)).

Definition ListAllActions : M (list ActionEntry) := queryActions (fun _ _ => true).
End Store.

(** ** The abstract specification: one directive per target, scope and dimension *)

Abbreviation Spec := (Key -> Dim -> string).

Definition row_view (o : option Row) (d : Dim) : string :=
  match o with Some r => default "" (json_extract (r_actions r) d) | None => "" end.

Definition view (s : Store) : Spec := fun k d => row_view (rows s !! k) d.

Definition update (k : Key) (f : Dim -> string -> string) (v : Spec) : Spec :=
  fun k' d => if decide (k' = k) then f d (v k' d) else v k' d.

(** The writing operations as commands. *)
Inductive command :=
| CSet (targetType targetName connector sourcePath : string) (state : ActionState) (reason : string)
| CField (targetType targetName connector field value reason : string)
| CClear (targetType targetName connector field : string)
| CPath (targetType targetName connector path : string)
| CRemove (targetType targetName connector : string).

Definition exec_command (env : Env) (c : command) : M () :=
  match c with
  | CSet t n k p a r => SetActionForConnector env t n k p a r
  | CField t n k f v r => SetActionFieldForConnector env t n k f v r
  | CClear t n k f => ClearActionFieldForConnector env t n k f
  | CPath t n k p => SetSourcePathForConnector env t n k p
  | CRemove t n k => RemoveActionForConnector env t n k
  end.

Definition spec_command (c : command) : Spec -> Spec :=
  match c with
  | CSet t n k _ a _ => update (t, n, k) (fun d _ => state_field a d)
  | CField t n k f v _ => update (t, n, k) (fun d old => if field_name d =? f then v else old)
  | CClear t n k f => update (t, n, k) (fun d old => if field_name d =? f then "" else old)
  | CPath _ _ _ _ => fun v => v
  | CRemove t n k => update (t, n, k) (fun _ _ => "")
  end.

(** ** Lemmas *)

Lemma parse_field_name field d : parse_field field = Some d -> field = field_name d.
Proof. unfold parse_field. intros H. split_cases; bool_facts; done. Qed.

Lemma validate_field field value e :
  validateActionFieldAndValue field value = e -> e = None -> is_Some (parse_field field).
Proof.
  unfold validateActionFieldAndValue, parse_field. intros <-.
  destruct (field =? "install"), (field =? "file"), (field =? "runtime"); eauto; done.
Qed.

Lemma field_name_eqb d d' : (field_name d =? field_name d') = bool_decide (d = d').
Proof. destruct d, d'; done. Qed.

Lemma extract_put j d d' v :
  json_extract (json_put j d v) d' = if decide (d' = d) then v else json_extract j d'.
Proof. destruct d, d'; done. Qed.

Lemma extract_marshal a d : default "" (json_extract (marshal a) d) = state_field a d.
Proof.
  destruct d; simpl; unfold omitempty; case_match eqn:H; simpl; bool_facts; congruence.
Qed.

Lemma unmarshal_field j d : state_field (unmarshal j) d = default "" (json_extract j d).
Proof. destruct d; done. Qed.

(** A program that only updates the row of [k] by [f]. *)
Lemma view_partial_alter s s' k f :
  rows s' = partial_alter f k (rows s) ->
  forall k' d, view s' k' d = if decide (k' = k) then row_view (f (rows s !! k)) d else view s k' d.
Proof.
  intros Hr k' d. unfold view. rewrite Hr. case_decide as Hk.
  - subst. by rewrite lookup_partial_alter_eq.
  - by rewrite lookup_partial_alter_ne.
Qed.

Lemma view_same s s' : rows s' = rows s -> forall k d, view s' k d = view s k d.
Proof. unfold view. by intros ->. Qed.

Lemma row_view_clean o d : row_view (drop_empty o) d = row_view o d.
Proof.
  destruct o as [[? ? [f r i] ? ?]|]; [|done]. simpl.
  destruct f, r, i, d; done.
Qed.

(** The clean-up of empty rows is invisible, whether or not it succeeds. *)
Lemma cleanup_invisible s s' res env k :
  try (execDB env "delete empty" (partial_alter drop_empty k)) s = (s', res) ->
  (exists o, res = inl o) /\ forall k' d, view s' k' d = view s k' d.
Proof.
  unfold try, execDB. destruct (fault env (tick s)); intros [= <- <-].
  - split; [by eexists|done].
  - split; [by eexists|]. intros k' d.
    erewrite (view_partial_alter s _ k drop_empty) by done. case_decide; [|done].
    subst. by rewrite row_view_clean.
Qed.

Lemma validated_inv {A} field value (k : Dim -> M A) s s' res :
  validated field value k s = (s', res) ->
  (s' = s /\ exists e, res = inr e) \/
  (exists d, field = field_name d /\ validateActionFieldAndValue field value = None /\ k d s = (s', res)).
Proof.
  unfold validated. destruct (validateActionFieldAndValue field value) as [e|] eqn:Hv.
  - intros [= <- <-]. eauto.
  - destruct (parse_field field) as [d|] eqn:Hp.
    + intros Hk. right. exists d. split_and!; eauto using parse_field_name.
    + intros [= <- <-]. eauto.
Qed.

Lemma execDB_inv env what upd s s' res :
  execDB env what upd s = (s', res) ->
  (rows s' = rows s /\ res = inr (ErrDB what)) \/ (rows s' = upd (rows s) /\ res = inl ()).
Proof. unfold execDB. case_match; intros [= <- <-]; eauto. Qed.

Lemma queryDB_inv {A} (env : Env) (what : string) (q : gmap Key Row -> A) (s s' : Store) res :
  queryDB env what q s = (s', res) ->
  rows s' = rows s /\ (res = inr (ErrDB what) \/ res = inl (q (rows s))).
Proof. unfold queryDB. case_match; intros [= <- <-]; eauto. Qed.

(** Programs that only read: the table is the same whatever they return. *)
Definition keeps_rows {A} (m : M A) : Prop := forall s s' r, m s = (s', r) -> rows s' = rows s.

Lemma keeps_ret {A} (a : A) : keeps_rows (ret a).
Proof. by intros s s' r [= <- _]. Qed.

Lemma keeps_fail {A} e : keeps_rows (fail (A:=A) e).
Proof. by intros s s' r [= <- _]. Qed.

Lemma keeps_bind {A B} (m : M A) (f : A -> M B) :
  keeps_rows m -> (forall a, keeps_rows (f a)) -> keeps_rows (bind m f).
Proof.
  intros Hm Hf s s' r. unfold bind. destruct (m s) as [s1 [a|e]] eqn:H1.
  - intros H. rewrite (Hf a _ _ _ H). by apply Hm in H1.
  - intros [= <- _]. by apply Hm in H1.
Qed.

Lemma keeps_query {A} (env : Env) (what : string) (q : gmap Key Row -> A) : keeps_rows (queryDB env what q).
Proof. intros s s' r H. by apply queryDB_inv in H as [H _]. Qed.

Lemma keeps_validated {A} field value (k : Dim -> M A) :
  (forall d, keeps_rows (k d)) -> keeps_rows (validated field value k).
Proof. intros Hk. unfold validated. repeat case_match; auto using keeps_fail. Qed.

Lemma keeps_has env t n c field value : keeps_rows (HasActionForConnector env t n c field value).
Proof. apply keeps_validated. intros d. apply keeps_query. Qed.

Lemma keeps_get env t n c : keeps_rows (GetActionForConnector env t n c).
Proof. apply keeps_query. Qed.

Lemma keeps_list env field value : keeps_rows (ListByAction env field value).
Proof. apply keeps_validated. intros d. apply keeps_query. Qed.

#[export] Hint Resolve keeps_ret keeps_fail keeps_bind keeps_query keeps_has keeps_get keeps_list : claw.

(** ** Properties *)

Lemma store_write env c s s' res :
  exec_command env c s = (s', res) ->
  match res with
  | inl _ => forall k d, view s' k d = spec_command c (view s) k d
  | inr _ => forall k d, view s' k d = view s k d
  end.
Proof.
  destruct c as [t n k p a r|t n k f v r|t n k f|t n k p|t n k]; simpl.
  - unfold SetActionForConnector, bind, interact. intros H.
    apply execDB_inv in H as [[Hr ->]|[Hr ->]]; [by apply view_same|].
    intros k' d. rewrite (view_partial_alter s _ _ _ Hr). unfold update. case_decide; [|done].
    simpl. destruct (rows s !! _); apply extract_marshal.
  - intros H. apply validated_inv in H as [[-> [e ->]]|(d & -> & _ & H)]; [done|].
    unfold bind, interact in H.
    apply execDB_inv in H as [[Hr ->]|[Hr ->]]; [by apply view_same|].
    intros k' d'. rewrite (view_partial_alter s _ _ _ Hr). unfold update.
    rewrite field_name_eqb. case_decide; [|done]. subst k'. unfold view.
    destruct (rows s !! _); simpl; rewrite extract_put; repeat case_decide; case_bool_decide; simplify_eq/=; try done.
    by destruct d'.
  - intros H. apply validated_inv in H as [[-> [e ->]]|(d & -> & _ & H)]; [done|].
    unfold bind at 1 2, interact in H. simpl in H.
    match type of H with (match ?m with _ => _ end = _) => destruct m as [s1 res1] eqn:H1 end.
    apply execDB_inv in H1 as [[Hr ->]|[Hr ->]]; simplify_eq/=; [by apply view_same|].
    unfold bind in H.
    match type of H with (match ?m with _ => _ end = _) => destruct m as [s2 res2] eqn:H2 end.
    apply cleanup_invisible in H2 as [[o ->] Hv]. unfold ret in H. simplify_eq.
    intros k' d'. rewrite Hv. rewrite (view_partial_alter s _ _ _ Hr). unfold update.
    rewrite field_name_eqb. case_decide; [|done]. subst k'. unfold view.
    destruct (rows s !! _); simpl; [rewrite extract_put|];
      repeat case_decide; case_bool_decide; simplify_eq/=; done.
  - intros H. apply execDB_inv in H as [[Hr ->]|[Hr ->]]; [by apply view_same|].
    intros k' d. rewrite (view_partial_alter s _ _ _ Hr). case_decide; [|done].
    subst. unfold view. by destruct (rows s !! _).
  - intros H. apply execDB_inv in H as [[Hr ->]|[Hr ->]]; [by apply view_same|].
    intros k' d. unfold view, update. rewrite Hr. case_decide.
    + subst. by rewrite lookup_delete_eq.
    + by rewrite lookup_delete_ne.
Qed.

(** C40: the statements of the store implement the abstract directives: a write
    that returns nil changes the directives exactly as the abstract operation
    says (so the rows of other targets, of other connectors and the other
    dimensions keep theirs), and a write that returns an error changes none of
    them.  The unchecked clean-up of empty rows is invisible whether it
    succeeds or fails. *)
Theorem ActionStore_refines env c s s' res :
  exec_command env c s = (s', res) ->
  match res with
  | inl _ => forall k d, view s' k d = spec_command c (view s) k d
  | inr _ => forall k d, view s' k d = view s k d
  end.
Proof. apply store_write. Qed.

Lemma extracts_view d value r :
  value <> "" -> extracts d value r = bool_decide (row_view (Some r) d = value).
Proof.
  intros Hv. unfold extracts. simpl. destruct (json_extract (r_actions r) d) as [v|]; simpl.
  - case_bool_decide; [by apply String.eqb_eq|by apply String.eqb_neq].
  - by rewrite bool_decide_eq_false_2.
Qed.

Lemma HasAction_view env t n c field value s s' b :
  value <> "" -> HasActionForConnector env t n c field value s = (s', inl b) ->
  rows s' = rows s /\
  exists d, field = field_name d /\ b = bool_decide (view s (t, n, c) d = value).
Proof.
  intros Hv H. apply validated_inv in H as [[-> [e ?]]|(d & -> & _ & H)]; [done|].
  apply queryDB_inv in H as [Hr [?|Hb]]; [done|]. simplify_eq. split; [done|].
  exists d. split; [done|]. unfold view.
  destruct (rows s !! _) as [r|]; [by apply extracts_view|].
  simpl. by rewrite bool_decide_eq_false_2.
Qed.

Lemma GetAction_view env t n c s s' o :
  GetActionForConnector env t n c s = (s', inl o) ->
  rows s' = rows s /\
  forall d, match o with Some e => state_field (Actions e) d | None => "" end = view s (t, n, c) d.
Proof.
  intros H. apply queryDB_inv in H as [Hr [?|Hb]]; [done|]. simplify_eq. split; [done|].
  intros d. unfold view. destruct (rows s !! _) as [r|]; [apply unmarshal_field|done].
Qed.

#[local] Instance newer_total : Total newer.
Proof. intros a b. unfold newer. lia. Qed.
#[local] Instance newer_trans : Transitive newer.
Proof. intros a b c. unfold newer. lia. Qed.
#[local] Existing Instance newer_dec.

Definition key_of (e : ActionEntry) : Key := (TargetType e, TargetName e, Connector e).

Lemma NoDup_filter_keys (sel : Key * Row -> bool) (l : list (Key * Row)) :
  NoDup l.*1 -> NoDup (List.filter sel l).*1.
Proof.
  induction l as [|[k r] l IH]; simpl; [done|]. rewrite NoDup_cons. intros [Hk Hl].
  destruct (sel (k, r)); simpl; [|auto]. apply NoDup_cons. split; [|auto].
  rewrite list_elem_of_fmap in Hk |- *. intros ([k' r'] & -> & Hin). apply Hk.
  apply list_elem_of_In, filter_In in Hin as [Hin _]. apply list_elem_of_In in Hin. eauto.
Qed.

Lemma queryActions_spec env sel s s' l :
  queryActions env sel s = (s', inl l) ->
  rows s' = rows s /\
  StronglySorted (fun a b => (UpdatedAt b <= UpdatedAt a)%Z) l /\ NoDup (key_of <$> l) /\
  (forall e, e ∈ l <-> exists k r, rows s !! k = Some r /\ sel k r = true /\ e = entry_of k r).
Proof.
  intros H. apply queryDB_inv in H as [Hr [?|Hb]]; [done|]. simplify_eq. split_and!; [done| | |].
  - match goal with |- context [merge_sort ?R ?l] =>
      pose proof (StronglySorted_merge_sort R l) as Hs end.
    induction Hs as [|x l' Hs IH Hf]; simpl; constructor; [done|].
    rewrite Forall_fmap. eapply Forall_impl; [exact Hf|]. intros y Hy. apply Hy.
  - rewrite <- list_fmap_compose. erewrite (list_fmap_ext _ fst); last first.
    { by intros ? [[[??]?]?] _. }
    rewrite (merge_sort_Permutation newer). apply NoDup_filter_keys, NoDup_fst_map_to_list.
  - intros e. rewrite list_elem_of_fmap. setoid_rewrite (merge_sort_Permutation newer).
    setoid_rewrite list_elem_of_In. setoid_rewrite filter_In. setoid_rewrite <- list_elem_of_In.
    setoid_rewrite elem_of_map_to_list'. split.
    + intros ([k r] & -> & Hl & Hs). eauto.
    + intros (k & r & Hl & Hs & ->). exists (k, r). eauto.
Qed.

Lemma ListByAction_view env d value s s' l :
  value <> "" -> ListByAction env (field_name d) value s = (s', inl l) ->
  rows s' = rows s /\
  StronglySorted (fun a b => (UpdatedAt b <= UpdatedAt a)%Z) l /\
  NoDup (key_of <$> l) /\
  forall t n c, view s (t, n, c) d = value <-> exists e, e ∈ l /\ key_of e = (t, n, c).
Proof.
  intros Hv H. apply validated_inv in H as [[-> [e ?]]|(d' & Hd & _ & H)]; [done|].
  assert (d' = d) as -> by (by destruct d, d').
  apply queryActions_spec in H as (Hr & Hs & Hd' & Hl). split_and!; [done..|].
  intros t n c. unfold view. setoid_rewrite Hl. split.
  - destruct (rows s !! _) as [r|] eqn:Hrow; [|by intros <-]. intros Hrv.
    eexists. split; [exists (t, n, c), r; split_and!; [done| |done]|done].
    rewrite extracts_view by done. by apply bool_decide_eq_true_2.
  - intros (e & ([[t' n'] c'] & r & Hrow & He & ->) & Hk). unfold key_of in Hk. simplify_eq/=.
    rewrite Hrow. rewrite extracts_view in He by done. by apply bool_decide_eq_true in He.
Qed.

(** A query of the store that succeeds answers from the directives: a test
    for a non-empty value compares it with the directive, an entry carries the
    directives of its scope (no entry means no directive), and the list of an
    action holds exactly one entry for each target and connector under that
    directive, newest first.  Queries change no row. *)
Theorem ActionStore_reads env s :
  (forall t n c d value s' b, value <> "" ->
     HasActionForConnector env t n c (field_name d) value s = (s', inl b) ->
     rows s' = rows s /\ b = bool_decide (view s (t, n, c) d = value)) /\
  (forall t n c s' o, GetActionForConnector env t n c s = (s', inl o) ->
     rows s' = rows s /\
     forall d, match o with Some e => state_field (Actions e) d | None => "" end = view s (t, n, c) d) /\
  (forall d value s' l, value <> "" -> ListByAction env (field_name d) value s = (s', inl l) ->
     rows s' = rows s /\
     StronglySorted (fun a b => (UpdatedAt b <= UpdatedAt a)%Z) l /\
     NoDup (key_of <$> l) /\
     forall t n c, view s (t, n, c) d = value <->
       exists e, e ∈ l /\ key_of e = (t, n, c)).
Proof.
  split_and!.
  - intros t n c d value s' b Hv H. apply HasAction_view in H as (Hr & d' & Hd & ->); [|done].
    split; [done|]. assert (d = d') as -> by (by destruct d, d'). done.
  - intros t n c s' o H. by apply (GetAction_view env).
  - intros d value s' l Hv H. by apply (ListByAction_view env).
Qed.

(** ** Witnesses *)

(** An environment without faults, and one whose clean-up statement fails. *)
Definition calm : Env := {| fault := fun _ => false; Now := Z.of_nat; NewUUID := fun _ => "id" |}.
Definition bad_cleanup : Env :=
  {| fault := fun n => Nat.eqb n 5; Now := Z.of_nat; NewUUID := fun _ => "id" |}.
Definition empty_store : Store := {| rows := ∅; tick := 0 |}.

Example set_then_clear :
  let '(s1, r1) := SetActionField calm "skill" "s" "install" "block" "why" empty_store in
  let '(s2, r2) := HasAction calm "skill" "s" "install" "block" s1 in
  let '(s3, r3) := ClearActionField calm "skill" "s" "install" s2 in
  r1 = inl () /\ r2 = inl true /\ r3 = inl () /\ rows s3 = ∅.
Proof. vm_compute. done. Qed.

Definition w_set : command := CField "skill" "s" "" "install" "block" "why".
Definition w_clear : command := CClear "skill" "s" "" "install".
Definition w_s1 : Store := (exec_command bad_cleanup w_set empty_store).1.
Definition w_s2 : Store := (exec_command bad_cleanup w_clear w_s1).1.

Lemma ActionStore_refines_witness :
  is_Some (rows w_s2 !! ("skill", "s", "")) /\
  view w_s1 ("skill", "s", "") DInstall = "block" /\
  view w_s2 ("skill", "s", "") DInstall = "".
Proof.
  assert (exec_command bad_cleanup w_set empty_store = (w_s1, inl ())) as H1
    by (unfold w_s1; vm_compute; reflexivity).
  assert (exec_command bad_cleanup w_clear w_s1 = (w_s2, inl ())) as H2
    by (unfold w_s2; vm_compute; reflexivity).
  split; [vm_compute; by eexists|]. split.
  - rewrite (ActionStore_refines bad_cleanup w_set empty_store w_s1 (inl ()) H1). reflexivity.
  - rewrite (ActionStore_refines bad_cleanup w_clear w_s1 w_s2 (inl ()) H2). reflexivity.
Defined.
