(* ===== verification/FindingTable.v ===== *)
(** * The findings of scans (internal/audit/scan_persist.go)

    The tables [scan_results] and [scan_findings] as lists of rows, and the
    statements of the store over them: the inserts, the window of recent findings
    of an agent partition, and the ledger of the correlation rules that fired.
    A statement may fail without effect.  Through the adapter of
    internal/cli/correlator_wire.go this is the store of [SessionCorrelator]; its
    laws are theorems here, and with them the once-per-partition property of
    concurrent calls.  Columns that no statement here reads (provenance, trace of
    the decision, confidence, duration, raw result) are left out. *)
From stdpp Require Import base list relations sorting strings pretty.
From Stdlib Require Import ZArith Lia Ascii.
From S2P Require Import Prelude GoStrings ActionStore Correlator SessionCorrelator.

Local Open Scope Z_scope.
Local Open Scope string_scope.

(** ** Rows *)

Record SummaryRow := {
  sr_id : string;
  sr_scanner : string;
  sr_target : string;
  sr_timestamp : string;
  sr_finding_count : Z;
  sr_max_severity : string;
  sr_run_id : option string;
  sr_verdict : option string;
  sr_agent_id : option string;
  sr_agent_instance_id : option string;
  sr_session_id : option string;
  sr_request_id : option string;
  sr_trace_id : option string;
}.

(** The column [tags] is a JSON array, here the list of its texts. *)
Record FindingRow := {
  fr_id : string;
  fr_scan_id : string;
  fr_scanner : string;
  fr_target : string;
  fr_rule_id : option string;
  fr_category : option string;
  fr_severity : string;
  fr_title : string;
  fr_description : string;
  fr_evidence_summary : option string;
  fr_location : string;
  fr_line_number : option Z;
  fr_remediation : string;
  fr_tags : list string;
  fr_timestamp : string;
  fr_run_id : option string;
  fr_request_id : option string;
  fr_session_id : option string;
  fr_agent_id : option string;
  fr_agent_instance_id : option string;
  fr_data_axis : option string;
  fr_tool_capability_class : option string;
  fr_content_fingerprint : option string;
  fr_external_endpoint : option string;
  fr_turn_id : option Z;
  fr_evaluation_id : option string;
}.

(** [statements] counts the statements that were sent. *)
Record Tables := {
  scan_results : list SummaryRow;
  scan_findings : list FindingRow;
  statements : nat;
}.

Definition sent (t : Tables) : Tables :=
  {| scan_results := scan_results t; scan_findings := scan_findings t; statements := S (statements t) |}.

(** [COALESCE(column, '')] *)
Definition coalesce (o : option string) : string := default "" o.

(** ** The identity predicate *)

(** [column = ?]: NULL is equal to nothing. *)
Definition column_is (column : option string) (v : string) : bool :=
  match column with Some s => s =? v | None => false end.

(** [TRIM(COALESCE(column, '')) = ''] *)
Definition column_blank (column : option string) : bool := sql_trim (coalesce column) =? "".

(** The identity columns: session, instance, agent. *)
Definition Identity : Type := option string * option string * option string.

Definition row_identity (r : FindingRow) : Identity := (fr_session_id r, fr_agent_instance_id r, fr_agent_id r).

(** The condition on them, or [None] when there is no partition. *)
Definition correlationAgentPartitionSQL {U : GoUnicode} (session instance agent : string) : option (Identity -> bool) :=
  let session := TrimSpace session in
  let instance := TrimSpace instance in
  let agent := TrimSpace agent in
  if (session =? "") || ((instance =? "") && (agent =? "")) then None
  else if negb (instance =? "") && negb (agent =? "") then
    Some (fun '(s, i, a) => column_is s session && column_is i instance && column_is a agent)
  else if negb (instance =? "") then
    Some (fun '(s, i, a) => column_is s session && column_is i instance && column_blank a)
  else
    Some (fun '(s, i, a) => column_is s session && column_blank i && column_is a agent).

Definition partition_where {U : GoUnicode} (p : correlationAgentPartition) : option (Identity -> bool) :=
  correlationAgentPartitionSQL (sessionID p) (agentInstanceID p) (agentID p).

(** ** The window query *)

Definition correlationCandidateMultiplier : Z := 8.
Definition maxInt : Z := 2 ^ 63 - 1.

(** The rows that may contribute: of another scanner, without the detection-only tag. *)
Definition contributes_row (r : FindingRow) : bool :=
  negb (sql_lower (fr_scanner r) =? "correlator") &&
  negb (existsb (fun tag => sql_norm tag =? FindingTagDetectionOnly) (fr_tags r)).

(** [ORDER BY timestamp DESC, id DESC], with the byte order of the texts. *)
Definition newest_first (a b : FindingRow) : Prop :=
  (if fr_timestamp a =? fr_timestamp b then String.leb (fr_id b) (fr_id a)
   else String.leb (fr_timestamp b) (fr_timestamp a)) = true.
#[export] Instance newest_first_dec : RelDecision newest_first := fun a b => bool_eq_dec _ _.

(** The PARTITION BY of [primitive_rank]; a row without a fingerprint is alone. *)
Definition primitive (r : FindingRow) : string * string * string * string :=
  if column_blank (fr_content_fingerprint r) then (fr_id r, "", "", "")
  else ("", sql_norm (coalesce (fr_rule_id r)), sql_norm (coalesce (fr_category r)),
        sql_norm (coalesce (fr_content_fingerprint r))).

(** [primitive_rank = 1]: of the rows of a primitive the oldest one. *)
Fixpoint first_of_primitive (rows : list FindingRow) : list FindingRow :=
  match rows with
  | [] => []
  | r :: older =>
      if bool_decide (primitive r ∈ primitive <$> older) then first_of_primitive older
      else r :: first_of_primitive older
  end.

(** [LIMIT n]; a negative one is none. *)
Definition limited {A} (n : Z) (l : list A) : list A := if (n <? 0)%Z then l else take (Z.to_nat n) l.

Definition recent_rows (sel : Identity -> bool) (candidateLimit limit : Z) (t : Tables) : list FindingRow :=
  let eligible := limited candidateLimit
    (merge_sort newest_first (List.filter (fun r => sel (row_identity r) && contributes_row r) (scan_findings t))) in
  limited limit (merge_sort newest_first (first_of_primitive eligible)).

(** The projection of a row, and [auditReaderAdapter]. *)
Definition session_row (r : FindingRow) : SessionFindingRow :=
  {| r_ID := fr_id r; r_AgentID := coalesce (fr_agent_id r); r_AgentInstanceID := coalesce (fr_agent_instance_id r);
     r_Scanner := fr_scanner r; r_RuleID := fr_rule_id r; r_Category := fr_category r; r_Severity := fr_severity r;
     r_Tags := fr_tags r; r_DataAxis := fr_data_axis r; r_ToolCapabilityClass := fr_tool_capability_class r;
     r_ContentFingerprint := fr_content_fingerprint r; r_ExternalEndpoint := fr_external_endpoint r;
     r_TurnID := fr_turn_id r; r_Timestamp := fr_timestamp r |}.

(** ** The ledger query *)

Definition correlationLedgerBatchSize : nat := 100.

(** The keys in the order of the candidates, each with the text it stands for. *)
Fixpoint wanted_loop {U : GoUnicode} (candidates : list string) (wanted : list (string * string)) : list (string * string) :=
  match candidates with
  | [] => wanted
  | ruleID :: rest =>
      let trimmed := TrimSpace ruleID in
      if trimmed =? "" then wanted_loop rest wanted
      else if bool_decide (ToLower trimmed ∈ wanted.*1) then wanted_loop rest wanted
      else wanted_loop rest (wanted ++ [(ToLower trimmed, trimmed)])%list
  end.

Definition lookup_wanted (wanted : list (string * string)) (key : string) : option string :=
  snd <$> find (fun e => fst e =? key) wanted.

(** The rules in the ledger of a condition: one key per row of the correlator. *)
Definition fired_rules (sel : Identity -> bool) (t : Tables) : list string :=
  omap (fun r => if sel (row_identity r) && (sql_norm (fr_scanner r) =? "correlator") then sql_norm <$> fr_rule_id r else None)
    (scan_findings t).

Definition text_le (a b : string) : Prop := String.leb a b = true.
#[export] Instance text_le_dec : RelDecision text_le := fun a b => bool_eq_dec _ _.

(** The statement for one batch: DISTINCT, IN, ORDER BY. *)
Definition fired_batch (sel : Identity -> bool) (batch : list string) (t : Tables) : list string :=
  merge_sort text_le
    (remove_dups (List.filter (fun k => bool_decide (k ∈ batch)) (fired_rules sel t))).

Fixpoint batches (n : nat) (keys : list string) : list (list string) :=
  match n, keys with
  | 0%nat, _ | _, [] => []
  | S n', _ => take correlationLedgerBatchSize keys :: batches n' (drop correlationLedgerBatchSize keys)
  end.

(** ** The statements *)

Section Store.
Context {U : GoUnicode}.
(** The driver, the clock and the identifiers; [time.RFC3339Nano] of a time in UTC;
    [json.Marshal] of a list of texts; the run identifier of the process. *)
Context (env : ActionStore.Env) (Format : Time -> string) (MarshalStrings : list string -> string) (currentRunID : string).

(** A statement that writes, unless the driver or a constraint refuses it. *)
Definition exec (upd : Tables -> option Tables) (t : Tables) : Tables * bool :=
  if fault env (statements t) then (sent t, false)
  else match upd (sent t) with Some t' => (t', true) | None => (sent t, false) end.

Definition query {A} (q : Tables -> A) (t : Tables) : Tables * option A :=
  (sent t, if fault env (statements t) then None else Some (q t)).

Definition insert_scan_summary (t : Tables) (p : ScanSummaryParams) : Tables * bool :=
  let runID := if s_RunID p =? "" then currentRunID else s_RunID p in
  exec (fun t =>
    if existsb (fun r => sr_id r =? s_ScanID p) (scan_results t) then None
    else Some {|
      scan_results := (scan_results t ++
        [{| sr_id := s_ScanID p; sr_scanner := s_Scanner p; sr_target := s_Target p;
            sr_timestamp := Format (s_Timestamp p); sr_finding_count := s_FindingCount p;
            sr_max_severity := s_MaxSeverity p; sr_run_id := nullStr runID; sr_verdict := nullStr (s_Verdict p);
            sr_agent_id := nullStr (agentID (s_Partition p));
            sr_agent_instance_id := nullStr (agentInstanceID (s_Partition p));
            sr_session_id := nullStr (sessionID (s_Partition p)); sr_request_id := nullStr (s_RequestID p);
            sr_trace_id := nullStr (s_TraceID p) |}])%list;
      scan_findings := scan_findings t; statements := statements t |}) t.

Definition finding_row (scanID target ts id : string) (f : Finding) (meta : ScanFindingMeta) : FindingRow :=
  {| fr_id := id; fr_scan_id := scanID; fr_scanner := F_Scanner f; fr_target := target;
     fr_rule_id := nullStr (F_RuleID f); fr_category := nullStr (F_Category f); fr_severity := F_Severity f;
     fr_title := F_Title f; fr_description := F_Description f; fr_evidence_summary := nullStr (F_EvidenceSummary f);
     fr_location := F_Location f; fr_line_number := F_LineNumber f; fr_remediation := F_Remediation f;
     fr_tags := json_string <$> F_Tags f; fr_timestamp := ts; fr_run_id := nullStr (meta_RunID meta);
     fr_request_id := nullStr (meta_RequestID meta); fr_session_id := nullStr (meta_SessionID meta);
     fr_agent_id := nullStr (meta_AgentID meta); fr_agent_instance_id := nullStr (meta_AgentInstanceID meta);
     fr_data_axis := match F_DataAxis f with [] => None | axes => Some (MarshalStrings axes) end;
     fr_tool_capability_class := nullStr (F_ToolCapabilityClass f);
     fr_content_fingerprint := nullStr (F_ContentFingerprint f); fr_external_endpoint := nullStr (F_ExternalEndpoint f);
     fr_turn_id := F_TurnID f; fr_evaluation_id := nullStr (meta_EvaluationID meta) |}.

(** The body of the loop; the identifier is the primary key. *)
Definition insert_finding (scanID target ts : string) (f : Finding) (meta : ScanFindingMeta) (t : Tables) : Tables * bool :=
  let id := if F_FindingOccurrenceID f =? "" then NewUUID env (statements t) else F_FindingOccurrenceID f in
  exec (fun t =>
    if existsb (fun r => fr_id r =? id) (scan_findings t) then None
    else Some {| scan_results := scan_results t;
                 scan_findings := (scan_findings t ++ [finding_row scanID target ts id f meta])%list;
                 statements := statements t |}) t.

Fixpoint insert_loop (scanID target ts : string) (findings : list Finding) (meta : ScanFindingMeta) (t : Tables) : Tables * bool :=
  match findings with
  | [] => (t, true)
  | f :: rest =>
      match insert_finding scanID target ts f meta t with
      | (t, false) => (t, false)
      | (t, true) => insert_loop scanID target ts rest meta t
      end
  end.

Definition insert_scan_findings (t : Tables) (scanID target : string) (findings : list Finding) (meta : ScanFindingMeta)
    : Tables * bool :=
  let ts := if (meta_Timestamp meta =? zero_time)%Z then Format (Now env (statements t)) else Format (meta_Timestamp meta) in
  insert_loop scanID target ts findings meta t.

Definition list_recent_findings (t : Tables) (p : correlationAgentPartition) (limit : Z)
    : Tables * option (list SessionFindingRow) :=
  let limit := if (limit <=? 0)%Z then 20%Z else limit in
  match partition_where p with
  | None => (t, Some [])
  | Some sel =>
      let candidateLimit := if (limit <=? maxInt / correlationCandidateMultiplier)%Z
                            then (limit * correlationCandidateMultiplier)%Z else limit in
      query (fun t => session_row <$> recent_rows sel candidateLimit limit t) t
  end.

Fixpoint fired_loop (sel : Identity -> bool) (wanted : list (string * string)) (todo : list (list string))
    (fired : list string) (t : Tables) : Tables * option (list string) :=
  match todo with
  | [] => (t, Some fired)
  | batch :: rest =>
      match query (fired_batch sel batch) t with
      | (t, None) => (t, None)
      | (t, Some keys) => fired_loop sel wanted rest (fired ++ omap (lookup_wanted wanted) keys)%list t
      end
  end.

Definition list_fired_rules (t : Tables) (p : correlationAgentPartition) (candidateRuleIDs : list string)
    : Tables * option (list string) :=
  match candidateRuleIDs, partition_where p with
  | [], _ | _, None => (t, Some [])
  | _, Some sel =>
      let wanted := wanted_loop candidateRuleIDs [] in
      fired_loop sel wanted (batches (length wanted) wanted.*1) [] t
  end.

(** [*audit.Store] behind the two interfaces of the correlator. *)
#[export] Instance table_store : FindingStore Tables := {|
  ListRecentFindingsInSession := list_recent_findings;
  ListFiredCorrelationRuleIDsInSession := list_fired_rules;
  InsertScanSummary := insert_scan_summary;
  InsertScanFindings := insert_scan_findings;
|}.
End Store.

(** [ListScanFindings], the rows of a scan by severity. *)
Definition by_severity (a b : FindingRow) : Prop := String.leb (fr_severity a) (fr_severity b) = true.
#[export] Instance by_severity_dec : RelDecision by_severity := fun a b => bool_eq_dec _ _.

Definition ListScanFindings (env : ActionStore.Env) (t : Tables) (scanID : string) : Tables * option (list FindingRow) :=
  query env (fun t => merge_sort by_severity (List.filter (fun r => fr_scan_id r =? scanID) (scan_findings t))) t.

(** ** The ledger of a partition *)

Definition ledger_of {U : GoUnicode} (t : Tables) (p : correlationAgentPartition) : list string :=
  match partition_where p with None => [] | Some sel => fired_rules sel t end.

(** The identity columns that an identity is written as. *)
Definition written_as (i : correlationAgentPartition) : Identity :=
  (nullStr (sessionID i), nullStr (agentInstanceID i), nullStr (agentID i)).

Definition sees {U : GoUnicode} (p i : correlationAgentPartition) : bool :=
  match partition_where p with None => false | Some sel => sel (written_as i) end.

(** ** Lemmas: texts *)

Lemma trim_right_empty f s : trim_right f s = "" -> sall f s = true.
Proof.
  induction s as [|c s IH]; [done|]. cbn. destruct (trim_right f s) as [|]; [|done].
  destruct (f c); [|done]. intros _. by apply IH.
Qed.

Lemma trim_left_all f s : sall f s = true -> trim_left f s = "".
Proof. induction s as [|c s IH]; [done|]. cbn. intros [-> Hs]%andb_true_iff. by apply IH. Qed.

Lemma trim_left_sall f s : sall f (trim_left f s) = true -> sall f s = true.
Proof. induction s as [|c s IH]; [done|]. cbn. destruct (f c) eqn:Hc; [done|]. cbn. by rewrite Hc. Qed.

(** What SQLite trims to nothing, Go trims to nothing. *)
Lemma blank_TrimSpace {U : GoUnicode} s : sql_trim s = "" -> TrimSpace s = "".
Proof.
  intros H%trim_right_empty%trim_left_sall. unfold TrimSpace.
  assert (Ha : is_ascii s = true).
  { revert H. apply sall_weaken. intros c Hc%Nat.eqb_eq. unfold is_ascii_byte. rewrite Hc. done. }
  rewrite Ha, trim_left_all; [done|]. revert H. apply sall_weaken. intros c Hc. unfold ascii_space.
  by rewrite Hc, orb_true_r.
Qed.

Lemma column_is_null s v : v <> "" -> column_is (nullStr s) v = true <-> s = v.
Proof.
  intros Hv. unfold nullStr. destruct (String.eqb_spec s ""); cbn; [|apply String.eqb_eq].
  split; [done|congruence].
Qed.

Lemma column_blank_null {U : GoUnicode} s : column_blank (nullStr s) = true -> TrimSpace s = "".
Proof.
  unfold column_blank, nullStr. destruct (String.eqb_spec s ""); [by subst|]. cbn. intros H%String.eqb_eq.
  by apply blank_TrimSpace.
Qed.

(** ** Lemmas: the identity condition *)

Section Identity.
Context {U : GoUnicode}.

Lemma canonical_fields p : canonical p ->
  TrimSpace (sessionID p) = sessionID p /\ TrimSpace (agentInstanceID p) = agentInstanceID p /\
  TrimSpace (agentID p) = agentID p /\ sessionID p <> "" /\ (agentInstanceID p <> "" \/ agentID p <> "").
Proof.
  destruct p as [s i a]. intros [Ht Hok]. unfold trimmed in Ht. cbn in *. injection Ht as Hs Hi Ha.
  rewrite Hs, Hi, Ha in Hok. apply andb_true_iff in Hok as [H1%negb_true_iff%String.eqb_neq H2].
  split_and!; [done..|]. apply orb_true_iff in H2 as [H2|H2]; [left|right]; by apply String.eqb_neq, negb_true_iff.
Qed.

Lemma sees_trimmed p i : canonical p -> sees p i = true -> trimmed i = p.
Proof.
  intros (Hs & Hi & Ha & Hns & Hor)%canonical_fields. unfold sees, partition_where, correlationAgentPartitionSQL.
  rewrite Hs, Hi, Ha. apply String.eqb_neq in Hns as Hnb. rewrite Hnb. cbn [orb]. unfold written_as, trimmed.
  destruct p as [ps pi pa], i as [s n a]. cbn in *.
  destruct (String.eqb_spec pi ""), (String.eqb_spec pa ""); cbn; [by destruct Hor| | |];
    rewrite !andb_true_iff, !column_is_null by done.
  - intros [[-> Hb%column_blank_null] ->]. by rewrite Hb, Hs, Ha; subst.
  - intros [[-> ->] Hb%column_blank_null]. by rewrite Hb, Hs, Hi; subst.
  - intros [[-> ->] ->]. by rewrite Hs, Hi, Ha.
Qed.

Lemma sees_self p : canonical p -> sees p p = true.
Proof.
  intros (Hs & Hi & Ha & Hns & Hor)%canonical_fields. unfold sees, partition_where, correlationAgentPartitionSQL.
  rewrite Hs, Hi, Ha. apply String.eqb_neq in Hns as Hnb. rewrite Hnb. cbn [orb]. unfold written_as.
  destruct p as [ps pi pa]. cbn in *.
  destruct (String.eqb_spec pi ""), (String.eqb_spec pa ""); cbn; [by destruct Hor| | |]; subst;
    rewrite !andb_true_iff, ?column_is_null by done; done.
Qed.
End Identity.

(** ** Lemmas: the wanted keys *)

Section Wanted.
Context {U : GoUnicode}.

Lemma wanted_loop_spec candidates : forall wanted,
  Forall plain_rule candidates -> Forall (fun e => norm (snd e) = fst e) wanted ->
  let w := wanted_loop candidates wanted in
  Forall (fun e => norm (snd e) = fst e) w /\ (forall r, r ∈ candidates -> norm r ∈ w.*1) /\
  (forall k, k ∈ wanted.*1 -> k ∈ w.*1).
Proof.
  induction candidates as [|r rest IH]; intros wanted Hp Hw; cbn.
  { split_and!; [done|by intros r ?%elem_of_nil|done]. }
  apply Forall_cons in Hp as [[Hne Hr] Hp]. assert (Ht : TrimSpace r = r) by (by apply TrimSpace_plain).
  rewrite Ht. apply String.eqb_neq in Hne as ->.
  assert (Hn : ToLower r = norm r) by (unfold norm; by rewrite Ht). rewrite Hn. case_bool_decide as Hin.
  - destruct (IH wanted Hp Hw) as (H1 & H2 & H3). split_and!; [done| |done].
    intros r' [->|Hr']%elem_of_cons; auto.
  - destruct (IH (wanted ++ [(norm r, r)])%list Hp) as (H1 & H2 & H3).
    { apply Forall_app. split; [done|]. by constructor. }
    split_and!; [done| |].
    + intros r' [->|Hr']%elem_of_cons; [|by apply H2]. apply H3. rewrite fmap_app. set_solver.
    + intros k Hk. apply H3. rewrite fmap_app. set_solver.
Qed.

Lemma lookup_wanted_Some wanted k x : lookup_wanted wanted k = Some x -> (k, x) ∈ wanted.
Proof.
  unfold lookup_wanted. destruct (find _ wanted) as [[k' x']|] eqn:Hf; [|done]. intros [= <-].
  apply List.find_some in Hf as [Hin Hk%String.eqb_eq]. cbn in *. subst. by apply list_elem_of_In.
Qed.

Lemma lookup_wanted_in wanted k : k ∈ wanted.*1 -> is_Some (lookup_wanted wanted k).
Proof.
  intros ([k' x] & -> & Hin)%list_elem_of_fmap. unfold lookup_wanted. destruct (find _ wanted) eqn:Hf; [by eexists|].
  apply list_elem_of_In in Hin. apply (List.find_none _ _ Hf) in Hin. by rewrite String.eqb_refl in Hin.
Qed.
End Wanted.

Lemma batches_cover n keys k : (length keys <= n)%nat -> k ∈ keys -> exists b, b ∈ batches n keys /\ k ∈ b.
Proof.
  revert keys. induction n as [|n IH]; intros keys Hn Hk.
  { destruct keys; [by apply elem_of_nil in Hk|cbn in Hn; lia]. }
  destruct keys as [|k0 keys]; [by apply elem_of_nil in Hk|]. cbn [batches].
  rewrite <- (take_drop correlationLedgerBatchSize (k0 :: keys)) in Hk. apply elem_of_app in Hk as [Hk|Hk].
  { exists (take correlationLedgerBatchSize (k0 :: keys)). split; [constructor|done]. }
  destruct (IH (drop correlationLedgerBatchSize (k0 :: keys))) as (b & Hb & Hkb); [|done|exists b; split; [by constructor|done]].
  rewrite length_drop. cbn [length] in *. unfold correlationLedgerBatchSize. lia.
Qed.

Lemma elem_of_fired_batch sel batch t k : k ∈ fired_batch sel batch t <-> k ∈ batch /\ k ∈ fired_rules sel t.
Proof.
  unfold fired_batch. rewrite merge_sort_Permutation, elem_of_remove_dups, list_elem_of_In, List.filter_In, <- list_elem_of_In.
  rewrite bool_decide_eq_true. tauto.
Qed.

(** ** The laws *)

Section Laws.
Context {U : GoUnicode} (env : ActionStore.Env) (Format : Time -> string) (MarshalStrings : list string -> string)
  (currentRunID : string).

Notation insert_loop := (insert_loop env MarshalStrings).

Lemma fired_loop_spec sel wanted todo : forall acc t,
  scan_findings (fst (fired_loop env sel wanted todo acc t)) = scan_findings t /\
  forall fired, snd (fired_loop env sel wanted todo acc t) = Some fired ->
    forall x, x ∈ fired <-> x ∈ acc \/ exists b k, b ∈ todo /\ k ∈ b /\ k ∈ fired_rules sel t /\ lookup_wanted wanted k = Some x.
Proof.
  induction todo as [|b todo IH]; intros acc t; cbn [fired_loop fst snd].
  { split; [done|]. intros fired [= <-] x. split; [by left|]. intros [?|(b & k & Hb & _)]; [done|].
    by apply elem_of_nil in Hb. }
  unfold query. destruct (fault env (statements t)); cbn; [done|].
  destruct (IH (acc ++ omap (lookup_wanted wanted) (fired_batch sel b t))%list (sent t)) as [Hs Hf].
  split; [done|]. intros fired Hfired x. rewrite (Hf fired Hfired x), elem_of_app, list_elem_of_omap.
  change (fired_rules sel (sent t)) with (fired_rules sel t). split.
  - intros [[?|(k & Hk & Hx)]|(b' & k & Hb & Hk & Hr & Hx)]; [by left| |].
    + apply elem_of_fired_batch in Hk as [? ?]. right. exists b, k. by split_and!; [constructor| | |].
    + right. exists b', k. by split_and!; [constructor| | |].
  - intros [?|(b' & k & [->|Hb]%elem_of_cons & Hk & Hr & Hx)]; [by left; left| |].
    + left. right. exists k. by rewrite elem_of_fired_batch.
    + right. by exists b', k.
Qed.

Lemma list_fired_spec t p candidates fired :
  snd (list_fired_rules env t p candidates) = Some fired -> Forall plain_rule candidates ->
  forall r, r ∈ candidates -> norm r ∈ map norm fired <-> norm r ∈ ledger_of t p.
Proof.
  unfold list_fired_rules, ledger_of. intros Hf Hp r Hr. destruct candidates as [|c cs]; [by apply elem_of_nil in Hr|].
  destruct (partition_where p) as [sel|].
  2:{ injection Hf as <-. by split; intros ?%elem_of_nil. }
  destruct (wanted_loop_spec (c :: cs) [] Hp ltac:(constructor)) as (Hw & Hin & _).
  set (wanted := wanted_loop (c :: cs) []) in *.
  assert (Hkey : forall k x, lookup_wanted wanted k = Some x -> norm x = k).
  { intros k x Hx%lookup_wanted_Some. rewrite Forall_forall in Hw. by apply (Hw (k, x)). }
  destruct (fired_loop_spec sel wanted (batches (length wanted) wanted.*1) [] t) as [_ Hs]. specialize (Hs _ Hf). split.
  - intros (x & Hrx & Hx)%list_elem_of_fmap. apply Hs in Hx as [?%elem_of_nil|(b & k & _ & _ & Hk & Hx)]; [done|].
    apply Hkey in Hx. by rewrite Hrx, Hx.
  - intros Hl. specialize (Hin r Hr). destruct (batches_cover (length wanted) wanted.*1 (norm r)) as (b & Hb & Hk).
    { by rewrite length_fmap. } { done. }
    destruct (lookup_wanted_in wanted (norm r) Hin) as [x Hx]. apply list_elem_of_fmap. exists x.
    split; [symmetry; by apply Hkey|]. apply Hs. right. by exists b, (norm r).
Qed.

Lemma list_fired_findings t p candidates : scan_findings (fst (list_fired_rules env t p candidates)) = scan_findings t.
Proof.
  unfold list_fired_rules. destruct candidates; [done|]. destruct (partition_where p); [|done]. apply fired_loop_spec.
Qed.

(** The rows an insert appends. *)
Definition rows_of (fs : list Finding) (meta : ScanFindingMeta) (rows : list FindingRow) : Prop :=
  Forall2 (fun f r => row_identity r = written_as (identity meta) /\ fr_scanner r = F_Scanner f /\
                      fr_rule_id r = nullStr (F_RuleID f)) fs rows.

Lemma insert_findings_loop_spec scanID target ts meta fs : forall t,
  exists k rows, (k <= length fs)%nat /\ (snd (insert_loop scanID target ts fs meta t) = true -> k = length fs) /\
    rows_of (take k fs) meta rows /\
    scan_findings (fst (insert_loop scanID target ts fs meta t)) = (scan_findings t ++ rows)%list.
Proof.
  induction fs as [|f fs IH]; intros t; cbn [FindingTable.insert_loop].
  { exists 0%nat, []. split_and!; [done|done|constructor|by rewrite app_nil_r]. }
  assert (Hnone : forall t', scan_findings t' = scan_findings t ->
    exists k rows, (k <= length (f :: fs))%nat /\ (snd (t', false) = true -> k = length (f :: fs)) /\
      rows_of (take k (f :: fs)) meta rows /\ scan_findings (fst (t', false)) = (scan_findings t ++ rows)%list).
  { intros t' Ht. exists 0%nat, []. split_and!; [lia|done|constructor|by rewrite app_nil_r]. }
  unfold insert_finding, exec. destruct (fault env (statements t)); [by apply Hnone|].
  destruct (existsb _ _); [by apply Hnone|].
  set (row := finding_row _ _ _ _ _ _ _).
  match goal with |- context [FindingTable.insert_loop _ _ _ _ _ _ _ ?t1] => destruct (IH t1) as (k & rows & Hk & Hok & Hr & ->) end.
  cbn [scan_findings]. exists (S k), (row :: rows). split_and!; [cbn; lia|intros H; cbn; f_equal; by apply Hok| |].
  - constructor; [by split_and!|exact Hr].
  - by rewrite <- app_assoc.
Qed.

Lemma fired_rules_app sel t t' fs meta rows :
  scan_findings t' = (scan_findings t ++ rows)%list -> rows_of fs meta rows ->
  fired_rules sel t' = (fired_rules sel t ++ if sel (written_as (identity meta)) then omap ledger_entry fs else [])%list.
Proof.
  intros Ht Hr. unfold fired_rules. rewrite Ht, omap_app. f_equal. clear Ht.
  induction Hr as [|f r fs rows (Hi & Hs & Hrule) _ IH]; [by destruct (sel _)|]. cbn. rewrite Hi, Hs, Hrule, IH.
  unfold ledger_entry, of_correlator, nullStr. destruct (sel _); [|done]. cbn.
  destruct (sql_norm (F_Scanner f) =? "correlator"), (F_RuleID f =? ""); done.
Qed.

Lemma insert_findings_spec t scanID target fs meta :
  let run := insert_scan_findings env Format MarshalStrings t scanID target fs meta in
  exists k, (k <= length fs)%nat /\ (snd run = true -> k = length fs) /\
    forall p, ledger_of (fst run) p ≡ₚ (if sees p (identity meta) then omap ledger_entry (take k fs) else []) ++ ledger_of t p.
Proof.
  cbn zeta. unfold insert_scan_findings. set (ts := if (_ =? _)%Z then _ else _).
  destruct (insert_findings_loop_spec scanID target ts meta fs t) as (k & rows & Hk & Hok & Hr & Hs).
  exists k. split_and!; [done|done|]. intros p. unfold ledger_of, sees. destruct (partition_where p) as [sel|]; [|done].
  rewrite (fired_rules_app _ _ _ _ _ _ Hs Hr). by rewrite (comm (++)).
Qed.

Lemma exec_summary_findings t params :
  scan_findings (fst (insert_scan_summary env Format currentRunID t params)) = scan_findings t.
Proof. unfold insert_scan_summary, exec. destruct (fault _ _); [done|]. by destruct (existsb _ _). Qed.

Lemma ledger_of_findings t t' p : scan_findings t' = scan_findings t -> ledger_of t' p = ledger_of t p.
Proof. intros H. unfold ledger_of, fired_rules. by rewrite H. Qed.

Definition table_laws : LedgerLaws Tables (Store := table_store env Format MarshalStrings currentRunID).
Proof.
  refine {| ledger := ledger_of; visible := sees |}.
  - exact sees_trimmed.
  - exact sees_self.
  - intros t p limit q. apply ledger_of_findings. cbn [ListRecentFindingsInSession table_store].
    unfold list_recent_findings. by destruct (partition_where p).
  - intros t p candidates q. apply ledger_of_findings, list_fired_findings.
  - exact list_fired_spec.
  - intros t params p. apply ledger_of_findings, exec_summary_findings.
  - exact insert_findings_spec.
Defined.
End Laws.

(** Writing findings one by one is writing them in one call: the steps of a thread
    of the pool are those of [InsertScanFindings]. *)
Lemma insert_one_by_one {U : GoUnicode} env Format MarshalStrings t scanID target f fs meta :
  meta_Timestamp meta <> zero_time ->
  insert_scan_findings env Format MarshalStrings t scanID target (f :: fs) meta =
    match insert_scan_findings env Format MarshalStrings t scanID target [f] meta with
    | (t, false) => (t, false)
    | (t, true) => insert_scan_findings env Format MarshalStrings t scanID target fs meta
    end.
Proof.
  intros Hz. unfold insert_scan_findings. apply Z.eqb_neq in Hz. rewrite Hz. cbn [insert_loop].
  by destruct (insert_finding _ _ _ _ _ _ _ _) as [t' []].
Qed.

(** ** The property *)

(** C23: one synthetic finding per pattern and partition.  Start with a ledger
    without duplicates, and let any number of calls of [RunForSession] and writes
    of other scans interleave, with the window read outside and the ledger access
    inside the stripe lock, whatever statements fail: then no correlation rule
    stands twice in the ledger of an agent partition, the rows of the correlator
    that the identity condition of the partition selects.  The condition is exact:
    the rows of a caller with a trimmed identity are all among them, those of a
    caller with blanks around its identity are in no ledger, and such a caller
    does persist a rule again ([padded_identity_fires_again]).  The identifiers of
    the patterns are ASCII without white space, as those of the built-in patterns
    are; on others Go and SQLite disagree ([unicode_rule_fires_again]).  The lock
    is one of the process: other processes are not covered. *)
Theorem Correlation_once_per_partition {U : GoUnicode} env Format MarshalStrings currentRunID c t0 t ts p sel :
  let store := table_store env Format MarshalStrings currentRunID in
  Forall (fun pattern => plain_text (p_ID pattern) = true) (patterns c) ->
  canonical p -> partition_where p = Some sel ->
  NoDup (fired_rules sel t0) -> rtc (pool_step (Store := store) c) (t0, []) (t, ts) ->
  NoDup (fired_rules sel t) /\
  forall r, r ∈ scan_findings t -> row_identity r = written_as p -> sql_norm (fr_scanner r) = "correlator" ->
    forall rule, fr_rule_id r = Some rule -> sql_norm rule ∈ fired_rules sel t.
Proof.
  intros store Hplain Hp Hsel H0 Hrun.
  assert (Hl : forall s, fired_rules sel s = ledger_of s p) by (intros s; unfold ledger_of; by rewrite Hsel).
  rewrite Hl in H0. split.
  - rewrite Hl. exact (pool_run_NoDup (Laws := table_laws env Format MarshalStrings currentRunID) c Hplain p Hp t0 t ts H0 Hrun).
  - intros r Hr Hi Hs rule Hrule. unfold fired_rules. apply list_elem_of_omap. exists r. split; [done|].
    pose proof (sees_self p Hp) as Hsee. unfold sees in Hsee. rewrite Hsel in Hsee.
    by rewrite Hi, Hsee, Hs, Hrule.
Qed.

(** ** A concrete store *)

#[local] Existing Instance ascii_only.

Definition w_env : ActionStore.Env := {| fault := fun _ => false; Now := fun _ => 7%Z; NewUUID := fun n => pretty n |}.
Definition w_marshal (l : list string) : string := "[" ++ Join (map (fun s => QUOTE ++ s ++ QUOTE) l) "," ++ "]".
#[local] Instance w_store : FindingStore Tables := table_store w_env pretty w_marshal "run-1".

Definition no_tables : Tables := {| scan_results := []; scan_findings := []; statements := 0 |}.

Definition w_finding (rule axis : string) : Finding :=
  {| F_ID := ""; F_FindingOccurrenceID := rule; F_Severity := "HIGH"; F_Title := ""; F_Description := "";
     F_EvidenceSummary := ""; F_Location := ""; F_LineNumber := None; F_Remediation := ""; F_Scanner := "rules";
     F_RuleID := rule; F_Category := ""; F_Tags := []; F_DataAxis := [axis]; F_ToolCapabilityClass := "";
     F_ContentFingerprint := "k1"; F_ExternalEndpoint := ""; F_TurnID := None |}.

(** Two scans of one agent: it read a secret, and it sent it away. *)
Definition w_access : Finding := w_finding "SEC-A" "sensitive_access".
Definition w_egress : Finding := w_finding "C2-X" "egress_external".

Definition at_time (meta : ScanFindingMeta) (now : Time) : ScanFindingMeta := stamped meta now.

Definition w_scanned : Tables :=
  fst (InsertScanFindings (fst (InsertScanFindings no_tables "scan-1" "t" [w_access] (at_time demo_meta 1)))
         "scan-2" "t" [w_egress] (at_time demo_meta 2)).

Definition w_partition : correlationAgentPartition := identity demo_meta.
Definition w_where : Identity -> bool := default (fun _ => false) (partition_where w_partition).

Definition persisted_rules (t : Tables) : list (option string * option string) :=
  (fun r => (fr_rule_id r, fr_agent_id r)) <$> List.filter (fun r => fr_scanner r =? "correlator") (scan_findings t).

Lemma w_canonical : canonical w_partition.
Proof. by split; vm_compute. Qed.

(** The two scans are written, then two calls for the same agent run in turn. *)
Lemma Correlation_once_per_partition_witness :
  exists t ts, rtc (pool_step demo_correlator) (no_tables, []) (t, ts) /\
    persisted_rules t = [(Some "CORR-DATA-EXFIL", Some "a")] /\ ts = [TDone None; TDone None] /\ NoDup (fired_rules w_where t).
Proof.
  assert (H : exists t ts, rtc (pool_step demo_correlator) (no_tables, []) (t, ts) /\
    persisted_rules t = [(Some "CORR-DATA-EXFIL", Some "a")] /\ ts = [TDone None; TDone None]).
  { do 2 eexists. split; [|].
    - eapply rtc_l; [eapply (ps_scan _ _ _ "scan-1" "t" [w_access] (at_time demo_meta 1)); by repeat constructor|].
      eapply rtc_l; [eapply (ps_scan _ _ _ "scan-2" "t" [w_egress] (at_time demo_meta 2)); by repeat constructor|].
      eapply rtc_l; [eapply (ps_call _ _ _ demo_call); by split|].
      eapply rtc_l; [eapply (ps_call _ _ _ demo_call); by split|].
      do 2 (eapply rtc_l; [eapply (ps_thread _ _ _ 0%nat); [vm_compute; reflexivity|vm_compute; reflexivity]|]).
      eapply rtc_l; [eapply (ps_thread _ _ _ 1%nat); [vm_compute; reflexivity|vm_compute; reflexivity]|].
      do 4 (eapply rtc_l; [eapply (ps_thread _ _ _ 0%nat); [vm_compute; reflexivity|vm_compute; reflexivity]|]).
      do 2 (eapply rtc_l; [eapply (ps_thread _ _ _ 1%nat); [vm_compute; reflexivity|vm_compute; reflexivity]|]).
      apply rtc_refl.
    - split; vm_compute; reflexivity. }
  destruct H as (t & ts & Hrun & Hp & Hts). exists t, ts. split; [exact Hrun|]. split; [exact Hp|]. split; [exact Hts|].
  apply (Correlation_once_per_partition w_env pretty w_marshal "run-1" demo_correlator no_tables t ts w_partition w_where).
  - by repeat constructor.
  - exact w_canonical.
  - reflexivity.
  - constructor.
  - exact Hrun.
Defined.

(** A caller whose agent identifier has a blank in front: the ledger is read for
    the trimmed identifier and the finding is written under the untrimmed one, so
    each call persists the rule again. *)
Definition padded_call : run_call :=
  {| rc_session := "s"; rc_instance := "i"; rc_target := "t";
     rc_meta := {| meta_SessionID := "s"; meta_AgentInstanceID := "i"; meta_AgentID := " a"; meta_RunID := "";
                   meta_RequestID := ""; meta_TraceID := ""; meta_EvaluationID := ""; meta_Timestamp := 3 |};
     rc_scan_id := "corr-1"; rc_uuid8 := fun _ => "00000000"; rc_now := 4 |}.

Definition again (call : run_call) : run_call :=
  {| rc_session := rc_session call; rc_instance := rc_instance call; rc_target := rc_target call; rc_meta := rc_meta call;
     rc_scan_id := rc_scan_id call ++ "-again"; rc_uuid8 := rc_uuid8 call; rc_now := rc_now call |}.

Definition called_twice (c : SessionCorrelator) (call : run_call) (t : Tables) : Tables :=
  fst (RunForSession c (again call) (fst (RunForSession c call t))).

Example trimmed_identity_fires_once :
  persisted_rules (called_twice demo_correlator demo_call w_scanned) = [(Some "CORR-DATA-EXFIL", Some "a")].
Proof. vm_compute. reflexivity. Qed.

Example padded_identity_fires_again :
  persisted_rules (called_twice demo_correlator padded_call w_scanned) =
    [(Some "CORR-DATA-EXFIL", Some " a"); (Some "CORR-DATA-EXFIL", Some " a")].
Proof. vm_compute. reflexivity. Qed.

(** A pattern whose identifier has the letter E with an acute accent: Go folds it,
    SQLite does not, and the ledger never answers for its rule. *)
Definition fold_acute : GoUnicode := {|
  unicode_upper s := s; unicode_lower s := ReplaceByte (smap ascii_lower s) (ascii_of_nat 137) (byte_string 169);
  unicode_trim s := s; unicode_fold := String.eqb; unicode_quote s := s |}.

Definition acute_pattern : CorrelationPattern :=
  {| p_ID := byte_string 195 ++ byte_string 137; Description := Description demo_link;
     WindowEvents := WindowEvents demo_link; SeverityOnMatch := SeverityOnMatch demo_link; AllOf := AllOf demo_link;
     Sequence := Sequence demo_link; FingerprintLink := FingerprintLink demo_link; Ordered := Ordered demo_link |}.

#[local] Instance acute_store : FindingStore Tables := table_store (U := fold_acute) w_env pretty w_marshal "run-1".

Definition acute_run (call : run_call) (t : Tables) : Tables :=
  fst (RunForSession (U := fold_acute) (Store := acute_store) (NewSessionCorrelator [acute_pattern]) call t).

Example unicode_rule_fires_again :
  length (persisted_rules (acute_run (again demo_call) (acute_run demo_call w_scanned))) = 2%nat.
Proof. vm_compute. reflexivity. Qed.
