(* ===== verification/PolicyEngine.v ===== *)
(** * The policy engine (internal/enforce/policy.go)

    The enforcement decisions of operators and of the watcher, over the table
    of [ActionStore].  Reads that name a connector resolve most specific first;
    writes act on exactly one scope.  [resolve] is the abstract reading of a
    directive and [spec_op] the abstract effect of an operation; the theorems
    show that the engine implements both, what a failed [Allow] can leave
    behind, and when the names of scoped tools cannot collide. *)
From stdpp Require Import base list gmap strings.
From Stdlib Require Import ZArith Lia Ascii.
From S2P Require Import Prelude GoStrings ActionStore.

Local Open Scope string_scope.
Local Open Scope store_scope.

Section PolicyEngine.
Context (env : Env).
(** Whether the engine was built over a nil store. *)
Context (store_nil : bool).

(** The guard [if e.store == nil] of every method. *)
Definition guarded {A} (zero : A) (m : M A) : M A := if store_nil then ret zero else m.

(** ** Global operations *)

Definition IsBlocked (targetType name : string) : M bool :=
  guarded false (HasAction env targetType name "install" "block").
Definition IsAllowed (targetType name : string) : M bool :=
  guarded false (HasAction env targetType name "install" "allow").
Definition IsQuarantined (targetType name : string) : M bool :=
  guarded false (HasAction env targetType name "file" "quarantine").

Definition Block (targetType name reason : string) : M () :=
  guarded () (SetActionField env targetType name "install" "block" reason).

(** The two clean-ups of an allow run to the end; their errors are collected. *)
Definition clear_residual (target : string) (clear : string -> M ()) : M () :=
  e1 <- try (clear "file") ;;
  e2 <- try (clear "runtime") ;;
  let errs := (list_error (ErrWrap "clear file action" <$> e1) ++
               list_error (ErrWrap "clear runtime action" <$> e2))%list in
  match errs with [] => ret () | _ => fail (ErrPartial target errs) end.

Definition Allow (targetType name reason : string) : M () :=
  guarded () (
    SetActionField env targetType name "install" "allow" reason ;;
    clear_residual name (ClearActionField env targetType name)).

Definition Unblock (targetType name : string) : M () :=
  guarded () (ClearActionField env targetType name "install").
Definition Quarantine (targetType name reason : string) : M () :=
  guarded () (SetActionField env targetType name "file" "quarantine" reason).
Definition ClearQuarantine (targetType name : string) : M () :=
  guarded () (ClearActionField env targetType name "file").
Definition Disable (targetType name reason : string) : M () :=
  guarded () (SetActionField env targetType name "runtime" "disable" reason).
Definition Enable (targetType name : string) : M () :=
  guarded () (ClearActionField env targetType name "runtime").

(** The error of the store is dropped. *)
Definition SetSourcePath (targetType name path : string) : M () :=
  guarded () (try (ActionStore.SetSourcePath env targetType name path) ;; ret ()).

Definition SetAction (targetType name sourcePath : string) (state : ActionState) (reason : string) : M () :=
  guarded () (ActionStore.SetAction env targetType name sourcePath state reason).
Definition GetAction (targetType name : string) : M (option ActionEntry) :=
  guarded None (ActionStore.GetAction env targetType name).
Definition ListBlocked : M (list ActionEntry) := guarded [] (ListByAction env "install" "block").
Definition ListAllowed : M (list ActionEntry) := guarded [] (ListByAction env "install" "allow").
Definition ListAll : M (list ActionEntry) := guarded [] (ListAllActions env).
Definition ListByType (targetType : string) : M (list ActionEntry) :=
  guarded [] (ListActionsByType env targetType).
Definition RemoveAction (targetType name : string) : M () :=
  guarded () (ActionStore.RemoveAction env targetType name).

(** ** Operations scoped to a connector *)

(** The value of a dimension and whether it is a directive. *)
Definition actionFieldValue (actions : ActionState) (field : string) : M (string * bool) :=
  if field =? "install" then ret (Install actions, negb (Install actions =? ""))
  else if field =? "file" then ret (File actions, negb (File actions =? ""))
  else if field =? "runtime" then ret (Runtime actions, negb (Runtime actions =? ""))
  else fail (ErrField field).

Definition actionFieldForConnector (targetType name connector field : string) : M (string * bool) :=
  entry <- GetActionForConnector env targetType name connector ;;
  match entry with
  | None => ret ("", false)
  | Some e => actionFieldValue (Actions e) field
  end.

(** The common body of the four queries: the scoped directive decides when
    there is one, else the global entry is asked. *)
Definition scoped_query (connector : string) (scoped : M (string * bool)) (value : string)
    (global : M bool) : M bool :=
  if negb (connector =? "") then
    av <- scoped ;;
    if av.2 then ret (av.1 =? value) else global
  else global.

Definition IsBlockedForConnector (targetType name connector : string) : M bool :=
  guarded false (scoped_query connector
    (actionFieldForConnector targetType name connector "install") "block"
    (HasAction env targetType name "install" "block")).

Definition IsAllowedForConnector (targetType name connector : string) : M bool :=
  guarded false (scoped_query connector
    (actionFieldForConnector targetType name connector "install") "allow"
    (HasAction env targetType name "install" "allow")).

Definition IsQuarantinedForConnector (targetType name connector : string) : M bool :=
  guarded false (scoped_query connector
    (actionFieldForConnector targetType name connector "file") "quarantine"
    (HasAction env targetType name "file" "quarantine")).

Definition IsDisabledForConnector (targetType name connector : string) : M bool :=
  guarded false (scoped_query connector
    (actionFieldForConnector targetType name connector "runtime") "disable"
    (HasAction env targetType name "runtime" "disable")).

Definition BlockForConnector (targetType name connector reason : string) : M () :=
  guarded () (SetActionFieldForConnector env targetType name connector "install" "block" reason).

Definition AllowForConnector (targetType name connector reason : string) : M () :=
  guarded () (
    SetActionFieldForConnector env targetType name connector "install" "allow" reason ;;
    clear_residual name (ClearActionFieldForConnector env targetType name connector)).

Definition UnblockForConnector (targetType name connector : string) : M () :=
  guarded () (ClearActionFieldForConnector env targetType name connector "install").

Definition RemoveActionForConnector (targetType name connector : string) : M () :=
  guarded () (ActionStore.RemoveActionForConnector env targetType name connector).

(** ** Tools: the connector is part of the name *)

Definition toolConnectorTarget (toolName connector : string) : string :=
  if connector =? "" then toolName else "@" ++ connector ++ "/" ++ toolName.

Definition actionField (targetType name field : string) : M (string * bool) :=
  entry <- ActionStore.GetAction env targetType name ;;
  match entry with
  | None => ret ("", false)
  | Some e => actionFieldValue (Actions e) field
  end.

Definition IsToolBlockedForConnector (toolName connector : string) : M bool :=
  guarded false (scoped_query connector
    (actionField "tool" (toolConnectorTarget toolName connector) "install") "block"
    (HasAction env "tool" toolName "install" "block")).

Definition IsToolAllowedForConnector (toolName connector : string) : M bool :=
  guarded false (scoped_query connector
    (actionField "tool" (toolConnectorTarget toolName connector) "install") "allow"
    (HasAction env "tool" toolName "install" "allow")).

Definition BlockToolForConnector (toolName connector reason : string) : M () :=
  guarded () (SetActionField env "tool" (toolConnectorTarget toolName connector) "install" "block" reason).

Definition AllowToolForConnector (toolName connector reason : string) : M () :=
  guarded () (
    let target := toolConnectorTarget toolName connector in
    SetActionField env "tool" target "install" "allow" reason ;;
    clear_residual target (ClearActionField env "tool" target)).
End PolicyEngine.

(** [sha256.Sum256] of the policy directory, truncated to 8 bytes. *)
Definition PolicyStableID (sha256 : string -> string) (policyDir : string) : string :=
  if policyDir =? "" then "none" else hex_encode (String.substring 0 8 (sha256 policyDir)).

(** ** The abstract specification *)

(** The directive that governs a connector: its own when it has one, else the
    global one. *)
Definition resolve (v : Spec) (t n connector : string) (d : Dim) : string :=
  if negb (connector =? "") && negb (v (t, n, connector) d =? "") then v (t, n, connector) d
  else v (t, n, "") d.

(** The same for a tool, whose scoped directive is stored under its own name. *)
Definition resolve_tool (v : Spec) (tool connector : string) (d : Dim) : string :=
  let scoped := v ("tool", toolConnectorTarget tool connector, "") d in
  if negb (connector =? "") && negb (scoped =? "") then scoped else v ("tool", tool, "") d.

(** The operations that change state; [scope] is [None] for the methods without
    a connector argument. *)
Inductive op :=
| OBlock (t n : string) (scope : option string) (reason : string)
| OAllow (t n : string) (scope : option string) (reason : string)
| OUnblock (t n : string) (scope : option string)
| ORemove (t n : string) (scope : option string)
| OQuarantine (t n reason : string)
| OClearQuarantine (t n : string)
| ODisable (t n reason : string)
| OEnable (t n : string)
| OSetSourcePath (t n path : string)
| OSetAction (t n path : string) (state : ActionState) (reason : string)
| OBlockTool (tool connector reason : string)
| OAllowTool (tool connector reason : string).

Definition exec_op (env : Env) (store_nil : bool) (o : op) : M () :=
  match o with
  | OBlock t n None r => Block env store_nil t n r
  | OBlock t n (Some c) r => BlockForConnector env store_nil t n c r
  | OAllow t n None r => Allow env store_nil t n r
  | OAllow t n (Some c) r => AllowForConnector env store_nil t n c r
  | OUnblock t n None => Unblock env store_nil t n
  | OUnblock t n (Some c) => UnblockForConnector env store_nil t n c
  | ORemove t n None => RemoveAction env store_nil t n
  | ORemove t n (Some c) => RemoveActionForConnector env store_nil t n c
  | OQuarantine t n r => Quarantine env store_nil t n r
  | OClearQuarantine t n => ClearQuarantine env store_nil t n
  | ODisable t n r => Disable env store_nil t n r
  | OEnable t n => Enable env store_nil t n
  | OSetSourcePath t n p => SetSourcePath env store_nil t n p
  | OSetAction t n p a r => SetAction env store_nil t n p a r
  | OBlockTool tool c r => BlockToolForConnector env store_nil tool c r
  | OAllowTool tool c r => AllowToolForConnector env store_nil tool c r
  end.

Definition set_dim (d : Dim) (v : string) (d' : Dim) (old : string) : string :=
  if decide (d' = d) then v else old.

(** An allow is the only directive left in its scope. *)
Definition only_allow (d : Dim) (_ : string) : string :=
  match d with DInstall => "allow" | _ => "" end.

Definition spec_op (o : op) : Spec -> Spec :=
  match o with
  | OBlock t n c _ => update (t, n, default "" c) (set_dim DInstall "block")
  | OAllow t n c _ => update (t, n, default "" c) only_allow
  | OUnblock t n c => update (t, n, default "" c) (set_dim DInstall "")
  | ORemove t n c => update (t, n, default "" c) (fun _ _ => "")
  | OQuarantine t n _ => update (t, n, "") (set_dim DFile "quarantine")
  | OClearQuarantine t n => update (t, n, "") (set_dim DFile "")
  | ODisable t n _ => update (t, n, "") (set_dim DRuntime "disable")
  | OEnable t n => update (t, n, "") (set_dim DRuntime "")
  | OSetSourcePath _ _ _ => fun v => v
  | OSetAction t n _ a _ => update (t, n, "") (fun d _ => state_field a d)
  | OBlockTool tool c _ => update ("tool", toolConnectorTarget tool c, "") (set_dim DInstall "block")
  | OAllowTool tool c _ => update ("tool", toolConnectorTarget tool c, "") only_allow
  end.

(** The scope an operation writes. *)
Definition op_key (o : op) : Key :=
  match o with
  | OBlock t n c _ | OAllow t n c _ | OUnblock t n c | ORemove t n c => (t, n, default "" c)
  | OQuarantine t n _ | OClearQuarantine t n | ODisable t n _ | OEnable t n
  | OSetSourcePath t n _ | OSetAction t n _ _ _ => (t, n, "")
  | OBlockTool tool c _ | OAllowTool tool c _ => ("tool", toolConnectorTarget tool c, "")
  end.

Fixpoint run_ops (env : Env) (ops : list op) : M () :=
  match ops with
  | [] => ret ()
  | o :: ops' => exec_op env false o ;; run_ops env ops'
  end.

(** ** Lemmas *)

Lemma set_field_view env t n c d value reason s s' res :
  SetActionFieldForConnector env t n c (field_name d) value reason s = (s', res) ->
  match res with
  | inl _ => forall k d', view s' k d' = update (t, n, c) (set_dim d value) (view s) k d'
  | inr _ => forall k d', view s' k d' = view s k d'
  end.
Proof.
  intros H. pose proof (store_write env (CField t n c (field_name d) value reason) s s' res H) as Hw.
  destruct res as [[]|e]; [|done]. intros k d'. rewrite Hw. simpl. unfold update, set_dim.
  rewrite field_name_eqb. repeat first [case_decide|case_bool_decide]; simplify_eq; done.
Qed.

Lemma clear_field_view env t n c d s s' res :
  ClearActionFieldForConnector env t n c (field_name d) s = (s', res) ->
  match res with
  | inl _ => forall k d', view s' k d' = update (t, n, c) (set_dim d "") (view s) k d'
  | inr _ => forall k d', view s' k d' = view s k d'
  end.
Proof.
  intros H. pose proof (store_write env (CClear t n c (field_name d)) s s' res H) as Hw.
  destruct res as [[]|e]; [|done]. intros k d'. rewrite Hw. simpl. unfold update, set_dim.
  rewrite field_name_eqb. repeat first [case_decide|case_bool_decide]; simplify_eq; done.
Qed.

Lemma bind_inv {A B} (m : M A) (f : A -> M B) s s' res :
  bind m f s = (s', res) ->
  (exists s1 a, m s = (s1, inl a) /\ f a s1 = (s', res)) \/
  (exists e, m s = (s', inr e) /\ res = inr e).
Proof.
  unfold bind. destruct (m s) as [s1 [a|e]] eqn:Hm; [by eauto|]. intros [= <- <-]. eauto.
Qed.

Lemma try_inv {A} (m : M A) s s' o :
  try m s = (s', inl o) ->
  match o with None => exists a, m s = (s', inl a) | Some e => m s = (s', inr e) end.
Proof. unfold try. destruct (m s) as [s1 [a|e]]; intros [= <- <-]; eauto. Qed.

Lemma try_ok {A} (m : M A) s : exists s' o, try m s = (s', inl o).
Proof. unfold try. destruct (m s) as [s1 [a|e]]; eauto. Qed.

(** A clear whose error was caught: it cleared the dimension or did nothing. *)
Lemma try_clear_view env t n c d s s1 o :
  try (ClearActionFieldForConnector env t n c (field_name d)) s = (s1, inl o) ->
  forall k d', view s1 k d' =
    match o with
    | None => update (t, n, c) (set_dim d "") (view s) k d'
    | Some _ => view s k d'
    end.
Proof.
  intros H. apply try_inv in H. destruct o as [e|].
  - apply clear_field_view in H. done.
  - destruct H as [a H]. apply clear_field_view in H. done.
Qed.

Lemma clear_residual_view env target t n c s s' res :
  clear_residual target (ClearActionFieldForConnector env t n c) s = (s', res) ->
  match res with
  | inl _ => forall k d, view s' k d =
      update (t, n, c) (set_dim DRuntime "") (update (t, n, c) (set_dim DFile "") (view s)) k d
  | inr _ => forall k d, k <> (t, n, c) \/ d = DInstall -> view s' k d = view s k d
  end.
Proof.
  unfold clear_residual, bind.
  destruct (try_ok (ClearActionFieldForConnector env t n c (field_name DFile)) s) as (s1 & o1 & H1).
  destruct (try_ok (ClearActionFieldForConnector env t n c (field_name DRuntime)) s1) as (s2 & o2 & H2).
  simpl in H1, H2. rewrite H1. rewrite H2.
  pose proof (try_clear_view env t n c DFile _ _ _ H1) as V1.
  pose proof (try_clear_view env t n c DRuntime _ _ _ H2) as V2.
  destruct o1 as [e1|], o2 as [e2|]; intros [= <- <-]; intros k d.
  - intros Hk. by rewrite V2, V1.
  - intros Hk. rewrite V2. unfold update, set_dim. rewrite V1.
    by repeat case_decide; destruct Hk; simplify_eq.
  - intros Hk. rewrite V2, V1. unfold update, set_dim.
    by repeat case_decide; destruct Hk; simplify_eq.
  - rewrite V2. unfold update at 1 2. by rewrite V1.
Qed.

(** What an operation leaves behind: its whole effect when it returns nil;
    otherwise nothing, or an [Allow] whose install directive is in place. *)
Definition allow_op (o : op) : bool :=
  match o with OAllow _ _ _ _ | OAllowTool _ _ _ => true | _ => false end.

Definition op_outcome (o : op) (v v' : Spec) (res : () + error) : Prop :=
  match res with
  | inl _ => forall k d, v' k d = spec_op o v k d
  | inr _ =>
      (forall k d, v' k d = v k d) \/
      (allow_op o = true /\ v' (op_key o) DInstall = "allow" /\
       forall k d, k <> op_key o -> v' k d = v k d)
  end.

Lemma allow_view env target t n c reason s s' res :
  (SetActionFieldForConnector env t n c "install" "allow" reason ;;
   clear_residual target (ClearActionFieldForConnector env t n c)) s = (s', res) ->
  match res with
  | inl _ => forall k d, view s' k d = update (t, n, c) only_allow (view s) k d
  | inr _ => (forall k d, view s' k d = view s k d) \/
      (view s' (t, n, c) DInstall = "allow" /\ forall k d, k <> (t, n, c) -> view s' k d = view s k d)
  end.
Proof.
  intros H. apply bind_inv in H as [(s1 & [] & H1 & H2)|(e & H1 & ->)].
  - apply (set_field_view env t n c DInstall) in H1. apply clear_residual_view in H2.
    destruct res as [[]|e].
    + intros k d. rewrite H2. unfold update, set_dim, only_allow. rewrite H1. unfold update, set_dim.
      destruct d; repeat case_decide; done.
    + right. split.
      * rewrite H2 by eauto. rewrite H1. unfold update, set_dim. by repeat case_decide.
      * intros k d Hk. rewrite H2 by eauto. rewrite H1. unfold update. by case_decide.
  - left. by apply (set_field_view env t n c DInstall) in H1.
Qed.

Lemma op_outcome_simple o v v' (res : () + error) :
  (match res with
   | inl _ => forall k d, v' k d = spec_op o v k d
   | inr _ => forall k d, v' k d = v k d
   end) -> op_outcome o v v' res.
Proof. unfold op_outcome. destruct res; eauto. Qed.

Lemma op_outcome_allow o v v' (res : () + error) k :
  allow_op o = true -> op_key o = k -> spec_op o v = update k only_allow v ->
  (match res with
   | inl _ => forall k' d, v' k' d = update k only_allow v k' d
   | inr _ => (forall k' d, v' k' d = v k' d) \/
       (v' k DInstall = "allow" /\ forall k' d, k' <> k -> v' k' d = v k' d)
   end) -> op_outcome o v v' res.
Proof.
  unfold op_outcome. intros Ha <- Hs. rewrite Hs. destruct res; [done|]. intros [?|[??]]; eauto.
Qed.

Lemma exec_op_outcome env o s s' res :
  exec_op env false o s = (s', res) -> op_outcome o (view s) (view s') res.
Proof.
  destruct o as [t n [c|] r|t n [c|] r|t n [c|]|t n [c|]|t n r|t n|t n r|t n|t n p|t n p a r|tool c r|tool c r];
    simpl; intros H;
    try (eapply op_outcome_simple; first [by apply (set_field_view env _ _ _ DInstall) in H
      |by apply (set_field_view env _ _ _ DFile) in H|by apply (set_field_view env _ _ _ DRuntime) in H
      |by apply (clear_field_view env _ _ _ DInstall) in H|by apply (clear_field_view env _ _ _ DFile) in H
      |by apply (clear_field_view env _ _ _ DRuntime) in H]);
    try (eapply op_outcome_allow; [done..|]; by apply allow_view in H).
  - apply op_outcome_simple. by apply (store_write env (CRemove t n c)) in H.
  - apply op_outcome_simple. by apply (store_write env (CRemove t n "")) in H.
  - apply op_outcome_simple. apply bind_inv in H as [(s1 & o & H & Hr)|(e & H & ->)].
    + unfold ret in Hr. simplify_eq. apply try_inv in H. destruct o as [e|].
      * by apply (store_write env (CPath t n "" p)) in H.
      * destruct H as [[] H]. by apply (store_write env (CPath t n "" p)) in H.
    + unfold try in H. by destruct (ActionStore.SetSourcePath _ _ _ _ _) as [? []].
  - apply op_outcome_simple. by apply (store_write env (CSet t n "" p a r)) in H.
Qed.

Lemma spec_op_ext o v w : (forall k d, v k d = w k d) -> forall k d, spec_op o v k d = spec_op o w k d.
Proof.
  intros Hv k d. destruct o; simpl; unfold update; try case_decide; try done;
    unfold set_dim, only_allow; by rewrite ?Hv.
Qed.

Lemma run_ops_view env ops : forall s s', run_ops env ops s = (s', inl ()) ->
  forall v, (forall k d, view s k d = v k d) ->
  forall k d, view s' k d = foldl (fun v o => spec_op o v) v ops k d.
Proof.
  induction ops as [|o ops IH]; simpl; intros s s' H v Hv k d.
  - unfold ret in H. simplify_eq. apply Hv.
  - apply bind_inv in H as [(s1 & [] & H1 & H2)|(e & ? & ?)]; [|done].
    apply exec_op_outcome in H1. simpl in H1. apply (IH s1 s' H2). intros k' d'.
    rewrite H1. by apply spec_op_ext.
Qed.

Lemma scoped_query_view env (t n c value : string) (d : Dim) (scoped : M (string * bool)) s s' b (dir : string) :
  value <> "" ->
  (forall s0 s1 av, view s0 = view s -> scoped s0 = (s1, inl av) ->
     rows s1 = rows s0 /\ av = (dir, negb (dir =? ""))) ->
  scoped_query c scoped value (HasAction env t n (field_name d) value) s = (s', inl b) ->
  rows s' = rows s /\
  b = bool_decide ((if negb (c =? "") && negb (dir =? "") then dir else view s (t, n, "") d) = value).
Proof.
  intros Hv Hsc. unfold scoped_query.
  assert (Hg : forall s0 s1, view s0 = view s -> rows s0 = rows s ->
    HasAction env t n (field_name d) value s0 = (s1, inl b) ->
    rows s1 = rows s /\ b = bool_decide (view s (t, n, "") d = value)).
  { intros s0 s1 Hs0 Hr0 H. apply HasAction_view in H as (Hr & d' & Hd & ->); [|done].
    rewrite Hr, Hr0, Hs0. by destruct d, d'. }
  destruct (c =? "") eqn:Hc; simpl.
  - intros H. by apply Hg in H.
  - intros H. apply bind_inv in H as [(s1 & av & H1 & H2)|(e & ? & ?)]; [|done].
    apply Hsc in H1 as [Hr ->]; [|done]. simpl in H2.
    destruct (dir =? ""); simpl in *.
    + apply Hg in H2; [done| |done]. unfold view. by rewrite Hr.
    + unfold ret in H2. simplify_eq. split; [done|].
      destruct (String.eqb_spec dir value);
        [by rewrite bool_decide_eq_true_2|by rewrite bool_decide_eq_false_2].
Qed.

Lemma actionField_view env t n c (d : Dim) s s' av :
  actionFieldForConnector env t n c (field_name d) s = (s', inl av) ->
  rows s' = rows s /\ av = (view s (t, n, c) d, negb (view s (t, n, c) d =? "")).
Proof.
  intros H. apply bind_inv in H as [(s1 & o & H1 & H2)|(e & ? & ?)]; [|done].
  apply GetAction_view in H1 as [Hr Hv]. rewrite <- (Hv d). destruct o as [e|].
  - destruct d; cbn in H2; unfold ret in H2; simplify_eq; done.
  - unfold ret in H2. by simplify_eq.
Qed.

Lemma keeps_guarded {A} nil (zero : A) m : keeps_rows m -> keeps_rows (guarded nil zero m).
Proof. unfold guarded. destruct nil; auto with claw. Qed.

Lemma keeps_scoped_query c scoped value global :
  keeps_rows scoped -> keeps_rows global -> keeps_rows (scoped_query c scoped value global).
Proof.
  intros Hs Hg. unfold scoped_query. case_match; [|done]. apply keeps_bind; [done|].
  intros av. case_match; auto with claw.
Qed.

Lemma keeps_actionField env t n c field : keeps_rows (actionFieldForConnector env t n c field).
Proof.
  apply keeps_bind; [auto with claw|]. intros [e|]; [|auto with claw].
  unfold actionFieldValue. repeat case_match; auto with claw.
Qed.

#[export] Hint Resolve keeps_guarded keeps_scoped_query keeps_actionField : claw.

(** ** Properties *)

(** C21: the engine implements its abstract specification.  An operation that
    returns nil changes the directives exactly as [spec_op] says; one that
    returns an error changes no scope but its own, and either changes nothing
    or is an allow whose install directive is already in place (only the
    clean-up of quarantine and disable is partial).  A sequence of operations
    that all return nil has the effect of the abstract sequence. *)
Theorem PolicyEngine_refines env s s' :
  (forall o res, exec_op env false o s = (s', res) -> op_outcome o (view s) (view s') res) /\
  (forall ops, run_ops env ops s = (s', inl ()) ->
   forall k d, view s' k d = foldl (fun v o => spec_op o v) (view s) ops k d).
Proof.
  split.
  - intros o res. apply exec_op_outcome.
  - intros ops H. by apply (run_ops_view env ops s s' H).
Qed.

(** The answer of a query: the store is not changed and the answer is [b]. *)
Definition answers (m : M bool) (s : Store) (b : bool) : Prop :=
  forall s' b', m s = (s', inl b') -> rows s' = rows s /\ b' = b.

Definition returns {A} (m : M A) : Prop := forall s, exists s' a, m s = (s', inl a).

Lemma returns_bind {A B} (m : M A) (f : A -> M B) :
  returns m -> (forall a, returns (f a)) -> returns (bind m f).
Proof. intros Hm Hf s. unfold bind. destruct (Hm s) as (s1 & a & ->). apply Hf. Qed.

Lemma returns_ret {A} (a : A) : returns (ret a).
Proof. intros s. by eexists _, _. Qed.

Lemma returns_query {A} (env : Env) (what : string) (q : gmap Key Row -> A) :
  (forall i, fault env i = false) -> returns (queryDB env what q).
Proof. intros Hf s. unfold queryDB. rewrite Hf. by eexists _, _. Qed.

Lemma scoped_query_returns env c scoped value t n d :
  (forall i, fault env i = false) -> returns scoped ->
  validateActionFieldAndValue (field_name d) value = None ->
  returns (scoped_query c scoped value (HasAction env t n (field_name d) value)).
Proof.
  intros Hf Hs Hv.
  assert (returns (HasAction env t n (field_name d) value)) as Hg.
  { unfold HasAction, HasActionForConnector, validated. rewrite Hv. destruct d; by apply returns_query. }
  unfold scoped_query. case_match; [|done]. apply returns_bind; [done|]. intros av.
  case_match; [apply returns_ret|done].
Qed.

Lemma actionField_returns env t n c d :
  (forall i, fault env i = false) -> returns (actionFieldForConnector env t n c (field_name d)).
Proof.
  intros Hf. apply returns_bind; [by apply returns_query|]. intros [e|]; [|apply returns_ret].
  destruct d; apply returns_ret.
Qed.

(** Every query of a connector that succeeds is answered most specific
    first: by the directive of the connector when it has one for that
    dimension, else by the global one; tools resolve in the same way through
    their scoped name.  When the database does not fail every query is answered.
    Over a nil store every answer is false. *)
Theorem PolicyEngine_resolution env s t n c :
  (answers (IsBlockedForConnector env false t n c) s (bool_decide (resolve (view s) t n c DInstall = "block")) /\
   answers (IsAllowedForConnector env false t n c) s (bool_decide (resolve (view s) t n c DInstall = "allow")) /\
   answers (IsQuarantinedForConnector env false t n c) s
     (bool_decide (resolve (view s) t n c DFile = "quarantine")) /\
   answers (IsDisabledForConnector env false t n c) s
     (bool_decide (resolve (view s) t n c DRuntime = "disable")) /\
   answers (IsToolBlockedForConnector env false n c) s
     (bool_decide (resolve_tool (view s) n c DInstall = "block")) /\
   answers (IsToolAllowedForConnector env false n c) s
     (bool_decide (resolve_tool (view s) n c DInstall = "allow"))) /\
  ((forall i, fault env i = false) ->
   forall q, q ∈ [IsBlockedForConnector env false t n c; IsAllowedForConnector env false t n c;
     IsQuarantinedForConnector env false t n c; IsDisabledForConnector env false t n c;
     IsToolBlockedForConnector env false n c; IsToolAllowedForConnector env false n c] ->
   exists s' b, q s = (s', inl b)) /\
  (forall q, q ∈ [IsBlockedForConnector env true t n c; IsAllowedForConnector env true t n c;
     IsQuarantinedForConnector env true t n c; IsDisabledForConnector env true t n c;
     IsToolBlockedForConnector env true n c; IsToolAllowedForConnector env true n c] ->
   q s = (s, inl false)).
Proof.
  split; [|split].
  - assert (Hq : forall d value, value <> "" -> answers (scoped_query c
      (actionFieldForConnector env t n c (field_name d)) value
      (HasAction env t n (field_name d) value)) s (bool_decide (resolve (view s) t n c d = value))).
    { intros d value Hv s' b' H. eapply scoped_query_view in H; [exact H|done|].
      intros s0 s1 av <- Ha. by apply actionField_view in Ha. }
    assert (Ht : forall value, value <> "" -> answers (scoped_query c
      (actionField env "tool" (toolConnectorTarget n c) "install") value
      (HasAction env "tool" n "install" value)) s
      (bool_decide (resolve_tool (view s) n c DInstall = value))).
    { intros value Hv s' b' H. eapply (scoped_query_view env _ _ _ _ DInstall) in H; [exact H|done|].
      intros s0 s1 av <- Ha. by apply (actionField_view env _ _ "" DInstall) in Ha. }
    split_and!; [by apply (Hq DInstall)|by apply (Hq DInstall)|by apply (Hq DFile)
      |by apply (Hq DRuntime)|by apply Ht|by apply Ht].
  - intros Hf q Hq. revert s. change (returns q).
    assert (Hs : forall d value, validateActionFieldAndValue (field_name d) value = None ->
      returns (scoped_query c (actionFieldForConnector env t n c (field_name d)) value
        (HasAction env t n (field_name d) value))).
    { intros d value. apply scoped_query_returns; [done|by apply actionField_returns]. }
    assert (Ht : forall value, validateActionFieldAndValue "install" value = None ->
      returns (scoped_query c (actionField env "tool" (toolConnectorTarget n c) "install") value
        (HasAction env "tool" n "install" value))).
    { intros value. apply (scoped_query_returns env _ _ _ _ _ DInstall); [done|].
      by apply (actionField_returns env "tool" _ "" DInstall). }
    repeat (apply elem_of_cons in Hq as [->|Hq]; [solve [by apply (Hs DInstall)|by apply (Hs DFile)
      |by apply (Hs DRuntime)|by apply Ht]|]). by apply elem_of_nil in Hq.
  - intros q Hq. repeat (apply elem_of_cons in Hq as [->|Hq]; [done|]). by apply elem_of_nil in Hq.
Qed.

(** An allow that returns nil is the only directive of its scope: the target
    is then allowed for the connector of the scope, and for a global scope
    neither quarantined nor disabled for any connector without directives of
    its own.  An allow scoped to a connector does not touch the global
    quarantine and disable, which keep governing that connector. *)
Theorem Allow_effect env t n c reason s s' :
  AllowForConnector env false t n c reason s = (s', inl ()) ->
  resolve (view s') t n c DInstall = "allow" /\
  (c = "" -> forall k d, (forall d', view s (t, n, k) d' = "") \/ k = "" -> d <> DInstall ->
     resolve (view s') t n k d = "") /\
  (c <> "" -> forall d, d <> DInstall -> resolve (view s') t n c d = view s (t, n, "") d) /\
  (forall t' n' k d, (t', n', k) <> (t, n, c) -> view s' (t', n', k) d = view s (t', n', k) d).
Proof.
  intros H. apply (exec_op_outcome env (OAllow t n (Some c) reason)) in H. simpl in H.
  split_and!.
  - unfold resolve. rewrite !H. unfold update, only_allow. case_decide as Hk; [|done]. simpl.
    destruct (c =? "") eqn:Hc; simpl; [|done]. apply String.eqb_eq in Hc. subst. by rewrite decide_True.
  - intros -> k d Hk Hd. unfold resolve. rewrite !H. unfold update, only_allow.
    rewrite (decide_True _ _ (eq_refl (t, n, ""))).
    destruct Hk as [Hk| ->]; [|destruct d; simpl; done].
    case_decide as He; [destruct d; simplify_eq; simpl; done|].
    rewrite Hk. simpl. rewrite andb_false_r. by destruct d.
  - intros Hc d Hd. unfold resolve. rewrite !H. unfold update, only_allow.
    rewrite decide_True by done. rewrite decide_False by congruence. destruct d; simpl; try done;
      by rewrite andb_false_r.
  - intros t' n' k d Hk. rewrite H. unfold update. by rewrite decide_False.
Qed.

Definition plain_connector (c : string) : bool := avoids "/" c.
Definition plain_tool (t : string) : bool := negb (HasPrefix t "@").

Lemma toolConnectorTarget_inj t c t' c' :
  plain_connector c = true -> plain_connector c' = true ->
  plain_tool t = true -> plain_tool t' = true ->
  toolConnectorTarget t c = toolConnectorTarget t' c' -> t = t' /\ c = c'.
Proof.
  unfold toolConnectorTarget, plain_tool. intros Hc Hc' Ht Ht' E.
  assert (Hat : forall r, negb (HasPrefix ("@" ++ r) "@") = false).
  { intros r. apply negb_false_iff, HasPrefix_spec. by exists r. }
  destruct (String.eqb_spec c ""), (String.eqb_spec c' ""); subst;
    [done|by rewrite Hat in Ht|by rewrite Hat in Ht'|].
  simpl in E. injection E as E. by destruct (sep_split "/" c c' t t' Hc Hc' E) as [-> ->].
Qed.

(** A block or an allow of one tool for one connector that returns nil
    changes the answer of no other pair of tool and connector, provided the
    connector names hold no slash and the tool names do not start with an at
    sign.  Without that the key spaces collide, as the last part shows: the
    scoped key of one pair is the key of another. *)
Theorem tool_scopes_isolated env tool c reason s s' (allow : bool) :
  plain_connector c = true -> plain_tool tool = true -> c <> "" ->
  exec_op env false (if allow then OAllowTool tool c reason else OBlockTool tool c reason) s = (s', inl ()) ->
  resolve_tool (view s') tool c DInstall = (if allow then "allow" else "block") /\
  (forall tool' c' d, plain_connector c' = true -> plain_tool tool' = true -> (tool', c') <> (tool, c) ->
     resolve_tool (view s') tool' c' d = resolve_tool (view s) tool' c' d) /\
  toolConnectorTarget "c" "a/b" = toolConnectorTarget "b/c" "a".
Proof.
  intros Hc Ht Hne H. apply exec_op_outcome in H. simpl in H.
  assert (Hself : view s' ("tool", toolConnectorTarget tool c, "") DInstall
                  = if allow then "allow" else "block").
  { rewrite H. destruct allow; simpl; unfold update, set_dim; by rewrite decide_True. }
  assert (Hother : forall tool' d, tool' <> toolConnectorTarget tool c ->
     view s' ("tool", tool', "") d = view s ("tool", tool', "") d).
  { intros tool' d Hn. rewrite H. destruct allow; simpl; unfold update; rewrite decide_False; congruence. }
  split_and!; [| |done].
  - unfold resolve_tool. rewrite Hself. apply String.eqb_neq in Hne. rewrite Hne. by destruct allow.
  - intros tool' c' d Hc' Ht' Hn. unfold resolve_tool. rewrite !Hother; [done| |].
    + intros E. apply (toolConnectorTarget_inj tool' "") in E as [-> <-]; done.
    + intros E. apply toolConnectorTarget_inj in E as [-> ->]; done.
Qed.

(** ** Witnesses *)

Definition w_blocked : Store :=
  (exec_op calm false (OBlock "skill" "s" None "bad") empty_store).1.
Definition w_allowed : Store :=
  (exec_op calm false (OAllow "skill" "s" (Some "codex") "fine here") w_blocked).1.

(** A global block with an allow for one connector: that connector is allowed,
    the others stay blocked. *)
Example scoped_allow_overrides_global_block :
  (IsBlockedForConnector calm false "skill" "s" "codex" w_allowed).2 = inl false /\
  (IsAllowedForConnector calm false "skill" "s" "codex" w_allowed).2 = inl true /\
  (IsBlockedForConnector calm false "skill" "s" "hermes" w_allowed).2 = inl true.
Proof. vm_compute. done. Qed.

(** An allow whose first clean-up fails returns an error, with the allow set. *)
Example partial_allow :
  let env := {| fault := fun n => Nat.eqb n 4; Now := Z.of_nat; NewUUID := fun _ => "id" |} in
  let '(s', res) := exec_op env false (OAllow "skill" "s" None "ok") empty_store in
  res = inr (ErrPartial "s" [ErrWrap "clear file action" (ErrDB "clear action field file")]) /\
  view s' ("skill", "s", "") DInstall = "allow".
Proof. vm_compute. done. Qed.

Lemma Allow_effect_witness :
  resolve (view w_allowed) "skill" "s" "codex" DInstall = "allow" /\
  view w_allowed ("skill", "s", "") DInstall = "block".
Proof.
  assert (AllowForConnector calm false "skill" "s" "codex" "fine here" w_blocked = (w_allowed, inl ())) as H
    by (vm_compute; reflexivity).
  destruct (Allow_effect calm "skill" "s" "codex" "fine here" w_blocked w_allowed H) as (H1 & _ & _ & H2).
  split; [exact H1|]. rewrite H2; [vm_compute; reflexivity|done].
Defined.

Lemma tool_scopes_isolated_witness :
  resolve_tool (view (exec_op calm false (OBlockTool "sh" "codex" "no") empty_store).1)
    "sh" "codex" DInstall = "block" /\
  resolve_tool (view (exec_op calm false (OBlockTool "sh" "codex" "no") empty_store).1)
    "sh" "hermes" DInstall = "".
Proof.
  set (s' := (exec_op calm false (OBlockTool "sh" "codex" "no") empty_store).1).
  assert (exec_op calm false (OBlockTool "sh" "codex" "no") empty_store = (s', inl ())) as H
    by (vm_compute; reflexivity).
  destruct (tool_scopes_isolated calm "sh" "codex" "no" empty_store s' false) as (H1 & H2 & _);
    [vm_compute; reflexivity|vm_compute; reflexivity|done|exact H|].
  split; [exact H1|]. rewrite H2; [vm_compute; reflexivity..|congruence].
Defined.
