(* ===== verification/AssetPolicy.v ===== *)
(** * The asset policy (internal/config/asset_policy.go)

    The operator's allow, deny and registry gate for MCP servers, skills and
    plugins, with the resolution of the policy and of its mode for a connector
    (internal/config/application_protection.go, config.go, claw.go).  A Go map
    is the list of its entries in the order in which the call at hand iterates
    over it, since that order is random: the keys are distinct, and the
    theorems say where the order matters. *)
From stdpp Require Import base list strings sorting.
From Stdlib Require Import ZArith Lia Ascii.
From S2P Require Import Prelude GoStrings.

Local Open Scope string_scope.

Abbreviation GoMap V := (list (string * V)).

Definition map_get {V} (m : GoMap V) (k : string) : option V :=
  snd <$> List.find (fun kv => kv.1 =? k) m.

(** ** Data *)

Definition AssetPolicyModeObserve : string := "observe".
Definition AssetPolicyModeAction : string := "action".
Definition registryEmptyActionDeny : string := "deny".
Definition registryEmptyActionAllow : string := "allow".

Record AssetRuntimeDetection := {
  rd_Enabled : bool;
  TerminalCommands : bool;
  UnknownTerminalMCP : string;
}.

Record AssetPolicyRule := {
  Name : string;
  r_Connector : string;
  r_Reason : string;
  r_URL : string;
  r_Command : string;
  ArgsPrefix : list string;
  r_Transport : string;
  SourcePathContains : list string;
}.

Record AssetTypePolicy := {
  Default : string;
  RegistryRequired : bool;
  RegistryEmptyAction : string;
  Registry : list AssetPolicyRule;
  Allowed : list AssetPolicyRule;
  Denied : list AssetPolicyRule;
  RuntimeDetection : AssetRuntimeDetection;
}.

Record PerConnectorAssetTypePolicy := {
  o_Default : string;
  o_RegistryRequired : option bool;
  o_RegistryEmptyAction : string;
}.

Record PerConnectorAssetPolicy := {
  pc_Mode : string;
  pc_MCP : option PerConnectorAssetTypePolicy;
  pc_Skill : option PerConnectorAssetTypePolicy;
  pc_Plugin : option PerConnectorAssetTypePolicy;
}.

Record AssetPolicyConfig := {
  ap_Enabled : bool;
  ap_Mode : string;
  MCP : AssetTypePolicy;
  Skill : AssetTypePolicy;
  Plugin : AssetTypePolicy;
  Connectors : GoMap PerConnectorAssetPolicy;
}.

(** The fields of [ApplicationProtectionConfig] that the mode depends on: the
    connector entries are their [AssetPolicy.Mode]. *)
Record ApplicationProtectionConfig := {
  app_Enabled : bool;
  app_Mode : string;
  app_Connectors : GoMap string;
}.

(** The fields of [Config] behind [activeConnectors]: the keys of
    [guardrail.connectors], [guardrail.connector] and [claw.mode]. *)
Record Config := {
  AssetPolicy : AssetPolicyConfig;
  ApplicationProtection : ApplicationProtectionConfig;
  Guardrail_Connectors : list string;
  Guardrail_Connector : string;
  Claw_Mode : string;
}.

Record AssetPolicyInput := {
  in_TargetType : string;
  in_Name : string;
  in_Connector : string;
  in_SourcePath : string;
  in_URL : string;
  in_Command : string;
  in_Args : list string;
  in_Transport : string;
  in_RuntimeSurface : string;
}.

Record AssetPolicyDecision := {
  Enabled : bool;
  Mode : string;
  Action : string;
  RawAction : string;
  WouldBlock : bool;
  Reason : string;
  Source : string;
  RegistryStatus : string;
  RegistryConfigured : bool;
  RegistrySource : string;
  TargetType : string;
  TargetName : string;
  d_Connector : string;
  RuntimeSurface : string;
}.

Definition defaultAssetTypePolicy (runtime : bool) : AssetTypePolicy :=
  {| Default := "allow"; RegistryRequired := false; RegistryEmptyAction := "";
     Registry := []; Allowed := []; Denied := [];
     RuntimeDetection :=
       if runtime
       then {| rd_Enabled := true; TerminalCommands := true;
               UnknownTerminalMCP := AssetPolicyModeObserve |}
       else {| rd_Enabled := false; TerminalCommands := false; UnknownTerminalMCP := "" |} |}.

Definition DefaultAssetPolicy : AssetPolicyConfig :=
  {| ap_Enabled := false; ap_Mode := AssetPolicyModeObserve; MCP := defaultAssetTypePolicy true;
     Skill := defaultAssetTypePolicy false; Plugin := defaultAssetTypePolicy false;
     Connectors := [] |}.

Section AssetPolicy.
Context {U : GoUnicode}.

(** ** Normalisation *)

Definition normalizeAssetToken (value : string) : string := ToLower (TrimSpace value).

Definition normalizeConnectorKey (name : string) : string :=
  let n := ToLower (TrimSpace name) in
  if (n =? "open-hands") || (n =? "open_hands") then "openhands" else n.

Definition normalizeAssetMode (mode : string) : string :=
  if EqualFold (TrimSpace mode) AssetPolicyModeAction then AssetPolicyModeAction
  else AssetPolicyModeObserve.

Definition normalizeAssetDefault (value : string) : string :=
  let v := ToLower (TrimSpace value) in
  if (v =? "deny") || (v =? "block") then "deny"
  else if (v =? "allow") || (v =? "") then "allow" else "allow".

Definition normalizeRegistryEmptyAction (value : string) : string :=
  let v := ToLower (TrimSpace value) in
  if (v =? "allow") || (v =? "warn") then registryEmptyActionAllow
  else if (v =? "deny") || (v =? "block") || (v =? "") then registryEmptyActionDeny
  else registryEmptyActionDeny.

Definition coalesceString (v fallback : string) : string := if v =? "" then fallback else v.

Definition ParseRegistrySourceID (reason : string) : string :=
  let prefix := "registry:" in
  let r := TrimSpace reason in
  if negb (HasPrefix r prefix) then ""
  else TrimSpace (String.substring (String.length prefix) (String.length r - String.length prefix) r).

(** ** Rules *)

Definition backslash : ascii := ascii_of_nat 92.

Definition sourcePathMatches (needles : list string) (sourcePath : string) : bool :=
  if sourcePath =? "" then false
  else
    let normal := ToLower (ReplaceByte sourcePath backslash "/") in
    existsb (fun n => Contains normal (ToLower (ReplaceByte n backslash "/"))) needles.

(** The loop over [rule.ArgsPrefix]; the guard before it has checked the length. *)
Fixpoint args_match (want args : list string) : bool :=
  match want, args with
  | [], _ => true
  | w :: want', a :: args' => (TrimSpace w =? TrimSpace a) && args_match want' args'
  | _ :: _, [] => false
  end.

(** The tests of [assetRuleMatches] in order: whether the constraint is present
    and, when it is, whether the input satisfies it. *)
Definition rule_constraints (rule : AssetPolicyRule) (inp : AssetPolicyInput) : list (bool * bool) :=
  [ (negb (Name rule =? ""), EqualFold (TrimSpace (Name rule)) (TrimSpace (in_Name inp)));
    (negb (r_Connector rule =? ""), EqualFold (TrimSpace (r_Connector rule)) (TrimSpace (in_Connector inp)));
    (negb (r_URL rule =? ""), TrimSpace (r_URL rule) =? TrimSpace (in_URL inp));
    (negb (r_Command rule =? ""),
       filepath_Base (TrimSpace (r_Command rule)) =? filepath_Base (TrimSpace (in_Command inp)));
    (negb (bool_decide (ArgsPrefix rule = [])),
       negb (length (in_Args inp) <? length (ArgsPrefix rule))%nat && args_match (ArgsPrefix rule) (in_Args inp));
    (negb (r_Transport rule =? ""), EqualFold (TrimSpace (r_Transport rule)) (TrimSpace (in_Transport inp)));
    (negb (bool_decide (SourcePathContains rule = [])),
       sourcePathMatches (SourcePathContains rule) (in_SourcePath inp)) ].

Fixpoint constraints_hold (hasConstraint : bool) (cs : list (bool * bool)) : bool :=
  match cs with
  | [] => hasConstraint
  | (false, _) :: cs' => constraints_hold hasConstraint cs'
  | (true, ok) :: cs' => if ok then constraints_hold true cs' else false
  end.

Definition assetRuleMatches (rule : AssetPolicyRule) (inp : AssetPolicyInput) : bool :=
  constraints_hold false (rule_constraints rule inp).

Definition findAssetRule (rules : list AssetPolicyRule) (inp : AssetPolicyInput) : option AssetPolicyRule :=
  List.find (fun rule => assetRuleMatches rule inp) rules.

Definition registryStatus (rules : list AssetPolicyRule) (inp : AssetPolicyInput) : string :=
  match rules with
  | [] => "unknown"
  | _ => match findAssetRule rules inp with Some _ => "registered" | None => "unregistered" end
  end.

Definition ruleReason (rule : AssetPolicyRule) (fallback : string) : string :=
  if negb (TrimSpace (r_Reason rule) =? "") then TrimSpace (r_Reason rule) else fallback.

Definition assetRegistryConfigured (rules : list AssetPolicyRule) : bool :=
  (0 <? length rules)%nat.

(** ** The policy and the mode of a connector *)

(** The lookup shared by the override maps: the exact key, else the first entry
    of the iteration whose key has the same normal form. *)
Definition override_lookup {V} (m : GoMap V) (connector : string) : option V :=
  if (connector =? "") || (length m =? 0)%nat then None
  else match map_get m connector with
       | Some v => Some v
       | None =>
           let want := normalizeConnectorKey connector in
           if want =? "" then None
           else snd <$> List.find (fun kv => normalizeConnectorKey kv.1 =? want) m
       end.

Definition connectorOverride (c : AssetPolicyConfig) (connector : string) : option PerConnectorAssetPolicy :=
  override_lookup (Connectors c) connector.

Definition app_connectorOverride (c : ApplicationProtectionConfig) (connector : string) : option string :=
  override_lookup (app_Connectors c) connector.

Definition connectorTypeOverride (c : AssetPolicyConfig) (connector targetType : string)
    : option PerConnectorAssetTypePolicy :=
  match connectorOverride c connector with
  | None => None
  | Some pc =>
      if targetType =? "mcp" then pc_MCP pc
      else if targetType =? "skill" then pc_Skill pc
      else if targetType =? "plugin" then pc_Plugin pc else None
  end.

Definition applyAssetTypeOverride (base : AssetTypePolicy) (o : PerConnectorAssetTypePolicy) : AssetTypePolicy :=
  {| Default := if negb (TrimSpace (o_Default o) =? "") then TrimSpace (o_Default o) else Default base;
     RegistryRequired := default (RegistryRequired base) (o_RegistryRequired o);
     RegistryEmptyAction :=
       if negb (TrimSpace (o_RegistryEmptyAction o) =? "") then TrimSpace (o_RegistryEmptyAction o)
       else RegistryEmptyAction base;
     Registry := Registry base; Allowed := Allowed base; Denied := Denied base;
     RuntimeDetection := RuntimeDetection base |}.

Definition with_runtime (rd : AssetRuntimeDetection) : AssetRuntimeDetection :=
  let unknown := if UnknownTerminalMCP rd =? "" then AssetPolicyModeObserve else UnknownTerminalMCP rd in
  if negb (rd_Enabled rd) && negb (TerminalCommands rd) && (unknown =? AssetPolicyModeObserve)
  then {| rd_Enabled := true; TerminalCommands := true; UnknownTerminalMCP := unknown |}
  else {| rd_Enabled := rd_Enabled rd; TerminalCommands := TerminalCommands rd;
          UnknownTerminalMCP := unknown |}.

Definition withDefaults (p : AssetTypePolicy) (runtime : bool) : AssetTypePolicy :=
  {| Default := if TrimSpace (Default p) =? "" then "allow" else Default p;
     RegistryRequired := RegistryRequired p; RegistryEmptyAction := RegistryEmptyAction p;
     Registry := Registry p; Allowed := Allowed p; Denied := Denied p;
     RuntimeDetection := if runtime then with_runtime (RuntimeDetection p) else RuntimeDetection p |}.

(** A nil [Config] is [None]. *)
Definition assetPolicyFor (c : option Config) (connector targetType : string) : option AssetTypePolicy :=
  match c with
  | None => None
  | Some c =>
      let token := normalizeAssetToken targetType in
      let base :=
        if token =? "mcp" then Some (withDefaults (MCP (AssetPolicy c)) true)
        else if token =? "skill" then Some (withDefaults (Skill (AssetPolicy c)) false)
        else if token =? "plugin" then Some (withDefaults (Plugin (AssetPolicy c)) false)
        else None in
      match base with
      | None => None
      | Some p =>
          match connectorTypeOverride (AssetPolicy c) connector token with
          | Some o => Some (applyAssetTypeOverride p o)
          | None => Some p
          end
      end
  end.

Definition EffectiveAssetTypePolicy := assetPolicyFor.

Definition AssetRuntimeDetectionFor (c : option Config) (targetType : string) : option AssetRuntimeDetection :=
  RuntimeDetection <$> assetPolicyFor c "" targetType.

Definition EffectiveMode (c : option AssetPolicyConfig) (connector : string) : string :=
  match c with
  | None => AssetPolicyModeObserve
  | Some c =>
      let global := if negb (TrimSpace (ap_Mode c) =? "") then TrimSpace (ap_Mode c)
                    else AssetPolicyModeObserve in
      match connectorOverride c connector with
      | Some pc => if negb (TrimSpace (pc_Mode pc) =? "") then TrimSpace (pc_Mode pc) else global
      | None => global
      end
  end.

(** ** The configured connectors *)

Definition activeConnector (c : option Config) : string :=
  match c with
  | None => "openclaw"
  | Some c =>
      if negb (TrimSpace (Guardrail_Connector c) =? "") then TrimSpace (Guardrail_Connector c)
      else if negb (TrimSpace (Claw_Mode c) =? "") then TrimSpace (Claw_Mode c) else "openclaw"
  end.

Definition HasConnectorConfigured (c : option Config) : bool :=
  match c with
  | None => false
  | Some c =>
      existsb (fun name => negb (normalizeConnectorKey name =? "")) (Guardrail_Connectors c) ||
      negb (TrimSpace (Guardrail_Connector c) =? "") || negb (TrimSpace (Claw_Mode c) =? "")
  end.

(** The loop of [activeConnectors] over the map: the normal forms, each once. *)
Fixpoint roster_loop (keys seen : list string) : list string :=
  match keys with
  | [] => []
  | name :: keys' =>
      let normalized := normalizeConnectorKey name in
      if negb (normalized =? "") && negb (bool_decide (normalized ∈ seen))
      then normalized :: roster_loop keys' (normalized :: seen)
      else roster_loop keys' seen
  end.

Definition string_le (a b : string) : Prop := String.leb a b = true.
#[local] Instance string_le_dec : RelDecision string_le := fun a b => bool_eq_dec _ _.

Definition activeConnectors (c : option Config) : list string :=
  match c with
  | None => []
  | Some cfg =>
      if negb (HasConnectorConfigured c) then []
      else match roster_loop (Guardrail_Connectors cfg) [] with
           | [] => [activeConnector c]
           | names => merge_sort string_le names
           end
  end.

Definition manualConnectorConfigured (c : option Config) (connector : string) : bool :=
  match c with
  | None => false
  | Some _ =>
      let want := normalizeConnectorKey connector in
      if want =? "" then false
      else existsb (fun name => normalizeConnectorKey name =? want) (activeConnectors c)
  end.

Definition EffectiveAssetPolicyModeForConnector (c : option Config) (connector : string) : string :=
  match c with
  | None => AssetPolicyModeObserve
  | Some cfg =>
      let first_nonempty (m : string) (rest : string) :=
        if negb (TrimSpace m =? "") then TrimSpace m else rest in
      let automatic :=
        if negb (app_Enabled (ApplicationProtection cfg)) || manualConnectorConfigured c connector
        then first_nonempty (ap_Mode (AssetPolicy cfg)) AssetPolicyModeObserve
        else
          let global := first_nonempty (app_Mode (ApplicationProtection cfg)) AssetPolicyModeObserve in
          match app_connectorOverride (ApplicationProtection cfg) connector with
          | Some m => first_nonempty m global
          | None => global
          end in
      match connectorOverride (AssetPolicy cfg) connector with
      | Some pc => first_nonempty (pc_Mode pc) automatic
      | None => automatic
      end
  end.

(** ** The decision *)

Definition assetPolicyViolation (base : AssetPolicyDecision) (mode reason source : string) : AssetPolicyDecision :=
  let block := mode =? AssetPolicyModeAction in
  {| Enabled := Enabled base; Mode := Mode base;
     Action := if block then "block" else "allow"; RawAction := "block";
     WouldBlock := if block then WouldBlock base else true;
     Reason := reason; Source := source;
     RegistryStatus := coalesceString (RegistryStatus base) "unregistered";
     RegistryConfigured := RegistryConfigured base; RegistrySource := RegistrySource base;
     TargetType := TargetType base; TargetName := TargetName base;
     d_Connector := d_Connector base; RuntimeSurface := RuntimeSurface base |}.

(** A decision with the fields the branches of the code set. *)
Definition decide_with (out : AssetPolicyDecision) (source reason status registry_source : string) : AssetPolicyDecision :=
  {| Enabled := Enabled out; Mode := Mode out; Action := Action out; RawAction := RawAction out;
     WouldBlock := WouldBlock out; Reason := reason; Source := source; RegistryStatus := status;
     RegistryConfigured := RegistryConfigured out; RegistrySource := registry_source;
     TargetType := TargetType out; TargetName := TargetName out;
     d_Connector := d_Connector out; RuntimeSurface := RuntimeSurface out |}.

Definition EvaluateAssetPolicy (c : option Config) (inp : AssetPolicyInput) : AssetPolicyDecision :=
  let targetType := normalizeAssetToken (in_TargetType inp) in
  let name := if TrimSpace (in_Name inp) =? "" then "unknown" else TrimSpace (in_Name inp) in
  let out enabled mode source configured :=
    {| Enabled := enabled; Mode := mode; Action := "allow"; RawAction := "allow"; WouldBlock := false;
       Reason := ""; Source := source; RegistryStatus := "unknown"; RegistryConfigured := configured;
       RegistrySource := ""; TargetType := targetType; TargetName := name;
       d_Connector := TrimSpace (in_Connector inp); RuntimeSurface := TrimSpace (in_RuntimeSurface inp) |} in
  let subject := targetType ++ " " ++ Quote name in
  match c with
  | None => out false AssetPolicyModeObserve "asset-policy-disabled" false
  | Some cfg =>
      if negb (ap_Enabled (AssetPolicy cfg)) then out false AssetPolicyModeObserve "asset-policy-disabled" false
      else match assetPolicyFor c (in_Connector inp) targetType with
      | None => out true AssetPolicyModeObserve "asset-policy-unsupported" false
      | Some p =>
          let mode := normalizeAssetMode (EffectiveAssetPolicyModeForConnector c (in_Connector inp)) in
          let registryConfigured := assetRegistryConfigured (Registry p) in
          let out := out true mode "asset-policy" registryConfigured in
          match findAssetRule (Denied p) inp with
          | Some rule =>
              assetPolicyViolation out mode (ruleReason rule (subject ++ " is denied by asset policy")) "admin-deny"
          | None =>
          let regStatus := registryStatus (Registry p) inp in
          match findAssetRule (Allowed p) inp with
          | Some rule =>
              decide_with out "admin-allow" (ruleReason rule (subject ++ " is explicitly allowed")) regStatus ""
          | None =>
          if regStatus =? "registered" then
            decide_with out "registry" (subject ++ " is registered") regStatus
              (match findAssetRule (Registry p) inp with
               | Some rule => ParseRegistrySourceID (r_Reason rule)
               | None => ""
               end)
          else
          let out := decide_with out "asset-policy" "" regStatus "" in
          let default_gate :=
            if normalizeAssetDefault (Default p) =? "deny" then
              assetPolicyViolation out mode (subject ++ " is denied by default asset policy") "default-deny"
            else decide_with out "default-allow" (subject ++ " allowed by default asset policy") regStatus "" in
          if RegistryRequired p then
            if registryConfigured then
              assetPolicyViolation out mode (subject ++ " is not in the approved registry") "registry-required"
            else if normalizeRegistryEmptyAction (RegistryEmptyAction p) =? registryEmptyActionDeny then
              assetPolicyViolation out mode
                (subject ++ " is blocked because asset policy requires a registry but none is configured")
                "registry-required-empty"
            else default_gate
          else default_gate
          end end
      end
  end.
End AssetPolicy.

(** ** Lemmas *)

Section Facts.
Context {U : GoUnicode}.

Lemma constraints_hold_spec cs : forall b,
  constraints_hold b cs = (b || existsb fst cs) && forallb (fun c => implb c.1 c.2) cs.
Proof.
  induction cs as [|[[] ok] cs IH]; intros b; simpl.
  - by destruct b.
  - rewrite orb_true_r. destruct ok; simpl; [apply IH|done].
  - apply IH.
Qed.

Lemma args_match_spec want : forall args,
  negb (length args <? length want)%nat && args_match want args = true <->
  (TrimSpace <$> want) `prefix_of` (TrimSpace <$> args).
Proof.
  induction want as [|w want IH]; intros args; simpl.
  - split; [|done]. intros _. apply prefix_nil.
  - destruct args as [|a args]; simpl.
    + split; [done|]. by intros ?%prefix_nil_not.
    + change (S (length args) <? S (length want))%nat with (length args <? length want)%nat.
      specialize (IH args). rewrite andb_true_iff in IH. rewrite !andb_true_iff, String.eqb_eq. split.
      * intros (? & -> & ?). apply prefix_cons, IH. done.
      * intros Hp. pose proof (prefix_cons_inv_1 _ _ _ _ Hp). apply prefix_cons_inv_2 in Hp.
        apply IH in Hp. naive_solver.
Qed.

Lemma sourcePath_spec needles path :
  sourcePathMatches needles path = true <->
  exists n, n ∈ needles /\ path <> "" /\
    Contains (ToLower (ReplaceByte path backslash "/")) (ToLower (ReplaceByte n backslash "/")) = true.
Proof.
  unfold sourcePathMatches. destruct (String.eqb_spec path "") as [->|Hp]; [naive_solver|].
  rewrite existsb_exists. setoid_rewrite list_elem_of_In. naive_solver.
Qed.

Lemma implb_true_iff (b c : bool) : implb b c = true <-> (b = true -> c = true).
Proof. destruct b, c; naive_solver. Qed.

Lemma present_string s : negb (s =? "") = true <-> s <> "".
Proof. by rewrite negb_true_iff, String.eqb_neq. Qed.

Lemma present_list {A} (l : list A) : negb (bool_decide (l = [])) = true <-> l <> [].
Proof. destruct l; simpl; naive_solver. Qed.

(** The gate of the decision, without its reasons. *)
Definition violates (p : AssetTypePolicy) (inp : AssetPolicyInput) : bool :=
  match findAssetRule (Denied p) inp, findAssetRule (Allowed p) inp, findAssetRule (Registry p) inp with
  | Some _, _, _ => true
  | None, Some _, _ => false
  | None, None, Some _ => false
  | None, None, None =>
      (RegistryRequired p &&
        (assetRegistryConfigured (Registry p) ||
         (normalizeRegistryEmptyAction (RegistryEmptyAction p) =? registryEmptyActionDeny))) ||
      (normalizeAssetDefault (Default p) =? "deny")
  end.

(** The policy that governs an input: none when the gate is off, the
    configuration nil, or the asset type unknown. *)
Definition governing (c : option Config) (inp : AssetPolicyInput) : option AssetTypePolicy :=
  match c with
  | None => None
  | Some cfg =>
      if ap_Enabled (AssetPolicy cfg)
      then assetPolicyFor c (in_Connector inp) (normalizeAssetToken (in_TargetType inp)) else None
  end.

Definition enforcing (c : option Config) (inp : AssetPolicyInput) : bool :=
  normalizeAssetMode (EffectiveAssetPolicyModeForConnector c (in_Connector inp)) =? AssetPolicyModeAction.

Lemma registryStatus_registered rules inp :
  (registryStatus rules inp =? "registered") = bool_decide (is_Some (findAssetRule rules inp)).
Proof.
  unfold registryStatus. destruct rules as [|r rules]; [done|].
  by destruct (findAssetRule (r :: rules) inp).
Qed.

Lemma violation_verdict out mode reason source :
  Action out = "allow" -> WouldBlock out = false ->
  let d := assetPolicyViolation out mode reason source in
  RawAction d = "block" /\
  Action d = (if mode =? AssetPolicyModeAction then "block" else "allow") /\
  WouldBlock d = negb (mode =? AssetPolicyModeAction).
Proof. intros Ha Hw. simpl. rewrite Hw. by destruct (mode =? AssetPolicyModeAction). Qed.

Lemma override_lookup_perm {V} (m m' : GoMap V) k :
  m ≡ₚ m' -> NoDup (normalizeConnectorKey <$> m.*1) -> override_lookup m k = override_lookup m' k.
Proof.
  intros Hp Hn. unfold override_lookup, map_get.
  assert (Hf : forall P, (forall a b, a ∈ m -> b ∈ m -> P a = true -> P b = true -> a = b) ->
    List.find P m = List.find P m').
  { intros P HP. destruct (List.find P m) as [a|] eqn:Ha, (List.find P m') as [b|] eqn:Hb; try done.
    - apply find_some in Ha as [Ha1 Ha2], Hb as [Hb1 Hb2]. apply list_elem_of_In in Ha1, Hb1.
      f_equal. apply HP; [done|by rewrite Hp|done..].
    - apply find_some in Ha as [Ha1 Ha2]. apply list_elem_of_In in Ha1. rewrite Hp in Ha1.
      apply list_elem_of_In in Ha1. by rewrite (find_none _ _ Hb _ Ha1) in Ha2.
    - apply find_some in Hb as [Hb1 Hb2]. apply list_elem_of_In in Hb1. rewrite <- Hp in Hb1.
      apply list_elem_of_In in Hb1. by rewrite (find_none _ _ Ha _ Hb1) in Hb2. }
  assert (Hinj : forall a b, a ∈ m -> b ∈ m ->
    normalizeConnectorKey a.1 = normalizeConnectorKey b.1 -> a = b).
  { clear Hf. intros a b Ha Hb. apply list_elem_of_lookup in Ha as [i Hi], Hb as [j Hj]. intros He.
    assert (i = j) as ->; [|congruence]. eapply NoDup_lookup; [exact Hn|..];
      rewrite !list_lookup_fmap, ?Hi, ?Hj; simpl; [done|by rewrite He]. }
  rewrite (Hf (fun kv => kv.1 =? k)).
  2:{ intros a b ? ? Ha%String.eqb_eq Hb%String.eqb_eq. apply Hinj; congruence. }
  rewrite (Hf (fun kv => normalizeConnectorKey kv.1 =? normalizeConnectorKey k)).
  2:{ intros a b ? ? Ha%String.eqb_eq Hb%String.eqb_eq. apply Hinj; congruence. }
  by rewrite (Permutation_length Hp).
Qed.

Lemma roster_loop_elem keys : forall seen x,
  x ∈ roster_loop keys seen <-> x <> "" /\ x ∉ seen /\ exists k, k ∈ keys /\ normalizeConnectorKey k = x.
Proof.
  induction keys as [|k keys IH]; intros seen x; simpl.
  - rewrite elem_of_nil. setoid_rewrite elem_of_nil. naive_solver.
  - setoid_rewrite elem_of_cons. destruct (String.eqb_spec (normalizeConnectorKey k) "") as [He|He]; simpl.
    { rewrite IH. naive_solver. }
    case_bool_decide as Hs; simpl.
    { rewrite IH. naive_solver. }
    rewrite elem_of_cons, IH, not_elem_of_cons.
    destruct (decide (x = normalizeConnectorKey k)) as [->|Hx]; naive_solver.
Qed.

(** Two descriptions of one configuration: the same but for the iteration order
    of its maps. *)
Definition same_config (c c' : Config) : Prop :=
  let a := AssetPolicy c in let a' := AssetPolicy c' in
  let p := ApplicationProtection c in let p' := ApplicationProtection c' in
  ap_Enabled a = ap_Enabled a' /\ ap_Mode a = ap_Mode a' /\
  MCP a = MCP a' /\ Skill a = Skill a' /\ Plugin a = Plugin a' /\ Connectors a ≡ₚ Connectors a' /\
  app_Enabled p = app_Enabled p' /\ app_Mode p = app_Mode p' /\ app_Connectors p ≡ₚ app_Connectors p' /\
  Guardrail_Connectors c ≡ₚ Guardrail_Connectors c' /\
  Guardrail_Connector c = Guardrail_Connector c' /\ Claw_Mode c = Claw_Mode c'.

Lemma existsb_perm {A} (f : A -> bool) l l' : l ≡ₚ l' -> existsb f l = existsb f l'.
Proof.
  intros Hp. apply eq_true_iff_eq. rewrite !existsb_exists. setoid_rewrite <- list_elem_of_In.
  by setoid_rewrite Hp.
Qed.

Lemma existsb_same {A} (f : A -> bool) l l' :
  (forall x, x ∈ l <-> x ∈ l') -> existsb f l = existsb f l'.
Proof.
  intros Hp. apply eq_true_iff_eq. rewrite !existsb_exists. setoid_rewrite <- list_elem_of_In.
  by setoid_rewrite Hp.
Qed.

Lemma activeConnectors_elem c c' x :
  same_config c c' -> x ∈ activeConnectors (Some c) <-> x ∈ activeConnectors (Some c').
Proof.
  intros (_ & _ & _ & _ & _ & _ & _ & _ & _ & Hg & Hc & Hm). unfold activeConnectors.
  unfold HasConnectorConfigured, activeConnector. rewrite (existsb_perm _ _ _ Hg), Hc, Hm.
  case_match; [done|].
  assert (Hr : forall x, x ∈ roster_loop (Guardrail_Connectors c) [] <->
                         x ∈ roster_loop (Guardrail_Connectors c') []).
  { intros y. rewrite !roster_loop_elem. by setoid_rewrite Hg. }
  assert (Hempty : forall l l' : list string, (forall y, y ∈ l <-> y ∈ l') -> l = [] -> l' = []).
  { intros l l' Hl ->. destruct l' as [|y l']; [done|]. destruct (Hl y) as [_ H1].
    by destruct (elem_of_nil y (A:=string)) as [H2 _]; destruct H2; apply H1; left. }
  destruct (roster_loop (Guardrail_Connectors c) []) as [|n ns] eqn:E.
  - by rewrite (Hempty _ _ Hr eq_refl).
  - destruct (roster_loop (Guardrail_Connectors c') []) as [|n' ns'] eqn:E'.
    + exfalso. apply (not_elem_of_nil n), Hr. left.
    + rewrite !merge_sort_Permutation. apply Hr.
Qed.
End Facts.

Section Properties.
Context {U : GoUnicode}.

(** A rule matches exactly when it states at least one constraint and the
    input satisfies every constraint it states; a rule without constraints
    matches nothing. *)
Theorem assetRuleMatches_spec rule inp :
  assetRuleMatches rule inp = true <->
  (Name rule <> "" \/ r_Connector rule <> "" \/ r_URL rule <> "" \/ r_Command rule <> "" \/
   ArgsPrefix rule <> [] \/ r_Transport rule <> "" \/ SourcePathContains rule <> []) /\
  (Name rule <> "" -> EqualFold (TrimSpace (Name rule)) (TrimSpace (in_Name inp)) = true) /\
  (r_Connector rule <> "" -> EqualFold (TrimSpace (r_Connector rule)) (TrimSpace (in_Connector inp)) = true) /\
  (r_URL rule <> "" -> TrimSpace (r_URL rule) = TrimSpace (in_URL inp)) /\
  (r_Command rule <> "" ->
     filepath_Base (TrimSpace (r_Command rule)) = filepath_Base (TrimSpace (in_Command inp))) /\
  (TrimSpace <$> ArgsPrefix rule) `prefix_of` (TrimSpace <$> in_Args inp) /\
  (r_Transport rule <> "" -> EqualFold (TrimSpace (r_Transport rule)) (TrimSpace (in_Transport inp)) = true) /\
  (SourcePathContains rule <> [] ->
     exists n, n ∈ SourcePathContains rule /\ in_SourcePath inp <> "" /\
       Contains (ToLower (ReplaceByte (in_SourcePath inp) backslash "/"))
                (ToLower (ReplaceByte n backslash "/")) = true).
Proof.
  unfold assetRuleMatches. rewrite constraints_hold_spec. simpl.
  rewrite !andb_true_iff, !orb_true_iff, !implb_true_iff.
  rewrite !present_string, !present_list, !String.eqb_eq, sourcePath_spec, args_match_spec.
  assert (Hnil : ArgsPrefix rule = [] ->
    (TrimSpace <$> ArgsPrefix rule) `prefix_of` (TrimSpace <$> in_Args inp)).
  { intros ->. apply prefix_nil. }
  destruct (decide (ArgsPrefix rule = [])); naive_solver.
Qed.

(** The decision of the gate.  With a governing policy the raw action is a
    block exactly when a deny rule matches, or when no allow rule and no
    registry rule matches and either the registry is required and not an empty
    one that was opted out of, or the default is to deny; it is enforced only
    in the action mode and reported as would-block in every other mode.
    Without a governing policy everything is allowed. *)
Theorem EvaluateAssetPolicy_spec c inp :
  let d := EvaluateAssetPolicy c inp in
  match governing c inp with
  | None => RawAction d = "allow" /\ Action d = "allow" /\ WouldBlock d = false
  | Some p =>
      Enabled d = true /\
      RawAction d = (if violates p inp then "block" else "allow") /\
      Action d = (if violates p inp && enforcing c inp then "block" else "allow") /\
      WouldBlock d = violates p inp && negb (enforcing c inp)
  end.
Proof.
  cbv zeta. unfold governing, EvaluateAssetPolicy. destruct c as [cfg|]; [|done].
  destruct (ap_Enabled (AssetPolicy cfg)); cbv beta iota zeta delta [negb]; [|done].
  destruct (assetPolicyFor (Some cfg) (in_Connector inp) (normalizeAssetToken (in_TargetType inp)))
    as [p|]; [|done].
  rewrite registryStatus_registered. unfold violates, enforcing.
  generalize (normalizeAssetMode (EffectiveAssetPolicyModeForConnector (Some cfg) (in_Connector inp))) as mode.
  intros mode.
  assert (Hviolation : forall out reason source,
    Enabled out = true -> Action out = "allow" -> WouldBlock out = false ->
    let d := assetPolicyViolation out mode reason source in
    Enabled d = true /\ RawAction d = "block" /\
    Action d = (if true && (mode =? AssetPolicyModeAction) then "block" else "allow") /\
    WouldBlock d = true && negb (mode =? AssetPolicyModeAction)).
  { intros out reason source He Ha Hw. split; [exact He|].
    apply (violation_verdict out mode reason source Ha Hw). }
  destruct (findAssetRule (Denied p) inp) as [rd|]; [by apply Hviolation|].
  destruct (findAssetRule (Allowed p) inp) as [ra|]; [done|].
  destruct (findAssetRule (Registry p) inp) as [rr|]; [done|].
  destruct (RegistryRequired p), (assetRegistryConfigured (Registry p)),
    (normalizeRegistryEmptyAction (RegistryEmptyAction p) =? registryEmptyActionDeny),
    (normalizeAssetDefault (Default p) =? "deny");
    first [by apply Hviolation|done].
Qed.

(** The decision does not depend on the random iteration order of the
    override maps, provided no two keys of a map have the same normal form. *)
Theorem EvaluateAssetPolicy_order c c' inp :
  same_config c c' ->
  NoDup (normalizeConnectorKey <$> (Connectors (AssetPolicy c)).*1) ->
  NoDup (normalizeConnectorKey <$> (app_Connectors (ApplicationProtection c)).*1) ->
  EvaluateAssetPolicy (Some c) inp = EvaluateAssetPolicy (Some c') inp.
Proof.
  intros Hs Hn Ha. pose proof Hs as (He & Hmode & HM & HS & HP & HC & HE & HAM & HA & _).
  assert (Ho : forall k, connectorOverride (AssetPolicy c) k = connectorOverride (AssetPolicy c') k)
    by (intros k; by apply override_lookup_perm).
  assert (Hao : forall k, app_connectorOverride (ApplicationProtection c) k
                          = app_connectorOverride (ApplicationProtection c') k)
    by (intros k; by apply override_lookup_perm).
  assert (Hp : forall k t, assetPolicyFor (Some c) k t = assetPolicyFor (Some c') k t).
  { intros k t. unfold assetPolicyFor, connectorTypeOverride. by rewrite HM, HS, HP, Ho. }
  assert (Hman : forall k, manualConnectorConfigured (Some c) k = manualConnectorConfigured (Some c') k).
  { intros k. unfold manualConnectorConfigured. case_match; [done|].
    apply existsb_same. intros x. by apply activeConnectors_elem. }
  assert (Hm : forall k, EffectiveAssetPolicyModeForConnector (Some c) k
                         = EffectiveAssetPolicyModeForConnector (Some c') k).
  { intros k. unfold EffectiveAssetPolicyModeForConnector. by rewrite Ho, HE, Hman, Hmode, HAM, Hao. }
  unfold EvaluateAssetPolicy. by rewrite He, Hp, Hm.
Qed.
End Properties.

(** ** Witnesses *)

Section Witness.
#[local] Existing Instance ascii_only.

Definition w_rule (name : string) : AssetPolicyRule :=
  {| Name := name; r_Connector := ""; r_Reason := ""; r_URL := ""; r_Command := "";
     ArgsPrefix := []; r_Transport := ""; SourcePathContains := [] |}.

Definition w_override (mode : string) : PerConnectorAssetPolicy :=
  {| pc_Mode := mode; pc_MCP := None; pc_Skill := None; pc_Plugin := None |}.

Definition w_config (connectors : GoMap PerConnectorAssetPolicy) : Config :=
  {| AssetPolicy :=
       {| ap_Enabled := true; ap_Mode := ""; MCP := defaultAssetTypePolicy true;
          Skill := {| Default := "deny"; RegistryRequired := true; RegistryEmptyAction := "";
                      Registry := []; Allowed := [w_rule "lint"]; Denied := [w_rule "evil"];
                      RuntimeDetection := {| rd_Enabled := false; TerminalCommands := false;
                                             UnknownTerminalMCP := "" |} |};
          Plugin := defaultAssetTypePolicy false; Connectors := connectors |};
     ApplicationProtection := {| app_Enabled := false; app_Mode := ""; app_Connectors := [] |};
     Guardrail_Connectors := []; Guardrail_Connector := ""; Claw_Mode := "" |}.

Definition w_input (name connector : string) : AssetPolicyInput :=
  {| in_TargetType := "Skill"; in_Name := name; in_Connector := connector; in_SourcePath := "";
     in_URL := ""; in_Command := ""; in_Args := []; in_Transport := ""; in_RuntimeSurface := "" |}.

Example gate_enforces_on_one_connector :
  let c := Some (w_config [("codex", w_override "Action")]) in
  Action (EvaluateAssetPolicy c (w_input "evil" "codex")) = "block" /\
  Action (EvaluateAssetPolicy c (w_input " LINT " "codex")) = "allow" /\
  Source (EvaluateAssetPolicy c (w_input "other" "codex")) = "registry-required-empty" /\
  Action (EvaluateAssetPolicy c (w_input "evil" "hermes")) = "allow" /\
  WouldBlock (EvaluateAssetPolicy c (w_input "evil" "hermes")) = true.
Proof. vm_compute. done. Qed.

(** Two keys with one normal form: the random iteration order decides between
    blocking and observing. *)
Lemma alias_keys_race :
  let m := [("OpenHands", w_override "action"); ("open-hands", w_override "observe")] in
  Action (EvaluateAssetPolicy (Some (w_config m)) (w_input "evil" "openhands")) = "block" /\
  Action (EvaluateAssetPolicy (Some (w_config (reverse m))) (w_input "evil" "openhands")) = "allow".
Proof. vm_compute. done. Qed.

Lemma EvaluateAssetPolicy_order_witness :
  let m := [("codex", w_override "action"); ("Hermes", w_override "observe")] in
  EvaluateAssetPolicy (Some (w_config m)) (w_input "evil" "codex") =
  EvaluateAssetPolicy (Some (w_config (reverse m))) (w_input "evil" "codex").
Proof.
  intros m. apply EvaluateAssetPolicy_order.
  - repeat split; try reflexivity. symmetry. apply reverse_Permutation.
  - apply (bool_decide_unpack _). vm_compute. exact I.
  - apply (bool_decide_unpack _). vm_compute. exact I.
Defined.
End Witness.
