(* ===== verification/Admission.v ===== *)
(** * Admission (internal/policy/fallback.go, internal/config/actions.go)

    The built-in admission gate of an asset, its profile and how the profile is
    loaded from the policy data, with the action tables of the configuration.
    The file system and the JSON decoder are parameters; a decoded JSON map is
    the list of its entries in the order in which the code iterates over it.
    The Rego evaluator behind the engine (internal/policy/engine.go) is a
    parameter as well; the component matcher of policies/rego/admission.rego
    is translated for comparison with the one of the built-in gate. *)
From stdpp Require Import base list gmap strings pretty.
From Stdlib Require Import ZArith Lia Ascii.
From S2P Require Import Prelude GoStrings.

Local Open Scope string_scope.

(** ** Data *)

Record fallbackAction := { Runtime : string; File : string; Install : string }.

Record firstPartyEntry := { fp_Reason : string; fp_SourcePathContains : list string }.

Record FallbackProfile := {
  AllowListBypassScan : bool;
  ScanOnInstall : bool;
  Actions : gmap string fallbackAction;
  ScannerOverrides : gmap string (gmap string fallbackAction);
  FirstPartyAllow : gmap string firstPartyEntry;
}.

Record ListEntry := { le_TargetType : string; le_TargetName : string; le_Reason : string }.

Record FindingInput := { fi_Severity : string; fi_Scanner : string; fi_Title : string }.

(** The findings are carried for Rego and not read by the built-in gate. *)
Record ScanResultInput := {
  MaxSeverity : string;
  TotalFindings : Z;
  ScannerName : string;
  Findings : list FindingInput;
  ExitCode : Z;
  ScanError : string;
}.

Record AdmissionInput := {
  TargetType : string;
  TargetName : string;
  Path : string;
  BlockList : list ListEntry;
  AllowList : list ListEntry;
  ScanResult : option ScanResultInput;
}.

Record AdmissionOutput := {
  Verdict : string;
  Reason : string;
  FileAction : string;
  InstallAction : string;
  RuntimeAction : string;
}.

Definition act (r f i : string) : fallbackAction := {| Runtime := r; File := f; Install := i |}.

Definition firstPartyKey (targetType targetName : string) : string := targetType ++ NUL ++ targetName.

Definition defaultFallbackProfile : FallbackProfile :=
  {| AllowListBypassScan := true;
     ScanOnInstall := true;
     Actions := list_to_map
       [("CRITICAL", act "block" "quarantine" "block"); ("HIGH", act "block" "quarantine" "block");
        ("MEDIUM", act "allow" "none" "none"); ("LOW", act "allow" "none" "none");
        ("INFO", act "allow" "none" "none")];
     ScannerOverrides := list_to_map
       [("mcp", list_to_map [("MEDIUM", act "block" "quarantine" "block"); ("LOW", act "block" "none" "none")]);
        ("plugin", list_to_map [("HIGH", act "block" "quarantine" "block"); ("MEDIUM", act "allow" "none" "none")])];
     FirstPartyAllow := list_to_map
       [(firstPartyKey "plugin" "defenseclaw",
          {| fp_Reason := "first-party DefenseClaw plugin";
             fp_SourcePathContains := [".defenseclaw"; "extensions/defenseclaw"; ".config/amp/plugins/defenseclaw.ts"] |});
        (firstPartyKey "skill" "codeguard",
          {| fp_Reason := "first-party DefenseClaw skill";
             fp_SourcePathContains := [".defenseclaw"; "workspace/skills/codeguard"; "skills/codeguard"] |})] |}.

(** The decoded policy data; an absent boolean is [None]. *)
Record FirstPartyJSON := {
  fj_target_type : string;
  fj_target_name : string;
  fj_reason : string;
  fj_source_path_contains : list string;
}.

Record Payload := {
  allow_list_bypass_scan : option bool;
  scan_on_install : option bool;
  p_actions : list (string * fallbackAction);
  p_scanner_overrides : list (string * list (string * fallbackAction));
  p_first_party_allow_list : list FirstPartyJSON;
}.

Section Admission.
Context {U : GoUnicode}.
(** [os.ReadFile] of the file that [filepath.Join] of the elements names, and
    [json.Unmarshal] into the payload. *)
Context (ReadFile : list string -> option string) (Unmarshal : string -> option Payload).

(** ** Loading the profile *)

Definition readDataJSON (dir : string) : option string :=
  match ReadFile [dir; "rego"; "data.json"] with
  | Some raw => Some raw
  | None => ReadFile [dir; "data.json"]
  end.

(** The loop that writes the entries under the upper case of their keys. *)
Definition upper_all (l : list (string * fallbackAction)) (m : gmap string fallbackAction)
    : gmap string fallbackAction :=
  foldl (fun m kv => <[ToUpper kv.1 := kv.2]> m) m l.

Definition add_first_party (m : gmap string firstPartyEntry) (e : FirstPartyJSON) : gmap string firstPartyEntry :=
  if (fj_target_type e =? "") || (fj_target_name e =? "") then m
  else <[firstPartyKey (fj_target_type e) (fj_target_name e) :=
           {| fp_Reason := fj_reason e; fp_SourcePathContains := fj_source_path_contains e |}]> m.

Definition merge_payload (p : Payload) (profile : FallbackProfile) : FallbackProfile :=
  {| AllowListBypassScan := default (AllowListBypassScan profile) (allow_list_bypass_scan p);
     ScanOnInstall := default (ScanOnInstall profile) (scan_on_install p);
     Actions := upper_all (p_actions p) (Actions profile);
     ScannerOverrides := foldl (fun m kv => <[kv.1 := upper_all kv.2 ∅]> m)
       (ScannerOverrides profile) (p_scanner_overrides p);
     FirstPartyAllow := foldl add_first_party (FirstPartyAllow profile) (p_first_party_allow_list p) |}.

Definition LoadFallbackProfile (regoDir : string) : FallbackProfile :=
  let profile := defaultFallbackProfile in
  if regoDir =? "" then profile
  else match readDataJSON regoDir with
       | None => profile
       | Some raw =>
           match Unmarshal raw with
           | None => profile
           | Some payload => merge_payload payload profile
           end
       end.

(** ** The gate *)

Definition effectiveFallbackAction (profile : option FallbackProfile) (targetType severity : string)
    : fallbackAction :=
  match profile with
  | None => act "" "" ""
  | Some profile =>
      let global := default (act "" "" "") (Actions profile !! ToUpper severity) in
      match ScannerOverrides profile !! targetType with
      | Some overrides =>
          match overrides !! ToUpper severity with
          | Some action => action
          | None => global
          end
      | None => global
      end
  end.

Definition coalesceAction (value fallback : string) : string := if value =? "" then fallback else value.

Definition matchesProvenance (constraints : list string) (path : string) : bool :=
  match constraints with
  | [] => true
  | _ =>
      if path =? "" then false
      else
        let normalised := ToLower (ReplaceByte path (ascii_of_nat 92) "/") in
        existsb (fun c => Contains normalised (ToLower c)) constraints
  end.

Definition list_entry_matches (targetType targetName : string) (e : ListEntry) : bool :=
  (le_TargetType e =? targetType) && (le_TargetName e =? targetName).

Definition fallbackListEntryReason (entries : list ListEntry) (targetType targetName : string) : option string :=
  match List.find (list_entry_matches targetType targetName) entries with
  | None => None
  | Some entry =>
      Some (if negb (le_Reason entry =? "") then le_Reason entry
            else targetType ++ " '" ++ targetName ++ "' is on the allow/block list")
  end.

Definition verdict_only (v r : string) : AdmissionOutput :=
  {| Verdict := v; Reason := r; FileAction := ""; InstallAction := ""; RuntimeAction := "" |}.

(** The reason of the first-party entry that admits the input. *)
Definition first_party_match (profile : FallbackProfile) (input : AdmissionInput) : option string :=
  if AllowListBypassScan profile then
    match FirstPartyAllow profile !! firstPartyKey (TargetType input) (TargetName input) with
    | Some entry =>
        if matchesProvenance (fp_SourcePathContains entry) (Path input) then
          Some (if fp_Reason entry =? ""
                then TargetType input ++ " '" ++ TargetName input ++ "' is on the allow list — scan skipped"
                else fp_Reason entry)
        else None
    | None => None
    end
  else None.

Definition scan_failed (r : ScanResultInput) : bool :=
  negb (ExitCode r =? 0)%Z || negb (TrimSpace (ScanError r) =? "").

Definition scan_failed_output (r : ScanResultInput) : AdmissionOutput :=
  let reason := if negb (ScanError r =? "") then "scanner failed: " ++ ScanError r else "scanner failed" in
  let reason := if negb (ExitCode r =? 0)%Z then reason ++ " (exit_code=" ++ pretty (ExitCode r) ++ ")" else reason in
  {| Verdict := "rejected"; Reason := reason; FileAction := "quarantine";
     InstallAction := "block"; RuntimeAction := "block" |}.

Definition scanned_output (profile : FallbackProfile) (input : AdmissionInput) (r : ScanResultInput) : AdmissionOutput :=
  let severity := if ToUpper (MaxSeverity r) =? "" then "INFO" else ToUpper (MaxSeverity r) in
  let action := effectiveFallbackAction (Some profile) (TargetType input) severity in
  let out v reason :=
    {| Verdict := v; Reason := reason; FileAction := coalesceAction (File action) "none";
       InstallAction := coalesceAction (Install action) "none";
       RuntimeAction := coalesceAction (Runtime action) "allow" |} in
  if (TotalFindings r <=? 0)%Z then out "clean" "scan clean"
  else if (Runtime action =? "block") || (Install action =? "block") then
    out "rejected" ("max severity " ++ severity ++ " triggers block per policy")
  else out "warning" ("findings present (max " ++ severity ++ ") — allowed with warning").

Definition EvaluateAdmissionFallback (input : AdmissionInput) (profile : option FallbackProfile) : AdmissionOutput :=
  let profile := default defaultFallbackProfile profile in
  match fallbackListEntryReason (BlockList input) (TargetType input) (TargetName input) with
  | Some reason => verdict_only "blocked" reason
  | None =>
  match fallbackListEntryReason (AllowList input) (TargetType input) (TargetName input) with
  | Some reason => verdict_only "allowed" reason
  | None =>
  match first_party_match profile input with
  | Some reason => verdict_only "allowed" reason
  | None =>
  match ScanResult input with
  | None =>
      if negb (ScanOnInstall profile)
      then verdict_only "allowed" "scan_on_install disabled — allowed without scan"
      else verdict_only "scan" "scan required"
  | Some r => if scan_failed r then scan_failed_output r else scanned_output profile input r
  end end end end.
End Admission.

(** ** The engine (internal/policy/engine.go)

    A value of the result of a Rego query, with its print by [%v] when it is
    not a string. *)
Inductive RegoValue := VString (s : string) | VOther (printed : string).

Definition stringVal (m : gmap string RegoValue) (key : string) : string :=
  match m !! key with
  | None => ""
  | Some (VString s) => s
  | Some (VOther printed) => printed
  end.

(** [Engine.Evaluate] over the Rego evaluation [eval], which may fail. *)
Definition Evaluate (eval : AdmissionInput -> option (gmap string RegoValue)) (input : AdmissionInput)
    : AdmissionOutput :=
  match eval input with
  | None =>
      {| Verdict := "rejected"; Reason := "policy evaluation failed — denied by default";
         FileAction := "quarantine"; InstallAction := "block"; RuntimeAction := "block" |}
  | Some result =>
      {| Verdict := stringVal result "verdict"; Reason := stringVal result "reason";
         FileAction := stringVal result "file_action"; InstallAction := stringVal result "install_action";
         RuntimeAction := stringVal result "runtime_action" |}
  end.

(** ** The component matcher of policies/rego/admission.rego *)

Definition rego_path_components {U : GoUnicode} (value : string) : list string :=
  List.filter (fun part => negb (part =? "")) (SplitByte (ReplaceByte (ToLower value) (ascii_of_nat 92) "/") "/").

(** Some contiguous slice of the components of the path is the prefix. *)
Fixpoint has_slice (path prefix : list string) : bool :=
  bool_decide (prefix `prefix_of` path) ||
  match path with [] => false | _ :: path' => has_slice path' prefix end.

Definition rego_provenance_matches {U : GoUnicode} (path prefix : string) : bool :=
  negb (bool_decide (rego_path_components prefix = [])) &&
  has_slice (rego_path_components path) (rego_path_components prefix).

(** ** Lemmas *)

Section Facts.
Context {U : GoUnicode}.

Definition listed (entries : list ListEntry) (input : AdmissionInput) : Prop :=
  exists e, e ∈ entries /\ le_TargetType e = TargetType input /\ le_TargetName e = TargetName input.

Lemma list_reason_listed entries input :
  is_Some (fallbackListEntryReason entries (TargetType input) (TargetName input)) <-> listed entries input.
Proof.
  unfold fallbackListEntryReason, listed. split.
  - intros [r Hr]. case_match eqn:Hf; [|done]. apply find_some in Hf as [Hin Hm].
    apply list_elem_of_In in Hin. unfold list_entry_matches in Hm. bool_facts. eauto.
  - intros (e & Hin & Ht & Hn). case_match eqn:Hf; [done|].
    apply list_elem_of_In in Hin. apply (find_none _ _ Hf) in Hin.
    unfold list_entry_matches in Hin. by rewrite Ht, Hn, !String.eqb_refl in Hin.
Qed.

Lemma list_reason_none entries input :
  fallbackListEntryReason entries (TargetType input) (TargetName input) = None <-> ~ listed entries input.
Proof. rewrite <- list_reason_listed, <- eq_None_not_Some. done. Qed.

(** The policy rejects a severity: the effective action blocks. *)
Definition severity_blocks (profile : FallbackProfile) (input : AdmissionInput) (r : ScanResultInput) : bool :=
  let severity := if ToUpper (MaxSeverity r) =? "" then "INFO" else ToUpper (MaxSeverity r) in
  let action := effectiveFallbackAction (Some profile) (TargetType input) severity in
  (Runtime action =? "block") || (Install action =? "block").

(** An entry that admits the asset without a scan: the allow list, or the
    first-party list when it may bypass the scan. *)
Definition admitted_unscanned (profile : FallbackProfile) (input : AdmissionInput) : Prop :=
  listed (AllowList input) input \/ is_Some (first_party_match profile input).

(** A loop of insertions under distinct keys, whatever its order: the entries of
    the list, and the old map elsewhere. *)
Lemma insert_loop_spec {A B} (key : A -> string) (val : A -> B) l : forall m : gmap string B,
  NoDup (key <$> l) ->
  let m' := foldl (fun m x => <[key x := val x]> m) m l in
  (forall x, x ∈ l -> m' !! key x = Some (val x)) /\
  (forall k, (forall x, x ∈ l -> key x <> k) -> m' !! k = m !! k).
Proof.
  induction l as [|x l IH]; intros m Hn; simpl.
  - split; [by intros ? ?%elem_of_nil|done].
  - apply NoDup_cons in Hn as [Hx Hn]. destruct (IH (<[key x := val x]> m) Hn) as [H1 H2]. split.
    + intros y [->|Hy]%elem_of_cons; [|by apply H1]. rewrite H2; [by rewrite lookup_insert_eq|].
      intros z Hz He. apply Hx. rewrite <- He. by apply list_elem_of_fmap_2.
    + intros k Hk. rewrite H2; [|intros y Hy; apply Hk; by right].
      rewrite lookup_insert_ne; [done|]. apply Hk. left.
Qed.

(** The map after the entries [l] have replaced those of [m] under their upper
    case, independently of the order of [l]. *)
Definition overridden (l : list (string * fallbackAction)) (m m' : gmap string fallbackAction) : Prop :=
  (forall k a, (k, a) ∈ l -> m' !! ToUpper k = Some a) /\
  (forall s, (forall k a, (k, a) ∈ l -> ToUpper k <> s) -> m' !! s = m !! s).

Lemma upper_all_overridden l m : NoDup (ToUpper <$> l.*1) -> overridden l m (upper_all l m).
Proof.
  intros Hn. rewrite <- list_fmap_compose in Hn.
  destruct (insert_loop_spec (fun kv => ToUpper kv.1) snd l m Hn) as [H1 H2]. split.
  - intros k a Hk. apply (H1 (k, a) Hk).
  - intros s Hs. apply H2. intros [k a] Hk. by apply (Hs k a).
Qed.

Lemma scanned_verdict profile input r :
  Verdict (scanned_output profile input r) =
    (if (TotalFindings r <=? 0)%Z then "clean"
     else if severity_blocks profile input r then "rejected" else "warning").
Proof.
  unfold scanned_output, severity_blocks. cbv zeta.
  destruct (TotalFindings r <=? 0)%Z; [done|].
  by match goal with |- Verdict (if ?b then _ else _) = _ => destruct b end.
Qed.

(** The gate by cases: what the verdict is and why. *)
Lemma gate_cases input o :
  let profile := default defaultFallbackProfile o in
  let out := EvaluateAdmissionFallback input o in
  (listed (BlockList input) input /\ Verdict out = "blocked") \/
  (~ listed (BlockList input) input /\ admitted_unscanned profile input /\ Verdict out = "allowed") \/
  (~ listed (BlockList input) input /\ ~ admitted_unscanned profile input /\
   match ScanResult input with
   | None => Verdict out = if ScanOnInstall profile then "scan" else "allowed"
   | Some r =>
       if scan_failed r then out = scan_failed_output r
       else Verdict out = (if (TotalFindings r <=? 0)%Z then "clean"
                           else if severity_blocks profile input r then "rejected" else "warning")
   end).
Proof.
  cbv zeta. unfold EvaluateAdmissionFallback, admitted_unscanned. cbv zeta.
  destruct (fallbackListEntryReason (BlockList input) _ _) as [rb|] eqn:HB.
  { left. split; [|done]. apply list_reason_listed. eauto. }
  apply list_reason_none in HB. right.
  destruct (fallbackListEntryReason (AllowList input) _ _) as [ra|] eqn:HA.
  { left. split_and!; [done| |done]. left. apply list_reason_listed. eauto. }
  apply list_reason_none in HA.
  destruct (first_party_match _ input) as [rf|] eqn:HF.
  { left. split_and!; [done| |done]. eauto. }
  right. split_and!; [done|by intros [?|[??]]|].
  destruct (ScanResult input) as [r|]; [|by destruct (ScanOnInstall _)].
  destruct (scan_failed r); [done|]. apply scanned_verdict.
Qed.
End Facts.

(** Under the default profile the two highest severities block every type. *)
Lemma default_blocks {U : GoUnicode} input r :
  ToUpper (MaxSeverity r) = "CRITICAL" \/ ToUpper (MaxSeverity r) = "HIGH" ->
  severity_blocks defaultFallbackProfile input r = true.
Proof.
  intros Hs. unfold severity_blocks. cbv zeta.
  assert (Hact : forall s, s = "CRITICAL" \/ s = "HIGH" ->
    effectiveFallbackAction (Some defaultFallbackProfile) (TargetType input) s = act "block" "quarantine" "block").
  { intros s Hs'. unfold effectiveFallbackAction.
    assert (ToUpper s = s) as -> by (by destruct Hs' as [-> | ->]).
    assert (Actions defaultFallbackProfile !! s = Some (act "block" "quarantine" "block")) as ->
      by (by destruct Hs' as [-> | ->]).
    destruct (decide (TargetType input = "mcp")) as [->|H1].
    { by destruct Hs' as [-> | ->]. }
    destruct (decide (TargetType input = "plugin")) as [->|H2].
    { by destruct Hs' as [-> | ->]. }
    assert (ScannerOverrides defaultFallbackProfile !! TargetType input = None) as ->; [|done].
    apply not_elem_of_list_to_map_1. simpl. rewrite !not_elem_of_cons. by split_and!; [..|apply not_elem_of_nil]. }
  assert ((ToUpper (MaxSeverity r) =? "") = false) as -> by (by destruct Hs as [-> | ->]).
  by rewrite Hact.
Qed.

(** Proves a table of verdicts, one of which is known. *)
Ltac open_facts :=
  repeat match goal with
  | H : _ /\ _ |- _ => destruct H
  | H : _ \/ _ |- _ => destruct H
  | H : exists _, _ |- _ => destruct H
  end.
Ltac verdict_table :=
  match goal with H : Verdict ?out = _ |- _ => rewrite H end;
  split_and!; try (split; intros Hx;
    match type of Hx with
    | @eq string _ _ => first [discriminate Hx|clear Hx]
    | _ => first [reflexivity|exfalso]
    end);
  first [by eauto 10|intros; open_facts; simplify_eq; first [by eauto|contradiction|congruence|lia]].

Section Properties.
Context {U : GoUnicode}.

(** The verdict of the built-in gate, completely: the block list comes
    first, then the allow list and the first-party list, then the absence of a
    scan; a scan that failed (a non-zero exit code or an error) is rejected
    with quarantine and block whatever it found, and only a scan that did not
    fail can be clean, a warning, or rejected by the policy of its severity. *)
Theorem EvaluateAdmissionFallback_verdict input o :
  let profile := default defaultFallbackProfile o in
  let out := EvaluateAdmissionFallback input o in
  let scanned := ~ listed (BlockList input) input /\ ~ admitted_unscanned profile input in
  (Verdict out = "blocked" <-> listed (BlockList input) input) /\
  (Verdict out = "allowed" <-> ~ listed (BlockList input) input /\
     (admitted_unscanned profile input \/ (ScanResult input = None /\ ScanOnInstall profile = false))) /\
  (Verdict out = "scan" <-> scanned /\ ScanResult input = None /\ ScanOnInstall profile = true) /\
  (Verdict out = "rejected" <-> scanned /\ exists r, ScanResult input = Some r /\
     (scan_failed r = true \/ ((0 < TotalFindings r)%Z /\ severity_blocks profile input r = true))) /\
  (Verdict out = "clean" <-> scanned /\ exists r, ScanResult input = Some r /\
     scan_failed r = false /\ (TotalFindings r <= 0)%Z) /\
  (Verdict out = "warning" <-> scanned /\ exists r, ScanResult input = Some r /\
     scan_failed r = false /\ (0 < TotalFindings r)%Z /\ severity_blocks profile input r = false) /\
  (forall r, ScanResult input = Some r -> scan_failed r = true -> Verdict out = "rejected" ->
     FileAction out = "quarantine" /\ InstallAction out = "block" /\ RuntimeAction out = "block").
Proof.
  cbv zeta. pose proof (gate_cases input o) as Hc. cbv zeta in Hc.
  generalize dependent (EvaluateAdmissionFallback input o).
  generalize (default defaultFallbackProfile o). intros profile out Hc.
  destruct Hc as [[Hb Hv]|[(Hb & Ha & Hv)|(Hb & Ha & Hc)]]; [by verdict_table|by verdict_table|].
  destruct (ScanResult input) as [r|].
  2:{ destruct (ScanOnInstall profile); by verdict_table. }
  destruct (scan_failed r) eqn:Hs.
  { assert (Verdict out = "rejected") as Hv by (by subst out).
    assert (FileAction out = "quarantine" /\ InstallAction out = "block" /\ RuntimeAction out = "block")
      by (by subst out). clear Hc. by verdict_table. }
  destruct (Z.leb_spec (TotalFindings r) 0); [by verdict_table|].
  destruct (severity_blocks profile input r) eqn:Hb'; by verdict_table.
Qed.

(** The decoded policy data of a directory. *)
Definition decoded (ReadFile : list string -> option string) (Unmarshal : string -> option Payload)
    (dir : string) : option Payload :=
  if dir =? "" then None else readDataJSON ReadFile dir ≫= Unmarshal.

(** Loading is total and fails safe.  Without readable policy data the
    profile is the default one, under which every asset type with findings of
    severity CRITICAL or HIGH is rejected and a scan is required.  With data,
    the actions are the entries of the data under their upper case and the
    defaults elsewhere, and the overrides of a named type are replaced as a
    whole, in whatever order Go iterates over the maps, provided no two keys
    differ only in case. *)
Theorem LoadFallbackProfile_spec ReadFile Unmarshal dir :
  let profile := LoadFallbackProfile ReadFile Unmarshal dir in
  match decoded ReadFile Unmarshal dir with
  | None =>
      ScanOnInstall profile = true /\
      forall input r, ToUpper (MaxSeverity r) = "CRITICAL" \/ ToUpper (MaxSeverity r) = "HIGH" ->
        severity_blocks profile input r = true
  | Some p =>
      (NoDup (ToUpper <$> (p_actions p).*1) ->
         overridden (p_actions p) (Actions defaultFallbackProfile) (Actions profile)) /\
      (NoDup (p_scanner_overrides p).*1 ->
         (forall t l, (t, l) ∈ p_scanner_overrides p -> NoDup (ToUpper <$> l.*1) ->
            exists m, ScannerOverrides profile !! t = Some m /\ overridden l ∅ m) /\
         (forall t, (forall l, (t, l) ∉ p_scanner_overrides p) ->
            ScannerOverrides profile !! t = ScannerOverrides defaultFallbackProfile !! t))
  end.
Proof.
  cbv zeta. unfold decoded, LoadFallbackProfile.
  assert (Hdefault : ScanOnInstall defaultFallbackProfile = true /\
    forall input r, ToUpper (MaxSeverity r) = "CRITICAL" \/ ToUpper (MaxSeverity r) = "HIGH" ->
        severity_blocks defaultFallbackProfile input r = true).
  { split; [done|]. intros input r Hr. apply default_blocks. by destruct Hr as [->| ->]; [left|right]. }
  destruct (dir =? ""); [done|]. destruct (readDataJSON ReadFile dir) as [raw|]; [|done]. simpl.
  destruct (Unmarshal raw) as [p|]; [|done]. split.
  - intros Hn. by apply upper_all_overridden.
  - intros Hn. destruct (insert_loop_spec fst (fun kv => upper_all kv.2 ∅) (p_scanner_overrides p)
      (ScannerOverrides defaultFallbackProfile) Hn) as [H1 H2]. split.
    + intros t l Ht Hl. exists (upper_all l ∅). split; [apply (H1 (t, l) Ht)|].
      by apply upper_all_overridden.
    + intros t Ht. apply H2. intros [t' l] Hin <-. by apply (Ht l).
Qed.
End Properties.

(** ** Witnesses and findings *)

Section Witness.
#[local] Existing Instance ascii_only.

Definition w_input (name path : string) (r : option ScanResultInput) : AdmissionInput :=
  {| TargetType := "plugin"; TargetName := name; Path := path; BlockList := []; AllowList := [];
     ScanResult := r |}.

Definition w_scan (severity : string) (n exit : Z) : ScanResultInput :=
  {| MaxSeverity := severity; TotalFindings := n; ScannerName := "s"; Findings := []; ExitCode := exit; ScanError := "" |}.

Example gate_examples :
  Verdict (EvaluateAdmissionFallback (w_input "p" "/p" None) None) = "scan" /\
  Verdict (EvaluateAdmissionFallback (w_input "p" "/p" (Some (w_scan "" 0 0))) None) = "clean" /\
  Verdict (EvaluateAdmissionFallback (w_input "p" "/p" (Some (w_scan "medium" 2 0))) None) = "warning" /\
  Verdict (EvaluateAdmissionFallback (w_input "p" "/p" (Some (w_scan "high" 2 0))) None) = "rejected" /\
  Reason (EvaluateAdmissionFallback (w_input "p" "/p" (Some (w_scan "" 0 2))) None)
    = "scanner failed (exit_code=2)".
Proof. vm_compute. done. Qed.

(** The provenance markers of the built-in gate are substrings of the path:
    a plugin of the first-party name under a directory that merely embeds the
    marker is admitted without a scan, while no marker matches the components
    of that path, which is what the Rego policy requires. *)
Theorem provenance_accepts_lookalike :
  let path := "/home/u/.defenseclaw-evil/plugins/defenseclaw" in
  Verdict (EvaluateAdmissionFallback (w_input "defenseclaw" path None) None) = "allowed" /\
  forallb (fun c => negb (rego_provenance_matches path c))
    [".defenseclaw"; "extensions/defenseclaw"; ".config/amp/plugins/defenseclaw.ts"] = true.
Proof. vm_compute. done. Qed.
End Witness.
