(* ===== verification/SeverityActions.v ===== *)
(** * Severity actions (internal/config/actions.go)

    The actions a configuration takes for skills, MCP servers and plugins by
    severity, and their validation.  The three configurations are one record of
    five actions with different defaults. *)
From stdpp Require Import base list strings.
From Stdlib Require Import ZArith Lia.
From S2P Require Import Prelude GoStrings.

Local Open Scope string_scope.

Definition RuntimeDisable : string := "disable".
Definition RuntimeEnable : string := "enable".
Definition FileActionNone : string := "none".
Definition FileActionQuarantine : string := "quarantine".
Definition InstallBlock : string := "block".
Definition InstallAllow : string := "allow".
Definition InstallNone : string := "none".

Record SeverityAction := { File : string; Runtime : string; Install : string }.

#[global] Instance SeverityAction_eq_dec : EqDecision SeverityAction.
Proof. solve_decision. Defined.

Record ActionsConfig := {
  Critical : SeverityAction;
  High : SeverityAction;
  Medium : SeverityAction;
  Low : SeverityAction;
  Info : SeverityAction;
}.

Definition quiet : SeverityAction :=
  {| File := FileActionNone; Runtime := RuntimeEnable; Install := InstallNone |}.
Definition install_block : SeverityAction :=
  {| File := FileActionNone; Runtime := RuntimeEnable; Install := InstallBlock |}.

Definition DefaultSkillActions : ActionsConfig :=
  {| Critical := quiet; High := quiet; Medium := quiet; Low := quiet; Info := quiet |}.
Definition DefaultMCPActions : ActionsConfig :=
  {| Critical := install_block; High := install_block; Medium := quiet; Low := quiet; Info := quiet |}.
Definition DefaultPluginActions : ActionsConfig :=
  {| Critical := quiet; High := quiet; Medium := quiet; Low := quiet; Info := quiet |}.

(** The error names the configuration, the severity, the field and its value. *)
Record ConfigError := { e_prefix : string; e_label : string; e_field : string; e_value : string }.

Definition validate_entry (prefix label : string) (a : SeverityAction) : option ConfigError :=
  let bad field value := Some {| e_prefix := prefix; e_label := label; e_field := field; e_value := value |} in
  if negb ((Runtime a =? RuntimeDisable) || (Runtime a =? RuntimeEnable)) then bad "runtime" (Runtime a)
  else if negb ((File a =? FileActionNone) || (File a =? FileActionQuarantine)) then bad "file" (File a)
  else if negb ((Install a =? InstallBlock) || (Install a =? InstallAllow) || (Install a =? InstallNone))
  then bad "install" (Install a)
  else None.

Fixpoint validateActions (prefix : string) (entries : list (string * SeverityAction)) : option ConfigError :=
  match entries with
  | [] => None
  | e :: entries' =>
      match validate_entry prefix e.1 e.2 with
      | Some err => Some err
      | None => validateActions prefix entries'
      end
  end.

Definition entries_of (a : ActionsConfig) : list (string * SeverityAction) :=
  [("critical", Critical a); ("high", High a); ("medium", Medium a); ("low", Low a); ("info", Info a)].

Section Actions.
Context {U : GoUnicode}.

Definition ForSeverity (a : ActionsConfig) (severity : string) : SeverityAction :=
  let s := ToUpper severity in
  if s =? "CRITICAL" then Critical a
  else if s =? "HIGH" then High a
  else if s =? "MEDIUM" then Medium a
  else if s =? "LOW" then Low a
  else Info a.

(** Skills, MCP servers and plugins read their configuration in the same way. *)
Definition MCP_ForSeverity := ForSeverity.
Definition Plugin_ForSeverity := ForSeverity.

Definition ShouldDisable (a : ActionsConfig) (severity : string) : bool :=
  Runtime (ForSeverity a severity) =? RuntimeDisable.
Definition ShouldQuarantine (a : ActionsConfig) (severity : string) : bool :=
  File (ForSeverity a severity) =? FileActionQuarantine.
Definition ShouldInstallBlock (a : ActionsConfig) (severity : string) : bool :=
  Install (ForSeverity a severity) =? InstallBlock.
Definition MCP_ShouldInstallBlock := ShouldInstallBlock.
Definition Plugin_ShouldDisable := ShouldDisable.
Definition Plugin_ShouldQuarantine := ShouldQuarantine.
Definition Plugin_ShouldInstallBlock := ShouldInstallBlock.

Definition Skill_Validate (a : ActionsConfig) : option ConfigError := validateActions "skill_actions" (entries_of a).
Definition MCP_Validate (a : ActionsConfig) : option ConfigError := validateActions "mcp_actions" (entries_of a).
Definition Plugin_Validate (a : ActionsConfig) : option ConfigError :=
  validateActions "plugin_actions" (entries_of a).

Definition valid_action (a : SeverityAction) : Prop :=
  Runtime a ∈ ["disable"; "enable"] /\ File a ∈ ["none"; "quarantine"] /\
  Install a ∈ ["block"; "allow"; "none"].

Lemma validate_entry_spec prefix label a : validate_entry prefix label a = None <-> valid_action a.
Proof.
  unfold validate_entry, valid_action. rewrite !list_elem_of_In. simpl. cbv zeta.
  unfold RuntimeDisable, RuntimeEnable, FileActionNone, FileActionQuarantine, InstallBlock, InstallAllow, InstallNone.
  destruct (String.eqb_spec (Runtime a) "disable"), (String.eqb_spec (Runtime a) "enable"),
    (String.eqb_spec (File a) "none"), (String.eqb_spec (File a) "quarantine"),
    (String.eqb_spec (Install a) "block"), (String.eqb_spec (Install a) "allow"),
    (String.eqb_spec (Install a) "none"); simpl; naive_solver.
Qed.

Lemma validateActions_spec prefix l : validateActions prefix l = None <-> Forall (fun e => valid_action e.2) l.
Proof.
  induction l as [|[label a] l IH]; simpl; [by rewrite Forall_nil|].
  rewrite Forall_cons, <- IH. rewrite <- (validate_entry_spec prefix label). by case_match; naive_solver.
Qed.

(** Validation is exact: a configuration validates if and only if the
    action of every severity name, in any case and known or not, is one the
    enforcement understands; and an error is about the first action that is
    not.  The defaults validate. *)
Theorem Validate_exact a prefix :
  (validateActions prefix (entries_of a) = None <-> forall severity, valid_action (ForSeverity a severity)) /\
  (forall err, validateActions prefix (entries_of a) = Some err ->
     exists l1 l2 x, entries_of a = (l1 ++ (e_label err, x) :: l2)%list /\
       Forall (fun e => valid_action e.2) l1 /\ ~ valid_action x) /\
  Skill_Validate DefaultSkillActions = None /\ MCP_Validate DefaultMCPActions = None /\
  Plugin_Validate DefaultPluginActions = None.
Proof.
  split_and!; [|clear|done..].
  - rewrite validateActions_spec. unfold entries_of. rewrite !Forall_cons, Forall_nil. simpl. split.
    + intros H severity. unfold ForSeverity. repeat case_match; naive_solver.
    + intros H. pose proof (H "CRITICAL"). pose proof (H "HIGH"). pose proof (H "MEDIUM").
      pose proof (H "LOW"). pose proof (H "INFO"). done.
  - generalize (entries_of a). intros l err. induction l as [|[label x] l IH]; simpl; [done|].
    destruct (validate_entry prefix label x) as [e|] eqn:Hx.
    + intros [= <-]. exists [], l, x. split_and!; [|constructor|].
      * simpl. do 2 f_equal. unfold validate_entry in Hx. cbv zeta in Hx.
        repeat case_match; simplify_eq; done.
      * by rewrite <- (validate_entry_spec prefix label), Hx.
    + intros He. destruct (IH He) as (l1 & l2 & y & -> & Hl & Hy).
      exists ((label, x) :: l1), l2, y. split_and!; [done| |done]. constructor; [|done].
      by apply (validate_entry_spec prefix label).
Qed.
End Actions.
