(* ===== verification/Watcher.v ===== *)
(** * The install watcher's admission (internal/watcher/watcher.go)

    [runAdmission], the gate every freshly detected skill, plugin or MCP server
    goes through, over the enforcement table, the asset policy, the optional
    Rego engine, the built-in gate and a scanner.  The scanner and the Rego
    evaluation are parameters; so is what other writers do to the table while
    the scan runs.  The effects of the watcher (audit lines, enforcement,
    metrics) are a trace.  The file-system part of a quarantine is one event. *)
From stdpp Require Import base list gmap strings pretty.
From Stdlib Require Import ZArith Lia Ascii.
From S2P Require Import Prelude GoStrings ActionStore PolicyEngine.
From S2P Require AssetPolicy Admission.

Local Open Scope string_scope.

(** ** Data *)

Definition InstallSkill : string := "skill".
Definition InstallMCP : string := "mcp".
Definition InstallPlugin : string := "plugin".

Record InstallEvent := {
  Type_ : string;
  Name : string;
  Path : string;
  EvtConnector : string;
  Timestamp : Time;
}.

Definition VerdictBlocked : string := "blocked".
Definition VerdictAllowed : string := "allowed".
Definition VerdictClean : string := "clean".
Definition VerdictRejected : string := "rejected".
Definition VerdictWarning : string := "warning".
Definition VerdictScanError : string := "scan-error".

Record AdmissionResult := {
  Event : InstallEvent;
  Verdict : string;
  ResReason : string;
  MaxSeverity_ : string;
  FindingCount : Z;
  InstallAction : string;
  FileAction : string;
  RuntimeAction : string;
}.

(** The result of a scanner (internal/scanner/result.go). *)
Record Finding := {
  f_Severity : string;
  f_Scanner : string;
  f_Title : string;
  f_Location : string;
  f_RuleID : string;
}.
Record ScanResult := { Findings : list Finding; ExitCode : Z; ScanError : string }.

Definition severityRank (s : string) : Z :=
  if s =? "CRITICAL" then 5 else if s =? "HIGH" then 4 else if s =? "MEDIUM" then 3
  else if s =? "LOW" then 2 else if s =? "INFO" then 1 else 0.

Definition MaxSeverity (r : ScanResult) : string :=
  match Findings r with
  | [] => "INFO"
  | f :: fs =>
      foldl (fun mx g => if (severityRank mx <? severityRank (f_Severity g))%Z then f_Severity g else mx)
        (f_Severity f) fs
  end.

Definition toFindingInputs (fs : list Finding) : list Admission.FindingInput :=
  (fun f => {| Admission.fi_Severity := f_Severity f; Admission.fi_Scanner := f_Scanner f;
               Admission.fi_Title := f_Title f |}) <$> fs.

Record Scanner := { ScannerName : string; Scan : string -> ScanResult + string }.

Inductive effect :=
| LogAction (action target : string)
| LogDiscovered (target : string)
| LogEnforcement (name source_path install runtime file : string)
| LogScan (verdict : string)
| RecordAdmission (verdict targetType : string)
| RecordScanError (scanner targetType : string)
| Scanned (path : string)
| BlockEndpoint (name : string)
| QuarantineAsset (targetType name connector path : string)
| RetainAsset (path : string)
| QuarantineUnavailable (path : string).

(** ** The monad: the table and the trace *)

Definition W (A : Type) : Type := Store -> Store * list effect * A.
Definition wret {A} (a : A) : W A := fun s => (s, [], a).
Definition wbind {A B} (m : W A) (f : A -> W B) : W B := fun s =>
  let '(s1, es1, a) := m s in
  let '(s2, es2, b) := f a s1 in (s2, (es1 ++ es2)%list, b).
Definition emit (e : effect) : W () := fun s => (s, [e], ()).
(** A call of the policy engine, with its error as a value. *)
Definition call {A} (m : M A) : W (A + error) := fun s => let '(s', r) := m s in (s', [], r).

Notation "x <~ m ; k" := (wbind m (fun x => k))
  (at level 100, m at next level, right associativity) : watcher_scope.
Notation "m ;~ k" := (wbind m (fun _ => k)) (at level 100, right associativity) : watcher_scope.
Local Open Scope watcher_scope.

(** The pattern [v, err := f(); err == nil && v]. *)
Definition holds (r : bool + error) : bool := match r with inl b => b | inr _ => false end.

Definition coalesce (value fallback : string) : string := if value =? "" then fallback else value.

Definition toVerdict (s : string) : string :=
  if s =? "blocked" then VerdictBlocked
  else if s =? "allowed" then VerdictAllowed
  else if s =? "clean" then VerdictClean
  else if s =? "rejected" then VerdictRejected
  else if s =? "warning" then VerdictWarning
  else VerdictScanError.

Section Watcher.
Context {U : GoUnicode}.
(** The database, whether the store of the watcher is nil, and the
    configuration with its enforcement switches. *)
Context (env : Env) (store_nil : bool) (cfg : AssetPolicy.Config).
Context (skill_take_action plugin_take_action mcp_take_action auto_block : bool).
(** [policy.LoadFallbackProfile] of the policy directory, proved about in
    [Admission]; the evaluation of the Rego engine when there is one; the
    scanner the factory returns; the writes of others during a scan; and
    whether two paths name the same file ([sameWatcherPath]). *)
Context (fallbackProfile : Admission.FallbackProfile).
Context (opa : option (Admission.AdmissionInput -> option (gmap string Admission.RegoValue))).
Context (newScanner : InstallEvent -> option Scanner).
Context (during_scan : Store -> Store).
Context (sameWatcherPath : string -> string -> bool).

Definition watcherConnectorName : string :=
  if negb (TrimSpace (AssetPolicy.Guardrail_Connector cfg) =? "")
  then ToLower (TrimSpace (AssetPolicy.Guardrail_Connector cfg))
  else ToLower (TrimSpace (AssetPolicy.Claw_Mode cfg)).

Definition eventConnector (evt : InstallEvent) : string :=
  let c := TrimSpace (EvtConnector evt) in
  if negb (c =? "") then c else watcherConnectorName.

Definition takeActionFor (evt : InstallEvent) : bool :=
  if Type_ evt =? InstallSkill then skill_take_action
  else if Type_ evt =? InstallPlugin then plugin_take_action
  else if Type_ evt =? InstallMCP then mcp_take_action
  else auto_block.

(** The loop of [preserveRestoredBlockedAsset] over the scopes. *)
Fixpoint restored_loop (evt : InstallEvent) (scopes : list string) : W bool :=
  match scopes with
  | [] => wret false
  | scope :: scopes' =>
      entry <~ call (GetActionForConnector env (Type_ evt) (Name evt) scope) ;
      match entry with
      | inl (Some e) =>
          if (File (Actions e) =? "") && negb (SourcePath e =? "") &&
             sameWatcherPath (SourcePath e) (Path evt)
          then wret true else restored_loop evt scopes'
      | _ => restored_loop evt scopes'
      end
  end.

Definition preserveRestoredBlockedAsset (evt : InstallEvent) : W bool :=
  if store_nil then wret false
  else
    let connector := eventConnector evt in
    blocked <~ call (IsBlockedForConnector env store_nil (Type_ evt) (Name evt) connector) ;
    if negb (holds blocked) then wret false
    else restored_loop evt (connector :: if negb (connector =? "") then [""] else []).

(** Up to the quarantine proper, whose journal and file moves are one event. *)
Definition quarantineAsset (evt : InstallEvent) : W () :=
  if store_nil then emit (QuarantineUnavailable (Path evt))
  else
    keep <~ preserveRestoredBlockedAsset evt ;
    if keep then emit (RetainAsset (Path evt))
    else emit (QuarantineAsset (Type_ evt) (Name evt) (eventConnector evt) (Path evt)).

Definition enforceBlock (evt : InstallEvent) : W () :=
  if Type_ evt =? InstallMCP then emit (BlockEndpoint (Name evt))
  else if (Type_ evt =? InstallSkill) || (Type_ evt =? InstallPlugin) then quarantineAsset evt
  else wret ().

Definition buildListEntries (action : string) : W (list Admission.ListEntry) :=
  entries <~ call (if action =? "block" then ListBlocked env store_nil else ListAllowed env store_nil) ;
  wret match entries with
       | inr _ => []
       | inl es => (fun e => {| Admission.le_TargetType := TargetType e;
                                Admission.le_TargetName := TargetName e;
                                Admission.le_Reason := Reason e |}) <$> es
       end.

Definition admission_input (evt : InstallEvent) (blockList allowList : list Admission.ListEntry)
    (scan : option Admission.ScanResultInput) : Admission.AdmissionInput :=
  {| Admission.TargetType := Type_ evt; Admission.TargetName := Name evt; Admission.Path := Path evt;
     Admission.BlockList := blockList; Admission.AllowList := allowList; Admission.ScanResult := scan |}.

(** Neither the exit code nor the error of the scan result is copied. *)
Definition scan_input (scanner : string) (r : ScanResult) : Admission.ScanResultInput :=
  {| Admission.MaxSeverity := MaxSeverity r; Admission.TotalFindings := zlen (Findings r);
     Admission.ScannerName := scanner; Admission.Findings := toFindingInputs (Findings r);
     Admission.ExitCode := 0; Admission.ScanError := "" |}.

Definition bare_result (evt : InstallEvent) (v reason : string) : AdmissionResult :=
  {| Event := evt; Verdict := v; ResReason := reason; MaxSeverity_ := ""; FindingCount := 0;
     InstallAction := ""; FileAction := ""; RuntimeAction := "" |}.

(** An audit line, the enforcement, the metric and the result: the steps of
    every branch that refuses an asset before its scan. *)
Definition refuse (evt : InstallEvent) (log metric v reason : string) : W AdmissionResult :=
  emit (LogAction log (Path evt)) ;~
  enforceBlock evt ;~
  emit (RecordAdmission metric (Type_ evt)) ;~
  wret (bare_result evt v reason).

Definition admit_unscanned (evt : InstallEvent) (reason : string) : W AdmissionResult :=
  emit (LogAction "install-allowed" (Path evt)) ;~
  emit (RecordAdmission "allowed" (Type_ evt)) ;~
  wret (bare_result evt VerdictAllowed reason).

(** Phase 1: the verdict before the scan, [None] to go on and scan. *)
Definition builtin_prescan (evt : InstallEvent) (input : Admission.AdmissionInput) : W (option AdmissionResult) :=
  let out := Admission.EvaluateAdmissionFallback input (Some fallbackProfile) in
  if Admission.Verdict out =? "blocked" then
    r <~ refuse evt "install-rejected" "blocked" VerdictBlocked (Admission.Reason out) ; wret (Some r)
  else if Admission.Verdict out =? "allowed" then
    r <~ admit_unscanned evt (Admission.Reason out) ; wret (Some r)
  else wret None.

Definition prescan (evt : InstallEvent) (input : Admission.AdmissionInput) : W (option AdmissionResult) :=
  match opa with
  | Some eval =>
      let out := Admission.Evaluate eval input in
      if Admission.Verdict out =? "blocked" then
        r <~ refuse evt "install-rejected" "blocked" VerdictBlocked (Admission.Reason out) ; wret (Some r)
      else if Admission.Verdict out =? "rejected" then
        r <~ refuse evt "install-rejected" "rejected" VerdictRejected (Admission.Reason out) ; wret (Some r)
      else if Admission.Verdict out =? "allowed" then
        r <~ admit_unscanned evt (Admission.Reason out) ; wret (Some r)
      else builtin_prescan evt input
  | None => builtin_prescan evt input
  end.

Definition auto_block_reason (result : ScanResult) (scannerName : string) : string :=
  "auto-block: watch detected " ++ MaxSeverity result ++ " findings (scanner=" ++ scannerName ++ ")".

Definition applyPostScanEnforcement (evt : InstallEvent) (out : Admission.AdmissionOutput)
    (result : ScanResult) (scannerName : string) : W () :=
  allowed <~ call (IsAllowed env store_nil (Type_ evt) (Name evt)) ;
  if holds allowed then emit (LogAction "install-allowed-skip-enforce" (Path evt))
  else if Admission.Verdict out =? "clean" then emit (LogAction "install-clean" (Path evt))
  else if Admission.Verdict out =? "rejected" then
    emit (LogAction "install-rejected" (Path evt)) ;~
    if takeActionFor evt then
      let blockReason := auto_block_reason result scannerName in
      let installAction := coalesce (Admission.InstallAction out) "block" in
      let runtimeAction := coalesce (Admission.RuntimeAction out) "allow" in
      let fileAction := coalesce (Admission.FileAction out) "none" in
      (if installAction =? "block" then _ <~ call (Block env store_nil (Type_ evt) (Name evt) blockReason) ; wret ()
       else wret ()) ;~
      call (PolicyEngine.SetSourcePath env store_nil (Type_ evt) (Name evt) (Path evt)) ;~
      (if fileAction =? "quarantine" then _ <~ call (Quarantine env store_nil (Type_ evt) (Name evt) blockReason) ; wret ()
       else wret ()) ;~
      (if runtimeAction =? "block" then _ <~ call (Disable env store_nil (Type_ evt) (Name evt) blockReason) ; wret ()
       else wret ()) ;~
      emit (LogEnforcement (Name evt) (Path evt) installAction runtimeAction fileAction) ;~
      if (fileAction =? "quarantine") || (runtimeAction =? "block") then enforceBlock evt else wret ()
    else wret ()
  else if Admission.Verdict out =? "warning" then emit (LogAction "install-warning" (Path evt))
  else wret ().

Definition finish (evt : InstallEvent) (out : Admission.AdmissionOutput) (result : ScanResult)
    (scannerName : string) : W AdmissionResult :=
  applyPostScanEnforcement evt out result scannerName ;~
  emit (LogScan (Admission.Verdict out)) ;~
  emit (RecordAdmission (Admission.Verdict out) (Type_ evt)) ;~
  wret {| Event := evt; Verdict := toVerdict (Admission.Verdict out); ResReason := Admission.Reason out;
          MaxSeverity_ := MaxSeverity result; FindingCount := zlen (Findings result);
          InstallAction := Admission.InstallAction out; FileAction := Admission.FileAction out;
          RuntimeAction := Admission.RuntimeAction out |}.

(** Phase 3 and the lists that changed during the scan. *)
Definition postscan (evt : InstallEvent) (blockList allowList : list Admission.ListEntry)
    (s : Scanner) (result : ScanResult) : W AdmissionResult :=
  let scanned v reason install :=
    {| Event := evt; Verdict := v; ResReason := reason; MaxSeverity_ := MaxSeverity result;
       FindingCount := zlen (Findings result); InstallAction := install; FileAction := ""; RuntimeAction := "" |} in
  blocked <~ call (IsBlocked env store_nil (Type_ evt) (Name evt)) ;
  if holds blocked then
    emit (LogAction "install-rejected" (Path evt)) ;~
    emit (LogScan "blocked") ;~
    enforceBlock evt ;~
    emit (RecordAdmission "blocked" (Type_ evt)) ;~
    wret (scanned VerdictBlocked (Type_ evt ++ " " ++ Quote (Name evt) ++ " is on the block list — rejected") "block")
  else
  allowed <~ call (IsAllowed env store_nil (Type_ evt) (Name evt)) ;
  if holds allowed then
    emit (LogAction "install-allowed" (Path evt)) ;~
    emit (LogScan "allowed") ;~
    emit (RecordAdmission "allowed" (Type_ evt)) ;~
    wret (scanned VerdictAllowed ("scan found findings but " ++ Type_ evt ++ " " ++ Quote (Name evt) ++
            " is allow-listed — skipping enforcement") "allow")
  else
  let input := admission_input evt blockList allowList (Some (scan_input (ScannerName s) result)) in
  let out := match opa with
             | Some eval => Admission.Evaluate eval input
             | None => Admission.EvaluateAdmissionFallback input (Some fallbackProfile)
             end in
  finish evt out result (ScannerName s).

(** Phase 2: the scan, while others may write to the table. *)
Definition scan_phase (evt : InstallEvent) (blockList allowList : list Admission.ListEntry) : W AdmissionResult :=
  match newScanner evt with
  | None =>
      emit (RecordAdmission "scan-error" (Type_ evt)) ;~
      wret (bare_result evt VerdictScanError "no scanner available")
  | Some s =>
      (fun st => (during_scan st, [Scanned (Path evt)], ())) ;~
      match Scan s (Path evt) with
      | inr err =>
          emit (LogAction "install-scan-error" (Path evt)) ;~
          emit (RecordScanError (ScannerName s) (Type_ evt)) ;~
          enforceBlock evt ;~
          emit (LogAction "install-blocked" (Path evt)) ;~
          emit (RecordAdmission "scan-error" (Type_ evt)) ;~
          wret {| Event := evt; Verdict := VerdictBlocked;
                  ResReason := "scanner failure (fail-closed): " ++ err; MaxSeverity_ := ""; FindingCount := 0;
                  InstallAction := "block"; FileAction := ""; RuntimeAction := "" |}
      | inl result => postscan evt blockList allowList s result
      end
  end.

(** The allow entry is pinned to another path. *)
Definition pinned_elsewhere (evt : InstallEvent) (existing : option ActionEntry + error) : bool :=
  match existing with
  | inl (Some e) =>
      (Install (Actions e) =? "allow") && negb (SourcePath e =? "") && negb (SourcePath e =? Path evt)
  | _ => false
  end.

Definition asset_decision (evt : InstallEvent) : AssetPolicy.AssetPolicyDecision :=
  AssetPolicy.EvaluateAssetPolicy (Some cfg)
    {| AssetPolicy.in_TargetType := Type_ evt; AssetPolicy.in_Name := Name evt;
       AssetPolicy.in_Connector := eventConnector evt; AssetPolicy.in_SourcePath := Path evt;
       AssetPolicy.in_URL := ""; AssetPolicy.in_Command := ""; AssetPolicy.in_Args := [];
       AssetPolicy.in_Transport := ""; AssetPolicy.in_RuntimeSurface := "watcher" |}.

Definition runAdmission (evt : InstallEvent) : W AdmissionResult :=
  emit (LogDiscovered (Path evt)) ;~
  existing <~ call (PolicyEngine.GetAction env store_nil (Type_ evt) (Name evt)) ;
  if pinned_elsewhere evt existing then
    refuse evt "install-allow-path-mismatch" "blocked" VerdictBlocked
      "allow entry pinned to different source_path; failing closed (F-2867)"
  else
  blockList <~ buildListEntries "block" ;
  allowList <~ buildListEntries "allow" ;
  let decision := asset_decision evt in
  if AssetPolicy.Enabled decision && (AssetPolicy.RawAction decision =? "block") &&
     (AssetPolicy.Action decision =? "block")
  then refuse evt "install-rejected" "blocked" VerdictBlocked (AssetPolicy.Reason decision)
  else
  early <~ prescan evt (admission_input evt blockList allowList None) ;
  match early with
  | Some r => wret r
  | None => scan_phase evt blockList allowList
  end.
End Watcher.

(** ** Lemmas *)

Lemma wbind_inv {A B} (m : W A) (f : A -> W B) s s' es b :
  wbind m f s = (s', es, b) ->
  exists s1 es1 a es2, m s = (s1, es1, a) /\ f a s1 = (s', es2, b) /\ es = (es1 ++ es2)%list.
Proof.
  unfold wbind. destruct (m s) as [[s1 es1] a]. destruct (f a s1) as [[s2 es2] b'] eqn:H.
  intros [= <- <- <-]. eauto 10.
Qed.

(** Programs of the watcher that only read the table and whose trace holds only
    effects of a kind. *)
Definition quiet_by {A} (P : effect -> Prop) (m : W A) : Prop :=
  forall s s' es a, m s = (s', es, a) -> rows s' = rows s /\ Forall P es.

Lemma quiet_ret {A} P (a : A) : quiet_by P (wret a).
Proof. by intros s s' es b [= <- <- _]. Qed.

Lemma quiet_emit (P : effect -> Prop) e : P e -> quiet_by P (emit e).
Proof. intros He s s' es b [= <- <- _]. split; [done|]. by constructor. Qed.

Lemma quiet_call {A} P (m : M A) : keeps_rows m -> quiet_by P (call m).
Proof.
  intros Hm s s' es b. unfold call. destruct (m s) as [s1 r] eqn:H. intros [= <- <- _].
  split; [by apply Hm in H|constructor].
Qed.

Lemma quiet_bind {A B} P (m : W A) (f : A -> W B) :
  quiet_by P m -> (forall a, quiet_by P (f a)) -> quiet_by P (wbind m f).
Proof.
  intros Hm Hf s s' es b H. apply wbind_inv in H as (s1 & es1 & a & es2 & H1 & H2 & ->).
  apply Hm in H1 as [R1 F1]. apply Hf in H2 as [R2 F2]. split; [congruence|]. by apply Forall_app.
Qed.

#[export] Hint Resolve quiet_ret quiet_emit quiet_call quiet_bind : claw.

Definition not_scanned (e : effect) : Prop := match e with Scanned _ => False | _ => True end.

(** The effects by which an asset is contained. *)
Definition containment (e : effect) : bool :=
  match e with
  | BlockEndpoint _ | QuarantineAsset _ _ _ _ | RetainAsset _ | QuarantineUnavailable _ => true
  | _ => false
  end.

Definition contained (es : list effect) : Prop := exists e, e ∈ es /\ containment e = true.

Lemma contained_app es es' : contained es \/ contained es' -> contained (es ++ es').
Proof. intros [(e & H & ?)|(e & H & ?)]; exists e; split; try done; apply elem_of_app; auto. Qed.

(** The asset types the watcher enforces on. *)
Definition known_type (evt : InstallEvent) : Prop :=
  Type_ evt ∈ [InstallSkill; InstallMCP; InstallPlugin].

Section Facts.
Context {U : GoUnicode} (env : Env) (store_nil : bool) (cfg : AssetPolicy.Config).
Context (sameWatcherPath : string -> string -> bool).

Abbreviation enforce := (enforceBlock env store_nil cfg sameWatcherPath).
Abbreviation refuse_ := (refuse env store_nil cfg sameWatcherPath).

Lemma restored_loop_quiet P evt scopes : quiet_by P (restored_loop env sameWatcherPath evt scopes).
Proof.
  induction scopes as [|c scopes IH]; simpl; [auto with claw|].
  apply quiet_bind; [auto with claw|]. intros [[e|]|err]; [case_match|..]; auto with claw.
Qed.

Lemma preserve_quiet P nil evt :
  quiet_by P (preserveRestoredBlockedAsset env nil cfg sameWatcherPath evt).
Proof.
  unfold preserveRestoredBlockedAsset. destruct nil; [auto with claw|].
  apply quiet_bind.
  - apply quiet_call. unfold IsBlockedForConnector. apply keeps_guarded, keeps_scoped_query; auto with claw.
    apply keeps_has.
  - intros b. case_match; [auto with claw|]. apply restored_loop_quiet.
Qed.

Lemma enforce_quiet evt : quiet_by not_scanned (enforce evt).
Proof.
  unfold enforceBlock, quarantineAsset. repeat case_match; try solve [by apply quiet_emit|apply quiet_ret].
  apply quiet_bind; [subst; apply preserve_quiet|]. intros b; case_match; by apply quiet_emit.
Qed.

(** Enforcement leaves the table alone and contains an asset of a known type. *)
Lemma enforce_contains evt s s' es a :
  known_type evt -> enforce evt s = (s', es, a) -> contained es.
Proof.
  unfold known_type, enforceBlock, quarantineAsset. intros Ht H.
  assert (Hone : forall e, containment e = true -> contained [e]).
  { intros e He. exists e. split; [by left|done]. }
  case_match eqn:H1; [unfold emit in H; simplify_eq; by apply Hone|].
  case_match eqn:H2.
  - case_match; [unfold emit in H; simplify_eq; by apply Hone|].
    apply wbind_inv in H as (s1 & es1 & b & es2 & _ & H & ->). apply contained_app. right.
    case_match; unfold emit in H; simplify_eq; by apply Hone.
  - exfalso. apply orb_false_iff in H2 as [H2 H3].
    apply String.eqb_neq in H1, H2, H3. set_solver.
Qed.

Lemma refuse_spec evt log metric v reason s s' es r :
  known_type evt -> refuse_ evt log metric v reason s = (s', es, r) ->
  r = bare_result evt v reason /\ rows s' = rows s /\ Forall not_scanned es /\ contained es.
Proof.
  intros Ht H. unfold refuse in H.
  apply wbind_inv in H as (s1 & es1 & a1 & es2 & H1 & H & ->). unfold emit in H1. simplify_eq.
  apply wbind_inv in H as (s2 & es3 & a2 & es4 & H1 & H & ->).
  pose proof (enforce_quiet evt _ _ _ _ H1) as [Hr Hf]. apply enforce_contains in H1; [|done].
  apply wbind_inv in H as (s3 & es5 & a3 & es6 & H2 & H & ->). unfold emit, wret in *. simplify_eq.
  split_and!; [done|done| |].
  - simpl. constructor; [done|]. apply Forall_app. split; [done|]. by repeat constructor.
  - apply contained_app. right. apply contained_app. by left.
Qed.
End Facts.

Section Admission.
Context {U : GoUnicode} (env : Env) (cfg : AssetPolicy.Config).
Context (sameWatcherPath : string -> string -> bool).
Context (no_faults : forall i, fault env i = false).

Lemma list_returns value : value = "block" \/ value = "allow" ->
  returns (ListByAction env "install" value).
Proof.
  intros Hv. unfold ListByAction, validated.
  assert (validateActionFieldAndValue "install" value = None) as -> by (by destruct Hv as [-> | ->]).
  by apply returns_query.
Qed.

(** The list of an action holds the assets under that directive in any scope. *)
Lemma buildListEntries_spec action s s' es l :
  action = "block" \/ action = "allow" ->
  buildListEntries env false action s = (s', es, l) ->
  es = [] /\ rows s' = rows s /\
  forall evt bl al r, Admission.listed l (admission_input evt bl al r) <->
    exists c, view s (Type_ evt, Name evt, c) DInstall = action.
Proof.
  intros Ha H. unfold buildListEntries in H.
  apply wbind_inv in H as (s1 & es1 & entries & es2 & H1 & H & ->). unfold wret in H. simplify_eq.
  assert (Hl : ListByAction env "install" action s = (s', entries) /\ es1 = []).
  { assert (H1' : call (ListByAction env "install" action) s = (s', es1, entries))
      by (destruct Ha as [-> | ->]; exact H1).
    unfold call in H1'. destruct (ListByAction env "install" action s) as [s3 r3]. by simplify_eq. }
  destruct Hl as [Hl ->]. destruct (list_returns action Ha s) as (s2 & l & Hl'). rewrite Hl in Hl'. simplify_eq.
  apply (ListByAction_view env DInstall) in Hl as (Hr & _ & _ & Hv); [|by destruct Ha as [-> | ->]].
  split_and!; [done|done|]. intros evt bl al r. setoid_rewrite Hv. unfold Admission.listed. simpl. split.
  - intros (e & He & Ht & Hn). apply list_elem_of_fmap in He as (a & -> & Hin). simpl in *.
    exists (Connector a), a. split; [done|]. unfold key_of. congruence.
  - intros (c & a & Hin & Hk). unfold key_of in Hk. simplify_eq.
    eexists. split; [by apply list_elem_of_fmap_2|]. done.
Qed.

Lemma has_install_view t n value s s' es r :
  value = "block" \/ value = "allow" ->
  call (HasAction env t n "install" value) s = (s', es, r) ->
  es = [] /\ rows s' = rows s /\ holds r = bool_decide (view s (t, n, "") DInstall = value).
Proof.
  intros Hval. unfold call. destruct (HasAction env t n "install" value s) as [s1 r1] eqn:H.
  intros [= <- <- <-].
  assert (returns (HasAction env t n "install" value)) as Hret.
  { unfold HasAction, HasActionForConnector, validated.
    assert (validateActionFieldAndValue "install" value = None) as -> by (by destruct Hval as [-> | ->]).
    by apply returns_query. }
  destruct (Hret s) as (s2 & b & Hb). rewrite H in Hb. simplify_eq.
  apply HasAction_view in H as (Hr & d & Hd & ->); [|by destruct Hval as [-> | ->]]. by destruct d.
Qed.

Lemma IsBlocked_view t n s s' es r :
  call (IsBlocked env false t n) s = (s', es, r) ->
  es = [] /\ rows s' = rows s /\ holds r = bool_decide (view s (t, n, "") DInstall = "block").
Proof. apply has_install_view. by left. Qed.

Lemma IsAllowed_view t n s s' es r :
  call (IsAllowed env false t n) s = (s', es, r) ->
  es = [] /\ rows s' = rows s /\ holds r = bool_decide (view s (t, n, "") DInstall = "allow").
Proof. apply has_install_view. by right. Qed.

Context (fallbackProfile : Admission.FallbackProfile).
Context (opa : option (Admission.AdmissionInput -> option (gmap string Admission.RegoValue))).

(** The Rego policy never admits an asset of the block list. *)
Definition honours_blocks : Prop :=
  forall eval input, opa = Some eval -> Admission.listed (Admission.BlockList input) input ->
    Admission.Verdict (Admission.Evaluate eval input) <> "allowed".

Definition refused (r : AdmissionResult) : Prop := Verdict r = VerdictBlocked \/ Verdict r = VerdictRejected.

Lemma builtin_prescan_blocked evt input s s' es o :
  known_type evt -> Admission.listed (Admission.BlockList input) input ->
  builtin_prescan env false cfg fallbackProfile sameWatcherPath evt input s = (s', es, o) ->
  rows s' = rows s /\ Forall not_scanned es /\ contained es /\ exists r, o = Some r /\ refused r.
Proof.
  intros Ht Hl H. unfold builtin_prescan in H.
  assert (Admission.Verdict (Admission.EvaluateAdmissionFallback input (Some fallbackProfile)) = "blocked") as Hv.
  { pose proof (Admission.gate_cases input (Some fallbackProfile)) as Hc. cbv zeta in Hc.
    destruct Hc as [[_ ?]|[[? _]|[? _]]]; done. }
  rewrite Hv in H. cbn [String.eqb] in H.
  apply wbind_inv in H as (s1 & es1 & r & es2 & H1 & H & ->). unfold wret in H. simplify_eq.
  apply refuse_spec in H1 as (-> & Hr & Hf & Hc); [|done]. rewrite app_nil_r.
  split_and!; [done..|]. eexists. split; [done|]. by left.
Qed.

Lemma prescan_blocked evt input s s' es o :
  known_type evt -> Admission.listed (Admission.BlockList input) input -> honours_blocks ->
  prescan env false cfg fallbackProfile opa sameWatcherPath evt input s = (s', es, o) ->
  rows s' = rows s /\ Forall not_scanned es /\ contained es /\ exists r, o = Some r /\ refused r.
Proof.
  intros Ht Hl Hopa H. unfold prescan in H. destruct opa as [eval|] eqn:Ho; [|by eapply builtin_prescan_blocked].
  assert (Hrefuse : forall l m v reason s s' es o, v = VerdictBlocked \/ v = VerdictRejected ->
    (r <~ refuse env false cfg sameWatcherPath evt l m v reason ; wret (Some r)) s = (s', es, o) ->
    rows s' = rows s /\ Forall not_scanned es /\ contained es /\ exists r, o = Some r /\ refused r).
  { intros l m v reason s0 s0' es0 o0 Hv H0.
    apply wbind_inv in H0 as (s1 & es1 & r & es2 & H1 & H0 & ->). unfold wret in H0. simplify_eq.
    apply refuse_spec in H1 as (-> & Hr & Hf & Hc); [|done]. rewrite app_nil_r. split_and!; [done..|].
    eexists. split; [done|]. by destruct Hv as [-> | ->]; [left|right]. }
  case_match eqn:H1; [eapply Hrefuse; [|exact H]; by left|].
  case_match eqn:H2; [eapply Hrefuse; [|exact H]; by right|].
  case_match eqn:H3; [|by eapply builtin_prescan_blocked].
  apply String.eqb_eq in H3. by destruct (Hopa eval input Ho Hl).
Qed.
End Admission.

Section Structure.
Context {U : GoUnicode} (env : Env) (cfg : AssetPolicy.Config).
Context (no_faults : forall i, fault env i = false).
Context (skill_take plugin_take mcp_take auto_block : bool).
Context (fallbackProfile : Admission.FallbackProfile).
Context (opa : option (Admission.AdmissionInput -> option (gmap string Admission.RegoValue))).
Context (newScanner : InstallEvent -> option Scanner) (during_scan : Store -> Store).
Context (sameWatcherPath : string -> string -> bool).

Abbreviation admission :=
  (runAdmission env false cfg skill_take plugin_take mcp_take auto_block fallbackProfile opa
     newScanner during_scan sameWatcherPath).
Abbreviation scanning :=
  (scan_phase env false cfg skill_take plugin_take mcp_take auto_block fallbackProfile opa
     newScanner during_scan sameWatcherPath).

Lemma bind_emit {B} e (k : () -> W B) s s' es b :
  wbind (emit e) k s = (s', es, b) -> exists es', k () s = (s', es', b) /\ es = e :: es'.
Proof.
  unfold wbind, emit. destruct (k () s) as [[s1 es1] b1]. intros [= <- <- <-]. eauto.
Qed.

(** The run of the gate: either one of the two early refusals, or the verdict
    before the scan, or the scan, over lists that hold the directives. *)
Lemma runAdmission_cases evt s s' es r :
  admission evt s = (s', es, r) ->
  exists es', es = LogDiscovered (Path evt) :: es' /\
  ((exists l m reason s1, rows s1 = rows s /\
      refuse env false cfg sameWatcherPath evt l m VerdictBlocked reason s1 = (s', es', r)) \/
   (exists bl al s1 s2 es1 early, rows s1 = rows s /\
      (Admission.listed bl (admission_input evt bl al None) <->
        exists c, view s (Type_ evt, Name evt, c) DInstall = "block") /\
      (Admission.listed al (admission_input evt bl al None) <->
        exists c, view s (Type_ evt, Name evt, c) DInstall = "allow") /\
      prescan env false cfg fallbackProfile opa sameWatcherPath evt (admission_input evt bl al None) s1
        = (s2, es1, early) /\
      match early with
      | Some r0 => s' = s2 /\ es' = es1 /\ r = r0
      | None => exists es2, scanning evt bl al s2 = (s', es2, r) /\ es' = (es1 ++ es2)%list
      end)).
Proof.
  intros H. unfold runAdmission in H. apply bind_emit in H as (es' & H & ->). exists es'. split; [done|].
  apply wbind_inv in H as (s1 & es1 & existing & es2 & H1 & H & ->).
  assert (rows s1 = rows s /\ es1 = []) as [Hr1 ->].
  { unfold call in H1. destruct (PolicyEngine.GetAction env false (Type_ evt) (Name evt) s) as [s3 r3] eqn:Hg.
    injection H1 as <- <- <-. split; [|done]. revert Hg. apply keeps_guarded, keeps_get. }
  simpl. destruct (pinned_elsewhere evt existing).
  { left. eexists _, _, _, _. split; [exact Hr1|exact H]. }
  apply wbind_inv in H as (s2 & es3 & bl & es4 & H2 & H & ->).
  apply buildListEntries_spec in H2 as (-> & Hr2 & Hbl); [|done|by left].
  apply wbind_inv in H as (s3 & es5 & al & es6 & H3 & H & ->).
  apply buildListEntries_spec in H3 as (-> & Hr3 & Hal); [|done|by right]. simpl.
  assert (Hr : rows s3 = rows s) by congruence.
  case_match; [left; eexists _, _, _, _; split; [exact Hr|exact H]|]. right.
  apply wbind_inv in H as (s4 & es7 & early & es8 & H4 & H & ->).
  eexists bl, al, s3, s4, es7, early. split_and!; [done|..|exact H4|].
  - rewrite Hbl. unfold view. by rewrite Hr1.
  - rewrite Hal. unfold view. by rewrite Hr2, Hr1.
  - destruct early as [r0|].
    + unfold wret in H. simplify_eq. by rewrite app_nil_r.
    + eauto.
Qed.


Lemma refuse_quiet evt log metric v reason :
  quiet_by not_scanned (refuse env false cfg sameWatcherPath evt log metric v reason).
Proof.
  unfold refuse. apply quiet_bind; [by apply quiet_emit|]. intros _.
  apply quiet_bind; [apply enforce_quiet|]. intros _.
  apply quiet_bind; [by apply quiet_emit|]. intros _. apply quiet_ret.
Qed.

Lemma admit_quiet evt reason : quiet_by not_scanned (admit_unscanned evt reason).
Proof.
  unfold admit_unscanned. apply quiet_bind; [by apply quiet_emit|]. intros _.
  apply quiet_bind; [by apply quiet_emit|]. intros _. apply quiet_ret.
Qed.

Lemma some_quiet (m : W AdmissionResult) : quiet_by not_scanned m ->
  quiet_by not_scanned (r <~ m ; wret (Some r)).
Proof. intros Hm. apply quiet_bind; [done|]. intros r. apply quiet_ret. Qed.

Lemma builtin_prescan_quiet evt input :
  quiet_by not_scanned (builtin_prescan env false cfg fallbackProfile sameWatcherPath evt input).
Proof.
  unfold builtin_prescan. cbv zeta.
  repeat (case_match; [apply some_quiet; first [apply refuse_quiet|apply admit_quiet]|]). apply quiet_ret.
Qed.

Lemma prescan_quiet evt input :
  quiet_by not_scanned (prescan env false cfg fallbackProfile opa sameWatcherPath evt input).
Proof.
  unfold prescan. cbv zeta. case_match; [|apply builtin_prescan_quiet].
  repeat (case_match; [apply some_quiet; first [apply refuse_quiet|apply admit_quiet]|]).
  apply builtin_prescan_quiet.
Qed.

(** An asset was scanned: the run is a prescan without verdict, then the scan. *)
Lemma scanned_cases evt s s' es r :
  admission evt s = (s', es, r) -> Scanned (Path evt) ∈ es ->
  exists bl al s1 es1 es2, rows s1 = rows s /\ es = (es1 ++ es2)%list /\
    scanning evt bl al s1 = (s', es2, r).
Proof.
  intros H Hsc. apply runAdmission_cases in H as (es' & -> & H).
  assert (Hno : forall es0, Forall not_scanned es0 -> Scanned (Path evt) ∉ es0).
  { intros es0 Hf Hin. by apply (proj1 (Forall_forall _ _) Hf) in Hin. }
  apply elem_of_cons in Hsc as [?|Hsc]; [done|].
  destruct H as [(l & m & reason & s1 & Hr & H)|(bl & al & s1 & s2 & es1 & early & Hr & _ & _ & Hp & H)].
  - apply refuse_quiet in H as [_ Hf]. by apply Hno in Hf.
  - apply prescan_quiet in Hp as [Hr2 Hf]. destruct early as [r0|].
    + destruct H as (-> & -> & ->). by apply Hno in Hf.
    + destruct H as (es2 & H & ->). exists bl, al, s2, (LogDiscovered (Path evt) :: es1), es2.
      split_and!; [congruence|done|done].
Qed.
End Structure.

(** The results of the branches. *)
Section Results.
Context {U : GoUnicode} (env : Env) (cfg : AssetPolicy.Config).
Context (no_faults : forall i, fault env i = false).
Context (skill_take plugin_take mcp_take auto_block : bool).
Context (fallbackProfile : Admission.FallbackProfile).
Context (newScanner : InstallEvent -> option Scanner) (during_scan : Store -> Store).
Context (sameWatcherPath : string -> string -> bool).

Lemma refuse_result evt log metric v reason s s' es r :
  refuse env false cfg sameWatcherPath evt log metric v reason s = (s', es, r) -> r = bare_result evt v reason.
Proof.
  intros H. apply bind_emit in H as (es1 & H & ->).
  apply wbind_inv in H as (s1 & es2 & a & es3 & _ & H & ->).
  apply bind_emit in H as (es4 & H & ->). by injection H as _ _ <-.
Qed.

Lemma builtin_prescan_cases evt input s s' es o :
  builtin_prescan env false cfg fallbackProfile sameWatcherPath evt input s = (s', es, o) ->
  let v := Admission.Verdict (Admission.EvaluateAdmissionFallback input (Some fallbackProfile)) in
  match o with
  | Some r => (Verdict r = VerdictBlocked /\ v = "blocked") \/ (Verdict r = VerdictAllowed /\ v = "allowed")
  | None => v <> "blocked" /\ v <> "allowed"
  end.
Proof.
  unfold builtin_prescan. cbv zeta. case_match eqn:H1; [|case_match eqn:H2]; intros H.
  - apply wbind_inv in H as (s1 & es1 & r & es2 & Hr & H & ->). injection H as _ _ <-.
    apply refuse_result in Hr as ->. apply String.eqb_eq in H1. by left.
  - apply wbind_inv in H as (s1 & es1 & r & es2 & Hr & H & ->). injection H as _ _ <-.
    apply bind_emit in Hr as (es3 & Hr & ->). apply bind_emit in Hr as (es4 & Hr & ->).
    injection Hr as _ _ <-. apply String.eqb_eq in H2. by right.
  - injection H as _ _ <-. by apply String.eqb_neq in H1, H2.
Qed.

Lemma finish_verdict evt out result name s s' es r :
  finish env false cfg skill_take plugin_take mcp_take auto_block sameWatcherPath evt out result name s = (s', es, r) ->
  Verdict r = toVerdict (Admission.Verdict out).
Proof.
  intros H. apply wbind_inv in H as (s1 & es1 & a & es2 & _ & H & ->).
  apply bind_emit in H as (es3 & H & ->). apply bind_emit in H as (es4 & H & ->). by injection H as _ _ <-.
Qed.

(** The verdict of the scan phase without a Rego engine. *)
Lemma scan_phase_cases evt bl al s s' es r :
  scan_phase env false cfg skill_take plugin_take mcp_take auto_block fallbackProfile None
    newScanner during_scan sameWatcherPath evt bl al s = (s', es, r) ->
  Verdict r = VerdictScanError \/ Verdict r = VerdictBlocked \/
  exists sc result, newScanner evt = Some sc /\ Scan sc (Path evt) = inl result /\
    ((Verdict r = VerdictAllowed /\ view (during_scan s) (Type_ evt, Name evt, "") DInstall = "allow") \/
     Verdict r = toVerdict (Admission.Verdict (Admission.EvaluateAdmissionFallback
       (admission_input evt bl al (Some (scan_input (ScannerName sc) result))) (Some fallbackProfile)))).
Proof.
  intros H. unfold scan_phase in H. destruct (newScanner evt) as [sc|].
  2:{ apply bind_emit in H as (es1 & H & ->). injection H as _ _ <-. by left. }
  right. apply wbind_inv in H as (s2 & es3 & u & es4 & H1 & H & ->). injection H1 as <- <- _.
  destruct (Scan sc (Path evt)) as [result|err] eqn:Hres.
  2:{ apply bind_emit in H as (es5 & H & ->). apply bind_emit in H as (es6 & H & ->).
      apply wbind_inv in H as (s4 & es7 & u' & es8 & H1 & H & ->).
      apply bind_emit in H as (es9 & H & ->). apply bind_emit in H as (es10 & H & ->).
      injection H as _ _ <-. by left. }
  unfold postscan in H. cbv zeta in H.
  apply wbind_inv in H as (s3 & es5 & b & es6 & H1 & H & ->).
  apply IsBlocked_view in H1 as (-> & Hr3 & Hb); [|done]. destruct (holds b).
  { apply bind_emit in H as (es7 & H & ->). apply bind_emit in H as (es8 & H & ->).
    apply wbind_inv in H as (s4 & es9 & u' & es10 & H1 & H & ->).
    apply bind_emit in H as (es11 & H & ->). injection H as _ _ <-. by left. }
  right. exists sc, result. split_and!; [done|done|].
  apply wbind_inv in H as (s4 & es7 & a & es8 & H1 & H & ->).
  apply IsAllowed_view in H1 as (-> & Hr4 & Ha); [|done]. destruct (holds a).
  { apply bind_emit in H as (es9 & H & ->). apply bind_emit in H as (es10 & H & ->).
    apply bind_emit in H as (es11 & H & ->). injection H as _ _ <-. left. split; [done|].
    symmetry in Ha. apply bool_decide_eq_true in Ha. rewrite <- Ha. symmetry. by apply view_same. }
  right. by apply finish_verdict in H.
Qed.
End Results.

(** The abstract operations of the enforcement of a rejection. *)
Definition rejection_ops (evt : InstallEvent) (out : Admission.AdmissionOutput) (reason : string) : list op :=
  ((if coalesce (Admission.InstallAction out) "block" =? "block"
    then [OBlock (Type_ evt) (Name evt) None reason] else []) ++
   [OSetSourcePath (Type_ evt) (Name evt) (Path evt)] ++
   (if coalesce (Admission.FileAction out) "none" =? "quarantine"
    then [OQuarantine (Type_ evt) (Name evt) reason] else []) ++
   (if coalesce (Admission.RuntimeAction out) "allow" =? "block"
    then [ODisable (Type_ evt) (Name evt) reason] else []))%list.

(** An optional call whose error is dropped: without faults it has its abstract
    effect and no trace. *)
Definition simple_op (o : op) : Prop :=
  match o with
  | OBlock _ _ None _ | OQuarantine _ _ _ | ODisable _ _ _ | OSetSourcePath _ _ _ => True
  | _ => False
  end.

Lemma simple_op_returns env o s :
  (forall i, fault env i = false) -> simple_op o -> exists s', exec_op env false o s = (s', inl ()).
Proof.
  intros Hf Ho.
  assert (Hset : forall t n f v r, validateActionFieldAndValue f v = None -> is_Some (parse_field f) ->
    exists s', SetActionField env t n f v r s = (s', inl ())).
  { intros t n f v r Hv [d Hd]. unfold SetActionField, SetActionFieldForConnector, validated.
    rewrite Hv, Hd. unfold bind, interact, execDB. simpl. rewrite Hf. eauto. }
  destruct o as [t n [c|] r| | | |t n r| |t n r| |t n p| | |]; try done; simpl.
  - apply Hset; [done|by eexists].
  - apply Hset; [done|by eexists].
  - apply Hset; [done|by eexists].
  - unfold SetSourcePath, guarded, bind, try, ActionStore.SetSourcePath, SetSourcePathForConnector, execDB.
    rewrite Hf. eauto.
Qed.

Lemma call_op env o {A} (f : () + error -> W A) s s' es b :
  (forall i, fault env i = false) -> simple_op o ->
  wbind (call (exec_op env false o)) f s = (s', es, b) ->
  exists s1, f (inl ()) s1 = (s', es, b) /\ forall k d, view s1 k d = spec_op o (view s) k d.
Proof.
  intros Hf Ho H. destruct (simple_op_returns env o s Hf Ho) as [s1 H1].
  unfold wbind, call in H. rewrite H1 in H. destruct (f (inl ()) s1) as [[s2 es2] b2] eqn:H2.
  simplify_eq/=. exists s1. split; [done|]. by apply exec_op_outcome in H1.
Qed.

(** The same under a test. *)
Lemma optional_op env o (c : bool) {A} (f : () -> W A) s s' es b :
  (forall i, fault env i = false) -> simple_op o ->
  wbind (if c then (_ <~ call (exec_op env false o) ; wret ()) else wret ()) f s = (s', es, b) ->
  exists s1, f () s1 = (s', es, b) /\
    forall k d, view s1 k d = foldl (fun v o => spec_op o v) (view s) (if c then [o] else []) k d.
Proof.
  intros Hf Ho H. destruct c.
  - apply wbind_inv in H as (s1 & es1 & u & es2 & H1 & H & ->). destruct u.
    apply call_op in H1 as (s2 & H2 & Hv); [|done..]. unfold wret in H2. simplify_eq. exists s1. by split.
  - unfold wbind, wret in H. destruct (f () s) as [[s2 es2] b2] eqn:H2. simplify_eq/=. exists s. by split.
Qed.

Lemma foldl_spec_ext ops : forall v w, (forall k d, v k d = w k d) ->
  forall k d, foldl (fun v o => spec_op o v) v ops k d = foldl (fun v o => spec_op o v) w ops k d.
Proof.
  induction ops as [|o ops IH]; intros v w Hv; simpl; [done|]. apply IH. by apply spec_op_ext.
Qed.

(** ** Properties *)

Section Properties.
Context {U : GoUnicode} (env : Env) (cfg : AssetPolicy.Config).
Context (skill_take plugin_take mcp_take auto_block : bool).
Context (fallbackProfile : Admission.FallbackProfile).
Context (opa : option (Admission.AdmissionInput -> option (gmap string Admission.RegoValue))).
Context (newScanner : InstallEvent -> option Scanner) (during_scan : Store -> Store).
Context (sameWatcherPath : string -> string -> bool).

Abbreviation admission :=
  (runAdmission env false cfg skill_take plugin_take mcp_take auto_block fallbackProfile opa
     newScanner during_scan sameWatcherPath).

(** An asset that is blocked in any scope is refused: whatever the scanner,
    the asset policy and the Rego policy say (provided the latter does not
    admit block-listed assets), the verdict is blocked or rejected, the asset
    is contained, no scan is run and no directive changes. *)
Theorem blocked_asset_is_refused evt c s s' es r :
  (forall i, fault env i = false) -> honours_blocks opa -> known_type evt ->
  view s (Type_ evt, Name evt, c) DInstall = "block" ->
  admission evt s = (s', es, r) ->
  refused r /\ contained es /\ Forall not_scanned es /\ forall k d, view s' k d = view s k d.
Proof.
  intros Hf Hopa Ht Hb H. apply runAdmission_cases in H as (es' & -> & H); [|done].
  assert (Hcons : contained es' -> contained (LogDiscovered (Path evt) :: es'))
    by (intros Hc; apply (contained_app [_] es'); by right).
  assert (Hview : forall s1, rows s1 = rows s -> forall k d, view s1 k d = view s k d)
    by (intros s1 Hr; by apply view_same).
  destruct H as [(l & m & reason & s1 & Hr & H)|(bl & al & s1 & s2 & es1 & early & Hr & Hbl & _ & Hp & H)].
  - apply refuse_spec in H as (-> & Hr' & Hq & Hc); [|done].
    split_and!; [by left|by apply Hcons|by constructor|apply Hview; congruence].
  - apply prescan_blocked in Hp as (Hr' & Hq & Hc & r0 & -> & Hre); [|done|apply Hbl; eauto|done].
    destruct H as (-> & -> & ->).
    split_and!; [done|by apply Hcons|by constructor|apply Hview; congruence].
Qed.

(** A scan never fails open: when the scanner returns an error, or when the
    asset is blocked by the time the scan ends (even if the entry was added
    while it ran), the verdict is blocked and the asset is contained. *)
Theorem scan_fails_closed evt s s' es r sc :
  (forall i, fault env i = false) -> known_type evt ->
  admission evt s = (s', es, r) -> Scanned (Path evt) ∈ es -> newScanner evt = Some sc ->
  (exists err, Scan sc (Path evt) = inr err) \/
  (forall s1, rows s1 = rows s -> view (during_scan s1) (Type_ evt, Name evt, "") DInstall = "block") ->
  Verdict r = VerdictBlocked /\ contained es.
Proof.
  intros Hf Ht H Hsc Hscan Hor. apply scanned_cases in H as (bl & al & s1 & es1 & es2 & Hr & -> & H); [|done..].
  unfold scan_phase in H. rewrite Hscan in H.
  apply wbind_inv in H as (s2 & es3 & u & es4 & H1 & H & ->). injection H1 as <- <- _.
  assert (Hcont : forall es5, contained es5 -> contained (es1 ++ [Scanned (Path evt)] ++ es5)%list)
    by (intros es5 ?; apply contained_app; right; apply contained_app; by right).
  assert (Hpost : forall res, (exists err, Scan sc (Path evt) = inr err) \/
    view (during_scan s1) (Type_ evt, Name evt, "") DInstall = "block" -> Scan sc (Path evt) = inl res ->
    view (during_scan s1) (Type_ evt, Name evt, "") DInstall = "block").
  { intros res [[err ?]|?]; [congruence|done]. }
  assert (Hor' : (exists err, Scan sc (Path evt) = inr err) \/
    view (during_scan s1) (Type_ evt, Name evt, "") DInstall = "block") by (destruct Hor; auto).
  destruct (Scan sc (Path evt)) as [result|err] eqn:Hres.
  - apply (Hpost result) in Hor'; [|done]. clear Hor Hpost. unfold postscan in H. cbv zeta in H.
    apply wbind_inv in H as (s3 & es5 & b & es6 & H1 & H & ->).
    apply IsBlocked_view in H1 as (-> & Hr3 & Hb); [|done].
    rewrite Hb, bool_decide_eq_true_2 in H by done.
    apply bind_emit in H as (es7 & H & ->). apply bind_emit in H as (es8 & H & ->).
    apply wbind_inv in H as (s4 & es9 & u' & es10 & H1 & H & ->).
    apply bind_emit in H as (es11 & H & ->). injection H as _ <- <-. split; [done|].
    apply Hcont. apply enforce_contains in H1; [|done]. simpl. apply (contained_app [_; _]). right.
    apply contained_app. by left.
  - apply bind_emit in H as (es5 & H & ->). apply bind_emit in H as (es6 & H & ->).
    apply wbind_inv in H as (s4 & es7 & u' & es8 & H1 & H & ->).
    apply bind_emit in H as (es9 & H & ->). apply bind_emit in H as (es10 & H & ->).
    injection H as _ <- <-. split; [done|]. apply Hcont. apply enforce_contains in H1; [|done].
    apply (contained_app [_; _]). right. apply contained_app. by left.
Qed.

(** The enforcement of a rejection implements its abstract operations: when
    the watcher acts on the type and the asset is not globally allowed, the
    directives become those of a block (unless the policy names another install
    action), of a quarantine and of a disable as the policy says, and the asset
    is contained when it is quarantined or disabled. *)
Theorem rejection_is_enforced evt out result name s s' es u :
  (forall i, fault env i = false) -> known_type evt -> Admission.Verdict out = "rejected" ->
  takeActionFor skill_take plugin_take mcp_take auto_block evt = true ->
  view s (Type_ evt, Name evt, "") DInstall <> "allow" ->
  applyPostScanEnforcement env false cfg skill_take plugin_take mcp_take auto_block sameWatcherPath
    evt out result name s = (s', es, u) ->
  (forall k d, view s' k d = foldl (fun v o => spec_op o v) (view s) (rejection_ops evt out (auto_block_reason result name)) k d) /\
  (Admission.FileAction out = "quarantine" \/ Admission.RuntimeAction out = "block" -> contained es).
Proof.
  intros Hf Ht Hv Htake Hna H. unfold applyPostScanEnforcement in H.
  apply wbind_inv in H as (s1 & es1 & b & es2 & H1 & H & ->).
  apply IsAllowed_view in H1 as (-> & Hr1 & Hb); [|done].
  rewrite Hb, bool_decide_eq_false_2, Hv, Htake in H by done.
  cbn [String.eqb Ascii.eqb Bool.eqb] in H. apply bind_emit in H as (es3 & H & ->). cbv zeta in H.
  set (reason := auto_block_reason result name) in *.
  apply (optional_op env (OBlock (Type_ evt) (Name evt) None reason)) in H as (s2 & H & V2); [|done..].
  apply (call_op env (OSetSourcePath (Type_ evt) (Name evt) (Path evt))) in H as (s3 & H & V3); [|done..].
  apply (optional_op env (OQuarantine (Type_ evt) (Name evt) reason)) in H as (s4 & H & V4); [|done..].
  apply (optional_op env (ODisable (Type_ evt) (Name evt) reason)) in H as (s5 & H & V5); [|done..].
  apply bind_emit in H as (es4 & H & ->).
  assert (Hview : forall k d, view s5 k d =
    foldl (fun v o => spec_op o v) (view s) (rejection_ops evt out reason) k d).
  { intros k d. unfold rejection_ops. rewrite !foldl_app, V5. apply foldl_spec_ext. clear k d. intros k d.
    rewrite V4. apply foldl_spec_ext. clear k d. intros k d. simpl. rewrite V3. simpl. rewrite V2.
    apply foldl_spec_ext. clear k d. intros k d. by apply view_same. }
  destruct ((coalesce (Admission.FileAction out) "none" =? "quarantine") ||
            (coalesce (Admission.RuntimeAction out) "allow" =? "block")) eqn:He.
  - pose proof (enforce_quiet env false cfg sameWatcherPath evt _ _ _ _ H) as [Hr _].
    apply enforce_contains in H; [|done]. split.
    + intros k d. rewrite <- Hview. by apply view_same.
    + intros _. apply (contained_app [_]). right. apply (contained_app [_]). by right.
  - unfold wret in H. simplify_eq. split; [done|].
    apply orb_false_iff in He as [He1 He2]. apply String.eqb_neq in He1, He2.
    intros [E|E]; rewrite E in *; done.
Qed.


(** C22: without a Rego engine nothing is admitted without a reason: an asset is
    clean only if its scanner found nothing, gets a warning only if the
    severity of its findings does not block under the profile, and is allowed
    only if it is allowed in some scope, is a first-party asset, needs no scan,
    or was allowed globally while it was scanned. *)
Theorem admission_sound evt s s' es r :
  (forall i, fault env i = false) ->
  runAdmission env false cfg skill_take plugin_take mcp_take auto_block fallbackProfile None
    newScanner during_scan sameWatcherPath evt s = (s', es, r) ->
  (Verdict r = VerdictClean -> exists sc result, newScanner evt = Some sc /\
     Scan sc (Path evt) = inl result /\ Findings result = []) /\
  (Verdict r = VerdictWarning -> exists sc result, newScanner evt = Some sc /\
     Scan sc (Path evt) = inl result /\
     Admission.severity_blocks fallbackProfile (admission_input evt [] [] None)
       (scan_input (ScannerName sc) result) = false) /\
  (Verdict r = VerdictAllowed ->
     (exists c, view s (Type_ evt, Name evt, c) DInstall = "allow") \/
     is_Some (Admission.first_party_match fallbackProfile (admission_input evt [] [] None)) \/
     Admission.ScanOnInstall fallbackProfile = false \/
     exists s1, rows s1 = rows s /\ view (during_scan s1) (Type_ evt, Name evt, "") DInstall = "allow").
Proof.
  intros Hf H. apply runAdmission_cases in H as (es' & -> & H); [|done].
  destruct H as [(l & m & reason & s1 & Hr & H)|(bl & al & s1 & s2 & es1 & early & Hr & _ & Hal & Hp & H)].
  { apply refuse_result in H as ->. by split_and!. }
  assert (Hunscanned : Admission.admitted_unscanned fallbackProfile (admission_input evt bl al None) ->
    (exists c, view s (Type_ evt, Name evt, c) DInstall = "allow") \/
    is_Some (Admission.first_party_match fallbackProfile (admission_input evt [] [] None))).
  { intros [?|?]; [left; by apply Hal|by right]. }
  pose proof (prescan_quiet env cfg fallbackProfile None sameWatcherPath evt _ _ _ _ _ Hp) as [Hr2 _].
  unfold prescan in Hp. pose proof (Admission.gate_cases (admission_input evt bl al None) (Some fallbackProfile)) as Hg.
  cbv zeta in Hg. apply builtin_prescan_cases in Hp. destruct early as [r0|].
  - destruct H as (_ & _ & ->). destruct Hp as [[-> _]|[-> Hallow]]; [by split_and!|]. split_and!; [done..|].
    intros _. simpl in Hg. destruct Hg as [[_ E]|[(_ & Ha & _)|(_ & _ & E)]];
      [congruence|by destruct (Hunscanned Ha); auto|].
    destruct (Admission.ScanOnInstall fallbackProfile); [congruence|auto].
  - destruct H as (es2 & H & _). apply scan_phase_cases in H; [|done].
    destruct H as [->|[->|(sc & result & Hsc & Hscan & [[-> Hv]|Hv])]]; [by split_and!..| |].
    + split_and!; [done..|]. intros _. right. right. right. exists s2. split; [congruence|done].
    + pose proof (Admission.gate_cases
        (admission_input evt bl al (Some (scan_input (ScannerName sc) result))) (Some fallbackProfile)) as Hg2.
      cbv zeta in Hg2. rewrite Hv. clear Hg.
      destruct Hg2 as [[_ ->]|[(_ & Ha & ->)|(_ & _ & Hg2)]]; [by split_and!| |].
      * split_and!; [done..|]. intros _. by destruct (Hunscanned Ha); auto.
      * cbn [Admission.ScanResult admission_input Admission.scan_failed] in Hg2.
        change (Admission.scan_failed (scan_input (ScannerName sc) result)) with false in Hg2.
        change (default Admission.defaultFallbackProfile (Some fallbackProfile)) with fallbackProfile in Hg2.
        cbv iota in Hg2. rewrite Hg2.
        change (Admission.TotalFindings (scan_input (ScannerName sc) result)) with (zlen (Findings result)).
        destruct (Z.leb_spec (zlen (Findings result)) 0) as [Hz|Hz].
        -- split_and!; [|done|done]. intros _. exists sc, result. split_and!; [done|done|].
           unfold zlen in Hz. destruct (Findings result); [done|simpl in Hz; lia].
        -- destruct (Admission.severity_blocks fallbackProfile
             (admission_input evt bl al (Some (scan_input (ScannerName sc) result)))
             (scan_input (ScannerName sc) result)) eqn:Hs;
             split_and!; try done.
           intros _. exists sc, result. split_and!; [done|done|exact Hs].
Qed.

End Properties.

(** ** Witnesses and findings *)

Section Witness.
#[local] Existing Instance ascii_only.

Definition w_cfg : AssetPolicy.Config :=
  {| AssetPolicy.AssetPolicy := AssetPolicy.DefaultAssetPolicy;
     AssetPolicy.ApplicationProtection :=
       {| AssetPolicy.app_Enabled := false; AssetPolicy.app_Mode := ""; AssetPolicy.app_Connectors := [] |};
     AssetPolicy.Guardrail_Connectors := []; AssetPolicy.Guardrail_Connector := "Codex";
     AssetPolicy.Claw_Mode := "" |}.

Definition w_event (type name path connector : string) : InstallEvent :=
  {| Type_ := type; Name := name; Path := path; EvtConnector := connector; Timestamp := 0 |}.

Definition w_scanner (r : ScanResult + string) : Scanner :=
  {| ScannerName := "skill-scanner"; Scan := fun _ => r |}.

Definition findings (l : list string) : ScanResult :=
  {| Findings := (fun s => {| f_Severity := s; f_Scanner := "x"; f_Title := "t"; f_Location := ""; f_RuleID := "r" |}) <$> l;
     ExitCode := 0; ScanError := "" |}.

(** The gate with every enforcement switch on, the default profile and paths
    compared byte by byte. *)
Definition w_run (env : Env) (opa : option (Admission.AdmissionInput -> option (gmap string Admission.RegoValue)))
    (scan : ScanResult + string) (during : Store -> Store) : InstallEvent -> W AdmissionResult :=
  runAdmission env false w_cfg true true true true Admission.defaultFallbackProfile opa
    (fun _ => Some (w_scanner scan)) during String.eqb.

Definition verdict_of (x : Store * list effect * AdmissionResult) : string := Verdict x.2.

Example gate_runs :
  verdict_of (w_run calm None (inl (findings [])) id (w_event "skill" "s" "/s/s" "") empty_store) = "clean" /\
  verdict_of (w_run calm None (inl (findings ["LOW"])) id (w_event "skill" "s" "/s/s" "") empty_store) = "warning" /\
  verdict_of (w_run calm None (inl (findings ["LOW"; "HIGH"])) id (w_event "skill" "s" "/s/s" "") empty_store)
    = "rejected" /\
  verdict_of (w_run calm None (inr "boom") id (w_event "skill" "s" "/s/s" "") empty_store) = "blocked".
Proof. vm_compute. done. Qed.

Definition w_skill : InstallEvent := w_event "skill" "s" "/s/s" "hermes".
Definition w_block (t : Store) : Store := (Block calm false "skill" "s" "bad" t).1.
(** A Rego policy that admits everything but what is on the block list. *)
Definition w_opa (input : Admission.AdmissionInput) : option (gmap string Admission.RegoValue) :=
  Some {[ "verdict" := Admission.VString
    (if existsb (Admission.list_entry_matches (Admission.TargetType input) (Admission.TargetName input))
          (Admission.BlockList input) then "blocked" else "allowed") ]}.

Lemma w_opa_honours : honours_blocks (Some w_opa).
Proof.
  intros eval input [= <-] (e & He & Ht & Hn). unfold Admission.Evaluate, w_opa.
  assert (existsb (Admission.list_entry_matches (Admission.TargetType input) (Admission.TargetName input))
    (Admission.BlockList input) = true) as ->; [|done].
  apply existsb_exists. exists e. split; [by apply list_elem_of_In|].
  unfold Admission.list_entry_matches. by rewrite Ht, Hn, !String.eqb_refl.
Qed.

Definition w_refused := w_run calm (Some w_opa) (inl (findings [])) id w_skill (w_block empty_store).

Lemma blocked_asset_is_refused_witness :
  refused w_refused.2 /\ contained w_refused.1.2 /\ Forall not_scanned w_refused.1.2.
Proof.
  destruct w_refused as [[s' es] r] eqn:H. simpl.
  destruct (blocked_asset_is_refused calm w_cfg true true true true Admission.defaultFallbackProfile
    (Some w_opa) (fun _ => Some (w_scanner (inl (findings [])))) id String.eqb
    w_skill "" (w_block empty_store) s' es r) as (H1 & H2 & H3 & _);
    [done|apply w_opa_honours|left|vm_compute; reflexivity|exact H|].
  exact (conj H1 (conj H2 H3)).
Defined.

Definition w_raced := w_run calm None (inl (findings [])) w_block w_skill empty_store.

Lemma scan_fails_closed_witness : Verdict w_raced.2 = VerdictBlocked /\ contained w_raced.1.2.
Proof.
  destruct w_raced as [[s' es] r] eqn:H. simpl.
  apply (scan_fails_closed calm w_cfg true true true true Admission.defaultFallbackProfile None
    (fun _ => Some (w_scanner (inl (findings [])))) w_block String.eqb
    w_skill empty_store s' es r (w_scanner (inl (findings []))));
    [done|left|exact H| |done|].
  - assert (existsb (fun e => match e with Scanned p => p =? "/s/s" | _ => false end) w_raced.1.2 = true) as He
      by (vm_compute; reflexivity).
    rewrite H in He. apply existsb_exists in He as ([] & Hin & He); try done.
    apply list_elem_of_In in Hin. apply String.eqb_eq in He. by subst.
  - right. intros s1 Hr. unfold w_block, view. unfold Block, guarded, SetActionField, SetActionFieldForConnector,
      validated, bind, interact, execDB. simpl. rewrite Hr. reflexivity.
Defined.

Definition w_reject : Admission.AdmissionOutput :=
  Admission.EvaluateAdmissionFallback
    (admission_input w_skill [] [] (Some (scan_input "x" (findings ["HIGH"]))))
    (Some Admission.defaultFallbackProfile).

Definition w_enforced :=
  applyPostScanEnforcement calm false w_cfg true true true true String.eqb
    w_skill w_reject (findings ["HIGH"]) "x" empty_store.

Lemma rejection_is_enforced_witness :
  view w_enforced.1.1 ("skill", "s", "") DInstall = "block" /\
  view w_enforced.1.1 ("skill", "s", "") DFile = "quarantine" /\
  view w_enforced.1.1 ("skill", "s", "") DRuntime = "disable" /\ contained w_enforced.1.2.
Proof.
  destruct w_enforced as [[s' es] u] eqn:H. simpl.
  destruct (rejection_is_enforced calm w_cfg true true true true String.eqb
    w_skill w_reject (findings ["HIGH"]) "x" empty_store s' es u) as [H1 H2];
    [done|left|vm_compute; reflexivity|done|vm_compute; discriminate|exact H|].
  split_and!; [rewrite H1; vm_compute; reflexivity..|apply H2; left; vm_compute; reflexivity].
Defined.

Definition w_clean := w_run calm None (inl (findings [])) id w_skill empty_store.

Lemma admission_sound_witness :
  Verdict w_clean.2 = VerdictClean /\
  exists sc result, Some (w_scanner (inl (findings []))) = Some sc /\
    Scan sc "/s/s" = inl result /\ Findings result = [].
Proof.
  assert (Verdict w_clean.2 = VerdictClean) as Hv by (vm_compute; reflexivity). split; [exact Hv|].
  destruct w_clean as [[s' es] r] eqn:H.
  destruct (admission_sound calm w_cfg true true true true Admission.defaultFallbackProfile
    (fun _ => Some (w_scanner (inl (findings [])))) id String.eqb w_skill empty_store s' es r) as (H1 & _);
    [done|exact H|]. exact (H1 Hv).
Defined.

(** An allow scoped to one connector admits the asset for every connector:
    the lists given to the gate drop the connector of an entry.  The skill is
    allowed for codex only, the engine says so, and yet the install for hermes
    is allowed without a scan. *)
Theorem scoped_allow_admits_everywhere :
  let s := (AllowForConnector calm false "skill" "s" "codex" "ok" empty_store).1 in
  let run := w_run calm None (inl (findings ["CRITICAL"])) id w_skill s in
  (IsAllowedForConnector calm false "skill" "s" "hermes" s).2 = inl false /\
  verdict_of run = "allowed" /\ existsb (fun e => match e with Scanned _ => true | _ => false end) run.1.2 = false.
Proof. vm_compute. done. Qed.

(** The built-in gate runs after the Rego policy has asked for a scan, not
    only when Rego failed: a plugin whose path only resembles a first-party
    one, for which the policy answers scan, is allowed without one. *)
Theorem builtin_gate_overrides_rego_scan :
  let asks_scan := fun _ : Admission.AdmissionInput =>
    Some ({[ "verdict" := Admission.VString "scan" ]} : gmap string Admission.RegoValue) in
  let evt := w_event "plugin" "defenseclaw" "/home/u/.defenseclaw-evil/plugins/defenseclaw" "" in
  let run := w_run calm (Some asks_scan) (inl (findings ["CRITICAL"])) id evt empty_store in
  verdict_of run = "allowed" /\ existsb (fun e => match e with Scanned _ => true | _ => false end) run.1.2 = false.
Proof. vm_compute. done. Qed.

(** A database that fails on every query hides the block list: the blocked
    skill is scanned, found clean and left in place. *)
Lemma store_fault_admits_blocked :
  let failing := {| fault := fun n => (3 <=? n)%nat; Now := Z.of_nat; NewUUID := fun _ => "id" |} in
  let s := (Block failing false "skill" "s" "bad" empty_store).1 in
  view s ("skill", "s", "") DInstall = "block" /\
  verdict_of (w_run failing None (inl (findings [])) id w_skill s) = "clean".
Proof. vm_compute. done. Qed.

(** A scan that reports a non-zero exit code and an error in its result, but no
    Go error and no findings, is clean: the gate that would reject it never
    sees the exit code. *)
Lemma failed_exit_code_is_clean :
  let r := {| Findings := []; ExitCode := 2; ScanError := "crashed" |} in
  verdict_of (w_run calm None (inl r) id w_skill empty_store) = "clean" /\
  Admission.Verdict (Admission.EvaluateAdmissionFallback
    (admission_input w_skill [] [] (Some {| Admission.MaxSeverity := "INFO"; Admission.TotalFindings := 0;
       Admission.ScannerName := "x"; Admission.Findings := []; Admission.ExitCode := ExitCode r;
       Admission.ScanError := ScanError r |})) None) = "rejected".
Proof. vm_compute. done. Qed.
End Witness.
