(* ===== verification/Paths.v ===== *)
(** * Lexical paths (path/filepath on a system with slashes)

    [Clean], [Join], [Dir] and [Abs] of the Go library, as the watcher uses them
    to name and to classify what is installed. *)
From stdpp Require Import base list strings.
From Stdlib Require Import ZArith Lia Ascii.
From S2P Require Import Prelude GoStrings.

Local Open Scope string_scope.

Definition SLASH : ascii := ascii_of_nat 47.
Definition is_rooted (p : string) : bool := HasPrefix p "/".

(** The components of a path, the last one first, without empty ones, dots and
    what a double dot takes back. *)
Fixpoint clean_parts (rooted : bool) (parts : list string) (done : list string) : list string :=
  match parts with
  | [] => done
  | p :: ps =>
      if (p =? "") || (p =? ".") then clean_parts rooted ps done
      else if p =? ".." then
        match done with
        | d :: ds => if d =? ".." then clean_parts rooted ps (p :: done) else clean_parts rooted ps ds
        | [] => clean_parts rooted ps (if rooted then [] else [".."])
        end
      else clean_parts rooted ps (p :: done)
  end.

Definition Clean (p : string) : string :=
  let body := Join (reverse (clean_parts (is_rooted p) (SplitByte p SLASH) [])) "/" in
  if is_rooted p then "/" ++ body else if body =? "" then "." else body.

(** [filepath.Join] *)
Definition path_Join (elems : list string) : string :=
  match List.filter (fun e => negb (e =? "")) elems with
  | [] => ""
  | es => Clean (Join es "/")
  end.

(** The path up to its last slash, with it. *)
Definition up_to_slash (p : string) : string := trim_right (fun c => negb (Ascii.eqb c SLASH)) p.

(** [filepath.Dir] *)
Definition path_Dir (p : string) : string := Clean (up_to_slash p).

(** [filepath.Abs] in the working directory [wd]. *)
Definition Abs (wd p : string) : string := if is_rooted p then Clean p else path_Join [wd; p].

(** The components of a path as [Clean] leaves them. *)
Definition comps (p : string) : list string := reverse (clean_parts (is_rooted p) (SplitByte p SLASH) []).

(** What is left of two lists without their common beginning. *)
Fixpoint strip_common (a b : list string) : list string * list string :=
  match a, b with
  | x :: a', y :: b' => if x =? y then strip_common a' b' else (a, b)
  | _, _ => (a, b)
  end.

(** [filepath.Rel], which cleans both; [None] is its error. *)
Definition Rel (basepath targpath : string) : option string :=
  if Clean basepath =? Clean targpath then Some "."
  else if negb (Bool.eqb (is_rooted basepath) (is_rooted targpath)) then None
  else
    let (up, down) := strip_common (comps basepath) (comps targpath) in
    match up with
    | d :: _ => if d =? ".." then None else Some (Join (replicate (length up) ".." ++ down) "/")
    | [] => Some (Join down "/")
    end.

Example rel_ok :
  Rel "/a" "/a/b/c" = Some "b/c" /\ Rel "/a/b" "/a/c" = Some "../c" /\ Rel "/" "/x" = Some "x" /\
  Rel "/a/" "/a" = Some "." /\ Rel "/a/b" "/" = Some "../.." /\ Rel "a" "/a" = None /\ Rel "../x" "y" = None.
Proof. repeat split. Qed.

Example paths_ok :
  Clean "a//b/../c/." = "a/c" /\ Clean "/../x" = "/x" /\ Clean "../../y" = "../../y" /\ Clean "" = "." /\
  Clean "/" = "/" /\ path_Join ["/s/"; "x"] = "/s/x" /\ path_Join [""; "x"] = "x" /\
  path_Dir "/s/x" = "/s" /\ path_Dir "x" = "." /\ Abs "/w" "d/" = "/w/d".
Proof. repeat split. Qed.
