(* ===== verification/Regexp.v ===== *)
(** * Regular expressions of the Go library on bytes

    The part of the package regexp the drift snapshot uses: classes of ASCII
    bytes, word boundaries, concatenation, prioritised alternatives, greedy
    options and greedy repetition of a class.  [runs] lists the ways a pattern
    matches at a place in the order of their priority; [FindAllString] takes the
    first at the leftmost place and goes on behind it.  [matches] is the reading
    without priorities, and [FindAllString] is proved to report matches only and
    to pass over no place where a match begins. *)
From stdpp Require Import base list strings.
From Stdlib Require Import ZArith Lia Ascii.
From S2P Require Import Prelude GoStrings.

Local Open Scope string_scope.

(** ** Patterns and places *)

Inductive re :=
| Class (p : ascii -> bool)
| Boundary
| Seq (a b : re)
| Alt (a b : re)
| Opt (a : re)
| Plus (p : ascii -> bool).

(** A place in a text: the byte before it and the rest of the text. *)
Notation place := (option ascii * string)%type.

Definition is_word (c : ascii) : bool :=
  byte_in 48 57 c || byte_in 65 90 c || (byte_of c =? 95)%nat || byte_in 97 122 c.

Definition at_boundary (x : place) : bool :=
  xorb (match x.1 with Some c => is_word c | None => false end)
       (match x.2 with String c _ => is_word c | "" => false end).

(** The places one and more bytes of a class on, the farthest first. *)
Fixpoint plus_runs (p : ascii -> bool) (s : string) : list place :=
  match s with
  | "" => []
  | String c r => if p c then (plus_runs p r ++ [(Some c, r)])%list else []
  end.

Fixpoint runs (r : re) (x : place) : list place :=
  match r with
  | Class p => match x.2 with String c s => if p c then [(Some c, s)] else [] | "" => [] end
  | Boundary => if at_boundary x then [x] else []
  | Seq a b => runs a x ≫= runs b
  | Alt a b => (runs a x ++ runs b x)%list
  | Opt a => (runs a x ++ [x])%list
  | Plus p => plus_runs p x.2
  end.

(** The reading without priorities. *)
Inductive matches : re -> place -> place -> Prop :=
| m_class p pr c s : p c = true -> matches (Class p) (pr, String c s) (Some c, s)
| m_boundary x : at_boundary x = true -> matches Boundary x x
| m_seq a b x y z : matches a x y -> matches b y z -> matches (Seq a b) x z
| m_alt_l a b x y : matches a x y -> matches (Alt a b) x y
| m_alt_r a b x y : matches b x y -> matches (Alt a b) x y
| m_opt_some a x y : matches a x y -> matches (Opt a) x y
| m_opt_none a x : matches (Opt a) x x
| m_plus_one p pr c s : p c = true -> matches (Plus p) (pr, String c s) (Some c, s)
| m_plus_more p pr c s y : p c = true -> matches (Plus p) (Some c, s) y -> matches (Plus p) (pr, String c s) y.

#[local] Hint Constructors matches : core.

(** ** Searching *)

Fixpoint take_bytes (n : nat) (s : string) : string :=
  match n, s with
  | S n', String c r => String c (take_bytes n' r)
  | _, _ => ""
  end.

(** How many bytes the preferred match at a place takes, 0 for no match. *)
Definition match_len (r : re) (x : place) : nat :=
  match runs r x with
  | [] => 0
  | y :: _ => String.length x.2 - String.length y.2
  end.

(** [Regexp.FindAllString] for patterns that do not match the empty string;
    [skip] bytes belong to the match reported last. *)
Fixpoint find_all (r : re) (prev : option ascii) (s : string) (skip : nat) : list string :=
  match s with
  | "" => []
  | String c s' =>
      match skip with
      | S k => find_all r (Some c) s' k
      | O => match match_len r (prev, s) with
             | O => find_all r (Some c) s' 0
             | S k => take_bytes (S k) s :: find_all r (Some c) s' k
             end
      end
  end.

Definition FindAllString (r : re) (s : string) : list string := find_all r None s 0.

(** ** Lemmas *)

Lemma plus_runs_matches p x y : y ∈ plus_runs p x.2 <-> matches (Plus p) x y.
Proof.
  destruct x as [pr s]; simpl. split.
  - revert pr. induction s as [|c s IH]; intros pr H; simpl in H; [by apply elem_of_nil in H|].
    destruct (p c) eqn:Hp; [|by apply elem_of_nil in H].
    apply elem_of_app in H as [H| ->%list_elem_of_singleton]; eauto.
  - intros H. remember (Plus p) as r eqn:Hr. remember (pr, s) as x eqn:Hx.
    revert pr s Hx. induction H; intros pr' s' Hx; simplify_eq; simpl; rewrite H.
    + apply elem_of_app. right. by apply list_elem_of_singleton.
    + apply elem_of_app. left. by eapply IHmatches.
Qed.

(** The enumeration is the declarative reading. *)
Lemma runs_matches r x y : y ∈ runs r x <-> matches r x y.
Proof.
  revert x y. induction r as [p| |a IHa b IHb|a IHa b IHb|a IHa|p]; intros x y; simpl.
  - destruct x as [pr [|c s]]; simpl; [split; [by intros ?%elem_of_nil|by inversion 1]|].
    destruct (p c) eqn:Hp; [|split; [by intros ?%elem_of_nil|inversion 1; congruence]].
    rewrite list_elem_of_singleton. split; [intros ->; auto|by inversion 1].
  - destruct (at_boundary x) eqn:Hb; [|split; [by intros ?%elem_of_nil|inversion 1; congruence]].
    rewrite list_elem_of_singleton. split; [intros ->; auto|by inversion 1].
  - rewrite list_elem_of_bind. setoid_rewrite IHa. setoid_rewrite IHb.
    split; [intros (z & ? & ?); eauto|inversion 1; eauto].
  - rewrite elem_of_app, IHa, IHb. split; [intros [?|?]; auto|inversion 1; auto].
  - rewrite elem_of_app, IHa, list_elem_of_singleton. split; [intros [?| ->]; auto|inversion 1; auto].
  - apply plus_runs_matches.
Qed.

(** A place [y] lies behind [x]: the text between them, and its last byte. *)
Fixpoint advance (pr : option ascii) (w : string) : option ascii :=
  match w with "" => pr | String c r => advance (Some c) r end.

Definition behind (x y : place) (w : string) : Prop := x.2 = w ++ y.2 /\ y.1 = advance x.1 w.

Lemma advance_app pr v w : advance pr (v ++ w) = advance (advance pr v) w.
Proof. revert pr. induction v as [|c v IH]; intros pr; [done|exact (IH _)]. Qed.

Lemma behind_trans x y z v w : behind x y v -> behind y z w -> behind x z (v ++ w).
Proof. unfold behind. rewrite advance_app, <- sapp_assoc. intros [-> ->] [-> ->]. done. Qed.

Lemma matches_behind r x y : matches r x y -> exists w, behind x y w.
Proof.
  induction 1 as [p pr c s _|x _|a b x y z _ [v Hv] _ [w Hw]| | | |a x|p pr c s _|p pr c s y _ _ [w [Hw1 Hw2]]];
    try eauto; try (by exists ""); try (by exists (String c "")).
  - exists (v ++ w). by eapply behind_trans.
  - exists (String c w). split; [simpl in *; by rewrite Hw1|done].
Qed.

Lemma take_bytes_app w s : take_bytes (String.length w) (w ++ s) = w.
Proof. induction w as [|c w IH]; [by destruct s|]. exact (f_equal (String c) IH). Qed.

Lemma length_sapp a b : String.length (a ++ b) = (String.length a + String.length b)%nat.
Proof. induction a as [|c a IH]; [done|]. exact (f_equal S IH). Qed.

(** The preferred match is a match, and takes the bytes [match_len] says. *)
Lemma match_len_sound r pr s n :
  match_len r (pr, s) = S n ->
  exists w s', s = w ++ s' /\ String.length w = S n /\ take_bytes (S n) s = w /\
    matches r (pr, s) (advance pr w, s').
Proof.
  unfold match_len. destruct (runs r (pr, s)) as [|y l] eqn:Hr; [done|].
  assert (Hm : matches r (pr, s) y) by (apply runs_matches; rewrite Hr; apply elem_of_cons; auto).
  destruct (matches_behind _ _ _ Hm) as (w & Hw & Ha). destruct y as [pr' s']. cbn [fst snd] in *. subst.
  rewrite length_sapp. intros Hn. assert (Hl : String.length w = S n) by lia.
  exists w, s'. split_and!; [done|done|rewrite <- Hl; apply take_bytes_app|done].
Qed.

Definition never_empty (r : re) : Prop := forall x y, matches r x y -> String.length y.2 < String.length x.2.

Lemma match_len_none r x : never_empty r -> match_len r x = 0 -> forall y, ~ matches r x y.
Proof.
  intros Hne H y Hy. unfold match_len in H. destruct (runs r x) as [|z l] eqn:Hr.
  - apply runs_matches in Hy. rewrite Hr in Hy. by apply elem_of_nil in Hy.
  - assert (Hz : matches r x z) by (apply runs_matches; rewrite Hr; apply elem_of_cons; auto).
    apply Hne in Hz. lia.
Qed.

(** The search at one byte, by the bytes of the last match still to skip and
    the length of a match that begins here. *)
Lemma find_all_skip r pr c s k : find_all r pr (String c s) (S k) = find_all r (Some c) s k.
Proof. done. Qed.

Lemma find_all_miss r pr c s :
  match_len r (pr, String c s) = 0 -> find_all r pr (String c s) 0 = find_all r (Some c) s 0.
Proof. intros H. cbn [find_all]. by rewrite H. Qed.

Lemma find_all_hit r pr c s k :
  match_len r (pr, String c s) = S k ->
  find_all r pr (String c s) 0 = take_bytes (S k) (String c s) :: find_all r (Some c) s k.
Proof. intros H. cbn [find_all]. by rewrite H. Qed.

(** Every string reported is a match of the text at its place. *)
Lemma find_all_sound r s : forall pr skip w,
  w ∈ find_all r pr s skip ->
  exists a b, s = a ++ w ++ b /\ matches r (advance pr a, w ++ b) (advance (advance pr a) w, b).
Proof.
  induction s as [|c s IH]; intros pr skip w Hw; [by apply elem_of_nil in Hw|].
  assert (Hlater : forall skip', w ∈ find_all r (Some c) s skip' -> exists a b, String c s = a ++ w ++ b /\
            matches r (advance pr a, w ++ b) (advance (advance pr a) w, b)).
  { intros skip' (a & b & -> & Hm)%IH. by exists (String c a), b. }
  destruct skip as [|k]; [|by eapply Hlater].
  destruct (match_len r (pr, String c s)) as [|k] eqn:Hlen.
  { rewrite find_all_miss in Hw by done. by eapply Hlater. }
  rewrite (find_all_hit _ _ _ _ _ Hlen) in Hw. apply elem_of_cons in Hw as [->|Hw]; [|by eapply Hlater].
  apply match_len_sound in Hlen as (v & s' & Hs & _ & -> & Hm). rewrite Hs in *. by exists "", s'.
Qed.

(** No place where a match begins is passed over: it lies in a reported match. *)
Lemma find_all_covers r s : never_empty r -> forall pr skip a rest y,
  s = a ++ rest -> skip <= String.length a -> matches r (advance pr a, rest) y ->
  exists a1 w b, w ∈ find_all r pr s skip /\ s = a1 ++ w ++ b /\
    String.length a1 <= String.length a < String.length a1 + String.length w.
Proof.
  intros Hne. induction s as [|c s IH]; intros pr skip a rest y Hs Hk Hm.
  { destruct a, rest; try done. apply Hne in Hm. simpl in Hm. lia. }
  assert (Hlater : forall skip' a', s = a' ++ rest -> a = String c a' -> skip' <= String.length a' ->
            exists a1 w b, w ∈ find_all r (Some c) s skip' /\ String c s = a1 ++ w ++ b /\
              String.length a1 <= String.length a < String.length a1 + String.length w).
  { intros skip' a' Hs' -> Hk'. destruct (IH (Some c) skip' a' rest y Hs' Hk' Hm) as (a1 & w & b & Hw & -> & Hl).
    exists (String c a1), w, b. simpl. split_and!; [done|done|lia|lia]. }
  destruct skip as [|k].
  2:{ rewrite find_all_skip. destruct a as [|c' a']; simpl in Hk; [lia|].
      injection Hs as <- Hs. eapply Hlater; [done|done|lia]. }
  destruct (match_len r (pr, String c s)) as [|k] eqn:Hlen.
  - rewrite (find_all_miss _ _ _ _ Hlen). destruct a as [|c' a'].
    + destruct (match_len_none _ _ Hne Hlen y). rewrite Hs. exact Hm.
    + injection Hs as <- Hs. eapply Hlater; [done|done|lia].
  - rewrite (find_all_hit _ _ _ _ _ Hlen).
    pose proof Hlen as (w & b & Hw & Hlw & Htake & _)%match_len_sound. rewrite Htake.
    destruct (decide (String.length a < S k)) as [Hin|Hout].
    + exists "", w, b. split_and!; [apply elem_of_cons; auto|done|simpl; lia|simpl; lia].
    + destruct a as [|c' a']; simpl in Hout; [lia|]. injection Hs as <- Hs.
      edestruct (Hlater k a') as (a1 & w' & b' & ? & ? & ?); [done|done|lia|].
      exists a1, w', b'. split_and!; [apply elem_of_cons; auto|done|lia|lia].
Qed.

(** ** Lengths of matches *)

(** The least number of bytes a pattern takes; patterns with at least one never
    match the empty string. *)
Fixpoint min_len (r : re) : nat :=
  match r with
  | Class _ | Plus _ => 1
  | Boundary | Opt _ => 0
  | Seq a b => min_len a + min_len b
  | Alt a b => min (min_len a) (min_len b)
  end.

Lemma min_len_sound r x y : matches r x y -> min_len r + String.length y.2 <= String.length x.2.
Proof.
  induction 1 as [| | | | |a x y Hm _| | |]; simpl in *; try lia.
  apply matches_behind in Hm as (w & Hw & _). rewrite Hw, length_sapp. lia.
Qed.

Lemma min_len_never_empty r : 0 < min_len r -> never_empty r.
Proof. intros Hr x y Hm%min_len_sound. lia. Qed.

(** ** Building blocks of patterns *)

Fixpoint Lit (c : ascii) (s : string) : re :=
  match s with
  | "" => Class (Ascii.eqb c)
  | String c' r => Seq (Class (Ascii.eqb c)) (Lit c' r)
  end.

(** [p{1,n}], greedy. *)
Fixpoint Upto (p : ascii -> bool) (n : nat) : re :=
  match n with
  | 0 | 1 => Class p
  | S n' => Seq (Class p) (Opt (Upto p n'))
  end.

Example upto_ex : FindAllString (Upto (byte_in 48 57) 3) "a12345b6" = ["123"; "45"; "6"].
Proof. reflexivity. Qed.
