(* ===== verification/SensitiveQuery.v ===== *)
(** * Sensitive query keys (internal/sensitivequery/key.go)

    The classification of URL query keys that may carry credentials, through
    bounded percent-decoding.  [layer] is the relation "one round of percent
    encoding of some of the bytes" and [layers] its iteration; no amount of
    encoding makes a sensitive key pass for a harmless one. *)
From stdpp Require Import base list gmap strings.
From Stdlib Require Import ZArith Lia Ascii.
From S2P Require Import Prelude GoStrings.

Local Open Scope string_scope.

Definition maxKeyBytes : Z := 256.
Definition maxDecodePasses : nat := 3.

Definition keys : list string :=
  ["access_token"; "api-key"; "api_key"; "apikey"; "auth"; "authorization"; "client_secret";
   "client_token"; "code"; "credential"; "id_token"; "key"; "passwd"; "password"; "pwd";
   "refresh_token"; "routing_key"; "secret"; "sig"; "signature"; "token"; "webhook_token";
   "x-amz-credential"; "x-amz-security-token"; "x-amz-signature"; "x-goog-signature"].

Definition PERCENT : ascii := "%".

(** [for _, character := range value] over a valid string: its code points. *)
Definition low_bits (k : Z) (c : ascii) : Z := Z.land (Z.of_nat (byte_of c)) (2 ^ k - 1).

Fixpoint runes (s : string) : list Z :=
  match s with
  | "" => []
  | String a r1 =>
      if (byte_of a <? 128)%nat then Z.of_nat (byte_of a) :: runes r1
      else match r1 with
      | "" => []
      | String b r2 =>
          if (byte_of a <? 224)%nat then (low_bits 5 a * 64 + low_bits 6 b)%Z :: runes r2
          else match r2 with
          | "" => []
          | String c r3 =>
              if (byte_of a <? 240)%nat
              then ((low_bits 4 a * 64 + low_bits 6 b) * 64 + low_bits 6 c)%Z :: runes r3
              else match r3 with
              | "" => []
              | String d r4 =>
                  (((low_bits 3 a * 64 + low_bits 6 b) * 64 + low_bits 6 c) * 64 + low_bits 6 d)%Z :: runes r4
              end
          end
      end
  end.

(** The code points a key may hold: no control character and no separator
    (ampersand, semicolon, equals sign). *)
Definition key_rune (r : Z) : bool :=
  negb ((r <? 32) || ((127 <=? r) && (r <=? 159)))%Z &&
  negb ((r =? 38) || (r =? 59) || (r =? 61))%Z.

Definition validDecodedKey (value : string) : bool :=
  if (value =? "") || (maxKeyBytes <? slen value)%Z || negb (valid_utf8 value) then false
  else forallb key_rune (runes value).

Definition fromHex (value : ascii) : option Z :=
  let b := Z.of_nat (byte_of value) in
  if byte_in 48 57 value then Some (b - 48)%Z
  else if byte_in 97 102 value then Some (b - 97 + 10)%Z
  else if byte_in 65 70 value then Some (b - 65 + 10)%Z
  else None.

(** The byte [high<<4|low]. *)
Definition hex_byte (high low : Z) : ascii := ascii_of_nat (Z.to_nat (Z.lor (Z.shiftl high 4) low)).

(** The loop of [percentDecode] over the bytes. *)
Fixpoint decode_loop (value : string) : option string :=
  match value with
  | "" => Some ""
  | String c r =>
      if negb (Ascii.eqb c PERCENT) then String c <$> decode_loop r
      else match r with
      | String h (String l r') =>
          match fromHex h, fromHex l with
          | Some high, Some low => String (hex_byte high low) <$> decode_loop r'
          | _, _ => None
          end
      | _ => None
      end
  end.

Definition percentDecode (value : string) : option string :=
  match decode_loop value with
  | Some decoded => if valid_utf8 decoded then Some decoded else None
  | None => None
  end.

Definition has_percent (s : string) : bool := negb (avoids PERCENT s).

Section Classify.
Context {U : GoUnicode}.

(** The loop of [Canonical], with the passes that are left. *)
Fixpoint canonical_loop (passes : nat) (value : string) : option string :=
  if negb (has_percent value) then
    if validDecodedKey value then Some (ToLower value) else None
  else
    match passes with
    | O => None
    | S passes' =>
        match percentDecode value with
        | Some decoded => if validDecodedKey decoded then canonical_loop passes' decoded else None
        | None => None
        end
    end.

Definition Canonical (raw : string) : option string :=
  if (raw =? "") || (maxKeyBytes <? slen raw)%Z || negb (valid_utf8 raw) then None
  else canonical_loop maxDecodePasses raw.

(** [(sensitive, valid)] *)
Definition Classify (raw : string) : bool * bool :=
  match Canonical raw with
  | None => (false, false)
  | Some canonical => (bool_decide (canonical ∈ keys), true)
  end.
End Classify.

(** ** Percent encoding as a relation *)

(** [layer s r]: [r] is [s] with some of its bytes percent-encoded (a percent
    sign always, upper- or lowercase digits).  [layers n]: [n] times over. *)
Inductive layer : string -> string -> Prop :=
| layer_nil : layer "" ""
| layer_byte c s r : c <> PERCENT -> layer s r -> layer (String c s) (String c r)
| layer_escape h l high low s r :
    fromHex h = Some high -> fromHex l = Some low -> layer s r ->
    layer (String (hex_byte high low) s) (String PERCENT (String h (String l r))).

Fixpoint layers (n : nat) (s r : string) : Prop :=
  match n with
  | O => s = r
  | S n' => exists m, layers n' s m /\ layer m r
  end.

(** A byte of an ASCII key. *)
Definition key_byte (c : ascii) : bool := is_ascii_byte c && key_rune (Z.of_nat (byte_of c)).

(** ** Lemmas *)

Lemma decode_layer r : forall s, decode_loop r = Some s -> layer s r.
Proof.
  induction r as [r IH] using (induction_ltof1 _ String.length). unfold ltof in IH.
  destruct r as [|c r]; simpl; intros s.
  - intros [= <-]. constructor.
  - destruct (Ascii.eqb_spec c PERCENT) as [->|Hc]; simpl.
    + destruct r as [|h [|l r]]; [done..|].
      destruct (fromHex h) as [high|] eqn:Hh; [|done]. destruct (fromHex l) as [low|] eqn:Hl; [|done].
      intros (s' & Hs & ->)%fmap_Some. eapply layer_escape; eauto. apply IH; [simpl; lia|done].
    + intros (s' & Hs & ->)%fmap_Some. apply layer_byte; [done|]. apply IH; [simpl; lia|done].
Qed.

Lemma layer_decode s r : layer s r -> decode_loop r = Some s.
Proof.
  induction 1 as [|c s r Hc _ IH|h l high low s r Hh Hl _ IH]; simpl; [done| |].
  - destruct (Ascii.eqb_spec c PERCENT); [done|]. simpl. by rewrite IH.
  - by rewrite Hh, Hl, IH.
Qed.

Lemma layer_plain s r : layer s r -> has_percent r = false -> s = r.
Proof.
  unfold has_percent. intros H Hp. apply negb_false_iff in Hp. revert Hp.
  induction H as [|c s r Hc _ IH|]; simpl; [done| |done].
  intros [_ Hr]%andb_true_iff. by rewrite IH.
Qed.

Lemma layers_plain n s : forall r, layers n s r -> has_percent r = false -> s = r.
Proof.
  induction n as [|n IH]; simpl; intros r; [done|].
  intros (m & Hm & Hl) Hp. pose proof (layer_plain _ _ Hl Hp) as ->. eauto.
Qed.

Lemma layer_length s r : layer s r -> (String.length s <= String.length r)%nat.
Proof. induction 1; simpl; lia. Qed.

Lemma layer_nonempty s r : layer s r -> r <> "" -> s <> "".
Proof. by destruct 1. Qed.

(** Case analysis over the 256 bytes. *)
Ltac all_bytes c := destruct c as [[] [] [] [] [] [] [] []].

Lemma hex_clean h v : fromHex h = Some v -> key_byte h = true.
Proof. all_bytes h; done. Qed.

Lemma layer_clean s r : layer s r -> sall key_byte s = true -> sall key_byte r = true.
Proof.
  induction 1 as [|c s r Hc _ IH|h l high low s r Hh Hl _ IH]; simpl; [done| |];
    intros [Hb Hs]%andb_true_iff.
  - by rewrite Hb, IH.
  - by rewrite (hex_clean _ _ Hh), (hex_clean _ _ Hl), IH.
Qed.

Lemma layers_clean n s : forall r, layers n s r -> sall key_byte s = true -> sall key_byte r = true.
Proof.
  induction n as [|n IH]; simpl; intros r; [by intros ->|].
  intros (m & Hm & Hl) Hs. eapply layer_clean; eauto.
Qed.

Lemma clean_ascii s : sall key_byte s = true -> is_ascii s = true.
Proof.
  unfold is_ascii. induction s as [|c s IH]; simpl; [done|].
  intros [Hc Hs]%andb_true_iff. rewrite IH by done. unfold key_byte in Hc.
  by apply andb_true_iff in Hc as [-> _].
Qed.

Lemma ascii_valid s : is_ascii s = true -> valid_utf8 s = true.
Proof.
  unfold is_ascii. induction s as [|c s IH]; simpl; [done|].
  intros [Hc Hs]%andb_true_iff. unfold byte_in. unfold is_ascii_byte in Hc.
  apply Nat.ltb_lt in Hc. replace (byte_of c <=? 127)%nat with true; [by apply IH|].
  symmetry. apply Nat.leb_le. lia.
Qed.

Lemma clean_runes s : sall key_byte s = true -> forallb key_rune (runes s) = true.
Proof.
  induction s as [|c s IH]; simpl; [done|]. intros [Hc Hs]%andb_true_iff.
  unfold key_byte, is_ascii_byte in Hc. apply andb_true_iff in Hc as [Ha Hk].
  rewrite Ha. simpl. by rewrite Hk, IH.
Qed.

Lemma validDecodedKey_clean s :
  s <> "" -> (slen s <= maxKeyBytes)%Z -> sall key_byte s = true -> validDecodedKey s = true.
Proof.
  intros Hn Hl Hs. unfold validDecodedKey.
  rewrite (proj2 (String.eqb_neq _ _) Hn), (proj2 (Z.ltb_ge _ _) Hl).
  rewrite ascii_valid by (by apply clean_ascii). by apply clean_runes.
Qed.

Lemma lower_clean s : sall key_byte (smap ascii_lower s) = true -> sall key_byte s = true.
Proof.
  induction s as [|c s IH]; simpl; [done|]. intros [Hc Hs]%andb_true_iff.
  rewrite IH by done. clear -Hc. rewrite andb_true_r. by all_bytes c.
Qed.

Lemma keys_clean k : k ∈ keys -> sall key_byte k = true.
Proof.
  intros Hk. assert (Hall : forallb (sall key_byte) keys = true) by done.
  eapply forallb_forall in Hall; [exact Hall|]. by apply list_elem_of_In.
Qed.

Section ClassifyFacts.
Context {U : GoUnicode}.

(** Whatever the loop accepts is the lowercase form of the innermost key. *)
Lemma canonical_layers p : forall n key raw c,
  layers n key raw -> has_percent key = false ->
  canonical_loop p raw = Some c -> c = ToLower key.
Proof.
  induction p as [|p IH]; intros n key raw c HL Hk; simpl;
    (destruct (has_percent raw) eqn:Hp; simpl;
     [|rewrite (layers_plain _ _ _ HL Hp); destruct (validDecodedKey raw); congruence]); [done|].
  unfold percentDecode. destruct (decode_loop raw) as [m|] eqn:Hd; [|done].
  destruct (valid_utf8 m); [|done]. destruct (validDecodedKey m); [|done].
  destruct n as [|n]; [simpl in HL; congruence|]. destruct HL as (m' & HL & Hl).
  rewrite (layer_decode _ _ Hl) in Hd. injection Hd as ->. by apply (IH n).
Qed.

(** Enough passes reach the key. *)
Lemma canonical_complete p : forall n key raw,
  (n <= p)%nat -> layers n key raw -> has_percent key = false ->
  sall key_byte key = true -> raw <> "" -> (slen raw <= maxKeyBytes)%Z ->
  canonical_loop p raw = Some (ToLower key).
Proof.
  induction p as [|p IH]; intros n key raw Hn HL Hk Hc Hne Hlen; simpl;
    (destruct (has_percent raw) eqn:Hp; simpl;
     [|rewrite (layers_plain _ _ _ HL Hp), validDecodedKey_clean; [done..|];
       eapply layers_clean; eauto]).
  - destruct n; [simpl in HL; congruence|lia].
  - destruct n as [|n]; [simpl in HL; congruence|]. destruct HL as (m & HL & Hl).
    pose proof (layers_clean _ _ _ HL Hc) as Hcm.
    pose proof (layer_nonempty _ _ Hl Hne) as Hm.
    assert (slen m <= maxKeyBytes)%Z by (pose proof (layer_length _ _ Hl); unfold slen in *; lia).
    unfold percentDecode. rewrite (layer_decode _ _ Hl), ascii_valid by (by apply clean_ascii).
    rewrite validDecodedKey_clean by done. apply (IH n); [lia|done..].
Qed.

(** An encoding of a key of the catalogue is sensitive or ambiguous. *)
Lemma layers_not_harmless n key raw :
  layers n key raw -> has_percent key = false -> ToLower key ∈ keys -> Classify raw <> (false, true).
Proof.
  intros HL Hk Hin. unfold Classify, Canonical.
  destruct ((raw =? "") || (maxKeyBytes <? slen raw)%Z || negb (valid_utf8 raw)); [done|].
  destruct (canonical_loop maxDecodePasses raw) as [c|] eqn:Hc; [|done].
  rewrite (canonical_layers _ _ _ _ _ HL Hk Hc), bool_decide_eq_true_2; done.
Qed.

(** ** Theorems *)

(** No amount of percent-encoding hides a sensitive query key.  If [raw] is
    any number of encoding rounds over a key of the catalogue, in any case, the
    classifier says sensitive or ambiguous, never harmless; up to
    three rounds over an ASCII spelling (within the length bound) are
    recognised as sensitive. *)
Theorem encoding_hides_nothing n key raw :
  layers n key raw -> has_percent key = false -> ToLower key ∈ keys ->
  Classify raw <> (false, true) /\
  ((n <= maxDecodePasses)%nat -> is_ascii key = true -> (slen raw <= maxKeyBytes)%Z ->
   raw <> "" -> Classify raw = (true, true)).
Proof.
  intros HL Hk Hin. split.
  - by apply (layers_not_harmless n key).
  - intros Hn Ha Hlen Hne.
    assert (Hcl : sall key_byte key = true).
    { apply lower_clean, keys_clean. unfold ToLower in Hin. by rewrite Ha in Hin. }
    unfold Classify, Canonical.
    rewrite (proj2 (String.eqb_neq _ _) Hne), (proj2 (Z.ltb_ge _ _) Hlen).
    rewrite ascii_valid by (apply clean_ascii; eapply layers_clean; eauto).
    cbn [orb negb]. rewrite (canonical_complete _ n key) by done.
    by rewrite bool_decide_eq_true_2.
Qed.
End ClassifyFacts.

#[local] Existing Instance ascii_only.

Lemma encoding_hides_nothing_witness :
  Classify "%252574oken" <> (false, true) /\
  ((3 <= maxDecodePasses)%nat -> is_ascii "token" = true ->
   (slen "%252574oken" <= maxKeyBytes)%Z -> "%252574oken" <> "" ->
   Classify "%252574oken" = (true, true)).
Proof.
  apply (encoding_hides_nothing 3 "token" "%252574oken");
    [|reflexivity|unfold keys; repeat (apply elem_of_cons; first [left; reflexivity|right])].
  exists "%2574oken". split; [exists "%74oken"; split; [exists "token"; split; [reflexivity|]|]|];
    apply decode_layer; reflexivity.
Defined.

(** The cases of the package's own test table. *)
Example Classify_cases :
  map Classify ["token"; "X-AmZ-SiGnAtUrE"; "tok%65n"; "api%5Fkey"; "%2574oken"; "model";
                "tok%6Zn"; "safe%C2%80"; "safe%26token"; "%25252574oken"] =
  [(true, true); (true, true); (true, true); (true, true); (true, true); (false, true);
   (false, false); (false, false); (false, false); (false, false)].
Proof. reflexivity. Qed.
