(* ===== verification/NetAddr.v ===== *)
(** * IP addresses (the packages net and net/netip as the program uses them)

    [IP] is Go's [net.IP], a slice of bytes that may be nil and may have the
    4-byte or the 16-byte form of an IPv4 address; [Addr] is [netip.Addr], the
    value of a valid address.  [addr_of] relates the two forms, and the ranges
    behind every predicate are given as intervals of the numeric value. *)
From stdpp Require Import base list gmap strings countable.
From Stdlib Require Import ZArith Lia.
From S2P Require Import Prelude.

Local Open Scope Z_scope.

(** ** net/netip *)

Inductive Addr :=
| Addr4 (value : Z)
| Addr6 (value : Z) (zone : string).

#[global] Instance Addr_eq_dec : EqDecision Addr.
Proof. solve_decision. Defined.

#[global] Instance Addr_countable : Countable Addr.
Proof.
  apply (inj_countable'
    (fun a => match a with Addr4 v => inl v | Addr6 v z => inr (v, z) end)
    (fun s => match s with inl v => Addr4 v | inr (v, z) => Addr6 v z end)).
  by intros [].
Defined.

Definition be (bytes : list Z) : Z := foldl (fun acc b => acc * 256 + b) 0 bytes.

Definition v4 (v i : Z) : Z := Z.land (Z.shiftr v (8 * (3 - i))) 255.
Definition v6 (v i : Z) : Z := Z.land (Z.shiftr v (8 * (15 - i))) 255.
Definition v6u16 (v i : Z) : Z := Z.land (Z.shiftr v (16 * (7 - i))) 65535.

Definition Is4 (a : Addr) : bool := match a with Addr4 _ => true | Addr6 _ _ => false end.
Definition Is6 (a : Addr) : bool := negb (Is4 a).
Definition Zone (a : Addr) : string := match a with Addr4 _ => "" | Addr6 _ z => z end.

Definition Unmap (a : Addr) : Addr :=
  match a with
  | Addr4 v => Addr4 v
  | Addr6 v z => if Z.shiftr v 32 =? 65535 then Addr4 (Z.land v 4294967295) else Addr6 v z
  end.

Definition AddrFromSlice (ip : list Z) : option Addr :=
  if (length ip =? 4)%nat then Some (Addr4 (be ip))
  else if (length ip =? 16)%nat then Some (Addr6 (be ip) "")
  else None.

Module netip.
Definition IsUnspecified (a : Addr) : bool :=
  bool_decide (a = Addr4 0) || bool_decide (a = Addr6 0 "").

Definition IsLoopback (a : Addr) : bool :=
  match Unmap a with
  | Addr4 v => v4 v 0 =? 127
  | Addr6 v _ => v =? 1
  end.

Definition IsPrivate (a : Addr) : bool :=
  match Unmap a with
  | Addr4 v =>
      (v4 v 0 =? 10) || ((v4 v 0 =? 172) && (Z.land (v4 v 1) 240 =? 16)) ||
      ((v4 v 0 =? 192) && (v4 v 1 =? 168))
  | Addr6 v _ => Z.land (v6 v 0) 254 =? 252
  end.

Definition IsLinkLocalUnicast (a : Addr) : bool :=
  match Unmap a with
  | Addr4 v => (v4 v 0 =? 169) && (v4 v 1 =? 254)
  | Addr6 v _ => Z.land (v6u16 v 0) 65472 =? 65152
  end.

Definition IsLinkLocalMulticast (a : Addr) : bool :=
  match Unmap a with
  | Addr4 v => (v4 v 0 =? 224) && (v4 v 1 =? 0) && (v4 v 2 =? 0)
  | Addr6 v _ => Z.land (v6u16 v 0) 65295 =? 65282
  end.

Definition IsInterfaceLocalMulticast (a : Addr) : bool :=
  match Unmap a with
  | Addr4 _ => false
  | Addr6 v _ => Z.land (v6u16 v 0) 65295 =? 65281
  end.

Definition IsMulticast (a : Addr) : bool :=
  match Unmap a with
  | Addr4 v => Z.land (v4 v 0) 240 =? 224
  | Addr6 v _ => v6 v 0 =? 255
  end.
End netip.

(** [netip.Prefix]: its family is that of the address. *)
Record Prefix := { prefix_ip : Addr; prefix_bits : Z }.

Definition prefix_value (p : Prefix) : Z :=
  match prefix_ip p with Addr4 v => v | Addr6 v _ => v end.

Definition prefix_Contains (p : Prefix) (a : Addr) : bool :=
  match prefix_ip p, a with
  | Addr4 n, Addr4 v => Z.shiftr n (32 - prefix_bits p) =? Z.shiftr v (32 - prefix_bits p)
  | Addr6 n _, Addr6 v "" => Z.shiftr n (128 - prefix_bits p) =? Z.shiftr v (128 - prefix_bits p)
  | _, _ => false
  end.

(** ** net.IP *)

Abbreviation IP := (option (list Z)) (only parsing).
Definition bytes (ip : IP) : list Z := default [] ip.
Definition byte_at (ip : IP) (i : nat) : Z := nth i (bytes ip) 0.
Definition ip_len (ip : IP) : nat := length (bytes ip).

Definition v4InV6Prefix : list Z := [0; 0; 0; 0; 0; 0; 0; 0; 0; 0; 255; 255].

Definition To4 (ip : IP) : IP :=
  if (ip_len ip =? 4)%nat then Some (bytes ip)
  else if (ip_len ip =? 16)%nat && bool_decide (take 12 (bytes ip) = v4InV6Prefix)
  then Some (drop 12 (bytes ip))
  else None.

Definition Equal (ip x : IP) : bool :=
  if (ip_len ip =? ip_len x)%nat then bool_decide (bytes ip = bytes x)
  else if (ip_len ip =? 4)%nat && (ip_len x =? 16)%nat
  then bool_decide (bytes x = v4InV6Prefix ++ bytes ip)
  else if (ip_len ip =? 16)%nat && (ip_len x =? 4)%nat
  then bool_decide (bytes ip = v4InV6Prefix ++ bytes x)
  else false.

(** [net.IPv4(a, b, c, d)]: the 16-byte form. *)
Definition IPv4 (a b c d : Z) : IP := Some (v4InV6Prefix ++ [a; b; c; d]).
Definition IPv6zero : IP := Some (replicate 16 0).
Definition IPv6loopback : IP := Some (replicate 15 0 ++ [1]).

Definition IsLoopback (ip : IP) : bool :=
  match To4 ip with
  | Some ip4 => nth 0 ip4 0 =? 127
  | None => Equal ip IPv6loopback
  end.

Definition IsUnspecified (ip : IP) : bool := Equal ip (IPv4 0 0 0 0) || Equal ip IPv6zero.

Definition IsPrivate (ip : IP) : bool :=
  match To4 ip with
  | Some ip4 =>
      (nth 0 ip4 0 =? 10) || ((nth 0 ip4 0 =? 172) && (Z.land (nth 1 ip4 0) 240 =? 16)) ||
      ((nth 0 ip4 0 =? 192) && (nth 1 ip4 0 =? 168))
  | None => (ip_len ip =? 16)%nat && (Z.land (byte_at ip 0) 254 =? 252)
  end.

Definition IsMulticast (ip : IP) : bool :=
  match To4 ip with
  | Some ip4 => Z.land (nth 0 ip4 0) 240 =? 224
  | None => (ip_len ip =? 16)%nat && (byte_at ip 0 =? 255)
  end.

Definition IsInterfaceLocalMulticast (ip : IP) : bool :=
  (ip_len ip =? 16)%nat && (byte_at ip 0 =? 255) && (Z.land (byte_at ip 1) 15 =? 1).

Definition IsLinkLocalMulticast (ip : IP) : bool :=
  match To4 ip with
  | Some ip4 => (nth 0 ip4 0 =? 224) && (nth 1 ip4 0 =? 0) && (nth 2 ip4 0 =? 0)
  | None => (ip_len ip =? 16)%nat && (byte_at ip 0 =? 255) && (Z.land (byte_at ip 1) 15 =? 2)
  end.

Definition IsLinkLocalUnicast (ip : IP) : bool :=
  match To4 ip with
  | Some ip4 => (nth 0 ip4 0 =? 169) && (nth 1 ip4 0 =? 254)
  | None => (ip_len ip =? 16)%nat && (byte_at ip 0 =? 254) && (Z.land (byte_at ip 1) 192 =? 128)
  end.

(** [net.IPNet]: a network number and a mask of the same length. *)
Record IPNet := { net_ip : list Z; net_mask : list Z }.

Definition IPNet_Contains (n : IPNet) (ip : IP) : bool :=
  let ip := match To4 ip with Some x => x | None => bytes ip end in
  (length ip =? length (net_ip n))%nat &&
  forallb (fun '(nm, b) => Z.land (fst nm) (snd nm) =? Z.land b (snd nm))
    (zip (zip (net_ip n) (net_mask n)) ip).

(** ** Well-formed addresses *)

Definition is_byte (z : Z) : Prop := 0 <= z < 256.

(** Addresses as [net.ParseIP], the resolver and [netip] make them. *)
Definition ip_wf (ip : IP) : Prop :=
  exists l, ip = Some l /\ (length l = 4%nat \/ length l = 16%nat) /\ Forall is_byte l.

Definition addr_wf (a : Addr) : Prop :=
  match a with
  | Addr4 v => 0 <= v < 2 ^ 32
  | Addr6 v _ => 0 <= v < 2 ^ 128
  end.

(** The value of a slice: an IPv4-mapped slice is the IPv4 address. *)
Definition addr_of (ip : IP) : option Addr :=
  match ip with Some l => Unmap <$> AddrFromSlice l | None => None end.

(** The numeric value of [a.b.c.d]. *)
Definition ip4 (a b c d : Z) : Z := be [a; b; c; d].

(** ** Lemmas *)

(** A property of the integers below a bound, by evaluation. *)
Fixpoint all_from (f : Z -> bool) (n : nat) (z : Z) : bool :=
  match n with
  | O => true
  | S n' => f z && all_from f n' (z + 1)
  end.

Lemma all_from_spec f n z : all_from f n z = true -> forall x, z <= x < z + Z.of_nat n -> f x = true.
Proof.
  revert z. induction n as [|n IH]; intros z; cbn [all_from]; [lia|].
  intros [Hz Hn]%andb_true_iff x Hx. destruct (decide (x = z)) as [->|]; [done|].
  apply (IH (z + 1)); [done|lia].
Qed.

Definition all_below (n : Z) (f : Z -> bool) : bool := all_from f (Z.to_nat n) 0.

Lemma below_forall (n : Z) (f : Z -> bool) :
  all_below n f = true -> forall z, 0 <= z < n -> f z = true.
Proof. intros H z Hz. apply (all_from_spec _ _ _ H). lia. Qed.

Lemma byte_mask m v b lo hi :
  all_below 256 (fun b => Bool.eqb (Z.land b m =? v) ((lo <=? b) && (b <=? hi))) = true ->
  is_byte b -> (Z.land b m =? v) = ((lo <=? b) && (b <=? hi)).
Proof. intros H Hb. apply eqb_prop. by apply (below_forall _ _ H). Qed.

Lemma land_ones_mod a n m : 0 <= n -> m = Z.ones n -> Z.land a m = a mod 2 ^ n.
Proof. intros Hn ->. by apply Z.land_ones. Qed.

Lemma v4_byte v i : is_byte (v4 v i).
Proof. unfold v4, is_byte. rewrite (land_ones_mod _ 8) by done. apply Z.mod_pos_bound. lia. Qed.

Lemma v6_byte v i : is_byte (v6 v i).
Proof. unfold v6, is_byte. rewrite (land_ones_mod _ 8) by done. apply Z.mod_pos_bound. lia. Qed.

(** The groups of a value, as quotients. *)
Lemma v4_div v i : i ≤ 3 -> v4 v i = v / 2 ^ (8 * (3 - i)) mod 256.
Proof.
  intros Hi. unfold v4. rewrite (land_ones_mod _ 8) by done. by rewrite Z.shiftr_div_pow2 by lia.
Qed.

Lemma v6_div v i : i ≤ 15 -> v6 v i = v / 2 ^ (8 * (15 - i)) mod 256.
Proof.
  intros Hi. unfold v6. rewrite (land_ones_mod _ 8) by done. by rewrite Z.shiftr_div_pow2 by lia.
Qed.

Lemma v6u16_div v i : i ≤ 7 -> v6u16 v i = v / 2 ^ (16 * (7 - i)) mod 65536.
Proof.
  intros Hi. unfold v6u16. rewrite (land_ones_mod _ 16) by done. by rewrite Z.shiftr_div_pow2 by lia.
Qed.

(** [addr_div] states every group of a value as a quotient, for [lia]. *)
Ltac addr_div :=
  rewrite ?v4_div, ?v6_div, ?v6u16_div, ?Z.shiftr_div_pow2 by lia.

Lemma Unmap_idemp a : Unmap (Unmap a) = Unmap a.
Proof.
  destruct a as [v|v z]; [reflexivity|]. unfold Unmap.
  destruct (Z.shiftr v 32 =? 65535) eqn:E; [reflexivity|]. by rewrite E.
Qed.

Lemma Unmap_wf a : addr_wf a -> addr_wf (Unmap a).
Proof.
  destruct a as [v|v z]; [done|]. unfold Unmap. destruct (Z.shiftr v 32 =? 65535); [|done].
  intros _. unfold addr_wf.
  rewrite (land_ones_mod _ 32) by done. apply Z.mod_pos_bound. lia.
Qed.

Lemma be_snoc l b : be (l ++ [b]) = be l * 256 + b.
Proof. unfold be. by rewrite foldl_app. Qed.

Lemma pow256_snoc n : 256 ^ Z.of_nat (n + 1) = 256 * 256 ^ Z.of_nat n.
Proof.
  replace (Z.of_nat (n + 1)) with (Z.succ (Z.of_nat n)) by lia. apply Z.pow_succ_r. lia.
Qed.

Lemma be_app l k : be (l ++ k) = be l * 256 ^ zlen k + be k.
Proof.
  unfold zlen. induction k as [|b k IH] using rev_ind; [rewrite app_nil_r; change (be []) with 0; simpl; lia|].
  rewrite (assoc_L (++)), !be_snoc, IH, length_app. cbn [length]. rewrite pow256_snoc. lia.
Qed.

Lemma be_bound l : Forall is_byte l -> 0 <= be l < 256 ^ zlen l.
Proof.
  unfold zlen. induction l as [|b l IH] using rev_ind; [done|]. rewrite Forall_app, Forall_singleton.
  intros [Hl Hb]. specialize (IH Hl). rewrite be_snoc, length_app. cbn [length].
  rewrite pow256_snoc. unfold is_byte in Hb. lia.
Qed.

Lemma be_inj l k :
  Forall is_byte l -> Forall is_byte k -> length l = length k -> be l = be k -> l = k.
Proof.
  revert k. induction l as [|b l IH] using rev_ind; intros k Hl Hk Hlen He.
  - destruct k; [done|simpl in Hlen; lia].
  - destruct k as [|b' k _] using rev_ind; [rewrite length_app in Hlen; simpl in Hlen; lia|].
    apply Forall_app in Hl as [Hl Hb], Hk as [Hk Hb'].
    rewrite Forall_singleton in Hb. rewrite Forall_singleton in Hb'.
    rewrite !length_app in Hlen. cbn [length] in Hlen. rewrite !be_snoc in He. unfold is_byte in *.
    assert (be l = be k /\ b = b') as [Hlk ->] by lia.
    f_equal. apply IH; [done..|lia|done].
Qed.

(** ** The ranges of the predicates *)

Definition between (v : Z) (range : Z * Z) : bool := (fst range <=? v) && (v <=? snd range).

(** Membership in a class of addresses: IPv4 ranges and IPv6 ranges. *)
Definition in_class (r4 r6 : list (Z * Z)) (a : Addr) : bool :=
  match Unmap a with
  | Addr4 v => existsb (between v) r4
  | Addr6 v _ => existsb (between v) r6
  end.

(** [n::/bits] for an IPv6 group prefix [n]. *)
Definition block6 (n bits : Z) : Z * Z := (n * 2 ^ (128 - bits), n * 2 ^ (128 - bits) + 2 ^ (128 - bits) - 1).

Definition loopback4 := [(ip4 127 0 0 0, ip4 127 255 255 255)].
Definition loopback6 : list (Z * Z) := [(1, 1)].
Definition private4 :=
  [(ip4 10 0 0 0, ip4 10 255 255 255); (ip4 172 16 0 0, ip4 172 31 255 255);
   (ip4 192 168 0 0, ip4 192 168 255 255)].
Definition private6 := [block6 0x7e 7].
Definition linklocal4 := [(ip4 169 254 0 0, ip4 169 254 255 255)].
Definition linklocal6 := [block6 0x3fa 10].
Definition multicast4 := [(ip4 224 0 0 0, ip4 239 255 255 255)].
Definition multicast6 := [block6 0xff 8].

Ltac class_solve a Hw :=
  apply Unmap_wf in Hw; unfold in_class;
  destruct (Unmap a) as [v|v z]; unfold addr_wf in Hw; addr_div;
  unfold between, block6; cbn [existsb fst snd]; cbv [ip4 be foldl].

Lemma group_forall (f : Z -> bool) v i :
  all_below 65536 f = true -> f (v6u16 v i) = true.
Proof.
  intros H. apply (below_forall _ _ H). unfold v6u16.
  rewrite (land_ones_mod _ 16) by done. apply Z.mod_pos_bound. lia.
Qed.

(** The masked groups of the IPv6 predicates. *)
Lemma linklocal_mask v :
  (Z.land (v6u16 v 0) 65472 =? 65152) = ((65152 <=? v6u16 v 0) && (v6u16 v 0 <=? 65215)).
Proof.
  apply eqb_prop. apply (group_forall (fun x => Bool.eqb (Z.land x 65472 =? 65152)
    ((65152 <=? x) && (x <=? 65215)))). vm_compute. reflexivity.
Qed.

Lemma multicast_scope v s :
  all_below 65536 (fun x => implb (Z.land x 65295 =? s) (65280 <=? x)) = true ->
  Z.land (v6u16 v 0) 65295 = s -> 65280 <= v6u16 v 0.
Proof.
  intros H%(group_forall _ v 0) Hs. cbv beta in H. rewrite Hs, Z.eqb_refl in H. cbn [implb] in H. lia.
Qed.

Lemma IsLoopback_class a : addr_wf a -> netip.IsLoopback a = in_class loopback4 loopback6 a.
Proof.
  intros Hw. unfold netip.IsLoopback, loopback4, loopback6.
  class_solve a Hw; Z.to_euclidean_division_equations; lia.
Qed.

Lemma IsPrivate_class a : addr_wf a -> netip.IsPrivate a = in_class private4 private6 a.
Proof.
  intros Hw. unfold netip.IsPrivate, private4, private6.
  apply Unmap_wf in Hw. unfold in_class. destruct (Unmap a) as [v|v z]; unfold addr_wf in Hw.
  - rewrite (byte_mask 240 16 _ 16 31) by (apply v4_byte || reflexivity). addr_div.
    unfold between. cbn [existsb fst snd]. cbv [ip4 be foldl].
    Z.to_euclidean_division_equations; lia.
  - rewrite (byte_mask 254 252 _ 252 253) by (apply v6_byte || reflexivity). addr_div.
    unfold between, block6. cbn [existsb fst snd]. Z.to_euclidean_division_equations; lia.
Qed.

Lemma IsLinkLocalUnicast_class a :
  addr_wf a -> netip.IsLinkLocalUnicast a = in_class linklocal4 linklocal6 a.
Proof.
  intros Hw. unfold netip.IsLinkLocalUnicast, linklocal4, linklocal6.
  apply Unmap_wf in Hw. unfold in_class. destruct (Unmap a) as [v|v z]; unfold addr_wf in Hw;
    rewrite ?linklocal_mask; addr_div; unfold between, block6; cbn [existsb fst snd];
    cbv [ip4 be foldl]; Z.to_euclidean_division_equations; lia.
Qed.

Lemma IsMulticast_class a :
  addr_wf a -> netip.IsMulticast a = in_class multicast4 multicast6 a.
Proof.
  intros Hw. unfold netip.IsMulticast, multicast4, multicast6.
  apply Unmap_wf in Hw. unfold in_class. destruct (Unmap a) as [v|v z]; unfold addr_wf in Hw;
    rewrite ?(byte_mask 240 224 _ 224 239) by (apply v4_byte || reflexivity);
    addr_div; unfold between, block6; cbn [existsb fst snd];
    cbv [ip4 be foldl]; Z.to_euclidean_division_equations; lia.
Qed.

Lemma linklocal_multicast a :
  addr_wf a -> netip.IsLinkLocalMulticast a = true -> netip.IsMulticast a = true.
Proof.
  intros Hw. unfold netip.IsLinkLocalMulticast, netip.IsMulticast.
  apply Unmap_wf in Hw. destruct (Unmap a) as [v|v z]; unfold addr_wf in Hw.
  - rewrite (byte_mask 240 224 _ 224 239) by (apply v4_byte || reflexivity). lia.
  - intros Hs%Z.eqb_eq%multicast_scope; [|vm_compute; reflexivity]. revert Hs. addr_div.
    Z.to_euclidean_division_equations; lia.
Qed.

Lemma interface_multicast a :
  addr_wf a -> netip.IsInterfaceLocalMulticast a = true -> netip.IsMulticast a = true.
Proof.
  intros Hw. unfold netip.IsInterfaceLocalMulticast, netip.IsMulticast.
  apply Unmap_wf in Hw. destruct (Unmap a) as [v|v z]; unfold addr_wf in Hw; [done|].
  intros Hs%Z.eqb_eq%multicast_scope; [|vm_compute; reflexivity]. revert Hs. addr_div.
  Z.to_euclidean_division_equations; lia.
Qed.

(** ** Slices and their addresses *)

(** The two forms of an IPv4 address and the 16-byte form of the others. *)
Inductive ip_view (ip : IP) : Prop :=
| view4 l :
    length l = 4%nat -> Forall is_byte l -> ip = Some l \/ ip = Some (v4InV6Prefix ++ l) ->
    To4 ip = Some l -> addr_of ip = Some (Addr4 (be l)) -> ip_view ip
| view6 l :
    length l = 16%nat -> Forall is_byte l -> ip = Some l -> take 12 l <> v4InV6Prefix ->
    To4 ip = None -> addr_of ip = Some (Addr6 (be l) "") -> ip_view ip.

Lemma be_split16 (p l : list Z) :
  length l = 4%nat -> Forall is_byte l ->
  Z.shiftr (be (p ++ l)) 32 = be p /\ Z.land (be (p ++ l)) 4294967295 = be l.
Proof.
  intros Hlen Hl. pose proof (be_bound l Hl) as Hb. rewrite be_app.
  unfold zlen in *. rewrite Hlen in *. change (256 ^ Z.of_nat 4) with 4294967296 in *.
  rewrite (land_ones_mod _ 32), Z.shiftr_div_pow2 by done. change (2 ^ 32) with 4294967296.
  split; Z.to_euclidean_division_equations; lia.
Qed.

Lemma ip_wf_view ip : ip_wf ip -> ip_view ip.
Proof.
  intros (l & -> & [H4|H16] & Hl).
  - apply (view4 _ l); [done|done|by left| |].
    + unfold To4; change (ip_len (Some l)) with (length l); change (bytes (Some l)) with l. by rewrite H4.
    + unfold addr_of, AddrFromSlice. by rewrite H4.
  - rewrite <-(take_drop 12 l) in Hl. apply Forall_app in Hl as [Ht Hd].
    assert (Hlt : length (take 12 l) = 12%nat) by (rewrite length_take; lia).
    assert (Hld : length (drop 12 l) = 4%nat) by (rewrite length_drop; lia).
    destruct (be_split16 (take 12 l) (drop 12 l) Hld Hd) as [Hs Hm]. rewrite take_drop in Hs, Hm.
    destruct (decide (take 12 l = v4InV6Prefix)) as [Hp|Hp].
    + apply (view4 _ (drop 12 l)); [done|done|right; by rewrite <-Hp, take_drop| |].
      * unfold To4; change (ip_len (Some l)) with (length l); change (bytes (Some l)) with l. rewrite H16. by rewrite bool_decide_eq_true_2.
      * unfold addr_of, AddrFromSlice. rewrite H16. cbn [Nat.eqb fmap option_fmap option_map].
        unfold Unmap. rewrite Hs, Hm, Hp. reflexivity.
    + apply (view6 _ l); [done| |done|done| |].
      * rewrite <-(take_drop 12 l). by apply Forall_app.
      * unfold To4; change (ip_len (Some l)) with (length l); change (bytes (Some l)) with l. rewrite H16. by rewrite bool_decide_eq_false_2.
      * unfold addr_of, AddrFromSlice. rewrite H16. cbn [Nat.eqb fmap option_fmap option_map].
        unfold Unmap. rewrite Hs. destruct (be (take 12 l) =? 65535) eqn:E; [|done].
        apply Z.eqb_eq in E. exfalso. apply Hp.
        apply be_inj; [done|repeat constructor; unfold is_byte; lia|done|done].
Qed.

Lemma addr_of_wf ip a : ip_wf ip -> addr_of ip = Some a -> addr_wf a /\ Unmap a = a.
Proof.
  intros (l & -> & Hlen & Hl). unfold addr_of. intros (b & Hb & ->)%fmap_Some.
  split; [|apply Unmap_idemp]. apply Unmap_wf. pose proof (be_bound l Hl) as Hbe.
  unfold AddrFromSlice in Hb. unfold zlen in Hbe.
  destruct Hlen as [Hlen|Hlen]; rewrite Hlen in Hb, Hbe; cbn [Nat.eqb] in Hb; by injection Hb as <-.
Qed.

(** The two leading bytes of a long slice, and the four of a short one. *)
Lemma be_lead l :
  length l = 16%nat -> Forall is_byte l ->
  exists b0 b1 r, l = b0 :: b1 :: r /\ is_byte b0 /\ is_byte b1 /\ 0 <= be r < 2 ^ 112 /\
    be l = (b0 * 256 + b1) * 2 ^ 112 + be r.
Proof.
  intros Hlen Hl. destruct l as [|b0 [|b1 r]]; [done..|]. exists b0, b1, r.
  apply Forall_cons_1 in Hl as [H0 Hr].
  apply Forall_cons_1 in Hr as [H1 Hr]. pose proof (be_bound r Hr) as Hb.
  change (b0 :: b1 :: r) with ([b0; b1] ++ r) in *. rewrite be_app. unfold zlen in *.
  replace (length r) with 14%nat in * by (simpl in Hlen; lia).
  change (256 ^ Z.of_nat 14) with (2 ^ 112) in *.
  split; [done|]. split; [done|]. split; [done|]. split; [done|].
  change (be [b0; b1]) with ((0 * 256 + b0) * 256 + b1). lia.
Qed.

Lemma be_quad l :
  length l = 4%nat -> Forall is_byte l ->
  exists a b c d, l = [a; b; c; d] /\ is_byte a /\ is_byte b /\ is_byte c /\ is_byte d /\
    be l = ((a * 256 + b) * 256 + c) * 256 + d.
Proof.
  intros Hlen Hl. destruct l as [|a [|b [|c [|d [|e l]]]]]; try done. exists a, b, c, d.
  repeat match goal with H : Forall is_byte (_ :: _) |- _ => apply Forall_cons_1 in H as [? H] end.
  done.
Qed.

(** [class_of_ip Hw Ha] splits the forms of a slice and names its bytes. *)
Ltac class_of_ip Hw Ha :=
  let l := fresh "l" in let Hl := fresh "Hlen" in let Hb := fresh "Hb" in
  destruct (ip_wf_view _ Hw) as [l Hl Hb ? Hto4 Ha'|l Hl Hb -> ? Hto4 Ha'];
  rewrite Ha' in Ha; injection Ha as <-;
  [destruct (be_quad l Hl Hb) as (a & b & c & d & -> & ? & ? & ? & ? & Hbe)
  |destruct (be_lead l Hl Hb) as (b0 & b1 & r & -> & ? & ? & ? & Hbe)].

(** [range_solve] states the ranges on the bytes of the slice. *)
Ltac range_solve Hbe :=
  unfold between, block6, is_byte in *; cbn [existsb fst snd];
  cbv [ip4]; rewrite ?Hbe; try (cbv [be foldl]; lia); lia.

(** Well-formedness of a concrete slice, by evaluation. *)
Lemma ip_wf_eval l :
  ((length l =? 4)%nat || (length l =? 16)%nat) && forallb (fun b => (0 <=? b) && (b <? 256)) l = true ->
  ip_wf (Some l).
Proof.
  intros [Hlen Hl]%andb_true_iff. exists l. split; [done|]. split.
  - apply orb_true_iff in Hlen. by rewrite !Nat.eqb_eq in Hlen.
  - apply Forall_forall. intros b Hb. rewrite forallb_forall in Hl.
    specialize (Hl b Hb). unfold is_byte. lia.
Qed.

Section Slices.
Context (ip : IP) (x : Addr) (Hw : ip_wf ip) (Ha : addr_of ip = Some x).

Lemma in_class_unmapped r4 r6 :
  in_class r4 r6 x = match x with
                     | Addr4 v => existsb (between v) r4
                     | Addr6 v _ => existsb (between v) r6
                     end.
Proof. unfold in_class. by rewrite (proj2 (addr_of_wf _ _ Hw Ha)). Qed.

Ltac slice_cases :=
  rewrite in_class_unmapped; class_of_ip Hw Ha;
  match goal with H : To4 _ = _ |- _ => rewrite ?H end;
  change (ip_len (Some ?l)) with (length l) in *; unfold byte_at; change (bytes (Some ?l)) with l; cbn [nth];
  match goal with H : length _ = _ |- _ => rewrite ?H; cbn [Nat.eqb andb] end.

Lemma IsPrivate_ip : IsPrivate ip = in_class private4 private6 x.
Proof.
  unfold IsPrivate, private4, private6. slice_cases.
  - rewrite (byte_mask 240 16 _ 16 31) by done. range_solve Hbe.
  - rewrite (byte_mask 254 252 _ 252 253) by done. range_solve Hbe.
Qed.

Lemma IsLinkLocalUnicast_ip : IsLinkLocalUnicast ip = in_class linklocal4 linklocal6 x.
Proof.
  unfold IsLinkLocalUnicast, linklocal4, linklocal6. slice_cases; [range_solve Hbe|].
  rewrite (byte_mask 192 128 _ 128 191) by done. range_solve Hbe.
Qed.

Lemma IsMulticast_ip : IsMulticast ip = in_class multicast4 multicast6 x.
Proof.
  unfold IsMulticast, multicast4, multicast6. slice_cases; [|range_solve Hbe].
  rewrite (byte_mask 240 224 _ 224 239) by done. range_solve Hbe.
Qed.

Lemma IsLinkLocalMulticast_ip : IsLinkLocalMulticast ip = true -> IsMulticast ip = true.
Proof.
  unfold IsLinkLocalMulticast, IsMulticast. destruct (To4 ip) as [l|].
  - destruct (Z.eqb_spec (nth 0 l 0) 224) as [->|]; done.
  - by intros [? _]%andb_true_iff.
Qed.

Lemma IsInterfaceLocalMulticast_ip :
  IsInterfaceLocalMulticast ip = true -> IsMulticast ip = true.
Proof.
  unfold IsInterfaceLocalMulticast, IsMulticast. intros [[Hlen Hff]%andb_true_iff _]%andb_true_iff.
  destruct (ip_wf_view _ Hw) as [l Hl Hb [->| ->] Hto4 _|l Hl Hb -> Hne Hto4 _]; rewrite Hto4.
  - change (ip_len (Some l)) with (length l) in Hlen. by rewrite Hl in Hlen.
  - done.
  - by rewrite Hlen, Hff.
Qed.

(** [slice_eq Hl Hl'] evaluates [Equal] on slices of known lengths. *)
Ltac slice_eq Hl Hl' :=
  unfold Equal; change (ip_len (Some ?l)) with (length l); change (bytes (Some ?l)) with l;
  cbn [length app v4InV6Prefix]; rewrite ?Hl, ?Hl'; cbn [Nat.eqb andb];
  apply bool_decide_ext; split; intros He; subst; try congruence.

Lemma Equal_addr k y :
  ip_wf (Some k) -> addr_of (Some k) = Some y -> Equal ip (Some k) = bool_decide (x = y).
Proof.
  intros Hwk Hy.
  destruct (ip_wf_view _ Hw) as [l Hl Hb Hip _ Ha'|l Hl Hb Hip Hne _ Ha'];
  destruct (ip_wf_view _ Hwk) as [l' Hl' Hb' Hip' _ Hy'|l' Hl' Hb' Hip' Hne' _ Hy'];
  rewrite Ha' in Ha; rewrite Hy' in Hy; injection Ha as <-; injection Hy as <-.
  - assert (Hiff : Addr4 (be l) = Addr4 (be l') <-> l = l').
    { split; [intros [= He]; apply be_inj; congruence|by intros ->]. }
    rewrite (bool_decide_ext _ _ Hiff).
    destruct Hip as [->| ->], Hip' as [[= ->]|[= ->]]; slice_eq Hl Hl'.
  - injection Hip' as ->. destruct Hip as [->| ->]; slice_eq Hl Hl'; done.
  - subst ip. destruct Hip' as [[= ->]|[= ->]]; slice_eq Hl Hl'; done.
  - subst ip. injection Hip' as ->. slice_eq Hl Hl'. injection He as He. apply be_inj; congruence.
Qed.

Lemma IsLoopback_ip : IsLoopback ip = in_class loopback4 loopback6 x.
Proof.
  unfold IsLoopback, IPv6loopback, loopback4, loopback6.
  rewrite (Equal_addr _ (Addr6 1 "")); [|by apply ip_wf_eval|reflexivity].
  slice_cases; [range_solve Hbe|]. unfold between. cbn [existsb fst snd].
  rewrite orb_false_r. apply eq_true_iff_eq. rewrite bool_decide_eq_true. rewrite andb_true_iff.
  split; [intros [= ->]; lia|intros ?; f_equal; lia].
Qed.

Lemma IsUnspecified_ip : IsUnspecified ip = in_class [(0, 0)] [(0, 0)] x.
Proof.
  unfold IsUnspecified, IPv4, IPv6zero.
  rewrite (Equal_addr _ (Addr4 0)); [|by apply ip_wf_eval|reflexivity].
  rewrite (Equal_addr _ (Addr6 0 "")); [|by apply ip_wf_eval|reflexivity].
  rewrite in_class_unmapped. unfold between. cbn [existsb fst snd].
  pose proof (addr_of_wf _ _ Hw Ha) as [Hwx _].
  assert (Hz : Zone x = "") by (by destruct (ip_wf_view _ Hw); simplify_eq).
  destruct x as [v|v z]; cbn [addr_wf Zone] in *; subst; apply eq_true_iff_eq;
    rewrite !orb_true_iff, !bool_decide_eq_true, andb_true_iff; split; intros HH;
    intuition simplify_eq; lia || (try (left; f_equal; lia)) || (right; f_equal; lia).
Qed.
End Slices.
