(* ===== verification/Netguard.v ===== *)
(** * The SSRF guard (internal/netguard/netguard.go, allowlist.go)

    The classification of the addresses an outbound client may not contact,
    the operator's allowlist of private addresses, the guarded dialer, the
    validation of outbound URLs and the redaction of credentials in logged
    URLs.  [net.ParseIP], the URL parser and printer and the resolver are
    parameters; the predicates on addresses are those of NetAddr. *)
From stdpp Require Import base list gmap strings.
From Stdlib Require Import ZArith Lia Ascii.
From S2P Require Import Prelude GoStrings NetAddr SensitiveQuery.

Local Open Scope string_scope.

(** ** Data *)

Inductive Error :=
| ErrPrivateAddress (detail : string)
| ErrRedirectBlocked
| ErrInlineCredentials
| ErrUnsupportedScheme
| MissingHost
| ParseURLError (cause : string)
| ResolveError (host cause : string)
| OtherError (cause : string).

(** The fields of [url.URL] the guard reads or changes; [Rest] is the others. *)
Record URL := mkURL {
  Scheme : string;
  User : option string;
  Host : string;
  RawQuery : string;
  Rest : string;
}.

(** The functions of the packages net and net/url that the guard calls. *)
Class GoNet := {
  ParseIP : string -> IP;
  IPString : IP -> string;
  SplitHostPort : string -> string + string * string;
  JoinHostPort : string -> string -> string;
  url_Parse : string -> string + URL;
  url_String : URL -> string;
  Hostname : URL -> string;
}.

(** The package state: the operator's allowlist, and the decision on CGNAT
    taken when the program starts. *)
Record Guard := { allowedPrivate : gset Addr; cgnat_env : string }.

(** ** Classification *)

Definition cgnatAllowed (g : Guard) : bool := cgnat_env g =? "1".

Definition parsedExtraReserved (g : Guard) : list IPNet :=
  [ {| net_ip := [169; 254; 169; 254]; net_mask := [255; 255; 255; 255] |};
    {| net_ip := [169; 254; 170; 2]; net_mask := [255; 255; 255; 255] |};
    {| net_ip := 253 :: replicate 15 0; net_mask := 255 :: replicate 15 0 |} ]%Z ++
  (if negb (cgnatAllowed g)
   then [ {| net_ip := [100; 64; 0; 0]; net_mask := [255; 192; 0; 0] |} ]%Z else []).

Definition cloudMetadataIPs : list IP :=
  [IPv4 169 254 169 254; IPv4 169 254 170 2;
   Some [253; 0; 14; 194; 0; 0; 0; 0; 0; 0; 0; 0; 0; 0; 2; 84]]%Z.

Definition SetAllowedPrivateIPs (ips : list IP) (g : Guard) : Guard :=
  {| allowedPrivate := list_to_set (omap (fun ip => Unmap <$> AddrFromSlice (bytes ip)) ips);
     cgnat_env := cgnat_env g |}.

Definition IsAllowedPrivateIP (g : Guard) (ip : IP) : bool :=
  match ip with
  | None => false
  | Some l => match AddrFromSlice l with
              | None => false
              | Some addr => bool_decide (Unmap addr ∈ allowedPrivate g)
              end
  end.

Definition IsCloudMetadataIP (ip : IP) : bool :=
  match ip with
  | None => false
  | Some l =>
      let ip := match To4 ip with Some v4 => Some v4 | None => ip end in
      existsb (Equal ip) cloudMetadataIPs
  end.

Definition IsHardDeniedIP (ip : IP) : bool :=
  match ip with
  | None => true
  | Some l =>
      let ip := match To4 ip with Some v4 => Some v4 | None => ip end in
      IsLoopback ip || IsUnspecified ip || IsLinkLocalUnicast ip || IsLinkLocalMulticast ip ||
      IsMulticast ip || IsInterfaceLocalMulticast ip || IsCloudMetadataIP ip
  end.

Definition IsPrivateOrReserved (g : Guard) (ip : IP) : bool :=
  match ip with
  | None => true
  | Some l =>
      if IsHardDeniedIP ip then true
      else if IsAllowedPrivateIP g ip then false
      else if IsPrivate ip then true
      else existsb (fun n => IPNet_Contains n ip) (parsedExtraReserved g)
  end.

(** ** Redaction of query parameters *)

Definition maxLoggedQueryBytes : Z := 65536.
Definition maxLoggedQueryPairs : Z := 256.
Definition redactedQueryValue : string := "%3Credacted%3E".
Definition redactedQuery : string := "redacted=" ++ redactedQueryValue.

Definition EQUALS : ascii := "=".
Definition query_sep (c : ascii) : bool := Ascii.eqb c "&" || Ascii.eqb c ";".

(** The two sides of the first equals sign. *)
Fixpoint cut_equals (item : string) : option (string * string) :=
  match item with
  | "" => None
  | String c r =>
      if Ascii.eqb c EQUALS then Some ("", r)
      else match cut_equals r with
           | Some (key, value) => Some (String c key, value)
           | None => None
           end
  end.

Section Guarded.
Context {U : GoUnicode}.

Definition extra_keys (extra : list string) : list string := omap Canonical extra.

(** The body of the loop for one item of the query. *)
Definition scrub_item (extraKeys : list string) (item : string) : string :=
  match cut_equals item with
  | None =>
      let '(sensitive, valid) := Classify item in
      if negb (item =? "") && (sensitive || negb valid) then redactedQuery else item
  | Some (key, value) =>
      let '(sensitive, valid) := Classify key in
      if negb valid then redactedQuery
      else
        let sensitive :=
          if sensitive then true
          else match Canonical key with
               | Some canonical => bool_decide (canonical ∈ extraKeys)
               | None => false
               end in
        key ++ "=" ++ (if sensitive then redactedQueryValue else value)
  end.

(** The loop: [item] is [raw[start:end]], [None] when there are too many pairs. *)
Fixpoint scrub_loop (extraKeys : list string) (rest item : string) (pairs : Z) : option string :=
  match rest with
  | "" =>
      if (maxLoggedQueryPairs <? pairs + 1)%Z then None else Some (scrub_item extraKeys item)
  | String c r =>
      if negb (query_sep c) then scrub_loop extraKeys r (item ++ String c "") pairs
      else if (maxLoggedQueryPairs <? pairs + 1)%Z then None
      else match scrub_loop extraKeys r "" (pairs + 1) with
           | Some out => Some (scrub_item extraKeys item ++ String c out)
           | None => None
           end
  end.

Definition scrubRawQuery (raw : string) (extra : list string) : string :=
  if (maxLoggedQueryBytes <? slen raw)%Z then redactedQuery
  else default redactedQuery (scrub_loop (extra_keys extra) raw "" 0).

Context {N : GoNet}.

Definition ScrubURL (u : option URL) (extra : list string) : string :=
  match u with
  | None => ""
  | Some u =>
      url_String {| Scheme := Scheme u; User := None; Host := Host u;
                    RawQuery := if RawQuery u =? "" then RawQuery u else scrubRawQuery (RawQuery u) extra;
                    Rest := Rest u |}
  end.

Definition ScrubURLString (raw : string) (extra : list string) : string :=
  match url_Parse raw with
  | inl _ => "<unparseable-url>"
  | inr u => ScrubURL (Some u) extra
  end.

(** ** Outbound connections *)

Definition RejectInlineCredentials (u : option URL) : option Error :=
  match u with
  | None => None
  | Some u => match User u with Some _ => Some ErrInlineCredentials | None => None end
  end.

Definition BlockRedirects : option Error := Some ErrRedirectBlocked.

(** The host is resolved by [LookupIPAddr] and connected to by [DialContext];
    the trace records the calls. *)
Inductive Call :=
| Lookup (host : string)
| Dial (network addr : string).

Context {Conn : Type} (LookupIPAddr : string -> string + list IP)
        (DialContext : string -> string -> string + Conn).

Definition dial (network addr : string) : list Call * (Error + Conn) :=
  ([Dial network addr],
   match DialContext network addr with inl e => inl (OtherError e) | inr c => inr c end).

(** The loop over the answers: the first address, or the first prohibited one. *)
Fixpoint pick_public (g : Guard) (ips : list IP) (public : option IP) : IP + option IP :=
  match ips with
  | [] => inr public
  | ip :: r =>
      if IsPrivateOrReserved g ip then inl ip
      else pick_public g r (match public with None => Some ip | Some p => Some p end)
  end.

Definition SafeDialContext (g : Guard) (network addr : string) : list Call * (Error + Conn) :=
  match SplitHostPort addr with
  | inl e => ([], inl (OtherError e))
  | inr (host, port) =>
      match ParseIP host with
      | Some l =>
          let ip := Some l in
          if IsPrivateOrReserved g ip
          then ([], inl (ErrPrivateAddress ("ip=" ++ IPString ip)))
          else dial network addr
      | None =>
          match LookupIPAddr host with
          | inl e => ([Lookup host], inl (OtherError e))
          | inr ips =>
              if (length ips =? 0)%nat
              then ([Lookup host], inl (ErrPrivateAddress ("host=" ++ host)))
              else match pick_public g ips None with
                   | inl ip =>
                       ([Lookup host], inl (ErrPrivateAddress ("host=" ++ host ++ " ip=" ++ IPString ip)))
                   | inr public =>
                       let '(calls, result) :=
                         dial network (JoinHostPort (IPString (default None public)) port) in
                       (Lookup host :: calls, result)
                   end
          end
      end
  end.

Definition ValidateOutboundURL (g : Guard) (raw : string) : Error + URL :=
  match url_Parse raw with
  | inl e => inl (ParseURLError e)
  | inr u =>
      if negb (Scheme u =? "http") && negb (Scheme u =? "https") then inl ErrUnsupportedScheme
      else match RejectInlineCredentials (Some u) with
      | Some e => inl e
      | None =>
          let host := Hostname u in
          if host =? "" then inl MissingHost
          else match ParseIP host with
          | Some l =>
              if IsPrivateOrReserved g (Some l)
              then inl (ErrPrivateAddress ("ip=" ++ IPString (Some l))) else inr u
          | None =>
              match LookupIPAddr host with
              | inl e => inl (ResolveError host e)
              | inr ips =>
                  if (length ips =? 0)%nat
                  then inl (ErrPrivateAddress ("host=" ++ host ++ " no addresses"))
                  else match pick_public g ips None with
                       | inl ip =>
                           inl (ErrPrivateAddress ("host=" ++ host ++ " ip=" ++ IPString ip))
                       | inr _ => inr u
                       end
              end
          end
      end
  end.

(** ** The allowlist of the configuration *)

(** [add] of [ParseAllowedPrivateUpstreams] on the addresses seen and the result. *)
Definition add_upstream (s : string) (acc : gset Addr * list IP) : gset Addr * list IP :=
  let s := TrimSpace s in
  if s =? "" then acc
  else match ParseIP s with
  | None => acc
  | Some l =>
      match AddrFromSlice l with
      | None => acc
      | Some addr =>
          let addr := Unmap addr in
          if decide (addr ∈ fst acc) then acc
          else ({[addr]} ∪ fst acc, (snd acc ++ [Some l])%list)
      end
  end.

Definition ParseAllowedPrivateUpstreams (env : string) (configIPs : list string) : list IP :=
  let acc := foldl (fun acc s => add_upstream s acc) (∅, []) configIPs in
  snd (if negb (env =? "")
       then foldl (fun acc s => add_upstream s acc) acc (SplitByte env ",")
       else acc).
End Guarded.

(** ** Lemmas: the classes of addresses *)

Local Open Scope list_scope.
Local Open Scope Z_scope.

Lemma in_class_app r4 r4' r6 r6' x :
  in_class (r4 ++ r4') (r6 ++ r6') x = in_class r4 r6 x || in_class r4' r6' x.
Proof. unfold in_class. destruct (Unmap x); apply existsb_app. Qed.

(** The classes of the guard. *)
Definition one (v : Z) : Z * Z := (v, v).
Definition metadata4 : list (Z * Z) := [one (ip4 169 254 169 254); one (ip4 169 254 170 2)].
Definition metadata6 : list (Z * Z) := [one (be [253; 0; 14; 194; 0; 0; 0; 0; 0; 0; 0; 0; 0; 0; 2; 84])].
Definition hard4 : list (Z * Z) := loopback4 ++ [one 0] ++ linklocal4 ++ multicast4 ++ metadata4.
Definition hard6 : list (Z * Z) := loopback6 ++ [one 0] ++ linklocal6 ++ multicast6 ++ metadata6.
Definition cgnat4 : list (Z * Z) := [(ip4 100 64 0 0, ip4 100 127 255 255)].

(** The 4-byte form of a slice has the same address. *)
Definition shorten (ip : IP) : IP := match To4 ip with Some v4 => Some v4 | None => ip end.

Lemma shorten_wf ip : ip_wf ip -> ip_wf (shorten ip) /\ addr_of (shorten ip) = addr_of ip.
Proof.
  intros Hw. unfold shorten. destruct (ip_wf_view _ Hw) as [l Hl Hb _ Hto4 Ha|l Hl Hb -> _ Hto4 Ha];
    rewrite Hto4; [|done].
  split; [by exists l; auto|]. rewrite Ha. unfold addr_of, AddrFromSlice. by rewrite Hl.
Qed.

Section Address.
Context (ip : IP) (x : Addr) (Hw : ip_wf ip) (Ha : addr_of ip = Some x).

Lemma zone_empty : Zone x = "".
Proof. destruct (ip_wf_view _ Hw); by simplify_eq. Qed.

(** A single address as a range. *)
Lemma one_addr v4 v6 :
  in_class (one <$> v4) (one <$> v6) x =
  existsb (fun v => bool_decide (x = Addr4 v)) v4 || existsb (fun v => bool_decide (x = Addr6 v "")) v6.
Proof.
  pose proof zone_empty as Hz. rewrite (in_class_unmapped ip x Hw Ha).
  destruct x as [v|v z]; cbn [Zone] in Hz; subst.
  - assert (Hf : existsb (fun w => bool_decide (Addr4 v = Addr6 w "")) v6 = false) by (by induction v6).
    rewrite Hf, orb_false_r. clear Hf. induction v4 as [|w v4 IH]; [done|]. cbn [fmap list_fmap existsb].
    rewrite IH. f_equal. unfold between, one. cbn [fst snd]. apply eq_true_iff_eq.
    rewrite bool_decide_eq_true. split; [intros; f_equal; lia|intros [= ->]; lia].
  - assert (Hf : existsb (fun w => bool_decide (Addr6 v "" = Addr4 w)) v4 = false) by (by induction v4).
    rewrite Hf. clear Hf. cbn [orb]. induction v6 as [|w v6 IH]; [done|]. cbn [fmap list_fmap existsb].
    rewrite IH. f_equal. unfold between, one. cbn [fst snd]. apply eq_true_iff_eq.
    rewrite bool_decide_eq_true. split; [intros; f_equal; lia|intros [= ->]; lia].
Qed.

Lemma metadata_class : existsb (Equal ip) cloudMetadataIPs = in_class metadata4 metadata6 x.
Proof.
  change metadata4 with (one <$> [ip4 169 254 169 254; ip4 169 254 170 2]).
  change metadata6 with (one <$> [be [253; 0; 14; 194; 0; 0; 0; 0; 0; 0; 0; 0; 0; 0; 2; 84]]).
  rewrite one_addr. unfold cloudMetadataIPs, IPv4. cbn [existsb].
  rewrite (Equal_addr ip x Hw Ha _ (Addr4 (ip4 169 254 169 254))) by (by apply ip_wf_eval || reflexivity).
  rewrite (Equal_addr ip x Hw Ha _ (Addr4 (ip4 169 254 170 2))) by (by apply ip_wf_eval || reflexivity).
  rewrite (Equal_addr ip x Hw Ha _ (Addr6 (be [253; 0; 14; 194; 0; 0; 0; 0; 0; 0; 0; 0; 0; 0; 2; 84]) ""))
    by (by apply ip_wf_eval || reflexivity).
  by rewrite !orb_false_r, orb_assoc.
Qed.

Lemma hard_class_short :
  IsLoopback ip || IsUnspecified ip || IsLinkLocalUnicast ip || IsLinkLocalMulticast ip ||
  IsMulticast ip || IsInterfaceLocalMulticast ip || existsb (Equal ip) cloudMetadataIPs =
  in_class hard4 hard6 x.
Proof.
  pose proof (IsLinkLocalMulticast_ip ip) as Hlm.
  pose proof (IsInterfaceLocalMulticast_ip ip x Hw Ha) as Hil.
  unfold hard4, hard6. rewrite !in_class_app, metadata_class.
  rewrite (IsLoopback_ip _ _ Hw Ha), (IsUnspecified_ip _ _ Hw Ha), (IsLinkLocalUnicast_ip _ _ Hw Ha).
  rewrite <-(IsMulticast_ip _ _ Hw Ha). change (one 0) with (0, 0).
  destruct (IsMulticast ip), (IsLinkLocalMulticast ip), (IsInterfaceLocalMulticast ip);
    try discriminate (Hlm eq_refl); try discriminate (Hil eq_refl);
    repeat match goal with |- context [in_class ?a ?b x] => destruct (in_class a b x) end;
    reflexivity.
Qed.
End Address.

Lemma shorten_idemp ip : ip_wf ip -> shorten (shorten ip) = shorten ip.
Proof.
  intros Hw. unfold shorten. destruct (ip_wf_view _ Hw) as [l Hl _ _ Hto4 _|l _ _ -> _ Hto4 _]; rewrite Hto4.
  - unfold To4, ip_len. cbn [bytes default from_option id]. by rewrite Hl.
  - by rewrite Hto4.
Qed.

Lemma IsCloudMetadataIP_class ip x :
  ip_wf ip -> addr_of ip = Some x -> IsCloudMetadataIP ip = in_class metadata4 metadata6 x.
Proof.
  intros Hw Ha. destruct (shorten_wf ip Hw) as [Hws Has]. rewrite Ha in Has.
  rewrite <-(metadata_class _ _ Hws Has). destruct Hw as (l & -> & _). reflexivity.
Qed.

Lemma IsHardDeniedIP_class ip x :
  ip_wf ip -> addr_of ip = Some x -> IsHardDeniedIP ip = in_class hard4 hard6 x.
Proof.
  intros Hw Ha. destruct (shorten_wf ip Hw) as [Hws Has]. rewrite Ha in Has.
  rewrite <-(hard_class_short _ _ Hws Has). pose proof (shorten_idemp ip Hw) as Hi.
  rewrite (metadata_class _ _ Hws Has), <-(IsCloudMetadataIP_class _ _ Hws Has).
  destruct Hw as (l & -> & _). reflexivity.
Qed.

(** The networks, on the forms of a slice. *)
Lemma land_byte z : is_byte z -> Z.land z 255 = z.
Proof. intros Hz. rewrite (land_ones_mod _ 8) by done. apply Z.mod_small. exact Hz. Qed.

Section Networks.
Context (ip : IP) (x : Addr) (Hw : ip_wf ip) (Ha : addr_of ip = Some x).

Ltac net_cases Hbe :=
  rewrite (in_class_unmapped ip x Hw Ha); unfold IPNet_Contains; class_of_ip Hw Ha;
  match goal with H : To4 _ = _ |- _ => rewrite ?H end; cbn [net_ip net_mask];
  change (bytes (Some ?l)) with l; match goal with H : length _ = _ |- _ => rewrite ?H end;
  cbn [length Nat.eqb andb replicate zip zip_with forallb fst snd];
  rewrite ?land_byte by (done || (unfold is_byte; lia)).

Lemma cgnat_net :
  IPNet_Contains {| net_ip := [100; 64; 0; 0]; net_mask := [255; 192; 0; 0] |} ip =
  in_class cgnat4 [] x.
Proof.
  net_cases Hbe; [|done]. change (Z.land 64 192) with 64.
  rewrite (Z.eqb_sym 64), (byte_mask 192 64 _ 64 127), !Z.land_0_r by done.
  unfold cgnat4, is_byte in *. range_solve Hbe.
Qed.

Lemma single_net n0 n1 n2 n3 :
  is_byte n0 -> is_byte n1 -> is_byte n2 -> is_byte n3 ->
  IPNet_Contains {| net_ip := [n0; n1; n2; n3]; net_mask := [255; 255; 255; 255] |} ip = true ->
  in_class [one (ip4 n0 n1 n2 n3)] [] x = true.
Proof.
  intros ????. net_cases Hbe; [|done]. unfold one. intros HH.
  repeat (apply andb_true_iff in HH as [? HH]).
  unfold between. cbn [existsb fst snd]. cbv [ip4 be foldl]. unfold is_byte in *. lia.
Qed.

Lemma ula_net :
  IPNet_Contains {| net_ip := 253 :: replicate 15 0; net_mask := 255 :: replicate 15 0 |} ip = true ->
  in_class private4 private6 x = true.
Proof.
  net_cases Hbe; [done|]. intros [Hb0 _]%andb_true_iff. unfold private6, is_byte in *. revert Hb0.
  unfold between, block6. cbn [existsb fst snd]. rewrite Hbe. lia.
Qed.
End Networks.

Lemma in_class_sub r4 r6 r4' r6' x :
  r4 ⊆ r4' -> r6 ⊆ r6' -> in_class r4 r6 x = true -> in_class r4' r6' x = true.
Proof.
  unfold in_class. intros H4 H6. destruct (Unmap x); rewrite !existsb_exists;
    intros (r & Hr%list_elem_of_In & Hb); exists r; split; try done; apply list_elem_of_In; auto.
Qed.

(** The ranges the operator may open: the private ones, and CGNAT unless the
    environment opens it. *)
Definition soft4 (g : Guard) : list (Z * Z) := private4 ++ (if cgnatAllowed g then [] else cgnat4).

Lemma soft_class g ip x :
  ip_wf ip -> addr_of ip = Some x -> in_class hard4 hard6 x = false ->
  IsPrivate ip || existsb (fun n => IPNet_Contains n ip) (parsedExtraReserved g) =
  in_class (soft4 g) private6 x.
Proof.
  intros Hw Ha Hh. unfold soft4. rewrite <-(app_nil_r private6), in_class_app.
  rewrite (IsPrivate_ip _ _ Hw Ha). unfold parsedExtraReserved. rewrite existsb_app. cbn [existsb].
  assert (Hone : forall n0 n1 n2 n3, is_byte n0 -> is_byte n1 -> is_byte n2 -> is_byte n3 ->
    one (ip4 n0 n1 n2 n3) ∈ metadata4 ->
    IPNet_Contains {| net_ip := [n0; n1; n2; n3]; net_mask := [255; 255; 255; 255] |} ip = false).
  { intros n0 n1 n2 n3 H0 H1 H2 H3 Hin. apply not_true_iff_false. intros HC.
    apply (single_net _ _ Hw Ha) in HC; [|done..]. apply not_true_iff_false in Hh. apply Hh.
    eapply in_class_sub; [| |exact HC]; [|apply list_subseteq_nil]. intros y ->%list_elem_of_singleton.
    unfold hard4. rewrite !elem_of_app. auto. }
  rewrite (Hone 169 254 169 254), (Hone 169 254 170 2)
    by (unfold is_byte; lia || (apply elem_of_cons; auto using list_elem_of_here, list_elem_of_further)).
  pose proof (ula_net _ _ Hw Ha) as Hula. pose proof (cgnat_net _ _ Hw Ha) as Hcg.
  destruct (IPNet_Contains {| net_ip := 253 :: replicate 15 0; net_mask := 255 :: replicate 15 0 |} ip).
  - by rewrite Hula.
  - cbn [orb]. destruct (cgnatAllowed g); cbn [negb existsb]; [|by rewrite Hcg, orb_false_r].
    f_equal. unfold in_class. by destruct (Unmap x).
Qed.

Lemma IsAllowedPrivateIP_addr g ip x :
  addr_of ip = Some x -> IsAllowedPrivateIP g ip = bool_decide (x ∈ allowedPrivate g).
Proof.
  unfold addr_of, IsAllowedPrivateIP. destruct ip as [l|]; [|done].
  intros (a & -> & ->)%fmap_Some. done.
Qed.

Lemma IsPrivateOrReserved_class g ip x :
  ip_wf ip -> addr_of ip = Some x ->
  IsPrivateOrReserved g ip =
  in_class hard4 hard6 x ||
  (negb (bool_decide (x ∈ allowedPrivate g)) && in_class (soft4 g) private6 x).
Proof.
  intros Hw Ha. pose proof (IsHardDeniedIP_class _ _ Hw Ha) as Hh.
  pose proof (IsAllowedPrivateIP_addr g _ _ Ha) as Hal. pose proof (soft_class g _ _ Hw Ha) as Hs.
  unfold IsPrivateOrReserved. destruct ip as [l|]; [|by destruct Hw as (? & ? & _)].
  rewrite Hh, Hal. destruct (in_class hard4 hard6 x); [done|].
  destruct (bool_decide (x ∈ allowedPrivate g)); [done|]. cbn [negb andb orb].
  rewrite <-Hs by done. by destruct (IsPrivate (Some l)).
Qed.

(** ** Theorems: the classification *)

(** C32: the guard denies exactly the loopback, unspecified, link-local,
    multicast and cloud-metadata ranges, whatever the operator allows, and the
    private ranges (with CGNAT unless the environment opens it) of the addresses
    the operator did not allow.  The verdict depends on the address only: the
    4-byte, the 16-byte and the IPv4-mapped forms of an address are treated alike. *)
Theorem IsPrivateOrReserved_exact g ip x :
  ip_wf ip -> addr_of ip = Some x ->
  (IsPrivateOrReserved g ip = true <->
   in_class hard4 hard6 x = true \/
   (x ∉ allowedPrivate g /\ in_class (soft4 g) private6 x = true)) /\
  (forall ip', ip_wf ip' -> addr_of ip' = Some x -> IsPrivateOrReserved g ip' = IsPrivateOrReserved g ip).
Proof.
  intros Hw Ha. split.
  - rewrite (IsPrivateOrReserved_class g ip x Hw Ha), orb_true_iff, andb_true_iff, negb_true_iff.
    by rewrite bool_decide_eq_false.
  - intros ip' Hw' Ha'. by rewrite !(IsPrivateOrReserved_class g _ x).
Qed.

(** A private address the operator allowed passes; its neighbour does not. *)
Definition example_guard : Guard :=
  SetAllowedPrivateIPs [IPv4 10 0 0 5; IPv4 127 0 0 1] {| allowedPrivate := ∅; cgnat_env := "" |}.

Lemma IsPrivateOrReserved_exact_witness :
  (IsPrivateOrReserved example_guard (Some [10; 0; 0; 6]) = true <->
   in_class hard4 hard6 (Addr4 (ip4 10 0 0 6)) = true \/
   (Addr4 (ip4 10 0 0 6) ∉ allowedPrivate example_guard /\
    in_class (soft4 example_guard) private6 (Addr4 (ip4 10 0 0 6)) = true)) /\
  (forall ip', ip_wf ip' -> addr_of ip' = Some (Addr4 (ip4 10 0 0 6)) ->
   IsPrivateOrReserved example_guard ip' = IsPrivateOrReserved example_guard (Some [10; 0; 0; 6])).
Proof. apply IsPrivateOrReserved_exact; [by apply ip_wf_eval|reflexivity]. Defined.

Example guard_cases :
  map (IsPrivateOrReserved example_guard)
    [IPv4 10 0 0 5; Some [10; 0; 0; 5]; IPv4 10 0 0 6; IPv4 127 0 0 1; IPv4 8 8 8 8;
     IPv4 100 64 0 1; None] =
  [false; false; true; true; false; true; true].
Proof. vm_compute. reflexivity. Qed.

(** ** Theorems: connections *)

Section Connections.
Context {N : GoNet} {Conn : Type} (LookupIPAddr : string -> string + list IP)
        (DialContext : string -> string -> string + Conn) (g : Guard).

(** [pick_public] finds the first answer when no answer is prohibited. *)
Lemma pick_public_inr ips p q :
  pick_public g ips p = inr q ->
  Forall (fun ip => IsPrivateOrReserved g ip = false) ips /\
  q = match p with Some _ => p | None => head ips end.
Proof.
  revert p. induction ips as [|ip ips IH]; intros p; simpl; [intros [= <-]; by destruct p|].
  destruct (IsPrivateOrReserved g ip) eqn:E; [done|]. intros [Hall ->]%IH.
  split; [by constructor|]. by destruct p.
Qed.

Lemma pick_public_inl ips : forall p ip,
  pick_public g ips p = inl ip -> ip ∈ ips /\ IsPrivateOrReserved g ip = true.
Proof.
  induction ips as [|ip' ips IH]; intros p ip; simpl; [done|].
  destruct (IsPrivateOrReserved g ip') eqn:E; [intros [= <-]; split; [by left|done]|].
  intros [? ?]%IH. split; [by right|done].
Qed.

(** The address a host name or literal leads to: what the guard has checked. *)
Inductive checked (host port addr : string) : string -> Prop :=
| checked_literal l :
    ParseIP host = Some l -> IsPrivateOrReserved g (Some l) = false -> checked host port addr addr
| checked_name ip ips :
    ParseIP host = None -> LookupIPAddr host = inr (ip :: ips) ->
    Forall (fun ip => IsPrivateOrReserved g ip = false) (ip :: ips) ->
    checked host port addr (JoinHostPort (IPString ip) port).

(** C33: the guarded dialer connects at most once, and only to an address it has
    just checked: the literal of the request, or the first answer of the
    resolver when every answer passes the guard; a name with one prohibited
    answer, or none at all, is never connected to, and the error says so. *)
Theorem SafeDialContext_sound network addr :
  (forall n a, Dial n a ∈ fst (SafeDialContext LookupIPAddr DialContext g network addr) ->
     n = network /\ exists host port, SplitHostPort addr = inr (host, port) /\ checked host port addr a) /\
  (length (List.filter (fun c => match c with Dial _ _ => true | _ => false end)
     (fst (SafeDialContext LookupIPAddr DialContext g network addr))) <= 1)%nat /\
  (forall host port ips ip, SplitHostPort addr = inr (host, port) -> ParseIP host = None ->
     LookupIPAddr host = inr ips -> ip ∈ ips -> IsPrivateOrReserved g ip = true ->
     exists bad, bad ∈ ips /\ IsPrivateOrReserved g bad = true /\
       SafeDialContext LookupIPAddr DialContext g network addr =
       ([Lookup host], inl (ErrPrivateAddress ("host=" ++ host ++ " ip=" ++ IPString bad)%string))).
Proof.
  unfold SafeDialContext, dial. split; [|split].
  - intros n a. destruct (SplitHostPort addr) as [e|[host port]]; [by intros ?%elem_of_nil|].
    destruct (ParseIP host) as [l|] eqn:Hp.
    + destruct (IsPrivateOrReserved g (Some l)) eqn:E; [by intros ?%elem_of_nil|].
      intros [= -> ->]%list_elem_of_singleton. split; [done|]. exists host, port. split; [done|].
      by eapply checked_literal.
    + destruct (LookupIPAddr host) as [e|[|ip ips]] eqn:Hl;
        [by intros [= ]%list_elem_of_singleton..|]. cbn [length Nat.eqb].
      destruct (pick_public g (ip :: ips) None) as [bad|pub] eqn:Hpk;
        [by intros [= ]%list_elem_of_singleton|].
      apply pick_public_inr in Hpk as [Hall ->]. cbn [head default fst].
      intros [[=]|[= -> ->]%list_elem_of_singleton]%elem_of_cons.
      split; [done|]. exists host, port. split; [done|]. by eapply checked_name.
  - destruct (SplitHostPort addr) as [e|[host port]]; [simpl; lia|].
    destruct (ParseIP host); [destruct (IsPrivateOrReserved g _); simpl; lia|].
    destruct (LookupIPAddr host) as [e|ips]; [simpl; lia|].
    destruct (length ips =? 0)%nat; [simpl; lia|]. destruct (pick_public g ips None); simpl; lia.
  - intros host port ips ip -> -> -> Hin Hbad.
    assert (Hn : (length ips =? 0)%nat = false) by (destruct ips; [by apply elem_of_nil in Hin|done]).
    rewrite Hn. destruct (pick_public g ips None) as [bad|pub] eqn:Hpk.
    + exists bad. by destruct (pick_public_inl _ _ _ Hpk).
    + apply pick_public_inr in Hpk as [Hall _]. rewrite Forall_forall in Hall.
      rewrite (Hall ip) in Hbad; done.
Qed.

(** A URL that passes the validation has the scheme http or https, no
    inline credentials and a host, and the host is a literal that passes the
    guard or a name with at least one answer, all of which pass. *)
Theorem ValidateOutboundURL_sound raw :
  match ValidateOutboundURL LookupIPAddr g raw with
  | inl _ => True
  | inr u =>
      url_Parse raw = inr u /\ (Scheme u = "http" \/ Scheme u = "https") /\ User u = None /\
      Hostname u <> "" /\
      match ParseIP (Hostname u) with
      | Some l => IsPrivateOrReserved g (Some l) = false
      | None => exists ip ips, LookupIPAddr (Hostname u) = inr (ip :: ips) /\
                  Forall (fun ip => IsPrivateOrReserved g ip = false) (ip :: ips)
      end
  end.
Proof.
  unfold ValidateOutboundURL, RejectInlineCredentials.
  destruct (url_Parse raw) as [e|u] eqn:Hu; [done|].
  destruct (negb (Scheme u =? "http")%string && negb (Scheme u =? "https")%string) eqn:Hs; [done|].
  destruct (User u) eqn:Hus; [done|]. destruct (Hostname u =? "")%string eqn:Hh; [done|].
  assert (Hscheme : Scheme u = "http" \/ Scheme u = "https").
  { apply andb_false_iff in Hs as [Hs|Hs]; apply negb_false_iff, String.eqb_eq in Hs; auto. }
  apply String.eqb_neq in Hh.
  destruct (ParseIP (Hostname u)) as [l|] eqn:Hp.
  - destruct (IsPrivateOrReserved g (Some l)) eqn:Hd; [done|]. rewrite Hp. done.
  - destruct (LookupIPAddr (Hostname u)) as [e|[|ip ips]] eqn:Hl; [done..|]. cbn [length Nat.eqb].
    destruct (pick_public g (ip :: ips) None) as [bad|pub] eqn:Hpk; [done|].
    apply pick_public_inr in Hpk as [Hall _]. rewrite Hp. eauto 10.
Qed.
End Connections.

(** ** Theorems: redaction *)

Section Redaction.
Context {U : GoUnicode}.
Local Open Scope string_scope.

(** The items of a query: the parts between ampersands and semicolons. *)
Fixpoint items_from (item rest : string) : list string :=
  match rest with
  | "" => [item]
  | String c r => if query_sep c then item :: items_from "" r else items_from (item ++ String c "") r
  end.

Definition query_items (raw : string) : list string := items_from "" raw.

Definition sep_free (s : string) : bool := sall (fun c => negb (query_sep c)) s.

(** What may appear in a log: an item whose key is not sensitive, or whose value
    is the placeholder. *)
Definition item_safe (extraKeys : list string) (item : string) : Prop :=
  match cut_equals item with
  | None => item = "" \/ Classify item = (false, true)
  | Some (key, value) =>
      snd (Classify key) = true /\
      (value = redactedQueryValue \/
       (fst (Classify key) = false /\ forall c, Canonical key = Some c -> c ∉ extraKeys))
  end.

Lemma sall_app (f : ascii -> bool) a b : sall f (a ++ b) = sall f a && sall f b.
Proof.
  induction a as [|c a IH]; [done|]. change (String c a ++ b) with (String c (a ++ b)).
  cbn [sall]. by rewrite IH, andb_assoc.
Qed.

Lemma cut_equals_spec item :
  match cut_equals item with
  | Some (k, v) => item = k ++ "=" ++ v /\ avoids EQUALS k = true
  | None => avoids EQUALS item = true
  end.
Proof.
  unfold avoids. induction item as [|c r IH]; [done|]. cbn [cut_equals sall].
  destruct (Ascii.eqb_spec c EQUALS) as [->|]; [done|].
  destruct (cut_equals r) as [[k v]|]; [|exact IH]. destruct IH as [-> Hk].
  split; [done|]. cbn [sall]. rewrite Hk. by apply Ascii.eqb_neq in n as ->.
Qed.

Lemma cut_equals_key k v : avoids EQUALS k = true -> cut_equals (k ++ "=" ++ v) = Some (k, v).
Proof.
  unfold avoids. induction k as [|c k IH]; [done|]. cbn [sall].
  intros [Hc%negb_true_iff Hk]%andb_true_iff.
  change (String c k ++ "=" ++ v) with (String c (k ++ "=" ++ v)). cbn [cut_equals].
  by rewrite Hc, IH.
Qed.

Lemma redacted_safe ek : item_safe ek redactedQuery.
Proof. split; [reflexivity|by left]. Qed.

(** The two branches of an item with a value. *)
Definition item_sensitive (ek : list string) (key : string) : bool :=
  if fst (Classify key) then true
  else match Canonical key with Some c => bool_decide (c ∈ ek) | None => false end.

Lemma scrub_item_pair ek item key value :
  cut_equals item = Some (key, value) ->
  scrub_item ek item =
  if negb (snd (Classify key)) then redactedQuery
  else key ++ "=" ++ (if item_sensitive ek key then redactedQueryValue else value).
Proof.
  intros Hc. unfold scrub_item, item_sensitive. rewrite Hc. by destruct (Classify key).
Qed.

Lemma item_sensitive_false ek key :
  item_sensitive ek key = false <->
  fst (Classify key) = false /\ forall c, Canonical key = Some c -> c ∉ ek.
Proof.
  unfold item_sensitive. destruct (fst (Classify key)); [naive_solver|].
  destruct (Canonical key) as [c|]; [rewrite bool_decide_eq_false|]; naive_solver.
Qed.

Lemma scrub_item_safe ek item : item_safe ek (scrub_item ek item).
Proof.
  pose proof (cut_equals_spec item) as Hs. destruct (cut_equals item) as [[key value]|] eqn:Hc.
  - destruct Hs as [_ Hk]. rewrite (scrub_item_pair _ _ _ _ Hc).
    destruct (snd (Classify key)) eqn:Hv; [|apply redacted_safe]. cbn [negb].
    unfold item_safe. rewrite cut_equals_key by done. split; [done|].
    destruct (item_sensitive ek key) eqn:Hi; [by left|right]. by apply item_sensitive_false.
  - unfold scrub_item. rewrite Hc. destruct (Classify item) as [s v] eqn:Hcl.
    destruct (negb (item =? "") && (s || negb v)) eqn:Hb; [apply redacted_safe|].
    unfold item_safe. rewrite Hc, Hcl. destruct (String.eqb_spec item ""); [by left|right].
    by destruct s, v.
Qed.

Lemma scrub_item_id ek item : item_safe ek item -> scrub_item ek item = item.
Proof.
  unfold item_safe. pose proof (cut_equals_spec item) as Hs.
  destruct (cut_equals item) as [[key value]|] eqn:Hc.
  - destruct Hs as [-> _]. intros [Hv Hval]. rewrite (scrub_item_pair _ _ _ _ Hc), Hv. cbn [negb].
    destruct Hval as [->|Hval%item_sensitive_false]; [by destruct (item_sensitive ek key)|].
    by rewrite Hval.
  - unfold scrub_item. rewrite Hc. intros [->|Hcl].
    + by destruct (Classify "").
    + rewrite Hcl. by rewrite andb_false_r.
Qed.

Lemma scrub_item_sep_free ek item : sep_free item = true -> sep_free (scrub_item ek item) = true.
Proof.
  unfold sep_free. intros Hi. pose proof (cut_equals_spec item) as Hs.
  destruct (cut_equals item) as [[key value]|] eqn:Hc.
  - destruct Hs as [-> _]. rewrite (scrub_item_pair _ _ _ _ Hc).
    rewrite !sall_app in Hi. apply andb_true_iff in Hi as [Hk [_ Hv]%andb_true_iff].
    destruct (negb (snd (Classify key))); [done|]. rewrite !sall_app, Hk.
    by destruct (item_sensitive ek key).
  - unfold scrub_item. rewrite Hc. destruct (Classify item). by destruct (_ && _).
Qed.
Lemma items_from_app x rest : forall item,
  sep_free x = true -> items_from item (x ++ rest) = items_from (item ++ x) rest.
Proof.
  unfold sep_free. induction x as [|c x IH]; intros item; cbn [sall].
  - intros _. by rewrite sapp_nil_r.
  - intros [Hc%negb_true_iff Hx]%andb_true_iff.
    change (String c x ++ rest) with (String c (x ++ rest)). cbn [items_from]. rewrite Hc, IH by done.
    by rewrite <-sapp_assoc.
Qed.

(** The loop, on the items that are left. *)
Lemma scrub_loop_items ek rest : forall item pairs,
  sep_free item = true ->
  match scrub_loop ek rest item pairs with
  | Some out =>
      (pairs + zlen (items_from item rest) <= maxLoggedQueryPairs)%Z /\
      query_items out = map (scrub_item ek) (items_from item rest) /\
      (Forall (item_safe ek) (items_from item rest) -> out = item ++ rest)
  | None => (maxLoggedQueryPairs < pairs + zlen (items_from item rest))%Z
  end.
Proof.
  induction rest as [|c r IH]; intros item pairs Hi; cbn [scrub_loop items_from].
  - unfold zlen. cbn [length]. destruct (maxLoggedQueryPairs <? pairs + 1)%Z eqn:Hp; [lia|].
    split; [lia|]. split.
    + unfold query_items. rewrite <-(sapp_nil_r (scrub_item ek item)).
      by rewrite items_from_app by (by apply scrub_item_sep_free).
    + intros [Hs _]%Forall_cons_1. by rewrite scrub_item_id, sapp_nil_r.
  - destruct (query_sep c) eqn:Hc; cbn [negb].
    + destruct (maxLoggedQueryPairs <? pairs + 1)%Z eqn:Hp.
      { pose proof (zlen_nonneg (items_from "" r)). unfold zlen in *. cbn [length]. lia. }
      specialize (IH "" (pairs + 1)%Z eq_refl). destruct (scrub_loop ek r "" (pairs + 1)) as [out|].
      * destruct IH as (Hn & Hq & Hid). unfold zlen in *. cbn [length map]. split; [lia|]. split.
        -- unfold query_items in *. rewrite items_from_app by (by apply scrub_item_sep_free).
           cbn [items_from]. by rewrite Hc, Hq.
        -- intros [Hs Hr]%Forall_cons_1. by rewrite scrub_item_id, (Hid Hr).
      * unfold zlen in *. cbn [length]. lia.
    + assert (Hi' : sep_free (item ++ String c "") = true).
      { unfold sep_free in *. rewrite sall_app, Hi. simpl. by rewrite Hc. }
      specialize (IH (item ++ String c "") pairs Hi').
      destruct (scrub_loop ek r (item ++ String c "") pairs) as [out|]; [|done].
      by rewrite <-sapp_assoc in IH.
Qed.

Lemma query_items_redacted : query_items redactedQuery = [redactedQuery].
Proof. reflexivity. Qed.

Lemma scrubRawQuery_items raw extra :
  Forall (item_safe (extra_keys extra)) (query_items (scrubRawQuery raw extra)).
Proof.
  assert (Hr : Forall (item_safe (extra_keys extra)) (query_items redactedQuery)).
  { rewrite query_items_redacted. constructor; [apply redacted_safe|done]. }
  unfold scrubRawQuery. destruct (maxLoggedQueryBytes <? slen raw)%Z; [done|].
  pose proof (scrub_loop_items (extra_keys extra) raw "" 0 eq_refl) as HL.
  destruct (scrub_loop _ _ _ _) as [out|]; [|done]. destruct HL as (_ & Hq & _). simpl. rewrite Hq.
  apply Forall_map, Forall_true. intros x. apply scrub_item_safe.
Qed.

(** Redaction of a query.  Whatever the query, no item of the result shows
    the value of a sensitive key, however many times the key is percent-encoded,
    nor of a key the caller added; a query within the limits keeps its items and
    separators, each item rewritten alone; and a query that is already safe is
    returned as it is, so redaction is idempotent. *)
Theorem scrubRawQuery_hides raw extra :
  Forall (fun item => forall key value, cut_equals item = Some (key, value) ->
     ((exists n name, layers n name key /\ has_percent name = false /\ ToLower name ∈ keys) \/
      (exists c, Canonical key = Some c /\ c ∈ extra_keys extra)) ->
     value = redactedQueryValue) (query_items (scrubRawQuery raw extra)) /\
  ((slen raw <= maxLoggedQueryBytes)%Z -> (zlen (query_items raw) <= maxLoggedQueryPairs)%Z ->
   query_items (scrubRawQuery raw extra) = map (scrub_item (extra_keys extra)) (query_items raw) /\
   (Forall (item_safe (extra_keys extra)) (query_items raw) -> scrubRawQuery raw extra = raw)).
Proof.
  split.
  - eapply Forall_impl; [apply scrubRawQuery_items|]. intros item Hsafe key value Hc Hkey.
    unfold item_safe in Hsafe. rewrite Hc in Hsafe. destruct Hsafe as [Hv [?|[Hf Hx]]]; [done|].
    destruct Hkey as [(n & name & HL & Hp & Hin)|(c & Hcan & Hin)]; [|by destruct (Hx c)].
    destruct (layers_not_harmless n name key HL Hp Hin).
    destruct (Classify key) as [sv vv]. simpl in *. by subst.
  - intros Hb Hn. unfold scrubRawQuery. rewrite (proj2 (Z.ltb_ge _ _) Hb).
    pose proof (scrub_loop_items (extra_keys extra) raw "" 0 eq_refl) as HL.
    destruct (scrub_loop _ _ _ _) as [out|]; [by destruct HL as (_ & ? & ?)|].
    unfold query_items in Hn. lia.
Qed.

(** A query the result of which is safe is a fixed point: the result itself. *)
Lemma scrub_idempotent raw extra :
  (slen (scrubRawQuery raw extra) <= maxLoggedQueryBytes)%Z ->
  (zlen (query_items (scrubRawQuery raw extra)) <= maxLoggedQueryPairs)%Z ->
  scrubRawQuery (scrubRawQuery raw extra) extra = scrubRawQuery raw extra.
Proof.
  pose proof (scrubRawQuery_items raw extra) as Hs. generalize dependent (scrubRawQuery raw extra).
  intros q Hs Hb Hn. unfold scrubRawQuery. rewrite (proj2 (Z.ltb_ge _ _) Hb).
  pose proof (scrub_loop_items (extra_keys extra) q "" 0 eq_refl) as HL.
  destruct (scrub_loop _ _ _ _) as [out|]; [by destruct HL as (_ & _ & ->)|].
  unfold query_items in Hn. lia.
Qed.

Example scrub_case :
  scrubRawQuery (U := ascii_only) "model=x&tok%65n=abc;note=1&api_key" ["NOTE"] =
  "model=x&tok%65n=%3Credacted%3E;note=%3Credacted%3E&redacted=%3Credacted%3E".
Proof. reflexivity. Qed.
End Redaction.

(** ** Theorems: the allowlist *)

Section Allowlist.
Context {U : GoUnicode} {N : GoNet}.

(** The address an entry of the configuration names. *)
Definition entry_addr (s : string) : option Addr :=
  if (TrimSpace s =? "")%string then None else addr_of (ParseIP (TrimSpace s)).

Definition upstream_entries (env : string) (configIPs : list string) : list string :=
  configIPs ++ (if (env =? "")%string then [] else SplitByte env ",").

(** What [add] keeps: the addresses seen are those of the result, without
    repetition, and those of the entries so far. *)
Definition upstream_inv (entries : list string) (acc : gset Addr * list IP) : Prop :=
  NoDup (omap addr_of (snd acc)) /\ length (omap addr_of (snd acc)) = length (snd acc) /\
  (forall x, x ∈ fst acc <-> x ∈ omap addr_of (snd acc)) /\
  (forall x, x ∈ fst acc <-> x ∈ omap entry_addr entries).

Lemma omap_snoc {A B} (f : A -> option B) l x :
  omap f (l ++ [x]) = omap f l ++ match f x with Some y => [y] | None => [] end.
Proof. rewrite omap_app. simpl. by destruct (f x). Qed.

Lemma add_upstream_inv entries s acc :
  upstream_inv entries acc -> upstream_inv (entries ++ [s]) (add_upstream s acc).
Proof.
  intros (Hnd & Hlen & Hseen & Hent). unfold upstream_inv. rewrite omap_snoc.
  assert (Hskip : entry_addr s = None \/ (exists a, entry_addr s = Some a /\ a ∈ fst acc) ->
    forall x, x ∈ fst acc <-> x ∈ omap entry_addr entries ++
      match entry_addr s with Some y => [y] | None => [] end).
  { intros Hs x. rewrite elem_of_app, <-Hent. destruct Hs as [->|(a & -> & Ha)].
    - rewrite elem_of_nil. tauto.
    - rewrite list_elem_of_singleton. split; [by left|by intros [?| ->]]. }
  unfold add_upstream. pose proof (eq_refl (entry_addr s)) as He. unfold entry_addr at 2 in He.
  destruct (TrimSpace s =? "")%string; [by auto 10|].
  destruct (ParseIP (TrimSpace s)) as [l|]; [|by auto 10].
  unfold addr_of in He. destruct (AddrFromSlice l) as [a|] eqn:Ha; [|by auto 10].
  cbn [fmap option_fmap option_map] in He.
  destruct (decide (Unmap a ∈ fst acc)) as [Hin|Hnin]; [by eauto 10|].
  clear Hskip. rewrite He. cbn [fst snd].
  rewrite omap_snoc. unfold addr_of at 2 4 6. rewrite Ha. cbn [fmap option_fmap option_map].
  split; [|split; [|split]].
  - apply NoDup_app. split; [done|]. split; [|apply NoDup_singleton].
    intros x Hx ->%list_elem_of_singleton. by apply Hnin, Hseen.
  - rewrite !length_app. simpl. lia.
  - intros x. rewrite elem_of_app, list_elem_of_singleton, <-Hseen. set_solver.
  - intros x. rewrite elem_of_app, list_elem_of_singleton, <-Hent. set_solver.
Qed.

Lemma add_upstreams_inv more : forall entries acc,
  upstream_inv entries acc ->
  upstream_inv (entries ++ more) (foldl (fun acc s => add_upstream s acc) acc more).
Proof.
  induction more as [|s more IH]; intros entries acc Hinv; cbn [foldl]; [by rewrite app_nil_r|].
  rewrite cons_middle, (assoc_L (++)). by apply IH, add_upstream_inv.
Qed.

Lemma parse_upstreams_inv env configIPs :
  exists seen, upstream_inv (upstream_entries env configIPs) (seen, ParseAllowedPrivateUpstreams env configIPs).
Proof.
  assert (H0 : upstream_inv [] (∅, [])).
  { unfold upstream_inv. cbn [omap list_omap fst snd]. repeat split; try constructor; set_solver. }
  apply (add_upstreams_inv configIPs) in H0. unfold upstream_entries, ParseAllowedPrivateUpstreams.
  destruct (env =? "")%string; cbn [negb].
  - exists (fst (foldl (fun acc s => add_upstream s acc) (∅, []) configIPs)).
    by rewrite app_nil_r, <-surjective_pairing.
  - apply (add_upstreams_inv (SplitByte env ",")) in H0.
    eexists. rewrite <-surjective_pairing. exact H0.
Qed.

Lemma omap_addr_length ips : (length (omap addr_of ips) <= length ips)%nat.
Proof. induction ips as [|ip ips IH]; [done|]. cbn. destruct (addr_of ip); cbn; lia. Qed.

Lemma omap_addr_bytes ips :
  length (omap addr_of ips) = length ips ->
  omap (fun ip => Unmap <$> AddrFromSlice (bytes ip)) ips = omap addr_of ips.
Proof.
  induction ips as [|ip ips IH]; [done|]. pose proof (omap_addr_length ips) as Hle.
  destruct ip as [l|]; cbn -[AddrFromSlice]; [|intros H; cbn in H; lia].
  change (bytes (Some l)) with l. destruct (AddrFromSlice l); cbn; intros H; [|lia].
  f_equal. apply IH. lia.
Qed.

(** Loading the configuration installs exactly the addresses its entries
    name: an address is exempt if and only if an entry of the file or of the
    environment, trimmed, parses to it; the list keeps one spelling per address. *)
Theorem allowlist_of_config env configIPs g x :
  NoDup (omap addr_of (ParseAllowedPrivateUpstreams env configIPs)) /\
  (x ∈ allowedPrivate (SetAllowedPrivateIPs (ParseAllowedPrivateUpstreams env configIPs) g) <->
   exists s, s ∈ upstream_entries env configIPs /\ entry_addr s = Some x).
Proof.
  destruct (parse_upstreams_inv env configIPs) as (seen & Hnd & Hlen & Hseen & Hent).
  cbn [fst snd] in *. split; [done|]. unfold SetAllowedPrivateIPs. cbn [allowedPrivate].
  rewrite elem_of_list_to_set. rewrite <-list_elem_of_omap, <-Hent, Hseen. clear -Hlen.
  generalize dependent (ParseAllowedPrivateUpstreams env configIPs). intros ips Hlen.
  by rewrite omap_addr_bytes.
Qed.
End Allowlist.
