(* ===== verification/NetguardV8.v ===== *)
(** * The guard of the push exporters (internal/netguard/netguard_v8.go)

    A policy per destination instead of the package state of Netguard: the
    classification of an address, the offline and the resolving validation of
    an endpoint, and the guarded dialer with its bounded errors.  The resolver,
    the dialer and what the context reports at each point are parameters. *)
From stdpp Require Import base list gmap strings.
From Stdlib Require Import ZArith Lia Ascii.
From S2P Require Import Prelude GoStrings NetAddr Netguard.

Local Open Scope Z_scope.

(** ** Data *)

Inductive V8Error :=
| ErrV8EndpointInvalid
| ErrV8AddressProhibited
| ErrV8ResolutionFailed
| ErrV8ConnectionFailed
| ErrV8RedirectBlocked
| V8UnsupportedScheme
| V8InlineCredentials
| V8Canceled
| V8DeadlineExceeded.

Record V8NetworkSafetyPolicy := { AllowPrivateNetworks : bool; AllowCGNAT : bool }.

(** ** Classification *)

Definition prefix4 (a b c d bits : Z) : Prefix := {| prefix_ip := Addr4 (ip4 a b c d); prefix_bits := bits |}.
Definition prefix6 (value bits : Z) : Prefix := {| prefix_ip := Addr6 value ""; prefix_bits := bits |}.

Definition v8CGNATPrefix : Prefix := prefix4 100 64 0 0 10.

Definition v8MetadataPrefixes : list Prefix :=
  [ prefix4 169 254 169 254 32; prefix4 169 254 170 0 24; prefix4 100 100 100 200 32;
    prefix6 (0xfd000ec2 * 2 ^ 96 + 0x254) 128; prefix6 (0xfe80 * 2 ^ 112 + 0xa9fea9fe) 128 ].

Definition v8ReservedPrefixes : list Prefix :=
  [ prefix4 0 0 0 0 8; prefix4 192 0 0 0 24; prefix4 192 0 2 0 24; prefix4 192 88 99 0 24;
    prefix4 198 18 0 0 15; prefix4 198 51 100 0 24; prefix4 203 0 113 0 24; prefix4 240 0 0 0 4;
    prefix6 0 96; prefix6 (0x64ff9b * 2 ^ 96) 96; prefix6 (0x100 * 2 ^ 112) 64;
    prefix6 (0x64ff9b0001 * 2 ^ 80) 48; prefix6 (0x2001 * 2 ^ 112) 23;
    prefix6 (0x20010db8 * 2 ^ 96) 32; prefix6 (0x2002 * 2 ^ 112) 16; prefix6 (0x3fff * 2 ^ 112) 20;
    prefix6 (0x5f00 * 2 ^ 112) 16 ].

Definition prefixContains (prefixes : list Prefix) (addr : Addr) : bool :=
  existsb (fun p => prefix_Contains p addr) prefixes.

(** [allowsAddr] on a valid address. *)
Definition allowsAddr (p : V8NetworkSafetyPolicy) (addr : Addr) : bool :=
  if negb (Zone addr =? "")%string then false
  else
    let addr := Unmap addr in
    if prefixContains v8MetadataPrefixes addr then false
    else if netip.IsUnspecified addr || netip.IsLinkLocalUnicast addr ||
            netip.IsLinkLocalMulticast addr || netip.IsInterfaceLocalMulticast addr ||
            netip.IsMulticast addr then false
    else if prefix_Contains v8CGNATPrefix addr then AllowCGNAT p
    else if netip.IsLoopback addr || netip.IsPrivate addr then AllowPrivateNetworks p
    else if prefixContains v8ReservedPrefixes addr then false
    else true.

Definition ValidateIP (p : V8NetworkSafetyPolicy) (ip : IP) : option V8Error :=
  match AddrFromSlice (bytes ip) with
  | Some addr => if allowsAddr p (Unmap addr) then None else Some ErrV8AddressProhibited
  | None => Some ErrV8AddressProhibited
  end.

(** ** Endpoints *)

(** [strconv.Atoi]: an optional sign and decimal digits, within an [int]. *)
Fixpoint digits_value (s : string) (acc : Z) : option Z :=
  match s with
  | "" => Some acc
  | String c r => if byte_in 48 57 c then digits_value r (acc * 10 + (Z.of_nat (byte_of c) - 48)) else None
  end%string.

Definition Atoi (s : string) : option Z :=
  let signed := match s with
                | String "-" r => (-1, r)
                | String "+" r => (1, r)
                | _ => (1, s)
                end in
  if (snd signed =? "")%string then None
  else match digits_value (snd signed) 0 with
       | Some n => if (int_min <=? fst signed * n) && (fst signed * n <=? int_max)
                   then Some (fst signed * n) else None
       | None => None
       end.

Definition validV8Port (port : string) : bool :=
  match Atoi port with Some n => (0 <? n) && (n <=? 65535) | None => false end.

(** The functions of net/netip and net/url used here besides those of [GoNet]. *)
Class GoNetip := {
  ParseAddr : string -> option Addr;
  AddrString : Addr -> string;
  Port : URL -> string;
}.

Section V8.
Context {U : GoUnicode} {N : GoNet} {NI : GoNetip}.

Definition parseV8Literal (host : string) : option Addr := Unmap <$> ParseAddr host.

Definition validV8URLPort (u : option URL) : bool :=
  match u with
  | None => false
  | Some u =>
      if HasSuffix (Host u) ":" then false
      else (Port u =? "")%string || validV8Port (Port u)
  end.

Definition ParseV8PushURL (raw : string) (policy : V8NetworkSafetyPolicy) : V8Error + URL :=
  match url_Parse raw with
  | inl _ => inl ErrV8EndpointInvalid
  | inr u =>
      if negb (EqualFold (Scheme u) "http") && negb (EqualFold (Scheme u) "https")
      then inl V8UnsupportedScheme
      else match RejectInlineCredentials (Some u) with
      | Some _ => inl V8InlineCredentials
      | None =>
          let host := Hostname u in
          if (host =? "")%string || negb (validV8URLPort (Some u)) then inl ErrV8EndpointInvalid
          else match parseV8Literal host with
               | Some addr => if allowsAddr policy addr then inr u else inl ErrV8AddressProhibited
               | None => inr u
               end
      end
  end.

Definition v8NetworkMatches (network : string) (addr : Addr) : bool :=
  if (network =? "tcp4")%string then Is4 addr
  else if (network =? "tcp6")%string then Is6 addr
  else true.

(** What [ctx.Err()] reports at each of its readings ([ctx_nil]: a nil context);
    a resolver or dialer error is one of the context's or another. *)
Inductive Cause := Canceled | DeadlineExceeded.

Record Ctx := {
  ctx_nil : bool;
  err_before_lookup : option Cause;
  err_lookup_failed : option Cause;
  err_after_lookup : option Cause;
  err_before_dial : option Cause;
  err_dial_failed : option Cause;
  err_after_dial : option Cause;
}.

Definition cause_error (c : Cause) : V8Error :=
  match c with Canceled => V8Canceled | DeadlineExceeded => V8DeadlineExceeded end.

(** [boundedContextError], with what the context reports and the kind of [err]. *)
Definition boundedContextError (reported kind : option Cause) : option V8Error :=
  match reported with
  | Some c => Some (cause_error c)
  | None => cause_error <$> kind
  end.

Context {Conn : Type} (LookupIPAddr : string -> option Cause + list IP)
        (DialContext : string -> string -> option Cause + option Conn).

(** The loop of [resolveV8] over the answers. *)
Fixpoint select_answer (policy : V8NetworkSafetyPolicy) (network : string) (ips : list IP)
    (selected : option Addr) : V8Error + option Addr :=
  match ips with
  | [] => inr selected
  | candidate :: r =>
      match AddrFromSlice (bytes candidate) with
      | None => inl ErrV8AddressProhibited
      | Some addr =>
          if negb (allowsAddr policy (Unmap addr)) then inl ErrV8AddressProhibited
          else
            let addr := Unmap addr in
            select_answer policy network r
              (match selected with
               | Some s => Some s
               | None => if v8NetworkMatches network addr then Some addr else None
               end)
      end
  end.

Definition resolveV8 (ctx : Ctx) (host : string) (policy : V8NetworkSafetyPolicy) (network : string) :
    V8Error + Addr :=
  if ctx_nil ctx then inl ErrV8EndpointInvalid
  else match err_before_lookup ctx with
  | Some c => inl (cause_error c)
  | None =>
      match LookupIPAddr host with
      | inl kind =>
          match boundedContextError (err_lookup_failed ctx) kind with
          | Some e => inl e
          | None => inl ErrV8ResolutionFailed
          end
      | inr ips =>
          match err_after_lookup ctx with
          | Some c => inl (cause_error c)
          | None =>
              if (length ips =? 0)%nat then inl ErrV8ResolutionFailed
              else match select_answer policy network ips None with
                   | inl e => inl e
                   | inr None => inl ErrV8ResolutionFailed
                   | inr (Some addr) => inr addr
                   end
          end
      end
  end.

Definition ResolveV8PushURL (ctx : Ctx) (u : option URL) (policy : V8NetworkSafetyPolicy) : option V8Error :=
  match u with
  | None => Some ErrV8EndpointInvalid
  | Some u =>
      if ctx_nil ctx then Some ErrV8EndpointInvalid
      else if negb (EqualFold (Scheme u) "http") && negb (EqualFold (Scheme u) "https")
      then Some V8UnsupportedScheme
      else match RejectInlineCredentials (Some u) with
      | Some _ => Some V8InlineCredentials
      | None =>
          let host := Hostname u in
          if (host =? "")%string || negb (validV8URLPort (Some u)) then Some ErrV8EndpointInvalid
          else match parseV8Literal host with
               | Some addr => if allowsAddr policy addr then None else Some ErrV8AddressProhibited
               | None =>
                   match resolveV8 ctx host policy "tcp" with
                   | inl e => Some e
                   | inr _ => None
                   end
               end
      end
  end.

(** The calls the dialer makes: a connection to an address, its close. *)
Inductive V8Call :=
| V8Dial (network addr : string)
| V8Close.

Definition select_target (ctx : Ctx) (policy : V8NetworkSafetyPolicy) (network host : string) :
    V8Error + Addr :=
  match parseV8Literal host with
  | Some literal =>
      if negb (allowsAddr policy literal) || negb (v8NetworkMatches network literal)
      then inl ErrV8AddressProhibited else inr literal
  | None => resolveV8 ctx host policy network
  end.

Definition V8SafeDialContext (policy : V8NetworkSafetyPolicy) (ctx : Ctx) (network address : string) :
    list V8Call * (V8Error + Conn) :=
  if ctx_nil ctx then ([], inl ErrV8EndpointInvalid)
  else if negb (network =? "tcp")%string && negb (network =? "tcp4")%string &&
          negb (network =? "tcp6")%string then ([], inl ErrV8EndpointInvalid)
  else match SplitHostPort address with
  | inl _ => ([], inl ErrV8EndpointInvalid)
  | inr (host, port) =>
      if (host =? "")%string || negb (validV8Port port) then ([], inl ErrV8EndpointInvalid)
      else match select_target ctx policy network host with
      | inl e => ([], inl e)
      | inr selected =>
          match err_before_dial ctx with
          | Some c => ([], inl (cause_error c))
          | None =>
              let target := JoinHostPort (AddrString selected) port in
              match DialContext network target with
              | inl kind =>
                  ([V8Dial network target],
                   match boundedContextError (err_dial_failed ctx) kind with
                   | Some e => inl e
                   | None => inl ErrV8ConnectionFailed
                   end)
              | inr None => ([V8Dial network target], inl ErrV8ConnectionFailed)
              | inr (Some conn) =>
                  match err_after_dial ctx with
                  | Some c => ([V8Dial network target; V8Close], inl (cause_error c))
                  | None => ([V8Dial network target], inr conn)
                  end
              end
          end
      end
  end.

Definition BlockV8Redirects : option V8Error := Some ErrV8RedirectBlocked.
End V8.

(** ** Lemmas: prefixes as ranges *)

Definition prefix_block (n w bits : Z) : Z * Z :=
  let size := 2 ^ (w - bits) in (n / size * size, n / size * size + size - 1).

Definition range4 (p : Prefix) : option (Z * Z) :=
  match prefix_ip p with Addr4 n => Some (prefix_block n 32 (prefix_bits p)) | _ => None end.
Definition range6 (p : Prefix) : option (Z * Z) :=
  match prefix_ip p with Addr6 n _ => Some (prefix_block n 128 (prefix_bits p)) | _ => None end.

Definition prefix_wf (p : Prefix) : bool :=
  match prefix_ip p with
  | Addr4 _ => (0 <=? prefix_bits p) && (prefix_bits p <=? 32)
  | Addr6 _ _ => (0 <=? prefix_bits p) && (prefix_bits p <=? 128)
  end.

Lemma shiftr_block n v w bits :
  bits <= w -> (Z.shiftr n (w - bits) =? Z.shiftr v (w - bits)) = between v (prefix_block n w bits).
Proof.
  intros Hb. rewrite !Z.shiftr_div_pow2 by lia. unfold between, prefix_block. cbn [fst snd].
  assert (HP : 0 < 2 ^ (w - bits)) by (apply Z.pow_pos_nonneg; lia).
  generalize dependent (2 ^ (w - bits)). intros P HP. generalize (n / P). intros q.
  pose proof (Z.div_mod v P ltac:(lia)) as Hdm. pose proof (Z.mod_pos_bound v P HP) as Hm.
  apply eq_true_iff_eq. rewrite Z.eqb_eq, andb_true_iff, !Z.leb_le. split.
  - intros ->. lia.
  - intros ?. nia.
Qed.

(** An unmapped address without a zone. *)
Definition plain (x : Addr) : Prop := addr_wf x /\ Unmap x = x /\ Zone x = "".

Lemma prefix_Contains_class p x :
  prefix_wf p = true -> plain x ->
  prefix_Contains p x = in_class (option_list (range4 p)) (option_list (range6 p)) x.
Proof.
  unfold prefix_wf, prefix_Contains, in_class, range4, range6. intros Hp (_ & -> & Hz).
  destruct (prefix_ip p) as [n|n zn], x as [v|v z]; cbn [option_list option_rect existsb Zone] in *; subst; try done;
    rewrite shiftr_block by lia; by rewrite orb_false_r.
Qed.

Lemma prefixContains_class ps x :
  forallb prefix_wf ps = true -> plain x ->
  prefixContains ps x = in_class (omap range4 ps) (omap range6 ps) x.
Proof.
  intros Hps Hx. unfold prefixContains. induction ps as [|p ps IH]; cbn [existsb forallb] in *.
  - unfold in_class. by destruct (Unmap x).
  - apply andb_true_iff in Hps as [Hp Hps]. rewrite IH, prefix_Contains_class by done.
    rewrite <-in_class_app. cbn. by destruct (range4 p), (range6 p).
Qed.

(** ** The classes of the policy *)

(** What no policy allows. *)
Definition v8meta4 : list (Z * Z) :=
  [one (ip4 169 254 169 254); (ip4 169 254 170 0, ip4 169 254 170 255); one (ip4 100 100 100 200)].
Definition v8meta6 : list (Z * Z) :=
  [one (0xfd000ec2 * 2 ^ 96 + 0x254); one (0xfe80 * 2 ^ 112 + 0xa9fea9fe)].
Definition never4 : list (Z * Z) := v8meta4 ++ [one 0] ++ linklocal4 ++ multicast4.
Definition never6 : list (Z * Z) := v8meta6 ++ [one 0] ++ linklocal6 ++ multicast6.

(** Loopback and the private ranges. *)
Definition local4 : list (Z * Z) := loopback4 ++ private4.
Definition local6 : list (Z * Z) := loopback6 ++ private6.

(** The special-purpose ranges. *)
Definition reserved4 : list (Z * Z) :=
  [ (ip4 0 0 0 0, ip4 0 255 255 255); (ip4 192 0 0 0, ip4 192 0 0 255);
    (ip4 192 0 2 0, ip4 192 0 2 255); (ip4 192 88 99 0, ip4 192 88 99 255);
    (ip4 198 18 0 0, ip4 198 19 255 255); (ip4 198 51 100 0, ip4 198 51 100 255);
    (ip4 203 0 113 0, ip4 203 0 113 255); (ip4 240 0 0 0, ip4 255 255 255 255) ].
Definition reserved6 : list (Z * Z) :=
  [ (0, 2 ^ 32 - 1); block6 0x64ff9b0000000000000000 96; block6 0x100000000000000 64;
    block6 0x64ff9b0001 48; block6 0x100080 23; block6 0x20010db8 32; block6 0x2002 16;
    block6 0x3fff0 20; block6 0x5f00 16 ].

Lemma metadata_prefixes x :
  plain x -> prefixContains v8MetadataPrefixes x = in_class v8meta4 v8meta6 x.
Proof. intros Hx. rewrite prefixContains_class by done. f_equal; vm_compute; reflexivity. Qed.

Lemma reserved_prefixes x :
  plain x -> prefixContains v8ReservedPrefixes x = in_class reserved4 reserved6 x.
Proof. intros Hx. rewrite prefixContains_class by done. f_equal; vm_compute; reflexivity. Qed.

Lemma cgnat_prefix x : plain x -> prefix_Contains v8CGNATPrefix x = in_class cgnat4 [] x.
Proof. intros Hx. rewrite prefix_Contains_class by done. f_equal; vm_compute; reflexivity. Qed.

(** The carrier-grade block meets none of the other classes but the metadata one. *)
Lemma cgnat_disjoint x :
  plain x -> in_class cgnat4 [] x = true ->
  in_class local4 local6 x = false /\ in_class reserved4 reserved6 x = false.
Proof.
  intros (_ & Hu & _). unfold in_class. rewrite Hu. destruct x as [v|v z]; [|done].
  unfold between, cgnat4, local4, reserved4, loopback4, private4, one.
  cbn [app existsb fst snd]. cbv [ip4 be foldl]. lia.
Qed.

Lemma netip_hard x :
  plain x ->
  netip.IsUnspecified x || netip.IsLinkLocalUnicast x || netip.IsLinkLocalMulticast x ||
  netip.IsInterfaceLocalMulticast x || netip.IsMulticast x =
  in_class ([one 0] ++ linklocal4 ++ multicast4) ([one 0] ++ linklocal6 ++ multicast6) x.
Proof.
  intros (Hw & Hu & Hz). pose proof (linklocal_multicast x Hw) as Hlm.
  pose proof (interface_multicast x Hw) as Him.
  rewrite !in_class_app, <-(IsLinkLocalUnicast_class x Hw), <-(IsMulticast_class x Hw).
  assert (H0 : netip.IsUnspecified x = in_class [one 0] [one 0] x).
  { unfold netip.IsUnspecified, in_class. rewrite Hu. unfold between, one. cbn [existsb fst snd].
    apply eq_true_iff_eq. rewrite orb_true_iff, !bool_decide_eq_true.
    destruct x as [v|v z]; cbn [Zone] in Hz; subst; rewrite orb_false_r, andb_true_iff, !Z.leb_le; split;
      try (intros [?|?]; simplify_eq; lia); intros ?; [left|right]; f_equal; lia. }
  rewrite H0. destruct (netip.IsMulticast x), (netip.IsLinkLocalMulticast x), (netip.IsInterfaceLocalMulticast x);
    try discriminate (Hlm eq_refl); try discriminate (Him eq_refl);
    repeat match goal with |- context [in_class ?a ?b x] => destruct (in_class a b x) end;
    repeat match goal with |- context [netip.IsLinkLocalUnicast x] => destruct (netip.IsLinkLocalUnicast x) end;
    reflexivity.
Qed.

Lemma allowsAddr_class p x :
  plain x ->
  allowsAddr p x =
  negb (in_class never4 never6 x) && (negb (in_class cgnat4 [] x) || AllowCGNAT p) &&
  (if in_class local4 local6 x then AllowPrivateNetworks p else negb (in_class reserved4 reserved6 x)).
Proof.
  intros Hx. pose proof (cgnat_disjoint x Hx) as Hdis. pose proof (netip_hard x Hx) as Hhard.
  unfold allowsAddr, never4, never6. rewrite in_class_app, <-(metadata_prefixes x Hx), <-Hhard.
  rewrite <-(cgnat_prefix x Hx), <-(reserved_prefixes x Hx) in *. unfold local4, local6 in *.
  rewrite in_class_app in *. destruct Hx as (Hw & Hu & Hz).
  rewrite <-(IsLoopback_class x Hw), <-(IsPrivate_class x Hw) in *. rewrite Hz, Hu. cbn [String.eqb negb].
  destruct (prefixContains v8MetadataPrefixes x); [done|].
  destruct (_ || netip.IsMulticast x); [done|].
  destruct (prefix_Contains v8CGNATPrefix x).
  - destruct Hdis as [-> ->]; [done|]. by destruct (AllowCGNAT p).
  - clear Hdis. cbn [negb andb orb]. destruct (_ || netip.IsPrivate x); [done|].
    by destruct (prefixContains v8ReservedPrefixes x).
Qed.

Lemma addr_of_plain ip x : ip_wf ip -> addr_of ip = Some x -> plain x.
Proof.
  intros Hw Ha. destruct (addr_of_wf _ _ Hw Ha). split; [done|]. split; [done|].
  by eapply zone_empty.
Qed.

Lemma ValidateIP_class p ip x :
  ip_wf ip -> addr_of ip = Some x ->
  ValidateIP p ip = if allowsAddr p x then None else Some ErrV8AddressProhibited.
Proof.
  intros Hw Ha. unfold ValidateIP. destruct ip as [l|]; [|done]. unfold addr_of in Ha.
  change (bytes (Some l)) with l. by destruct (AddrFromSlice l); simplify_eq/=.
Qed.

(** ** Theorems *)

(** A policy admits an address exactly when it is outside the metadata,
    unspecified, link-local and multicast ranges, whatever its options;
    in the carrier-grade block only with [AllowCGNAT]; a loopback or private
    address only with [AllowPrivateNetworks]; and any other address only
    outside the special-purpose ranges. *)
Theorem ValidateIP_exact p ip x :
  ip_wf ip -> addr_of ip = Some x ->
  (ValidateIP p ip = None <->
   in_class never4 never6 x = false /\
   (in_class cgnat4 [] x = true -> AllowCGNAT p = true) /\
   (if in_class local4 local6 x then AllowPrivateNetworks p = true
    else in_class reserved4 reserved6 x = false)) /\
  (ValidateIP p ip = None \/ ValidateIP p ip = Some ErrV8AddressProhibited).
Proof.
  intros Hw Ha. rewrite (ValidateIP_class p ip x Hw Ha).
  rewrite (allowsAddr_class p x) by (by eapply addr_of_plain).
  destruct (in_class never4 never6 x), (in_class cgnat4 [] x), (AllowCGNAT p),
    (in_class local4 local6 x), (AllowPrivateNetworks p), (in_class reserved4 reserved6 x);
    cbn [negb andb orb]; (split; [|auto]); intuition congruence.
Qed.

Definition strict : V8NetworkSafetyPolicy := {| AllowPrivateNetworks := false; AllowCGNAT := false |}.

Lemma ValidateIP_exact_witness :
  (ValidateIP strict (Some [198; 18; 0; 1]) = None <->
   in_class never4 never6 (Addr4 (ip4 198 18 0 1)) = false /\
   (in_class cgnat4 [] (Addr4 (ip4 198 18 0 1)) = true -> AllowCGNAT strict = true) /\
   (if in_class local4 local6 (Addr4 (ip4 198 18 0 1)) then AllowPrivateNetworks strict = true
    else in_class reserved4 reserved6 (Addr4 (ip4 198 18 0 1)) = false)) /\
  (ValidateIP strict (Some [198; 18; 0; 1]) = None \/
   ValidateIP strict (Some [198; 18; 0; 1]) = Some ErrV8AddressProhibited).
Proof. apply ValidateIP_exact; [by apply ip_wf_eval|reflexivity]. Defined.

(** The strict policy of the push exporters refines the guard of the other
    clients: an address it admits is admitted by every state of that guard. *)
Theorem strict_policy_refines_guard g ip :
  ip_wf ip -> ValidateIP strict ip = None -> IsPrivateOrReserved g ip = false.
Proof.
  intros Hw. destruct (addr_of ip) as [x|] eqn:Ha.
  - rewrite (ValidateIP_class _ _ x Hw Ha), (allowsAddr_class _ x) by (by eapply addr_of_plain).
    rewrite (IsPrivateOrReserved_class g ip x Hw Ha).
    unfold hard4, hard6, soft4, never4, never6, local4, local6, strict. cbn [AllowPrivateNetworks AllowCGNAT].
    rewrite <-(app_nil_r private6) at 2. rewrite !in_class_app.
    assert (Hmeta : in_class metadata4 metadata6 x = true -> in_class v8meta4 v8meta6 x = true).
    { unfold in_class. destruct (Unmap x) as [v|v z]; unfold between, metadata4, metadata6, v8meta4, v8meta6, one;
        cbn [existsb fst snd]; cbv [ip4 be foldl]; lia. }
    assert (Hcg : in_class (if cgnatAllowed g then [] else cgnat4) [] x = true -> in_class cgnat4 [] x = true).
    { destruct (cgnatAllowed g); [|done]. unfold in_class. by destruct (Unmap x). }
    destruct (in_class v8meta4 v8meta6 x); [done|].
    destruct (in_class metadata4 metadata6 x); [by specialize (Hmeta eq_refl)|].
    destruct (in_class cgnat4 [] x); [by rewrite andb_false_r|].
    destruct (in_class (if cgnatAllowed g then [] else cgnat4) [] x); [by specialize (Hcg eq_refl)|].
    destruct (in_class [one 0] [one 0] x), (in_class linklocal4 linklocal6 x), (in_class multicast4 multicast6 x),
      (in_class loopback4 loopback6 x), (in_class private4 private6 x); try done.
    intros _. cbn. by rewrite andb_false_r.
  - destruct Hw as (l & -> & [Hl|Hl] & _); unfold addr_of, AddrFromSlice in Ha; by rewrite Hl in Ha.
Qed.

Lemma strict_policy_refines_guard_witness :
  ip_wf (Some [93; 184; 216; 34]) /\
  IsPrivateOrReserved example_guard (Some [93; 184; 216; 34]) = false.
Proof.
  split; [by apply ip_wf_eval|].
  apply strict_policy_refines_guard; [by apply ip_wf_eval|vm_compute; reflexivity].
Defined.

Section Dialer.
Context {U : GoUnicode} {N : GoNet} {NI : GoNetip} {Conn : Type}
        (LookupIPAddr : string -> option Cause + list IP)
        (DialContext : string -> string -> option Cause + option Conn)
        (policy : V8NetworkSafetyPolicy).

Definition answer_ok (ip : IP) : Prop :=
  exists a, AddrFromSlice (bytes ip) = Some a /\ allowsAddr policy (Unmap a) = true.

Definition answer_addr (ip : IP) (x : Addr) : Prop :=
  exists a, AddrFromSlice (bytes ip) = Some a /\ x = Unmap a.

Lemma select_answer_ok network ips : forall sel r,
  select_answer policy network ips sel = inr r ->
  Forall answer_ok ips /\
  match sel with
  | Some _ => r = sel
  | None => match r with
            | None => True
            | Some x => v8NetworkMatches network x = true /\ allowsAddr policy x = true /\
                        Exists (fun ip => answer_addr ip x) ips
            end
  end.
Proof.
  induction ips as [|ip ips IH]; intros sel r; cbn [select_answer].
  - intros [= <-]. split; [constructor|by destruct sel].
  - destruct (AddrFromSlice (bytes ip)) as [a|] eqn:Ha; [|done].
    destruct (allowsAddr policy (Unmap a)) eqn:Hal; cbn [negb]; [|done].
    intros [Hall Hr]%IH. split; [by constructor; [exists a|]|].
    destruct sel as [s|]; [done|]. destruct (v8NetworkMatches network (Unmap a)) eqn:Hm.
    + subst r. split; [done|]. split; [done|]. left. by exists a.
    + destruct r as [x|]; [|done]. destruct Hr as (? & ? & ?). split; [done|]. split; [done|]. by right.
Qed.

Lemma resolveV8_ok ctx host network x :
  resolveV8 LookupIPAddr ctx host policy network = inr x ->
  v8NetworkMatches network x = true /\ allowsAddr policy x = true /\
  exists ips, LookupIPAddr host = inr ips /\ Forall answer_ok ips /\ Exists (fun ip => answer_addr ip x) ips.
Proof.
  unfold resolveV8. destruct (ctx_nil ctx); [done|]. destruct (err_before_lookup ctx); [done|].
  destruct (LookupIPAddr host) as [kind|ips]; [by destruct (boundedContextError _ _)|].
  destruct (err_after_lookup ctx); [done|]. destruct (length ips =? 0)%nat; [done|].
  destruct (select_answer policy network ips None) as [e|[y|]] eqn:Hs; [done| |done].
  intros [= <-]. apply select_answer_ok in Hs as [Hall (Hm & Hal & Hex)]. eauto 10.
Qed.

(** Where an admitted target comes from. *)
Definition target_of (host : string) (x : Addr) : Prop :=
  match parseV8Literal host with
  | Some literal => x = literal
  | None => exists ips, LookupIPAddr host = inr ips /\ Forall answer_ok ips /\
              Exists (fun ip => answer_addr ip x) ips
  end.

Lemma select_target_ok ctx network host x :
  select_target LookupIPAddr ctx policy network host = inr x ->
  allowsAddr policy x = true /\ v8NetworkMatches network x = true /\ target_of host x.
Proof.
  unfold select_target, target_of. destruct (parseV8Literal host) as [lit|].
  - destruct (allowsAddr policy lit) eqn:Ha, (v8NetworkMatches network lit) eqn:Hm; try done.
    by intros [= <-].
  - intros (? & ? & ?)%resolveV8_ok. auto.
Qed.

Definition is_dial (c : V8Call) : bool := match c with V8Dial _ _ => true | V8Close => false end.

(** A connection to an admitted target, printed from the address checked. *)
Definition dial_ok (network address : string) (c : V8Call) : Prop :=
  match c with
  | V8Dial n a =>
      n = network /\ exists host port x, SplitHostPort address = inr (host, port) /\
        validV8Port port = true /\ a = JoinHostPort (AddrString x) port /\
        allowsAddr policy x = true /\ v8NetworkMatches network x = true /\ target_of host x
  | V8Close => True
  end.

(** The guarded dialer of the exporters connects at most once, only to an
    address its policy admits and of the family of the network, printed from the
    address it checked: the literal, or an answer of a lookup all of whose answers
    the policy admits; when a connection is made and the call fails, the
    connection is closed. *)
Theorem V8SafeDialContext_sound ctx network address :
  let '(calls, result) := V8SafeDialContext LookupIPAddr DialContext policy ctx network address in
  Forall (dial_ok network address) calls /\
  (length (List.filter is_dial calls) <= 1)%nat /\
  match result with
  | inr conn => exists n a, calls = [V8Dial n a] /\ DialContext n a = inr (Some conn)
  | inl _ => forall n a conn, V8Dial n a ∈ calls -> DialContext n a = inr (Some conn) -> V8Close ∈ calls
  end.
Proof.
  assert (H0 : Forall (dial_ok network address) [] /\ (length (List.filter is_dial []) <= 1)%nat /\
    forall n a (conn : Conn), V8Dial n a ∈ [] -> DialContext n a = inr (Some conn) -> V8Close ∈ []).
  { split; [constructor|]. split; [simpl; lia|]. by intros ??? ?%elem_of_nil. }
  unfold V8SafeDialContext. destruct (ctx_nil ctx); [exact H0|].
  destruct (_ && negb (network =? "tcp6")%string); [exact H0|].
  destruct (SplitHostPort address) as [e|[host port]] eqn:Hsp; [exact H0|].
  destruct ((host =? "")%string || negb (validV8Port port)) eqn:Hv; [exact H0|].
  apply orb_false_iff in Hv as [_ Hport%negb_false_iff].
  destruct (select_target LookupIPAddr ctx policy network host) as [e|x] eqn:Hs; [exact H0|].
  apply select_target_ok in Hs as (Hal & Hm & Ht).
  destruct (err_before_dial ctx); [exact H0|].
  assert (Hd : dial_ok network address (V8Dial network (JoinHostPort (AddrString x) port)))
    by (split; [done|]; exists host, port, x; split_and!; done).
  destruct (DialContext network (JoinHostPort (AddrString x) port)) as [kind|[conn|]] eqn:Hdc.
  - split; [by constructor|]. split; [simpl; lia|].
    destruct (boundedContextError _ _); intros n a c [= -> ->]%list_elem_of_singleton; congruence.
  - destruct (err_after_dial ctx).
    + split; [constructor; [done|by constructor]|]. split; [simpl; lia|].
      intros. by right; left.
    + split; [by constructor|]. split; [simpl; lia|]. by eexists _, _.
  - split; [by constructor|]. split; [simpl; lia|].
    intros n a c [= -> ->]%list_elem_of_singleton. congruence.
Qed.
End Dialer.

(** An endpoint that activates has a target to connect to, and the other way
    round for an endpoint whose shape is right. *)
Section Activation.
Context {U : GoUnicode} {N : GoNet} {NI : GoNetip}
        (LookupIPAddr : string -> option Cause + list IP).

Lemma activation_target ctx u policy :
  ResolveV8PushURL LookupIPAddr ctx (Some u) policy = None ->
  exists x, select_target LookupIPAddr ctx policy "tcp" (Hostname u) = inr x.
Proof.
  unfold ResolveV8PushURL, select_target. destruct (ctx_nil ctx); [done|].
  destruct (_ && negb (EqualFold (Scheme u) "https")); [done|].
  destruct (RejectInlineCredentials (Some u)); [done|].
  destruct (_ || negb (validV8URLPort (Some u))); [done|].
  destruct (parseV8Literal (Hostname u)) as [lit|].
  - destruct (allowsAddr policy lit); [|done]. intros _. by exists lit.
  - destruct (resolveV8 _ _ _ _ _) as [e|x]; [done|]. intros _. by exists x.
Qed.
End Activation.

Example v8_cases :
  map (ValidateIP {| AllowPrivateNetworks := true; AllowCGNAT := true |})
    [IPv4 127 0 0 1; IPv4 10 1 2 3; IPv4 100 64 0 1; IPv4 100 100 100 200; IPv4 169 254 169 254;
     IPv4 198 18 0 1; IPv4 8 8 8 8] =
  [None; None; None; Some ErrV8AddressProhibited; Some ErrV8AddressProhibited;
   Some ErrV8AddressProhibited; None].
Proof. vm_compute. reflexivity. Qed.

Example ports : map validV8Port ["443"; "+80"; "0"; "65536"; ""; "8o"]%string =
  [true; true; false; false; false; false].
Proof. reflexivity. Qed.
