(* ===== verification/Snapshot.v ===== *)
(** * Drift snapshots (internal/watcher/snapshot.go)

    The state of an installed directory as the rescan remembers it: the hash of
    its contents, the hashes of dependency manifests and configuration files,
    and the network endpoints its code names.  A tree is what lstat, readdir and
    read show at the time of the walk; SHA-256, the URL parser and
    [net.ParseIP] are parameters.  The content hash is proved to bind names and
    contents as long as no name has a line break, and shown not to do so when
    one has. *)
From stdpp Require Import base list gmap strings pretty sorting.
From Stdlib Require Import ZArith Lia Ascii.
From S2P Require Import Prelude GoStrings Regexp NetAddr Netguard.

Local Open Scope string_scope.

(** ** Strings *)

Definition byte_le (a b : string) : Prop := String.leb a b = true.
#[export] Instance byte_le_dec : RelDecision byte_le.
Proof. intros a b. unfold byte_le. apply _. Defined.

(** [sort.Strings] *)
Definition sort_Strings (l : list string) : list string := merge_sort byte_le l.

Definition NEWLINE : ascii := ascii_of_nat 10.

(** [filepath.Ext] of a name without slashes. *)
Fixpoint Ext (name : string) : string :=
  match name with
  | "" => ""
  | String c r => if negb (Ext r =? "") then Ext r else if (byte_of c =? 46)%nat then name else ""
  end.

(** ** Tables *)

Definition dependencyFiles : list string :=
  ["requirements.txt"; "package.json"; "package-lock.json"; "pyproject.toml"; "go.mod"; "go.sum";
   "Gemfile"; "Gemfile.lock"; "Cargo.toml"; "Cargo.lock"].

Definition configFiles : list string :=
  ["skill.yaml"; "skill.yml"; "mcp.json"; "mcp.yaml"; "config.yaml"; "config.yml"; "config.json";
   "manifest.json"; ".env"; ".env.local"].

Definition codeExtensions : list string :=
  [".py"; ".js"; ".ts"; ".go"; ".rb"; ".java"; ".rs"; ".php"; ".sh"; ".bash"].

Definition ignoredHostnames : list string :=
  ["localhost"; "example.com"; "www.example.com"; "127.0.0.1"; "::1"; "0.0.0.0"].

Definition skippedDirs : list string := [".git"; "node_modules"; "__pycache__"; ".venv"; "venv"].

Definition one_of (chars : string) (c : ascii) : bool := negb (sall (fun d => negb (Ascii.eqb c d)) chars).

Definition url_byte (c : ascii) : bool :=
  byte_in 97 122 c || byte_in 65 90 c || byte_in 48 57 c || one_of "-._~:/?#[]@!$&'()*+,;=%" c.

Definition digit : ascii -> bool := byte_in 48 57.
Definition octet : re := Upto digit 3.
Definition dot_octet : re := Seq (Lit "." "") octet.

Definition urlPattern : re :=
  Alt (Seq (Lit "h" "ttp") (Seq (Opt (Lit "s" "")) (Seq (Lit ":" "//") (Plus url_byte))))
      (Seq Boundary (Seq octet (Seq dot_octet (Seq dot_octet (Seq dot_octet
         (Seq (Opt (Seq (Lit ":" "") (Upto digit 5))) Boundary)))))).

(** ** Trees *)

(** What opening and reading a file does; a FIFO without a writer blocks. *)
Inductive Read := ReadOk (data : string) | ReadFails | ReadBlocks.

(** A directory lists its children in the order of their names; [None] is a
    directory that cannot be listed. *)
Inductive node :=
| Plain (r : Read)
| Symlink
| Directory (listing : option (list (string * node)))
| LstatFails.

Record TargetSnapshot := {
  ContentHash : string;
  DependencyHashes : gmap string string;
  ConfigHashes : gmap string string;
  NetworkEndpoints : list string;
}.

Record Visited := { v_rel : string; v_base : string; v_read : Read }.

Definition maxScanSize : Z := 512 * 1024.

Definition trimmed (c : ascii) : bool := one_of ".,;:')" c || (byte_of c =? 34)%nat.

Section Snapshot.
Context {U : GoUnicode} {N : GoNet}.
Context (sha256 : string -> string).

Definition hash_of (data : string) : string := hex_encode (sha256 data).

Definition isIgnoredEndpoint (raw : string) : bool :=
  match url_Parse raw with
  | inl _ => false
  | inr parsed =>
      if (Host parsed =? "")%string then false
      else match User parsed with
           | Some _ => false
           | None =>
               let host := ToLower (Hostname parsed) in
               bool_decide (host ∈ ignoredHostnames) ||
               (match ParseIP host with None => false | Some ip => IsLoopback (Some ip) end)
           end
  end.

(** The loop of [extractEndpoints]: [seen] has what [result] has. *)
Fixpoint collect_endpoints (found : list string) (result : list string) : list string :=
  match found with
  | [] => result
  | m :: rest =>
      let normalized := trim_right trimmed m in
      if isIgnoredEndpoint normalized || bool_decide (normalized ∈ result) then collect_endpoints rest result
      else collect_endpoints rest (result ++ [normalized])%list
  end.

Definition scanned_part (data : string) : string :=
  if (maxScanSize <? slen data)%Z then take_bytes (Z.to_nat maxScanSize) data else data.

Definition extractEndpoints (data : string) : list string :=
  collect_endpoints (FindAllString urlPattern (scanned_part data)) [].

(** [outside] says whether the resolved path of a directory leaves the resolved
    root. *)
Context (outside : string -> bool).

Definition join_rel (rel name : string) : string := if (rel =? ".")%string then name else rel ++ "/" ++ name.

Definition skipDir (rel base : string) : bool :=
  bool_decide (base ∈ skippedDirs) || (negb (rel =? ".")%string && outside rel).

(** The files [filepath.Walk] hands over that are neither directories nor links. *)
Fixpoint walk (rel base : string) (n : node) : list Visited :=
  match n with
  | Plain r => [ {| v_rel := rel; v_base := base; v_read := r |} ]
  | Symlink | LstatFails | Directory None => []
  | Directory (Some listing) =>
      if skipDir rel base then []
      else (fix children (l : list (string * node)) : list Visited :=
              match l with
              | [] => []
              | (name, m) :: l' => (walk (join_rel rel name) name m ++ children l')%list
              end) listing
  end.

(** The variables the callback adds to. *)
Record Walked := {
  allHashes : list string;
  w_deps : gmap string string;
  w_cfgs : gmap string string;
  endpointSet : gset string;
}.

Definition entry_of (rel h : string) : string := rel ++ ":" ++ h.

(** The callback on a file; [None] when it never returns. *)
Definition visit_file (acc : Walked) (f : Visited) : option Walked :=
  match v_read f with
  | ReadBlocks => None
  | ReadFails => Some acc
  | ReadOk data =>
      let h := hash_of data in
      Some {| allHashes := allHashes acc ++ [entry_of (v_rel f) h];
              w_deps := if bool_decide (v_base f ∈ dependencyFiles) then <[v_rel f := h]> (w_deps acc) else w_deps acc;
              w_cfgs := if bool_decide (v_base f ∈ configFiles) then <[v_rel f := h]> (w_cfgs acc) else w_cfgs acc;
              endpointSet := if bool_decide (ToLower (Ext (v_base f)) ∈ codeExtensions)
                             then endpointSet acc ∪ list_to_set (extractEndpoints data) else endpointSet acc |}
  end.

Fixpoint visit_files (acc : Walked) (fs : list Visited) : option Walked :=
  match fs with
  | [] => Some acc
  | f :: fs' => match visit_file acc f with None => None | Some acc' => visit_files acc' fs' end
  end.

Definition nothing_walked : Walked := {| allHashes := []; w_deps := ∅; w_cfgs := ∅; endpointSet := ∅ |}.

(** What is written into the overall hash. *)
Definition preimage (entries : list string) : string :=
  foldr (fun e acc => e ++ String NEWLINE acc) "" (sort_Strings entries).

(** The walk never fails, it skips what it cannot read. *)
Definition SnapshotTarget (name : string) (root : node) : option TargetSnapshot :=
  acc ← visit_files nothing_walked (walk "." name root);
  Some {| ContentHash := hash_of (preimage (allHashes acc));
          DependencyHashes := w_deps acc;
          ConfigHashes := w_cfgs acc;
          NetworkEndpoints := sort_Strings (elements (endpointSet acc)) |}.

(** ** The result of a walk *)

Definition readable (f : Visited) : option (string * string) :=
  match v_read f with ReadOk data => Some (v_rel f, data) | _ => None end.

(** Names and contents of the files that were read. *)
Definition tree_files (name : string) (root : node) : list (string * string) :=
  omap readable (walk "." name root).

Definition entries (fs : list (string * string)) : list string := (fun p => entry_of p.1 (hash_of p.2)) <$> fs.

Lemma visit_files_hashes fs : forall acc acc',
  visit_files acc fs = Some acc' -> allHashes acc' = (allHashes acc ++ entries (omap readable fs))%list.
Proof.
  induction fs as [|f fs IH]; intros acc acc' H; simpl in H; [simplify_eq; by rewrite app_nil_r|].
  destruct (visit_file acc f) as [acc1|] eqn:Hv; [|done]. rewrite (IH _ _ H).
  unfold visit_file in Hv. simpl. unfold readable at 2.
  destruct (v_read f); simplify_eq; simpl; [|done]. by rewrite <- app_assoc.
Qed.

Lemma SnapshotTarget_hash name root s :
  SnapshotTarget name root = Some s ->
  ContentHash s = hash_of (preimage (entries (tree_files name root))).
Proof.
  unfold SnapshotTarget. intros (acc & Ha & [= <-])%bind_Some. simpl.
  by rewrite (visit_files_hashes _ _ _ Ha).
Qed.

(** ** What the content hash binds *)

(** The strings a snapshot of these files puts into SHA-256. *)
Definition hashed (fs : list (string * string)) : list string := preimage (entries fs) :: (snd <$> fs).

Definition collision_free (ss : list string) : Prop :=
  forall x y, x ∈ ss -> y ∈ ss -> sha256 x = sha256 y -> x = y.

Lemma collision_free_eval ss :
  forallb (fun x => forallb (fun y => implb (sha256 x =? sha256 y) (x =? y)) ss) ss = true -> collision_free ss.
Proof.
  rewrite forallb_forall. intros H x y Hx%list_elem_of_In Hy%list_elem_of_In Heq.
  specialize (H x Hx). rewrite forallb_forall in H. specialize (H y Hy).
  rewrite Heq, String.eqb_refl in H. by apply String.eqb_eq.
Qed.

Lemma hash_of_inj ss x y : collision_free ss -> x ∈ ss -> y ∈ ss -> hash_of x = hash_of y -> x = y.
Proof. intros Hc Hx Hy ?%hex_encode_inj. by apply Hc. Qed.

Lemma hex_encode_one_line s : avoids NEWLINE (hex_encode s) = true.
Proof.
  induction s as [|c s IH]; [done|]. unfold avoids in *. cbn [hex_encode sall]. rewrite IH.
  by destruct c as [[] [] [] [] [] [] [] []].
Qed.

Lemma hex_encode_no_dot s : avoids (ascii_of_nat 46) (hex_encode s) = true.
Proof.
  induction s as [|c s IH]; [done|]. unfold avoids in *. cbn [hex_encode sall]. rewrite IH.
  by destruct c as [[] [] [] [] [] [] [] []].
Qed.

Lemma entry_one_line rel h :
  avoids NEWLINE rel = true -> avoids NEWLINE h = true -> avoids NEWLINE (entry_of rel h) = true.
Proof. unfold avoids, entry_of. intros H1 H2. rewrite !sall_app, H1, H2. done. Qed.

Lemma lines_inj es es' :
  Forall (fun e => avoids NEWLINE e = true) es -> Forall (fun e => avoids NEWLINE e = true) es' ->
  foldr (fun e acc => e ++ String NEWLINE acc) "" es = foldr (fun e acc => e ++ String NEWLINE acc) "" es' ->
  es = es'.
Proof.
  intros H. revert es'. induction H as [|e es He Hes IH]; intros [|e' es'] H' Heq; [done| | |].
  - by destruct e'.
  - by destruct e.
  - apply Forall_cons_1 in H' as [He' Hes']. simpl in Heq.
    apply sep_split in Heq as [-> Heq]; [|done|done]. by rewrite (IH _ Hes' Heq).
Qed.

Lemma preimage_inj es es' :
  Forall (fun e => avoids NEWLINE e = true) es -> Forall (fun e => avoids NEWLINE e = true) es' ->
  preimage es = preimage es' -> es ≡ₚ es'.
Proof.
  intros H H' Heq. rewrite <- (merge_sort_Permutation byte_le es), <- (merge_sort_Permutation byte_le es').
  unfold preimage, sort_Strings in Heq. apply lines_inj in Heq; [by rewrite Heq| |];
    by rewrite merge_sort_Permutation.
Qed.
End Snapshot.

(** ** Properties *)

Lemma app_eq_length_r (a b c d : string) : a ++ b = c ++ d -> String.length b = String.length d -> a = c /\ b = d.
Proof.
  intros Heq Hlen. apply app_eq_length; [|done]. apply (f_equal String.length) in Heq.
  rewrite !length_sapp in Heq. unfold slen. lia.
Qed.

Lemma fmap_Permutation_inj_on {A B} (f : A -> B) (l k : list A) :
  (forall x y, x ∈ l -> y ∈ k -> f x = f y -> x = y) -> f <$> l ≡ₚ f <$> k -> l ≡ₚ k.
Proof.
  revert k. induction l as [|x l IH]; intros k Hinj Hp.
  - by apply Permutation_nil, fmap_nil_inv in Hp as ->.
  - assert (Hin : f x ∈ f <$> k) by (rewrite <- Hp; apply elem_of_cons; auto).
    apply list_elem_of_fmap in Hin as (y & Hf & Hy).
    assert (x = y) as <- by (apply Hinj; [apply elem_of_cons; auto|done|done]).
    apply list_elem_of_split in Hy as (k1 & k2 & ->).
    rewrite <- Permutation_middle. f_equiv. apply IH.
    + intros a b Ha Hb. apply Hinj; [apply elem_of_cons; auto|]. set_solver.
    + rewrite <- Permutation_middle in Hp. by apply Permutation_cons_inv in Hp.
Qed.

Section Binding.
Context {U : GoUnicode} {N : GoNet} (sha256 : string -> string).
Context (sha256_length : forall s, String.length (sha256 s) = 32).

Lemma entry_inj ss rel rel' data data' :
  collision_free sha256 ss -> data ∈ ss -> data' ∈ ss ->
  entry_of rel (hash_of sha256 data) = entry_of rel' (hash_of sha256 data') -> (rel, data) = (rel', data').
Proof.
  unfold entry_of. intros Hc Hd Hd' Heq. apply app_eq_length_r in Heq as [-> Heq].
  - injection Heq as Heq. by rewrite (hash_of_inj _ _ _ _ Hc Hd Hd' Heq).
  - unfold hash_of. rewrite !length_sapp. f_equal. apply Nat2Z.inj.
    change (slen (hex_encode (sha256 data)) = slen (hex_encode (sha256 data'))).
    rewrite !hex_encode_length. unfold slen. by rewrite !sha256_length.
Qed.

Lemma entries_one_line fs :
  Forall (fun p => avoids NEWLINE p.1 = true) fs ->
  Forall (fun e => avoids NEWLINE e = true) (entries sha256 fs).
Proof.
  intros H. apply Forall_fmap. eapply Forall_impl; [exact H|]. intros p Hp.
  by apply entry_one_line; [|apply hex_encode_one_line].
Qed.

Lemma entries_inj fs fs' ss :
  collision_free sha256 ss -> (forall d, d ∈ snd <$> fs -> d ∈ ss) -> (forall d, d ∈ snd <$> fs' -> d ∈ ss) ->
  entries sha256 fs ≡ₚ entries sha256 fs' -> fs ≡ₚ fs'.
Proof.
  intros Hc Hs Hs' Hp. refine (fmap_Permutation_inj_on _ _ _ _ Hp). intros [r d] [r' d'] Hx Hx'. simpl.
  apply (entry_inj ss); [done|apply Hs, (list_elem_of_fmap_2 snd _ _ Hx)|apply Hs', (list_elem_of_fmap_2 snd _ _ Hx')].
Qed.
(** C28: the content hash binds the tree: if no path has a line break and
    SHA-256 does not collide on what is hashed, two snapshots with the same
    content hash were taken of trees whose walks read the same files with the
    same contents.  What the walk does not read is not bound: the directories of
    tools it skips, links, and files that cannot be opened. *)
Theorem content_hash_binds_tree outside outside' name name' root root' s s' :
  SnapshotTarget sha256 outside name root = Some s ->
  SnapshotTarget sha256 outside' name' root' = Some s' ->
  let fs := tree_files outside name root in
  let fs' := tree_files outside' name' root' in
  Forall (fun p => avoids NEWLINE p.1 = true) (fs ++ fs') ->
  collision_free sha256 (hashed sha256 fs ++ hashed sha256 fs') ->
  ContentHash s = ContentHash s' ->
  fs ≡ₚ fs'.
Proof.
  intros Hs Hs' fs fs' [Hl Hl']%Forall_app Hc Heq.
  rewrite (SnapshotTarget_hash _ _ _ _ _ Hs), (SnapshotTarget_hash _ _ _ _ _ Hs') in Heq.
  eapply (entries_inj fs fs' _ Hc).
  - intros d Hd. unfold hashed. set_solver.
  - intros d Hd. unfold hashed. set_solver.
  - apply preimage_inj; [by apply entries_one_line|by apply entries_one_line|].
    eapply (hash_of_inj _ _ _ _ Hc); [unfold hashed; set_solver|unfold hashed; set_solver|exact Heq].
Qed.
End Binding.

(** A checksum in 32 bytes, for the evaluation of concrete inputs. *)
Fixpoint checksum (h : Z) (s : string) : Z :=
  match s with "" => h | String c r => checksum ((h * 257 + Z.of_nat (byte_of c) + 1) mod 2 ^ 100) r end.

Definition sum32 (s : string) : string := take_bytes 32 (pretty (checksum 0 s) ++ "................................").

Definition no_net : GoNet := {|
  ParseIP := fun _ => None; IPString := fun _ => ""; SplitHostPort := fun _ => inl "";
  JoinHostPort := fun h p => h ++ ":" ++ p; url_Parse := fun _ => inl ""; url_String := fun _ => "";
  Hostname := fun _ => "" |}.

Definition skill_tree (code : string) : node :=
  Directory (Some [("SKILL.md", Plain (ReadOk "# a skill")); ("run.py", Plain (ReadOk code))]).

(** Links, directories of tools and files that cannot be read leave no trace. *)
Definition decorated_tree (code : string) : node :=
  Directory (Some [(".git", Directory (Some [("HEAD", Plain (ReadOk "ref"))]));
    ("SKILL.md", Plain (ReadOk "# a skill")); ("link", Symlink); ("private", Plain ReadFails);
    ("run.py", Plain (ReadOk code)); ("venv", Directory None)]).

Lemma sum32_length s : String.length (sum32 s) = 32.
Proof.
  assert (Ht : forall n a, n <= String.length a -> String.length (take_bytes n a) = n).
  { induction n as [|n IH]; intros [|c a] Hn; simpl in *; try lia. rewrite IH; lia. }
  unfold sum32. apply Ht. rewrite length_sapp. cbn [String.length]. lia.
Qed.

Lemma content_hash_binds_tree_witness :
  tree_files (fun _ => false) "s" (skill_tree "print(1)") ≡ₚ
  tree_files (fun _ => false) "s" (decorated_tree "print(1)").
Proof.
  eapply (content_hash_binds_tree (U := ascii_only) (N := no_net) sum32 sum32_length).
  - vm_compute. reflexivity.
  - vm_compute. reflexivity.
  - by repeat constructor.
  - apply collision_free_eval. vm_compute. reflexivity.
  - reflexivity.
Defined.

(** ** Names with line breaks, special files, and directories of tools *)

Section Gaps.
Context {U : GoUnicode} {N : GoNet} (sha256 : string -> string) (outside : string -> bool).

Definition untracked (base : string) : Prop :=
  base ∉ dependencyFiles /\ base ∉ configFiles /\ Ext base = "".

Lemma visit_untracked acc rel base data :
  untracked base ->
  visit_file sha256 acc {| v_rel := rel; v_base := base; v_read := ReadOk data |} =
    Some {| allHashes := allHashes acc ++ [entry_of rel (hash_of sha256 data)];
            w_deps := w_deps acc; w_cfgs := w_cfgs acc; endpointSet := endpointSet acc |}.
Proof.
  unfold visit_file. cbn [v_read v_base v_rel]. intros (Hd & Hc & ->). rewrite !bool_decide_eq_false_2; [done| |done|done].
  change (ToLower "") with "". set_solver.
Qed.

Lemma Ext_none s : avoids (ascii_of_nat 46) s = true -> Ext s = "".
Proof.
  unfold avoids. induction s as [|c s IH]; [done|]. cbn [sall Ext]. intros [Hc ->%IH]%andb_true_iff. simpl.
  destruct (byte_of c =? 46)%nat eqn:Hb; [|done]. apply Nat.eqb_eq in Hb.
  unfold byte_of in Hb. rewrite <- Hb, ascii_nat_embedding, Ascii.eqb_refl in Hc. done.
Qed.

(** The name of the one file that stands for two. *)
Definition forged_name (data : string) : string :=
  entry_of "install" (hash_of sha256 data) ++ String NEWLINE "readme".

Definition two_files (x y : string) : node :=
  Directory (Some [("install", Plain (ReadOk x)); ("readme", Plain (ReadOk y))]).

Definition one_file (x y : string) : node := Directory (Some [(forged_name x, Plain (ReadOk y))]).

(** The content hash is not injective on names with line breaks: a
    directory with one file whose name carries the hash of a program has the
    same snapshot as the directory in which the program is really there. *)
Theorem content_hash_ambiguous x y :
  SnapshotTarget sha256 outside "s" (one_file x y) = SnapshotTarget sha256 outside "s" (two_files x y) /\
  SnapshotTarget sha256 outside "s" (two_files x y) <> None /\
  tree_files outside "s" (two_files x y) = [("install", x); ("readme", y)] /\
  tree_files outside "s" (one_file x y) = [(forged_name x, y)].
Proof.
  assert (H1 : untracked "install") by (split_and!; [set_solver..|done]).
  assert (H2 : untracked "readme") by (split_and!; [set_solver..|done]).
  assert (H3 : untracked (forged_name x)).
  { split_and!; [by apply (bool_decide_unpack _)..|]. apply Ext_none. unfold forged_name, entry_of, avoids.
    rewrite !sall_app. change (sall _ (hash_of sha256 x)) with (avoids (ascii_of_nat 46) (hex_encode (sha256 x))).
    by rewrite hex_encode_no_dot. }
  assert (Hp : preimage [entry_of (forged_name x) (hash_of sha256 y)] =
               preimage [entry_of "install" (hash_of sha256 x); entry_of "readme" (hash_of sha256 y)]).
  { transitivity (entry_of "install" (hash_of sha256 x) ++
                  String NEWLINE (entry_of "readme" (hash_of sha256 y) ++ String NEWLINE "")); [|reflexivity].
    transitivity (entry_of (forged_name x) (hash_of sha256 y) ++ String NEWLINE ""); [reflexivity|].
    unfold forged_name. unfold entry_of at 1. by rewrite <- !sapp_assoc. }
  unfold SnapshotTarget, one_file, two_files, tree_files. cbn [walk].
  change (skipDir outside "." "s") with false. cbn -[forged_name visit_file untracked preimage].
  rewrite (visit_untracked _ _ _ y H3), (visit_untracked _ _ _ x H1), (visit_untracked _ _ _ y H2).
  cbn -[forged_name preimage]. rewrite Hp. done.
Qed.

(** A directory with the name of a directory of tools always has the same
    snapshot, whatever is in it: an installed asset called venv never drifts. *)
Theorem tool_directory_never_drifts name listing :
  name ∈ skippedDirs ->
  SnapshotTarget sha256 outside name (Directory (Some listing)) =
    Some {| ContentHash := hash_of sha256 ""; DependencyHashes := ∅; ConfigHashes := ∅; NetworkEndpoints := [] |}.
Proof.
  intros Hn. unfold SnapshotTarget. cbn [walk]. unfold skipDir. by rewrite bool_decide_eq_true_2.
Qed.

(** The walk hangs exactly if a file it visits cannot be opened without waiting. *)
Lemma visit_files_hangs fs : forall acc,
  visit_files sha256 acc fs = None <-> exists f, f ∈ fs /\ v_read f = ReadBlocks.
Proof.
  induction fs as [|f fs IH]; intros acc; simpl; [split; [done|intros (f & ?%elem_of_nil & _); done]|].
  unfold visit_file at 1. destruct (v_read f) eqn:Hr; rewrite ?IH; split.
  all: try (intros (g & Hg & Hgr)); try (exists g; split; [apply elem_of_cons; auto|done]).
  all: try (apply elem_of_cons in Hg as [->|Hg]; [congruence|eauto]).
  intros _. exists f. split; [apply elem_of_cons; auto|done].
Qed.

Theorem SnapshotTarget_hangs name root :
  SnapshotTarget sha256 outside name root = None <->
  exists f, f ∈ walk outside "." name root /\ v_read f = ReadBlocks.
Proof.
  unfold SnapshotTarget. rewrite <- (visit_files_hangs _ nothing_walked).
  by destruct (visit_files sha256 nothing_walked _).
Qed.
End Gaps.

(** ** Which files are visited *)

Section Coverage.
Context (outside : string -> bool).

(** A file is reached through directories that can be listed and are neither
    directories of tools nor outside of the root. *)
Inductive reaches : string -> string -> node -> Visited -> Prop :=
| reach_file rel base r : reaches rel base (Plain r) {| v_rel := rel; v_base := base; v_read := r |}
| reach_dir rel base listing name m f :
    skipDir outside rel base = false -> (name, m) ∈ listing ->
    reaches (join_rel rel name) name m f -> reaches rel base (Directory (Some listing)) f.

Lemma walk_children rel f listing :
  f ∈ (fix children (l : list (string * node)) : list Visited :=
         match l with
         | [] => []
         | (name, m) :: l' => (walk outside (join_rel rel name) name m ++ children l')%list
         end) listing <->
  exists name m, (name, m) ∈ listing /\ f ∈ walk outside (join_rel rel name) name m.
Proof.
  induction listing as [|[name m] l IH].
  - split; [by intros ?%elem_of_nil|]. by intros (? & ? & ?%elem_of_nil & _).
  - rewrite elem_of_app, IH. setoid_rewrite elem_of_cons. split.
    + intros [?|(name' & m' & ? & ?)]; eauto 6.
    + intros (name' & m' & [[= -> ->]|?] & ?); eauto 6.
Qed.

Lemma walk_reaches_1 : forall n rel base f, f ∈ walk outside rel base n -> reaches rel base n f.
Proof.
  fix IH 1. intros [r| |[listing|]|] rel base f Hf.
  2,4,5: by apply elem_of_nil in Hf.
  { apply list_elem_of_singleton in Hf as ->. constructor. }
  cbn [walk] in Hf. destruct (skipDir outside rel base) eqn:Hs; [by apply elem_of_nil in Hf|].
  assert (Hall : forall name m g, (name, m) ∈ listing -> g ∈ walk outside (join_rel rel name) name m ->
            reaches (join_rel rel name) name m g).
  { clear Hf. induction listing as [|[name' m'] l IHl]; intros name m g Hin Hg; [by apply elem_of_nil in Hin|].
    apply elem_of_cons in Hin as [[= -> ->]|Hin]; [by apply IH|by eapply IHl]. }
  apply walk_children in Hf as (name & m & Hin & Hf). by eapply reach_dir; [| |eapply Hall].
Qed.

(** The walk visits exactly the files that are reached. *)
Theorem walk_exact rel base n f : f ∈ walk outside rel base n <-> reaches rel base n f.
Proof.
  split; [apply walk_reaches_1|].
  induction 1 as [rel base r|rel base listing name m f Hs Hin _ IH]; [by apply list_elem_of_singleton|].
  cbn [walk]. rewrite Hs. apply walk_children. eauto.
Qed.
End Coverage.

(** ** Endpoints *)

Section Endpoints.
Context {U : GoUnicode} {N : GoNet}.

Lemma urlPattern_never_empty : never_empty urlPattern.
Proof. apply min_len_never_empty. vm_compute. lia. Qed.

Lemma collect_endpoints_spec found : forall result,
  NoDup result ->
  NoDup (collect_endpoints found result) /\
  forall ep, ep ∈ collect_endpoints found result <->
    ep ∈ result \/ exists m, m ∈ found /\ ep = trim_right trimmed m /\ isIgnoredEndpoint ep = false.
Proof.
  induction found as [|m found IH]; intros result Hnd; simpl.
  { split; [done|]. intros ep. split; [auto|]. by intros [?|(m & ?%elem_of_nil & _)]. }
  assert (Hskip : forall result', NoDup result' ->
    (forall ep, ep ∈ result' <-> ep ∈ result \/ (ep = trim_right trimmed m /\ isIgnoredEndpoint ep = false)) ->
    NoDup (collect_endpoints found result') /\
    forall ep, ep ∈ collect_endpoints found result' <->
      ep ∈ result \/ exists m', m' ∈ m :: found /\ ep = trim_right trimmed m' /\ isIgnoredEndpoint ep = false).
  { intros result' Hnd' Heq. destruct (IH result' Hnd') as [? Hin]. split; [done|]. intros ep. rewrite Hin, Heq.
    setoid_rewrite elem_of_cons. split.
    - intros [[?|[-> ?]]|(m' & ? & ? & ?)]; eauto 6.
    - intros [?|(m' & [->|?] & ? & ?)]; eauto 6. }
  destruct (isIgnoredEndpoint (trim_right trimmed m)) eqn:Hi; simpl.
  { apply Hskip; [done|]. intros ep. split; [auto|]. intros [?|[-> ?]]; congruence. }
  case_bool_decide as Hs; apply Hskip.
  - done.
  - intros ep. split; [auto|]. by intros [?|[-> ?]].
  - apply NoDup_app. split_and!; [done| |apply NoDup_singleton]. by intros ep ? ->%list_elem_of_singleton.
  - intros ep. rewrite elem_of_app, list_elem_of_singleton. split; [intros [?| ->]; auto|by intros [?|[-> ?]]; auto].
Qed.

(** The endpoints of a file are, without repetition, the trimmed matches of
    the pattern that are not ignored; and no place of the scanned part where the
    pattern matches is passed over: it lies in a match that is reported or
    ignored as a whole. *)
Theorem extractEndpoints_exact data :
  NoDup (extractEndpoints data) /\
  (forall ep, ep ∈ extractEndpoints data ->
     isIgnoredEndpoint ep = false /\
     exists a m b, scanned_part data = a ++ m ++ b /\ ep = trim_right trimmed m /\
       matches urlPattern (advance None a, m ++ b) (advance (advance None a) m, b)) /\
  (forall a rest y, scanned_part data = a ++ rest -> matches urlPattern (advance None a, rest) y ->
     exists a1 m b, scanned_part data = a1 ++ m ++ b /\
       String.length a1 <= String.length a < String.length a1 + String.length m /\
       (trim_right trimmed m ∈ extractEndpoints data \/ isIgnoredEndpoint (trim_right trimmed m) = true)).
Proof.
  unfold extractEndpoints, FindAllString.
  destruct (collect_endpoints_spec (find_all urlPattern None (scanned_part data) 0) [] (NoDup_nil_2)) as [Hnd Hin].
  split_and!; [done| |].
  - intros ep [?%elem_of_nil|(m & Hm & -> & Hi)]%Hin; [done|].
    apply find_all_sound in Hm as (a & b & Hs & Hm). split; [done|]. by exists a, m, b.
  - intros a rest y Hs Hm.
    destruct (find_all_covers _ _ urlPattern_never_empty None 0 a rest y Hs ltac:(lia) Hm) as (a1 & m & b & Hw & Heq & Hl).
    exists a1, m, b. split_and!; [done|lia|lia|].
    destruct (isIgnoredEndpoint (trim_right trimmed m)) eqn:Hi; [auto|left; apply Hin; eauto 6].
Qed.

(** One match can hold two URLs: an address behind an ignored one and a comma
    is not reported. *)
Theorem endpoint_hidden_behind_localhost u :
  url_Parse "http://localhost/,http://evil.example/x" = inr u ->
  Host u = "localhost" -> User u = None -> Hostname u = "localhost" ->
  extractEndpoints "urls = 'http://localhost/,http://evil.example/x'" = [].
Proof.
  intros Hp Hh Hu Hn. unfold extractEndpoints.
  change (FindAllString urlPattern _) with ["http://localhost/,http://evil.example/x'"]. cbn [collect_endpoints].
  change (trim_right trimmed _) with "http://localhost/,http://evil.example/x".
  unfold isIgnoredEndpoint. rewrite Hp, Hh, Hu, Hn. done.
Qed.
End Endpoints.
