(* ===== verification/Rescan.v ===== *)
(** * The periodic rescan (internal/watcher/rescan.go)

    Every installed skill, plugin and MCP server is compared, cycle after cycle,
    with the baseline stored for it: [compareSnapshots] and [diffFindings] name
    the drift, [shouldRescan] decides on a scan, [rescanTarget] puts them
    together with the tables target_snapshots and scan_results
    (audit/store.go), [runRescanCycle] goes over all targets.  What the file
    system, the configuration, the scanner, the logger and the database answer
    during one target is an [Answers]; the order in which a loop goes over a map
    is one of the answers.  [step] is the rescan as a machine whose labels are
    the targets, for histories of any length. *)
From stdpp Require Import base list gmap strings pretty sorting.
From Stdlib Require Import ZArith Lia Ascii.
From S2P Require Import Prelude GoStrings Paths Regexp Netguard Snapshot Watcher.

Local Open Scope string_scope.

(** ** Drift *)

Inductive DriftType :=
| DriftNewFinding
| DriftRemovedFinding
| DriftSeverityChange
| DriftContentChange
| DriftDependencyChange
| DriftConfigMutation
| DriftNewEndpoint
| DriftRemovedEndpoint.

#[export] Instance DriftType_eq_dec : EqDecision DriftType.
Proof. solve_decision. Defined.

Definition drift_name (t : DriftType) : string :=
  match t with
  | DriftNewFinding => "new_finding"
  | DriftRemovedFinding => "resolved_finding"
  | DriftSeverityChange => "severity_escalation"
  | DriftContentChange => "content_change"
  | DriftDependencyChange => "dependency_change"
  | DriftConfigMutation => "config_mutation"
  | DriftNewEndpoint => "new_endpoint"
  | DriftRemovedEndpoint => "removed_endpoint"
  end.

Record DriftDelta := {
  d_Type : DriftType;
  d_Severity : string;
  d_Description : string;
  d_Previous : string;
  d_Current : string;
  d_RuleID : string;
}.

Definition delta (t : DriftType) (severity description previous current : string) : DriftDelta :=
  {| d_Type := t; d_Severity := severity; d_Description := description;
     d_Previous := previous; d_Current := current; d_RuleID := "" |}.

(** A stored baseline (audit.SnapshotRow).  The three JSON columns are given by
    what json.Unmarshal leaves in the variable: the zero value for an empty or
    corrupt text. *)
Record SnapshotRow := {
  row_ContentHash : string;
  row_DependencyHashes : gmap string string;
  row_ConfigHashes : gmap string string;
  row_NetworkEndpoints : list string;
  row_ScanID : string;
  row_ScannerFingerprint : string;
}.

(** The order in which the n-th loop over a map visits it. *)
Definition visits (A : Type) : Type := nat -> gmap string A -> list (string * A).

(** The loops over one kind of manifest: new and modified files, then removed
    ones. *)
Definition present_delta (t : DriftType) (severity new_text mod_text : string) (prev : gmap string string)
    (p : string * string) : list DriftDelta :=
  match prev !! p.1 with
  | None => [delta t severity (new_text ++ p.1) "" p.2]
  | Some old => if negb (old =? p.2) then [delta t severity (mod_text ++ p.1) old p.2] else []
  end.

Definition removed_delta (t : DriftType) (severity gone_text : string) (cur : gmap string string)
    (p : string * string) : list DriftDelta :=
  match cur !! p.1 with None => [delta t severity (gone_text ++ p.1) p.2 ""] | Some _ => [] end.

Definition endpoint_deltas (prev cur : list string) : list DriftDelta :=
  ((cur ≫= fun ep => if bool_decide (ep ∈ prev) then []
                     else [delta DriftNewEndpoint "HIGH" ("new network endpoint detected: " ++ ep) "" ep]) ++
   (prev ≫= fun ep => if bool_decide (ep ∈ cur) then []
                      else [delta DriftRemovedEndpoint "INFO" ("network endpoint removed: " ++ ep) ep ""]))%list.

Definition content_delta (previous current : string) : DriftDelta :=
  delta DriftContentChange "MEDIUM"
    "directory contents changed outside tracked dependency/config/endpoint surfaces" previous current.

Definition compareSnapshots (range : visits string) (baseline : option SnapshotRow)
    (current : option TargetSnapshot) : list DriftDelta :=
  match baseline, current with
  | Some b, Some c =>
      let deltas :=
        ((range 0 (DependencyHashes c) ≫=
            present_delta DriftDependencyChange "MEDIUM" "new dependency manifest: "
              "dependency manifest modified: " (row_DependencyHashes b)) ++
         (range 1 (row_DependencyHashes b) ≫=
            removed_delta DriftDependencyChange "MEDIUM" "dependency manifest removed: " (DependencyHashes c)) ++
         (range 2 (ConfigHashes c) ≫=
            present_delta DriftConfigMutation "HIGH" "new config file: " "config file modified: "
              (row_ConfigHashes b)) ++
         (range 3 (row_ConfigHashes b) ≫=
            removed_delta DriftConfigMutation "HIGH" "config file removed: " (ConfigHashes c)) ++
         endpoint_deltas (row_NetworkEndpoints b) (NetworkEndpoints c))%list in
      if negb (row_ContentHash b =? "") && negb (ContentHash c =? "") &&
         negb (row_ContentHash b =? ContentHash c) && bool_decide (deltas = [])
      then (deltas ++ [content_delta (row_ContentHash b) (ContentHash c)])%list
      else deltas
  | _, _ => []
  end.

(** ** Findings *)

Definition findingDriftKey (f : Finding) : string := Join [f_Scanner f; f_Title f; f_Location f] NUL.

Definition findingLabel (f : Finding) : string :=
  if f_Location f =? "" then f_Title f else f_Title f ++ " (" ++ f_Location f ++ ")".

(** A map filled in the order of a list: the last finding of a key stays. *)
Definition by_key (fs : list Finding) : gmap string Finding :=
  foldl (fun m f => <[findingDriftKey f := f]> m) ∅ fs.

Section Severities.
Context {U : GoUnicode}.

(** audit/severity.go; the scanner's own ranking compares case-sensitively. *)
Definition SeverityRank (s : string) : Z := severityRank (ToUpper s).

Definition finding_delta (t : DriftType) (severity description previous current : string) (f : Finding) : DriftDelta :=
  {| d_Type := t; d_Severity := severity; d_Description := description;
     d_Previous := previous; d_Current := current; d_RuleID := f_RuleID f |}.

Definition current_finding (prevByKey : gmap string Finding) (p : string * Finding) : list DriftDelta :=
  let f := p.2 in
  match prevByKey !! p.1 with
  | None =>
      [finding_delta DriftNewFinding (f_Severity f)
         ("new finding: " ++ findingLabel f ++ " (" ++ f_Severity f ++ ")") "" (findingLabel f) f]
  | Some old =>
      if negb (f_Severity old =? f_Severity f) then
        let sev := if (SeverityRank (f_Severity old) <? SeverityRank (f_Severity f))%Z
                   then f_Severity f else f_Severity old in
        [finding_delta DriftSeverityChange sev
           ("finding severity changed: " ++ findingLabel f ++ " (" ++ f_Severity old ++ " -> " ++ f_Severity f ++ ")")
           (f_Severity old) (f_Severity f) f]
      else []
  end.

Definition previous_finding (currByKey : gmap string Finding) (p : string * Finding) : list DriftDelta :=
  let f := p.2 in
  match currByKey !! p.1 with
  | None => [finding_delta DriftRemovedFinding "INFO"
               ("finding resolved: " ++ findingLabel f ++ " (was " ++ f_Severity f ++ ")") (findingLabel f) "" f]
  | Some _ => []
  end.

Definition diffFindings (range : visits Finding) (prev curr : list Finding) : list DriftDelta :=
  ((range 0 (by_key curr) ≫= current_finding (by_key prev)) ++
   (range 1 (by_key prev) ≫= previous_finding (by_key curr)))%list.

(** ** Alerts *)

(** The loop of [driftRuleIDs]; [out] holds what [seen] holds. *)
Fixpoint collect_rules (deltas : list DriftDelta) (max : Z) (out : list string) : list string :=
  match deltas with
  | [] => out
  | d :: ds =>
      if d_RuleID d =? "" then collect_rules ds max out
      else if bool_decide (d_RuleID d ∈ out) then collect_rules ds max out
      else let out' := (out ++ [d_RuleID d])%list in
           if (max <=? zlen out')%Z then out' else collect_rules ds max out'
  end.

Definition driftRuleIDs (deltas : list DriftDelta) (max : Z) : list string :=
  if (max <=? 0)%Z || bool_decide (deltas = []) then [] else collect_rules deltas max [].

Definition name_le (a b : DriftType) : Prop := byte_le (drift_name a) (drift_name b).
#[export] Instance name_le_dec : RelDecision name_le.
Proof. intros a b. unfold name_le. apply _. Defined.

Definition count_type (deltas : list DriftDelta) (t : DriftType) : Z :=
  zlen (List.filter (fun d => bool_decide (d_Type d = t)) deltas).

Definition summarizeDrift (deltas : list DriftDelta) : string :=
  Join ((fun t => drift_name t ++ "=" ++ pretty (count_type deltas t)) <$>
          merge_sort name_le (remove_dups (d_Type <$> deltas))) " ".

Definition max_severity (deltas : list DriftDelta) : string :=
  foldl (fun mx d => if (SeverityRank mx <? SeverityRank (d_Severity d))%Z then d_Severity d else mx) "INFO" deltas.

(** The audit event of a drift; its details are the deltas as JSON with the rule
    ids behind. *)
Record DriftAlert := {
  al_Target : string;
  al_Severity : string;
  al_Deltas : list DriftDelta;
  al_RuleIDs : list string;
  al_Summary : string;
}.

Inductive effect :=
| ScanRun (type target : string)
| Alert (a : DriftAlert)
| Webhook (a : DriftAlert)
| WatcherEvent (kind type : string)
| CycleLogged (targets scanned skipped : Z).

Definition drift_alert (evt : InstallEvent) (deltas : list DriftDelta) : DriftAlert :=
  {| al_Target := Path evt; al_Severity := max_severity deltas; al_Deltas := deltas;
     al_RuleIDs := driftRuleIDs deltas 8; al_Summary := summarizeDrift deltas |}.

Definition emitDriftAlerts (webhooks : bool) (evt : InstallEvent) (deltas : list DriftDelta) : list effect :=
  let a := drift_alert evt deltas in
  ([Alert a; WatcherEvent "drift" (Type_ evt)] ++ if webhooks then [Webhook a] else [])%list.

(** ** The decision to scan *)

Definition shouldRescan (baseline : option SnapshotRow) (snap : TargetSnapshot) (fingerprint : string)
    (gated : bool) : bool * string :=
  if negb gated then (true, "gating-disabled")
  else match baseline with
  | None => (true, "no-baseline")
  | Some b =>
      if row_ScanID b =? "" then (true, "no-baseline-scan")
      else if (row_ContentHash b =? "") || negb (row_ContentHash b =? ContentHash snap) then (true, "content-changed")
      else if negb (row_ScannerFingerprint b =? fingerprint) then (true, "scanner-fingerprint-changed")
      else (false, "unchanged")
  end.
End Severities.

(** ** Maps and findings that went through JSON *)

Definition key_le (p q : string * string) : Prop := byte_le p.1 q.1.
#[export] Instance key_le_dec : RelDecision key_le.
Proof. intros p q. unfold key_le. apply _. Defined.

(** A map is written in the order of its keys, and read back entry by entry. *)
Definition json_map (m : gmap string string) : gmap string string :=
  foldl (fun acc p => <[json_string p.1 := json_string p.2]> acc) ∅ (merge_sort key_le (map_to_list m)).

Definition json_finding (f : Finding) : Finding :=
  {| f_Severity := json_string (f_Severity f); f_Scanner := json_string (f_Scanner f);
     f_Title := json_string (f_Title f); f_Location := json_string (f_Location f);
     f_RuleID := json_string (f_RuleID f) |}.

Definition json_result (r : ScanResult) : ScanResult :=
  {| Findings := json_finding <$> Findings r; ExitCode := ExitCode r; ScanError := json_string (ScanError r) |}.

(** ** The scanner fingerprint *)

Record SkillScannerConfig := {
  Binary : string; UseLLM : bool; UseBehavioral : bool; EnableMeta : bool; UseTrigger : bool;
  UseVirusTotal : bool; UseAIDefense : bool; LLMConsensus : Z; Policy : string; Lenient : bool;
}.

Record MCPScannerConfig := {
  MCPBinary : string; Analyzers : string; ScanPrompts : bool; ScanResources : bool; ScanInstructions : bool;
}.

Record LLM := { Model : string; Provider : string; BaseURL : string }.

Record Provenance := { SchemaVersion : Z; ProvContentHash : string; Generation : Z; BinaryVersion : string }.

(** What the fingerprint is made of; [probe] is the output of a binary called
    with --version, trimmed, and empty when the call fails. *)
Record ScannerSetup := {
  skill_scanner : SkillScannerConfig;
  mcp_scanner : MCPScannerConfig;
  plugin_scanner : string;
  ResolveLLM : string -> LLM;
  probe : string -> string;
  Current : Provenance;
}.

Definition scannerBinaryVersion {U : GoUnicode} (env : ScannerSetup) (binary : string) : string :=
  let b := TrimSpace binary in if b =? "" then "" else probe env b.

(** A part of the text that is hashed. *)
Definition part (key value : string) : string := key ++ "=" ++ value.

Definition bool_text (b : bool) : string := if b then "true" else "false".

Definition llm_parts (llm : LLM) : list string :=
  [part "llm_model" (Model llm); part "llm_provider" (Provider llm); part "llm_base_url" (BaseURL llm)].

Definition kind_parts {U : GoUnicode} (env : ScannerSetup) (type : string) : list string :=
  (if type =? InstallSkill then
     let c := skill_scanner env in
     [part "binary" (Binary c); part "binver" (scannerBinaryVersion env (Binary c));
      part "use_llm" (bool_text (UseLLM c)); part "use_behavioral" (bool_text (UseBehavioral c));
      part "enable_meta" (bool_text (EnableMeta c)); part "use_trigger" (bool_text (UseTrigger c));
      part "use_virustotal" (bool_text (UseVirusTotal c)); part "use_aidefense" (bool_text (UseAIDefense c));
      part "llm_consensus" (pretty (LLMConsensus c)); part "policy" (Policy c); part "lenient" (bool_text (Lenient c))] ++
     llm_parts (ResolveLLM env "scanners.skill")
   else if type =? InstallMCP then
     let c := mcp_scanner env in
     [part "binary" (MCPBinary c); part "binver" (scannerBinaryVersion env (MCPBinary c));
      part "analyzers" (Analyzers c); part "scan_prompts" (bool_text (ScanPrompts c));
      part "scan_resources" (bool_text (ScanResources c)); part "scan_instructions" (bool_text (ScanInstructions c))] ++
     llm_parts (ResolveLLM env "scanners.mcp")
   else if type =? InstallPlugin then
     [part "binary" (plugin_scanner env); part "binver" (scannerBinaryVersion env (plugin_scanner env))] ++
     llm_parts (ResolveLLM env "scanners.plugin")
   else [])%list.

Definition provenance_parts (p : Provenance) : list string :=
  [part "prov_binary" (BinaryVersion p); part "prov_content" (ProvContentHash p);
   part "prov_generation" (pretty (Generation p)); part "prov_schema" (pretty (SchemaVersion p))].

Definition fingerprint_parts {U : GoUnicode} (env : ScannerSetup) (type : string) : list string :=
  ([part "kind" type] ++ kind_parts env type ++ provenance_parts (Current env))%list.

(** ** One target *)

Record MCPServerEntry := { srv_Name : string; srv_URL : string; srv_Rest : string }.

Inductive StatResult := StatNotExist | StatFails | StatOk (lstat : node).

(** The file system and the configuration at one time. *)
Record World := {
  Stat : string -> StatResult;
  ReadMCPServers : option (list MCPServerEntry);
  leaves_root : string -> string -> bool;
}.

Inductive ScanAnswer := ScanFails | ScanNil | ScanOk (r : ScanResult).

(** What the surroundings of one call of [rescanTarget] answer: the world at the
    time of the snapshot and at the time of the scan, the setup of the scanners,
    which statements fail, the scanner, and the audit logger, which may rewrite
    the result and returns the scan id unless it fails. *)
Record Answers := {
  a_world : World;
  a_setup : ScannerSetup;
  a_get_fails : bool;
  a_load_fails : bool;
  a_set_fails : bool;
  a_scanner : option (World -> string -> ScanAnswer);
  a_scan_world : World;
  a_log_scan : ScanResult -> ScanResult * option string;
  a_range : visits string;
  a_range_findings : visits Finding;
}.

Record State := {
  target_snapshots : gmap (string * string) SnapshotRow;
  scan_results : gmap string ScanResult;
}.

Inductive rescanOutcome := rescanSkipped | rescanScanned.

Inductive SnapResult := SnapOk (s : TargetSnapshot) | SnapNotExist | SnapFails | SnapHangs.

Definition target_key (evt : InstallEvent) : string * string := (Type_ evt, Path evt).

Section Rescan.
Context {U : GoUnicode} {N : GoNet}.
Context (sha256 : string -> string) (marshal_entry : MCPServerEntry -> string).
Context (gated webhooks : bool).

Definition lookupMCPServer (servers : list MCPServerEntry) (name : string) : option MCPServerEntry :=
  List.find (fun e => srv_Name e =? name) servers.

Definition snapshotMCPServer (w : World) (name : string) : SnapResult :=
  match ReadMCPServers w with
  | None => SnapFails
  | Some servers =>
      match lookupMCPServer servers name with
      | None => SnapNotExist
      | Some entry =>
          let hash := hash_of sha256 (marshal_entry entry) in
          SnapOk {| ContentHash := hash; DependencyHashes := ∅;
                    ConfigHashes := {[ "mcp.servers." ++ name := hash ]};
                    NetworkEndpoints := if negb (srv_URL entry =? "") then [srv_URL entry] else [] |}
      end
  end.

Definition snapshotForEvent (w : World) (evt : InstallEvent) : SnapResult :=
  if Type_ evt =? InstallMCP then snapshotMCPServer w (Name evt)
  else match Stat w (Path evt) with
       | StatNotExist => SnapNotExist
       | StatFails => SnapFails
       | StatOk root =>
           match SnapshotTarget sha256 (leaves_root w (Path evt)) (filepath_Base (Path evt)) root with
           | Some s => SnapOk s
           | None => SnapHangs
           end
       end.

Definition scanTargetFor (w : World) (evt : InstallEvent) : string :=
  if negb (Type_ evt =? InstallMCP) then Path evt
  else match ReadMCPServers w with
       | None => Name evt
       | Some servers =>
           match lookupMCPServer servers (Name evt) with
           | None => Name evt
           | Some entry => if negb (srv_URL entry =? "") then srv_URL entry else srv_Name entry
           end
       end.

Definition scannerFingerprint (env : ScannerSetup) (type : string) : string :=
  hash_of sha256 (Join (fingerprint_parts env type) NUL).

(** The cache is per cycle and keyed by the type. *)
Definition cachedFingerprint (env : ScannerSetup) (type : string) (cache : gmap string string)
    : string * gmap string string :=
  match cache !! type with
  | Some fp => (fp, cache)
  | None => let fp := scannerFingerprint env type in (fp, <[type := fp]> cache)
  end.

Definition put_scan (id : string) (r : ScanResult) (s : State) : State :=
  {| target_snapshots := target_snapshots s; scan_results := <[id := r]> (scan_results s) |}.

(** A logger that fails may have stored the scan already; its id is then lost, so
    no baseline refers to it and nothing reads it: such rows are left out. *)
Definition emitRescanResult (a : Answers) (r : ScanResult) (s : State) : State * ScanResult * string :=
  let '(r', logged) := a_log_scan a r in
  match logged with
  | None => (s, r', "")
  | Some id => (put_scan id (json_result r') s, r', id)
  end.

Definition scanAndEmit (a : Answers) (evt : InstallEvent) (s : State)
    : State * list effect * option ScanResult * string :=
  match a_scanner a with
  | None => (s, [], None, "")
  | Some scan =>
      let target := scanTargetFor (a_scan_world a) evt in
      match scan (a_scan_world a) target with
      | ScanFails | ScanNil => (s, [ScanRun (Type_ evt) target], None, "")
      | ScanOk r =>
          let '(s', r', id) := emitRescanResult a r s in (s', [ScanRun (Type_ evt) target], Some r', id)
      end
  end.

(** The row SetTargetSnapshot writes. *)
Definition snapshot_row (snap : TargetSnapshot) (scanID fingerprint : string) : SnapshotRow :=
  {| row_ContentHash := ContentHash snap;
     row_DependencyHashes := json_map (DependencyHashes snap);
     row_ConfigHashes := json_map (ConfigHashes snap);
     row_NetworkEndpoints := json_string <$> NetworkEndpoints snap;
     row_ScanID := scanID; row_ScannerFingerprint := fingerprint |}.

Definition persistSnapshot (a : Answers) (evt : InstallEvent) (snap : TargetSnapshot)
    (scanID fingerprint : string) (s : State) : State :=
  if a_set_fails a then s
  else {| target_snapshots := <[target_key evt := snapshot_row snap scanID fingerprint]> (target_snapshots s);
          scan_results := scan_results s |}.

Definition findingDrift (a : Answers) (baseline : option SnapshotRow) (current : option ScanResult) (s : State)
    : list DriftDelta :=
  match baseline, current with
  | Some b, Some cur =>
      if row_ScanID b =? "" then []
      else if a_load_fails a then []
      else match scan_results s !! row_ScanID b with
      | None => []
      | Some prev =>
          let deltas := diffFindings (a_range_findings a) (Findings prev) (Findings cur) in
          let prevMax := MaxSeverity prev in
          let curMax := MaxSeverity cur in
          if (SeverityRank prevMax <? SeverityRank curMax)%Z
          then (deltas ++ [delta DriftSeverityChange curMax
                  ("max severity escalated from " ++ prevMax ++ " to " ++ curMax) prevMax curMax])%list
          else deltas
      end
  | _, _ => []
  end.

Definition alerts (evt : InstallEvent) (deltas : list DriftDelta) : list effect :=
  if bool_decide (deltas = []) then [] else emitDriftAlerts webhooks evt deltas.

(** The part of [rescanTarget] for a target with a baseline. *)
Definition rescan_known (a : Answers) (evt : InstallEvent) (b : SnapshotRow) (cur : TargetSnapshot) (fp : string)
    (s : State) : State * list effect * rescanOutcome :=
  let deltas := compareSnapshots (a_range a) (Some b) (Some cur) in
  if negb (shouldRescan (Some b) cur fp gated).1 then
    (if bool_decide (deltas = []) then s
     else persistSnapshot a evt cur (row_ScanID b) (row_ScannerFingerprint b) s,
     alerts evt deltas, rescanSkipped)
  else
    let '(s1, es, result, scanID) := scanAndEmit a evt s in
    let all := (deltas ++ findingDrift a (Some b) result s1)%list in
    if (scanID =? "") && negb (row_ScanID b =? "")
    then (s1, (es ++ alerts evt all)%list, rescanScanned)
    else (persistSnapshot a evt cur scanID fp s1, (es ++ alerts evt all)%list, rescanScanned).

(** [None] when the call never returns. *)
Definition rescanTarget (a : Answers) (evt : InstallEvent) (cache : gmap string string) (s : State)
    : option (State * list effect * gmap string string * rescanOutcome) :=
  match snapshotForEvent (a_world a) evt with
  | SnapHangs => None
  | SnapNotExist | SnapFails => Some (s, [], cache, rescanSkipped)
  | SnapOk cur =>
      let '(fp, cache') := cachedFingerprint (a_setup a) (Type_ evt) cache in
      if a_get_fails a then Some (s, [], cache', rescanSkipped)
      else match target_snapshots s !! target_key evt with
      | None =>
          let '(s1, es, result, scanID) := scanAndEmit a evt s in
          Some (persistSnapshot a evt cur scanID fp s1, es, cache',
                match result with None => rescanSkipped | Some _ => rescanScanned end)
      | Some b =>
          let '(s', es, outcome) := rescan_known a evt b cur fp s in Some (s', es, cache', outcome)
      end
  end.

(** ** A cycle *)

Definition outcome_event (o : rescanOutcome) : string :=
  match o with rescanScanned => "rescan_scan" | rescanSkipped => "rescan_skip" end.

(** The loop over the targets; the answers come with the index of the target,
    and whether the context has ended by then.  The last component says whether
    the loop ran to its end. *)
Fixpoint rescan_loop (answers : nat -> bool * Answers) (i : nat) (targets : list InstallEvent)
    (cache : gmap string string) (scanned skipped : Z) (s : State)
    : option (State * list effect * Z * Z * bool) :=
  match targets with
  | [] => Some (s, [], scanned, skipped, true)
  | evt :: rest =>
      let '(cancelled, a) := answers i in
      if cancelled then Some (s, [], scanned, skipped, false)
      else
        '(s1, es, cache', o) ← rescanTarget a evt cache s;
        let sc := match o with rescanScanned => (scanned + 1)%Z | rescanSkipped => scanned end in
        let sk := match o with rescanScanned => skipped | rescanSkipped => (skipped + 1)%Z end in
        '(s2, es', sc', sk', done) ← rescan_loop answers (S i) rest cache' sc sk s1;
        Some (s2, (es ++ WatcherEvent (outcome_event o) (Type_ evt) :: es')%list, sc', sk', done)
  end.

Definition runRescanCycle (answers : nat -> bool * Answers) (targets : list InstallEvent) (s : State)
    : option (State * list effect) :=
  if bool_decide (targets = []) then Some (s, [])
  else
    '(s', es, scanned, skipped, done) ← rescan_loop answers 0 targets ∅ 0 0 s;
    Some (s', if (done : bool) then (es ++ [CycleLogged (zlen targets) scanned skipped])%list else es).

(** ** The machine of the rescan *)

(** A label is one target with its answers and the cache of its cycle. *)
Record Visit := { vt_evt : InstallEvent; vt_answers : Answers; vt_cache : gmap string string }.

Definition step (v : Visit) (s : State) : option (State * list effect) :=
  '(s', es, _, _) ← rescanTarget (vt_answers v) (vt_evt v) (vt_cache v) s; Some (s', es).
End Rescan.

Definition empty_state : State := {| target_snapshots := ∅; scan_results := ∅ |}.

(** ** The targets of a cycle *)

Record DirEntry := { de_Name : string; de_IsDir : bool }.

(** A directory of installed assets: [None] when it cannot be read. *)
Definition dir_targets (type : string) (now : Time) (dir : string) (entries : option (list DirEntry))
    : list InstallEvent :=
  match entries with
  | None => []
  | Some es =>
      es ≫= fun e =>
        if negb (de_IsDir e) || HasPrefix (de_Name e) "." then []
        else [{| Type_ := type; Name := de_Name e; Path := path_Join [dir; de_Name e]; EvtConnector := "";
                 Timestamp := now |}]
  end.

Definition enumerateTargets {U : GoUnicode} (now : Time) (skillDirs pluginDirs : list string)
    (ReadDir : string -> option (list DirEntry)) (servers : option (list MCPServerEntry)) : list InstallEvent :=
  ((skillDirs ≫= fun d => dir_targets InstallSkill now d (ReadDir d)) ++
   (pluginDirs ≫= fun d => dir_targets InstallPlugin now d (ReadDir d)) ++
   match servers with
   | None => []
   | Some srvs => srvs ≫= fun e =>
       if TrimSpace (srv_Name e) =? "" then []
       else [{| Type_ := InstallMCP; Name := srv_Name e; Path := srv_Name e; EvtConnector := ""; Timestamp := now |}]
   end)%list.
