(* ===== verification/RescanFacts.v ===== *)
(** * Drift, exactly (facts about Rescan)

    What [compareSnapshots] and [diffFindings] report, for any order in which the
    loops visit their maps; how a snapshot reads back from the database; what a
    fingerprint binds; what one call of [rescanTarget] can do to the tables. *)
From stdpp Require Import base list gmap strings pretty sorting.
From Stdlib Require Import ZArith Lia Ascii.
From S2P Require Import Prelude GoStrings Paths Regexp Netguard Snapshot Watcher Rescan.

Local Open Scope string_scope.

(** ** Loops over maps *)

(** Each loop visits every entry of its map once. *)
Definition fair {A} (range : visits A) : Prop := forall n m, range n m ≡ₚ map_to_list m.

Lemma elem_of_range {A} (range : visits A) n m k x :
  fair range -> (k, x) ∈ range n m <-> m !! k = Some x.
Proof. intros Hf. rewrite (Hf n m). apply elem_of_map_to_list. Qed.

Lemma elem_of_range_bind {A B} (range : visits A) n m (f : string * A -> list B) (y : B) :
  fair range -> y ∈ (range n m ≫= f) <-> exists k x, m !! k = Some x /\ y ∈ f (k, x).
Proof.
  intros Hf. rewrite list_elem_of_bind. split.
  - intros ([k x] & Hy & Hin). apply (elem_of_range _ _ _ _ _ Hf) in Hin. eauto.
  - intros (k & x & Hin & Hy). exists (k, x). by rewrite (elem_of_range _ _ _ _ _ Hf).
Qed.

Lemma range_bind_perm {A B} (range range' : visits A) n m (f : string * A -> list B) :
  fair range -> fair range' -> range n m ≫= f ≡ₚ range' n m ≫= f.
Proof. intros H H'. by rewrite (H n m), (H' n m). Qed.

(** ** Snapshot drift *)

(** The drift of one kind of manifest at one file. *)
Inductive manifest_drift (t : DriftType) (sev new_text mod_text gone_text : string) (prev cur : gmap string string) :
    DriftDelta -> Prop :=
| manifest_new file h : cur !! file = Some h -> prev !! file = None ->
    manifest_drift t sev new_text mod_text gone_text prev cur (delta t sev (new_text ++ file) "" h)
| manifest_modified file old h : cur !! file = Some h -> prev !! file = Some old -> old <> h ->
    manifest_drift t sev new_text mod_text gone_text prev cur (delta t sev (mod_text ++ file) old h)
| manifest_removed file old : cur !! file = None -> prev !! file = Some old ->
    manifest_drift t sev new_text mod_text gone_text prev cur (delta t sev (gone_text ++ file) old "").

Inductive endpoint_drift (prev cur : list string) : DriftDelta -> Prop :=
| endpoint_new ep : ep ∈ cur -> ep ∉ prev ->
    endpoint_drift prev cur (delta DriftNewEndpoint "HIGH" ("new network endpoint detected: " ++ ep) "" ep)
| endpoint_removed ep : ep ∈ prev -> ep ∉ cur ->
    endpoint_drift prev cur (delta DriftRemovedEndpoint "INFO" ("network endpoint removed: " ++ ep) ep "").

(** Drift on the tracked surfaces: dependencies, configuration, endpoints. *)
Definition tracked_drift (b : SnapshotRow) (c : TargetSnapshot) (d : DriftDelta) : Prop :=
  manifest_drift DriftDependencyChange "MEDIUM" "new dependency manifest: " "dependency manifest modified: "
    "dependency manifest removed: " (row_DependencyHashes b) (DependencyHashes c) d \/
  manifest_drift DriftConfigMutation "HIGH" "new config file: " "config file modified: " "config file removed: "
    (row_ConfigHashes b) (ConfigHashes c) d \/
  endpoint_drift (row_NetworkEndpoints b) (NetworkEndpoints c) d.

Lemma manifest_loops_exact t sev nt mt gt (range : visits string) i j prev cur d :
  fair range ->
  (d ∈ (range i cur ≫= present_delta t sev nt mt prev) \/ d ∈ (range j prev ≫= removed_delta t sev gt cur)) <->
  manifest_drift t sev nt mt gt prev cur d.
Proof.
  intros Hf. rewrite !elem_of_range_bind by done. unfold present_delta, removed_delta. split.
  - intros [(file & h & Hc & Hd)|(file & old & Hp & Hd)]; simpl in Hd.
    + destruct (prev !! file) as [old|] eqn:Hp.
      * destruct (old =? h) eqn:He; [by apply elem_of_nil in Hd|].
        apply list_elem_of_singleton in Hd as ->. eapply manifest_modified; [done|done|]. by apply String.eqb_neq.
      * apply list_elem_of_singleton in Hd as ->. by apply manifest_new.
    + destruct (cur !! file) eqn:Hc; [by apply elem_of_nil in Hd|].
      apply list_elem_of_singleton in Hd as ->. by apply manifest_removed.
  - intros [file h Hc Hp|file old h Hc Hp Hn|file old Hc Hp].
    + left. exists file, h. split; [done|]. cbn [fst snd]. rewrite Hp. by apply list_elem_of_singleton.
    + left. exists file, h. split; [done|]. cbn [fst snd]. rewrite Hp.
      apply String.eqb_neq in Hn as ->. by apply list_elem_of_singleton.
    + right. exists file, old. split; [done|]. cbn [fst snd]. rewrite Hc. by apply list_elem_of_singleton.
Qed.

Lemma endpoint_deltas_exact prev cur d : d ∈ endpoint_deltas prev cur <-> endpoint_drift prev cur d.
Proof.
  unfold endpoint_deltas. rewrite elem_of_app, !list_elem_of_bind. split.
  - intros [(ep & Hd & Hin)|(ep & Hd & Hin)]; case_bool_decide; try by apply elem_of_nil in Hd.
    + apply list_elem_of_singleton in Hd as ->. by apply endpoint_new.
    + apply list_elem_of_singleton in Hd as ->. by apply endpoint_removed.
  - intros [ep Hc Hp|ep Hp Hc]; [left|right]; exists ep;
      (rewrite bool_decide_eq_false_2 by done; split; [by apply list_elem_of_singleton|done]).
Qed.

(** What [compareSnapshots] collects before it looks at the content hash. *)
Definition tracked_deltas (range : visits string) (b : SnapshotRow) (c : TargetSnapshot) : list DriftDelta :=
  ((range 0 (DependencyHashes c) ≫=
      present_delta DriftDependencyChange "MEDIUM" "new dependency manifest: "
        "dependency manifest modified: " (row_DependencyHashes b)) ++
   (range 1 (row_DependencyHashes b) ≫=
      removed_delta DriftDependencyChange "MEDIUM" "dependency manifest removed: " (DependencyHashes c)) ++
   (range 2 (ConfigHashes c) ≫=
      present_delta DriftConfigMutation "HIGH" "new config file: " "config file modified: " (row_ConfigHashes b)) ++
   (range 3 (row_ConfigHashes b) ≫=
      removed_delta DriftConfigMutation "HIGH" "config file removed: " (ConfigHashes c)) ++
   endpoint_deltas (row_NetworkEndpoints b) (NetworkEndpoints c))%list.

Lemma tracked_deltas_exact range b c d : fair range -> d ∈ tracked_deltas range b c <-> tracked_drift b c d.
Proof.
  intros Hf. unfold tracked_deltas, tracked_drift.
  rewrite <- (manifest_loops_exact _ _ _ _ _ range 0 1 _ _ _ Hf), <- (manifest_loops_exact _ _ _ _ _ range 2 3 _ _ _ Hf),
    <- endpoint_deltas_exact, !elem_of_app. tauto.
Qed.

Lemma tracked_deltas_perm range range' b c :
  fair range -> fair range' -> tracked_deltas range b c ≡ₚ tracked_deltas range' b c.
Proof.
  intros H H'. unfold tracked_deltas. by repeat (apply Permutation_app; [by apply range_bind_perm|]).
Qed.

(** The hashes of both sides are there and differ. *)
Definition content_changed (b : SnapshotRow) (c : TargetSnapshot) : bool :=
  negb (row_ContentHash b =? "") && negb (ContentHash c =? "") && negb (row_ContentHash b =? ContentHash c).

Lemma compareSnapshots_unfold range b c :
  compareSnapshots range (Some b) (Some c) =
    if content_changed b c && bool_decide (tracked_deltas range b c = [])
    then [content_delta (row_ContentHash b) (ContentHash c)] else tracked_deltas range b c.
Proof.
  unfold compareSnapshots. fold (tracked_deltas range b c). fold (content_changed b c).
  destruct (content_changed b c); [|done]. simpl. case_bool_decide as Hn; [by rewrite Hn|done].
Qed.

(** Changed content is always reported. *)
Lemma content_changed_reported range b c :
  content_changed b c = true -> compareSnapshots range (Some b) (Some c) <> [].
Proof. intros Hc. rewrite compareSnapshots_unfold, Hc. simpl. by case_bool_decide. Qed.

(** ** Findings by key *)

Lemma by_key_snoc fs f : by_key (fs ++ [f]) = <[findingDriftKey f := f]> (by_key fs).
Proof. unfold by_key. by rewrite foldl_app. Qed.

(** The map holds, under each key, the last finding with that key. *)
Lemma by_key_lookup fs k :
  by_key fs !! k = last (List.filter (fun f => findingDriftKey f =? k) fs).
Proof.
  induction fs as [|f fs IH] using rev_ind; [done|].
  rewrite by_key_snoc, List.filter_app. simpl. destruct (findingDriftKey f =? k) eqn:Hk.
  - apply String.eqb_eq in Hk as <-. by rewrite lookup_insert_eq, last_snoc.
  - apply String.eqb_neq in Hk. by rewrite lookup_insert_ne, app_nil_r by done.
Qed.

Section Findings.
Context {U : GoUnicode}.

(** The drift of the findings of one key. *)
Inductive finding_drift (prev cur : gmap string Finding) : DriftDelta -> Prop :=
| drift_new k f : cur !! k = Some f -> prev !! k = None ->
    finding_drift prev cur (finding_delta DriftNewFinding (f_Severity f)
      ("new finding: " ++ findingLabel f ++ " (" ++ f_Severity f ++ ")") "" (findingLabel f) f)
| drift_severity k old f : cur !! k = Some f -> prev !! k = Some old -> f_Severity old <> f_Severity f ->
    finding_drift prev cur (finding_delta DriftSeverityChange
      (if (SeverityRank (f_Severity old) <? SeverityRank (f_Severity f))%Z then f_Severity f else f_Severity old)
      ("finding severity changed: " ++ findingLabel f ++ " (" ++ f_Severity old ++ " -> " ++ f_Severity f ++ ")")
      (f_Severity old) (f_Severity f) f)
| drift_resolved k old : cur !! k = None -> prev !! k = Some old ->
    finding_drift prev cur (finding_delta DriftRemovedFinding "INFO"
      ("finding resolved: " ++ findingLabel old ++ " (was " ++ f_Severity old ++ ")") (findingLabel old) "" old).

Lemma diff_loops_exact (range : visits Finding) prev cur d :
  fair range ->
  (d ∈ (range 0 cur ≫= current_finding prev) \/ d ∈ (range 1 prev ≫= previous_finding cur)) <->
  finding_drift prev cur d.
Proof.
  intros Hf. rewrite !elem_of_range_bind by done. unfold current_finding, previous_finding. split.
  - intros [(k & f & Hc & Hd)|(k & f & Hp & Hd)]; cbn [fst snd] in Hd.
    + destruct (prev !! k) as [old|] eqn:Hp.
      * destruct (f_Severity old =? f_Severity f) eqn:He; [by apply elem_of_nil in Hd|].
        apply list_elem_of_singleton in Hd as ->. apply String.eqb_neq in He. by eapply drift_severity.
      * apply list_elem_of_singleton in Hd as ->. by eapply drift_new.
    + destruct (cur !! k) eqn:Hc; [by apply elem_of_nil in Hd|].
      apply list_elem_of_singleton in Hd as ->. by eapply drift_resolved.
  - intros [k f Hc Hp|k old f Hc Hp Hn|k old Hc Hp].
    + left. exists k, f. split; [done|]. cbn [fst snd]. rewrite Hp. by apply list_elem_of_singleton.
    + left. exists k, f. split; [done|]. cbn [fst snd]. rewrite Hp.
      apply String.eqb_neq in Hn as ->. by apply list_elem_of_singleton.
    + right. exists k, old. split; [done|]. cbn [fst snd]. rewrite Hc. by apply list_elem_of_singleton.
Qed.

Lemma diffFindings_drift range prev curr d :
  fair range -> d ∈ diffFindings range prev curr <-> finding_drift (by_key prev) (by_key curr) d.
Proof. intros Hf. unfold diffFindings. by rewrite <- (diff_loops_exact range), elem_of_app. Qed.

Lemma diffFindings_perm range range' prev curr :
  fair range -> fair range' -> diffFindings range prev curr ≡ₚ diffFindings range' prev curr.
Proof. intros H H'. unfold diffFindings. by apply Permutation_app; apply range_bind_perm. Qed.
End Findings.

(** ** Reading a snapshot back *)

Lemma second_ok_3 c c1 :
  byte_in 224 239 c = true ->
  second_ok c c1 = (if (byte_of c =? 224)%nat then byte_in 160 191 c1
                    else if (byte_of c =? 237)%nat then byte_in 128 159 c1 else cont_byte c1).
Proof.
  unfold second_ok, byte_in at 1. intros [_ Hc%Nat.leb_le]%andb_true_iff.
  by rewrite (proj2 (Nat.eqb_neq (byte_of c) 240)), (proj2 (Nat.eqb_neq (byte_of c) 244)) by lia.
Qed.

Lemma second_ok_4 c c1 :
  byte_in 240 244 c = true ->
  second_ok c c1 = (if (byte_of c =? 240)%nat then byte_in 144 191 c1
                    else if (byte_of c =? 244)%nat then byte_in 128 143 c1 else cont_byte c1).
Proof.
  unfold second_ok, byte_in at 1. intros [Hc%Nat.leb_le _]%andb_true_iff.
  by rewrite (proj2 (Nat.eqb_neq (byte_of c) 224)), (proj2 (Nat.eqb_neq (byte_of c) 237)) by lia.
Qed.

(** Well-formed text survives JSON. *)
Lemma json_string_valid s : valid_utf8 s = true -> json_string s = s.
Proof.
  remember (String.length s) as n eqn:Hn. revert s Hn.
  induction n as [n IH] using lt_wf_ind. intros s -> Hv.
  destruct s as [|c r]; [done|]. cbn [valid_utf8] in Hv. cbn [json_string].
  assert (Hrec : forall t, String.length t < String.length (String c r) -> valid_utf8 t = true -> json_string t = t)
    by (intros t Ht; exact (IH _ Ht t eq_refl)).
  destruct (byte_in 0 127 c) eqn:?; [by rewrite Hrec by (simpl; auto; lia)|].
  destruct (byte_in 194 223 c) eqn:?.
  { destruct r as [|c1 r1]; [done|]. apply andb_true_iff in Hv as [-> Hv]. by rewrite Hrec by (simpl; auto; lia). }
  destruct (byte_in 224 239 c) eqn:H3.
  { destruct r as [|c1 [|c2 r2]]; try done. rewrite (second_ok_3 _ _ H3).
    apply andb_true_iff in Hv as [Hok Hv]. rewrite Hok. by rewrite Hrec by (simpl; auto; lia). }
  destruct (byte_in 240 244 c) eqn:H4; [|done].
  destruct r as [|c1 [|c2 [|c3 r3]]]; try done. rewrite (second_ok_4 _ _ H4).
  apply andb_true_iff in Hv as [Hok Hv]. rewrite Hok. by rewrite Hrec by (simpl; auto; lia).
Qed.

Definition valid_map (m : gmap string string) : Prop :=
  map_Forall (fun k v => valid_utf8 k = true /\ valid_utf8 v = true) m.

Lemma foldl_insert_lookup (l : list (string * string)) (m : gmap string string) k :
  NoDup l.*1 ->
  foldl (fun acc p => <[p.1 := p.2]> acc) m l !! k =
    match (list_to_map l : gmap string string) !! k with Some v => Some v | None => m !! k end.
Proof.
  revert m. induction l as [|[k' v'] l IH]; intros m Hnd; [done|]. apply NoDup_cons in Hnd as [Hni Hnd].
  cbn [foldl fst snd]. rewrite (IH _ Hnd), list_to_map_cons.
  destruct (decide (k = k')) as [->|Hne].
  - rewrite (not_elem_of_list_to_map_1 l k' Hni), !lookup_insert_eq. done.
  - by rewrite !lookup_insert_ne by done.
Qed.

(** A map of well-formed texts reads back as it was. *)
Lemma json_map_valid m : valid_map m -> json_map m = m.
Proof.
  intros Hv. unfold json_map.
  assert (Hp : merge_sort key_le (map_to_list m) ≡ₚ map_to_list m) by apply merge_sort_Permutation.
  transitivity (foldl (fun acc p => <[p.1 := p.2]> acc) (∅ : gmap string string) (merge_sort key_le (map_to_list m))).
  - assert (Hall : Forall (fun p => valid_utf8 p.1 = true /\ valid_utf8 p.2 = true) (merge_sort key_le (map_to_list m))).
    { rewrite Hp. apply Forall_forall. intros [k v] Hin%elem_of_map_to_list. exact (Hv k v Hin). }
    clear Hp. revert Hall. generalize (∅ : gmap string string) as acc.
    induction (merge_sort key_le (map_to_list m)) as [|p l IH]; intros acc Hall; [done|].
    apply Forall_cons_1 in Hall as [[Hk Hx] Hall]. cbn [foldl].
    rewrite (json_string_valid _ Hk), (json_string_valid _ Hx). by apply IH.
  - apply map_eq. intros k. rewrite foldl_insert_lookup by (rewrite Hp; apply NoDup_fst_map_to_list).
    rewrite (list_to_map_proper _ (map_to_list m)) by (done || (rewrite Hp; apply NoDup_fst_map_to_list)).
    rewrite list_to_map_to_list. by destruct (m !! k).
Qed.

Lemma json_strings_valid l : Forall (fun s => valid_utf8 s = true) l -> json_string <$> l = l.
Proof. induction 1 as [|s l Hs _ IH]; [done|]. cbn. by rewrite json_string_valid, IH. Qed.

(** The names and addresses of a snapshot are well-formed texts. *)
Definition valid_snapshot (s : TargetSnapshot) : Prop :=
  valid_map (DependencyHashes s) /\ valid_map (ConfigHashes s) /\
  Forall (fun e => valid_utf8 e = true) (NetworkEndpoints s).

(** A snapshot does not drift from the row it was stored in. *)
Lemma stored_snapshot_no_drift range s id fp :
  fair range -> valid_snapshot s -> compareSnapshots range (Some (snapshot_row s id fp)) (Some s) = [].
Proof.
  intros Hf (Hd & Hc & He). rewrite compareSnapshots_unfold.
  assert (Hn : tracked_deltas range (snapshot_row s id fp) s = []).
  { apply elem_of_nil_inv. intros d [H|[H|H]]%(tracked_deltas_exact _ _ _ _ Hf);
      unfold snapshot_row in H; cbn in H; rewrite ?(json_map_valid _ Hd), ?(json_map_valid _ Hc),
      ?(json_strings_valid _ He) in H; destruct H; congruence. }
  rewrite Hn. unfold content_changed, snapshot_row. cbn. by rewrite String.eqb_refl, !andb_false_r.
Qed.

(** ** What a fingerprint binds *)

Lemma has_nul_app a b : has_nul (a ++ b) = has_nul a || has_nul b.
Proof. unfold has_nul. by rewrite sall_app, negb_andb. Qed.

Lemma Join_NUL_inj l l' :
  l <> [] -> l' <> [] -> Forall (fun s => has_nul s = false) l -> Forall (fun s => has_nul s = false) l' ->
  Join l NUL = Join l' NUL -> l = l'.
Proof.
  intros Hn Hn' H. revert l' Hn'. induction H as [|x l Hx Hl IH]; [done|]. clear Hn.
  intros [|x' l'] Hn' H' Heq; [done|]. apply Forall_cons_1 in H' as [Hx' Hl'].
  assert (Hlone : forall a b c, has_nul a = false -> a = b ++ NUL ++ c -> False).
  { intros a b c Ha ->. rewrite !has_nul_app, orb_true_r in Ha. done. }
  destruct l as [|y l], l' as [|y' l'].
  - cbn in Heq. by subst.
  - by destruct (Hlone x x' (Join (y' :: l') NUL) Hx).
  - by destruct (Hlone x' x (Join (y :: l) NUL) Hx').
  - change (x ++ NUL ++ Join (y :: l) NUL = x' ++ NUL ++ Join (y' :: l') NUL) in Heq.
    apply nul_split in Heq as [-> Heq]; [|done|done]. by rewrite (IH ltac:(done) (y' :: l')).
Qed.

Lemma part_inj key v v' : part key v = part key v' -> v = v'.
Proof. unfold part. intros H%sapp_inv_head. injection H. done. Qed.

Lemma bool_text_inj b b' : bool_text b = bool_text b' -> b = b'.
Proof. by destruct b, b'. Qed.

Lemma cons_inv {A} (x y : A) l k : x :: l = y :: k -> x = y /\ l = k.
Proof. by intros [= -> ->]. Qed.

(** Equal lists of parts have equal values. *)
Ltac inject_parts H :=
  repeat (let H1 := fresh "Hpart" in apply cons_inv in H as [H1 H]);
  repeat match goal with H : part _ _ = part _ _ |- _ => apply part_inj in H end;
  repeat match goal with H : bool_text _ = bool_text _ |- _ => apply bool_text_inj in H end;
  repeat match goal with H : pretty _ = pretty _ |- _ => apply (inj pretty) in H end.

Section Fingerprints.
Context {U : GoUnicode}.

(** The inputs that decide about a kind of scanner. *)
Definition same_setup (type : string) (env env' : ScannerSetup) : Prop :=
  Current env = Current env' /\
  (type = InstallSkill -> skill_scanner env = skill_scanner env' /\
     scannerBinaryVersion env (Binary (skill_scanner env)) = scannerBinaryVersion env' (Binary (skill_scanner env')) /\
     ResolveLLM env "scanners.skill" = ResolveLLM env' "scanners.skill") /\
  (type = InstallMCP -> mcp_scanner env = mcp_scanner env' /\
     scannerBinaryVersion env (MCPBinary (mcp_scanner env)) = scannerBinaryVersion env' (MCPBinary (mcp_scanner env')) /\
     ResolveLLM env "scanners.mcp" = ResolveLLM env' "scanners.mcp") /\
  (type = InstallPlugin -> plugin_scanner env = plugin_scanner env' /\
     scannerBinaryVersion env (plugin_scanner env) = scannerBinaryVersion env' (plugin_scanner env') /\
     ResolveLLM env "scanners.plugin" = ResolveLLM env' "scanners.plugin").

Lemma LLM_eq l l' : Model l = Model l' -> Provider l = Provider l' -> BaseURL l = BaseURL l' -> l = l'.
Proof. destruct l, l'. simpl. by intros -> -> ->. Qed.

Lemma provenance_parts_inj p p' : provenance_parts p = provenance_parts p' -> p = p'.
Proof. destruct p, p'. unfold provenance_parts. cbn. intros H. inject_parts H. by subst. Qed.

Lemma fingerprint_parts_inj type env env' :
  fingerprint_parts env type = fingerprint_parts env' type -> same_setup type env env'.
Proof.
  unfold fingerprint_parts. intros [_ Heq]%cons_inv.
  apply app_inj_2 in Heq as [Heq Hprov%provenance_parts_inj]; [|done]. split; [done|]. unfold kind_parts in Heq. split_and!.
  - intros ->. cbn in Heq. inject_parts Heq. split_and!; [|done|by apply LLM_eq].
    destruct (skill_scanner env), (skill_scanner env'). simpl in *. by subst.
  - intros ->. cbn in Heq. inject_parts Heq. split_and!; [|done|by apply LLM_eq].
    destruct (mcp_scanner env), (mcp_scanner env'). simpl in *. by subst.
  - intros ->. cbn in Heq. inject_parts Heq. split_and!; [done|done|by apply LLM_eq].
Qed.
End Fingerprints.
