(* ===== verification/RescanProps.v ===== *)
(** * What the rescan guarantees (theorems about Rescan and Snapshot)

    Drift reports are exact; a baseline with a scan id always has a scan behind
    it that was started after its contents were hashed, and never loses its scan
    id; content that differs from its baseline raises an alert whatever the
    scanner, the logger or the database do; what is skipped is unchanged.  Runs
    at the end show where the guarantees stop. *)
From stdpp Require Import base list gmap strings pretty sorting.
From Stdlib Require Import ZArith Lia Ascii.
From S2P Require Import Prelude GoStrings Paths Regexp Netguard Snapshot Watcher Rescan RescanFacts.

Local Open Scope string_scope.

Section Steps.
Context {U : GoUnicode} {N : GoNet}.
Context (sha256 : string -> string) (marshal_entry : MCPServerEntry -> string) (gated webhooks : bool).

Notation snapshotForEvent := (snapshotForEvent sha256 marshal_entry).
Notation rescanTarget := (rescanTarget sha256 marshal_entry gated webhooks).
Notation rescan_known := (rescan_known gated webhooks).
Notation fingerprint v := (cachedFingerprint sha256 (a_setup (vt_answers v)) (Type_ (vt_evt v)) (vt_cache v)).1.
Notation step := (step sha256 marshal_entry gated webhooks).

(** The scanner ran on the target and the logger recorded the scan [id]. *)
Definition scanned_as (a : Answers) (evt : InstallEvent) (id : string) : Prop :=
  exists scan r r', a_scanner a = Some scan /\ scan (a_scan_world a) (scanTargetFor (a_scan_world a) evt) = ScanOk r /\
    a_log_scan a r = (r', Some id).

Lemma scanAndEmit_spec a evt s s' es result id :
  scanAndEmit a evt s = (s', es, result, id) ->
  target_snapshots s' = target_snapshots s /\ (id <> "" -> scanned_as a evt id) /\
  (id <> "" -> exists t, ScanRun (Type_ evt) t ∈ es).
Proof.
  unfold scanAndEmit, emitRescanResult, scanned_as.
  destruct (a_scanner a) as [scan|]; [|by intros [= <- <- <- <-]].
  destruct (scan _ _) as [| |r] eqn:Hs; [by intros [= <- <- <- <-]..|].
  destruct (a_log_scan a r) as [r' [i|]] eqn:Hl; intros [= <- <- <- <-]; [|done].
  split_and!; [done|eauto 10|]. intros _. eexists. by apply list_elem_of_singleton.
Qed.

(** What one visit does to the rows: nothing; or it writes the row of the target
    with a scan of this visit, or without a scan over a row that had none; or it
    renews a row of the same content. *)
Inductive row_change (v : Visit) (m : gmap (string * string) SnapshotRow) : gmap (string * string) SnapshotRow -> Prop :=
| row_kept : row_change v m m
| row_scanned snap id :
    snapshotForEvent (a_world (vt_answers v)) (vt_evt v) = SnapOk snap ->
    id <> "" -> scanned_as (vt_answers v) (vt_evt v) id ->
    row_change v m (<[target_key (vt_evt v) := snapshot_row snap id (fingerprint v)]> m)
| row_unscanned snap fp :
    snapshotForEvent (a_world (vt_answers v)) (vt_evt v) = SnapOk snap ->
    (forall b, m !! target_key (vt_evt v) = Some b -> row_ScanID b = "") ->
    row_change v m (<[target_key (vt_evt v) := snapshot_row snap "" fp]> m)
| row_renewed snap b :
    snapshotForEvent (a_world (vt_answers v)) (vt_evt v) = SnapOk snap ->
    m !! target_key (vt_evt v) = Some b -> ContentHash snap = row_ContentHash b ->
    row_change v m (<[target_key (vt_evt v) := snapshot_row snap (row_ScanID b) (row_ScannerFingerprint b)]> m).

Lemma persist_rows a evt snap id fp s :
  target_snapshots (persistSnapshot a evt snap id fp s) = target_snapshots s \/
  target_snapshots (persistSnapshot a evt snap id fp s) = <[target_key evt := snapshot_row snap id fp]> (target_snapshots s).
Proof. unfold persistSnapshot. destruct (a_set_fails a); auto. Qed.

(** A row that is written after a scan attempt. *)
Lemma persist_change v snap id s s1 m :
  snapshotForEvent (a_world (vt_answers v)) (vt_evt v) = SnapOk snap ->
  target_snapshots s1 = m -> target_snapshots s = m ->
  (id <> "" -> scanned_as (vt_answers v) (vt_evt v) id) ->
  (id = "" -> forall b, m !! target_key (vt_evt v) = Some b -> row_ScanID b = "") ->
  row_change v m (target_snapshots (persistSnapshot (vt_answers v) (vt_evt v) snap id (fingerprint v) s1)).
Proof.
  intros Hs H1 H2 Hsc Hun.
  destruct (persist_rows (vt_answers v) (vt_evt v) snap id (fingerprint v) s1) as [-> | ->]; rewrite H1; [constructor|].
  destruct (decide (id = "")) as [->|Hid]; [by apply row_unscanned; auto|by apply row_scanned; auto].
Qed.

Lemma unchanged_decision b cur fp :
  (shouldRescan (Some b) cur fp gated).1 = false ->
  gated = true /\ row_ScanID b <> "" /\ row_ContentHash b <> "" /\ row_ContentHash b = ContentHash cur /\
  row_ScannerFingerprint b = fp.
Proof.
  unfold shouldRescan. destruct gated; [|done]. cbn [negb].
  destruct (row_ScanID b =? "") eqn:Hi; [done|]. apply String.eqb_neq in Hi.
  destruct (_ || _) eqn:Hc; [done|]. apply orb_false_iff in Hc as [He%String.eqb_neq Hh%negb_false_iff%String.eqb_eq].
  destruct (negb (row_ScannerFingerprint b =? fp)) eqn:Hf; [done|].
  apply negb_false_iff, String.eqb_eq in Hf. done.
Qed.

Lemma step_row_change v s s' es :
  step v s = Some (s', es) -> row_change v (target_snapshots s) (target_snapshots s').
Proof.
  unfold Rescan.step. intros ([[[s1 es1] cache] o] & Hr & [= <- <-])%bind_Some.
  unfold Rescan.rescanTarget in Hr. destruct (snapshotForEvent _ _) as [cur| | |] eqn:Hsnap; simplify_eq; try constructor.
  destruct (cachedFingerprint _ _ _ _) as [fp cache'] eqn:Hfp.
  destruct (a_get_fails _); simplify_eq; [constructor|].
  assert (fp = fingerprint v) as -> by by rewrite Hfp.
  destruct (target_snapshots s !! _) as [b|] eqn:Hb.
  - destruct (rescan_known _ _ _ _ _ _) as [[s2 es2] o2] eqn:Hk; simplify_eq.
    unfold Rescan.rescan_known in Hk. destruct (negb _) eqn:Hd.
    { apply negb_true_iff, unchanged_decision in Hd as (_ & _ & _ & Hh & _). simplify_eq.
      case_bool_decide; [constructor|].
      destruct (persist_rows (vt_answers v) (vt_evt v) cur (row_ScanID b) (row_ScannerFingerprint b) s) as [-> | ->];
        [constructor|by apply row_renewed]. }
    destruct (scanAndEmit _ _ _) as [[[s3 es3] result] id] eqn:He.
    apply scanAndEmit_spec in He as (Hs3 & Hsc & _).
    destruct ((id =? "") && _) eqn:Hkeep; simplify_eq.
    { rewrite Hs3. constructor. }
    eapply persist_change; [done|done|done|done|]. intros -> b' Hb'. simplify_eq. simpl in Hkeep.
    by apply negb_false_iff, String.eqb_eq in Hkeep.
  - destruct (scanAndEmit _ _ _) as [[[s3 es3] result] id] eqn:He; simplify_eq.
    apply scanAndEmit_spec in He as (Hs3 & Hsc & _).
    eapply persist_change; [done|done|done|done|]. intros _ b' Hb'. congruence.
Qed.

(** ** Baselines *)

(** The visit at which the row was scanned: the snapshot was taken first, then
    the scanner ran, and the logger recorded that scan. *)
Definition scanned_at (v : Visit) (key : string * string) (b : SnapshotRow) : Prop :=
  target_key (vt_evt v) = key /\
  (exists snap, snapshotForEvent (a_world (vt_answers v)) (vt_evt v) = SnapOk snap /\
                ContentHash snap = row_ContentHash b) /\
  row_ScannerFingerprint b = fingerprint v /\
  scanned_as (vt_answers v) (vt_evt v) (row_ScanID b).

(** C15: every baseline with a scan id is backed by a scan.  In any history of
    visits from an empty table, whatever the file system, the scanners, the
    logger and the database answered, there was a visit of this target that
    hashed the stored contents, ran the scanner under the stored fingerprint and
    recorded the stored scan id. *)
Theorem baseline_is_scanned ls s tr key b :
  reachable step empty_state ls s tr ->
  target_snapshots s !! key = Some b -> row_ScanID b <> "" ->
  exists v, v ∈ ls /\ scanned_at v key b.
Proof.
  intros Hr. revert key b.
  refine (reachable_ind_inv step (fun ls s _ => forall key b, target_snapshots s !! key = Some b ->
            row_ScanID b <> "" -> exists v, v ∈ ls /\ scanned_at v key b) _ _ _ _ _ _ Hr).
  { intros key b Hb. cbn in Hb. by rewrite lookup_empty in Hb. }
  clear. intros ls s tr v s' es IH Hstep key b Hb Hid.
  assert (Hold : forall b0, target_snapshots s !! key = Some b0 -> row_ScanID b0 <> "" ->
            exists v0, v0 ∈ (ls ++ [v])%list /\ scanned_at v0 key b0).
  { intros b0 Hb0 Hid0. destruct (IH key b0 Hb0 Hid0) as (v0 & Hin & Hsc). exists v0. split; [|done].
    apply elem_of_app. auto. }
  destruct (step_row_change _ _ _ _ Hstep) as [|snap id Hs Hn Hsc|snap fp Hs Hn|snap b0 Hs Hb0 Hh];
    [by apply Hold|..]; apply lookup_insert_Some in Hb as [[Hk <-]|[Hk Hb]]; try by apply Hold.
  - exists v. split; [apply elem_of_app; right; by apply list_elem_of_singleton|]. split_and!; eauto.
  - subst key. destruct (Hold b0 Hb0 Hid) as (v0 & Hin & Hk & (snap0 & Hs0 & Hh0) & Hf & Hsc). exists v0.
    split; [done|]. split_and!; [done| |done|done]. exists snap0. split; [done|]. simpl. congruence.
Qed.

(** A baseline with a scan is never given up.  One visit keeps the scan id of
    the row, or replaces the row by the snapshot and the scan of this visit; in
    particular a scanner that is missing or fails cannot make changed contents
    the trusted baseline. *)
Theorem baseline_never_downgraded v s s' es key b :
  step v s = Some (s', es) -> target_snapshots s !! key = Some b -> row_ScanID b <> "" ->
  exists b', target_snapshots s' !! key = Some b' /\
    ((row_ScanID b' = row_ScanID b /\ row_ContentHash b' = row_ContentHash b /\
      row_ScannerFingerprint b' = row_ScannerFingerprint b) \/
     (row_ScanID b' <> "" /\ scanned_at v key b')).
Proof.
  intros Hstep Hb Hid.
  destruct (step_row_change _ _ _ _ Hstep) as [|snap id Hs Hn Hsc|snap fp Hs Hn|snap b0 Hs Hb0 Hh].
  { exists b. auto. }
  all: destruct (decide (target_key (vt_evt v) = key)) as [Hk|Hk];
    [|exists b; rewrite lookup_insert_ne by done; auto].
  all: subst key; eexists; split; [apply lookup_insert_eq|].
  - right. split; [done|]. split_and!; eauto.
  - destruct (Hid (Hn b Hb)).
  - left. simplify_eq. simpl. auto.
Qed.

(** ** Alerts *)

Lemma max_severity_from ds : forall mx,
  let r := foldl (fun mx d => if (SeverityRank mx <? SeverityRank (d_Severity d))%Z then d_Severity d else mx) mx ds in
  (SeverityRank mx <= SeverityRank r)%Z /\ (forall d, d ∈ ds -> SeverityRank (d_Severity d) <= SeverityRank r)%Z.
Proof.
  induction ds as [|d ds IH]; intros mx; cbn [foldl]; [split; [done|by intros d ?%elem_of_nil]|].
  destruct (IH (if (SeverityRank mx <? SeverityRank (d_Severity d))%Z then d_Severity d else mx)) as [H1 H2].
  destruct (Z.ltb_spec (SeverityRank mx) (SeverityRank (d_Severity d))).
  - split; [lia|]. intros e [->|He]%elem_of_cons; [lia|auto].
  - split; [lia|]. intros e [->|He]%elem_of_cons; [lia|auto].
Qed.

Lemma max_severity_bound ds d : d ∈ ds -> (SeverityRank (d_Severity d) <= SeverityRank (max_severity ds))%Z.
Proof. apply (max_severity_from ds "INFO"). Qed.

(** The event of a visit covers this drift, at a severity no lower than any of it. *)
Definition alerted (evt : InstallEvent) (es : list effect) (ds : list DriftDelta) : Prop :=
  exists al, Alert al ∈ es /\ al_Target al = Path evt /\ ds ⊆ al_Deltas al /\
    forall d, d ∈ al_Deltas al -> (SeverityRank (d_Severity d) <= SeverityRank (al_Severity al))%Z.

Lemma alerts_alerted evt ds ds' : ds' <> [] -> ds' ⊆ ds -> alerted evt (alerts webhooks evt ds) ds'.
Proof.
  intros Hn Hs. exists (drift_alert evt ds). unfold alerts. rewrite bool_decide_eq_false_2.
  - split_and!; [by apply elem_of_app; left; apply elem_of_cons; left|done|done|]. intros d. apply max_severity_bound.
  - intros ->. destruct ds' as [|d ds']; [done|]. assert (Hd : d ∈ ([] : list DriftDelta)) by (apply Hs, elem_of_cons; auto).
    by apply elem_of_nil in Hd.
Qed.

Lemma alerted_weaken evt es es' ds : es' ⊆ es -> alerted evt es' ds -> alerted evt es ds.
Proof. intros Hs (al & Hin & H). exists al. split; [by apply Hs|done]. Qed.

Lemma rescan_known_alerts a evt b cur fp s s' es o :
  rescan_known a evt b cur fp s = (s', es, o) ->
  compareSnapshots (a_range a) (Some b) (Some cur) <> [] ->
  alerted evt es (compareSnapshots (a_range a) (Some b) (Some cur)).
Proof.
  unfold Rescan.rescan_known. intros Hk Hn. destruct (negb _); [simplify_eq; by apply alerts_alerted|].
  destruct (scanAndEmit a evt s) as [[[s1 es1] result] id] eqn:He.
  assert (es = (es1 ++ alerts webhooks evt (compareSnapshots (a_range a) (Some b) (Some cur) ++
                  findingDrift a (Some b) result s1))%list) as -> by (destruct (_ && _); by simplify_eq).
  eapply alerted_weaken; [|apply alerts_alerted; [exact Hn|]]; intros x Hx; apply elem_of_app; eauto.
Qed.

(** C16: changed contents always raise an alert.  When the contents of a target
    hash to something else than its baseline, the visit logs an alert with every
    tracked drift, or with the content change if nothing tracked changed, at a
    severity no lower than any of its deltas, whether or not the scanner, the
    logger or the writing of the new baseline succeed.  The one exception is a
    baseline that cannot be read: then the visit does nothing at all and leaves
    the baseline as it was, for a later visit to compare with. *)
Theorem drift_is_alerted v s s' es b cur :
  step v s = Some (s', es) -> fair (a_range (vt_answers v)) ->
  target_snapshots s !! target_key (vt_evt v) = Some b ->
  snapshotForEvent (a_world (vt_answers v)) (vt_evt v) = SnapOk cur ->
  content_changed b cur = true ->
  (a_get_fails (vt_answers v) = true /\ s' = s /\ es = []) \/
  (a_get_fails (vt_answers v) = false /\
   exists ds, alerted (vt_evt v) es ds /\ ds <> [] /\
    ((forall d, d ∈ ds <-> tracked_drift b cur d) \/
     ((forall d, ~ tracked_drift b cur d) /\ ds = [content_delta (row_ContentHash b) (ContentHash cur)]))).
Proof.
  intros Hstep Hf Hb Hsnap Hc. unfold Rescan.step in Hstep.
  apply bind_Some in Hstep as ([[[s1 es1] cache] o] & Hr & [= <- <-]).
  unfold Rescan.rescanTarget in Hr. rewrite Hsnap in Hr. destruct (cachedFingerprint _ _ _ _) as [fp cache'].
  destruct (a_get_fails (vt_answers v)) eqn:Hget; [left; by simplify_eq|right; split; [done|]].
  rewrite Hb in Hr. destruct (rescan_known _ _ _ _ _ _) as [[s2 es2] o2] eqn:Hk. simplify_eq.
  exists (compareSnapshots (a_range (vt_answers v)) (Some b) (Some cur)).
  pose proof (content_changed_reported (a_range (vt_answers v)) _ _ Hc) as Hne.
  split_and!; [by eapply rescan_known_alerts|done|]. rewrite compareSnapshots_unfold, Hc. simpl.
  case_bool_decide as Hn.
  - right. split; [|done]. intros d Hd%(tracked_deltas_exact _ _ _ _ Hf). rewrite Hn in Hd. by apply elem_of_nil in Hd.
  - left. intros d. by apply tracked_deltas_exact.
Qed.

(** ** The gate *)

(** Only unchanged targets are skipped.  A target with a baseline that is
    not scanned has the contents of its baseline, a baseline that was scanned and
    a current fingerprint; and skipping it runs no scanner. *)
Theorem skipped_is_unchanged a evt cache s s' es cache' b cur :
  rescanTarget a evt cache s = Some (s', es, cache', rescanSkipped) ->
  a_get_fails a = false -> target_snapshots s !! target_key evt = Some b ->
  snapshotForEvent (a_world a) evt = SnapOk cur ->
  gated = true /\ row_ScanID b <> "" /\ row_ContentHash b = ContentHash cur /\
  row_ScannerFingerprint b = (cachedFingerprint sha256 (a_setup a) (Type_ evt) cache).1 /\
  (forall type target, ScanRun type target ∉ es) /\ scan_results s' = scan_results s.
Proof.
  unfold Rescan.rescanTarget. intros Hr Hget Hb Hsnap. rewrite Hsnap, Hget, Hb in Hr.
  destruct (cachedFingerprint _ _ _ _) as [fp c]. unfold Rescan.rescan_known in Hr.
  destruct (negb _) eqn:Hd.
  - apply negb_true_iff, unchanged_decision in Hd as (? & ? & _ & ? & ?). simplify_eq.
    split_and!; [done|done|done|done| |].
    + intros type target. unfold alerts. case_bool_decide; [apply not_elem_of_nil|].
      unfold emitDriftAlerts. destruct webhooks; set_solver.
    + case_bool_decide; [done|]. unfold persistSnapshot. by destruct (a_set_fails a).
  - destruct (scanAndEmit a evt s) as [[[s1 es1] result] id]. destruct (_ && _); simplify_eq.
Qed.

(** An unchanged target costs nothing.  Once a snapshot of well-formed names
    is stored with its scan and fingerprint, a visit that finds the same snapshot
    and fingerprint scans nothing, writes nothing and reports nothing. *)
Theorem unchanged_is_silent a evt cache s cur id :
  gated = true -> a_get_fails a = false -> fair (a_range a) ->
  snapshotForEvent (a_world a) evt = SnapOk cur -> valid_snapshot cur -> ContentHash cur <> "" -> id <> "" ->
  target_snapshots s !! target_key evt =
    Some (snapshot_row cur id (cachedFingerprint sha256 (a_setup a) (Type_ evt) cache).1) ->
  rescanTarget a evt cache s =
    Some (s, [], (cachedFingerprint sha256 (a_setup a) (Type_ evt) cache).2, rescanSkipped).
Proof.
  intros Hg Hget Hf Hsnap Hv Hh Hid Hb. unfold Rescan.rescanTarget. rewrite Hsnap, Hget, Hb.
  destruct (cachedFingerprint _ _ _ _) as [fp c]. cbn [fst snd]. unfold Rescan.rescan_known, alerts.
  rewrite (stored_snapshot_no_drift _ _ _ _ Hf Hv).
  assert (Hs : (shouldRescan (Some (snapshot_row cur id fp)) cur fp gated).1 = false).
  { unfold shouldRescan. rewrite Hg. cbn. apply String.eqb_neq in Hid as ->. apply String.eqb_neq in Hh as ->.
    by rewrite !String.eqb_refl. }
  by rewrite Hs.
Qed.

(** ** Cycles *)

(** A special file stops the rescan: when the snapshot of a target never
    returns, neither does the cycle, and no target behind it is visited. *)
Theorem hanging_target_stops_rescan answers pre evt post s :
  (forall i, i <= length pre -> (answers i).1 = false) ->
  snapshotForEvent (a_world (answers (length pre)).2) evt = SnapHangs ->
  runRescanCycle sha256 marshal_entry gated webhooks answers (pre ++ evt :: post) s = None.
Proof.
  intros Hc Hh. unfold runRescanCycle. rewrite bool_decide_eq_false_2 by (by destruct pre).
  enough (Hloop : forall i cache sc sk s, (forall j, j <= length pre -> (answers (i + j)).1 = false) ->
            snapshotForEvent (a_world (answers (i + length pre)).2) evt = SnapHangs ->
            rescan_loop sha256 marshal_entry gated webhooks answers i (pre ++ evt :: post) cache sc sk s = None).
  { by rewrite (Hloop 0 ∅ 0%Z 0%Z s Hc Hh). }
  clear Hc Hh. induction pre as [|e pre IH]; intros i cache sc sk s0 Hc Hh; cbn [app rescan_loop].
  - specialize (Hc 0 ltac:(done)). rewrite Nat.add_0_r in *. destruct (answers i) as [cancelled a].
    cbn in Hc, Hh. subst cancelled. unfold Rescan.rescanTarget. by rewrite Hh.
  - pose proof (Hc 0 ltac:(lia)) as H0. rewrite Nat.add_0_r in H0. destruct (answers i) as [cancelled a].
    cbn in H0. subst cancelled. destruct (rescanTarget a e cache s0) as [[[[s1 es1] cache'] o]|]; [|done]. cbn.
    rewrite IH; [done| |].
    + intros j Hj. specialize (Hc (S j)). rewrite Nat.add_succ_r in Hc. apply Hc. cbn. lia.
    + cbn in Hh. by rewrite Nat.add_succ_r in Hh.
Qed.

Lemma rescanTarget_cache a evt cache s s' es cache' o :
  rescanTarget a evt cache s = Some (s', es, cache', o) ->
  cache ⊆ cache' /\
  (forall cur, snapshotForEvent (a_world a) evt = SnapOk cur ->
     cache' !! Type_ evt = Some (cachedFingerprint sha256 (a_setup a) (Type_ evt) cache).1).
Proof.
  unfold Rescan.rescanTarget. intros Hr.
  destruct (snapshotForEvent _ _) as [cur| | |]; simplify_eq; [|by split; [done|]..].
  assert (Hc : cache ⊆ (cachedFingerprint sha256 (a_setup a) (Type_ evt) cache).2 /\
    (cachedFingerprint sha256 (a_setup a) (Type_ evt) cache).2 !! Type_ evt =
      Some (cachedFingerprint sha256 (a_setup a) (Type_ evt) cache).1).
  { unfold cachedFingerprint. destruct (cache !! Type_ evt) eqn:Hl; cbn; [done|].
    split; [by apply insert_subseteq|apply lookup_insert_eq]. }
  destruct (cachedFingerprint _ _ _ _) as [fp c]. cbn in Hc.
  assert (cache' = c) as ->; [|by destruct Hc].
  destruct (a_get_fails a); [by simplify_eq|]. destruct (target_snapshots s !! _) as [b|].
  - destruct (rescan_known _ _ _ _ _ _) as [[s2 es2] o2]. by simplify_eq.
  - destruct (scanAndEmit a evt s) as [[[s1 es1] result] id]. by simplify_eq.
Qed.

(** The events of a kind in a trace. *)
Definition events (kind : string) (es : list effect) : Z :=
  zlen (List.filter (fun e => match e with WatcherEvent k _ => k =? kind | _ => false end) es).

Lemma events_app kind es es' : events kind (es ++ es') = (events kind es + events kind es')%Z.
Proof. unfold events. by rewrite List.filter_app, zlen_app. Qed.

Lemma alerts_events evt ds : events "rescan_scan" (alerts webhooks evt ds) = 0%Z.
Proof. unfold alerts. case_bool_decide; [done|]. unfold emitDriftAlerts. by destruct webhooks. Qed.

Lemma rescanTarget_events a evt cache s s' es cache' o :
  rescanTarget a evt cache s = Some (s', es, cache', o) -> events "rescan_scan" es = 0%Z.
Proof.
  assert (Hscan : forall s s1 es1 r id, scanAndEmit a evt s = (s1, es1, r, id) -> events "rescan_scan" es1 = 0%Z).
  { intros s0 s1 es1 r id. unfold scanAndEmit. destruct (a_scanner a) as [scan|]; [|by intros [= <- <- <- <-]].
    destruct (scan _ _) as [| |r0]; [by intros [= <- <- <- <-]..|].
    destruct (emitRescanResult a r0 s0) as [[s2 r2] id2]. by intros [= <- <- <- <-]. }
  unfold Rescan.rescanTarget. intros Hr.
  destruct (snapshotForEvent _ _) as [cur| | |]; simplify_eq; try done.
  destruct (cachedFingerprint _ _ _ _) as [fp c]. destruct (a_get_fails a); [by simplify_eq|].
  destruct (target_snapshots s !! _) as [b|].
  - destruct (rescan_known _ _ _ _ _ _) as [[s2 es2] o2] eqn:Hk. simplify_eq. unfold Rescan.rescan_known in Hk.
    destruct (negb _); [simplify_eq; apply alerts_events|].
    destruct (scanAndEmit a evt s) as [[[s1 es1] r] id] eqn:He.
    destruct (_ && _); simplify_eq; by rewrite events_app, (Hscan _ _ _ _ _ He), alerts_events.
  - destruct (scanAndEmit a evt s) as [[[s1 es1] r] id] eqn:He. simplify_eq. by eapply Hscan.
Qed.

(** The visits of one loop, in order, with the caches they saw. *)
Lemma rescan_loop_visits answers targets : forall i cache sc sk s s' es sc' sk' done,
  rescan_loop sha256 marshal_entry gated webhooks answers i targets cache sc sk s = Some (s', es, sc', sk', done) ->
  exists vs tr, run step vs s = Some (s', tr) /\ (vt_evt <$> vs) `prefix_of` targets /\
    (forall v, v ∈ vs -> cache ⊆ vt_cache v) /\
    (forall v v', v ∈ vs -> v' ∈ vs -> Type_ (vt_evt v) = Type_ (vt_evt v') ->
       (exists cur, snapshotForEvent (a_world (vt_answers v)) (vt_evt v) = SnapOk cur) ->
       (exists cur, snapshotForEvent (a_world (vt_answers v')) (vt_evt v') = SnapOk cur) ->
       fingerprint v = fingerprint v') /\
    (sc' + sk' = sc + sk + zlen vs)%Z /\ (sc' = sc + events "rescan_scan" es)%Z /\
    (if done then length vs = length targets else length vs < length targets).
Proof.
  induction targets as [|evt rest IH]; intros i cache sc sk s s' es sc' sk' done Hl; cbn in Hl.
  { simplify_eq. exists [], []. split_and!; [done|done|by intros v ?%elem_of_nil|by intros v ? ?%elem_of_nil|unfold zlen; cbn; lia|unfold events, zlen; cbn; lia|cbn; lia]. }
  destruct (answers i) as [cancelled a]. destruct cancelled; simplify_eq.
  { exists [], []. split_and!; [done|apply prefix_nil|by intros v ?%elem_of_nil|by intros v ? ?%elem_of_nil|unfold zlen; cbn; lia|unfold events, zlen; cbn; lia|cbn; lia]. }
  apply bind_Some in Hl as ([[[s1 es1] cache'] o] & Hr & Hl).
  apply bind_Some in Hl as ([[[[s2 es2] sc2] sk2] d2] & Hl & Heq). simplify_eq.
  destruct (rescanTarget_cache _ _ _ _ _ _ _ _ Hr) as [Hsub Hfp].
  destruct (IH _ _ _ _ _ _ _ _ _ _ Hl) as (vs & tr & Hrun & Hpre & Hcache & Hsame & Hcount & Hscans & Hdone).
  set (v0 := {| vt_evt := evt; vt_answers := a; vt_cache := cache |}).
  assert (Hlater : forall v, v ∈ vs -> Type_ (vt_evt v) = Type_ evt ->
            (exists cur, snapshotForEvent (a_world a) evt = SnapOk cur) -> fingerprint v = fingerprint v0).
  { intros v Hv Ht [cur Hs]. specialize (Hfp cur Hs). unfold cachedFingerprint at 1.
    by rewrite Ht, (lookup_weaken _ _ _ _ Hfp (Hcache v Hv)). }
  exists (v0 :: vs), (es1 ++ tr)%list. split_and!.
  - cbn [run]. unfold Rescan.step at 1. cbn. rewrite Hr. cbn. by rewrite Hrun.
  - by apply prefix_cons.
  - intros v [->|Hv]%elem_of_cons; [done|]. etrans; [exact Hsub|by apply Hcache].
  - intros v v' [->|Hv]%elem_of_cons [->|Hv']%elem_of_cons Ht Hs Hs'; [done| | |by apply Hsame].
    + symmetry. by apply Hlater.
    + by apply Hlater.
  - unfold zlen in *. cbn [length]. destruct o; lia.
  - rewrite Hscans, events_app, (rescanTarget_events _ _ _ _ _ _ _ _ Hr).
    change (WatcherEvent (outcome_event o) (Type_ evt) :: es2) with ([WatcherEvent (outcome_event o) (Type_ evt)] ++ es2)%list.
    rewrite events_app. destruct o; unfold events at 2, zlen; cbn; lia.
  - destruct done; cbn [length]; lia.
Qed.

(** A cycle is a run of visits.  It visits its targets in order, each once;
    every visit of one kind of target compares with the same fingerprint; and
    the line it logs at the end accounts for every target. *)
Theorem cycle_refines_visits answers targets s s' es :
  runRescanCycle sha256 marshal_entry gated webhooks answers targets s = Some (s', es) ->
  exists vs tr, reachable step s vs s' tr /\ (vt_evt <$> vs) `prefix_of` targets /\
    (forall v v', v ∈ vs -> v' ∈ vs -> Type_ (vt_evt v) = Type_ (vt_evt v') ->
       (exists cur, snapshotForEvent (a_world (vt_answers v)) (vt_evt v) = SnapOk cur) ->
       (exists cur, snapshotForEvent (a_world (vt_answers v')) (vt_evt v') = SnapOk cur) ->
       fingerprint v = fingerprint v') /\
    (length vs < length targets \/ targets = [] \/
     exists es' scanned, es = (es' ++ [CycleLogged (zlen targets) scanned (zlen targets - scanned)])%list /\
       scanned = events "rescan_scan" es').
Proof.
  unfold runRescanCycle. case_bool_decide as Ht.
  { intros [= <- <-]. subst. exists [], []. split_and!; [constructor|done|by intros v ? ?%elem_of_nil|auto]. }
  intros ([[[[s1 es1] sc] sk] d] & Hl & [= <- <-])%bind_Some.
  apply rescan_loop_visits in Hl as (vs & tr & Hrun & Hpre & _ & Hsame & Hcount & Hscans & Hdone).
  exists vs, tr. split_and!; [by apply run_reachable|done|done|].
  destruct d; [|auto]. right. right. exists es1, sc. split; [|lia].
  replace (zlen targets - sc)%Z with sk; [done|]. unfold zlen in *. lia.
Qed.
End Steps.

(** ** Reports *)

(** The report of a comparison is exact.  For any order of the loops it lists
    each new, modified and removed dependency manifest and configuration file and
    each new and removed endpoint, nothing else; only when there is none does it
    fall back to the content hash. *)
Theorem compareSnapshots_exact range b c :
  fair range ->
  ((exists d, tracked_drift b c d) ->
     forall d, d ∈ compareSnapshots range (Some b) (Some c) <-> tracked_drift b c d) /\
  ((forall d, ~ tracked_drift b c d) ->
     compareSnapshots range (Some b) (Some c) =
       if content_changed b c then [content_delta (row_ContentHash b) (ContentHash c)] else []) /\
  (forall range', fair range' ->
     compareSnapshots range (Some b) (Some c) ≡ₚ compareSnapshots range' (Some b) (Some c)).
Proof.
  intros Hf. rewrite compareSnapshots_unfold. split_and!.
  - intros [d0 Hd0%(tracked_deltas_exact range _ _ _ Hf)] d. rewrite bool_decide_eq_false_2, andb_false_r.
    + by apply tracked_deltas_exact.
    + intros Hn. rewrite Hn in Hd0. by apply elem_of_nil in Hd0.
  - intros Hno. assert (Hn : tracked_deltas range b c = []).
    { apply elem_of_nil_inv. intros d Hd%(tracked_deltas_exact _ _ _ _ Hf). by eapply Hno. }
    rewrite Hn. by rewrite andb_true_r.
  - intros range' Hf'. rewrite compareSnapshots_unfold.
    pose proof (tracked_deltas_perm range range' b c Hf Hf') as Hp.
    destruct (content_changed b c); simpl; [|done].
    destruct (decide (tracked_deltas range b c = [])) as [Hn|Hn].
    + rewrite Hn in *. by apply Permutation_nil in Hp as ->.
    + rewrite !bool_decide_eq_false_2; [done| |done]. intros Hn'. rewrite Hn' in Hp.
      by apply Hn, Permutation_nil, symmetry.
Qed.

Section Reports.
Context {U : GoUnicode}.

Lemma findingDriftKey_inj f g :
  Forall (fun s => has_nul s = false) [f_Scanner f; f_Title f; f_Location f; f_Scanner g; f_Title g; f_Location g] ->
  findingDriftKey f = findingDriftKey g ->
  f_Scanner f = f_Scanner g /\ f_Title f = f_Title g /\ f_Location f = f_Location g.
Proof.
  intros H Heq. repeat apply Forall_cons_1 in H as [? H].
  apply Join_NUL_inj in Heq; [by simplify_eq|done|done|by repeat constructor|by repeat constructor].
Qed.

(** The report on findings is exact.  Of the findings that share scanner,
    title and place the last one counts on either side; the report lists the
    keys that are new, gone, or of another severity, for any order of the loops. *)
Theorem diffFindings_exact range prev curr :
  fair range ->
  (forall d, d ∈ diffFindings range prev curr <-> finding_drift (by_key prev) (by_key curr) d) /\
  (forall fs k, by_key fs !! k = last (List.filter (fun f => findingDriftKey f =? k) fs)) /\
  (forall range', fair range' -> diffFindings range prev curr ≡ₚ diffFindings range' prev curr).
Proof.
  intros Hf. split_and!.
  - intros d. by apply diffFindings_drift.
  - apply by_key_lookup.
  - intros range'. by apply diffFindings_perm.
Qed.

(** The fingerprint binds the setup.  If SHA-256 does not collide on the two
    texts and no part has a zero byte, equal fingerprints of a kind of target mean
    the same scanner settings, binary version, model, and provenance. *)
Theorem fingerprint_binds_setup sha256 type env env' :
  Forall (fun p => has_nul p = false) (fingerprint_parts env type ++ fingerprint_parts env' type) ->
  collision_free sha256 [Join (fingerprint_parts env type) NUL; Join (fingerprint_parts env' type) NUL] ->
  scannerFingerprint sha256 env type = scannerFingerprint sha256 env' type ->
  same_setup type env env'.
Proof.
  intros [H H']%Forall_app Hc Heq. apply fingerprint_parts_inj.
  apply Join_NUL_inj; [done|done|done|done|].
  eapply (hash_of_inj _ _ _ _ Hc); [| |exact Heq]; repeat (apply elem_of_cons; (by left) || right).
Qed.

(** The rule ids of an alert: each once, in the order of the deltas, at most
    [max], and all of them when they are fewer. *)
Lemma collect_rules_spec max ds : forall out,
  NoDup out -> (zlen out < max)%Z ->
  let r := collect_rules ds max out in
  NoDup r /\ (zlen r <= max)%Z /\ out `prefix_of` r /\
  (forall i, i ∈ r -> i ∈ out \/ i <> "" /\ exists d, d ∈ ds /\ d_RuleID d = i) /\
  ((zlen r < max)%Z -> forall d, d ∈ ds -> d_RuleID d <> "" -> d_RuleID d ∈ r).
Proof.
  induction ds as [|d ds IH]; intros out Hnd Hlt; cbn [collect_rules].
  { split_and!; [done|lia|done|auto|]. by intros _ d ?%elem_of_nil. }
  destruct (d_RuleID d =? "") eqn:Hd.
  { apply String.eqb_eq in Hd. destruct (IH out Hnd Hlt) as (? & ? & ? & Hin & Hall). split_and!; try done.
    - intros i [?|(? & e & ? & ?)]%Hin; [auto|]. right. split; [done|]. exists e. rewrite elem_of_cons. auto.
    - intros Hr e [->|He]%elem_of_cons Hne; [done|by apply Hall]. }
  apply String.eqb_neq in Hd. case_bool_decide as Hseen.
  { destruct (IH out Hnd Hlt) as (? & ? & Hpre & Hin & Hall). split_and!; try done.
    - intros i [?|(? & e & ? & ?)]%Hin; [auto|]. right. split; [done|]. exists e. rewrite elem_of_cons. auto.
    - intros Hr e [->|He]%elem_of_cons Hne; [|by apply Hall].
      destruct Hpre as [k ->]. apply elem_of_app. auto. }
  assert (Hnd' : NoDup (out ++ [d_RuleID d])).
  { apply NoDup_app. split_and!; [done| |apply NoDup_singleton]. by intros i ? ->%list_elem_of_singleton. }
  assert (Hnew : forall i, i ∈ (out ++ [d_RuleID d])%list ->
            i ∈ out \/ i <> "" /\ exists e, e ∈ d :: ds /\ d_RuleID e = i).
  { intros i [?| ->%list_elem_of_singleton]%elem_of_app; [auto|]. right. split; [done|]. exists d. by rewrite elem_of_cons; auto. }
  destruct (Z.leb_spec max (zlen (out ++ [d_RuleID d]))) as [Hfull|Hmore].
  { split_and!; [done| |by eexists|done|lia]. rewrite zlen_app. unfold zlen at 2. cbn. lia. }
  destruct (IH _ Hnd' Hmore) as (? & ? & Hpre & Hin & Hall). split_and!; try done.
  - etrans; [|exact Hpre]. by eexists.
  - intros i [?|(? & e & ? & ?)]%Hin; [by apply Hnew|]. right. split; [done|]. exists e. rewrite elem_of_cons. auto.
  - intros Hr e [->|He]%elem_of_cons Hne; [|by apply Hall].
    destruct Hpre as [k ->]. rewrite !elem_of_app, list_elem_of_singleton. auto.
Qed.

Theorem driftRuleIDs_exact ds max :
  (0 < max)%Z ->
  let r := driftRuleIDs ds max in
  NoDup r /\ (zlen r <= max)%Z /\
  (forall i, i ∈ r -> i <> "" /\ exists d, d ∈ ds /\ d_RuleID d = i) /\
  ((zlen r < max)%Z -> forall d, d ∈ ds -> d_RuleID d <> "" -> d_RuleID d ∈ r).
Proof.
  intros Hm. unfold driftRuleIDs. destruct (Z.leb_spec max 0); [lia|]. cbn [orb]. case_bool_decide as Hn.
  { subst. split_and!; [apply NoDup_nil_2|unfold zlen; cbn; lia|by intros i ?%elem_of_nil|by intros _ d ?%elem_of_nil]. }
  destruct (collect_rules_spec max ds [] (NoDup_nil_2)) as (? & ? & _ & Hin & ?); [unfold zlen; cbn; lia|].
  split_and!; try done. by intros i [?%elem_of_nil|?]%Hin.
Qed.
End Reports.

(** ** Concrete runs *)

Definition in_order {A} : visits A := fun _ m => map_to_list m.

Lemma in_order_fair {A} : fair (@in_order A).
Proof. by intros n m. Qed.

Definition w_evt : InstallEvent :=
  {| Type_ := InstallSkill; Name := "s"; Path := "/skills/s"; EvtConnector := ""; Timestamp := 0 |}.

Definition world_of (t : node) : World :=
  {| Stat := fun _ => StatOk t; ReadMCPServers := Some []; leaves_root := fun _ _ => false |}.

Definition w_setup : ScannerSetup :=
  {| skill_scanner := {| Binary := "skill-scanner"; UseLLM := false; UseBehavioral := false; EnableMeta := false;
       UseTrigger := false; UseVirusTotal := false; UseAIDefense := false; LLMConsensus := 0; Policy := ""; Lenient := false |};
     mcp_scanner := {| MCPBinary := ""; Analyzers := ""; ScanPrompts := false; ScanResources := false; ScanInstructions := false |};
     plugin_scanner := ""; ResolveLLM := fun _ => {| Model := ""; Provider := ""; BaseURL := "" |};
     probe := fun _ => "1.0"; Current := {| SchemaVersion := 1; ProvContentHash := "p"; Generation := 1; BinaryVersion := "v" |} |}.

(** A scanner that finds the word evil in the second file, at the time it runs. *)
Definition w_clean : ScanResult := {| Findings := []; ExitCode := 0; ScanError := "" |}.

Definition w_scanner (w : World) (target : string) : ScanAnswer :=
  match Stat w target with
  | StatOk (Directory (Some [_; (_, Plain (ReadOk code))])) =>
      if code =? "evil" then
        ScanOk {| Findings := [{| f_Severity := "CRITICAL"; f_Scanner := "x"; f_Title := "evil";
                                  f_Location := "run.py"; f_RuleID := "E1" |}]; ExitCode := 0; ScanError := "" |}
      else ScanOk w_clean
  | StatOk _ => ScanOk w_clean
  | _ => ScanFails
  end.

Definition w_answers (snapped scanned : node) (scanner : bool) (id : string) : Answers :=
  {| a_world := world_of snapped; a_setup := w_setup; a_get_fails := false; a_load_fails := false;
     a_set_fails := false; a_scanner := if scanner then Some w_scanner else None;
     a_scan_world := world_of scanned; a_log_scan := fun r => (r, Some id);
     a_range := in_order; a_range_findings := in_order |}.

Definition w_visit (snapped scanned : node) (scanner : bool) (id : string) : Visit :=
  {| vt_evt := w_evt; vt_answers := w_answers snapped scanned scanner id; vt_cache := ∅ |}.

Definition w_entry (e : MCPServerEntry) : string := srv_Name e ++ srv_URL e.

Definition w_step : Visit -> State -> option (State * list effect) :=
  step (U := ascii_only) (N := no_net) sum32 w_entry true false.

(** The state behind a run; the empty one if the run hangs. *)
Definition w_after (vs : list Visit) : State :=
  match run w_step vs empty_state with Some (s, _) => s | None => empty_state end.

Definition w_trace (vs : list Visit) : list effect :=
  match run w_step vs empty_state with Some (_, tr) => tr | None => [] end.

Definition good := skill_tree "good".
Definition evil := skill_tree "evil".

(** The skill is installed and scanned; it turns evil while its scanner is
    missing; the scanner comes back. *)
Definition w_history : list Visit :=
  [w_visit good good true "scan-1"; w_visit evil evil false ""; w_visit evil evil true "scan-2"].

Lemma w_history_runs : run w_step w_history empty_state = Some (w_after w_history, w_trace w_history).
Proof. vm_compute. reflexivity. Qed.

Definition row_id (s : State) : string :=
  match target_snapshots s !! (InstallSkill, "/skills/s") with Some b => row_ScanID b | None => "" end.

Definition w_row (s : State) : SnapshotRow :=
  match target_snapshots s !! (InstallSkill, "/skills/s") with
  | Some b => b
  | None => snapshot_row {| ContentHash := ""; DependencyHashes := ∅; ConfigHashes := ∅; NetworkEndpoints := [] |} "" ""
  end.

Definition severities (es : list effect) : list string :=
  omap (fun e => match e with Alert a => Some (al_Severity a) | _ => None end) es.

(** The change raises an alert at once, and again, with the finding, when the
    scanner is back; the baseline without a scanner stays the scanned one. *)
Example w_history_ok :
  row_id (w_after (take 2 w_history)) = "scan-1" /\ row_id (w_after w_history) = "scan-2" /\
  severities (w_trace (take 2 w_history)) = ["MEDIUM"] /\ severities (w_trace w_history) = ["MEDIUM"; "CRITICAL"].
Proof. vm_compute. repeat split. Qed.

Lemma baseline_is_scanned_witness :
  exists v, v ∈ w_history /\
    scanned_at (U := ascii_only) (N := no_net) sum32 w_entry v (InstallSkill, "/skills/s") (w_row (w_after w_history)).
Proof.
  apply (baseline_is_scanned (U := ascii_only) (N := no_net) sum32 w_entry true false
           w_history (w_after w_history) (w_trace w_history)).
  - apply run_reachable, w_history_runs.
  - vm_compute. reflexivity.
  - vm_compute. discriminate.
Defined.

Lemma baseline_never_downgraded_witness :
  exists b', target_snapshots (w_after (take 2 w_history)) !! (InstallSkill, "/skills/s") = Some b' /\ row_ScanID b' <> "".
Proof.
  destruct (baseline_never_downgraded (U := ascii_only) (N := no_net) sum32 w_entry true false
              (w_visit evil evil false "") (w_after (take 1 w_history)) (w_after (take 2 w_history))
              (drop 1 (w_trace (take 2 w_history))) (InstallSkill, "/skills/s") (w_row (w_after (take 1 w_history))))
    as (b' & Hb & [(Hi & _)|(Hi & _)]).
  - vm_compute. reflexivity.
  - vm_compute. reflexivity.
  - vm_compute. discriminate.
  - exists b'. split; [exact Hb|]. rewrite Hi. vm_compute. discriminate.
  - exists b'. split; [exact Hb|exact Hi].
Defined.

Definition snap_of (t : node) : TargetSnapshot :=
  match SnapshotTarget (U := ascii_only) (N := no_net) sum32 (fun _ => false) "s" t with
  | Some s => s
  | None => {| ContentHash := ""; DependencyHashes := ∅; ConfigHashes := ∅; NetworkEndpoints := [] |}
  end.

Lemma drift_is_alerted_witness :
  exists ds, alerted (U := ascii_only) w_evt (drop 1 (w_trace (take 2 w_history))) ds /\ ds <> [].
Proof.
  destruct (drift_is_alerted (U := ascii_only) (N := no_net) sum32 w_entry true false
              (w_visit evil evil false "") (w_after (take 1 w_history)) (w_after (take 2 w_history))
              (drop 1 (w_trace (take 2 w_history))) (w_row (w_after (take 1 w_history))) (snap_of evil))
    as [(Hget & _)|(_ & ds & Ha & Hn & _)].
  - vm_compute. reflexivity.
  - exact in_order_fair.
  - vm_compute. reflexivity.
  - vm_compute. reflexivity.
  - vm_compute. reflexivity.
  - discriminate Hget.
  - exists ds. exact (conj Ha Hn).
Defined.

Lemma skill_tree_valid code : valid_utf8 code = true -> valid_snapshot (snap_of good).
Proof.
  intros _. split_and!; [intros k v Hk|intros k v Hk|by repeat constructor].
  - change (DependencyHashes (snap_of good)) with (∅ : gmap string string) in Hk. by rewrite lookup_empty in Hk.
  - change (ConfigHashes (snap_of good)) with (∅ : gmap string string) in Hk. by rewrite lookup_empty in Hk.
Qed.

Lemma unchanged_is_silent_witness :
  rescanTarget (U := ascii_only) (N := no_net) sum32 w_entry true false (w_answers good good true "scan-2") w_evt ∅
    (w_after (take 1 w_history)) =
  Some (w_after (take 1 w_history), [],
        (cachedFingerprint (U := ascii_only) sum32 w_setup InstallSkill ∅).2, rescanSkipped).
Proof.
  apply (unchanged_is_silent (U := ascii_only) (N := no_net) sum32 w_entry true false
           (w_answers good good true "scan-2") w_evt ∅ (w_after (take 1 w_history)) (snap_of good) "scan-1").
  - reflexivity.
  - reflexivity.
  - exact in_order_fair.
  - vm_compute. reflexivity.
  - apply (skill_tree_valid ""). reflexivity.
  - vm_compute. discriminate.
  - discriminate.
  - vm_compute. reflexivity.
Defined.

Lemma compareSnapshots_exact_witness :
  compareSnapshots in_order (Some (w_row (w_after (take 1 w_history)))) (Some (snap_of evil)) =
    [content_delta (ContentHash (snap_of good)) (ContentHash (snap_of evil))].
Proof.
  destruct (compareSnapshots_exact in_order (w_row (w_after (take 1 w_history))) (snap_of evil) in_order_fair)
    as (_ & Hno & _).
  rewrite Hno.
  - vm_compute. reflexivity.
  - intros d Hd%(tracked_deltas_exact in_order _ _ _ in_order_fair). revert Hd. vm_compute. by intros ?%elem_of_nil.
Defined.

Definition w_finding (title sev : string) : Finding :=
  {| f_Severity := sev; f_Scanner := "x"; f_Title := title; f_Location := ""; f_RuleID := title |}.

Lemma diffFindings_exact_witness :
  finding_drift (U := ascii_only) (by_key [w_finding "a" "LOW"]) (by_key [w_finding "a" "LOW"; w_finding "a" "HIGH"])
    (finding_delta DriftSeverityChange "HIGH" "finding severity changed: a (LOW -> HIGH)" "LOW" "HIGH" (w_finding "a" "HIGH")).
Proof.
  apply (diffFindings_exact (U := ascii_only) in_order [w_finding "a" "LOW"] [w_finding "a" "LOW"; w_finding "a" "HIGH"]
           in_order_fair).
  match goal with |- ?d ∈ ?l => assert (Hl : l = [d]) by (vm_compute; reflexivity) end.
  rewrite Hl. by apply list_elem_of_singleton.
Defined.

(** Two skills and a plugin, all found good. *)
Definition w_targets : list InstallEvent :=
  [w_evt; {| Type_ := InstallPlugin; Name := "p"; Path := "/plugins/p"; EvtConnector := ""; Timestamp := 0 |};
   {| Type_ := InstallSkill; Name := "t"; Path := "/skills/t"; EvtConnector := ""; Timestamp := 0 |}].

Definition w_cycle (answers : nat -> bool * Answers) : option (State * list effect) :=
  runRescanCycle (U := ascii_only) (N := no_net) sum32 w_entry true false answers w_targets empty_state.

Definition all_good (i : nat) : bool * Answers := (false, w_answers good good true (pretty i)).

Definition w_cycle_end : State * list effect := default (empty_state, []) (w_cycle all_good).

Lemma cycle_refines_visits_witness :
  w_cycle all_good = Some w_cycle_end /\ last w_cycle_end.2 = Some (CycleLogged 3 3 0) /\
  exists vs tr, reachable w_step empty_state vs w_cycle_end.1 tr /\ (vt_evt <$> vs) `prefix_of` w_targets.
Proof.
  assert (Hc : w_cycle all_good = Some (w_cycle_end.1, w_cycle_end.2)) by (vm_compute; reflexivity).
  split; [exact Hc|]. split; [vm_compute; reflexivity|].
  destruct (cycle_refines_visits (U := ascii_only) (N := no_net) sum32 w_entry true false all_good w_targets
              empty_state w_cycle_end.1 w_cycle_end.2 Hc) as (vs & tr & Hr & Hp & _).
  exists vs, tr. exact (conj Hr Hp).
Defined.

Lemma fingerprint_binds_setup_witness : same_setup (U := ascii_only) InstallSkill w_setup w_setup.
Proof.
  apply (fingerprint_binds_setup (U := ascii_only) sum32 InstallSkill w_setup w_setup).
  - by repeat constructor.
  - apply collision_free_eval. vm_compute. reflexivity.
  - reflexivity.
Defined.

(** ** Where the guarantees stop *)

(** The scan reads the target after the snapshot: a skill that is evil while it
    is hashed and good while it is scanned is a trusted baseline with a clean
    scan, and is skipped from then on. *)
Definition w_race : list Visit :=
  [w_visit evil good true "scan-1"; w_visit evil evil true "scan-2"; w_visit evil evil true "scan-3"].

Example scan_races_snapshot :
  row_ContentHash (w_row (w_after w_race)) = ContentHash (snap_of evil) /\ row_id (w_after w_race) = "scan-1" /\
  w_trace w_race = [ScanRun InstallSkill "/skills/s"] /\
  scan_results (w_after w_race) !! "scan-1" = Some w_clean.
Proof. vm_compute. repeat split. Qed.

(** One file whose name carries the hash of a program is replaced by that program
    and the rest: nothing is reported and nothing scanned. *)
Definition w_forged : list Visit :=
  [w_visit (one_file sum32 "run me" "evil") (one_file sum32 "run me" "evil") true "scan-1";
   w_visit (two_files "run me" "evil") (two_files "run me" "evil") true "scan-2"].

Example forged_name_is_silent :
  w_trace w_forged = [ScanRun InstallSkill "/skills/s"] /\ row_id (w_after w_forged) = "scan-1".
Proof. vm_compute. repeat split. Qed.

(** A directory whose name is not UTF-8 does not survive the JSON columns: its
    manifest is reported as new and as removed on every visit, for ever. *)
Definition bad_name : string := String (ascii_of_nat 255) "".

Definition bad_tree : node :=
  Directory (Some [("SKILL.md", Plain (ReadOk "# a skill"));
                   (bad_name, Directory (Some [("package.json", Plain (ReadOk "{}"))]))]).

Definition w_bad : State := w_after [w_visit bad_tree bad_tree true "scan-1"].

Example bad_name_alerts_forever :
  match w_step (w_visit bad_tree bad_tree true "scan-2") w_bad with
  | Some (s, es) => s = w_bad /\ severities es = ["MEDIUM"]
  | None => False
  end.
Proof. vm_compute. split; reflexivity. Qed.

(** A FIFO in one skill stops the cycle, and with it the rescan of all others. *)
Definition fifo_tree : node := Directory (Some [("SKILL.md", Plain (ReadOk "# a skill")); ("pipe", Plain ReadBlocks)]).

Definition first_has_fifo (i : nat) : bool * Answers :=
  match i with 0 => (false, w_answers fifo_tree fifo_tree true "0") | S _ => all_good i end.

Lemma hanging_target_stops_rescan_witness : w_cycle first_has_fifo = None.
Proof.
  apply (hanging_target_stops_rescan (U := ascii_only) (N := no_net) sum32 w_entry true false first_has_fifo
           [] w_evt (drop 1 w_targets)).
  - intros i Hi. destruct i; [reflexivity|]. exfalso. cbn in Hi. lia.
  - vm_compute. reflexivity.
Defined.
