(* ===== verification/PolicyFiles.v ===== *)
(** * The watch on policy files (internal/watcher/policy_files_watch.go)

    Every two seconds the watcher reads the block and allow lists of the data
    directory and the files of the policy directory, compares their hashes with
    those of the last poll and records each change, with the difference of the
    listed rules and a new provenance generation.  Reading, hashing and the YAML
    parser are arguments; so is the order in which a loop visits a map or set.
    The generation is a counter of the process that starts at 0 and that saving
    the configuration bumps too; the state of a poll carries its value. *)
From stdpp Require Import base list gmap strings.
From Stdlib Require Import ZArith Lia Ascii.
From S2P Require Import Prelude GoStrings Paths Netguard Snapshot Watcher Rescan RescanFacts RescanProps.

Local Open Scope string_scope.

(** ** Rule keys *)

(** A row of a list file: the two fields that are strings, if they are. *)
Record YamlRow := { target_type : option string; target_name : option string }.

Definition row_key (row : YamlRow) : list string :=
  let tt := default "" (target_type row) in
  let tn := default "" (target_name row) in
  if negb (tt =? "") && negb (tn =? "") then [tt ++ ":" ++ tn] else [].

(** [None] for a text that is no list of mappings. *)
Definition listKeysFromYAMLBytes (parse : string -> option (list YamlRow)) (b : string) : list string :=
  match parse b with
  | None | Some [] => []
  | Some rows => sort_Strings (rows ≫= row_key)
  end.

(** ** Differences *)

Record ActivityDiffEntry := { di_Path : string; di_Op : string; di_Before : string; di_After : string }.

(** The order in which the n-th loop over a set visits it. *)
Definition set_visits : Type := nat -> gset string -> list string.

Definition diffPolicySnapshot (range : set_visits) (oldHash newHash : string) (oldKeys newKeys : list string)
    : list ActivityDiffEntry :=
  let oldSet : gset string := list_to_set oldKeys in
  let newSet : gset string := list_to_set newKeys in
  ([{| di_Path := "sha256"; di_Op := "replace"; di_Before := oldHash; di_After := newHash |}] ++
   (range 0 newSet ≫= fun k => if bool_decide (k ∈ oldSet) then []
      else [{| di_Path := "rules[" ++ k ++ "]"; di_Op := "add"; di_Before := ""; di_After := k |}]) ++
   (range 1 oldSet ≫= fun k => if bool_decide (k ∈ newSet) then []
      else [{| di_Path := "rules[" ++ k ++ "]"; di_Op := "remove"; di_Before := k; di_After := "" |}]))%list.

(** ** One poll *)

Inductive FileRead := FileData (b : string) | FileMissing | FileError.

(** A file as the poll sees it, and as the watcher remembers it. *)
Record snap := { s_hash : string; s_keys : list string }.

Record PolicyState := {
  policyFileHashes : gmap string string;
  policyListSnap : gmap string (list string);
  generation : Z;
}.

Record Activity := {
  ac_TargetID : string;
  ac_Reason : string;
  ac_Diff : list ActivityDiffEntry;
  ac_VersionTo : Z;
}.

Inductive poll_effect := ProvenanceBump | PolicyReload (path : string) (a : Activity).

Section Poll.
Context (sha256 : string -> string) (parse : string -> option (list YamlRow)).

(** What one poll meets: the paths, their contents, and the orders of its loops
    over maps and, for each path, over the sets of rules. *)
Record Poll := {
  p_paths : list string;
  p_read : string -> FileRead;
  p_range_next : gmap string snap -> list (string * snap);
  p_range_old : gmap string string -> list (string * string);
  p_range_keys : string -> set_visits;
}.

(** The reading loop; [None] when a file can neither be read nor is missing. *)
Fixpoint read_all (p : Poll) (paths : list string) (next : gmap string snap) : option (gmap string snap) :=
  match paths with
  | [] => Some next
  | f :: fs =>
      match p_read p f with
      | FileError => None
      | FileMissing => read_all p fs (<[f := {| s_hash := ""; s_keys := [] |}]> next)
      | FileData b =>
          read_all p fs (<[f := {| s_hash := hash_of sha256 b; s_keys := listKeysFromYAMLBytes parse b |}]> next)
      end
  end.

Definition old_hash (s : PolicyState) (f : string) : string := default "" (policyFileHashes s !! f).
Definition old_keys (s : PolicyState) (f : string) : list string := default [] (policyListSnap s !! f).

Definition changed_paths (p : Poll) (next : gmap string snap) (s : PolicyState) : list string :=
  ((p_range_next p next ≫= fun fs => if old_hash s fs.1 =? s_hash fs.2 then [] else [fs.1]) ++
   (p_range_old p (policyFileHashes s) ≫= fun fh => if bool_decide (next !! fh.1 = None) then [fh.1] else []))%list.

Definition reload (p : Poll) (f reason newHash : string) (newKeys : list string) (s : PolicyState) : poll_effect :=
  PolicyReload f
    {| ac_TargetID := filepath_Base f; ac_Reason := reason;
       ac_Diff := diffPolicySnapshot (p_range_keys p f) (old_hash s f) newHash (old_keys s f) newKeys;
       ac_VersionTo := generation s |}.

(** The body of the loop over the changed paths. *)
Definition record_change (p : Poll) (next : gmap string snap) (f : string) (s : PolicyState)
    : PolicyState * poll_effect :=
  match next !! f with
  | None =>
      ({| policyFileHashes := delete f (policyFileHashes s); policyListSnap := delete f (policyListSnap s);
          generation := generation s |},
       reload p f "on-disk policy or list file removed" "" [] s)
  | Some sn =>
      ({| policyFileHashes := <[f := s_hash sn]> (policyFileHashes s);
          policyListSnap := <[f := s_keys sn]> (policyListSnap s); generation := generation s |},
       reload p f "on-disk policy or list file changed" (s_hash sn) (s_keys sn) s)
  end.

Fixpoint record_changes (p : Poll) (next : gmap string snap) (changed : list string) (s : PolicyState)
    : PolicyState * list poll_effect :=
  match changed with
  | [] => (s, [])
  | f :: fs =>
      let '(s1, e) := record_change p next f s in
      let '(s2, es) := record_changes p next fs s1 in (s2, e :: es)
  end.

(** [version.BumpGeneration], a 64-bit counter of the process. *)
Definition bump (s : PolicyState) : PolicyState :=
  {| policyFileHashes := policyFileHashes s; policyListSnap := policyListSnap s; generation := u64 (generation s + 1) |}.

(** The first poll with files only remembers them. *)
Definition remember (next : gmap string snap) (s : PolicyState) : PolicyState :=
  {| policyFileHashes := s_hash <$> next; policyListSnap := (s_keys <$> next) ∪ policyListSnap s; generation := generation s |}.

Definition pollPolicyFilesOnce (p : Poll) (s : PolicyState) : PolicyState * list poll_effect :=
  match p_paths p with
  | [] => (s, [])
  | paths =>
      match read_all p paths ∅ with
      | None => (s, [])
      | Some next =>
          if bool_decide (policyFileHashes s = ∅) then (remember next s, [])
          else match changed_paths p next s with
          | [] => (s, [])
          | changed =>
              let '(s', es) := record_changes p next changed (bump s) in (s', ProvenanceBump :: es)
          end
      end
  end.
End Poll.

(** ** The paths *)

(** A file of the policy directory counts by its extension. *)
Definition policy_file {U : GoUnicode} (path : string) : bool :=
  bool_decide (ToLower (Ext (filepath_Base path)) ∈ [".yaml"; ".yml"; ".json"; ".rego"]).

(** [walked] are the files below the policy directory that could be visited. *)
Definition policyWatchPaths {U : GoUnicode} (dataDir policyDir : string) (walked : list string) : list string :=
  ((if negb (dataDir =? "") then [path_Join [dataDir; "block_list.yaml"]; path_Join [dataDir; "allow_list.yaml"]] else []) ++
   (if negb (policyDir =? "") then List.filter policy_file walked else []))%list.

(** ** Facts *)

Lemma loop_unless (l : list string) (X Y : gset string) (f : string -> ActivityDiffEntry) d :
  l ≡ₚ elements X ->
  d ∈ (l ≫= fun k => if bool_decide (k ∈ Y) then [] else [f k]) <-> exists k, k ∈ X /\ k ∉ Y /\ d = f k.
Proof.
  intros Hl. rewrite list_elem_of_bind. split.
  - intros (k & Hd & Hk). rewrite Hl, elem_of_elements in Hk. exists k.
    case_bool_decide; [by apply elem_of_nil in Hd|]. by apply list_elem_of_singleton in Hd.
  - intros (k & Hk & Hn & ->). exists k. rewrite bool_decide_eq_false_2 by done.
    by rewrite Hl, elem_of_elements, list_elem_of_singleton.
Qed.

Definition fair_sets (range : set_visits) : Prop := forall n X, range n X ≡ₚ elements X.

Lemma diffPolicySnapshot_exact range oldHash newHash oldKeys newKeys d :
  fair_sets range ->
  d ∈ diffPolicySnapshot range oldHash newHash oldKeys newKeys <->
  d = {| di_Path := "sha256"; di_Op := "replace"; di_Before := oldHash; di_After := newHash |} \/
  (exists k, k ∈ newKeys /\ k ∉ oldKeys /\
     d = {| di_Path := "rules[" ++ k ++ "]"; di_Op := "add"; di_Before := ""; di_After := k |}) \/
  (exists k, k ∈ oldKeys /\ k ∉ newKeys /\
     d = {| di_Path := "rules[" ++ k ++ "]"; di_Op := "remove"; di_Before := k; di_After := "" |}).
Proof.
  intros Hr. unfold diffPolicySnapshot.
  rewrite !elem_of_app, list_elem_of_singleton, (loop_unless _ _ _ _ _ (Hr 0 _)), (loop_unless _ _ _ _ _ (Hr 1 _)).
  by repeat setoid_rewrite elem_of_list_to_set.
Qed.

Section PollFacts.
Context (sha256 : string -> string) (parse : string -> option (list YamlRow)).

Notation poll := (pollPolicyFilesOnce sha256 parse).

(** The orders visit every entry once. *)
Definition fair_poll (p : Poll) : Prop :=
  (forall m, p_range_next p m ≡ₚ map_to_list m) /\ (forall m, p_range_old p m ≡ₚ map_to_list m).

Definition new_hash (next : gmap string snap) (f : string) : string := default "" (s_hash <$> next !! f).

(** What counts as a change: another hash, or a file that is no longer looked at. *)
Definition is_changed (next : gmap string snap) (s : PolicyState) (f : string) : Prop :=
  new_hash next f <> old_hash s f \/ next !! f = None /\ policyFileHashes s !! f <> None.

Lemma changed_paths_spec p next s f :
  fair_poll p -> f ∈ changed_paths p next s <-> is_changed next s f.
Proof.
  intros [Hn Ho]. unfold changed_paths, is_changed, new_hash.
  rewrite elem_of_app, !list_elem_of_bind. split.
  - intros [([f' sn] & Hf & Hin)|([f' h] & Hf & Hin)]; cbn in Hf.
    + rewrite Hn in Hin. apply elem_of_map_to_list in Hin.
      destruct (old_hash s f' =? s_hash sn) eqn:He; [by apply elem_of_nil in Hf|].
      apply list_elem_of_singleton in Hf as ->. rewrite Hin. left. apply String.eqb_neq in He. cbn. congruence.
    + rewrite Ho in Hin. apply elem_of_map_to_list in Hin.
      case_bool_decide as Hnone; [|by apply elem_of_nil in Hf]. apply list_elem_of_singleton in Hf as ->.
      right. split; [done|]. by rewrite Hin.
  - assert (Hgone : next !! f = None -> policyFileHashes s !! f <> None -> exists y : string * string,
      f ∈ (if bool_decide (next !! y.1 = None) then [y.1] else []) /\ y ∈ p_range_old p (policyFileHashes s)).
    { intros Hnone Hh. destruct (policyFileHashes s !! f) as [h|] eqn:Hl; [|done]. exists (f, h). cbn.
      rewrite bool_decide_eq_true_2, list_elem_of_singleton by done. split; [done|]. rewrite Ho. by apply elem_of_map_to_list. }
    intros [Hne|[Hnone Hh]]; [|right; by apply Hgone].
    destruct (next !! f) as [sn|] eqn:Hl; cbn in Hne.
    + left. exists (f, sn). cbn. rewrite (proj2 (String.eqb_neq _ _)) by congruence.
      split; [by apply list_elem_of_singleton|]. rewrite Hn. by apply elem_of_map_to_list.
    + right. apply Hgone; [done|]. unfold old_hash in Hne. by destruct (policyFileHashes s !! f).
Qed.

Lemma NoDup_bind_keys {A} (m : gmap string A) (g : string * A -> list string) l :
  (forall x, g x = [] \/ g x = [x.1]) -> l ≡ₚ map_to_list m -> NoDup (l ≫= g).
Proof.
  intros Hg Hl. assert (Hnd : NoDup l.*1) by (rewrite Hl; apply NoDup_fst_map_to_list). clear Hl.
  induction l as [|x l IH]; [constructor|]. apply NoDup_cons in Hnd as [Hni Hnd].
  change (NoDup (g x ++ l ≫= g)). destruct (Hg x) as [-> | ->]; [by apply IH|].
  apply NoDup_cons. split; [|by apply IH].
  intros (y & Hy & Hin)%list_elem_of_bind. destruct (Hg y) as [Hgy|Hgy]; rewrite Hgy in Hy; [by apply elem_of_nil in Hy|].
  apply list_elem_of_singleton in Hy. apply Hni. apply list_elem_of_fmap. eauto.
Qed.

Lemma changed_paths_NoDup p next s : fair_poll p -> NoDup (changed_paths p next s).
Proof.
  intros [Hn Ho]. apply NoDup_app. split_and!.
  - eapply NoDup_bind_keys; [|apply Hn]. intros x. destruct (_ =? _); auto.
  - intros f (x & Hx & Hin)%list_elem_of_bind (y & Hy & Hin')%list_elem_of_bind.
    destruct (_ =? _); [by apply elem_of_nil in Hx|]. apply list_elem_of_singleton in Hx as ->.
    case_bool_decide as Hnone; [|by apply elem_of_nil in Hy]. apply list_elem_of_singleton in Hy as Heq.
    destruct x as [k sn]. rewrite Hn in Hin. apply elem_of_map_to_list in Hin. cbn in *. congruence.
  - eapply NoDup_bind_keys; [|apply Ho]. intros x. case_bool_decide; auto.
Qed.

(** The loop over the changed paths: each is recorded as it was before the loop. *)
Lemma record_changes_spec p next changed : forall s s' es,
  NoDup changed -> record_changes p next changed s = (s', es) ->
  es = (fun f => (record_change p next f s).2) <$> changed /\ generation s' = generation s /\
  forall f, policyFileHashes s' !! f = (if bool_decide (f ∈ changed) then s_hash <$> next !! f else policyFileHashes s !! f) /\
            policyListSnap s' !! f = (if bool_decide (f ∈ changed) then s_keys <$> next !! f else policyListSnap s !! f).
Proof.
  induction changed as [|g changed IH]; intros s s' es Hnd Hrec; cbn in Hrec; [by simplify_eq|].
  apply NoDup_cons in Hnd as [Hni Hnd].
  assert (H1 : generation (record_change p next g s).1 = generation s /\ forall f,
    policyFileHashes (record_change p next g s).1 !! f =
      (if bool_decide (f = g) then s_hash <$> next !! f else policyFileHashes s !! f) /\
    policyListSnap (record_change p next g s).1 !! f =
      (if bool_decide (f = g) then s_keys <$> next !! f else policyListSnap s !! f)).
  { unfold record_change. destruct (next !! g) as [sn|] eqn:Hg; cbn; (split; [done|]); intros f; case_bool_decide; subst;
      rewrite ?Hg; cbn; by simplify_map_eq. }
  destruct (record_change p next g s) as [s1 e] eqn:He. destruct H1 as [Hgen Hlook]. cbn in Hgen, Hlook.
  destruct (record_changes p next changed s1) as [s2 es2] eqn:Hr. simplify_eq.
  destruct (IH _ _ _ Hnd Hr) as (-> & Hgen2 & Hlook2). split_and!.
  - cbn. rewrite He. f_equal. apply list_fmap_ext. intros i f Hf. unfold record_change, reload, old_hash, old_keys.
    assert (Hne : f <> g) by (intros ->; apply Hni; by eapply list_elem_of_lookup_2).
    destruct (Hlook f) as [Hh Hk]. rewrite bool_decide_eq_false_2 in Hh, Hk by done.
    destruct (next !! f); cbn; by rewrite Hh, Hk, Hgen.
  - congruence.
  - intros f. destruct (Hlook2 f) as [-> ->], (Hlook f) as [-> ->].
    destruct (decide (f = g)) as [->|Hne].
    + rewrite (bool_decide_eq_false_2 (g ∈ changed)), !(bool_decide_eq_true_2) by (done || (apply elem_of_cons; auto)). done.
    + rewrite (bool_decide_eq_false_2 (f = g)) by done.
      rewrite (bool_decide_ext (f ∈ g :: changed) (f ∈ changed)); [done|]. rewrite elem_of_cons. naive_solver.
Qed.

(** A poll that reads everything and remembers something. *)
Definition ready (p : Poll) (next : gmap string snap) (s : PolicyState) : Prop :=
  p_paths p <> [] /\ read_all sha256 parse p (p_paths p) ∅ = Some next /\ policyFileHashes s <> ∅.

Lemma poll_ready p next s :
  ready p next s ->
  poll p s = match changed_paths p next s with
             | [] => (s, [])
             | changed => let '(s', es) := record_changes p next changed (bump s) in (s', ProvenanceBump :: es)
             end.
Proof.
  intros (Hp & Hr & Hh). unfold pollPolicyFilesOnce. destruct (p_paths p) as [|f fs] eqn:Hps; [done|].
  rewrite <- Hps in *. rewrite Hr. by rewrite bool_decide_eq_false_2.
Qed.

Lemma poll_unchanged p next s :
  fair_poll p -> ready p next s -> (forall f, ~ is_changed next s f) -> poll p s = (s, []).
Proof.
  intros Hf Hr Hn. rewrite (poll_ready _ _ _ Hr).
  assert (changed_paths p next s = []) as ->; [|done].
  apply elem_of_nil_inv. intros f Hc. by apply (Hn f), (changed_paths_spec p next s f Hf).
Qed.

(** The paths a poll reports. *)
Definition reported (es : list poll_effect) : list string :=
  omap (fun e => match e with PolicyReload f _ => Some f | ProvenanceBump => None end) es.

Lemma reported_records p next s changed :
  reported ((fun f => (record_change p next f s).2) <$> changed) = changed.
Proof.
  induction changed as [|f changed IH]; [done|]. cbn. unfold reported in IH. rewrite IH.
  unfold record_change, reload. by destruct (next !! f).
Qed.

(** The report on a path compares what was remembered with what was read. *)
Definition right_report (p : Poll) (next : gmap string snap) (s : PolicyState) (f : string) (a : Activity) : Prop :=
  ac_TargetID a = filepath_Base f /\ ac_VersionTo a = u64 (generation s + 1) /\
  ac_Diff a = diffPolicySnapshot (p_range_keys p f) (old_hash s f) (new_hash next f) (old_keys s f)
                (default [] (s_keys <$> next !! f)).

Lemma poll_reports_change p next s s' es f :
  fair_poll p -> ready p next s -> poll p s = (s', es) -> is_changed next s f ->
  generation s' = u64 (generation s + 1) /\ es <> [].
Proof.
  intros Hf Hr Hpoll Hc. apply (changed_paths_spec p next s f Hf) in Hc.
  pose proof (changed_paths_NoDup p next s Hf) as Hnd. rewrite (poll_ready _ _ _ Hr) in Hpoll.
  destruct (changed_paths p next s) as [|c cs]; [by apply elem_of_nil in Hc|].
  destruct (record_changes p next (c :: cs) (bump s)) as [s2 es2] eqn:Hrec. simplify_eq.
  by destruct (record_changes_spec _ _ _ _ _ _ Hnd Hrec) as (_ & -> & _).
Qed.

(** Every change of a policy file is reported, once, and nothing else.  A poll
    reports exactly the paths whose hash differs from the remembered one or that
    are gone, with the difference of their rules, bumps the provenance generation
    if there are any, and afterwards remembers what it read; a poll that reads
    the same again reports nothing. *)
Theorem poll_exact p next s s' es :
  fair_poll p -> ready p next s -> poll p s = (s', es) ->
  NoDup (reported es) /\
  (forall f, f ∈ reported es <-> is_changed next s f) /\
  (forall f a, PolicyReload f a ∈ es -> right_report p next s f a) /\
  generation s' = (if bool_decide (reported es = []) then generation s else u64 (generation s + 1)) /\
  (forall f, old_hash s' f = new_hash next f) /\
  (forall p', fair_poll p' -> ready p' next s' -> poll p' s' = (s', [])).
Proof.
  intros Hf Hr Hpoll. rewrite (poll_ready _ _ _ Hr) in Hpoll.
  pose proof (changed_paths_NoDup p next s Hf) as Hnd.
  assert (Hspec : forall f, f ∈ changed_paths p next s <-> is_changed next s f) by (intros f; by apply changed_paths_spec).
  assert (Hsame : forall f, f ∉ changed_paths p next s -> old_hash s f = new_hash next f).
  { intros f Hn. destruct (decide (new_hash next f = old_hash s f)) as [->|Hne]; [done|].
    destruct Hn. apply Hspec. by left. }
  destruct (changed_paths p next s) as [|c cs] eqn:Hch.
  { simplify_eq. split_and!; [apply NoDup_nil_2|exact Hspec|by intros f a ?%elem_of_nil|done| |].
    - intros f. apply Hsame, not_elem_of_nil.
    - intros p' Hf' Hr'. apply (poll_unchanged p' next); [done|done|]. intros f Hc. apply Hspec in Hc. by apply elem_of_nil in Hc. }
  assert (Hne0 : changed_paths p next s <> []) by (by rewrite Hch).
  rewrite <- Hch in *. clear c cs Hch.
  destruct (record_changes p next _ (bump s)) as [s2 es2] eqn:Hrec. simplify_eq.
  destruct (record_changes_spec _ _ _ _ _ _ Hnd Hrec) as (-> & Hgen & Hlook).
  assert (Hrep : reported (ProvenanceBump :: ((fun f => (record_change p next f (bump s)).2) <$> changed_paths p next s)) =
            changed_paths p next s) by apply reported_records.
  rewrite Hrep. split_and!; [done|done| | | |].
  - intros f a [?|(g & Heq & _)%list_elem_of_fmap]%elem_of_cons; [done|].
    unfold record_change, reload in Heq. unfold right_report, new_hash. destruct (next !! g) eqn:Hg; cbn in Heq; simplify_eq; by rewrite Hg.
  - by rewrite bool_decide_eq_false_2.
  - intros f. destruct (Hlook f) as [Hh _]. unfold old_hash. rewrite Hh.
    case_bool_decide as Hc; [done|]. by apply Hsame.
  - intros p' Hf' Hr'. apply (poll_unchanged p' next); [done|done|]. intros f [Hne|[Hnone Hh]].
    + apply Hne. symmetry. destruct (Hlook f) as [Hh _]. unfold old_hash. rewrite Hh.
      case_bool_decide as Hc; [done|]. by apply Hsame.
    + destruct (Hlook f) as [Hh' _]. rewrite Hh' in Hh. case_bool_decide as Hc; [by rewrite Hnone in Hh|].
      apply Hc, Hspec. by right.
Qed.
End PollFacts.

(** ** With the rescan *)

(** C30: a noticed change of a policy file makes the next cycle scan every target
    again.  When a poll that can read all its files, in a process that has polled
    before, finds one of them changed, the generation it bumps is part of every
    scanner fingerprint: no baseline that was stored under this or an earlier
    generation is current from then on, also after later bumps, whatever the
    contents of the target.  The generation is a counter of the process, so the
    theorem says nothing of rows that an earlier process stored under a higher
    one (see [restart_hides_policy_change]), and a poll that cannot read some file
    notices nothing (see [read_error_hides_changes]). *)
Theorem policy_change_forces_rescan {U : GoUnicode} sha256 parse p next s s' es f type env env' b cur gated :
  fair_poll p -> ready sha256 parse p next s -> pollPolicyFilesOnce sha256 parse p s = (s', es) ->
  is_changed next s f -> (generation s + 1 < two64)%Z ->
  (0 <= Generation (Current env) <= generation s)%Z -> (generation s' <= Generation (Current env'))%Z ->
  Forall (fun x => has_nul x = false) (fingerprint_parts env type ++ fingerprint_parts env' type) ->
  collision_free sha256 [Join (fingerprint_parts env type) NUL; Join (fingerprint_parts env' type) NUL] ->
  row_ScannerFingerprint b = scannerFingerprint sha256 env type ->
  (shouldRescan (Some b) cur (scannerFingerprint sha256 env' type) gated).1 = true.
Proof.
  intros Hf Hr Hpoll Hch Hw Hg Hg' Hnul Hc Hfp.
  destruct (shouldRescan _ _ _ _).1 eqn:Hd; [done|].
  apply unchanged_decision in Hd as (_ & _ & _ & _ & Hsame). rewrite Hfp in Hsame.
  apply (fingerprint_binds_setup sha256 type env env' Hnul Hc) in Hsame as [Hcur _]. rewrite Hcur in Hg.
  destruct (poll_reports_change _ _ _ _ _ _ _ _ Hf Hr Hpoll Hch) as [Hgen _].
  rewrite Hgen in Hg'. unfold u64 in Hg'. rewrite Z.mod_small in Hg'; lia.
Qed.

(** ** A concrete poll *)

Definition w_parse (b : string) : option (list YamlRow) :=
  Some [{| target_type := Some "skill"; target_name := Some b |}; {| target_type := None; target_name := Some "x" |}].

Definition w_poll (content : string) : Poll :=
  {| p_paths := policyWatchPaths (U := ascii_only) "/data" "/policy" ["/policy/a.rego"; "/policy/README"];
     p_read := fun f => if f =? "/data/block_list.yaml" then FileData content
                        else if f =? "/policy/a.rego" then FileData "package a" else FileMissing;
     p_range_next := map_to_list; p_range_old := map_to_list; p_range_keys := fun _ _ X => elements X |}.

Definition no_memory : PolicyState := {| policyFileHashes := ∅; policyListSnap := ∅; generation := 7 |}.

Definition w_seen : PolicyState := (pollPolicyFilesOnce sum32 w_parse (w_poll "evil") no_memory).1.
Definition w_next : gmap string snap := default ∅ (read_all sum32 w_parse (w_poll "worse") (p_paths (w_poll "worse")) ∅).

Lemma w_ready : ready sum32 w_parse (w_poll "worse") w_next w_seen.
Proof.
  split_and!; [discriminate|vm_compute; reflexivity|].
  intros H%(f_equal (fun m => m !! "/policy/a.rego")). vm_compute in H. discriminate.
Qed.

Definition w_polled : PolicyState * list poll_effect := pollPolicyFilesOnce sum32 w_parse (w_poll "worse") w_seen.

Lemma poll_exact_witness : reported w_polled.2 = ["/data/block_list.yaml"] /\ NoDup (reported w_polled.2).
Proof.
  split; [vm_compute; reflexivity|].
  destruct (poll_exact sum32 w_parse (w_poll "worse") w_next w_seen w_polled.1 w_polled.2) as [Hnd _].
  - by split.
  - exact w_ready.
  - apply surjective_pairing.
  - exact Hnd.
Defined.

Definition setup_at (g : Z) : ScannerSetup :=
  {| skill_scanner := skill_scanner w_setup; mcp_scanner := mcp_scanner w_setup; plugin_scanner := plugin_scanner w_setup;
     ResolveLLM := ResolveLLM w_setup; probe := probe w_setup;
     Current := {| SchemaVersion := 1; ProvContentHash := "p"; Generation := g; BinaryVersion := "v" |} |}.

Lemma policy_change_forces_rescan_witness :
  (shouldRescan (Some (snapshot_row (snap_of good) "scan-1" (scannerFingerprint (U := ascii_only) sum32 (setup_at 5) InstallSkill)))
     (snap_of good) (scannerFingerprint (U := ascii_only) sum32 (setup_at 9) InstallSkill) true).1 = true.
Proof.
  apply (policy_change_forces_rescan (U := ascii_only) sum32 w_parse (w_poll "worse") w_next w_seen w_polled.1 w_polled.2
           "/data/block_list.yaml" InstallSkill (setup_at 5) (setup_at 9)).
  - by split.
  - exact w_ready.
  - apply surjective_pairing.
  - left. vm_compute. discriminate.
  - vm_compute. reflexivity.
  - vm_compute. split; discriminate.
  - vm_compute. discriminate.
  - by repeat constructor.
  - apply collision_free_eval. vm_compute. reflexivity.
  - reflexivity.
Defined.

(** After a restart the counter is 0 again and the first poll only remembers: a
    policy file that changed meanwhile is not noticed, and a baseline the
    previous process stored at generation 0 is still current. *)
Example restart_hides_policy_change :
  let restarted := {| policyFileHashes := ∅; policyListSnap := ∅; generation := 0 |} in
  let polled := pollPolicyFilesOnce sum32 w_parse (w_poll "worse") restarted in
  polled.2 = [] /\ generation polled.1 = 0%Z /\
  (shouldRescan (Some (snapshot_row (snap_of good) "scan-1" (scannerFingerprint (U := ascii_only) sum32 (setup_at 0) InstallSkill)))
     (snap_of good) (scannerFingerprint (U := ascii_only) sum32 (setup_at (generation polled.1)) InstallSkill) true).1 = false.
Proof. vm_compute. by split_and!. Qed.

(** One file that can be listed but not read hides every change. *)
Lemma read_error_hides_changes sha256 parse p s f :
  f ∈ p_paths p -> p_read p f = FileError -> pollPolicyFilesOnce sha256 parse p s = (s, []).
Proof.
  intros Hin He. unfold pollPolicyFilesOnce.
  assert (Hn : forall fs next, f ∈ fs -> read_all sha256 parse p fs next = None).
  { clear Hin. induction fs as [|g fs IH]; intros next Hin; [by apply elem_of_nil in Hin|]. cbn.
    apply elem_of_cons in Hin as [<-|Hin]; [by rewrite He|]. destruct (p_read p g); [by apply IH|by apply IH|done]. }
  destruct (p_paths p) as [|g fs] eqn:Hp; [done|]. by rewrite Hn.
Qed.
