(* ===== verification/WatchLoop.v ===== *)
(** * The loop of the install watcher (internal/watcher/watcher.go)

    From a file-system notification to the admission of an asset: [Run] takes
    notifications of the watched directories, remembers when it saw each new
    direct child first, and on every tick admits those that have been there for
    the debounce interval.  A label is one case of its select statement; the
    clock and what stat says at that moment come with it.  The admission itself
    is [Watcher.runAdmission]; here it is an event. *)
From stdpp Require Import base list gmap strings.
From Stdlib Require Import ZArith Lia Ascii.
From S2P Require Import Prelude GoStrings Paths Watcher Rescan.

Local Open Scope string_scope.

(** ** Configuration and state *)

Record WatchConfig := {
  skillDirs : list string;
  pluginDirs : list string;
  debounce : Z;
  work_dir : string;
  connector : string;
}.

(** [New]: an unset interval is half a second. *)
Definition New_debounce (debounceMs : Z) : Z :=
  let d := i64 (debounceMs * Millisecond) in
  if (d <=? 0)%Z then (500 * Millisecond)%Z else d.

(** The loop has ended, or waits with the paths it has seen. *)
Inductive LoopState := Stopped | Running (pending : gmap string Time).

Inductive watch_effect :=
| WatchEvent (kind : string) (type : string)
| WatchError
| WatchStart (dirs : Z)
| WatchStop
| Admit (evt : InstallEvent).

(** The operations of a notification the loop looks at. *)
Record FsOp := { op_Create : bool; op_Rename : bool }.

Inductive watch_label :=
| Notify (path : string) (op : FsOp) (is_dir : bool) (now : Time)
| NotifyError
| Tick (now : Time) (exists_ : string -> bool) (order : gmap string Time -> list (string * Time))
| EventsClosed
| Cancelled.

Section Loop.
Context (cfg : WatchConfig).

(** A directory is only watched if it exists or can be made. *)
Definition Run_start (ensureAndWatch : string -> bool) : option (LoopState * list watch_effect) :=
  let watched := zlen (List.filter ensureAndWatch (skillDirs cfg ++ pluginDirs cfg)) in
  if (watched =? 0)%Z then None else Some (Running ∅, [WatchStart watched]).

Definition isDirectChildDir (path : string) (is_dir : bool) : bool :=
  if negb is_dir then false
  else
    let parentAbs := Abs (work_dir cfg) (path_Dir path) in
    existsb (fun dir => parentAbs =? Abs (work_dir cfg) dir) (skillDirs cfg) ||
    existsb (fun dir => parentAbs =? Abs (work_dir cfg) dir) (pluginDirs cfg).

Definition classifyEvent (path : string) (now : Time) : InstallEvent :=
  let pathAbs := Abs (work_dir cfg) path in
  {| Type_ := if existsb (fun dir => HasPrefix pathAbs (Abs (work_dir cfg) dir)) (pluginDirs cfg)
              then InstallPlugin else InstallSkill;
     Name := filepath_Base path; Path := path; EvtConnector := connector cfg; Timestamp := now |}.

(** The paths a tick takes out of the map, in the order of its loop. *)
Definition ready_paths (now : Time) (visited : list (string * Time)) : list string :=
  fst <$> List.filter (fun pt => (debounce cfg <=? Sub now pt.2)%Z) visited.

Definition processPending (now : Time) (exists_ : string -> bool) (visited : list (string * Time))
    (pending : gmap string Time) : gmap string Time * list watch_effect :=
  let ready := ready_paths now visited in
  (foldr delete pending ready,
   (fun path => Admit (classifyEvent path now)) <$> List.filter exists_ ready).

Definition watch_step (l : watch_label) (s : LoopState) : option (LoopState * list watch_effect) :=
  match s with
  | Stopped => None
  | Running pending =>
      match l with
      | Cancelled => Some (Stopped, [WatchStop])
      | EventsClosed => Some (Stopped, [])
      | NotifyError => Some (s, [WatchError])
      | Notify path op is_dir now =>
          if negb (op_Create op || op_Rename op) then Some (s, [])
          else if negb (isDirectChildDir path is_dir) then Some (s, [])
          else
            Some (Running (match pending !! path with Some _ => pending | None => <[path := now]> pending end),
                  [WatchEvent (if op_Rename op then "rename" else "create") (Type_ (classifyEvent path now))])
      | Tick now exists_ order =>
          let '(pending', es) := processPending now exists_ (order pending) pending in Some (Running pending', es)
      end
  end.

(** ** Facts *)

Definition fair_label (l : watch_label) : Prop :=
  match l with Tick _ _ order => forall m, order m ≡ₚ map_to_list m | _ => True end.

Lemma elem_of_ready now visited pending path :
  visited ≡ₚ map_to_list pending ->
  path ∈ ready_paths now visited <-> exists t, pending !! path = Some t /\ (debounce cfg <= Sub now t)%Z.
Proof.
  intros Hv. unfold ready_paths. rewrite list_elem_of_fmap. split.
  - intros ([p t] & -> & Hin). rewrite list_elem_of_In, filter_In, <- list_elem_of_In, Hv in Hin. cbn in Hin |- *.
    destruct Hin as [Hin%elem_of_map_to_list Ht%Z.leb_le]. eauto.
  - intros (t & Hp & Ht). exists (path, t). split; [done|].
    rewrite list_elem_of_In, filter_In, <- list_elem_of_In, Hv. split; [by apply elem_of_map_to_list|by apply Z.leb_le].
Qed.

Lemma ready_NoDup now visited (pending : gmap string Time) :
  visited ≡ₚ map_to_list pending -> NoDup (ready_paths now visited).
Proof.
  intros Hv. unfold ready_paths.
  assert (Hnd : NoDup visited.*1) by (rewrite Hv; apply NoDup_fst_map_to_list). clear Hv.
  induction visited as [|[p t] v IH]; [constructor|]. apply NoDup_cons in Hnd as [Hni Hnd]. cbn.
  destruct (_ <=? _)%Z; [|by apply IH]. apply NoDup_cons. split; [|by apply IH].
  intros ([p' t'] & Heq & Hin)%list_elem_of_fmap. cbn in Heq. subst p'. apply Hni. apply list_elem_of_fmap. exists (p, t').
  split; [done|]. rewrite list_elem_of_In, filter_In, <- list_elem_of_In in Hin. by destruct Hin.
Qed.

Lemma foldr_delete_lookup (ps : list string) (m : gmap string Time) q :
  foldr delete m ps !! q = if bool_decide (q ∈ ps) then None else m !! q.
Proof.
  induction ps as [|p ps IH]; [done|]. cbn. destruct (decide (q = p)) as [->|Hne].
  - by rewrite lookup_delete_eq, bool_decide_eq_true_2 by (apply elem_of_cons; auto).
  - rewrite lookup_delete_ne, IH by done.
    rewrite (bool_decide_ext (q ∈ p :: ps) (q ∈ ps)); [done|]. rewrite elem_of_cons. naive_solver.
Qed.

(** The admissions of a path in a trace. *)
Definition admissions (path : string) (es : list watch_effect) : list InstallEvent :=
  omap (fun e => match e with Admit evt => if Path evt =? path then Some evt else None | _ => None end) es.

Lemma admissions_fmap path now ps :
  NoDup ps ->
  admissions path ((fun p => Admit (classifyEvent p now)) <$> ps) =
    if bool_decide (path ∈ ps) then [classifyEvent path now] else [].
Proof.
  induction 1 as [|p ps Hni Hnd IH]; [done|]. cbn. unfold admissions in IH. rewrite IH.
  destruct (p =? path) eqn:Hp.
  - apply String.eqb_eq in Hp as ->. rewrite (bool_decide_eq_false_2 (path ∈ ps)) by done.
    by rewrite bool_decide_eq_true_2 by (apply elem_of_cons; auto).
  - apply String.eqb_neq in Hp. rewrite (bool_decide_ext (path ∈ p :: ps) (path ∈ ps)); [done|].
    rewrite elem_of_cons. naive_solver.
Qed.

(** A tick admits exactly the paths that have waited long enough and still exist,
    each once, and forgets all that have waited. *)
Lemma processPending_exact now exists_ visited pending pending' es :
  visited ≡ₚ map_to_list pending -> processPending now exists_ visited pending = (pending', es) ->
  forall path, let due := match pending !! path with Some t => (debounce cfg <=? Sub now t)%Z | None => false end in
    pending' !! path = (if due then None else pending !! path) /\
    admissions path es = (if due && exists_ path then [classifyEvent path now] else []).
Proof.
  unfold processPending. intros Hv [= <- <-] path. set (due := match pending !! path with Some t => _ | None => _ end).
  assert (Hdue : path ∈ ready_paths now visited <-> due = true).
  { rewrite (elem_of_ready _ _ _ _ Hv). unfold due. destruct (pending !! path) as [t|]; [|naive_solver].
    rewrite Z.leb_le. naive_solver. }
  split.
  - rewrite foldr_delete_lookup. destruct due; [by rewrite bool_decide_eq_true_2 by (by apply Hdue)|].
    rewrite bool_decide_eq_false_2; [done|]. intros H%Hdue. done.
  - rewrite admissions_fmap.
    + destruct (due && exists_ path) eqn:He.
      * apply andb_true_iff in He as [Hd He]. rewrite bool_decide_eq_true_2; [done|].
        rewrite list_elem_of_In, filter_In, <- list_elem_of_In. by rewrite Hdue.
      * rewrite bool_decide_eq_false_2; [done|].
        rewrite list_elem_of_In, filter_In, <- list_elem_of_In, Hdue. intros [Hd Hx]. by rewrite Hd, Hx in He.
    + apply NoDup_ListNoDup, List.NoDup_filter, NoDup_ListNoDup. by eapply ready_NoDup.
Qed.

(** ** One path on its own *)

(** The abstract watch on one path: nothing, or waiting since a time.  A
    notification starts the wait and never restarts it; a tick ends it once it is
    due, and admits the path if it exists. *)
Definition path_step (path : string) (l : watch_label) (w : option Time) : option Time * list InstallEvent :=
  match l with
  | Notify q op is_dir now =>
      if (q =? path) && (op_Create op || op_Rename op) && isDirectChildDir q is_dir then (Some (default now w), [])
      else (w, [])
  | Tick now exists_ _ =>
      match w with
      | Some t => if (debounce cfg <=? Sub now t)%Z
                  then (None, if exists_ path then [classifyEvent path now] else []) else (w, [])
      | None => (None, [])
      end
  | _ => (w, [])
  end.

Fixpoint path_run (path : string) (ls : list watch_label) (w : option Time) : option Time * list InstallEvent :=
  match ls with
  | [] => (w, [])
  | l :: ls' => let '(w1, a) := path_step path l w in let '(w2, b) := path_run path ls' w1 in (w2, (a ++ b)%list)
  end.

Lemma path_run_snoc path ls l : forall w,
  path_run path (ls ++ [l]) w =
    ((path_step path l (path_run path ls w).1).1, ((path_run path ls w).2 ++ (path_step path l (path_run path ls w).1).2)%list).
Proof.
  induction ls as [|l' ls IH]; intros w; cbn.
  - destruct (path_step path l w). by rewrite app_nil_r.
  - destruct (path_step path l' w) as [w1 a]. rewrite IH. destruct (path_run path ls w1) as [w2 b]. cbn. by rewrite app_assoc.
Qed.

Lemma admissions_app path es es' : admissions path (es ++ es') = (admissions path es ++ admissions path es')%list.
Proof. apply omap_app. Qed.

Lemma watch_step_path l pending s' es path :
  fair_label l -> watch_step l (Running pending) = Some (s', es) ->
  admissions path es = (path_step path l (pending !! path)).2 /\
  forall pending', s' = Running pending' -> pending' !! path = (path_step path l (pending !! path)).1.
Proof.
  intros Hf Hs. destruct l as [q op d now| |now exists_ order| |]; cbn -[processPending] in Hs.
  - destruct (op_Create op || op_Rename op) eqn:Ho; cbn in Hs.
    2:{ simplify_eq. cbn. rewrite Ho, andb_false_r. cbn. split; [done|by intros ? [= <-]]. }
    destruct (isDirectChildDir q d) eqn:Hd; cbn in Hs; simplify_eq; cbn; rewrite Ho, Hd; cbn.
    2:{ rewrite andb_false_r. split; [done|by intros ? [= <-]]. }
    rewrite !andb_true_r. split; [by destruct (q =? path)|]. intros pending' [= <-].
    destruct (q =? path) eqn:Hq.
    + apply String.eqb_eq in Hq as ->. destruct (pending !! path) eqn:Hp; cbn; [done|by rewrite lookup_insert_eq].
    + apply String.eqb_neq in Hq. destruct (pending !! q); cbn; [done|by rewrite lookup_insert_ne].
  - simplify_eq. cbn. split; [done|by intros ? [= <-]].
  - destruct (processPending now exists_ (order pending) pending) as [pending1 es1] eqn:Hp. simplify_eq.
    destruct (processPending_exact _ _ _ _ _ _ (Hf pending) Hp path) as [Hl Ha]. rewrite Ha. cbn.
    split; [by destruct (pending !! path) as [t|]; [destruct (_ <=? _)%Z|]|]. intros pending' [= <-]. rewrite Hl.
    by destruct (pending !! path) as [t|]; [destruct (_ <=? _)%Z|].
  - by simplify_eq.
  - by simplify_eq.
Qed.

Lemma run_path_refines start ls s tr path :
  reachable watch_step (Running start) ls s tr -> Forall fair_label ls ->
  admissions path tr = (path_run path ls (start !! path)).2 /\
  forall pending, s = Running pending -> pending !! path = (path_run path ls (start !! path)).1.
Proof.
  intros Hr. refine (reachable_ind_inv watch_step (fun ls s tr => Forall fair_label ls ->
    admissions path tr = (path_run path ls (start !! path)).2 /\
    forall pending, s = Running pending -> pending !! path = (path_run path ls (start !! path)).1) _ _ _ _ _ _ Hr).
  - intros _. split; [done|]. by intros pending [= <-].
  - clear. intros ls s tr l s' es IH Hstep [Hf Hl]%Forall_app. apply Forall_cons_1 in Hl as [Hl _].
    destruct s as [|pending]; [done|]. destruct (IH Hf) as [Ha Hp]. specialize (Hp pending eq_refl).
    destruct (watch_step_path _ _ _ _ path Hl Hstep) as [Ha' Hp']. rewrite path_run_snoc. cbn.
    rewrite admissions_app, Ha, Ha', Hp. split; [done|]. intros pending' ->. by rewrite (Hp' _ eq_refl), Hp.
Qed.

(** C29: debouncing is per path.  In every run of the loop, whatever is notified in
    between and in whatever order the ticks visit the map, what happens to one
    path is what the abstract watch on that path alone does: the same admissions
    in the same order, and the same wait at the end. *)
Theorem watch_loop_refines_path ls s tr path :
  reachable watch_step (Running ∅) ls s tr -> Forall fair_label ls ->
  admissions path tr = (path_run path ls None).2 /\
  forall pending, s = Running pending -> pending !! path = (path_run path ls None).1.
Proof. intros Hr Hf. rewrite <- (lookup_empty (M := gmap string) (A := Time) path). by apply run_path_refines. Qed.

(** An install is admitted: once a direct child of a watched directory has been
    notified, the first tick that comes at least the debounce interval after the
    first notification admits it exactly once, if it still exists, and takes it
    out of the map; ticks before that leave it waiting. *)
Theorem notified_is_admitted pending path op t ticks now exists_ order s' es :
  pending !! path = None ->
  op_Create op || op_Rename op = true -> isDirectChildDir path true = true ->
  Forall (fun l => match l with Tick now' _ _ => (Sub now' t < debounce cfg)%Z | _ => True end) ticks ->
  Forall fair_label (ticks ++ [Tick now exists_ order]) ->
  run watch_step (Notify path op true t :: ticks ++ [Tick now exists_ order]) (Running pending) = Some (s', es) ->
  (debounce cfg <= Sub now t)%Z -> exists_ path = true ->
  admissions path es = [classifyEvent path now] /\ forall pending', s' = Running pending' -> pending' !! path = None.
Proof.
  intros Hnone Hop Hd Hearly Hf Hrun Hdue Hex.
  set (ls2 := Notify path op true t :: ticks ++ [Tick now exists_ order]) in *.
  assert (Hw : path_run path ls2 None = (None, [classifyEvent path now])).
  { unfold ls2. cbn [path_run path_step]. rewrite String.eqb_refl, Hop, Hd. cbn [andb default option_map from_option].
    change (default t None) with t. cbn.
    assert (Hwait : path_run path ticks (Some t) = (Some t, [])).
    { clear -Hearly. induction Hearly as [|l ls Hl _ IH]; [done|]. cbn [path_run].
      assert (path_step path l (Some t) = (Some t, [])) as ->; [|by rewrite IH].
      destruct l as [q o d n| |n e o| |]; cbn; try done; [by destruct (_ && _)|].
      by rewrite (proj2 (Z.leb_gt _ _)). }
    rewrite path_run_snoc, Hwait. cbn. rewrite (proj2 (Z.leb_le _ _) Hdue), Hex. done. }
  destruct (run_path_refines pending ls2 s' es path) as [Ha Hp].
  - by apply run_reachable.
  - by constructor.
  - rewrite Hnone, Hw in Ha, Hp. by split.
Qed.
End Loop.

(** ** Classification *)

Lemma classify_exact cfg path now :
  Type_ (classifyEvent cfg path now) = InstallPlugin <->
  exists dir, dir ∈ pluginDirs cfg /\ HasPrefix (Abs (work_dir cfg) path) (Abs (work_dir cfg) dir) = true.
Proof.
  unfold classifyEvent. cbn. destruct (existsb _ _) eqn:He.
  - split; [|done]. intros _. apply existsb_exists in He as (dir & Hin%list_elem_of_In & Hp). eauto.
  - split; [done|]. intros (dir & Hin%list_elem_of_In & Hp).
    rewrite (proj2 (existsb_exists _ _)) in He by eauto. done.
Qed.

(** The prefix is a prefix of the text, not of the components: a skill below a
    directory whose name goes on where that of a plugin directory ends is admitted
    as a plugin, although the rescan enumerates it as a skill. *)
Definition w_dirs : WatchConfig :=
  {| skillDirs := ["/home/u/plugins-and-skills"]; pluginDirs := ["/home/u/plugins"]; debounce := 500;
     work_dir := "/"; connector := "openclaw" |}.

Example sibling_directory_misclassified :
  isDirectChildDir w_dirs "/home/u/plugins-and-skills/s" true = true /\
  Type_ (classifyEvent w_dirs "/home/u/plugins-and-skills/s" 0) = InstallPlugin /\
  (Type_ <$> enumerateTargets (U := ascii_only) 0 (skillDirs w_dirs) (pluginDirs w_dirs)
     (fun d => if d =? "/home/u/plugins-and-skills" then Some [{| de_Name := "s"; de_IsDir := true |}] else Some []) None)
    = [InstallSkill].
Proof. repeat split. Qed.

(** A directory behind a symbolic link is admitted, since stat follows the link,
    but never rescanned, since the directory listing does not. *)
Example linked_directory_not_rescanned :
  isDirectChildDir w_dirs "/home/u/plugins/l" true = true /\
  enumerateTargets (U := ascii_only) 0 [] (pluginDirs w_dirs)
    (fun _ => Some [{| de_Name := "l"; de_IsDir := false |}]) None = [].
Proof. repeat split. Qed.

(** ** A run *)

Definition created : FsOp := {| op_Create := true; op_Rename := false |}.

(** Two notifications of one install, a tick too early, one in time, one more. *)
Definition w_labels : list watch_label :=
  [Notify "/home/u/plugins/p" created true 1000; Notify "/home/u/plugins/p" created true 1300;
   Tick 1400 (fun _ => true) map_to_list; Tick 1500 (fun _ => true) map_to_list; Tick 2000 (fun _ => true) map_to_list].

Definition w_end : LoopState * list watch_effect :=
  default (Stopped, []) (run (watch_step w_dirs) w_labels (Running ∅)).

Lemma watch_loop_refines_path_witness :
  admissions "/home/u/plugins/p" w_end.2 = [classifyEvent w_dirs "/home/u/plugins/p" 1500].
Proof.
  destruct (watch_loop_refines_path w_dirs w_labels w_end.1 w_end.2 "/home/u/plugins/p") as [Ha _].
  - apply run_reachable. vm_compute. reflexivity.
  - repeat (apply Forall_cons_2; [first [exact I|by intros m]|]). apply Forall_nil_2.
  - rewrite Ha. vm_compute. reflexivity.
Defined.

Lemma notified_is_admitted_witness :
  admissions "/home/u/plugins/p"
    (default (Stopped, []) (run (watch_step w_dirs) (take 4 w_labels) (Running ∅))).2 =
  [classifyEvent w_dirs "/home/u/plugins/p" 1500].
Proof.
  apply (notified_is_admitted w_dirs ∅ "/home/u/plugins/p" created 1000
           [Notify "/home/u/plugins/p" created true 1300; Tick 1400 (fun _ => true) map_to_list]
           1500 (fun _ => true) map_to_list
           (default (Stopped, []) (run (watch_step w_dirs) (take 4 w_labels) (Running ∅))).1).
  - reflexivity.
  - reflexivity.
  - reflexivity.
  - repeat constructor.
  - repeat (apply Forall_cons_2; [first [exact I|by intros m]|]). apply Forall_nil_2.
  - vm_compute. reflexivity.
  - vm_compute. discriminate.
  - reflexivity.
Defined.
