(* ===== verification/Json.v ===== *)
(** * JSON payloads and JSON Pointers
    (internal/observability/record.go, redaction/engine.go, redaction/projection.go)

    The payload of a canonical record, the pointers of its leaves, and the
    resolution of a pointer.  A Go map of a payload is the list of its entries
    in byte order of the keys, the order in which the code visits them; an
    array is the list of its elements. *)
From stdpp Require Import base list gmap strings pretty.
From Stdlib Require Import ZArith Lia Ascii.
From S2P Require Import Prelude GoStrings.

Local Open Scope string_scope.

(** ** Values *)

Inductive json :=
| JNull
| JBool (b : bool)
| JNumber (text : string)
| JString (s : string)
| JArray (elements : list json)
| JObject (fields : list (string * json)).

(** Structural induction through the lists of a value. *)
Section Induction.
Context (P : json -> Prop)
        (Hnull : P JNull) (Hbool : forall b, P (JBool b)) (Hnum : forall t, P (JNumber t))
        (Hstr : forall s, P (JString s))
        (Harr : forall l, Forall P l -> P (JArray l))
        (Hobj : forall l, Forall (fun kv => P (snd kv)) l -> P (JObject l)).

Fixpoint json_nested_ind (v : json) : P v :=
  match v with
  | JNull => Hnull
  | JBool b => Hbool b
  | JNumber t => Hnum t
  | JString s => Hstr s
  | JArray l =>
      Harr l ((fix go l : Forall P l :=
        match l with
        | [] => List.Forall_nil _
        | x :: r => @List.Forall_cons _ _ x r (json_nested_ind x) (go r)
        end) l)
  | JObject l =>
      Hobj l ((fix go l : Forall (fun kv => P (snd kv)) l :=
        match l with
        | [] => List.Forall_nil _
        | x :: r => @List.Forall_cons _ (fun kv => P (snd kv)) x r (json_nested_ind (snd x)) (go r)
        end) l)
  end.
End Induction.

(** A payload the code can hold: no key twice in an object, and the length of
    an array is an [int]. *)
Fixpoint wf (v : json) : Prop :=
  match v with
  | JArray l =>
      (zlen l <= int_max)%Z /\ (fix go l := match l with [] => True | x :: r => wf x /\ go r end) l
  | JObject l =>
      NoDup (map fst l) /\ (fix go l := match l with [] => True | kv :: r => wf (snd kv) /\ go r end) l
  | _ => True
  end.

(** ** Pointers *)

Definition TILDE : ascii := "~".
Definition SLASH : ascii := "/".

(** [strconv.Itoa] of an index. *)
Definition Itoa (i : nat) : string := pretty (N.of_nat i).

Definition encodePointerToken (token : string) : string :=
  ReplaceByte (ReplaceByte token TILDE "~0") SLASH "~1".

Fixpoint decodeJSONPointerToken (token : string) : string :=
  match token with
  | "" => ""
  | String c r =>
      if Ascii.eqb c TILDE then
        match r with
        | "" => String c ""
        | String d r' =>
            String (if Ascii.eqb d "0" then TILDE else SLASH) (decodeJSONPointerToken r')
        end
      else String c (decodeJSONPointerToken r)
  end.

(** [strings.ReplaceAll] for a pattern of two different bytes. *)
Fixpoint ReplacePair (s : string) (c1 c2 new : ascii) : string :=
  match s with
  | String a (String b r as t) =>
      if Ascii.eqb a c1 && Ascii.eqb b c2 then String new (ReplacePair r c1 c2 new)
      else String a (ReplacePair t c1 c2 new)
  | _ => s
  end.

(** The decoding of [projectionPointerResolves]. *)
Definition decodeProjectionToken (token : string) : string :=
  ReplacePair (ReplacePair token TILDE "1" SLASH) TILDE "0" TILDE.

(** The step from a pointer to the pointer of a child. *)
Definition child_pointer (pointer token : string) : string := pointer ++ "/" ++ token.

Fixpoint visit (value : json) (pointer : string) : list string :=
  match value with
  | JObject [] => [pointer]
  | JObject fields =>
      (fix go fs := match fs with
       | [] => []
       | (key, v) :: r => (visit v (child_pointer pointer (encodePointerToken key)) ++ go r)%list
       end) fields
  | JArray [] => [pointer]
  | JArray elements =>
      (fix go i l := match l with
       | [] => []
       | v :: r => (visit v (child_pointer pointer (Itoa i)) ++ go (S i) r)%list
       end) 0%nat elements
  | _ => [pointer]
  end.

(** [leafPointers] of the engine and [payloadLeafPointers] of a record. *)
Definition leafPointers (root : json) : list string := visit root "".

Fixpoint pointer_syntax (s : string) : bool :=
  match s with
  | "" => true
  | String c r =>
      if Ascii.eqb c TILDE then
        match r with
        | String d r' => (Ascii.eqb d "0" || Ascii.eqb d "1") && pointer_syntax r'
        | "" => false
        end
      else pointer_syntax r
  end.

Definition validJSONPointer (pointer : string) : bool :=
  if negb (valid_utf8 pointer) then false
  else match pointer with
       | "" => true
       | String c _ => if Ascii.eqb c SLASH then pointer_syntax pointer else false
       end.

(** [strconv.ParseUint(token, 10, 64)]: decimal digits, within 64 bits. *)
Fixpoint digits (s : string) (acc : Z) : option Z :=
  match s with
  | "" => Some acc
  | String c r =>
      if byte_in 48 57 c then digits r (acc * 10 + (Z.of_nat (byte_of c) - 48))%Z else None
  end.

Definition ParseUint (s : string) : option Z :=
  if s =? "" then None
  else match digits s 0 with
       | Some n => if (n <? two64)%Z then Some n else None
       | None => None
       end.

Definition first_byte_is (c : ascii) (s : string) : bool :=
  match s with String a _ => Ascii.eqb a c | "" => false end.

Definition array_index (token : string) (len : nat) : option nat :=
  if (token =? "") || ((1 <? slen token)%Z && first_byte_is "0" token) then None
  else match ParseUint token with
       | Some n => if (n <? Z.of_nat len)%Z then Some (Z.to_nat n) else None
       | None => None
       end.

Definition field (fields : list (string * json)) (key : string) : option json :=
  snd <$> find (fun kv => fst kv =? key) fields.

(** The loop over the tokens, with the decoding of its caller. *)
Fixpoint resolve (decode : string -> string) (current : json) (tokens : list string) : option json :=
  match tokens with
  | [] => Some current
  | encoded :: r =>
      let token := decode encoded in
      match current with
      | JObject fields =>
          match field fields token with
          | Some v => resolve decode v r
          | None => None
          end
      | JArray elements =>
          match array_index token (length elements) with
          | Some i => match elements !! i with Some v => resolve decode v r | None => None end
          | None => None
          end
      | _ => None
      end
  end.

Definition tail_string (s : string) : string := match s with "" => "" | String _ r => r end.

Definition pointer_target (decode : string -> string) (root : json) (pointer : string) : option json :=
  if pointer =? "" then Some root else resolve decode root (SplitByte (tail_string pointer) SLASH).

Definition jsonPointerResolves (root : json) (pointer : string) : bool :=
  bool_decide (is_Some (pointer_target decodeJSONPointerToken root pointer)).

Definition projectionPointerResolves (root : json) (pointer : string) : bool :=
  bool_decide (is_Some (pointer_target decodeProjectionToken root pointer)).

(** ** Children

    The token and the value of each child of a value: what the traversals of the
    code have in common. *)
Definition children (v : json) : list (string * json) :=
  match v with
  | JArray l => imap (fun i x => (Itoa i, x)) l
  | JObject l => map (fun kv => (encodePointerToken (fst kv), snd kv)) l
  | _ => []
  end.

Definition is_leaf (v : json) : Prop := children v = [].

Lemma imap_snd {A B} (f : nat -> A -> B) (P : A -> Prop) (Q : B -> Prop) l :
  (forall i x, P x -> Q (f i x)) -> Forall P l -> Forall Q (imap f l).
Proof.
  revert f. induction l as [|x l IH]; intros f Hf HF; [constructor|].
  apply Forall_cons_1 in HF as [Hx Hl]. constructor; [by apply Hf|]. apply IH; [|done].
  intros i y Hy. by apply Hf.
Qed.

Lemma json_child_ind (P : json -> Prop) :
  (forall v, Forall (fun tc => P (snd tc)) (children v) -> P v) -> forall v, P v.
Proof.
  intros H v. induction v as [| | | |l IH|l IH] using json_nested_ind; apply H; try constructor.
  - by apply (imap_snd _ P).
  - simpl. apply Forall_map. done.
Qed.

Lemma wf_child v : wf v -> Forall (fun tc => wf (snd tc)) (children v).
Proof.
  destruct v as [| | | |l|l]; try constructor.
  - intros [_ Hw]. apply (imap_snd _ wf); [done|]. induction l as [|x l IH]; [constructor|].
    destruct Hw as [Hx Hl]. constructor; [done|by apply IH].
  - intros [_ Hw]. simpl. apply Forall_map. induction l as [|x l IH]; [constructor|].
    destruct Hw as [Hx Hl]. constructor; [done|by apply IH].
Qed.

Lemma visit_eq v p :
  visit v p = if decide (is_leaf v) then [p]
              else concat (map (fun tc => visit (snd tc) (child_pointer p (fst tc))) (children v)).
Proof.
  unfold is_leaf. destruct v as [| | | |l|l]; try done.
  - destruct l as [|x l]; [done|]. cbn [visit children imap].
    destruct (decide _) as [H|_]; [discriminate H|]. cbn [map concat]. f_equal.
    assert (H : forall i, (fix go i l := match l with [] => [] | v :: r =>
        (visit v (child_pointer p (Itoa i)) ++ go (S i) r)%list end) i l =
      concat (map (fun tc => visit (snd tc) (child_pointer p (fst tc)))
        (imap (fun n x => (Itoa (i + n), x)) l))).
    { induction l as [|y l IH]; intros i; [done|]. cbn [imap map concat fst snd].
      rewrite Nat.add_0_r. f_equal. rewrite (IH (S i)). do 2 f_equal. apply imap_ext.
      intros n z _. simpl. by rewrite Nat.add_succ_r. }
    apply (H 1%nat).
  - destruct l as [|kv l]; [done|]. cbn [visit children map].
    destruct (decide _) as [H|_]; [discriminate H|]. cbn [concat map fst snd]. destruct kv as [k v].
    f_equal. induction l as [|[k' v'] l IH]; [done|]. cbn [map concat fst snd]. by rewrite IH.
Qed.

(** ** Tokens *)

Definition enc_byte (c : ascii) : string :=
  if Ascii.eqb c TILDE then "~0" else if Ascii.eqb c SLASH then "~1" else String c "".

Lemma ReplaceByte_app a b o n : ReplaceByte (a ++ b) o n = ReplaceByte a o n ++ ReplaceByte b o n.
Proof.
  induction a as [|c a IH]; [done|]. change (String c a ++ b) with (String c (a ++ b)).
  cbn [ReplaceByte]. by rewrite IH, sapp_assoc.
Qed.

Lemma encode_cons c r : encodePointerToken (String c r) = enc_byte c ++ encodePointerToken r.
Proof.
  unfold encodePointerToken, enc_byte. cbn [ReplaceByte]. rewrite ReplaceByte_app. f_equal.
  destruct (Ascii.eqb_spec c TILDE) as [->|Ht]; [done|]. cbn [ReplaceByte].
  destruct (Ascii.eqb_spec c SLASH) as [->|Hs]; [done|]. done.
Qed.

Lemma avoids_app z a b : avoids z (a ++ b) = avoids z a && avoids z b.
Proof.
  unfold avoids. induction a as [|c a IH]; [done|].
  change (String c a ++ b) with (String c (a ++ b)). cbn [sall]. by rewrite IH, andb_assoc.
Qed.

Lemma encode_avoids_slash t : avoids SLASH (encodePointerToken t) = true.
Proof.
  induction t as [|c t IH]; [done|]. rewrite encode_cons, avoids_app, IH, andb_true_r.
  unfold enc_byte. destruct (Ascii.eqb_spec c TILDE) as [->|Ht]; [done|].
  destruct (Ascii.eqb_spec c SLASH) as [->|Hs]; [done|]. unfold avoids. cbn [sall].
  by rewrite (proj2 (Ascii.eqb_neq _ _) Hs).
Qed.

Lemma decode_encode t : decodeJSONPointerToken (encodePointerToken t) = t.
Proof.
  induction t as [|c t IH]; [done|]. rewrite encode_cons. unfold enc_byte.
  destruct (Ascii.eqb_spec c TILDE) as [->|Ht]; [exact (f_equal _ IH)|].
  destruct (Ascii.eqb_spec c SLASH) as [->|Hs]; [exact (f_equal _ IH)|].
  change (String c "" ++ encodePointerToken t) with (String c (encodePointerToken t)).
  cbn [decodeJSONPointerToken]. by rewrite (proj2 (Ascii.eqb_neq _ _) Ht), IH.
Qed.

Lemma ReplacePair_skip a s c1 c2 new :
  a <> c1 -> ReplacePair (String a s) c1 c2 new = String a (ReplacePair s c1 c2 new).
Proof. intros Ha. destruct s; [done|]. cbn [ReplacePair]. by rewrite (proj2 (Ascii.eqb_neq _ _) Ha). Qed.

Lemma projection_decode_encode t : decodeProjectionToken (encodePointerToken t) = t.
Proof.
  unfold decodeProjectionToken.
  assert (H1 : ReplacePair (encodePointerToken t) TILDE "1" SLASH = ReplaceByte t TILDE "~0").
  { induction t as [|c t IH]; [done|]. rewrite encode_cons. cbn [ReplaceByte]. unfold enc_byte.
    destruct (Ascii.eqb_spec c TILDE) as [->|Ht].
    - change ("~0" ++ encodePointerToken t) with (String TILDE (String "0" (encodePointerToken t))).
      cbn [ReplacePair]. change (Ascii.eqb TILDE TILDE && Ascii.eqb "0" "1") with false. cbv iota.
      change (String TILDE ?x = _) with (String TILDE x = String TILDE (String "0" (ReplaceByte t TILDE "~0"))).
      f_equal. rewrite <-IH. apply ReplacePair_skip. done.
    - destruct (Ascii.eqb_spec c SLASH) as [->|Hs].
      + change ("~1" ++ encodePointerToken t) with (String TILDE (String "1" (encodePointerToken t))).
        cbn [ReplacePair]. change (Ascii.eqb TILDE TILDE && Ascii.eqb "1" "1") with true. cbv iota.
        by rewrite IH.
      + change (String c "" ++ encodePointerToken t) with (String c (encodePointerToken t)).
        rewrite ReplacePair_skip by done. by rewrite IH. }
  rewrite H1. clear H1. induction t as [|c t IH]; [done|]. cbn [ReplaceByte].
  destruct (Ascii.eqb_spec c TILDE) as [->|Ht].
  - change ("~0" ++ ReplaceByte t TILDE "~0") with (String TILDE (String "0" (ReplaceByte t TILDE "~0"))).
    cbn [ReplacePair]. change (Ascii.eqb TILDE TILDE && Ascii.eqb "0" "0") with true. cbv iota.
    by rewrite IH.
  - change (String c "" ++ ReplaceByte t TILDE "~0") with (String c (ReplaceByte t TILDE "~0")).
    rewrite ReplacePair_skip by done. by rewrite IH.
Qed.

(** Decimal numbers. *)
Lemma pretty_char_value x : (x < 10)%N ->
  byte_in 48 57 (pretty_N_char x) = true /\
  (Z.of_nat (byte_of (pretty_N_char x)) - 48 = Z.of_N x)%Z.
Proof.
  intros Hx. assert (x = 0 \/ x = 1 \/ x = 2 \/ x = 3 \/ x = 4 \/ x = 5 \/ x = 6 \/ x = 7 \/ x = 8 \/ x = 9)%N
    as Hc by lia.
  destruct Hc as [->|[->|[->|[->|[->|[->|[->|[->|[->| ->]]]]]]]]]; by split.
Qed.

(** What the digits of a number are: its value, no other byte, no leading zero. *)
Lemma pretty_go_digits x : forall s, (0 < x)%N ->
  digits (pretty_N_go x s) 0 = digits s (Z.of_N x) /\
  (forall z, byte_in 48 57 z = false -> avoids z (pretty_N_go x s) = avoids z s) /\
  first_byte_is "0" (pretty_N_go x s) = false /\ pretty_N_go x s <> "".
Proof.
  induction (N.lt_wf_0 x) as [x _ IH]. intros s Hx. rewrite pretty_N_go_step by done.
  set (d := pretty_N_char (x mod 10)).
  destruct (pretty_char_value (x mod 10)) as [Hd Hv]; [by apply N.mod_lt|]. fold d in Hd, Hv.
  assert (Hslash : forall z, byte_in 48 57 z = false -> avoids z (String d s) = avoids z s).
  { intros z Hz. unfold avoids. cbn [sall]. assert (Ascii.eqb d z = false) as ->; [|done].
    apply Ascii.eqb_neq. congruence. }
  pose proof (N.div_mod x 10 ltac:(done)) as Hdm.
  destruct (decide (x / 10 = 0)%N) as [H0|H0].
  - rewrite H0, pretty_N_go_0. split; [|split; [done|split; [|done]]].
    + cbn [digits]. rewrite Hd, Hv. f_equal. lia.
    + cbn [first_byte_is]. apply Ascii.eqb_neq. intros Heq. rewrite Heq in Hv.
      change (0 = Z.of_N (x mod 10))%Z in Hv. lia.
  - assert (Hlt : (x / 10 < x)%N) by (by apply N.div_lt).
    assert (Hpos : (0 < x / 10)%N) by (by apply N.neq_0_lt_0).
    destruct (IH (x / 10)%N Hlt (String d s) Hpos) as (IH1 & IH2 & IH3 & IH4).
    split; [|split; [by intros z Hz; rewrite IH2, Hslash|split; done]]. rewrite IH1. cbn [digits]. rewrite Hd, Hv. f_equal. lia.
Qed.

Lemma Itoa_digits i :
  digits (Itoa i) 0 = Some (Z.of_nat i) /\
  (forall z, byte_in 48 57 z = false -> avoids z (Itoa i) = true) /\
  (first_byte_is "0" (Itoa i) = true -> slen (Itoa i) = 1%Z) /\ Itoa i <> "".
Proof.
  unfold Itoa, pretty, pretty_N. destruct (decide (N.of_nat i = 0)%N) as [H0|H0].
  - destruct i; [|lia]. split; [done|]. split; [|done]. intros z Hz. unfold avoids. cbn [sall].
    rewrite andb_true_r. apply negb_true_iff, Ascii.eqb_neq. by intros <-.
  - destruct (pretty_go_digits (N.of_nat i) "") as (H1 & H2 & H3 & H4); [lia|].
    rewrite H1, H3. split; [cbn; f_equal; lia|]. split; [|done]. intros z Hz. by rewrite H2.
Qed.

Lemma array_index_Itoa i n :
  (i < n)%nat -> (Z.of_nat n <= two64)%Z -> array_index (Itoa i) n = Some i.
Proof.
  intros Hi Hn. destruct (Itoa_digits i) as (Hd & _ & Hz & Hne). unfold array_index, ParseUint.
  rewrite (proj2 (String.eqb_neq _ _) Hne), Hd. cbn [orb].
  assert (Hlead : (1 <? slen (Itoa i))%Z && first_byte_is "0" (Itoa i) = false).
  { destruct (first_byte_is "0" (Itoa i)); [by rewrite Hz|by rewrite andb_false_r]. }
  rewrite Hlead. assert (Hi1 : (Z.of_nat i <? two64)%Z = true) by lia.
  assert (Hi2 : (Z.of_nat i <? Z.of_nat n)%Z = true) by lia. by rewrite Hi1, Hi2, Nat2Z.id.
Qed.

Lemma ReplaceByte_avoids s o n : avoids o s = true -> ReplaceByte s o n = s.
Proof.
  unfold avoids. induction s as [|c s IH]; [done|]. cbn [sall ReplaceByte].
  intros [Hc%negb_true_iff Hs]%andb_true_iff. rewrite Hc, IH by done. done.
Qed.

Lemma encode_Itoa i : encodePointerToken (Itoa i) = Itoa i.
Proof.
  destruct (Itoa_digits i) as (_ & H & _). unfold encodePointerToken.
  by rewrite !ReplaceByte_avoids by (rewrite ?ReplaceByte_avoids; by apply H).
Qed.

Lemma Itoa_inj i j : Itoa i = Itoa j -> i = j.
Proof.
  intros Hij. destruct (Itoa_digits i) as (Hi & _), (Itoa_digits j) as (Hj & _).
  rewrite Hij, Hj in Hi. injection Hi. lia.
Qed.

Lemma encode_inj s t : encodePointerToken s = encodePointerToken t -> s = t.
Proof. intros H. by rewrite <-(decode_encode s), H, decode_encode. Qed.

(** ** Tokens of children *)

Lemma children_tokens v : Forall (fun tc => avoids SLASH (fst tc) = true) (children v).
Proof.
  destruct v as [| | | |l|l]; try constructor.
  - apply (imap_snd _ (fun _ => True)); [|by apply Forall_true].
    intros i x _. destruct (Itoa_digits i) as (_ & H & _). by apply H.
  - simpl. apply Forall_map, Forall_true. intros kv. apply encode_avoids_slash.
Qed.

Lemma imap_fst {A} (l : list A) : forall n,
  map fst (imap (fun i x => (Itoa (n + i), x)) l) = map Itoa (seq n (length l)).
Proof.
  induction l as [|x l IH]; intros n; [done|]. cbn [imap map fst length seq]. rewrite Nat.add_0_r. f_equal.
  rewrite <-(IH (S n)). f_equal. apply imap_ext. intros i y _. simpl. by rewrite Nat.add_succ_r.
Qed.

Lemma map_NoDup_inj {A B} (f : A -> B) l : (forall x y, f x = f y -> x = y) -> NoDup l -> NoDup (map f l).
Proof. intros Hf Hl. exact (NoDup_fmap_2 (Inj0 := Hf) f l Hl). Qed.

Lemma children_tokens_NoDup v : wf v -> NoDup (map fst (children v)).
Proof.
  destruct v as [| | | |l|l]; try constructor.
  - intros _. change (NoDup (map fst (imap (fun i x => (Itoa (0 + i), x)) l))). rewrite imap_fst.
    apply map_NoDup_inj; [apply Itoa_inj|]. apply NoDup_seq.
  - intros [Hn _]. cbn [children]. rewrite map_map. cbn [fst].
    rewrite <-(map_map fst encodePointerToken). apply map_NoDup_inj; [apply encode_inj|done].
Qed.

(** A decoding that undoes the encoding of a token. *)
Definition decodes (decode : string -> string) : Prop :=
  forall t, decode (encodePointerToken t) = t.

Lemma field_lookup l k v : NoDup (map fst l) -> (k, v) ∈ l -> field l k = Some v.
Proof.
  unfold field. induction l as [|[k' v'] l IH]; [by intros _ ?%elem_of_nil|]. cbn [map find fst].
  intros Hnd Hin. apply NoDup_cons in Hnd as [Hk Hnd].
  destruct (String.eqb_spec k' k) as [->|Hne].
  - apply elem_of_cons in Hin as [[= <-]|Hin]; [done|]. destruct Hk.
    apply list_elem_of_In, in_map_iff. exists (k, v). split; [done|]. by apply list_elem_of_In.
  - apply elem_of_cons in Hin as [[= <- <-]|Hin]; [done|]. by apply IH.
Qed.

Lemma resolve_child decode v t c r :
  decodes decode -> wf v -> (t, c) ∈ children v -> resolve decode v (t :: r) = resolve decode c r.
Proof.
  intros Hdec Hw Hin. destruct v as [| | | |l|l]; try (by apply elem_of_nil in Hin).
  - cbn [children] in Hin. apply elem_of_lookup_imap_1 in Hin as (i & x & [= -> ->] & Hl).
    cbn [resolve]. rewrite <-encode_Itoa, Hdec. rewrite array_index_Itoa; [by rewrite Hl| |].
    + by eapply lookup_lt_Some.
    + destruct Hw as [Hlen _]. unfold zlen, int_max, two64 in *. lia.
  - cbn [children] in Hin. apply list_elem_of_In, in_map_iff in Hin as ([k x] & [= <- <-] & Hin).
    cbn [resolve fst snd]. rewrite Hdec. destruct Hw as [Hnd _].
    by rewrite (field_lookup _ k x) by (done || by apply list_elem_of_In).
Qed.

(** ** Leaves *)

(** [leaf_at v ts l]: the path [ts] leads from [v] to the leaf [l]. *)
Inductive leaf_at : json -> list string -> json -> Prop :=
| leaf_here v : is_leaf v -> leaf_at v [] v
| leaf_below v t c ts l : (t, c) ∈ children v -> leaf_at c ts l -> leaf_at v (t :: ts) l.

Definition path_pointer (p : string) (ts : list string) : string := foldl child_pointer p ts.

Lemma elem_of_visit v : forall p q,
  q ∈ visit v p <-> exists ts l, leaf_at v ts l /\ q = path_pointer p ts.
Proof.
  induction v as [v IH] using json_child_ind. intros p q. rewrite visit_eq.
  rewrite Forall_forall in IH.
  destruct (decide (is_leaf v)) as [Hl|Hl].
  - rewrite list_elem_of_singleton. split.
    + intros ->. exists [], v. split; [by constructor|done].
    + intros (ts & l & Hat & ->). destruct Hat as [|v t c ts l Hin _]; [done|].
      rewrite Hl in Hin. by apply elem_of_nil in Hin.
  - rewrite list_elem_of_In, in_concat. split.
    + intros (x & Hx & Hq). apply in_map_iff in Hx as ([t c] & <- & Hin).
      apply list_elem_of_In in Hq, Hin. apply (IH (t, c) Hin) in Hq as (ts & l & Hat & ->).
      exists (t :: ts), l. split; [by econstructor|done].
    + intros (ts & l & Hat & ->). destruct Hat as [|v t c ts l Hin Hat]; [done|].
      exists (visit c (child_pointer p t)). split.
      * apply in_map_iff. exists (t, c). split; [done|]. by apply list_elem_of_In.
      * apply list_elem_of_In, (IH (t, c) Hin). by exists ts, l.
Qed.

Lemma leaf_at_tokens v ts l : leaf_at v ts l -> Forall (fun t => avoids SLASH t = true) ts.
Proof.
  induction 1 as [|v t c ts l Hin _ IH]; [constructor|]. constructor; [|done].
  pose proof (children_tokens v) as Hf. rewrite Forall_forall in Hf. by apply (Hf (t, c)).
Qed.

Lemma SplitByte_plain s z : avoids z s = true -> SplitByte s z = [s].
Proof.
  unfold avoids. induction s as [|c s IH]; [done|]. cbn [sall SplitByte].
  intros [Hc%negb_true_iff Hs]%andb_true_iff. by rewrite Hc, IH.
Qed.

Lemma SplitByte_nonnil s z : SplitByte s z <> [].
Proof.
  destruct s as [|c s]; [done|]. cbn [SplitByte]. destruct (Ascii.eqb c z); [done|].
  by destruct (SplitByte s z).
Qed.

Lemma SplitByte_snoc s t z :
  avoids z t = true -> SplitByte (s ++ String z t) z = (SplitByte s z ++ [t])%list.
Proof.
  intros Ht. induction s as [|c s IH].
  - change ("" ++ String z t) with (String z t). cbn [SplitByte].
    by rewrite Ascii.eqb_refl, SplitByte_plain.
  - change (String c s ++ String z t) with (String c (s ++ String z t)). cbn [SplitByte].
    rewrite IH. destruct (Ascii.eqb c z); [done|].
    pose proof (SplitByte_nonnil s z). by destruct (SplitByte s z).
Qed.

Definition tokens_of (p : string) : list string :=
  if p =? "" then [] else SplitByte (tail_string p) SLASH.

Definition pointer_ok (p : string) : Prop := p = "" \/ exists s, p = String SLASH s.

Lemma child_pointer_ok p t : pointer_ok p -> pointer_ok (child_pointer p t).
Proof.
  intros [->|[s ->]]; right; unfold child_pointer; [by exists t|].
  by exists (s ++ "/" ++ t).
Qed.

Lemma tokens_of_child p t :
  pointer_ok p -> avoids SLASH t = true -> tokens_of (child_pointer p t) = (tokens_of p ++ [t])%list.
Proof.
  intros [->|[s ->]] Ht; unfold child_pointer, tokens_of.
  - change ("" ++ "/" ++ t) with (String SLASH t). cbn [String.eqb tail_string].
    by rewrite SplitByte_plain.
  - change (String SLASH s ++ "/" ++ t) with (String SLASH (s ++ String SLASH t)).
    cbn [String.eqb tail_string]. by apply SplitByte_snoc.
Qed.

Lemma tokens_of_path ts : forall p,
  pointer_ok p -> Forall (fun t => avoids SLASH t = true) ts ->
  tokens_of (path_pointer p ts) = (tokens_of p ++ ts)%list.
Proof.
  induction ts as [|t ts IH]; intros p Hp Hts; [by rewrite app_nil_r|].
  apply Forall_cons_1 in Hts as [Ht Hts]. unfold path_pointer in *. cbn [foldl].
  rewrite IH by (done || by apply child_pointer_ok). by rewrite tokens_of_child, <-(assoc_L (++)%list).
Qed.

Lemma resolve_path decode v ts l :
  decodes decode -> wf v -> leaf_at v ts l -> resolve decode v ts = Some l.
Proof.
  intros Hdec Hw Hat. induction Hat as [|v t c ts l Hin Hat IH]; [done|].
  rewrite (resolve_child _ _ _ c) by done. apply IH.
  pose proof (wf_child v Hw) as Hf. rewrite Forall_forall in Hf. by apply (Hf (t, c)).
Qed.

Lemma path_pointer_inj ts ts' :
  Forall (fun t => avoids SLASH t = true) ts -> Forall (fun t => avoids SLASH t = true) ts' ->
  path_pointer "" ts = path_pointer "" ts' -> ts = ts'.
Proof.
  intros H H' Heq. rewrite <-(app_nil_l ts), <-(app_nil_l ts').
  change (@nil string) with (tokens_of ""). rewrite <-!tokens_of_path by (done || by left).
  by rewrite Heq.
Qed.

(** The leaves in order are the paths in order, so their pointers are distinct. *)
Lemma visit_NoDup v : forall ps,
  wf v -> Forall (fun t => avoids SLASH t = true) ps -> NoDup (visit v (path_pointer "" ps)).
Proof.
  induction v as [v IH] using json_child_ind. intros ps Hw Hps. rewrite visit_eq.
  destruct (decide (is_leaf v)) as [Hl|Hl]; [apply NoDup_singleton|].
  pose proof (children_tokens_NoDup v Hw) as Hnd. pose proof (wf_child v Hw) as Hwc.
  pose proof (children_tokens v) as Htok. clear Hl Hw.
  induction (children v) as [|[t c] cs IHcs]; [constructor|]. cbn [map concat fst snd].
  apply Forall_cons_1 in IH as [IHc IH], Hwc as [Hwc Hwcs], Htok as [Ht Htok]. cbn [fst snd map] in *.
  apply NoDup_cons in Hnd as [Hnin Hnd].
  assert (Hpt : Forall (fun t => avoids SLASH t = true) (ps ++ [t])) by (apply Forall_app; by repeat constructor).
  assert (Hsnoc : forall u, child_pointer (path_pointer "" ps) u = path_pointer "" (ps ++ [u]))
    by (intros u; unfold path_pointer; by rewrite foldl_app).
  apply NoDup_app. split; [rewrite Hsnoc; by apply IHc|]. split; [|by apply IHcs].
  intros q Hq Hq'. rewrite Hsnoc in Hq. apply elem_of_visit in Hq as (ts & l & Hat & ->).
  apply list_elem_of_In, in_concat in Hq' as (x & Hx & Hq').
  apply in_map_iff in Hx as ([u d] & <- & Hin%list_elem_of_In). cbn [fst snd] in Hq'.
  apply list_elem_of_In in Hq'. rewrite Hsnoc in Hq'. apply elem_of_visit in Hq' as (ts' & l' & Hat' & Heq).
  assert (Hu : avoids SLASH u = true) by (rewrite Forall_forall in Htok; by apply (Htok (u, d))).
  unfold path_pointer in Heq. rewrite <-!foldl_app in Heq. apply path_pointer_inj in Heq.
  - rewrite <-!(assoc_L (++)%list) in Heq. apply app_inv_head in Heq. injection Heq as -> _.
    apply Hnin. apply list_elem_of_In, in_map_iff. exists (u, d). split; [done|]. by apply list_elem_of_In.
  - apply Forall_app. split; [done|]. by eapply leaf_at_tokens.
  - apply Forall_app. split; [apply Forall_app; by repeat constructor|]. by eapply leaf_at_tokens.
Qed.

Lemma leafPointers_NoDup root : wf root -> NoDup (leafPointers root).
Proof. intros Hw. by apply (visit_NoDup root []). Qed.

(** ** Theorem *)

(** The pointers of a payload and their resolution are inverse to each
    other.  The leaf pointers are those of the leaves, each once; the pointer of a
    leaf resolves to that leaf with the decoding of a record and with the decoding
    of a projection, whatever bytes the keys hold; both decodings undo the encoding. *)
Theorem pointer_roundtrip root :
  wf root ->
  NoDup (leafPointers root) /\
  (forall q, q ∈ leafPointers root <-> exists ts l, leaf_at root ts l /\ q = path_pointer "" ts) /\
  (forall ts l, leaf_at root ts l ->
     pointer_target decodeJSONPointerToken root (path_pointer "" ts) = Some l /\
     pointer_target decodeProjectionToken root (path_pointer "" ts) = Some l) /\
  (forall t, decodeJSONPointerToken (encodePointerToken t) = t /\
             decodeProjectionToken (encodePointerToken t) = t).
Proof.
  intros Hw. split; [by apply leafPointers_NoDup|]. split; [intros q; apply elem_of_visit|].
  split; [|intros t; split; [apply decode_encode|apply projection_decode_encode]].
  intros ts l Hat. unfold pointer_target. fold (tokens_of (path_pointer "" ts)).
  assert (Htgt : forall decode, decodes decode ->
    (if path_pointer "" ts =? "" then Some root
     else resolve decode root (SplitByte (tail_string (path_pointer "" ts)) SLASH)) = Some l).
  { intros decode Hdec. transitivity (resolve decode root (tokens_of (path_pointer "" ts))).
    - unfold tokens_of. by destruct (path_pointer "" ts =? "").
    - rewrite tokens_of_path by (by left || by eapply leaf_at_tokens). by apply resolve_path. }
  split; apply Htgt; [exact decode_encode|exact projection_decode_encode].
Qed.

Definition example_payload : json :=
  JObject [("a/b", JArray [JString "x"; JObject []]); ("c~", JNumber "3")].

Lemma pointer_roundtrip_witness :
  NoDup (leafPointers example_payload) /\
  (forall q, q ∈ leafPointers example_payload <->
     exists ts l, leaf_at example_payload ts l /\ q = path_pointer "" ts) /\
  (forall ts l, leaf_at example_payload ts l ->
     pointer_target decodeJSONPointerToken example_payload (path_pointer "" ts) = Some l /\
     pointer_target decodeProjectionToken example_payload (path_pointer "" ts) = Some l) /\
  (forall t, decodeJSONPointerToken (encodePointerToken t) = t /\
             decodeProjectionToken (encodePointerToken t) = t).
Proof.
  apply (pointer_roundtrip example_payload). split; [|cbn; split_and!; try done; constructor].
  apply NoDup_cons. split; [|apply NoDup_singleton]. by intros [=]%list_elem_of_singleton.
Defined.

Example leaf_pointers_ex : leafPointers example_payload = ["/a~1b/0"; "/a~1b/1"; "/c~0"].
Proof. reflexivity. Qed.
