(* ===== verification/RedactionProfile.v ===== *)
(** * Redaction profiles (internal/observability/redaction/profile.go, catalog.go)

    A profile gives each field class a transformation mode.  The built-in
    profiles, the composition of a custom profile over a base, and the catalog
    that a route resolves its profile from.  SHA-256 is a parameter. *)
From stdpp Require Import base list gmap strings.
From Stdlib Require Import ZArith Lia Ascii.
From S2P Require Import Prelude GoStrings Taxonomy.

Local Open Scope string_scope.

(** ** Vocabularies *)

Definition ProfileNone := "none".
Definition ProfileSensitive := "sensitive".
Definition ProfileContent := "content".
Definition ProfileStrict := "strict".
Definition ProfileLegacyV7 := "legacy-v7".

Definition ModePreserve := "preserve".
Definition ModeDetect := "detect".
Definition ModeWhole := "whole".
Definition ModeHash := "hash".
Definition ModeRemove := "remove".

Definition FieldClassMetadata := "metadata".
Definition FieldClassIdentifier := "identifier".
Definition FieldClassContent := "content".
Definition FieldClassReason := "reason".
Definition FieldClassEvidence := "evidence".
Definition FieldClassError := "error".
Definition FieldClassPath := "path".
Definition FieldClassCredential := "credential".

Definition FieldClasses : list string :=
  [FieldClassMetadata; FieldClassIdentifier; FieldClassContent; FieldClassReason;
   FieldClassEvidence; FieldClassError; FieldClassPath; FieldClassCredential].

Definition IsFieldClass (class : string) : bool := existsb (String.eqb class) FieldClasses.

Definition DetectorGroupCredentials := "credentials".
Definition DetectorGroupSecrets := "secrets".
Definition DetectorGroupPII := "pii".
Definition DetectorGroups : list string :=
  [DetectorGroupCredentials; DetectorGroupSecrets; DetectorGroupPII].

Fixpoint index_of (x : string) (l : list string) : option nat :=
  match l with
  | [] => None
  | y :: r => if x =? y then Some 0%nat else S <$> index_of x r
  end.

Definition fieldClassIndex (class : string) : option nat := index_of class FieldClasses.
Definition detectorGroupIndex (group : string) : option nat := index_of group DetectorGroups.

Definition isTransformationMode (mode : string) : bool :=
  existsb (String.eqb mode) [ModePreserve; ModeDetect; ModeWhole; ModeHash; ModeRemove].

(** ** Profiles *)

Record Profile := mkProfile {
  name : string;
  base : string;
  modes : list string;
  groups : list bool;
  fingerprint : string;
}.

Definition Mode (p : Profile) (class : string) : option string :=
  match fieldClassIndex class with
  | Some i => modes p !! i
  | None => None
  end.

(** The method [Profile.DetectorGroups]. *)
Definition profile_DetectorGroups (p : Profile) : list string :=
  omap (fun '(g, enabled) => if (enabled : bool) then Some g else None) (zip DetectorGroups (groups p)).

Definition IsRedacting (p : Profile) : bool := negb (name p =? ProfileNone).

Inductive ProfileError :=
| NameNotStable
| NameReserved
| BadBase
| EmptyGroups
| UnknownGroup
| DuplicateGroup
| UnknownClass
| UnknownMode
| MustPreserve
| CannotPreserve
| CredentialMode
| DetectWithoutGroup
| NotImmutable
| DuplicateName.

Definition validateProfileName (n : string) : option ProfileError :=
  if IsStableToken n then None else Some NameNotStable.

(** The body of the loop of [validateResolvedProfile]. *)
Definition class_error (grps : list string) (custom : bool) (class mode : string) : option ProfileError :=
  let fixed := (class =? FieldClassMetadata) || (class =? FieldClassIdentifier) in
  if negb (isTransformationMode mode) then Some UnknownMode
  else if negb custom then None
  else if fixed && negb (mode =? ModePreserve) then Some MustPreserve
  else if (mode =? ModePreserve) && negb fixed then Some CannotPreserve
  else if (class =? FieldClassCredential) && negb (mode =? ModeRemove) && negb (mode =? ModeWhole)
  then Some CredentialMode
  else if (mode =? ModeDetect) && (length grps =? 0)%nat then Some DetectWithoutGroup
  else None.

Fixpoint classes_error (grps : list string) (custom : bool) (cells : list (string * string)) :
    option ProfileError :=
  match cells with
  | [] => None
  | (class, mode) :: r =>
      match class_error grps custom class mode with
      | Some e => Some e
      | None => classes_error grps custom r
      end
  end.

Definition validateResolvedProfile (p : Profile) (custom : bool) : option ProfileError :=
  match validateProfileName (name p) with
  | Some e => Some e
  | None => classes_error (profile_DetectorGroups p) custom (zip FieldClasses (modes p))
  end.

Section Fingerprint.
Context (sha256 : string -> string).

Definition profileFingerprint (p : Profile) : string :=
  sha256 (name p ++ NUL ++ base p ++
          String.concat "" (map (fun m => NUL ++ m) (modes p)) ++
          String.concat "" (map (fun b : bool => if b then byte_string 1 else NUL) (groups p))).

Definition sealed (p : Profile) : Profile :=
  mkProfile (name p) (base p) (modes p) (groups p) (profileFingerprint p).

Definition resolvedBuiltIn (n : string) (ms : list string) (allGroups : bool) : Profile :=
  sealed (mkProfile n n ms (if allGroups then [true; true; true] else [false; false; false]) "").

Definition builtInProfiles : list (string * Profile) :=
  [ (ProfileNone, resolvedBuiltIn ProfileNone
      [ModePreserve; ModePreserve; ModePreserve; ModePreserve;
       ModePreserve; ModePreserve; ModePreserve; ModePreserve] false);
    (ProfileSensitive, resolvedBuiltIn ProfileSensitive
      [ModePreserve; ModePreserve; ModeDetect; ModeDetect;
       ModeDetect; ModeDetect; ModeHash; ModeRemove] true);
    (ProfileContent, resolvedBuiltIn ProfileContent
      [ModePreserve; ModePreserve; ModeWhole; ModeWhole;
       ModeWhole; ModeWhole; ModeHash; ModeRemove] true);
    (ProfileStrict, resolvedBuiltIn ProfileStrict
      [ModePreserve; ModePreserve; ModeRemove; ModeRemove;
       ModeRemove; ModeRemove; ModeRemove; ModeRemove] true);
    (ProfileLegacyV7, resolvedBuiltIn ProfileLegacyV7
      [ModePreserve; ModeWhole; ModeWhole; ModeWhole;
       ModeWhole; ModeWhole; ModeWhole; ModeWhole] false) ].

Definition BuiltInProfile (n : string) : option Profile :=
  snd <$> find (fun kv => fst kv =? n) builtInProfiles.

(** The loop over the detector groups of a custom profile. *)
Fixpoint select_groups (detectorGroups : list string) (selected : list bool) : ProfileError + list bool :=
  match detectorGroups with
  | [] => inr selected
  | group :: r =>
      match detectorGroupIndex group with
      | None => inl UnknownGroup
      | Some i =>
          if default false (selected !! i) then inl DuplicateGroup
          else select_groups r (<[i := true]> selected)
      end
  end.

(** The loop over the overrides, in the order the map is visited. *)
Fixpoint apply_overrides (overrides : list (string * string)) (ms : list string) :
    ProfileError + list string :=
  match overrides with
  | [] => inr ms
  | (class, mode) :: r =>
      match fieldClassIndex class with
      | None => inl UnknownClass
      | Some i =>
          if negb (isTransformationMode mode) then inl UnknownMode
          else apply_overrides r (<[i := mode]> ms)
      end
  end.

Definition choose_groups (detectorGroups : option (list string)) (inherited : list bool) :
    ProfileError + list bool :=
  match detectorGroups with
  | None => inr inherited
  | Some [] => inl EmptyGroups
  | Some gs => select_groups gs [false; false; false]
  end.

Definition NewCustomProfile (n b : string) (detectorGroups : option (list string))
    (overrides : list (string * string)) : ProfileError + Profile :=
  match validateProfileName n with
  | Some e => inl e
  | None =>
      match BuiltInProfile n with
      | Some _ => inl NameReserved
      | None =>
          if negb (b =? ProfileSensitive) && negb (b =? ProfileContent) && negb (b =? ProfileStrict)
          then inl BadBase
          else
            let start := default (mkProfile "" "" [] [] "") (BuiltInProfile b) in
            match choose_groups detectorGroups (groups start) with
            | inl e => inl e
            | inr gs =>
                match apply_overrides overrides (modes start) with
                | inl e => inl e
                | inr ms =>
                    let p := mkProfile n b ms gs "" in
                    match validateResolvedProfile p true with
                    | Some e => inl e
                    | None => inr (sealed p)
                    end
                end
            end
      end
  end.

(** ** The catalog *)

Definition builtin_map : gmap string Profile := list_to_map builtInProfiles.

Fixpoint add_profiles (custom : list Profile) (profiles : gmap string Profile) :
    ProfileError + gmap string Profile :=
  match custom with
  | [] => inr profiles
  | p :: r =>
      if (name p =? "") || negb (fingerprint p =? profileFingerprint p) then inl NotImmutable
      else match profiles !! name p with
      | Some _ => inl DuplicateName
      | None =>
          match validateResolvedProfile p true with
          | Some e => inl e
          | None => add_profiles r (<[name p := p]> profiles)
          end
      end
  end.

Definition NewProfileCatalog (custom : list Profile) : ProfileError + gmap string Profile :=
  add_profiles custom builtin_map.

Definition Resolve (catalog : gmap string Profile) (n : string) : option Profile := catalog !! n.

(** [validProfile] of the engine. *)
Definition validProfile (p : Profile) : bool :=
  if (name p =? "") || negb (fingerprint p =? profileFingerprint p) then false
  else match BuiltInProfile (name p) with
       | Some builtIn => fingerprint p =? fingerprint builtIn
       | None => match validateResolvedProfile p true with None => true | Some _ => false end
       end.
End Fingerprint.

(** ** Lemmas *)

(** What the type of a profile's arrays says. *)
Definition sized (p : Profile) : Prop :=
  length (modes p) = length FieldClasses /\ length (groups p) = length DetectorGroups.

(** What a redacting profile does with every class. *)
Definition disciplined (p : Profile) : Prop :=
  forall class, IsFieldClass class = true -> exists mode,
    Mode p class = Some mode /\ isTransformationMode mode = true /\
    (mode = ModePreserve <-> class = FieldClassMetadata \/ class = FieldClassIdentifier) /\
    (class = FieldClassCredential -> mode = ModeRemove \/ mode = ModeWhole) /\
    (mode = ModeDetect -> profile_DetectorGroups p <> []).

Lemma index_of_lookup x l i : index_of x l = Some i -> l !! i = Some x.
Proof.
  revert i. induction l as [|y l IH]; intros i; [done|]. cbn [index_of].
  destruct (String.eqb_spec x y) as [->|]; [by intros [= <-]|].
  intros (j & Hj & ->)%fmap_Some. by apply IH.
Qed.

Lemma index_of_some x l : existsb (String.eqb x) l = true <-> is_Some (index_of x l).
Proof.
  induction l as [|y l IH]; cbn [existsb index_of]; [by split; [|intros [? ?]]|].
  destruct (x =? y); [split; eauto|]. cbn [orb]. rewrite IH. by rewrite fmap_is_Some.
Qed.

Lemma classes_error_all grps custom cells class mode :
  classes_error grps custom cells = None -> (class, mode) ∈ cells ->
  class_error grps custom class mode = None.
Proof.
  induction cells as [|[c m] cells IH]; [by intros _ ?%elem_of_nil|]. cbn [classes_error].
  destruct (class_error grps custom c m) eqn:E; [done|].
  intros Hr [[= -> ->]|Hin]%elem_of_cons; [done|by apply IH].
Qed.

Lemma class_error_none grps class mode :
  class_error grps true class mode = None ->
  isTransformationMode mode = true /\
  (mode = ModePreserve <-> class = FieldClassMetadata \/ class = FieldClassIdentifier) /\
  (class = FieldClassCredential -> mode = ModeRemove \/ mode = ModeWhole) /\
  (mode = ModeDetect -> grps <> []).
Proof.
  unfold class_error. destruct (isTransformationMode mode); [|done]. cbn [negb].
  destruct (String.eqb_spec class FieldClassMetadata) as [Hm|Hm],
    (String.eqb_spec class FieldClassIdentifier) as [Hi|Hi],
    (String.eqb_spec class FieldClassCredential) as [Hc|Hc],
    (String.eqb_spec mode ModePreserve) as [Hp|Hp], (String.eqb_spec mode ModeRemove) as [Hr|Hr],
    (String.eqb_spec mode ModeWhole) as [Hw|Hw], (String.eqb_spec mode ModeDetect) as [Hd|Hd];
    cbn [negb orb andb]; try done; try congruence;
    destruct grps; cbn [length Nat.eqb]; try done; intros _; split_and!; try done; try tauto.
Qed.

Lemma validate_disciplined p :
  sized p -> validateResolvedProfile p true = None -> disciplined p.
Proof.
  intros [Hm _] Hv class Hc. unfold validateResolvedProfile in Hv.
  destruct (validateProfileName (name p)); [done|]. unfold Mode, fieldClassIndex.
  destruct (proj1 (index_of_some class FieldClasses) Hc) as [i Hi]. rewrite Hi.
  pose proof (index_of_lookup _ _ _ Hi) as Hl.
  assert (Hlt : (i < length (modes p))%nat) by (rewrite Hm; by eapply lookup_lt_Some).
  destruct (lookup_lt_is_Some_2 _ _ Hlt) as [mode Hmode]. exists mode. split; [done|].
  apply class_error_none. eapply classes_error_all; [exact Hv|].
  apply list_elem_of_lookup. exists i. apply lookup_zip_with_Some. eauto 10.
Qed.

Section Facts.
Context (sha256 : string -> string).

Lemma sealed_fingerprint p :
  fingerprint (sealed sha256 p) = profileFingerprint sha256 (sealed sha256 p).
Proof. reflexivity. Qed.

Lemma sealed_validate p b :
  validateResolvedProfile (sealed sha256 p) b = validateResolvedProfile p b.
Proof. reflexivity. Qed.

Lemma apply_overrides_length overrides : forall ms ms',
  apply_overrides overrides ms = inr ms' -> length ms' = length ms.
Proof.
  induction overrides as [|[c m] r IH]; intros ms ms'; cbn [apply_overrides]; [by intros [= <-]|].
  destruct (fieldClassIndex c); [|done]. destruct (negb (isTransformationMode m)); [done|].
  intros ->%IH. apply length_insert.
Qed.

Lemma select_groups_length gs : forall sel sel',
  select_groups gs sel = inr sel' -> length sel' = length sel.
Proof.
  induction gs as [|g r IH]; intros sel sel'; cbn [select_groups]; [by intros [= <-]|].
  destruct (detectorGroupIndex g); [|done]. destruct (default false _); [done|].
  intros ->%IH. apply length_insert.
Qed.

Lemma choose_groups_length gs inherited sel :
  length inherited = 3%nat -> choose_groups gs inherited = inr sel -> length sel = 3%nat.
Proof.
  intros Hi. unfold choose_groups. destruct gs as [[|g gs]|]; [done| |by intros [= <-]].
  by intros ->%select_groups_length.
Qed.

Lemma base_start b :
  negb (b =? ProfileSensitive) && negb (b =? ProfileContent) && negb (b =? ProfileStrict) = false ->
  exists start, BuiltInProfile sha256 b = Some start /\ sized start.
Proof.
  intros Hb.
  assert (Hcases : b = ProfileSensitive \/ b = ProfileContent \/ b = ProfileStrict).
  { destruct (String.eqb_spec b ProfileSensitive) as [Hs|Hs]; [by left|].
    destruct (String.eqb_spec b ProfileContent) as [Hc|Hc]; [by right; left|].
    destruct (String.eqb_spec b ProfileStrict) as [Ht|Ht]; [by right; right|done]. }
  destruct Hcases as [->|[->| ->]]; by eexists.
Qed.

Lemma NewCustomProfile_inv n b gs o p :
  NewCustomProfile sha256 n b gs o = inr p ->
  BuiltInProfile sha256 n = None /\ name p = n /\ base p = b /\ sized p /\
  fingerprint p = profileFingerprint sha256 p /\ validateResolvedProfile p true = None /\
  exists start, BuiltInProfile sha256 b = Some start /\ apply_overrides o (modes start) = inr (modes p) /\
    choose_groups gs (groups start) = inr (groups p).
Proof.
  unfold NewCustomProfile. destruct (validateProfileName n) eqn:Hn; [done|].
  destruct (BuiltInProfile sha256 n) eqn:Hb; [done|].
  destruct (negb (b =? ProfileSensitive) && negb (b =? ProfileContent) && negb (b =? ProfileStrict)) eqn:Hbase; [done|].
  destruct (base_start b Hbase) as (start & Hs & Hsm & Hsg). rewrite Hs. cbn [default from_option id].
  destruct (choose_groups gs (groups start)) as [e|sel] eqn:Hg; [done|].
  destruct (apply_overrides o (modes start)) as [e|ms] eqn:Ho; [done|].
  destruct (validateResolvedProfile (mkProfile n b ms sel "") true) eqn:Hv; [done|].
  intros [= <-]. split; [done|]. split; [done|]. split; [done|]. split; [|split; [done|split; [done|eauto]]].
  split; [exact (eq_trans (apply_overrides_length _ _ _ Ho) Hsm)|by eapply choose_groups_length].
Qed.

(** The overrides of a map: its entries have distinct keys. *)
Lemma apply_overrides_lookup overrides : forall ms ms',
  NoDup (map fst overrides) -> apply_overrides overrides ms = inr ms' ->
  length ms = length FieldClasses ->
  (forall class mode, (class, mode) ∈ overrides -> IsFieldClass class = true /\ isTransformationMode mode = true) /\
  forall class i, fieldClassIndex class = Some i ->
    ms' !! i = match list_find (fun kv => fst kv = class) overrides with
               | Some (_, (_, mode)) => Some mode
               | None => ms !! i
               end.
Proof.
  induction overrides as [|[c m] r IH]; intros ms ms' Hnd; cbn [apply_overrides].
  - intros [= <-] _. split; [by intros ?? ?%elem_of_nil|done].
  - destruct (fieldClassIndex c) as [k|] eqn:Hk; [|done].
    destruct (isTransformationMode m) eqn:Hm; [|done]. cbn [negb].
    intros Ho Hlen. cbn [map fst] in Hnd. apply NoDup_cons in Hnd as [Hnin Hnd].
    assert (Hlen' : length (<[k := m]> ms) = length FieldClasses) by by rewrite length_insert.
    destruct (IH _ _ Hnd Ho Hlen') as [Hall Hlook]. split.
    + intros class mode [[= -> ->]|Hin]%elem_of_cons; [|by apply Hall].
      split; [|done]. apply index_of_some. by exists k.
    + intros class i Hi. rewrite (Hlook class i Hi).
      pose proof (index_of_lookup _ _ _ Hi) as Hli. pose proof (index_of_lookup _ _ _ Hk) as Hlk.
      cbn [list_find fst]. destruct (decide (c = class)) as [->|Hne].
      * assert (Hnone : list_find (fun kv : string * string => fst kv = class) r = None).
        { apply list_find_None, Forall_forall. intros [c' m'] Hin Heq. cbn in Heq. subst c'.
          apply Hnin, list_elem_of_In, in_map_iff. exists (class, m'). split; [done|by apply list_elem_of_In]. }
        rewrite Hnone. assert (k = i) as -> by congruence. apply list_lookup_insert_eq.
        rewrite Hlen. by eapply lookup_lt_Some.
      * destruct (list_find _ r) as [[j [c' m']]|]; cbn; [done|].
        apply list_lookup_insert_ne. intros ->. congruence.
Qed.

Lemma builtin_disciplined n p :
  BuiltInProfile sha256 n = Some p ->
  name p = n /\ sized p /\ fingerprint p = profileFingerprint sha256 p /\
  (n = ProfileNone \/ n = ProfileLegacyV7 \/ disciplined p).
Proof.
  unfold BuiltInProfile. intros (kv & Hf & ->)%fmap_Some. apply find_some in Hf as [Hin Hn].
  apply String.eqb_eq in Hn. subst n.
  repeat (destruct Hin as [<-|Hin]; [|]); [..|done];
    (split; [done|]; split; [done|]; split; [done|]); cbn [fst]; auto;
    right; right; apply validate_disciplined; done.
Qed.

(** What a catalog holds. *)
Definition catalog_ok (cat : gmap string Profile) : Prop :=
  forall n p, cat !! n = Some p ->
    name p = n /\ sized p /\ fingerprint p = profileFingerprint sha256 p /\
    match BuiltInProfile sha256 n with
    | Some q => p = q
    | None => validateResolvedProfile p true = None
    end.

Lemma builtin_catalog_ok : catalog_ok (builtin_map sha256).
Proof.
  intros n p Hp. unfold builtin_map in Hp. apply elem_of_list_to_map_2 in Hp.
  apply list_elem_of_In in Hp.
  repeat (destruct Hp as [[= <- <-]|Hp]; [by split_and!|]). done.
Qed.

Lemma builtin_map_lookup n : builtin_map sha256 !! n = BuiltInProfile sha256 n.
Proof.
  unfold BuiltInProfile. destruct (find _ _) as [[k q]|] eqn:Hf.
  - apply find_some in Hf as [Hin Hn]. apply String.eqb_eq in Hn. cbn [fst] in Hn. subst k.
    cbn [fmap option_fmap option_map snd]. apply elem_of_list_to_map; [|by apply list_elem_of_In].
    apply (bool_decide_eq_true_1 _). reflexivity.
  - apply not_elem_of_list_to_map. intros Hin. apply list_elem_of_fmap in Hin as (kv & -> & Hin).
    eapply find_none in Hf; [|by apply list_elem_of_In]. by rewrite String.eqb_refl in Hf.
Qed.

Lemma add_profiles_ok custom : forall cat cat',
  Forall sized custom -> (forall n q, BuiltInProfile sha256 n = Some q -> cat !! n = Some q) ->
  catalog_ok cat -> add_profiles sha256 custom cat = inr cat' ->
  catalog_ok cat' /\ (forall p, p ∈ custom -> cat' !! name p = Some p) /\
  (forall n q, cat !! n = Some q -> cat' !! n = Some q).
Proof.
  induction custom as [|p r IH]; intros cat cat' Hsz Hbi Hok; cbn [add_profiles].
  - intros [= <-]. split; [done|]. split; [by intros ? ?%elem_of_nil|done].
  - apply Forall_cons_1 in Hsz as [Hp Hr].
    destruct ((name p =? "") || negb (fingerprint p =? profileFingerprint sha256 p)) eqn:Hfp; [done|].
    apply orb_false_iff in Hfp as [_ Hfp%negb_false_iff%String.eqb_eq].
    destruct (cat !! name p) as [q|] eqn:Hc; [done|].
    destruct (validateResolvedProfile p true) eqn:Hv; [done|]. intros Ha.
    assert (Hnb : BuiltInProfile sha256 (name p) = None).
    { destruct (BuiltInProfile sha256 (name p)) as [q|] eqn:Hq; [|done]. apply Hbi in Hq. congruence. }
    destruct (IH (<[name p := p]> cat) cat' Hr) as (Hok' & Hin & Hkeep); [| |exact Ha|].
    + intros n q Hq. rewrite lookup_insert_ne by congruence. by apply Hbi.
    + intros n q. destruct (decide (n = name p)) as [->|Hne].
      * rewrite lookup_insert_eq. intros [= <-]. rewrite Hnb. done.
      * rewrite lookup_insert_ne by done. apply Hok.
    + split; [done|]. split.
      * intros q [->|Hq]%elem_of_cons; [|by apply Hin]. apply Hkeep. by rewrite lookup_insert_eq.
      * intros n q Hq. apply Hkeep. rewrite lookup_insert_ne by congruence. done.
Qed.

(** What the rest of the program may assume of a profile it resolved. *)
Definition trusted (p : Profile) : Prop :=
  sized p /\ fingerprint p = profileFingerprint sha256 p /\
  match BuiltInProfile sha256 (name p) with
  | Some q => p = q
  | None => validateResolvedProfile p true = None
  end.

Lemma trusted_name p : trusted p -> IsStableToken (name p) = true.
Proof.
  intros (_ & _ & Hb). destruct (BuiltInProfile sha256 (name p)) as [q|] eqn:Hq.
  - unfold BuiltInProfile in Hq. apply fmap_Some in Hq as (kv & Hf & _).
    apply find_some in Hf as [Hin Hn]. apply String.eqb_eq in Hn. rewrite <-Hn.
    repeat (destruct Hin as [<-|Hin]; [done|]). done.
  - unfold validateResolvedProfile, validateProfileName in Hb. by destruct (IsStableToken (name p)).
Qed.

Lemma trusted_valid p : trusted p -> validProfile sha256 p = true.
Proof.
  intros Ht. pose proof (trusted_name p Ht) as Hn. destruct Ht as (_ & Hfp & Hb).
  unfold validProfile. rewrite Hfp, String.eqb_refl. cbn [negb].
  destruct (String.eqb_spec (name p) "") as [He|_]; [by rewrite He in Hn|]. cbn [orb].
  destruct (BuiltInProfile sha256 (name p)) as [q|] eqn:Hq; [|by rewrite Hb].
  destruct (builtin_disciplined _ _ Hq) as (_ & _ & Hf & _). subst q. by rewrite Hfp, String.eqb_refl.
Qed.

(** Every class has a known mode. *)
Lemma trusted_modes p class :
  trusted p -> IsFieldClass class = true ->
  exists mode, Mode p class = Some mode /\ isTransformationMode mode = true.
Proof.
  intros (Hs & _ & Hb) Hc. destruct (BuiltInProfile sha256 (name p)) as [q|] eqn:Hq.
  - subst q. unfold BuiltInProfile in Hq. apply fmap_Some in Hq as (kv & Hf & Hkv).
    apply find_some in Hf as [Hin _]. unfold Mode, fieldClassIndex.
    destruct (proj1 (index_of_some _ _) Hc) as [i Hi]. rewrite Hi.
    pose proof (index_of_lookup _ _ _ Hi) as Hl%lookup_lt_Some. cbn [length FieldClasses] in Hl.
    repeat (destruct Hin as [<-|Hin]; [rewrite Hkv; cbn [snd];
      do 8 (destruct i as [|i]; [by eexists|]); lia|]). done.
  - destruct (validate_disciplined p Hs Hb class Hc) as (mode & Hm & Ht & _). eauto.
Qed.

Lemma trusted_none p class :
  trusted p -> name p = ProfileNone -> IsFieldClass class = true -> Mode p class = Some ModePreserve.
Proof.
  intros (_ & _ & Hb) Hn Hc. rewrite Hn in Hb. cbn in Hb. subst p. unfold Mode, fieldClassIndex.
  destruct (proj1 (index_of_some _ _) Hc) as [i Hi]. rewrite Hi.
  pose proof (index_of_lookup _ _ _ Hi) as Hl%lookup_lt_Some. cbn [length FieldClasses] in Hl.
  do 8 (destruct i as [|i]; [done|]). lia.
Qed.

Lemma catalog_trusted custom cat n p :
  Forall (fun q => exists b gs o, NewCustomProfile sha256 (name q) b gs o = inr q) custom ->
  NewProfileCatalog sha256 custom = inr cat -> Resolve cat n = Some p -> name p = n /\ trusted p.
Proof.
  intros Hcus Hcat Hres.
  assert (Hsz : Forall sized custom).
  { eapply Forall_impl; [exact Hcus|]. intros q (b & gs & o & Hq).
    by destruct (NewCustomProfile_inv _ _ _ _ _ Hq) as (_ & _ & _ & Hs & _). }
  destruct (add_profiles_ok custom (builtin_map sha256) cat Hsz) as (Hok & _ & _).
  - intros m q Hq. by rewrite builtin_map_lookup.
  - apply builtin_catalog_ok.
  - exact Hcat.
  - destruct (Hok n p Hres) as (<- & ? & ? & ?). by split_and!.
Qed.
End Facts.

(** ** Theorems *)

(** What a route can select.  A catalog built from custom profiles resolves
    every name to a profile of that name which the projection engine accepts;
    except for the two profiles without redaction of their own, the profile keeps
    metadata and identifiers, transforms every other class, removes or replaces
    credentials as a whole and runs detectors only with a detector group.  The
    built-in profiles cannot be replaced, and every custom profile is found. *)
Theorem catalog_well_typed (sha256 : string -> string) custom cat n p :
  Forall (fun q => exists b gs o, NewCustomProfile sha256 (name q) b gs o = inr q) custom ->
  NewProfileCatalog sha256 custom = inr cat ->
  Resolve cat n = Some p ->
  (name p = n /\ validProfile sha256 p = true /\
   (n = ProfileNone \/ n = ProfileLegacyV7 \/ disciplined p)) /\
  (forall m q, BuiltInProfile sha256 m = Some q -> Resolve cat m = Some q) /\
  (forall q, q ∈ custom -> Resolve cat (name q) = Some q).
Proof.
  intros Hcus Hcat Hres.
  destruct (catalog_trusted sha256 custom cat n p Hcus Hcat Hres) as [Hn Ht].
  assert (Hsz : Forall sized custom).
  { eapply Forall_impl; [exact Hcus|]. intros q (b & gs & o & Hq).
    by destruct (NewCustomProfile_inv _ _ _ _ _ _ Hq) as (_ & _ & _ & Hs & _). }
  destruct (add_profiles_ok sha256 custom (builtin_map sha256) cat Hsz) as (_ & Hin & Hkeep);
    [intros m q Hq; by rewrite builtin_map_lookup|apply builtin_catalog_ok|exact Hcat|].
  split; [|split; [intros m q Hq; apply Hkeep; by rewrite builtin_map_lookup|exact Hin]].
  split; [done|]. split; [by apply trusted_valid|]. destruct Ht as (Hs & _ & Hb). rewrite Hn in Hb.
  destruct (BuiltInProfile sha256 n) as [q|] eqn:Hq.
  - subst q. by destruct (builtin_disciplined _ _ _ Hq) as (_ & _ & _ & Hd).
  - right; right. by apply validate_disciplined.
Qed.

(** A custom profile over [sensitive] with replaced paths and one detector group. *)
Definition example_profile : Profile :=
  match NewCustomProfile (fun s => s) "ops" ProfileSensitive (Some [DetectorGroupPII])
          [(FieldClassPath, ModeWhole); (FieldClassCredential, ModeWhole)] with
  | inr p => p
  | inl _ => mkProfile "" "" [] [] ""
  end.

Definition example_catalog : gmap string Profile :=
  match NewProfileCatalog (fun s => s) [example_profile] with inr c => c | inl _ => ∅ end.

Lemma catalog_well_typed_witness :
  (name example_profile = "ops" /\ validProfile (fun s => s) example_profile = true /\
   ("ops" = ProfileNone \/ "ops" = ProfileLegacyV7 \/ disciplined example_profile)) /\
  (forall m q, BuiltInProfile (fun s => s) m = Some q -> Resolve example_catalog m = Some q) /\
  (forall q, q ∈ [example_profile] -> Resolve example_catalog (name q) = Some q).
Proof.
  apply (catalog_well_typed (fun s => s) [example_profile] example_catalog "ops" example_profile).
  - constructor; [|constructor].
    exists ProfileSensitive, (Some [DetectorGroupPII]),
      [(FieldClassPath, ModeWhole); (FieldClassCredential, ModeWhole)]. reflexivity.
  - vm_compute. reflexivity.
  - vm_compute. reflexivity.
Defined.

(** A custom profile is its base with the overridden modes and, when groups
    are given, exactly those groups; the composition fails unless every override
    names a known class and a known mode. *)
Theorem NewCustomProfile_spec (sha256 : string -> string) n b gs o p :
  NoDup (map fst o) -> NewCustomProfile sha256 n b gs o = inr p ->
  exists start, BuiltInProfile sha256 b = Some start /\
    (forall class, IsFieldClass class = true ->
       Mode p class = match list_find (fun kv => fst kv = class) o with
                      | Some (_, (_, mode)) => Some mode
                      | None => Mode start class
                      end) /\
    (forall class mode, (class, mode) ∈ o -> IsFieldClass class = true /\ isTransformationMode mode = true) /\
    disciplined p.
Proof.
  intros Hnd Hp. apply NewCustomProfile_inv in Hp as (_ & _ & _ & Hsz & _ & Hv & start & Hs & Ho & _).
  exists start. split; [done|]. destruct (builtin_disciplined _ _ _ Hs) as (_ & [Hlen _] & _ & _).
  destruct (apply_overrides_lookup o (modes start) (modes p) Hnd Ho Hlen) as [Hall Hlook].
  split; [|split; [done|by apply validate_disciplined]].
  intros class Hc. unfold Mode. destruct (proj1 (index_of_some _ _) Hc) as [i Hi].
  unfold fieldClassIndex in *. rewrite Hi. by apply Hlook.
Qed.

Lemma NewCustomProfile_spec_witness :
  exists start, BuiltInProfile (fun s => s) ProfileSensitive = Some start /\
    (forall class, IsFieldClass class = true ->
       Mode example_profile class =
       match list_find (fun kv => fst kv = class)
               [(FieldClassPath, ModeWhole); (FieldClassCredential, ModeWhole)] with
       | Some (_, (_, mode)) => Some mode
       | None => Mode start class
       end) /\
    (forall class mode, (class, mode) ∈ [(FieldClassPath, ModeWhole); (FieldClassCredential, ModeWhole)] ->
       IsFieldClass class = true /\ isTransformationMode mode = true) /\
    disciplined example_profile.
Proof.
  apply (NewCustomProfile_spec (fun s => s) "ops" ProfileSensitive (Some [DetectorGroupPII])).
  - apply (bool_decide_eq_true_1 _). reflexivity.
  - reflexivity.
Defined.

(** A dynamic class can never be kept, and a credential not hashed. *)
Example custom_rejections :
  map (fun o => match NewCustomProfile (fun s => s) "ops" ProfileStrict None o with
                | inl e => Some e | inr _ => None end)
    [[(FieldClassContent, ModePreserve)]; [(FieldClassCredential, ModeHash)];
     [(FieldClassMetadata, ModeRemove)]; [("other", ModeRemove)]; [(FieldClassContent, "mask")]] =
  [Some CannotPreserve; Some CredentialMode; Some MustPreserve; Some UnknownClass; Some UnknownMode].
Proof. reflexivity. Qed.
