(* ===== verification/Detector.v ===== *)
(** * Detection and replacement in a string
    (internal/observability/redaction/detector.go, token.go, catalog.go)

    The scan of a field by the enabled detectors under its limits, the fusion of
    overlapping matches, and the replacement of every match by a keyed token.
    The recognizers of the catalog are a parameter: whatever they report, the
    limits, the fusion and the replacement are those proved here.  So are HMAC and
    SHA-256. *)
From stdpp Require Import base list gmap strings pretty sorting.
From Stdlib Require Import ZArith Lia Ascii.
From S2P Require Import Prelude GoStrings RedactionProfile.

Local Open Scope string_scope.

(** ** Slices of a string *)

Fixpoint str_take (n : nat) (s : string) : string :=
  match n, s with
  | S n', String c r => String c (str_take n' r)
  | _, _ => ""
  end.

Fixpoint str_drop (n : nat) (s : string) : string :=
  match n, s with
  | S n', String _ r => str_drop n' r
  | _, _ => s
  end.

(** [s[a:b]] *)
Definition slice (s : string) (a b : Z) : string :=
  str_take (Z.to_nat (b - a)) (str_drop (Z.to_nat a) s).

(** ** Limits and failures *)

Definition MaxScannedStringBytes : Z := 262144.
Definition MaxFieldCandidates : Z := 512.
Definition MaxFieldMatches : Z := 256.
Definition MaxRecordMatches : Z := 4096.
Definition hashV1KeySize : Z := 32.

Definition FailureInvalidUTF8 := "invalid_utf8".
Definition FailureKeyUnavailable := "key_unavailable".
Definition FailureCandidateLimit := "candidate_limit".
Definition FailureFieldMatchLimit := "field_match_limit".
Definition FailureRecordMatchLimit := "record_match_limit".
Definition FailureMatcher := "matcher_failed".
Definition FailureValidator := "validator_failed".

Definition registeredFailureCodes : list string :=
  [FailureInvalidUTF8; FailureKeyUnavailable; FailureCandidateLimit; FailureFieldMatchLimit;
   FailureRecordMatchLimit; FailureMatcher; FailureValidator].

Definition failed_token (code : string) : string := "<redacted type=failed_closed v=1 code=" ++ code ++ ">".

Definition FailedClosedToken (code : string) : string + string :=
  if existsb (String.eqb code) registeredFailureCodes then inr (failed_token code)
  else inl FailureValidator.

(** ** The catalog *)

Record catalogDefinition := mkDef {
  def_order : Z;
  def_group : string;
  def_id : string;
  candidateBound : Z;
}.

Definition generatedCatalogDefinitions : list catalogDefinition :=
  [ mkDef 1 "credentials" "credentials.api_token" 3074;
    mkDef 2 "credentials" "credentials.private_key" 65536;
    mkDef 3 "credentials" "credentials.authorization" 8192;
    mkDef 4 "credentials" "credentials.cookie" 8192;
    mkDef 5 "credentials" "credentials.connection_string" 8192;
    mkDef 6 "secrets" "secrets.assignment" 8192;
    mkDef 7 "secrets" "secrets.high_entropy" 256;
    mkDef 8 "secrets" "secrets.url_query" 8192;
    mkDef 9 "secrets" "secrets.cloud_account_identifier" 64;
    mkDef 10 "pii" "pii.email" 254;
    mkDef 11 "pii" "pii.telephone" 19;
    mkDef 12 "pii" "pii.national_identifier" 11;
    mkDef 13 "pii" "pii.payment_card" 37;
    mkDef 14 "pii" "pii.ip_address" 45 ].

Definition generatedGroupDefinitions : list (string * list string) :=
  [ ("credentials", ["credentials.api_token"; "credentials.private_key"; "credentials.authorization";
                     "credentials.cookie"; "credentials.connection_string"]);
    ("secrets", ["secrets.assignment"; "secrets.high_entropy"; "secrets.url_query";
                 "secrets.cloud_account_identifier"]);
    ("pii", ["pii.email"; "pii.telephone"; "pii.national_identifier"; "pii.payment_card";
             "pii.ip_address"]) ].

Definition DetectorsForGroup (group : string) : option (list string) :=
  snd <$> find (fun gm => fst gm =? group) generatedGroupDefinitions.

Definition catalogDefinitionFor (id : string) : option catalogDefinition :=
  find (fun d => def_id d =? id) generatedCatalogDefinitions.

(** The loop of [selectedDetectorIDs] (a group seen before is skipped; it adds
    nothing). *)
Fixpoint select_ids (grps seen selected : list string) : option (list string) :=
  match grps with
  | [] => Some selected
  | group :: r =>
      if existsb (String.eqb group) seen then select_ids r seen selected
      else match DetectorsForGroup group with
           | None => None
           | Some members => select_ids r (group :: seen) (selected ++ members)
           end
  end.

Definition selectedDetectorIDs (grps : list string) : option (list string) :=
  match grps with [] => None | _ => select_ids grps [] [] end.

(** ** Matches *)

Record candidate := { cand_start : Z; cand_end : Z; cand_accepted : bool }.

Record acceptedMatch := mkMatch {
  m_start : Z;
  m_end : Z;
  m_id : string;
  m_group : string;
  m_order : Z;
}.

Definition validCandidate (item : candidate) (inputLength bound : Z) : bool :=
  ((0 <=? cand_start item) && (cand_start item <? cand_end item) &&
   (cand_end item <=? inputLength) && (cand_end item - cand_start item <=? bound))%Z.

Definition groupPriority (group : string) : Z :=
  if group =? DetectorGroupCredentials then 0
  else if group =? DetectorGroupSecrets then 1
  else if group =? DetectorGroupPII then 2
  else 3.

Definition betterIdentity (left right : acceptedMatch) : bool :=
  let lp := groupPriority (m_group left) in
  let rp := groupPriority (m_group right) in
  (if negb (lp =? rp) then lp <? rp
   else if negb (m_order left =? m_order right) then m_order left <? m_order right
   else if negb (m_start left =? m_start right) then m_start left <? m_start right
   else (m_end right - m_start right <? m_end left - m_start left))%Z.

(** The comparison of [sort.SliceStable]. *)
Definition match_less (a b : acceptedMatch) : bool :=
  (if negb (m_start a =? m_start b) then m_start a <? m_start b
   else if negb (m_end a =? m_end b) then m_end b <? m_end a
   else betterIdentity a b)%Z.

(** A stable sort: an element goes before those of its right it is not above. *)
Fixpoint stable_insert (x : acceptedMatch) (l : list acceptedMatch) : list acceptedMatch :=
  match l with
  | [] => [x]
  | y :: r => if match_less y x then y :: stable_insert x r else x :: y :: r
  end.

Definition stable_sort (l : list acceptedMatch) : list acceptedMatch := foldr stable_insert [] l.

Definition with_span (m : acceptedMatch) (s e : Z) : acceptedMatch :=
  mkMatch s e (m_id m) (m_group m) (m_order m).

(** The loop of [clusterMatches] over the sorted matches. *)
Fixpoint cluster_loop (winner : acceptedMatch) (unionStart unionEnd : Z) (ordered : list acceptedMatch) :
    list acceptedMatch :=
  match ordered with
  | [] => [with_span winner unionStart unionEnd]
  | next :: r =>
      if (unionEnd <=? m_start next)%Z
      then with_span winner unionStart unionEnd :: cluster_loop next (m_start next) (m_end next) r
      else cluster_loop (if betterIdentity next winner then next else winner) unionStart
             (if (unionEnd <? m_end next)%Z then m_end next else unionEnd) r
  end.

Definition clusterMatches (matches : list acceptedMatch) : list acceptedMatch :=
  match stable_sort matches with
  | [] => []
  | winner :: r => cluster_loop winner (m_start winner) (m_end winner) r
  end.

(** ** The record budget *)

Record RecordMatchBudget := { accepted : Z; exhausted : bool }.
Definition NewRecordMatchBudget : RecordMatchBudget := {| accepted := 0; exhausted := false |}.

(** [consume] on a budget that may be nil. *)
Definition consume (b : option RecordMatchBudget) (count : Z) : bool * option RecordMatchBudget :=
  match b with
  | None => ((count <=? MaxRecordMatches)%Z, None)
  | Some b =>
      if exhausted b || (MaxRecordMatches - accepted b <? count)%Z
      then (false, Some {| accepted := accepted b; exhausted := true |})
      else (true, Some {| accepted := accepted b + count; exhausted := exhausted b |})
  end.

Definition isExhausted (b : option RecordMatchBudget) : bool :=
  match b with None => false | Some b => exhausted b end.

(** ** Tokens *)

Section Tokens.
Context (sha256 : string -> string) (hmac : string -> string -> string).

Definition hashV1KeyID (key : string) : string := hex_encode (str_take 6 (sha256 key)).

Definition detectDomain := "defenseclaw-redaction-detect-v1".
Definition wholeDomain := "defenseclaw-redaction-whole-v1".
Definition oversizeDomain := "defenseclaw-redaction-oversize-v1".

Definition correlationToken (domain tokenType value key : string) : string + string :=
  if negb (valid_utf8 value) then inl FailureInvalidUTF8
  else if negb (slen key =? hashV1KeySize)%Z then inl FailureKeyUnavailable
  else
    let digest := hmac key (domain ++ NUL ++ tokenType ++ NUL ++ value) in
    inr ("<redacted type=" ++ tokenType ++ " v=1 key=" ++ hashV1KeyID key ++
         " len=" ++ pretty (slen value) ++ " hmac=" ++ hex_encode (str_take 8 digest) ++ ">").

Definition DetectedToken (id matched key : string) : string + string :=
  match catalogDefinitionFor id with
  | None => inl FailureValidator
  | Some _ => correlationToken detectDomain id matched key
  end.

Definition WholeToken (class value key : string) : string + string :=
  if negb (IsFieldClass class) then inl FailureValidator
  else correlationToken wholeDomain ("field." ++ class) value key.

Definition OversizeToken (class value key : string) : string + string :=
  if negb (IsFieldClass class) then inl FailureValidator
  else correlationToken oversizeDomain ("oversize." ++ class) value key.

(** ** The scan *)

Record Match := { Start : Z; End : Z; ID : string; Token : string }.

Record DetectionResult := {
  Value : string;
  Matches : list Match;
  LexicalCandidates : Z;
  AcceptedMatches : Z;
  Oversize : bool;
  Failure : string;
}.

Definition failedDetectionWithCandidates (code : string) (candidates : Z) : DetectionResult :=
  let '(code, token) :=
    match FailedClosedToken code with
    | inr token => (code, token)
    | inl _ => (FailureValidator, "<redacted type=failed_closed v=1 code=validator_failed>")
    end in
  {| Value := token; Matches := []; LexicalCandidates := candidates; AcceptedMatches := 0;
     Oversize := false; Failure := code |}.

Definition failedDetection (code : string) : DetectionResult := failedDetectionWithCandidates code 0.

(** A recognizer: the candidates of a detector in an input, given the matches
    accepted before; or the code of its error. *)
Context (recognize : string -> string -> string -> list acceptedMatch -> string + list candidate).

(** The loop over the candidates of one detector: the accepted matches and the
    number of candidates, or the failure and that number. *)
Fixpoint candidate_loop (d : catalogDefinition) (inputLength : Z) (found : list candidate)
    (acc : list acceptedMatch) (count : Z) : (string * Z) + (list acceptedMatch * Z) :=
  match found with
  | [] => inr (acc, count)
  | item :: r =>
      let count := (count + 1)%Z in
      if (MaxFieldCandidates <? count)%Z then inl (FailureCandidateLimit, count)
      else if negb (validCandidate item inputLength (candidateBound d)) || negb (cand_accepted item)
      then candidate_loop d inputLength r acc count
      else
        let acc := (acc ++ [mkMatch (cand_start item) (cand_end item) (def_id d) (def_group d) (def_order d)])%list in
        if (MaxFieldMatches <? zlen acc)%Z then inl (FailureFieldMatchLimit, count)
        else candidate_loop d inputLength r acc count
  end.

Fixpoint scan_loop (defs : list catalogDefinition) (enabled : list string) (input class : string)
    (acc : list acceptedMatch) (count : Z) : (string * Z) + (list acceptedMatch * Z) :=
  match defs with
  | [] => inr (acc, count)
  | d :: r =>
      if negb (existsb (String.eqb (def_id d)) enabled) then scan_loop r enabled input class acc count
      else match recognize (def_id d) input class acc with
      | inl code => inl (code, 0%Z)
      | inr found =>
          match candidate_loop d (slen input) found acc count with
          | inl f => inl f
          | inr (acc, count) => scan_loop r enabled input class acc count
          end
      end
  end.

(** The tokens of the clusters, or the first failure. *)
Fixpoint token_loop (input key : string) (clusters : list acceptedMatch) : string + list Match :=
  match clusters with
  | [] => inr []
  | item :: r =>
      match DetectedToken (m_id item) (slice input (m_start item) (m_end item)) key with
      | inl e => inl e
      | inr token =>
          match token_loop input key r with
          | inl e => inl e
          | inr ms => inr ({| Start := m_start item; End := m_end item; ID := m_id item; Token := token |} :: ms)
          end
      end
  end.

(** The replacement of one match in the value, from the last to the first. *)
Definition replace_match (m : Match) (value : string) : string :=
  str_take (Z.to_nat (Start m)) value ++ Token m ++ str_drop (Z.to_nat (End m)) value.

Definition DetectAndRedact (input class : string) (grps : list string) (key : string)
    (budget : option RecordMatchBudget) : bool * DetectionResult * option RecordMatchBudget :=
  if negb (valid_utf8 input) then (false, failedDetection FailureInvalidUTF8, budget)
  else if negb (IsFieldClass class) then (false, failedDetection FailureValidator, budget)
  else if negb (slen key =? hashV1KeySize)%Z then (false, failedDetection FailureKeyUnavailable, budget)
  else if isExhausted budget then (false, failedDetection FailureRecordMatchLimit, budget)
  else if (MaxScannedStringBytes <? slen input)%Z then
    match OversizeToken class input key with
    | inl e => (false, failedDetection e, budget)
    | inr token =>
        (true, {| Value := token; Matches := []; LexicalCandidates := 0; AcceptedMatches := 0;
                  Oversize := true; Failure := "" |}, budget)
    end
  else match selectedDetectorIDs grps with
  | None => (false, failedDetection FailureValidator, budget)
  | Some enabled =>
      match scan_loop generatedCatalogDefinitions enabled input class [] 0 with
      | inl (code, count) => (false, failedDetectionWithCandidates code count, budget)
      | inr (acc, count) =>
          let '(granted, budget) := consume budget (zlen acc) in
          if negb granted then (false, failedDetectionWithCandidates FailureRecordMatchLimit count, budget)
          else match token_loop input key (clusterMatches acc) with
          | inl e => (false, failedDetectionWithCandidates e count, budget)
          | inr ms =>
              (true, {| Value := foldr replace_match input ms; Matches := ms; LexicalCandidates := count;
                        AcceptedMatches := zlen acc; Oversize := false; Failure := "" |}, budget)
          end
      end
  end.
End Tokens.

(** ** Lemmas: slices *)

Local Open Scope Z_scope.

Lemma str_take_drop n s : (str_take n s ++ str_drop n s)%string = s.
Proof.
  revert s. induction n as [|n IH]; intros s; [by destruct s|]. destruct s as [|c s]; [done|].
  exact (f_equal (String c) (IH s)).
Qed.

Lemma str_take_length n s : (n <= String.length s)%nat -> String.length (str_take n s) = n.
Proof.
  revert s. induction n as [|n IH]; intros s Hn; [by destruct s|].
  destruct s as [|c s]; simpl in *; [lia|]. rewrite IH; lia.
Qed.

Lemma str_take_app a b n : (n <= String.length a)%nat -> str_take n (a ++ b)%string = str_take n a.
Proof.
  revert n. induction a as [|c a IH]; intros [|n] Hn; simpl in *; try lia; [by destruct b|done|].
  by rewrite IH by lia.
Qed.

Lemma str_drop_app a b : str_drop (String.length a) (a ++ b)%string = b.
Proof. induction a as [|c a IH]; [by destruct b|exact IH]. Qed.

Lemma str_drop_drop n m s : str_drop n (str_drop m s) = str_drop (m + n) s.
Proof.
  revert s. induction m as [|m IH]; intros s; [done|]. destruct s as [|c s]; simpl; [by destruct n|apply IH].
Qed.

Lemma str_take_plus n m s : str_take (n + m) s = (str_take n s ++ str_take m (str_drop n s))%string.
Proof.
  revert s. induction n as [|n IH]; intros s; [done|].
  destruct s as [|c s]; [by destruct m|]. exact (f_equal (String c) (IH s)).
Qed.

(** ** Lemmas: spans *)

(** Byte [i] is in one of the spans. *)
Definition covered {A} (s e : A -> Z) (l : list A) (i : Z) : Prop :=
  exists m, m ∈ l /\ s m <= i < e m.

(** The spans lie between [pos] and [limit], in order and without overlap. *)
Fixpoint spaced {A} (s e : A -> Z) (pos limit : Z) (l : list A) : Prop :=
  match l with
  | [] => pos <= limit
  | m :: r => pos <= s m /\ s m < e m /\ e m <= limit /\ spaced s e (e m) limit r
  end.

Lemma spaced_weaken {A} (s e : A -> Z) pos pos' limit l :
  pos' <= pos -> spaced s e pos limit l -> spaced s e pos' limit l.
Proof. destruct l; cbn [spaced]; [lia|]. intros ? (? & ?). split; [lia|done]. Qed.

Lemma covered_nil {A} (s e : A -> Z) i : covered s e [] i <-> False.
Proof. unfold covered. split; [by intros (x & ?%elem_of_nil & _)|done]. Qed.

Lemma covered_cons {A} (s e : A -> Z) m l i :
  covered s e (m :: l) i <-> s m <= i < e m \/ covered s e l i.
Proof.
  unfold covered. split.
  - intros (x & Hx & Hi). apply elem_of_cons in Hx as [->|Hx]; [by left|right; by exists x].
  - intros [Hi|(x & Hx & Hi)]; [exists m|exists x]; (split; [apply elem_of_cons; auto|done]).
Qed.

Lemma covered_perm {A} (s e : A -> Z) l k i : l ≡ₚ k -> covered s e l i <-> covered s e k i.
Proof. intros H. unfold covered. by setoid_rewrite H. Qed.

(** ** Lemmas: the stable sort *)

Definition starts_sorted : list acceptedMatch -> Prop := StronglySorted (fun a b => m_start a <= m_start b).

Lemma match_less_start a b : match_less a b = true -> m_start a <= m_start b.
Proof. unfold match_less. destruct (Z.eqb_spec (m_start a) (m_start b)); cbn [negb]; lia. Qed.

Lemma match_not_less_start a b : match_less a b = false -> m_start b <= m_start a.
Proof. unfold match_less. destruct (Z.eqb_spec (m_start a) (m_start b)); cbn [negb]; lia. Qed.

Lemma stable_insert_perm x l : stable_insert x l ≡ₚ x :: l.
Proof.
  induction l as [|y l IH]; [done|]. cbn [stable_insert]. destruct (match_less y x); [|done].
  rewrite IH. apply Permutation_swap.
Qed.

Lemma stable_sort_perm l : stable_sort l ≡ₚ l.
Proof. induction l as [|x l IH]; [done|]. cbn [stable_sort foldr]. by rewrite stable_insert_perm, IH. Qed.

Lemma stable_insert_sorted x l : starts_sorted l -> starts_sorted (stable_insert x l).
Proof.
  unfold starts_sorted. induction 1 as [|y l Hl IH Hy]; [repeat constructor|]. cbn [stable_insert].
  destruct (match_less y x) eqn:E.
  - constructor; [done|]. rewrite stable_insert_perm. constructor; [by apply match_less_start|done].
  - apply match_not_less_start in E. constructor; [by constructor|]. constructor; [done|].
    eapply Forall_impl; [exact Hy|]. simpl. lia.
Qed.

Lemma stable_sort_sorted l : starts_sorted (stable_sort l).
Proof. induction l as [|x l IH]; [constructor|]. by apply stable_insert_sorted. Qed.

(** ** Lemmas: clusters *)

Definition span_ok (limit : Z) (m : acceptedMatch) : Prop := 0 <= m_start m < m_end m /\ m_end m <= limit.

Lemma cluster_loop_spec limit rest : forall w us ue,
  us < ue <= limit -> starts_sorted rest -> Forall (span_ok limit) rest ->
  Forall (fun m => us <= m_start m) rest ->
  spaced m_start m_end us limit (cluster_loop w us ue rest) /\
  forall i, covered m_start m_end (cluster_loop w us ue rest) i <->
            us <= i < ue \/ covered m_start m_end rest i.
Proof.
  induction rest as [|next rest IH]; intros w us ue Hu Hs Hok Hge; cbn [cluster_loop].
  - split; [cbn; lia|]. intros i. by rewrite covered_cons, !covered_nil.
  - apply StronglySorted_inv in Hs as [Hs Hnext].
    apply Forall_cons_1 in Hok as [[Hn1 Hn2] Hok], Hge as [Hge1 Hge].
    destruct (Z.leb_spec ue (m_start next)) as [Hle|Hlt].
    + destruct (IH next (m_start next) (m_end next)) as [Hsp Hcov]; [lia|done|done|done|]. split.
      * cbn [spaced with_span m_start m_end]. split; [lia|]. split; [lia|]. split; [lia|].
        eapply spaced_weaken; [|exact Hsp]. lia.
      * intros i. rewrite covered_cons, Hcov, covered_cons. by cbn.
    + destruct (IH (if betterIdentity next w then next else w) us
        (if ue <? m_end next then m_end next else ue)) as [Hsp Hcov].
      * destruct (Z.ltb_spec ue (m_end next)); lia.
      * done.
      * done.
      * done.
      * split; [done|]. intros i. rewrite Hcov, covered_cons. destruct (Z.ltb_spec ue (m_end next)).
        -- split; [intros [?|?]|intros [?|[?|?]]]; auto; lia.
        -- split; [intros [?|?]|intros [?|[?|?]]]; auto; lia.
Qed.

Lemma clusterMatches_spec limit l :
  0 <= limit -> Forall (span_ok limit) l ->
  spaced m_start m_end 0 limit (clusterMatches l) /\
  forall i, covered m_start m_end (clusterMatches l) i <-> covered m_start m_end l i.
Proof.
  intros Hl Hok. pose proof (stable_sort_perm l) as Hp. pose proof (stable_sort_sorted l) as Hs.
  rewrite <-Hp in Hok. unfold clusterMatches. destruct (stable_sort l) as [|w r].
  - split; [done|]. intros i. by rewrite <-(covered_perm _ _ _ _ i Hp).
  - apply Forall_cons_1 in Hok as [[Hw1 Hw2] Hok]. apply StronglySorted_inv in Hs as [Hs Hge].
    destruct (cluster_loop_spec limit r w (m_start w) (m_end w)) as [Hsp Hcov]; [lia|done|done|done|].
    split; [eapply spaced_weaken; [|exact Hsp]; lia|].
    intros i. by rewrite Hcov, <-(covered_perm _ _ _ _ i Hp), covered_cons.
Qed.

(** The identity of a cluster is that of a match inside it. *)
Lemma cluster_loop_ids rest : forall w us ue,
  Forall (fun c => exists m, (m = w \/ m ∈ rest) /\ m_id c = m_id m) (cluster_loop w us ue rest).
Proof.
  induction rest as [|next rest IH]; intros w us ue; cbn [cluster_loop].
  - constructor; [|constructor]. exists w. auto.
  - destruct (ue <=? m_start next).
    + constructor; [exists w; auto|]. eapply Forall_impl; [apply IH|].
      intros c (m & [->|Hm] & Hid); exists m || exists next; (split; [right; apply elem_of_cons; auto|done]).
    + eapply Forall_impl; [apply IH|]. intros c (m & [->|Hm] & Hid).
      * destruct (betterIdentity next w); [exists next; split; [right; apply elem_of_cons; auto|done]|exists w; auto].
      * exists m. split; [right; apply elem_of_cons; auto|done].
Qed.

Lemma clusterMatches_ids l :
  Forall (fun c => exists m, m ∈ l /\ m_id c = m_id m) (clusterMatches l).
Proof.
  pose proof (stable_sort_perm l) as Hp. unfold clusterMatches. destruct (stable_sort l) as [|w r]; [constructor|].
  eapply Forall_impl; [apply cluster_loop_ids|]. intros c (m & Hm & Hid). exists m. split; [|done].
  rewrite <-Hp. apply elem_of_cons. naive_solver.
Qed.

(** ** Lemmas: the replacement *)

(** The value with every span replaced: the text outside is kept as it is. *)
Fixpoint splice (input : string) (pos : Z) (ms : list Match) : string :=
  match ms with
  | [] => str_drop (Z.to_nat pos) input
  | m :: r => (slice input pos (Start m) ++ Token m ++ splice input (End m) r)%string
  end.

Lemma slice_prefix input n m :
  0 <= n <= m -> str_take (Z.to_nat m) input = (str_take (Z.to_nat n) input ++ slice input n m)%string.
Proof.
  intros H. unfold slice. rewrite <-str_take_plus. f_equal. lia.
Qed.

Lemma replace_splice input ms : forall pos,
  0 <= pos -> spaced Start End pos (slen input) ms ->
  foldr replace_match input ms = (str_take (Z.to_nat pos) input ++ splice input pos ms)%string.
Proof.
  induction ms as [|m r IH]; intros pos Hpos Hsp; cbn [foldr splice].
  - by rewrite str_take_drop.
  - cbn [spaced] in Hsp. destruct Hsp as (H1 & H2 & H3 & Hsp).
    rewrite (IH (End m)) by (lia || done). unfold replace_match, slen in *.
    assert (Hlen : String.length (str_take (Z.to_nat (End m)) input) = Z.to_nat (End m))
      by (apply str_take_length; lia).
    rewrite str_take_app by lia. rewrite <-Hlen at 2. rewrite str_drop_app.
    assert (Htt : str_take (Z.to_nat (Start m)) (str_take (Z.to_nat (End m)) input) = str_take (Z.to_nat (Start m)) input).
    { rewrite (slice_prefix input (Start m) (End m)) by lia. rewrite str_take_app.
      - clear. induction (Z.to_nat (Start m)) as [|n IH] in input |- *; [done|]. destruct input; [done|].
        exact (f_equal _ (IH _)).
      - rewrite str_take_length; lia. }
    rewrite Htt, (slice_prefix input pos (Start m)) by lia. by rewrite <-!sapp_assoc.
Qed.

Section Scan.
Context (recognize : string -> string -> string -> list acceptedMatch -> string + list candidate).

(** A match comes from a valid accepted candidate of its definition. *)
Lemma candidate_loop_ok d n found : forall acc count acc' count',
  candidate_loop d n found acc count = inr (acc', count') ->
  Forall (span_ok n) acc -> Forall (fun m => is_Some (catalogDefinitionFor (m_id m))) acc ->
  is_Some (catalogDefinitionFor (def_id d)) -> count <= MaxFieldCandidates -> zlen acc <= MaxFieldMatches ->
  Forall (span_ok n) acc' /\ Forall (fun m => is_Some (catalogDefinitionFor (m_id m))) acc' /\
  count' <= MaxFieldCandidates /\ zlen acc' <= MaxFieldMatches.
Proof.
  induction found as [|item r IH]; intros acc count acc' count'; cbn [candidate_loop].
  - intros [= <- <-]. auto.
  - destruct (Z.ltb_spec MaxFieldCandidates (count + 1)); [done|].
    destruct (validCandidate item n (candidateBound d)) eqn:Hv; cbn [negb orb].
    2: { intros Hc ?????. by eapply IH. }
    destruct (cand_accepted item); cbn [negb].
    2: { intros Hc ?????. by eapply IH. }
    destruct (Z.ltb_spec MaxFieldMatches (zlen (acc ++ [mkMatch (cand_start item) (cand_end item) (def_id d) (def_group d) (def_order d)])));
      [done|].
    intros Hc Hok Hid Hd ??. eapply IH; [exact Hc| | |done|done|done].
    + apply Forall_app. split; [done|]. constructor; [|constructor].
      unfold validCandidate in Hv. bool_facts. split; cbn; lia.
    + apply Forall_app. split; [done|]. by constructor.
Qed.

Lemma scan_loop_ok defs enabled input class : forall acc count acc' count',
  scan_loop recognize defs enabled input class acc count = inr (acc', count') ->
  Forall (span_ok (slen input)) acc -> Forall (fun m => is_Some (catalogDefinitionFor (m_id m))) acc ->
  Forall (fun d => is_Some (catalogDefinitionFor (def_id d))) defs ->
  count <= MaxFieldCandidates -> zlen acc <= MaxFieldMatches ->
  Forall (span_ok (slen input)) acc' /\ Forall (fun m => is_Some (catalogDefinitionFor (m_id m))) acc' /\
  count' <= MaxFieldCandidates /\ zlen acc' <= MaxFieldMatches.
Proof.
  induction defs as [|d r IH]; intros acc count acc' count'; cbn [scan_loop].
  - intros [= <- <-]. auto.
  - intros Hs Hok Hid Hdefs Hc Hm. apply Forall_cons_1 in Hdefs as [Hd Hdefs].
    destruct (negb (existsb (String.eqb (def_id d)) enabled)); [by eapply IH|].
    destruct (recognize (def_id d) input class acc) as [e|found]; [done|].
    destruct (candidate_loop d (slen input) found acc count) as [f|[acc1 count1]] eqn:Hcl; [done|].
    destruct (candidate_loop_ok _ _ _ _ _ _ _ Hcl Hok Hid Hd Hc Hm) as (? & ? & ? & ?).
    by eapply IH.
Qed.
End Scan.

Lemma catalog_ids : Forall (fun d => is_Some (catalogDefinitionFor (def_id d))) generatedCatalogDefinitions.
Proof. repeat constructor; by eexists. Qed.

Section Detection.
Context (sha256 : string -> string) (hmac : string -> string -> string)
        (recognize : string -> string -> string -> list acceptedMatch -> string + list candidate).

Lemma token_loop_spec input key cs : forall ms,
  token_loop sha256 hmac input key cs = inr ms ->
  Forall2 (fun c m => Start m = m_start c /\ End m = m_end c /\ ID m = m_id c /\
    DetectedToken sha256 hmac (ID m) (slice input (Start m) (End m)) key = inr (Token m)) cs ms.
Proof.
  induction cs as [|c cs IH]; intros ms; cbn [token_loop]; [intros [= <-]; constructor|].
  destruct (DetectedToken sha256 hmac (m_id c) (slice input (m_start c) (m_end c)) key) eqn:Ht; [done|].
  destruct (token_loop sha256 hmac input key cs) as [e|r]; [done|]. intros [= <-].
  constructor; [done|]. by apply IH.
Qed.

Lemma Forall2_spaced (R : acceptedMatch -> Match -> Prop) limit cs : forall ms pos,
  (forall c m, R c m -> Start m = m_start c /\ End m = m_end c) ->
  Forall2 R cs ms -> spaced m_start m_end pos limit cs -> spaced Start End pos limit ms.
Proof.
  intros ms pos HR HF. revert pos. induction HF as [|c m cs ms Hcm HF IH]; intros pos; [done|].
  cbn [spaced]. destruct (HR _ _ Hcm) as [-> ->]. intros (? & ? & ? & ?). auto.
Qed.

Lemma Forall2_covered (R : acceptedMatch -> Match -> Prop) cs ms i :
  (forall c m, R c m -> Start m = m_start c /\ End m = m_end c) ->
  Forall2 R cs ms -> covered Start End ms i <-> covered m_start m_end cs i.
Proof.
  intros HR HF. induction HF as [|c m cs ms Hcm HF IH]; [by rewrite !covered_nil|].
  rewrite !covered_cons, IH. by destruct (HR _ _ Hcm) as [-> ->].
Qed.

Lemma failedDetection_spec code n :
  exists c, c ∈ registeredFailureCodes /\ Value (failedDetectionWithCandidates code n) = failed_token c /\
    Failure (failedDetectionWithCandidates code n) = c /\ Matches (failedDetectionWithCandidates code n) = [].
Proof.
  unfold failedDetectionWithCandidates, FailedClosedToken.
  destruct (existsb (String.eqb code) registeredFailureCodes) eqn:E.
  - exists code. split; [|done]. apply existsb_exists in E as (x & Hx & ->%String.eqb_eq).
    by apply list_elem_of_In.
  - exists FailureValidator. split; [|done]. apply list_elem_of_In. simpl. tauto.
Qed.

Definition budget_ok (b : option RecordMatchBudget) : Prop :=
  match b with Some b => 0 <= accepted b <= MaxRecordMatches | None => True end.

Definition spent (b b' : option RecordMatchBudget) (n : Z) : Prop :=
  match b, b' with
  | Some b, Some b' => accepted b' = accepted b + n
  | None, None => n <= MaxRecordMatches
  | _, _ => False
  end.

Lemma consume_spec b n ok b' :
  0 <= n -> budget_ok b -> consume b n = (ok, b') ->
  budget_ok b' /\ (ok = true -> spent b b' n) /\
  (ok = false -> match b' with Some b' => exhausted b' = true | None => True end).
Proof.
  intros Hn Hb. unfold consume. destruct b as [b|]; cbn in *.
  - destruct (exhausted b); cbn [orb]; [intros [= <- <-]; cbn; done|].
    destruct (Z.ltb_spec (MaxRecordMatches - accepted b) n); intros [= <- <-]; cbn; split_and!; lia || done.
  - intros [= <- <-]. cbn. split_and!; [done|lia|done].
Qed.

(** What a successful scan returns. *)
Definition scanned (input class key : string) (grps : list string) (r : DetectionResult) : Prop :=
  exists enabled acc count,
    selectedDetectorIDs grps = Some enabled /\
    scan_loop recognize generatedCatalogDefinitions enabled input class [] 0 = inr (acc, count) /\
    spaced Start End 0 (slen input) (Matches r) /\
    (forall i, covered Start End (Matches r) i <-> covered m_start m_end acc i) /\
    Value r = splice input 0 (Matches r) /\
    Forall (fun m => DetectedToken sha256 hmac (ID m) (slice input (Start m) (End m)) key = inr (Token m) /\
                     exists a, a ∈ acc /\ ID m = m_id a) (Matches r) /\
    AcceptedMatches r = zlen acc /\ zlen acc <= MaxFieldMatches /\ count <= MaxFieldCandidates.

Lemma scan_result input class key grps enabled acc count ms :
  selectedDetectorIDs grps = Some enabled ->
  scan_loop recognize generatedCatalogDefinitions enabled input class [] 0 = inr (acc, count) ->
  token_loop sha256 hmac input key (clusterMatches acc) = inr ms ->
  scanned input class key grps
    {| Value := foldr replace_match input ms; Matches := ms; LexicalCandidates := count;
       AcceptedMatches := zlen acc; Oversize := false; Failure := "" |}.
Proof.
  intros He Hs Ht. apply token_loop_spec in Ht.
  destruct (scan_loop_ok recognize _ _ _ _ _ _ _ _ Hs) as (Hok & _ & Hc & Hm);
    [constructor|constructor|apply catalog_ids|done|done|].
  destruct (clusterMatches_spec (slen input) acc (slen_nonneg _) Hok) as [Hsp Hcov].
  pose proof (clusterMatches_ids acc) as Hids.
  assert (Hms : spaced Start End 0 (slen input) ms) by (eapply Forall2_spaced; [|exact Ht|done]; by intros c m (? & ? & _)).
  exists enabled, acc, count. cbn [Value Matches AcceptedMatches]. split_and!; try done.
  - intros i. rewrite <-Hcov. eapply Forall2_covered; [|exact Ht]. by intros c m (? & ? & _).
  - by rewrite (replace_splice input ms 0).
  - clear -Ht Hids. induction Ht as [|c m cs ms Hcm _ IH]; [constructor|].
    apply Forall_cons_1 in Hids as [(a & Ha & Hid) Hids]. constructor; [|by apply IH].
    destruct Hcm as (_ & _ & Hi & Htok). split; [done|]. exists a. split; [done|]. congruence.
Qed.

(** C34: detection in a field, for any recognizers.  A failure returns a fixed
    placeholder that depends only on a registered code, never on the input; an
    input above the scan limit is replaced as a whole; otherwise the result is the
    input in which maximal, non-overlapping spans are replaced by tokens of their
    text: a byte is replaced if and only if an accepted match covers it, and every
    other byte is kept.  The limits on candidates and matches hold, and the record
    budget is charged exactly the accepted matches, never above its bound. *)
Theorem DetectAndRedact_exact input class grps key budget :
  let '(ok, r, budget') := DetectAndRedact sha256 hmac recognize input class grps key budget in
  (ok = false -> exists code, code ∈ registeredFailureCodes /\ Value r = failed_token code /\
     Failure r = code /\ Matches r = []) /\
  (ok = true -> Oversize r = true ->
     MaxScannedStringBytes < slen input /\ OversizeToken sha256 hmac class input key = inr (Value r)) /\
  (ok = true -> Oversize r = false ->
     slen input <= MaxScannedStringBytes /\ scanned input class key grps r /\
     (budget_ok budget -> spent budget budget' (AcceptedMatches r))) /\
  (budget_ok budget -> budget_ok budget').
Proof.
  assert (Hfail : forall code n b', (budget_ok budget -> budget_ok b') ->
    let '(ok, r, budget') := (false, failedDetectionWithCandidates code n, b') in
    (ok = false -> exists code, code ∈ registeredFailureCodes /\ Value r = failed_token code /\
       Failure r = code /\ Matches r = []) /\
    (ok = true -> Oversize r = true ->
       MaxScannedStringBytes < slen input /\ OversizeToken sha256 hmac class input key = inr (Value r)) /\
    (ok = true -> Oversize r = false ->
       slen input <= MaxScannedStringBytes /\ scanned input class key grps r /\
       (budget_ok budget -> spent budget budget' (AcceptedMatches r))) /\
    (budget_ok budget -> budget_ok budget')).
  { intros code n b' Hb. split; [|done]. intros _.
    destruct (failedDetection_spec code n) as (c & ? & ? & ? & ?). eauto 10. }
  unfold DetectAndRedact, failedDetection.
  destruct (negb (valid_utf8 input)); [by apply Hfail|].
  destruct (negb (IsFieldClass class)); [by apply Hfail|].
  destruct (negb (slen key =? hashV1KeySize)); [by apply Hfail|].
  destruct (isExhausted budget); [by apply Hfail|].
  destruct (Z.ltb_spec MaxScannedStringBytes (slen input)) as [Hbig|Hsmall].
  { destruct (OversizeToken sha256 hmac class input key) as [e|t]; [by apply Hfail|]. cbn. by split_and!. }
  destruct (selectedDetectorIDs grps) as [enabled|] eqn:He; [|by apply Hfail].
  destruct (scan_loop recognize generatedCatalogDefinitions enabled input class [] 0) as [[code n]|[acc count]] eqn:Hs;
    [by apply Hfail|].
  destruct (consume budget (zlen acc)) as [granted b'] eqn:Hcons.
  assert (Hb : budget_ok budget -> budget_ok b' /\ (granted = true -> spent budget b' (zlen acc))).
  { intros Hbo. destruct (consume_spec budget (zlen acc) granted b' (zlen_nonneg _) Hbo Hcons) as (? & ? & _). auto. }
  destruct granted; cbn [negb]; [|apply Hfail; by intros [? _]%Hb].
  destruct (token_loop sha256 hmac input key (clusterMatches acc)) as [e|ms] eqn:Ht;
    [apply Hfail; by intros [? _]%Hb|].
  split; [done|]. split; [done|]. split; [|by intros [? _]%Hb]. intros _ _. split; [done|].
  split; [by eapply scan_result|]. intros [_ Hsp]%Hb. by apply Hsp.
Qed.
End Detection.

(** Two overlapping matches and an adjacent one, with a recognizer that reports
    them: the overlap becomes one span with the better identity. *)
Example cluster_ex :
  map (fun m => (m_start m, m_end m, m_id m))
    (clusterMatches [mkMatch 4 9 "pii.email" "pii" 10; mkMatch 0 6 "secrets.assignment" "secrets" 6;
                     mkMatch 9 12 "pii.email" "pii" 10]) =
  [(0, 9, "secrets.assignment"); (9, 12, "pii.email")]%string.
Proof. reflexivity. Qed.
