(* ===== verification/RedactionEngine.v ===== *)
(** * Redacted projections (internal/observability/redaction/engine.go,
    projection.go, hash_v1.go)

    The projection of a canonical record for a route: the check of its
    classification, the walk that transforms every leaf by the mode of its class,
    the report of what was done, and the reuse of a projection.  Parameters: the
    cryptographic functions, the recognizers of the detectors, the normalisation
    of hashed values, the functions of the previous redaction version, the limits
    of a payload value, and the JSON encoder. *)
From stdpp Require Import base list gmap strings pretty.
From Stdlib Require Import ZArith Lia Ascii.
From S2P Require Import Prelude GoStrings Taxonomy Json RedactionProfile Detector.

Local Open Scope string_scope.

(** ** Reports *)

Definition MaxSafeReportEntries : Z := 32.
Definition MaxProjectionMetadataBytes : Z := 4096.

Definition ProjectionStateRaw := "raw".
Definition ProjectionStateInspected := "inspected".
Definition ProjectionStateTransformed := "transformed".
Definition ProjectionStateFailedClosed := "failed_closed".

Inductive ProjectionErrorCode :=
| ProjectionFailureClassification
| ProjectionFailureMetricClass
| ProjectionFailureContext
| ProjectionFailureOutputLimit
| ProjectionFailureSerialization.

Record ProjectionMetadata := mkMeta {
  MRedactionProfile : string;
  MDetectorCatalogVersion : Z;
  MState : string;
  MTransformedFields : Z;
  MRemovedFields : Z;
  MOversizeFields : Z;
  MFailureCount : Z;
  MFailuresTruncated : bool;
}.

Record SafeFailure := { FieldClass : string; FMode : string; FCode : string }.

Record SafeReport := mkReport { metadata : ProjectionMetadata; entries : list SafeFailure }.

Definition DetectorCatalogVersion : Z := 1.

Definition MaxCanonicalRecordBytes : Z := 4194304.
Definition MaxProjectedRecordBytes : Z := MaxCanonicalRecordBytes + MaxProjectionMetadataBytes.

Definition newReportBuilder (p : Profile) : SafeReport :=
  mkReport (mkMeta (name p) DetectorCatalogVersion
    (if name p =? ProfileNone then ProjectionStateRaw else ProjectionStateInspected) 0 0 0 0 false) [].

(** A state already failed stays failed. *)
Definition raise_state (m : ProjectionMetadata) : string :=
  if negb (MState m =? ProjectionStateFailedClosed) then ProjectionStateTransformed else MState m.

Definition transformed (oversize : bool) (b : SafeReport) : SafeReport :=
  let m := metadata b in
  mkReport (mkMeta (MRedactionProfile m) (MDetectorCatalogVersion m) (raise_state m)
    (MTransformedFields m + 1) (MRemovedFields m)
    (if oversize then MOversizeFields m + 1 else MOversizeFields m)
    (MFailureCount m) (MFailuresTruncated m)) (entries b).

Definition removed (b : SafeReport) : SafeReport :=
  let m := metadata b in
  mkReport (mkMeta (MRedactionProfile m) (MDetectorCatalogVersion m) (raise_state m)
    (MTransformedFields m) (MRemovedFields m + 1) (MOversizeFields m)
    (MFailureCount m) (MFailuresTruncated m)) (entries b).

Definition failField (class mode code : string) (b : SafeReport) : SafeReport :=
  let m := metadata b in
  let room := (zlen (entries b) <? MaxSafeReportEntries)%Z in
  mkReport (mkMeta (MRedactionProfile m) (MDetectorCatalogVersion m) ProjectionStateFailedClosed
    (MTransformedFields m) (MRemovedFields m) (MOversizeFields m) (MFailureCount m + 1)
    (if room then MFailuresTruncated m else true))
    (if room then (entries b ++ [{| FieldClass := class; FMode := mode; FCode := code |}])%list
     else entries b).

Definition failRecord (b : SafeReport) : SafeReport :=
  let m := metadata b in
  mkReport (mkMeta (MRedactionProfile m) (MDetectorCatalogVersion m) ProjectionStateFailedClosed
    (MTransformedFields m) (MRemovedFields m) (MOversizeFields m) (MFailureCount m + 1)
    (MFailuresTruncated m)) (entries b).

(** [validateProjectionMetadata]: [true] when it returns no error. *)
Definition validateProjectionMetadata (m : ProjectionMetadata) : bool :=
  let actions := (MTransformedFields m + MRemovedFields m)%Z in
  if negb (IsStableToken (MRedactionProfile m)) || (MDetectorCatalogVersion m <=? 0)%Z then false
  else if negb (existsb (String.eqb (MState m))
                  [ProjectionStateRaw; ProjectionStateInspected; ProjectionStateTransformed;
                   ProjectionStateFailedClosed]) then false
  else if ((MTransformedFields m <? 0) || (MRemovedFields m <? 0) || (MOversizeFields m <? 0) ||
           (MFailureCount m <? 0) || (MTransformedFields m <? MOversizeFields m))%Z then false
  else if negb (Bool.eqb (MState m =? ProjectionStateRaw) (MRedactionProfile m =? ProfileNone)) then false
  else if (if (MState m =? ProjectionStateRaw) || (MState m =? ProjectionStateInspected)
           then negb (actions =? 0)%Z || negb (MFailureCount m =? 0)%Z || MFailuresTruncated m
           else if MState m =? ProjectionStateTransformed
           then (actions =? 0)%Z || negb (MFailureCount m =? 0)%Z || MFailuresTruncated m
           else (MFailureCount m =? 0)%Z) then false
  else Bool.eqb (MFailuresTruncated m) (MaxSafeReportEntries <? MFailureCount m)%Z.

(** ** Hashing *)

Inductive HashV1ErrorCode :=
| HashV1ErrorInvalidUTF8
| HashV1ErrorInvalidKey
| HashV1ErrorUnsupportedClass
| HashV1ErrorUnicodeRepertoire
| HashV1ErrorNormalization.

Definition hashV1Domain := "defenseclaw-redaction-hash-v1".

Definition hashFailureCode (e : HashV1ErrorCode) : string :=
  match e with
  | HashV1ErrorInvalidUTF8 => FailureInvalidUTF8
  | HashV1ErrorInvalidKey => FailureKeyUnavailable
  | HashV1ErrorUnicodeRepertoire => "unicode_repertoire"
  | HashV1ErrorNormalization => "normalization_failed"
  | HashV1ErrorUnsupportedClass => FailureValidator
  end.

Definition fieldFailureCode (code : string) : string :=
  if existsb (String.eqb code) registeredFailureCodes then code else FailureValidator.

Definition safeFailureCode (code : string) : bool :=
  if (code =? "") || (64 <? slen code)%Z || negb (valid_utf8 code) then false
  else sall (fun c => byte_in 97 122 c || Ascii.eqb c "_" || byte_in 48 57 c) code.

(** The functions of internal/redaction behind the [legacy-v7] profile. *)
Record Legacy := {
  LegacyV7Entity : string -> string;
  LegacyV7MessageContent : string -> string;
  LegacyV7Reason : string -> string;
  LegacyV7Evidence : string -> Z -> Z -> string;
  LegacyV7String : string -> string;
}.

(** ** The engine *)

Record Engine := { origin : Z; engine_key : string; keyAvailable : bool }.

(** [NewEngine]; [fresh] is the identity of the new origin. *)
Definition NewEngine (fresh : Z) (key : string) : ProjectionErrorCode + Engine :=
  if negb (slen key =? 0)%Z && negb (slen key =? hashV1KeySize)%Z then inl ProjectionFailureContext
  else inr {| origin := fresh; engine_key := key; keyAvailable := (slen key =? hashV1KeySize)%Z |}.

Definition keyBytes (e : Engine) : string := if keyAvailable e then engine_key e else "".

(** What [Project] reads of a record: its signal, its payload, the classes of
    its fields, and the members its encoding keeps. *)
Record CanonicalRecord := mkRecord {
  Signal : string;
  Body : option json;
  InstrumentData : option json;
  FieldClassMap : gmap string string;
  SchemaDerived : bool;
  Envelope : string;
}.

Definition recordPayload (r : CanonicalRecord) : option json :=
  if Signal r =? SignalMetrics then InstrumentData r else Body r.

Definition preflightFieldMap (root : json) (classes : gmap string string) : bool :=
  let leaves := leafPointers root in
  (length leaves =? size classes)%nat &&
  forallb (fun pointer => match classes !! pointer with
                          | Some class => IsFieldClass class
                          | None => false
                          end) leaves.

Definition validateMetricClasses (classes : gmap string string) (schemaDerived : bool) : bool :=
  forallb (fun kv : string * string =>
    (snd kv =? FieldClassMetadata) || ((snd kv =? FieldClassIdentifier) && schemaDerived))
    (map_to_list classes).

Section Projection.
Context (sha256 : string -> string) (hmac : string -> string -> string)
        (recognize : string -> string -> string -> list acceptedMatch -> string + list candidate)
        (normalizeHashV1Value : string -> string -> HashV1ErrorCode + string)
        (legacy : Legacy).

Definition hashV1Digest (value class key : string) : HashV1ErrorCode + string :=
  if negb (valid_utf8 value) then inl HashV1ErrorInvalidUTF8
  else if negb (slen key =? hashV1KeySize)%Z then inl HashV1ErrorInvalidKey
  else if negb (IsFieldClass class) then inl HashV1ErrorUnsupportedClass
  else match normalizeHashV1Value value class with
       | inl e => inl e
       | inr normalized => inr (hmac key (hashV1Domain ++ NUL ++ class ++ NUL ++ normalized))
       end.

Definition HashV1 (value class key : string) : HashV1ErrorCode + string :=
  match hashV1Digest value class key with
  | inl e => inl e
  | inr digest =>
      inr ("<hashed class=" ++ class ++ " v=1 key=" ++ hashV1KeyID sha256 key ++ " len=" ++
           pretty (slen value) ++ " hmac=" ++ hex_encode digest ++ ">")
  end.

(** ** The walk *)

Record wstate := mkW { report : SafeReport; budget : RecordMatchBudget }.

Definition on_report (f : SafeReport -> SafeReport) (st : wstate) : wstate := mkW (f (report st)) (budget st).

Context (engine : Engine) (profile : Profile) (classes : gmap string string).

(** The result of a step: an error, or the output ([None]: removed). *)
Abbreviation step_result := ((ProjectionErrorCode + option json) * wstate)%type.

Definition some_string (s : string) (st : wstate) : step_result := (inr (Some (JString s)), st).

Definition failedScalar (input class mode code : string) (st : wstate) : step_result :=
  let code := if negb (safeFailureCode code) then FailureValidator else code in
  let st := on_report (failField class mode code) st in
  let token := failed_token code in
  some_string token (if negb (token =? input) then on_report (transformed false) st else st).

Definition legacy_output (input class : string) : string :=
  if class =? FieldClassIdentifier then LegacyV7Entity legacy input
  else if class =? FieldClassContent then LegacyV7MessageContent legacy input
  else if class =? FieldClassReason then LegacyV7Reason legacy input
  else if class =? FieldClassEvidence then LegacyV7Evidence legacy input (-1) (-1)
  else LegacyV7String legacy input.

Definition transformLegacyV7 (input class : string) (st : wstate) : step_result :=
  if class =? FieldClassMetadata then some_string input st
  else
    let output := legacy_output input class in
    some_string output (if negb (output =? input) then on_report (transformed false) st else st).

Definition transformDetect (input class mode : string) (st : wstate) : step_result :=
  let '(ok, r, b) :=
    DetectAndRedact sha256 hmac recognize input class (profile_DetectorGroups profile) (keyBytes engine)
      (Some (budget st)) in
  let st := mkW (report st) (default (budget st) b) in
  if negb ok then
    let code := if Failure r =? "" then FailureValidator else Failure r in
    let st := on_report (failField class mode code) st in
    some_string (Value r) (if negb (Value r =? input) then on_report (transformed false) st else st)
  else if Oversize r then some_string (Value r) (on_report (transformed true) st)
  else if negb (length (Matches r) =? 0)%nat then some_string (Value r) (on_report (transformed false) st)
  else some_string (Value r) st.

Definition transformString (input class mode : string) (st : wstate) : step_result :=
  if name profile =? ProfileLegacyV7 then transformLegacyV7 input class st
  else if mode =? ModePreserve then some_string input st
  else if mode =? ModeDetect then transformDetect input class mode st
  else if mode =? ModeWhole then
    match WholeToken sha256 hmac class input (keyBytes engine) with
    | inl e => failedScalar input class mode (fieldFailureCode e) st
    | inr token => some_string token (on_report (transformed false) st)
    end
  else if mode =? ModeHash then
    match HashV1 input class (keyBytes engine) with
    | inl e => failedScalar input class mode (hashFailureCode e) st
    | inr token => some_string token (on_report (transformed false) st)
    end
  else (inl ProjectionFailureContext, st).

Definition FormatBool (b : bool) : string := if b then "true" else "false".

Definition whole_or_hash (mode : string) : bool := (mode =? ModeWhole) || (mode =? ModeHash).

Definition transformLeaf (input : json) (pointer : string) (st : wstate) : step_result :=
  match classes !! pointer with
  | None => (inl ProjectionFailureClassification, st)
  | Some class =>
      match Mode profile class with
      | None => (inl ProjectionFailureContext, st)
      | Some mode =>
          if mode =? ModeRemove then (inr None, on_report removed st)
          else match input with
          | JObject _ => (inr (Some (JObject [])), st)
          | JArray _ => (inr (Some (JArray [])), st)
          | JNull => (inr (Some JNull), st)
          | JString s => transformString s class mode st
          | JBool b =>
              if negb (whole_or_hash mode) then (inr (Some (JBool b)), st)
              else transformString (FormatBool b) class mode st
          | JNumber n =>
              if negb (whole_or_hash mode) then (inr (Some (JNumber n)), st)
              else transformString n class mode st
          end
      end
  end.

Fixpoint walk (input : json) (pointer : string) (st : wstate) : step_result :=
  match input with
  | JObject [] => transformLeaf input pointer st
  | JObject fields =>
      let '(object, st) :=
        (fix walkObject fs st : (ProjectionErrorCode + list (string * json)) * wstate :=
          match fs with
          | [] => (inr [], st)
          | (key, v) :: rest =>
              match walk v (child_pointer pointer (encodePointerToken key)) st with
              | (inl e, st) => (inl e, st)
              | (inr child, st) =>
                  match walkObject rest st with
                  | (inl e, st) => (inl e, st)
                  | (inr out, st) => (inr (match child with Some c => (key, c) :: out | None => out end), st)
                  end
              end
          end) fields st in
      match object with
      | inl e => (inl e, st)
      | inr [] => (inr None, on_report removed st)
      | inr object => (inr (Some (JObject object)), st)
      end
  | JArray [] => transformLeaf input pointer st
  | JArray elements =>
      let '(array, st) :=
        (fix walkArray i l st : (ProjectionErrorCode + list json) * wstate :=
          match l with
          | [] => (inr [], st)
          | v :: rest =>
              match walk v (child_pointer pointer (Itoa i)) st with
              | (inl e, st) => (inl e, st)
              | (inr child, st) =>
                  match walkArray (S i) rest st with
                  | (inl e, st) => (inl e, st)
                  | (inr out, st) => (inr (default JNull child :: out), st)
                  end
              end
          end) 0%nat elements st in
      match array with
      | inl e => (inl e, st)
      | inr array => (inr (Some (JArray array)), st)
      end
  | _ => transformLeaf input pointer st
  end.

(** [walkObject] on the fields of the root. *)
Fixpoint walkObject (fields : list (string * json)) (pointer : string) (st : wstate) :
    (ProjectionErrorCode + list (string * json)) * wstate :=
  match fields with
  | [] => (inr [], st)
  | (key, v) :: rest =>
      match walk v (child_pointer pointer (encodePointerToken key)) st with
      | (inl e, st) => (inl e, st)
      | (inr child, st) =>
          match walkObject rest pointer st with
          | (inl e, st) => (inl e, st)
          | (inr out, st) => (inr (match child with Some c => (key, c) :: out | None => out end), st)
          end
      end
  end.
End Projection.

(** ** Projections *)

Record ProjectionT := mkProjection {
  payload : json;
  proj_metadata : ProjectionMetadata;
  proj_report : SafeReport;
  encoded : string;
  proj_origin : Z;
  profileFingerprintOf : string;
  keyID : string;
  catalogVersion : Z;
}.

Section Project.
Context (sha256 : string -> string) (hmac : string -> string -> string)
        (recognize : string -> string -> string -> list acceptedMatch -> string + list candidate)
        (normalizeHashV1Value : string -> string -> HashV1ErrorCode + string)
        (legacy : Legacy)
        (NewValue : json -> bool)
        (encode_metadata : ProjectionMetadata -> option string)
        (encode_wire : string -> string -> json -> gmap string string -> ProjectionMetadata -> option string).

(** The classes of the pointers that still resolve in the projected payload. *)
Definition filteredClasses (classes : gmap string string) (payload : json) : gmap string string :=
  filter (fun kv => projectionPointerResolves payload (fst kv) = true) classes.

Definition marshalProjectedRecord (record : CanonicalRecord) (payload : json) (m : ProjectionMetadata) :
    ProjectionErrorCode + string :=
  if negb (validateProjectionMetadata m) then inl ProjectionFailureSerialization
  else match encode_metadata m with
  | None => inl ProjectionFailureSerialization
  | Some metadataBytes =>
      if (MaxProjectionMetadataBytes <? slen metadataBytes)%Z then inl ProjectionFailureOutputLimit
      else if negb (existsb (String.eqb (Signal record)) [SignalLogs; SignalTraces; SignalMetrics])
      then inl ProjectionFailureSerialization
      else match encode_wire (Envelope record) (Signal record) payload
                   (filteredClasses (FieldClassMap record) payload) m with
      | None => inl ProjectionFailureSerialization
      | Some wire => if (MaxProjectedRecordBytes <? slen wire)%Z then inl ProjectionFailureOutputLimit
                     else inr wire
      end
  end.

Definition key_id (e : Engine) : string := if keyAvailable e then hashV1KeyID sha256 (engine_key e) else "".

(** The payload of the projection, with the report of the walk. *)
Definition project_payload (e : Engine) (record : CanonicalRecord) (p : Profile)
    (fields : list (string * json)) : (ProjectionErrorCode + json) * SafeReport :=
  let b := newReportBuilder p in
  if Signal record =? SignalMetrics then (inr (JObject fields), b)
  else
    let '(object, st) :=
      walkObject sha256 hmac recognize normalizeHashV1Value legacy e p (FieldClassMap record)
        fields "" (mkW b NewRecordMatchBudget) in
    match object with
    | inl _ => (inl ProjectionFailureSerialization, report st)
    | inr object =>
        if NewValue (JObject object) then (inr (JObject object), report st)
        else (inl ProjectionFailureOutputLimit, report st)
    end.

Definition Project (engine : option Engine) (record : CanonicalRecord) (p : Profile) :
    (ProjectionErrorCode + ProjectionT) * SafeReport :=
  let b := newReportBuilder p in
  match engine with
  | None => (inl ProjectionFailureContext, failRecord b)
  | Some e =>
      if negb (validProfile sha256 p) then (inl ProjectionFailureContext, failRecord b)
      else match recordPayload record with
      | Some (JObject fields) =>
          if negb (preflightFieldMap (JObject fields) (FieldClassMap record))
          then (inl ProjectionFailureClassification, failRecord b)
          else if (Signal record =? SignalMetrics) &&
                  negb (validateMetricClasses (FieldClassMap record) (SchemaDerived record))
          then (inl ProjectionFailureMetricClass, failRecord b)
          else match project_payload e record p fields with
          | (inl code, b) => (inl code, failRecord b)
          | (inr projected, b) =>
              match marshalProjectedRecord record projected (metadata b) with
              | inl code => (inl code, failRecord b)
              | inr wire =>
                  (inr (mkProjection projected (metadata b) b wire (origin e) (fingerprint p) (key_id e)
                          DetectorCatalogVersion), b)
              end
          end
      | _ => (inl ProjectionFailureSerialization, failRecord b)
      end
  end.

Definition Reproject (engine : option Engine) (projection : ProjectionT) (p : Profile) :
    (ProjectionErrorCode + ProjectionT) * SafeReport :=
  let b := newReportBuilder p in
  match engine with
  | None => (inl ProjectionFailureContext, failRecord b)
  | Some e =>
      if negb (proj_origin projection =? origin e)%Z || negb (validProfile sha256 p) ||
         negb (profileFingerprintOf projection =? fingerprint p) ||
         negb (catalogVersion projection =? DetectorCatalogVersion)%Z ||
         negb (keyID projection =? key_id e) || (slen (encoded projection) =? 0)%Z
      then (inl ProjectionFailureContext, failRecord b)
      else (inr projection, proj_report projection)
  end.
End Project.

(** ** Lemmas: the walk over the children *)

(** The entries of an object that are kept. *)
Fixpoint kept (fields : list (string * json)) (outs : list (option json)) : list (string * json) :=
  match fields, outs with
  | (k, _) :: fs, o :: os => match o with Some c => (k, c) :: kept fs os | None => kept fs os end
  | _, _ => []
  end.

(** What a node becomes from the outputs of its children. *)
Definition rebuild (v : json) (outs : list (option json)) : option json :=
  match v with
  | JObject fields => match kept fields outs with [] => None | object => Some (JObject object) end
  | JArray _ => Some (JArray (map (default JNull) outs))
  | _ => Some v
  end.

Section Walk.
Context (sha256 : string -> string) (hmac : string -> string -> string)
        (recognize : string -> string -> string -> list acceptedMatch -> string + list candidate)
        (normalizeHashV1Value : string -> string -> HashV1ErrorCode + string)
        (legacy : Legacy) (engine : Engine) (profile : Profile) (classes : gmap string string).

Notation wk := (walk sha256 hmac recognize normalizeHashV1Value legacy engine profile classes).
Notation wkObject := (walkObject sha256 hmac recognize normalizeHashV1Value legacy engine profile classes).
Notation tLeaf := (transformLeaf sha256 hmac recognize normalizeHashV1Value legacy engine profile classes).
Notation tString := (transformString sha256 hmac recognize normalizeHashV1Value legacy engine profile).

Fixpoint walk_children (cs : list (string * json)) (p : string) (st : wstate) :
    (ProjectionErrorCode + list (option json)) * wstate :=
  match cs with
  | [] => (inr [], st)
  | (t, v) :: rest =>
      match wk v (child_pointer p t) st with
      | (inl e, st) => (inl e, st)
      | (inr c, st) =>
          match walk_children rest p st with
          | (inl e, st) => (inl e, st)
          | (inr out, st) => (inr (c :: out), st)
          end
      end
  end.

(** The report of a node removed with all its children. *)
Definition finish (v : json) (outs : list (option json)) (st : wstate) : wstate :=
  match rebuild v outs with None => on_report removed st | Some _ => st end.

Lemma walkObject_eq fields p : forall st,
  wkObject fields p st =
  match walk_children (children (JObject fields)) p st with
  | (inl e, st) => (inl e, st)
  | (inr outs, st) => (inr (kept fields outs), st)
  end.
Proof.
  induction fields as [|[k v] fields IH]; intros st; [done|]. cbn [children map fst snd walk_children].
  cbn [walkObject]. destruct (wk v _ st) as [[e|c] st1]; [done|]. rewrite IH.
  cbn [children]. destruct (walk_children _ p st1) as [[e|outs] st2]; [done|]. by destruct c.
Qed.

Lemma walk_object_inner k v fields p st :
  wk (JObject ((k, v) :: fields)) p st =
  match wkObject ((k, v) :: fields) p st with
  | (inl e, st) => (inl e, st)
  | (inr [], st) => (inr None, on_report removed st)
  | (inr object, st) => (inr (Some (JObject object)), st)
  end.
Proof.
  cbn [walk walkObject].
  destruct (wk v _ st) as [[e|c] st1]; [done|].
  assert (Hin : forall st, (fix go fs st : (ProjectionErrorCode + list (string * json)) * wstate :=
      match fs with
      | [] => (inr [], st)
      | (key, v) :: rest =>
          match wk v (child_pointer p (encodePointerToken key)) st with
          | (inl e, st) => (inl e, st)
          | (inr child, st) =>
              match go rest st with
              | (inl e, st) => (inl e, st)
              | (inr out, st) => (inr (match child with Some c => (key, c) :: out | None => out end), st)
              end
          end
      end) fields st = wkObject fields p st).
  { clear. induction fields as [|[k v] fields IH]; intros st; [done|]. cbn [walkObject].
    destruct (wk v _ st) as [[e|c] st1]; [done|]. by rewrite IH. }
  rewrite Hin. destruct (wkObject fields p st1) as [[e|out] st2]; [done|]. by destruct c, out.
Qed.

Lemma walk_array_inner x elements p st :
  wk (JArray (x :: elements)) p st =
  match walk_children (children (JArray (x :: elements))) p st with
  | (inl e, st) => (inl e, st)
  | (inr outs, st) => (inr (Some (JArray (map (default JNull) outs))), st)
  end.
Proof.
  cbn [walk children imap walk_children fst snd].
  destruct (wk x _ st) as [[e|c] st1]; [done|].
  assert (Hin : forall i st, (fix walkArray i l st : (ProjectionErrorCode + list json) * wstate :=
      match l with
      | [] => (inr [], st)
      | v :: rest =>
          match wk v (child_pointer p (Itoa i)) st with
          | (inl e, st) => (inl e, st)
          | (inr child, st) =>
              match walkArray (S i) rest st with
              | (inl e, st) => (inl e, st)
              | (inr out, st) => (inr (default JNull child :: out), st)
              end
          end
      end) i elements st =
    match walk_children (imap (fun n y => (Itoa (i + n), y)) elements) p st with
    | (inl e, st) => (inl e, st)
    | (inr outs, st) => (inr (map (default JNull) outs), st)
    end).
  { clear. induction elements as [|v elements IH]; intros i st; [done|].
    cbn [imap walk_children]. rewrite Nat.add_0_r.
    destruct (wk v _ st) as [[e|c] st1]; [done|]. rewrite (IH (S i)).
    rewrite (imap_ext _ ((fun n y => (Itoa (i + n), y)) ∘ S)) at 1 by (intros; simpl; by rewrite Nat.add_succ_r).
    by destruct (walk_children _ p st1) as [[e|outs] st2]. }
  rewrite (Hin 1%nat).
  by destruct (walk_children (imap _ elements) p st1) as [[e|outs] st2].
Qed.

Lemma walk_eq v p st :
  wk v p st =
  if decide (is_leaf v) then tLeaf v p st
  else match walk_children (children v) p st with
       | (inl e, st) => (inl e, st)
       | (inr outs, st) => (inr (rebuild v outs), finish v outs st)
       end.
Proof.
  unfold is_leaf. destruct v as [| | | |[|x l]|[|[k v] l]]; try done.
  - destruct (decide _) as [H|_]; [discriminate H|]. rewrite walk_array_inner.
    by destruct (walk_children _ p st) as [[e|outs] st1].
  - destruct (decide _) as [H|_]; [discriminate H|]. rewrite walk_object_inner, walkObject_eq.
    destruct (walk_children _ p st) as [[e|outs] st1]; [done|].
    unfold finish. cbn [rebuild]. by destruct (kept _ outs).
Qed.

(** *** What a leaf becomes *)

(** The text that may appear for a text [s] of a class under a mode. *)
Definition masked (class mode s t : string) : Prop :=
  if name profile =? ProfileLegacyV7 then
    t = if class =? FieldClassMetadata then s else legacy_output legacy s class
  else if mode =? ModePreserve then t = s
  else if mode =? ModeDetect then
    exists b, t = Value (snd (fst (DetectAndRedact sha256 hmac recognize s class
                                     (profile_DetectorGroups profile) (keyBytes engine) (Some b))))
  else if mode =? ModeWhole then
    WholeToken sha256 hmac class s (keyBytes engine) = inr t \/
    (exists e code, WholeToken sha256 hmac class s (keyBytes engine) = inl e /\ t = failed_token code)
  else
    HashV1 sha256 hmac normalizeHashV1Value s class (keyBytes engine) = inr t \/
    (exists e code, HashV1 sha256 hmac normalizeHashV1Value s class (keyBytes engine) = inl e /\
       t = failed_token code).

(** The output of a leaf: removed, kept, or masked. *)
Definition leaf_out (class mode : string) (v : json) (out : option json) : Prop :=
  if mode =? ModeRemove then out = None
  else match v with
  | JString s => exists t, out = Some (JString t) /\ masked class mode s t
  | JBool b =>
      if whole_or_hash mode then exists t, out = Some (JString t) /\ masked class mode (FormatBool b) t
      else out = Some v
  | JNumber n =>
      if whole_or_hash mode then exists t, out = Some (JString t) /\ masked class mode n t
      else out = Some v
  | _ => out = Some v
  end.

Lemma failedScalar_spec input class mode code st :
  exists c st', failedScalar input class mode code st = (inr (Some (JString (failed_token c))), st').
Proof. unfold failedScalar, some_string. eauto. Qed.

Lemma transformString_spec input class mode st :
  isTransformationMode mode = true -> mode <> ModeRemove ->
  exists t st', tString input class mode st = (inr (Some (JString t)), st') /\ masked class mode input t.
Proof.
  intros Hm Hr. unfold transformString, masked, transformLegacyV7, some_string.
  destruct (name profile =? ProfileLegacyV7).
  { destruct (class =? FieldClassMetadata); eauto. }
  destruct (String.eqb_spec mode ModePreserve) as [|Hp]; [eauto|].
  destruct (String.eqb_spec mode ModeDetect) as [|Hd].
  { unfold transformDetect, some_string.
    destruct (DetectAndRedact sha256 hmac recognize input class (profile_DetectorGroups profile)
                (keyBytes engine) (Some (budget st))) as [[ok r] b] eqn:E.
    assert (Ht : exists b, Value r = Value (snd (fst (DetectAndRedact sha256 hmac recognize input class
      (profile_DetectorGroups profile) (keyBytes engine) (Some b))))) by (exists (budget st); by rewrite E).
    destruct (negb ok); [|destruct (Oversize r); [|destruct (negb (length (Matches r) =? 0)%nat)]]; eauto. }
  destruct (String.eqb_spec mode ModeWhole) as [|Hw].
  { destruct (WholeToken sha256 hmac class input (keyBytes engine)) as [err|t]; [|eauto].
    destruct (failedScalar_spec input class mode (fieldFailureCode err) st) as (c & st' & ->). eauto 10. }
  destruct (String.eqb_spec mode ModeHash) as [|Hh].
  { destruct (HashV1 sha256 hmac normalizeHashV1Value input class (keyBytes engine)) as [err|t]; [|eauto].
    destruct (failedScalar_spec input class mode (hashFailureCode err) st) as (c & st' & ->). eauto 10. }
  unfold isTransformationMode in Hm. cbn [existsb] in Hm.
  apply String.eqb_neq in Hp, Hd, Hw, Hh, Hr. by rewrite Hp, Hd, Hw, Hh, Hr in Hm.
Qed.

Lemma transformLeaf_spec v p class mode st :
  is_leaf v -> classes !! p = Some class -> Mode profile class = Some mode ->
  isTransformationMode mode = true ->
  exists out st', tLeaf v p st = (inr out, st') /\ leaf_out class mode v out.
Proof.
  intros Hv Hc Hm Ht. unfold transformLeaf, leaf_out. rewrite Hc, Hm.
  destruct (String.eqb_spec mode ModeRemove) as [|Hr]; [eauto|].
  assert (HS : forall s, exists out st', tString s class mode st = (inr out, st') /\
    exists t, out = Some (JString t) /\ masked class mode s t).
  { intros s. destruct (transformString_spec s class mode st Ht Hr) as (t & st' & -> & ?). eauto 10. }
  destruct v as [|b|n|s|[|x l]|[|kv l]]; try done; eauto.
  - destruct (whole_or_hash mode); cbn [negb]; eauto.
  - destruct (whole_or_hash mode); cbn [negb]; eauto.
Qed.

(** *** The specification of the projection *)

(** [projects p v out]: [out] is [v] with every leaf replaced according to the
    mode of its class, a removed array element by null, and removed entries, and
    objects all of whose entries are removed, left out. *)
Inductive projects : string -> json -> option json -> Prop :=
| projects_leaf p v out class mode :
    is_leaf v -> classes !! p = Some class -> Mode profile class = Some mode ->
    leaf_out class mode v out -> projects p v out
| projects_node p v outs :
    ~ is_leaf v -> projects_list p (children v) outs -> projects p v (rebuild v outs)
with projects_list : string -> list (string * json) -> list (option json) -> Prop :=
| projects_nil p : projects_list p [] []
| projects_cons p t v cs out outs :
    projects (child_pointer p t) v out -> projects_list p cs outs ->
    projects_list p ((t, v) :: cs) (out :: outs).

(** Every leaf below [p] has a class with a known mode. *)
Definition classified (pointers : list string) : Prop :=
  Forall (fun q => exists class mode, classes !! q = Some class /\ Mode profile class = Some mode /\
                     isTransformationMode mode = true) pointers.

Lemma walk_children_projects cs p :
  Forall (fun tc => forall p st, classified (visit (snd tc) p) ->
    exists out st', wk (snd tc) p st = (inr out, st') /\ projects p (snd tc) out) cs ->
  classified (concat (map (fun tc => visit (snd tc) (child_pointer p (fst tc))) cs)) ->
  forall st, exists outs st', walk_children cs p st = (inr outs, st') /\ projects_list p cs outs.
Proof.
  induction cs as [|[t v] cs IH]; intros Hcs Hcl st; cbn [walk_children].
  - eexists _, _. split; [done|constructor].
  - apply Forall_cons_1 in Hcs as [Hv Hcs]. cbn [map concat fst snd] in *.
    apply Forall_app in Hcl as [Hclv Hcl]. destruct (Hv _ st Hclv) as (out & st1 & -> & Hout).
    destruct (IH Hcs Hcl st1) as (outs & st2 & -> & Houts). eexists _, _. split; [done|by constructor].
Qed.

Lemma walk_projects v : forall p st,
  classified (visit v p) -> exists out st', wk v p st = (inr out, st') /\ projects p v out.
Proof.
  induction v as [v IH] using json_child_ind. intros p st. rewrite visit_eq, walk_eq.
  destruct (decide (is_leaf v)) as [Hl|Hl]; intros Hcl.
  - apply Forall_cons_1 in Hcl as [(class & mode & Hc & Hm & Ht) _].
    destruct (transformLeaf_spec v p class mode st Hl Hc Hm Ht) as (out & st' & -> & Hout).
    eexists _, _. split; [done|]. by eapply projects_leaf.
  - destruct (walk_children_projects (children v) p IH Hcl st) as (outs & st' & -> & Houts).
    eexists _, _. split; [done|]. by apply projects_node.
Qed.
End Walk.

(** ** Lemmas: the report *)

Inductive report_step : SafeReport -> SafeReport -> Prop :=
| step_transformed o b : report_step b (transformed o b)
| step_removed b : report_step b (removed b)
| step_failed class mode code b : report_step b (failField class mode code b).

Definition report_steps : SafeReport -> SafeReport -> Prop := rtc report_step.

Lemma steps_transformed o b c : report_steps b c -> report_steps b (transformed o c).
Proof. intros H. eapply rtc_r; [exact H|constructor]. Qed.
Lemma steps_removed b c : report_steps b c -> report_steps b (removed c).
Proof. intros H. eapply rtc_r; [exact H|constructor]. Qed.
Lemma steps_failed class mode code b c : report_steps b c -> report_steps b (failField class mode code c).
Proof. intros H. eapply rtc_r; [exact H|constructor]. Qed.
Lemma steps_refl b : report_steps b b.
Proof. constructor. Qed.

#[export] Hint Resolve steps_transformed steps_removed steps_failed steps_refl : claw.

(** What the counters of a report say, for a profile that transforms. *)
Record meta_inv (n : string) (b : SafeReport) : Prop := {
  mi_name : MRedactionProfile (metadata b) = n;
  mi_version : MDetectorCatalogVersion (metadata b) = DetectorCatalogVersion;
  mi_counts : (0 <= MOversizeFields (metadata b) <= MTransformedFields (metadata b))%Z /\
              (0 <= MRemovedFields (metadata b))%Z /\ (0 <= MFailureCount (metadata b))%Z;
  mi_entries : zlen (entries b) = Z.min (MFailureCount (metadata b)) MaxSafeReportEntries;
  mi_truncated : MFailuresTruncated (metadata b) = (MaxSafeReportEntries <? MFailureCount (metadata b))%Z;
  mi_state : MState (metadata b) =
    if (0 <? MFailureCount (metadata b))%Z then ProjectionStateFailedClosed
    else if (0 <? MTransformedFields (metadata b) + MRemovedFields (metadata b))%Z
    then ProjectionStateTransformed else ProjectionStateInspected;
}.

Lemma meta_inv_step n b b' : report_step b b' -> meta_inv n b -> meta_inv n b'.
Proof.
  intros Hs [Hn Hv Hc He Ht Hst]. unfold MaxSafeReportEntries in *.
  destruct Hs as [o b|b|class mode code b]; constructor;
    unfold transformed, removed, failField, raise_state, MaxSafeReportEntries in *;
    cbn [metadata entries MRedactionProfile MDetectorCatalogVersion MState MTransformedFields MRemovedFields
         MOversizeFields MFailureCount MFailuresTruncated]; try done.
  - destruct o; lia.
  - rewrite Hst. destruct (Z.ltb_spec 0 (MFailureCount (metadata b))); [done|].
    assert (H0 : (0 <? MTransformedFields (metadata b) + 1 + MRemovedFields (metadata b))%Z = true) by lia.
    rewrite H0. by destruct (0 <? _)%Z.
  - lia.
  - rewrite Hst. destruct (Z.ltb_spec 0 (MFailureCount (metadata b))); [done|].
    assert (H0 : (0 <? MTransformedFields (metadata b) + (MRemovedFields (metadata b) + 1))%Z = true) by lia.
    rewrite H0. by destruct (0 <? _)%Z.
  - lia.
  - destruct (Z.ltb_spec (zlen (entries b)) 32); [|lia]. rewrite zlen_app. change (zlen [_]) with 1%Z. lia.
  - destruct (Z.ltb_spec (zlen (entries b)) 32); [rewrite Ht|]; lia.
  - assert (H0 : (0 <? MFailureCount (metadata b) + 1)%Z = true) by lia. by rewrite H0.
Qed.

Lemma meta_inv_steps n b b' : report_steps b b' -> meta_inv n b -> meta_inv n b'.
Proof. induction 1 as [|x y z Hxy _ IH]; [done|]. intros Hx. by eapply IH, meta_inv_step. Qed.

Lemma meta_inv_init p : name p <> ProfileNone -> meta_inv (name p) (newReportBuilder p).
Proof.
  intros Hn. unfold newReportBuilder. rewrite (proj2 (String.eqb_neq _ _) Hn). by constructor.
Qed.

Lemma meta_inv_valid n b :
  IsStableToken n = true -> n <> ProfileNone -> meta_inv n b ->
  validateProjectionMetadata (metadata b) = true.
Proof.
  intros Hn Hne [Hname Hv Hc He Ht Hst]. unfold validateProjectionMetadata.
  rewrite Hname, Hn, Hv. change (negb true || (DetectorCatalogVersion <=? 0)%Z) with false. cbv iota.
  rewrite (proj2 (String.eqb_neq _ _) Hne), Ht, eqb_reflx.
  assert (Hneg : ((MTransformedFields (metadata b) <? 0) || (MRemovedFields (metadata b) <? 0) ||
    (MOversizeFields (metadata b) <? 0) || (MFailureCount (metadata b) <? 0) ||
    (MTransformedFields (metadata b) <? MOversizeFields (metadata b)))%Z = false) by lia.
  rewrite Hneg, Hst. unfold MaxSafeReportEntries.
  destruct (Z.ltb_spec 0 (MFailureCount (metadata b))).
  - cbn. assert (H0 : (MFailureCount (metadata b) =? 0)%Z = false) by lia. by rewrite H0.
  - assert (H0 : (MFailureCount (metadata b) =? 0)%Z = true) by lia.
    assert (H1 : (32 <? MFailureCount (metadata b))%Z = false) by lia.
    destruct (Z.ltb_spec 0 (MTransformedFields (metadata b) + MRemovedFields (metadata b))); cbn; rewrite H0, H1.
    + assert (Hact : (MTransformedFields (metadata b) + MRemovedFields (metadata b) =? 0)%Z = false) by lia. by rewrite Hact.
    + assert (Hact : (MTransformedFields (metadata b) + MRemovedFields (metadata b) =? 0)%Z = true) by lia. by rewrite Hact.
Qed.

Section WalkFacts.
Context (sha256 : string -> string) (hmac : string -> string -> string)
        (recognize : string -> string -> string -> list acceptedMatch -> string + list candidate)
        (normalizeHashV1Value : string -> string -> HashV1ErrorCode + string)
        (legacy : Legacy) (engine : Engine) (profile : Profile) (classes : gmap string string).

Notation wk := (walk sha256 hmac recognize normalizeHashV1Value legacy engine profile classes).
Notation wkc := (walk_children sha256 hmac recognize normalizeHashV1Value legacy engine profile classes).
Notation tLeaf := (transformLeaf sha256 hmac recognize normalizeHashV1Value legacy engine profile classes).
Notation tString := (transformString sha256 hmac recognize normalizeHashV1Value legacy engine profile).

Lemma transformString_steps input class mode st :
  report_steps (report st) (report (snd (tString input class mode st))).
Proof.
  unfold transformString, transformLegacyV7, transformDetect, failedScalar, some_string, on_report.
  destruct (name profile =? ProfileLegacyV7).
  { destruct (class =? FieldClassMetadata); cbn; [auto with claw|].
    destruct (negb _); cbn; auto with claw. }
  destruct (mode =? ModePreserve); [cbn; auto with claw|].
  destruct (mode =? ModeDetect).
  { destruct (DetectAndRedact _ _ _ _ _ _ _ _) as [[ok r] b].
    destruct (negb ok); [destruct (negb _); cbn; auto with claw|].
    destruct (Oversize r); [cbn; auto with claw|]. destruct (negb _); cbn; auto with claw. }
  destruct (mode =? ModeWhole).
  { destruct (WholeToken _ _ _ _ _); [destruct (negb (failed_token _ =? _))|]; cbn; auto with claw. }
  destruct (mode =? ModeHash); [|cbn; auto with claw].
  destruct (HashV1 _ _ _ _ _ _); [destruct (negb (failed_token _ =? _))|]; cbn; auto with claw.
Qed.

Lemma transformLeaf_steps v p st : report_steps (report st) (report (snd (tLeaf v p st))).
Proof.
  unfold transformLeaf. destruct (classes !! p) as [class|]; [|cbn; auto with claw].
  destruct (Mode profile class) as [mode|]; [|cbn; auto with claw].
  destruct (mode =? ModeRemove); [cbn; auto with claw|].
  destruct v; try destruct (negb (whole_or_hash mode));
    try apply transformString_steps; cbn; auto with claw.
Qed.

Lemma walk_children_steps cs p :
  Forall (fun tc => forall p st, report_steps (report st) (report (snd (wk (snd tc) p st)))) cs ->
  forall st, report_steps (report st) (report (snd (wkc cs p st))).
Proof.
  induction cs as [|[t v] cs IH]; intros Hcs st; cbn [walk_children]; [cbn; auto with claw|].
  apply Forall_cons_1 in Hcs as [Hv Hcs]. specialize (Hv (child_pointer p t) st). cbn [snd] in Hv.
  destruct (wk v (child_pointer p t) st) as [[err|out] st1]; [done|].
  specialize (IH Hcs st1). destruct (wkc cs p st1) as [[err|outs] st2]; cbn in *; by etransitivity.
Qed.

Lemma walk_steps v : forall p st, report_steps (report st) (report (snd (wk v p st))).
Proof.
  induction v as [v IH] using json_child_ind. intros p st. rewrite walk_eq.
  destruct (decide (is_leaf v)); [apply transformLeaf_steps|].
  pose proof (walk_children_steps (children v) p IH st) as Hs.
  destruct (wkc (children v) p st) as [[err|outs] st1]; [done|]. unfold finish, on_report. cbn [snd] in *.
  destruct (rebuild v outs); cbn; auto with claw.
Qed.

(** *** The profile that keeps everything *)

Definition keeps_all : Prop :=
  name profile <> ProfileLegacyV7 /\
  forall class, IsFieldClass class = true -> Mode profile class = Some ModePreserve.

Lemma transformLeaf_keeps v p class st :
  keeps_all -> is_leaf v -> classes !! p = Some class -> IsFieldClass class = true ->
  tLeaf v p st = (inr (Some v), st).
Proof.
  intros [Hn Hk] Hl Hc Hf. unfold transformLeaf. rewrite Hc, (Hk class Hf).
  change (ModePreserve =? ModeRemove) with false. cbv iota.
  assert (HS : forall s, tString s class ModePreserve st = (inr (Some (JString s)), st)).
  { intros s. unfold transformString. by rewrite (proj2 (String.eqb_neq _ _) Hn). }
  destruct v as [| | |s|[|x l]|[|kv l]]; done || by rewrite HS.
Qed.

Lemma kept_all fields : kept fields (map (fun tc => Some (snd tc)) (children (JObject fields))) = fields.
Proof.
  induction fields as [|[k v] fields IH]; [done|]. exact (f_equal (cons (k, v)) IH).
Qed.

Lemma rebuild_all v : ~ is_leaf v -> rebuild v (map (fun tc => Some (snd tc)) (children v)) = Some v.
Proof.
  unfold is_leaf. destruct v as [| | | |l|l]; try done.
  - intros _. cbn [rebuild children]. rewrite map_map. do 2 f_equal.
    assert (H : forall n, map (fun x => default JNull (Some (snd x))) (imap (fun i x => (Itoa (n + i), x)) l) = l).
    { induction l as [|x l IH]; intros n; [done|]. cbn [imap map snd default from_option id]. f_equal.
      rewrite <-(IH (S n)) at 2. f_equal. apply imap_ext. intros. simpl. by rewrite Nat.add_succ_r. }
    apply (H 0%nat).
  - intros Hl. unfold rebuild. rewrite kept_all. destruct l; [done|]. done.
Qed.

Definition all_classified (pointers : list string) : Prop :=
  Forall (fun q => exists class, classes !! q = Some class /\ IsFieldClass class = true) pointers.

Lemma walk_children_keeps cs p :
  Forall (fun tc => forall p st, all_classified (visit (snd tc) p) -> wk (snd tc) p st = (inr (Some (snd tc)), st)) cs ->
  all_classified (concat (map (fun tc => visit (snd tc) (child_pointer p (fst tc))) cs)) ->
  forall st, wkc cs p st = (inr (map (fun tc => Some (snd tc)) cs), st).
Proof.
  induction cs as [|[t v] cs IH]; intros Hcs Hcl st; [done|]. cbn [walk_children map concat fst snd] in *.
  apply Forall_cons_1 in Hcs as [Hv Hcs]. apply Forall_app in Hcl as [Hclv Hcl].
  specialize (Hv _ st Hclv). cbn [snd] in Hv. rewrite Hv. by rewrite IH.
Qed.

Lemma walk_keeps v : keeps_all -> forall p st, all_classified (visit v p) -> wk v p st = (inr (Some v), st).
Proof.
  intros Hk. induction v as [v IH] using json_child_ind. intros p st. rewrite visit_eq, walk_eq.
  destruct (decide (is_leaf v)) as [Hl|Hl]; intros Hcl.
  - apply Forall_cons_1 in Hcl as [(class & Hc & Hf) _]. by eapply transformLeaf_keeps.
  - rewrite (walk_children_keeps (children v) p IH Hcl). unfold finish. by rewrite rebuild_all.
Qed.
End WalkFacts.

(** ** Lemmas: what a projection may depend on *)

Definition leaf_text (v : json) : option string :=
  match v with
  | JString s => Some s
  | JBool b => Some (FormatBool b)
  | JNumber n => Some n
  | _ => None
  end.

Definition same_keys (v v' : json) : Prop :=
  match v, v' with
  | JArray _, JArray _ => True
  | JObject l, JObject l' => map fst l = map fst l'
  | _, _ => False
  end.

Section Similar.
Context (sha256 : string -> string) (hmac : string -> string -> string)
        (recognize : string -> string -> string -> list acceptedMatch -> string + list candidate)
        (normalizeHashV1Value : string -> string -> HashV1ErrorCode + string)
        (legacy : Legacy) (engine : Engine) (profile : Profile) (classes : gmap string string).

Notation wk := (walk sha256 hmac recognize normalizeHashV1Value legacy engine profile classes).
Notation wkc := (walk_children sha256 hmac recognize normalizeHashV1Value legacy engine profile classes).
Notation tLeaf := (transformLeaf sha256 hmac recognize normalizeHashV1Value legacy engine profile classes).
Notation tString := (transformString sha256 hmac recognize normalizeHashV1Value legacy engine profile).

(** Two leaves an observer of the projection cannot tell apart: equal ones, any
    two that are removed, and two texts with the same keyed token. *)
Definition indistinguishable (class mode : string) (v v' : json) : Prop :=
  v = v' \/ mode = ModeRemove \/
  (name profile <> ProfileLegacyV7 /\ exists s s' t, leaf_text v = Some s /\ leaf_text v' = Some s' /\
     ((mode = ModeWhole /\ WholeToken sha256 hmac class s (keyBytes engine) = inr t /\
         WholeToken sha256 hmac class s' (keyBytes engine) = inr t) \/
      (mode = ModeHash /\ HashV1 sha256 hmac normalizeHashV1Value s class (keyBytes engine) = inr t /\
         HashV1 sha256 hmac normalizeHashV1Value s' class (keyBytes engine) = inr t))).

(** Two payloads of the same shape with indistinguishable leaves. *)
Inductive similar : string -> json -> json -> Prop :=
| similar_leaf p v v' class mode :
    is_leaf v -> is_leaf v' -> classes !! p = Some class -> Mode profile class = Some mode ->
    indistinguishable class mode v v' -> similar p v v'
| similar_node p v v' :
    ~ is_leaf v -> ~ is_leaf v' -> same_keys v v' -> similar_list p (children v) (children v') ->
    similar p v v'
with similar_list : string -> list (string * json) -> list (string * json) -> Prop :=
| similar_nil p : similar_list p [] []
| similar_cons p t v v' cs cs' :
    similar (child_pointer p t) v v' -> similar_list p cs cs' ->
    similar_list p ((t, v) :: cs) ((t, v') :: cs').

Scheme similar_mut := Minimality for similar Sort Prop
with similar_list_mut := Minimality for similar_list Sort Prop.

Combined Scheme similar_both from similar_mut, similar_list_mut.

Lemma transformLeaf_text v p class mode s st :
  classes !! p = Some class -> Mode profile class = Some mode -> leaf_text v = Some s ->
  mode = ModeWhole \/ mode = ModeHash -> tLeaf v p st = tString s class mode st.
Proof.
  intros Hc Hm Ht Hmode. unfold transformLeaf. rewrite Hc, Hm.
  assert (Hwh : whole_or_hash mode = true) by (by destruct Hmode as [->| ->]).
  assert (Hr : (mode =? ModeRemove) = false) by (by destruct Hmode as [->| ->]).
  rewrite Hr, Hwh. destruct v; by simplify_eq/=.
Qed.

Lemma transformLeaf_indistinguishable v v' p class mode st :
  classes !! p = Some class -> Mode profile class = Some mode ->
  indistinguishable class mode v v' -> tLeaf v p st = tLeaf v' p st.
Proof.
  intros Hc Hm [->|[->|(Hn & s & s' & t & Hs & Hs' & Htok)]]; [done| |].
  - unfold transformLeaf. rewrite Hc, Hm. done.
  - assert (Hmode : mode = ModeWhole \/ mode = ModeHash) by (destruct Htok as [[? _]|[? _]]; auto).
    rewrite (transformLeaf_text v p class mode s st), (transformLeaf_text v' p class mode s' st) by done.
    unfold transformString. rewrite (proj2 (String.eqb_neq _ _) Hn).
    destruct Htok as [(-> & H1 & H2)|(-> & H1 & H2)]; cbn; by rewrite H1, H2.
Qed.

Lemma kept_keys l l' outs : map fst l = map fst l' -> kept l outs = kept l' outs.
Proof.
  revert l' outs. induction l as [|[k v] l IH]; intros [|[k' v'] l'] outs; try done.
  cbn [map fst]. intros [= -> Hl]. destruct outs as [|[c|] outs]; cbn [kept]; [done| |];
    by rewrite (IH l' outs Hl).
Qed.

Lemma rebuild_keys v v' outs : same_keys v v' -> rebuild v outs = rebuild v' outs.
Proof. destruct v, v'; cbn [same_keys rebuild]; try done. intros Hk. by rewrite (kept_keys _ _ _ Hk). Qed.

Lemma walk_similar :
  (forall p v v', similar p v v' -> forall st, wk v p st = wk v' p st) /\
  (forall p cs cs', similar_list p cs cs' -> forall st, wkc cs p st = wkc cs' p st).
Proof.
  apply similar_both.
  - intros p v v' class mode Hl Hl' Hc Hm Hi st. rewrite !walk_eq.
    destruct (decide (is_leaf v)); [|done]. destruct (decide (is_leaf v')); [|done].
    by eapply transformLeaf_indistinguishable.
  - intros p v v' Hl Hl' Hk _ IH st. rewrite !walk_eq.
    destruct (decide (is_leaf v)); [done|]. destruct (decide (is_leaf v')); [done|].
    rewrite IH. destruct (wkc (children v') p st) as [[err|outs] st1]; [done|].
    unfold finish. by rewrite (rebuild_keys v v').
  - done.
  - intros p t v v' cs cs' _ IHv _ IHcs st. cbn [walk_children]. rewrite IHv.
    destruct (wk v' _ st) as [[err|out] st1]; [done|]. by rewrite IHcs.
Qed.

Lemma visit_similar :
  (forall p v v', similar p v v' -> visit v p = visit v' p) /\
  (forall p cs cs', similar_list p cs cs' ->
     concat (map (fun tc => visit (snd tc) (child_pointer p (fst tc))) cs) =
     concat (map (fun tc => visit (snd tc) (child_pointer p (fst tc))) cs')).
Proof.
  apply similar_both.
  - intros p v v' class mode Hl Hl' _ _ _. rewrite !visit_eq.
    destruct (decide (is_leaf v)); [|done]. by destruct (decide (is_leaf v')).
  - intros p v v' Hl Hl' _ _ IH. rewrite !visit_eq.
    destruct (decide (is_leaf v)); [done|]. by destruct (decide (is_leaf v')).
  - done.
  - intros p t v v' cs cs' _ IHv _ IHcs. cbn [map concat fst snd]. by rewrite IHv, IHcs.
Qed.
End Similar.

(** ** Theorems *)

Section Theorems.
Context (sha256 : string -> string) (hmac : string -> string -> string)
        (recognize : string -> string -> string -> list acceptedMatch -> string + list candidate)
        (normalizeHashV1Value : string -> string -> HashV1ErrorCode + string)
        (legacy : Legacy)
        (NewValue : json -> bool)
        (encode_metadata : ProjectionMetadata -> option string)
        (encode_wire : string -> string -> json -> gmap string string -> ProjectionMetadata -> option string).

Notation project := (Project sha256 hmac recognize normalizeHashV1Value legacy NewValue encode_metadata encode_wire).
Notation marshal := (marshalProjectedRecord encode_metadata encode_wire).

Lemma preflight_classes root classes :
  preflightFieldMap root classes = true -> all_classified classes (leafPointers root).
Proof.
  intros [_ Hf]%andb_true_iff. rewrite forallb_forall in Hf. apply Forall_forall. intros q Hq.
  assert (Hq' : In q (leafPointers root)) by (by apply list_elem_of_In).
  specialize (Hf q Hq'). destruct (classes !! q) as [class|]; [by exists class|done].
Qed.

Lemma classified_fields profile classes fields :
  trusted sha256 profile -> all_classified classes (leafPointers (JObject fields)) ->
  classified profile classes
    (concat (map (fun tc => visit (snd tc) (child_pointer "" (fst tc))) (children (JObject fields)))).
Proof.
  intros Ht Hcl. destruct fields as [|kv fields]; [constructor|].
  unfold leafPointers in Hcl. rewrite visit_eq in Hcl.
  destruct (decide _) as [H|_]; [discriminate H|]. eapply Forall_impl; [exact Hcl|].
  intros q (class & Hc & Hf). destruct (trusted_modes _ _ _ Ht Hf) as (mode & ? & ?). eauto.
Qed.

(** The payload of a log or a span. *)
Lemma project_fields e p classes fields st :
  trusted sha256 p -> all_classified classes (leafPointers (JObject fields)) ->
  exists outs st',
    walkObject sha256 hmac recognize normalizeHashV1Value legacy e p classes fields "" st =
      (inr (kept fields outs), st') /\
    projects_list sha256 hmac recognize normalizeHashV1Value legacy e p classes "" (children (JObject fields)) outs /\
    report_steps (report st) (report st') /\
    (name p = ProfileNone -> kept fields outs = fields /\ st' = st).
Proof.
  intros Ht Hcl. rewrite walkObject_eq.
  set (wkc := walk_children sha256 hmac recognize normalizeHashV1Value legacy e p classes).
  destruct (walk_children_projects sha256 hmac recognize normalizeHashV1Value legacy e p classes
              (children (JObject fields)) "") with (st := st) as (outs & st' & Hw & Hp).
  { apply Forall_forall. intros tc _ q st0 Hq. by apply walk_projects. }
  { by apply classified_fields. }
  exists outs, st'. fold wkc in Hw. rewrite Hw. split; [done|]. split; [done|]. split.
  - pose proof (walk_children_steps sha256 hmac recognize normalizeHashV1Value legacy e p classes
      (children (JObject fields)) "") as Hs. fold wkc in Hs. specialize (Hs ltac:(apply Forall_forall; intros; apply walk_steps) st).
    by rewrite Hw in Hs.
  - intros Hn.
    assert (Hk : keeps_all p).
    { split; [by rewrite Hn|]. intros class Hc. by eapply trusted_none. }
    pose proof (walk_children_keeps sha256 hmac recognize normalizeHashV1Value legacy e p classes
      (children (JObject fields)) "") as Hka. fold wkc in Hka.
    rewrite Hka in Hw; [injection Hw as <- <-; by rewrite kept_all| |].
    + apply Forall_forall. intros tc _ q st0 Hq. by apply walk_keeps.
    + destruct fields as [|kv fields]; [constructor|]. unfold leafPointers in Hcl. rewrite visit_eq in Hcl.
      destruct (decide _) as [H|_]; [discriminate H|]. exact Hcl.
Qed.

(** The outcome of a projection of a log or a span. *)
Lemma project_outcome e r p fields :
  trusted sha256 p -> Signal r = SignalLogs \/ Signal r = SignalTraces ->
  Body r = Some (JObject fields) -> preflightFieldMap (JObject fields) (FieldClassMap r) = true ->
  exists outs b,
    projects_list sha256 hmac recognize normalizeHashV1Value legacy e p (FieldClassMap r) ""
      (children (JObject fields)) outs /\
    validateProjectionMetadata (metadata b) = true /\
    (name p = ProfileNone -> kept fields outs = fields /\ MState (metadata b) = ProjectionStateRaw) /\
    let payload := JObject (kept fields outs) in
    project (Some e) r p =
      if NewValue payload then
        match marshal r payload (metadata b) with
        | inl code => (inl code, failRecord b)
        | inr wire => (inr (mkProjection payload (metadata b) b wire (origin e) (fingerprint p)
                              (key_id sha256 e) DetectorCatalogVersion), b)
        end
      else (inl ProjectionFailureOutputLimit, failRecord b).
Proof.
  intros Ht Hsig Hbody Hpre. pose proof (preflight_classes _ _ Hpre) as Hcl.
  destruct (project_fields e p (FieldClassMap r) fields (mkW (newReportBuilder p) NewRecordMatchBudget) Ht Hcl)
    as (outs & st' & Hw & Hproj & Hsteps & Hnone).
  assert (Hm : (Signal r =? SignalMetrics) = false) by (by destruct Hsig as [->| ->]).
  exists outs, (report st'). split; [done|]. split; [|split].
  - destruct (String.eqb_spec (name p) ProfileNone) as [Hn|Hn].
    + destruct (Hnone Hn) as [_ ->]. unfold newReportBuilder. rewrite Hn. reflexivity.
    + eapply meta_inv_valid; [by apply (trusted_name sha256 p)|exact Hn|].
      eapply meta_inv_steps; [exact Hsteps|]. by apply meta_inv_init.
  - intros Hn. destruct (Hnone Hn) as [Hk ->]. split; [done|]. unfold newReportBuilder. by rewrite Hn.
  - unfold Project, project_payload, recordPayload. rewrite (trusted_valid sha256 p Ht), Hm, Hbody, Hpre, Hw.
    cbn [negb andb]. destruct (NewValue _); [|done]. by destruct (marshal r _ _).
Qed.

(** C35: the projection of a log or span record whose leaves are all classified,
    for a profile a catalog resolves.  The walk never fails; the payload is the
    original with every leaf replaced as its class demands (kept, removed, or a
    text that is its token, the placeholder of a failure or the result of a
    detection); the report always satisfies the checks of the encoder; and the
    profile [none] keeps the payload as it is. *)
Theorem Project_correct e r p fields :
  trusted sha256 p -> Signal r = SignalLogs \/ Signal r = SignalTraces ->
  Body r = Some (JObject fields) -> preflightFieldMap (JObject fields) (FieldClassMap r) = true ->
  exists outs b,
    projects_list sha256 hmac recognize normalizeHashV1Value legacy e p (FieldClassMap r) ""
      (children (JObject fields)) outs /\
    validateProjectionMetadata (metadata b) = true /\
    (name p = ProfileNone -> kept fields outs = fields /\ MState (metadata b) = ProjectionStateRaw) /\
    let payload := JObject (kept fields outs) in
    project (Some e) r p =
      if NewValue payload then
        match marshal r payload (metadata b) with
        | inl code => (inl code, failRecord b)
        | inr wire => (inr (mkProjection payload (metadata b) b wire (origin e) (fingerprint p)
                              (key_id sha256 e) DetectorCatalogVersion), b)
        end
      else (inl ProjectionFailureOutputLimit, failRecord b).
Proof. exact (project_outcome e r p fields). Qed.

(** Records that a profile does not tell apart: the same envelope and
    classification, and payloads of the same shape that differ only in leaves the
    profile removes or gives the same token. *)
Definition alike (e : Engine) (p : Profile) (r r' : CanonicalRecord) : Prop :=
  (Signal r = SignalLogs \/ Signal r = SignalTraces) /\
  Signal r' = Signal r /\ Envelope r' = Envelope r /\ FieldClassMap r' = FieldClassMap r /\
  exists fields fields', Body r = Some (JObject fields) /\ Body r' = Some (JObject fields') /\
    map fst fields = map fst fields' /\
    similar_list sha256 hmac normalizeHashV1Value e p (FieldClassMap r) ""
      (children (JObject fields)) (children (JObject fields')).

Lemma project_alike e p r r' : alike e p r r' -> project (Some e) r' p = project (Some e) r p.
Proof.
  intros (Hsig & Hs & He & Hc & fields & fields' & Hb & Hb' & Hk & Hsim).
  assert (Hm : (Signal r =? SignalMetrics) = false) by (by destruct Hsig as [->| ->]).
  assert (Hpre : preflightFieldMap (JObject fields') (FieldClassMap r) =
                 preflightFieldMap (JObject fields) (FieldClassMap r)).
  { unfold preflightFieldMap. replace (leafPointers (JObject fields')) with (leafPointers (JObject fields)); [done|].
    unfold leafPointers. destruct fields as [|kv fields], fields' as [|kv' fields']; try done.
    rewrite !visit_eq. destruct (decide _) as [H|_]; [discriminate H|].
    destruct (decide _) as [H|_]; [discriminate H|].
    by apply (proj2 (visit_similar sha256 hmac normalizeHashV1Value e p (FieldClassMap r))). }
  unfold Project, project_payload, recordPayload. rewrite Hs, Hm, Hb, Hb', Hc, Hpre, !walkObject_eq.
  rewrite (proj2 (walk_similar sha256 hmac recognize normalizeHashV1Value legacy e p (FieldClassMap r)) _ _ _ Hsim).
  destruct (negb (validProfile sha256 p)); [done|].
  destruct (negb (preflightFieldMap _ _)); [done|]. cbn [andb].
  destruct (walk_children _ _ _ _ _ _ _ _ _ _ _) as [[err|outs] st]; [done|].
  rewrite (kept_keys fields fields' outs Hk). destruct (NewValue _); [|done].
  unfold marshalProjectedRecord. by rewrite Hs, He, Hc.
Qed.

(** C1: what a projection can disclose.  Two records with the same envelope and
    classification, whose payloads have the same shape and differ only in leaves
    that are removed or that have the same keyed token, have the same projection:
    the same payload, the same bytes, the same report, the same error.  So a
    projection tells nothing more about a removed leaf than that it was there, and
    nothing about a hashed or replaced one beyond its token. *)
Theorem Project_noninterference e p r r' fields fields' :
  Signal r = SignalLogs \/ Signal r = SignalTraces ->
  Signal r' = Signal r -> Envelope r' = Envelope r -> FieldClassMap r' = FieldClassMap r ->
  Body r = Some (JObject fields) -> Body r' = Some (JObject fields') ->
  map fst fields = map fst fields' ->
  similar_list sha256 hmac normalizeHashV1Value e p (FieldClassMap r) ""
    (children (JObject fields)) (children (JObject fields')) ->
  project (Some e) r' p = project (Some e) r p.
Proof.
  intros Hsig Hs He Hc Hb Hb' Hk Hsim. apply project_alike. split_and!; [done..|]. by exists fields, fields'.
Qed.
End Theorems.

(** ** Instances *)

(** Concrete functions for the parameters. *)
Definition ex_id (s : string) : string := s.
Definition ex_hmac (key message : string) : string := message.
Definition ex_recognize (id input class : string) (prior : list acceptedMatch) : string + list candidate := inr [].
Definition ex_normalize (value class : string) : HashV1ErrorCode + string := inr value.
Definition ex_legacy : Legacy :=
  {| LegacyV7Entity := ex_id; LegacyV7MessageContent := ex_id; LegacyV7Reason := ex_id;
     LegacyV7Evidence := fun s _ _ => s; LegacyV7String := ex_id |}.
Definition ex_accept (v : json) : bool := true.
Definition ex_metadata (m : ProjectionMetadata) : option string := Some "{}".
Definition ex_wire (envelope signal : string) (payload : json) (classes : gmap string string)
    (m : ProjectionMetadata) : option string := Some envelope.

Definition ex_engine : Engine := {| origin := 1; engine_key := "0123456789abcdef0123456789abcdef"; keyAvailable := true |}.

Definition ex_profile : Profile := default (mkProfile "" "" [] [] "") (BuiltInProfile ex_id ProfileContent).

Lemma ex_profile_trusted : trusted ex_id ex_profile.
Proof. split; [by split|]. split; reflexivity. Qed.

(** A record with a message, a path, a credential and a level. *)
Definition ex_fields (message credential : string) : list (string * json) :=
  [("level", JNumber "3"); ("message", JString message); ("token", JString credential)].

Definition ex_record (message credential : string) : CanonicalRecord :=
  mkRecord SignalLogs (Some (JObject (ex_fields message credential))) None
    (<["/level" := FieldClassMetadata]> (<["/message" := FieldClassContent]>
      (<["/token" := FieldClassCredential]> ∅))) false "envelope".

Lemma Project_correct_witness :
  exists outs b,
    projects_list ex_id ex_hmac ex_recognize ex_normalize ex_legacy ex_engine ex_profile
      (FieldClassMap (ex_record "hello" "hunter2")) "" (children (JObject (ex_fields "hello" "hunter2"))) outs /\
    validateProjectionMetadata (metadata b) = true /\
    (name ex_profile = ProfileNone ->
     kept (ex_fields "hello" "hunter2") outs = ex_fields "hello" "hunter2" /\
     MState (metadata b) = ProjectionStateRaw) /\
    let payload := JObject (kept (ex_fields "hello" "hunter2") outs) in
    Project ex_id ex_hmac ex_recognize ex_normalize ex_legacy ex_accept ex_metadata ex_wire
      (Some ex_engine) (ex_record "hello" "hunter2") ex_profile =
      if ex_accept payload then
        match marshalProjectedRecord ex_metadata ex_wire (ex_record "hello" "hunter2") payload (metadata b) with
        | inl code => (inl code, failRecord b)
        | inr wire => (inr (mkProjection payload (metadata b) b wire (origin ex_engine) (fingerprint ex_profile)
                              (key_id ex_id ex_engine) DetectorCatalogVersion), b)
        end
      else (inl ProjectionFailureOutputLimit, failRecord b).
Proof.
  apply (Project_correct ex_id ex_hmac ex_recognize ex_normalize ex_legacy ex_accept ex_metadata ex_wire
           ex_engine (ex_record "hello" "hunter2") ex_profile (ex_fields "hello" "hunter2")).
  - exact ex_profile_trusted.
  - left. reflexivity.
  - reflexivity.
  - vm_compute. reflexivity.
Defined.

(** Another credential, removed by the profile: the same projection. *)
Lemma Project_noninterference_witness :
  Project ex_id ex_hmac ex_recognize ex_normalize ex_legacy ex_accept ex_metadata ex_wire
    (Some ex_engine) (ex_record "hello" "swordfish") ex_profile =
  Project ex_id ex_hmac ex_recognize ex_normalize ex_legacy ex_accept ex_metadata ex_wire
    (Some ex_engine) (ex_record "hello" "hunter2") ex_profile.
Proof.
  apply (Project_noninterference ex_id ex_hmac ex_recognize ex_normalize ex_legacy ex_accept ex_metadata ex_wire
           ex_engine ex_profile (ex_record "hello" "hunter2") (ex_record "hello" "swordfish")
           (ex_fields "hello" "hunter2") (ex_fields "hello" "swordfish"));
    [left; reflexivity|reflexivity..|].
  constructor; [|constructor; [|constructor; [|constructor]]].
  - eapply similar_leaf; [reflexivity|reflexivity|vm_compute; reflexivity|vm_compute; reflexivity|by left].
  - eapply similar_leaf; [reflexivity|reflexivity|vm_compute; reflexivity|vm_compute; reflexivity|by left].
  - eapply similar_leaf; [reflexivity|reflexivity|vm_compute; reflexivity|vm_compute; reflexivity|].
    right. left. reflexivity.
Defined.

(** The projection of the example: the message is a token, the credential gone. *)
Example projection_ex :
  match fst (Project ex_id ex_hmac ex_recognize ex_normalize ex_legacy ex_accept ex_metadata ex_wire
          (Some ex_engine) (ex_record "hello" "hunter2") ex_profile) with
  | inr pr => match payload pr with
              | JObject [(k1, v1); (k2, JString t)] =>
                  (k1, v1, k2, str_take 30 t, MTransformedFields (proj_metadata pr), MRemovedFields (proj_metadata pr))
                  = ("level", JNumber "3", "message", "<redacted type=field.content v", 1%Z, 1%Z)
              | _ => False
              end
  | inl _ => False
  end.
Proof. vm_compute. reflexivity. Qed.

(** A projection is reused for the engine, key and profile that made it, and for
    no other. *)
Lemma Reproject_same sha256 e p pr :
  validProfile sha256 p = true -> proj_origin pr = origin e -> profileFingerprintOf pr = fingerprint p ->
  catalogVersion pr = DetectorCatalogVersion -> keyID pr = key_id sha256 e -> encoded pr <> "" ->
  Reproject sha256 (Some e) pr p = (inr pr, proj_report pr).
Proof.
  intros Hv Ho Hf Hc Hk He. unfold Reproject. rewrite Hv, Ho, Hf, Hc, Hk, !Z.eqb_refl, !String.eqb_refl.
  destruct (encoded pr); [done|]. unfold slen. cbn [String.length]. cbn [negb orb].
  destruct (Z.eqb_spec (Z.of_nat (S (String.length s))) 0); [lia|done].
Qed.

Lemma Reproject_other sha256 e p pr :
  proj_origin pr <> origin e \/ profileFingerprintOf pr <> fingerprint p \/ keyID pr <> key_id sha256 e ->
  exists b, Reproject sha256 (Some e) pr p = (inl ProjectionFailureContext, b).
Proof.
  intros H. unfold Reproject. eexists.
  destruct (Z.eqb_spec (proj_origin pr) (origin e)), (validProfile sha256 p),
    (String.eqb_spec (profileFingerprintOf pr) (fingerprint p)),
    (catalogVersion pr =? DetectorCatalogVersion)%Z, (String.eqb_spec (keyID pr) (key_id sha256 e)),
    (slen (encoded pr) =? 0)%Z; cbn [negb orb]; try reflexivity; naive_solver.
Qed.
