(* ===== verification/RoutingPlan.v ===== *)
(** * The observability plan (internal/config/observability_v8_plan.go,
    observability_v8_compile.go, observability_v8_types.go,
    observability_v8_compatibility.go)

    The compiler from the configuration of telemetry to the effective plan: the
    collection policy and the redaction profile of every bucket, the redaction
    profiles, and the destinations with their routes.  The transport of a
    destination, the span families of a compatibility profile, the resource
    attributes, the sampler ratio and the provenance are parameters: routing does
    not depend on them. *)
From stdpp Require Import base list gmap strings sorting pretty.
From Stdlib Require Import ZArith Lia Ascii.
From S2P Require Import Prelude GoStrings Taxonomy RedactionProfile.

Local Open Scope string_scope.

(** An error: the path it names and what it says. *)
Definition Error : Type := string * string.

(** ** Source (observability_v8_types.go) *)

Definition MaxSourceDestinations : Z := 64.
Definition MaxDestinations : Z := MaxSourceDestinations + 1.
Definition MaxRoutesPerDestination : Z := 256.
Definition MaxRoutesTotal : Z := 4096.
Definition MaxRedactionProfiles : Z := 128.
Definition MaxMappingEntries : Z := 1024.
Definition DefaultRetentionDays : Z := 7.
Definition MaxRetentionDays : Z := int_max / (24 * Hour).
Definition BucketCatalogVersion : Z := 1.

Definition RouteSend : string := "send".
Definition RouteDrop : string := "drop".

Definition DestinationJSONL : string := "jsonl".
Definition DestinationConsole : string := "console".
Definition DestinationPrometheus : string := "prometheus".
Definition DestinationSplunkHEC : string := "splunk_hec".
Definition DestinationHTTPJSONL : string := "http_jsonl".
Definition DestinationOTLP : string := "otlp".
Definition DestinationLocalSQLite : string := "sqlite".

Definition LocalDestinationName : string := "local-sqlite".
Definition ManagedAIDDestinationName : string := "managed-enterprise-ai-defense".

Record CollectSource := { cs_Logs : option bool; cs_Traces : option bool; cs_Metrics : option bool }.
Record BucketPolicySource := { bp_Collect : CollectSource; bp_RedactionProfile : string }.

(** A nil slice is [None]. *)
Record ProfileSource := {
  ps_Extends : string;
  ps_Detectors : option (list string);
  ps_FieldClasses : gmap string string;
}.

Record LocalSource := { ls_Path : string; ls_JudgeBodiesPath : string; ls_RetentionDays : option Z }.

Record SendSource := { ss_Signals : list string; ss_Buckets : list string; ss_RedactionProfile : string }.

Record SelectorSource := {
  so_Buckets : option (list string);
  so_Sources : option (list string);
  so_Connectors : option (list string);
  so_Actions : option (list string);
  so_EventNames : option (list string);
  so_MinSeverity : string;
}.

Record RouteSource := {
  rs_Name : string;
  rs_Signals : list string;
  rs_Selector : option SelectorSource;
  rs_Action : string;
  rs_RedactionProfile : string;
}.

(** [Settings] is what the transport compiler reads. *)
Record DestinationSource (Settings : Type) := mkDestinationSource {
  ds_Name : string;
  ds_Kind : string;
  ds_Enabled : option bool;
  ds_Preset : string;
  ds_Send : option SendSource;
  ds_Routes : option (list RouteSource);
  ds_HeaderCount : Z;
  ds_OverrideCount : Z;
  ds_Settings : Settings;
}.
Arguments ds_Name {_} _.
Arguments ds_Kind {_} _.
Arguments ds_Enabled {_} _.
Arguments ds_Preset {_} _.
Arguments ds_Send {_} _.
Arguments ds_Routes {_} _.
Arguments ds_HeaderCount {_} _.
Arguments ds_OverrideCount {_} _.
Arguments ds_Settings {_} _.

Record PlanSource (Settings : Type) := mkPlanSource {
  src_BucketCatalogVersion : option Z;
  src_Defaults : BucketPolicySource;
  src_Buckets : gmap string BucketPolicySource;
  src_RedactionProfiles : gmap string ProfileSource;
  src_ConnectorCount : Z;
  src_Local : LocalSource;
  src_Destinations : list (DestinationSource Settings);
}.
Arguments src_BucketCatalogVersion {_} _.
Arguments src_Defaults {_} _.
Arguments src_Buckets {_} _.
Arguments src_RedactionProfiles {_} _.
Arguments src_ConnectorCount {_} _.
Arguments src_Local {_} _.
Arguments src_Destinations {_} _.

(** ** Effective plan (observability_v8_plan.go) *)

Definition LiveReloadable : string := "live_reloadable".
Definition RestartRequired : string := "restart_required".

Definition PolicyImplicitLocal : string := "implicit_local".
Definition PolicyCapabilityDefault : string := "capability_default".
Definition PolicyConciseSend : string := "concise_send".
Definition PolicyAdvancedRoutes : string := "advanced_routes".

Record EffectiveCollect := mkCollect { Logs : bool; Traces : bool; Metrics : bool }.

Definition Enabled (collect : EffectiveCollect) (signal : string) : bool :=
  if signal =? SignalLogs then Logs collect
  else if signal =? SignalTraces then Traces collect
  else if signal =? SignalMetrics then Metrics collect
  else false.

Record EffectiveBucket := mkBucket { eb_Bucket : string; eb_Collect : EffectiveCollect; eb_RedactionProfile : string }.

Record EffectiveProfile := mkEffectiveProfile {
  ep_Name : string;
  ep_BuiltIn : bool;
  ep_Extends : string;
  ep_Detectors : list string;
  ep_FieldClasses : gmap string string;
}.

Record EffectiveLocal := { el_Path : string; el_JudgeBodiesPath : string; el_RetentionDays : Z }.

Record EffectiveSelector := mkEffectiveSelector {
  es_Buckets : list string;
  es_BucketWildcard : bool;
  es_Sources : list string;
  es_Connectors : list string;
  es_Actions : list string;
  es_EventNames : list string;
  es_MinSeverity : string;
}.

Record EffectiveRoute := mkRoute {
  er_Index : Z;
  er_Name : string;
  er_Generated : bool;
  er_Signals : list string;
  er_Selector : EffectiveSelector;
  er_Action : string;
  er_RedactionProfileByBucket : gmap string string;
  er_IncludesMandatoryFloor : bool;
}.

Record SpanFamily := { sf_EventName : string; sf_Availability : string }.

Record Batch := {
  MaxQueueSize : Z;
  MaxQueueBytes : Z;
  MaxExportBatchSize : Z;
  MaxExportBatchBytes : Z;
  ScheduledDelayMS : Z;
}.

(** A header is a static value or the name of a secret. *)
Inductive HeaderValue := StaticHeader (value : string) | EnvironmentHeader (env : string).

(** What routing and reload read of a transport. *)
Record TransportPlan := mkTransport {
  TransportPath : string;
  Listen : string;
  Endpoint : string;
  Protocol : string;
  Method : string;
  Headers : gmap string HeaderValue;
  TokenEnv : string;
  BearerEnv : string;
  LoggerName : string;
  TimeoutMS : Z;
  BatchPlan : option Batch;
}.

Record EffectiveDestination := mkDestination {
  ed_Name : string;
  ed_Kind : string;
  ed_Enabled : bool;
  ed_Generated : bool;
  ed_Preset : string;
  ed_PresetProfile : string;
  ed_CompatibilityProfiles : list (string * list SpanFamily);
  ed_Capabilities : list string;
  ed_SelectedSignals : list string;
  ed_PolicyForm : string;
  ed_FirstMatchPerSignal : bool;
  ed_ReloadPolicy : string;
  ed_ReloadTransport : string;
  ed_Routes : list EffectiveRoute;
  ed_Transport : TransportPlan;
  ed_SourceContentHash : string;
}.

Record EffectivePlan := mkEffectivePlan {
  pl_BucketCatalogVersion : Z;
  pl_Local : EffectiveLocal;
  pl_Buckets : list EffectiveBucket;
  pl_Profiles : list EffectiveProfile;
  pl_Destinations : list EffectiveDestination;
  pl_Provenance : list (string * string * string);
}.

Record Plan := mkPlan { effective : EffectivePlan; display : EffectivePlan; digest : string }.

(** [Supports] of the capabilities. *)
Definition Supports (capabilities : list string) (signal : string) : bool := existsb (String.eqb signal) capabilities.

(** ** Names *)

Definition name_first (c : ascii) : bool := byte_in 97 122 c || byte_in 48 57 c.
Definition name_tail (c : ascii) : bool := name_first c || Ascii.eqb c "_" || Ascii.eqb c "-".

(** [observabilityV8StableNamePattern]: at most 64 bytes. *)
Definition StableName (value : string) : bool :=
  match value with
  | "" => false
  | String c r => name_first c && sall name_tail r && (slen r <=? 63)%Z
  end.

Definition token_first (c : ascii) : bool := byte_in 65 90 c || byte_in 97 122 c || byte_in 48 57 c.
Definition token_tail (c : ascii) : bool :=
  token_first c || Ascii.eqb c "." || Ascii.eqb c "_" || Ascii.eqb c ":" || Ascii.eqb c "/" || Ascii.eqb c "-".

(** [observabilityV8SelectorPattern]: at most 128 bytes. *)
Definition SelectorToken (value : string) : bool :=
  match value with
  | "" => false
  | String c r => token_first c && sall token_tail r && (slen r <=? 127)%Z
  end.

(** ** Buckets *)

Definition compileCatalogVersion (source : option Z) : Error + Z :=
  match source with
  | None => inr BucketCatalogVersion
  | Some v => if negb (v =? BucketCatalogVersion)%Z
              then inl ("observability.bucket_catalog_version", "unsupported value") else inr v
  end.

Definition applyCollect (target : EffectiveCollect) (source : CollectSource) : EffectiveCollect :=
  mkCollect (default (Logs target) (cs_Logs source)) (default (Traces target) (cs_Traces source))
    (default (Metrics target) (cs_Metrics source)).

Definition DefaultRedactionProfile : string := "none".

Definition compile_bucket (defaults : BucketPolicySource) (overrides : gmap string BucketPolicySource)
    (bucket : string) : EffectiveBucket :=
  let collect := applyCollect (mkCollect true true true) (bp_Collect defaults) in
  let profile := if negb (bp_RedactionProfile defaults =? "") then bp_RedactionProfile defaults
                 else DefaultRedactionProfile in
  match overrides !! bucket with
  | Some override =>
      mkBucket bucket (applyCollect collect (bp_Collect override))
        (if negb (bp_RedactionProfile override =? "") then bp_RedactionProfile override else profile)
  | None => mkBucket bucket collect profile
  end.

Definition override_error (known : gset string) (entry : string * BucketPolicySource) : option Error :=
  let '(bucket, policy) := entry in
  if negb (IsBucket bucket) then Some ("observability.buckets", "unknown catalog-v1 bucket")
  else if negb (bp_RedactionProfile policy =? "") && negb (bool_decide (bp_RedactionProfile policy ∈ known))
  then Some ("observability.buckets." ++ bucket ++ ".redaction_profile", "unknown profile") else None.

Definition compileBuckets (defaults : BucketPolicySource) (overrides : gmap string BucketPolicySource)
    (known : gset string) : Error + list EffectiveBucket :=
  if (MaxMappingEntries <? Z.of_nat (size overrides))%Z then inl ("observability.buckets", "too many entries")
  else if negb (bp_RedactionProfile defaults =? "") && negb (bool_decide (bp_RedactionProfile defaults ∈ known))
  then inl ("observability.defaults.redaction_profile", "unknown profile")
  else match first_error (override_error known <$> map_to_list overrides) with
       | Some e => inl e
       | None => inr (compile_bucket defaults overrides <$> Buckets)
       end.

Definition compileLocal (source : LocalSource) : Error + EffectiveLocal :=
  let retentionDays := default DefaultRetentionDays (ls_RetentionDays source) in
  if (retentionDays <? 0)%Z then inl ("observability.local.retention_days", "must be zero or greater")
  else if (MaxRetentionDays <? retentionDays)%Z then inl ("observability.local.retention_days", "maximum")
  else inr {| el_Path := ls_Path source; el_JudgeBodiesPath := ls_JudgeBodiesPath source;
              el_RetentionDays := retentionDays |}.

(** ** Routes *)

Definition HasContentSignal (signals : list string) : bool :=
  existsb (fun s => (s =? SignalLogs) || (s =? SignalTraces)) signals.

Definition BucketIDs (buckets : list EffectiveBucket) : list string := eb_Bucket <$> buckets.

Definition policy_map (policies : list EffectiveBucket) : gmap string string :=
  foldl (fun m p => <[eb_Bucket p := eb_RedactionProfile p]> m) ∅ policies.

Definition RouteProfiles (buckets : list string) (explicit : string) (policies : list EffectiveBucket) :
    gmap string string :=
  foldl (fun m bucket =>
    <[bucket := if explicit =? "" then default "" (policy_map policies !! bucket) else explicit]> m) ∅ buckets.

(** The loop of [validateObservabilityV8Signals]. *)
Fixpoint signals_error (capabilities : list string) (path : string) (seen source : list string) : option Error :=
  match source with
  | [] => None
  | signal :: r =>
      if negb (IsSignal signal) then Some (path, "unknown signal")
      else if negb (Supports capabilities signal) then Some (path, "signal is not supported by destination kind")
      else if bool_decide (signal ∈ seen) then Some (path, "duplicate signal")
      else signals_error capabilities path (signal :: seen) r
  end.

Definition validateSignals (source capabilities : list string) (path : string) : Error + list string :=
  match source with
  | [] => inl (path, "must be nonempty")
  | _ => match signals_error capabilities path [] source with Some e => inl e | None => inr source end
  end.

Definition validateRouteProfile (profile : string) (signals : list string) (action : string) (known : gset string)
    (path : string) : option Error :=
  if profile =? "" then None
  else if action =? RouteDrop then Some (path, "not valid on a drop route")
  else if negb (bool_decide (profile ∈ known)) then Some (path, "unknown profile")
  else if negb (HasContentSignal signals) then Some (path, "not valid on a metric-only route")
  else None.

(** The loop of [compileObservabilityV8BucketSelector]: [inr true] for the
    wildcard. *)
Fixpoint bucket_loop (total : nat) (path : string) (seen source : list string) : Error + bool :=
  match source with
  | [] => inr false
  | bucket :: r =>
      if bucket =? "*" then if negb (total =? 1)%nat then inl (path, "wildcard must be the only value") else inr true
      else if negb (IsBucket bucket) then inl (path, "unknown catalog-v1 bucket")
      else if bool_decide (bucket ∈ seen) then inl (path, "duplicate bucket")
      else bucket_loop total path (bucket :: seen) r
  end.

Definition compileBucketSelector (source : option (list string)) (required : bool) (path : string) :
    Error + (list string * bool) :=
  match source with
  | None => if required then inl (path, "must be nonempty") else inr ([], false)
  | Some [] => inl (path, "must be nonempty")
  | Some bs =>
      match bucket_loop (length bs) path [] bs with
      | inl e => inl e
      | inr true => inr ([], true)
      | inr false => inr (bs, false)
      end
  end.

Definition compileCapabilityRoute (capabilities : list string) (buckets : list EffectiveBucket) : EffectiveRoute :=
  let allBuckets := BucketIDs buckets in
  mkRoute 0 "capability-default" true capabilities (mkEffectiveSelector allBuckets true [] [] [] [] "")
    RouteSend (if HasContentSignal capabilities then RouteProfiles allBuckets "" buckets else ∅) false.

Definition compileConciseSend (source : SendSource) (path : string) (capabilities : list string)
    (buckets : list EffectiveBucket) (known : gset string) : Error + EffectiveRoute :=
  match validateSignals (ss_Signals source) capabilities (path ++ ".signals") with
  | inl e => inl e
  | inr signals =>
      match compileBucketSelector (Some (ss_Buckets source)) true (path ++ ".buckets") with
      | inl e => inl e
      | inr (selected, wildcard) =>
          match validateRouteProfile (ss_RedactionProfile source) signals RouteSend known
                  (path ++ ".redaction_profile") with
          | Some e => inl e
          | None =>
              let selected := if wildcard : bool then BucketIDs buckets else selected in
              inr (mkRoute 0 "send" true signals (mkEffectiveSelector selected wildcard [] [] [] [] "") RouteSend
                     (if HasContentSignal signals then RouteProfiles selected (ss_RedactionProfile source) buckets
                      else ∅) false)
          end
      end
  end.

Definition presence_error (path name : string) (values : option (list string)) : option Error :=
  match values with
  | Some [] => Some (path ++ "." ++ name, "must not be empty when present")
  | Some vs => if (MaxMappingEntries <? zlen vs)%Z then Some (path ++ "." ++ name, "too many values") else None
  | None => None
  end.

Definition validateSelectorPresence (source : SelectorSource) (path : string) : option Error :=
  first_error [
    presence_error path "buckets" (so_Buckets source); presence_error path "sources" (so_Sources source);
    presence_error path "connectors" (so_Connectors source); presence_error path "actions" (so_Actions source);
    presence_error path "event_names" (so_EventNames source)].

Section Compile.
(** Registered actions are those of the two producer catalogs. *)
Variable registered_action : string -> bool.
Variable registered_name : string -> bool.

Definition values (l : option (list string)) : list string := default [] l.

Definition tokens_error (path name : string) (vs : list string) : option Error :=
  if forallb (fun v => (v =? "*") || SelectorToken v) vs then None
  else Some (path ++ "." ++ name, "invalid selector token").

Definition compileSelector (source : SelectorSource) (path : string) (buckets : list EffectiveBucket) :
    Error + EffectiveSelector :=
  match compileBucketSelector (so_Buckets source) false (path ++ ".buckets") with
  | inl e => inl e
  | inr (selected, wildcard) =>
      let selected := if bool_decide (so_Buckets source = None) || (wildcard : bool) then BucketIDs buckets else selected in
      match validateSelectorPresence source path with
      | Some e => inl e
      | None =>
          match Selector_Validate (mkSelector (values (so_Buckets source)) (values (so_Sources source))
                  (values (so_Connectors source)) (values (so_Actions source)) (values (so_EventNames source))
                  (so_MinSeverity source)) with
          | Some _ => inl (path, "invalid selector")
          | None =>
              match first_error [
                tokens_error path "sources" (values (so_Sources source));
                tokens_error path "connectors" (values (so_Connectors source));
                tokens_error path "actions" (values (so_Actions source));
                (if forallb (fun a => (a =? "*") || registered_action a) (values (so_Actions source)) then None
                 else Some (path ++ ".actions", "unregistered action"));
                (if forallb (fun n => (n =? "*") || registered_name n) (values (so_EventNames source)) then None
                 else Some (path ++ ".event_names", "unregistered event name"))] with
              | Some e => inl e
              | None => inr (mkEffectiveSelector selected wildcard (values (so_Sources source))
                               (values (so_Connectors source)) (values (so_Actions source))
                               (values (so_EventNames source)) (so_MinSeverity source))
              end
          end
      end
  end.

(** The body of the loop of [compileObservabilityV8AdvancedRoutes]. *)
Definition compile_route (path : string) (capabilities : list string) (buckets : list EffectiveBucket)
    (known : gset string) (seen : list string) (index : nat) (route : RouteSource) : Error + EffectiveRoute :=
  let routePath := path ++ "[" ++ pretty index ++ "]" in
  if negb (StableName (rs_Name route)) then inl (routePath ++ ".name", "must be a stable lower-case identifier")
  else if bool_decide (rs_Name route ∈ seen) then inl (routePath ++ ".name", "duplicate route name")
  else match validateSignals (rs_Signals route) capabilities (routePath ++ ".signals") with
  | inl e => inl e
  | inr signals =>
      let action := if rs_Action route =? "" then RouteSend else rs_Action route in
      if negb (action =? RouteSend) && negb (action =? RouteDrop)
      then inl (routePath ++ ".action", "expected send or drop")
      else match validateRouteProfile (rs_RedactionProfile route) signals action known
                   (routePath ++ ".redaction_profile") with
      | Some e => inl e
      | None =>
          match rs_Selector route with
          | None => inl (routePath ++ ".selector", "required")
          | Some source =>
              match compileSelector source (routePath ++ ".selector") buckets with
              | inl e => inl e
              | inr selector =>
                  inr (mkRoute (Z.of_nat index) (rs_Name route) false signals selector action
                         (if (action =? RouteSend) && HasContentSignal signals
                          then RouteProfiles (es_Buckets selector) (rs_RedactionProfile route) buckets else ∅) false)
              end
          end
      end
  end.

Fixpoint compileAdvancedRoutes (path : string) (capabilities : list string) (buckets : list EffectiveBucket)
    (known : gset string) (seen : list string) (index : nat) (source : list RouteSource) :
    Error + list EffectiveRoute :=
  match source with
  | [] => inr []
  | route :: r =>
      match compile_route path capabilities buckets known seen index route with
      | inl e => inl e
      | inr compiled =>
          match compileAdvancedRoutes path capabilities buckets known (rs_Name route :: seen) (S index) r with
          | inl e => inl e
          | inr routes => inr (compiled :: routes)
          end
      end
  end.

Definition unionRouteSignals (routes : list EffectiveRoute) : list string :=
  List.filter (fun signal => existsb (fun r => existsb (String.eqb signal) (er_Signals r)) routes) Signals.

Definition capabilities_of (kind preset : string) : Error + list string :=
  if negb (preset =? "") && negb (preset =? "galileo") then inl ("", "unknown preset")
  else if (preset =? "galileo") && negb (kind =? DestinationOTLP) then inl ("", "preset galileo requires kind otlp")
  else if existsb (String.eqb kind) [DestinationJSONL; DestinationConsole; DestinationSplunkHEC; DestinationHTTPJSONL]
  then inr [SignalLogs]
  else if kind =? DestinationPrometheus then inr [SignalMetrics]
  else if kind =? DestinationOTLP then inr (if preset =? "galileo" then [SignalTraces] else Signals)
  else if kind =? DestinationLocalSQLite then inl ("", "kind sqlite is generated and cannot appear in source")
  else if kind =? "" then inl ("", "kind is required")
  else inl ("", "unknown destination kind").

(** ** Destinations *)

Definition compileLocalDestination (buckets : list EffectiveBucket) (local : EffectiveLocal) : EffectiveDestination :=
  mkDestination LocalDestinationName DestinationLocalSQLite true true "" "" [] [SignalLogs] [SignalLogs]
    PolicyImplicitLocal true LiveReloadable RestartRequired
    [mkRoute 0 "all-collected-logs-and-mandatory-floor" true [SignalLogs]
       (mkEffectiveSelector (BucketIDs buckets) true [] [] [] [] "") RouteSend (policy_map buckets) true]
    (mkTransport (el_Path local) "" "" "" "" ∅ "" "" "" 0 None) "".

(** The names that survive [constrainObservabilityV8CapabilityRouteToCompatibility]. *)
Definition string_le (a b : string) : Prop := String.leb a b = true.
#[local] Instance string_le_dec : RelDecision string_le := fun a b => bool_eq_dec _ _.

Definition available_names (families : list SpanFamily) : list string :=
  merge_sort string_le
    (remove_dups (sf_EventName <$> List.filter (fun f => sf_Availability f =? "available") families)).

Definition with_event_names (names : list string) (r : EffectiveRoute) : EffectiveRoute :=
  let s := er_Selector r in
  mkRoute (er_Index r) (er_Name r) (er_Generated r) (er_Signals r)
    (mkEffectiveSelector (es_Buckets s) (es_BucketWildcard s) (es_Sources s) (es_Connectors s) (es_Actions s)
       names (es_MinSeverity s)) (er_Action r) (er_RedactionProfileByBucket r) (er_IncludesMandatoryFloor r).

Definition with_routes (routes : list EffectiveRoute) (d : EffectiveDestination) : EffectiveDestination :=
  mkDestination (ed_Name d) (ed_Kind d) (ed_Enabled d) (ed_Generated d) (ed_Preset d) (ed_PresetProfile d)
    (ed_CompatibilityProfiles d) (ed_Capabilities d) (ed_SelectedSignals d) (ed_PolicyForm d)
    (ed_FirstMatchPerSignal d) (ed_ReloadPolicy d) (ed_ReloadTransport d) routes (ed_Transport d)
    (ed_SourceContentHash d).

Definition constrainCapabilityRoute (d : EffectiveDestination) : Error + EffectiveDestination :=
  match ed_Routes d, ed_CompatibilityProfiles d with
  | [route], [(_, families)] =>
      if negb (ed_PolicyForm d =? PolicyCapabilityDefault) || negb (er_Generated route) ||
         negb (er_Action route =? RouteSend)
      then inl ("", "capability-default compatibility route is incomplete")
      else match available_names families with
           | [] => inl ("", "capability-default compatibility route has no available span families")
           | names => inr (with_routes [with_event_names names route] d)
           end
  | _, _ => inl ("", "capability-default compatibility route is incomplete")
  end.

Context {Settings : Type}.
(** The checks of headers and of signal overrides, the transport compiler and
    the compatibility profiles of a destination. *)
Variable headers_error : DestinationSource Settings -> string -> option Error.
Variable compileTransport : DestinationSource Settings -> list string -> string -> Error + TransportPlan.
Variable overrides_error : DestinationSource Settings -> list string -> string -> option Error.
Variable destinationCompatibility : EffectiveDestination -> Error + list (string * list SpanFamily).
Variable galileoCompatibilityProfile : string.

(** The switch on the policy form: the form, the routes and how many of them
    are explicit. *)
Definition compile_policy (source : DestinationSource Settings) (path : string) (capabilities : list string)
    (buckets : list EffectiveBucket) (known : gset string) : Error + (string * list EffectiveRoute * Z) :=
  match ds_Send source, ds_Routes source with
  | Some send, _ =>
      match compileConciseSend send (path ++ ".send") capabilities buckets known with
      | inl e => inl e
      | inr route => inr (PolicyConciseSend, [route], 0%Z)
      end
  | None, Some [] => inl (path ++ ".routes", "must not be empty")
  | None, Some routes =>
      if (MaxRoutesPerDestination <? zlen routes)%Z then inl (path ++ ".routes", "maximum")
      else match compileAdvancedRoutes (path ++ ".routes") capabilities buckets known [] 0 routes with
           | inl e => inl e
           | inr compiled => inr (PolicyAdvancedRoutes, compiled, zlen routes)
           end
  | None, None => inr (PolicyCapabilityDefault, [compileCapabilityRoute capabilities buckets], 0%Z)
  end.

Definition compileDestination (source : DestinationSource Settings) (path : string)
    (buckets : list EffectiveBucket) (known : gset string) : Error + (EffectiveDestination * Z) :=
  if negb (StableName (ds_Name source)) then inl (path ++ ".name", "must be a stable lower-case identifier")
  else if ds_Name source =? LocalDestinationName then inl (path ++ ".name", "reserved for the generated local store")
  else if ds_Name source =? ManagedAIDDestinationName
  then inl (path ++ ".name", "reserved for the generated managed-enterprise sink")
  else match capabilities_of (ds_Kind source) (ds_Preset source) with
  | inl e => inl (path, snd e)
  | inr capabilities =>
  if bool_decide (is_Some (ds_Send source)) && bool_decide (is_Some (ds_Routes source))
  then inl (path, "send and routes are mutually exclusive")
  else if (MaxMappingEntries <? ds_HeaderCount source)%Z then inl (path ++ ".headers", "too many entries")
  else if (zlen Signals <? ds_OverrideCount source)%Z then inl (path ++ ".signal_overrides", "too many entries")
  else match headers_error source (path ++ ".headers") with
  | Some e => inl e
  | None =>
  match compile_policy source path capabilities buckets known with
  | inl e => inl e
  | inr (form, routes, explicitRoutes) =>
  let selected := unionRouteSignals routes in
  match compileTransport source selected path with
  | inl e => inl e
  | inr transport =>
  match overrides_error source selected (path ++ ".signal_overrides") with
  | Some e => inl e
  | None =>
  let reload := if ds_Kind source =? DestinationPrometheus then RestartRequired else LiveReloadable in
  let galileo := ds_Preset source =? "galileo" in
  let result compatibility :=
    mkDestination (ds_Name source) (ds_Kind source) (default true (ds_Enabled source)) false (ds_Preset source)
      (if galileo then galileoCompatibilityProfile else "") compatibility capabilities selected form true
      reload reload routes transport "" in
  match destinationCompatibility (result []) with
  | inl e => inl (path, snd e)
  | inr compatibility =>
      if galileo && (form =? PolicyCapabilityDefault) then
        match constrainCapabilityRoute (result compatibility) with
        | inl e => inl (path, snd e)
        | inr d => inr (d, explicitRoutes)
        end
      else inr (result compatibility, explicitRoutes)
  end end end end end end.

(** The loop over the destinations of the source. *)
Fixpoint compile_destinations (buckets : list EffectiveBucket) (known : gset string) (index : nat)
    (seen : list string) (totalRoutes : Z) (source : list (DestinationSource Settings)) :
    Error + list EffectiveDestination :=
  match source with
  | [] => inr []
  | d :: r =>
      let path := "observability.destinations[" ++ pretty index ++ "]" in
      match compileDestination d path buckets known with
      | inl e => inl e
      | inr (compiled, explicitRoutes) =>
          if bool_decide (ed_Name compiled ∈ seen)
          then inl (path ++ ".name", "duplicate or reserved destination name")
          else if (MaxRoutesTotal <? totalRoutes + explicitRoutes)%Z
          then inl ("observability.destinations.routes", "too many explicit advanced routes")
          else match compile_destinations buckets known (S index) (ed_Name compiled :: seen)
                       (totalRoutes + explicitRoutes) r with
               | inl e => inl e
               | inr ds => inr (compiled :: ds)
               end
      end
  end.

(** ** Redaction profiles *)

Definition DetectorPII : string := "pii".
Definition DetectorCredentials : string := "credentials".
Definition DetectorSecrets : string := "secrets".

Definition field_modes (cells : list (string * string)) : gmap string string := list_to_map cells.

Definition sensitive_modes : gmap string string :=
  field_modes [(FieldClassMetadata, ModePreserve); (FieldClassIdentifier, ModePreserve);
    (FieldClassContent, ModeDetect); (FieldClassReason, ModeDetect); (FieldClassEvidence, ModeDetect);
    (FieldClassError, ModeDetect); (FieldClassPath, ModeHash); (FieldClassCredential, ModeRemove)].

Definition content_modes : gmap string string :=
  foldl (fun m c => <[c := ModeWhole]> m) sensitive_modes
    [FieldClassContent; FieldClassReason; FieldClassEvidence; FieldClassError].

Definition all_modes (first second rest : string) : gmap string string :=
  field_modes [(FieldClassMetadata, first); (FieldClassIdentifier, second);
    (FieldClassContent, rest); (FieldClassReason, rest); (FieldClassEvidence, rest);
    (FieldClassError, rest); (FieldClassPath, rest); (FieldClassCredential, rest)].

Definition config_builtins : list (string * EffectiveProfile) :=
  let allDetectors := [DetectorPII; DetectorCredentials; DetectorSecrets] in
  [("none", mkEffectiveProfile "none" true "" [] (all_modes ModePreserve ModePreserve ModePreserve));
   ("sensitive", mkEffectiveProfile "sensitive" true "" allDetectors sensitive_modes);
   ("content", mkEffectiveProfile "content" true "" allDetectors content_modes);
   ("strict", mkEffectiveProfile "strict" true "" allDetectors (all_modes ModePreserve ModePreserve ModeRemove));
   ("legacy-v7", mkEffectiveProfile "legacy-v7" true "" [] (all_modes ModePreserve ModeWhole ModeWhole))].

Definition config_builtin (n : string) : option EffectiveProfile :=
  snd <$> find (fun kv => fst kv =? n) config_builtins.

Fixpoint detector_groups_error (path : string) (seen grps : list string) : option Error :=
  match grps with
  | [] => None
  | g :: r =>
      if negb (existsb (String.eqb g) [DetectorPII; DetectorCredentials; DetectorSecrets])
      then Some (path, "unknown group")
      else if bool_decide (g ∈ seen) then Some (path, "duplicate group")
      else detector_groups_error path (g :: seen) r
  end.

Definition isFieldMode (mode : string) : bool :=
  existsb (String.eqb mode) [ModePreserve; ModeDetect; ModeWhole; ModeHash; ModeRemove].

(** The body of the loop of [validateObservabilityV8ProfileStrength]. *)
Definition strength_error (detectors : list string) (cell : string * string) : option Error :=
  let '(class, mode) := cell in
  let fixed := (class =? FieldClassMetadata) || (class =? FieldClassIdentifier) in
  if fixed && negb (mode =? ModePreserve) then Some ("", "field class must use preserve")
  else if (mode =? ModePreserve) && negb fixed then Some ("", "field class cannot use preserve")
  else if (class =? FieldClassCredential) && negb (mode =? ModeRemove) && negb (mode =? ModeWhole)
  then Some ("", "credential may use only remove or whole")
  else if (mode =? ModeDetect) && (length detectors =? 0)%nat
  then Some ("", "detect requires at least one detector group")
  else None.

Definition validateProfileStrength (p : EffectiveProfile) : option Error :=
  first_error (strength_error (ep_Detectors p) <$> map_to_list (ep_FieldClasses p)).

Definition mode_override_error (path : string) (cell : string * string) : option Error :=
  if negb (IsFieldClass (fst cell)) then Some (path ++ ".field_classes", "unknown class")
  else if negb (isFieldMode (snd cell)) then Some (path ++ ".field_classes." ++ fst cell, "unknown mode")
  else None.

(** The body of the loop over the sorted names. *)
Definition compile_profile (n : string) (source : ProfileSource) : Error + EffectiveProfile :=
  let path := "observability.redaction_profiles." ++ n in
  match config_builtin (ps_Extends source) with
  | None => inl (path ++ ".extends", "expected sensitive, content, or strict")
  | Some base =>
      if (ps_Extends source =? "none") || (ps_Extends source =? "legacy-v7")
      then inl (path ++ ".extends", "expected sensitive, content, or strict")
      else if bool_decide (ps_Detectors source = Some [])
      then inl (path ++ ".detectors", "explicit list must not be empty")
      else
        let detectors := default (ep_Detectors base) (ps_Detectors source) in
        match detector_groups_error (path ++ ".detectors") [] detectors with
        | Some e => inl e
        | None =>
            match first_error (mode_override_error path <$> map_to_list (ps_FieldClasses source)) with
            | Some e => inl e
            | None =>
                let p := mkEffectiveProfile n false (ps_Extends source) detectors
                           (ps_FieldClasses source ∪ ep_FieldClasses base) in
                match validateProfileStrength p with
                | Some e => inl (path, snd e)
                | None => inr p
                end
            end
        end
  end.

Fixpoint compile_profiles (source : gmap string ProfileSource) (names : list string) : Error + list EffectiveProfile :=
  match names with
  | [] => inr []
  | n :: r =>
      match compile_profile n (default {| ps_Extends := ""; ps_Detectors := None; ps_FieldClasses := ∅ |} (source !! n)) with
      | inl e => inl e
      | inr p => match compile_profiles source r with inl e => inl e | inr ps => inr (p :: ps) end
      end
  end.

Definition profile_name_error (n : string) : option Error :=
  if negb (StableName n) then Some ("observability.redaction_profiles", "not a stable lower-case identifier")
  else match config_builtin n with
       | Some _ => Some ("observability.redaction_profiles." ++ n, "built-in profile name is reserved")
       | None => None
       end.

Definition known_profiles (source : gmap string ProfileSource) : gset string :=
  list_to_set (fst <$> config_builtins) ∪ dom source.

Definition compileProfiles (source : gmap string ProfileSource) : Error + (list EffectiveProfile * gset string) :=
  match first_error (profile_name_error <$> (fst <$> map_to_list source)) with
  | Some e => inl e
  | None =>
      match compile_profiles source (merge_sort string_le (fst <$> map_to_list source)) with
      | inl e => inl e
      | inr ps => inr (((snd <$> config_builtins) ++ ps)%list, known_profiles source)
      end
  end.

(** ** The plan *)

(** [completeProvenance], [maskEndpoint] and [plan_digest] stand for the provenance
    of the leaves, the masking of URLs, and the SHA-256 of the encoded plan. *)
Variable completeProvenance : EffectivePlan -> option (list (string * string * string)).
Variable maskEndpoint : string -> string.
Variable plan_digest : EffectivePlan -> string.

Definition mask_header (v : HeaderValue) : HeaderValue :=
  match v with StaticHeader _ => StaticHeader "[REDACTED]" | EnvironmentHeader env => EnvironmentHeader env end.

Definition mask_transport (t : TransportPlan) : TransportPlan :=
  mkTransport (TransportPath t) (Listen t) (maskEndpoint (Endpoint t)) (Protocol t) (Method t) (mask_header <$> Headers t)
    (TokenEnv t) (BearerEnv t) (LoggerName t) (TimeoutMS t) (BatchPlan t).

Definition mask_destination (d : EffectiveDestination) : EffectiveDestination :=
  mkDestination (ed_Name d) (ed_Kind d) (ed_Enabled d) (ed_Generated d) (ed_Preset d) (ed_PresetProfile d)
    (ed_CompatibilityProfiles d) (ed_Capabilities d) (ed_SelectedSignals d) (ed_PolicyForm d)
    (ed_FirstMatchPerSignal d) (ed_ReloadPolicy d) (ed_ReloadTransport d) (ed_Routes d)
    (mask_transport (ed_Transport d)) (ed_SourceContentHash d).

Definition with_destinations (ds : list EffectiveDestination) (e : EffectivePlan) : EffectivePlan :=
  mkEffectivePlan (pl_BucketCatalogVersion e) (pl_Local e) (pl_Buckets e) (pl_Profiles e) ds (pl_Provenance e).

Definition with_provenance (ps : list (string * string * string)) (e : EffectivePlan) : EffectivePlan :=
  mkEffectivePlan (pl_BucketCatalogVersion e) (pl_Local e) (pl_Buckets e) (pl_Profiles e) (pl_Destinations e) ps.

Definition maskEffectivePlan (e : EffectivePlan) : EffectivePlan :=
  with_destinations (mask_destination <$> pl_Destinations e) e.

Definition newPlan (e : EffectivePlan) : Error + Plan :=
  match completeProvenance e with
  | None => inl ("", "marshal effective plan for provenance")
  | Some provenance =>
      let e := with_provenance provenance e in
      let display := maskEffectivePlan e in
      inr (mkPlan e display (plan_digest (with_provenance [] display)))
  end.

(** [Snapshot]: the masked plan. *)
Definition Snapshot (p : Plan) : EffectivePlan := display p.

(** The remaining sections: the semantic lock, the trace and metric policies and
    the resource attributes, in their order around the local section. *)
Variable semanticLock_error traceMetric_error resource_error : PlanSource Settings -> option Error.
Variable sourceProvenance : PlanSource Settings -> list EffectiveBucket -> list EffectiveDestination ->
  list (string * string * string).

Definition empty_source : PlanSource Settings :=
  mkPlanSource _ None {| bp_Collect := {| cs_Logs := None; cs_Traces := None; cs_Metrics := None |};
                         bp_RedactionProfile := "" |} ∅ ∅ 0
    {| ls_Path := ""; ls_JudgeBodiesPath := ""; ls_RetentionDays := None |} [].

Definition CompileObservabilityV8 (given : option (PlanSource Settings)) : Error + Plan :=
  let source := default empty_source given in
  match semanticLock_error source with
  | Some e => inl e
  | None =>
  if (MaxSourceDestinations <? zlen (src_Destinations source))%Z then inl ("observability.destinations", "maximum")
  else if (MaxRedactionProfiles <? Z.of_nat (size (src_RedactionProfiles source)))%Z
  then inl ("observability.redaction_profiles", "maximum")
  else if (MaxMappingEntries <? src_ConnectorCount source)%Z then inl ("observability.connectors", "maximum")
  else match compileCatalogVersion (src_BucketCatalogVersion source) with
  | inl e => inl e
  | inr version =>
  match compileProfiles (src_RedactionProfiles source) with
  | inl e => inl e
  | inr (profiles, known) =>
  match compileBuckets (src_Defaults source) (src_Buckets source) known with
  | inl e => inl e
  | inr buckets =>
  match traceMetric_error source with
  | Some e => inl e
  | None =>
  match compileLocal (src_Local source) with
  | inl e => inl e
  | inr local =>
  match resource_error source with
  | Some e => inl e
  | None =>
  match compile_destinations buckets known 0 [LocalDestinationName] 0 (src_Destinations source) with
  | inl e => inl e
  | inr compiled =>
      let destinations := compileLocalDestination buckets local :: compiled in
      newPlan (mkEffectivePlan version local buckets profiles destinations
                 (sourceProvenance source buckets destinations))
  end end end end end end end end.
End Compile.
