(* ===== verification/PlanFacts.v ===== *)
(** * What a compiled plan guarantees

    The invariant of the plans that [CompileObservabilityV8] accepts: the buckets
    are the catalog, every route is in its place, names are unique, wildcards are
    expanded, and every route that sends content has a known redaction profile
    for each of its buckets. *)
From stdpp Require Import base list gmap strings sorting.
From Stdlib Require Import ZArith Lia Ascii.
From S2P Require Import Prelude GoStrings Taxonomy RedactionProfile RoutingPlan.

Local Open Scope string_scope.

(** ** Lookups *)

Lemma foldl_insert_elem {A V} (key : A -> string) (val : A -> V) (l : list A) (m : gmap string V) k :
  k ∈ key <$> l ->
  exists a, a ∈ l /\ key a = k /\ foldl (fun m a => <[key a := val a]> m) m l !! k = Some (val a).
Proof.
  induction l as [|a l IH] using rev_ind; [by intros ?%elem_of_nil|].
  rewrite fmap_app, foldl_app. cbn [foldl]. intros Hk.
  destruct (decide (key a = k)) as [<-|Hne].
  - exists a. rewrite lookup_insert_eq. split_and!; [set_solver|done..].
  - destruct IH as (x & Hx & E & Hl); [set_solver|]. exists x. rewrite lookup_insert_ne by done. set_solver.
Qed.

Lemma first_error_None {E} (l : list (option E)) : first_error l = None <-> Forall (fun o => o = None) l.
Proof.
  unfold first_error. induction l as [|[e|] l IH]; cbn; [done| |].
  - split; [done|]. by intros [? _]%Forall_cons_1.
  - cbn in IH. rewrite IH. split; [by constructor|]. by intros [_ ?]%Forall_cons_1.
Qed.

(** ** The invariant *)

Definition route_ok (known : gset string) (r : EffectiveRoute) : Prop :=
  (er_Action r = RouteSend \/ er_Action r = RouteDrop) /\
  (es_BucketWildcard (er_Selector r) = true -> es_Buckets (er_Selector r) = Buckets) /\
  es_Buckets (er_Selector r) <> [] /\
  Forall (fun b => b ∈ Buckets) (es_Buckets (er_Selector r)) /\
  (er_Action r = RouteSend -> HasContentSignal (er_Signals r) = true ->
   forall b, b ∈ es_Buckets (er_Selector r) ->
     exists p, er_RedactionProfileByBucket r !! b = Some p /\ p ∈ known).

Definition routes_in_order (routes : list EffectiveRoute) : Prop :=
  forall i r, routes !! i = Some r -> er_Index r = Z.of_nat i.

Definition destination_ok (known : gset string) (d : EffectiveDestination) : Prop :=
  ed_FirstMatchPerSignal d = true /\ routes_in_order (ed_Routes d) /\ Forall (route_ok known) (ed_Routes d).

(** A destination of the configuration, as opposed to a generated one. *)
Definition configured (d : EffectiveDestination) : Prop :=
  ed_Kind d <> DestinationLocalSQLite /\ ed_Name d <> LocalDestinationName /\
  ed_Name d <> ManagedAIDDestinationName /\ ed_Name d <> "".

Definition buckets_ok (known : gset string) (bs : list EffectiveBucket) : Prop :=
  BucketIDs bs = Buckets /\ Forall (fun b => eb_RedactionProfile b ∈ known) bs.

Definition base_plan (known : gset string) (e : EffectivePlan) : Prop :=
  pl_BucketCatalogVersion e = 1%Z /\ buckets_ok known (pl_Buckets e) /\
  exists rest, pl_Destinations e = compileLocalDestination (pl_Buckets e) (pl_Local e) :: rest /\
    Forall configured rest /\ Forall (destination_ok known) rest /\ NoDup (ed_Name <$> rest).

(** ** Buckets and profiles *)

Lemma policy_map_lookup known bs b :
  buckets_ok known bs -> b ∈ Buckets -> exists p, policy_map bs !! b = Some p /\ p ∈ known.
Proof.
  intros [Hids Hk] Hb. rewrite <-Hids in Hb.
  destruct (foldl_insert_elem eb_Bucket eb_RedactionProfile bs ∅ b Hb) as (a & Ha & _ & Hl).
  exists (eb_RedactionProfile a). split; [done|]. rewrite Forall_forall in Hk. by apply Hk.
Qed.

Lemma RouteProfiles_lookup known bs selected explicit b :
  buckets_ok known bs -> explicit = "" \/ explicit ∈ known -> b ∈ selected -> b ∈ Buckets ->
  exists p, RouteProfiles selected explicit bs !! b = Some p /\ p ∈ known.
Proof.
  intros Hbs He Hb Hc. destruct (policy_map_lookup _ _ _ Hbs Hc) as (p & Hp & Hk).
  destruct (foldl_insert_elem id (fun bucket => if explicit =? "" then default "" (policy_map bs !! bucket) else explicit)
    selected ∅ b) as (a & _ & E & Hl); [by rewrite list_fmap_id|].
  unfold id in E. subst a. unfold RouteProfiles. eexists. split; [exact Hl|].
  destruct (String.eqb_spec explicit ""); [by rewrite Hp|by destruct He].
Qed.

Lemma compileBuckets_ok defaults overrides known bs :
  DefaultRedactionProfile ∈ known -> compileBuckets defaults overrides known = inr bs -> buckets_ok known bs.
Proof.
  unfold compileBuckets. intros Hdef H. case_match; [done|].
  destruct (negb (bp_RedactionProfile defaults =? "") && _) eqn:Hd; [done|].
  destruct (first_error _) eqn:He; [done|].
  assert (bs = compile_bucket defaults overrides <$> Buckets) as -> by congruence. clear H.
  apply first_error_None in He. split.
  - unfold BucketIDs. rewrite <-list_fmap_compose. rewrite <-(list_fmap_id Buckets) at 2.
    apply list_fmap_ext. intros i b _. unfold compile_bucket. cbn. by case_match.
  - apply Forall_forall. intros x (b & -> & _)%list_elem_of_fmap.
    assert (Hp : (if negb (bp_RedactionProfile defaults =? "") then bp_RedactionProfile defaults
                  else DefaultRedactionProfile) ∈ known).
    { destruct (bp_RedactionProfile defaults =? ""); [done|]. cbn in Hd. by apply negb_false_iff, bool_decide_eq_true in Hd. }
    unfold compile_bucket. destruct (overrides !! b) as [o|] eqn:Ho; [|exact Hp]. cbn.
    destruct (bp_RedactionProfile o =? "") eqn:Eo; [exact Hp|]. cbn.
    rewrite Forall_fmap, Forall_forall in He.
    specialize (He (b, o) (proj2 (elem_of_map_to_list overrides b o) Ho)).
    unfold compose, override_error in He. rewrite Eo in He. destruct (IsBucket b); [|done].
    cbn [negb andb] in He. by case_bool_decide.
Qed.

(** ** Selectors and routes *)

Lemma bucket_loop_false total path source : forall seen,
  bucket_loop total path seen source = inr false -> Forall (fun b => b ∈ Buckets) source.
Proof.
  induction source as [|b r IH]; intros seen H; [constructor|]. cbn [bucket_loop] in H.
  destruct (b =? "*"); [by destruct (negb _)|].
  destruct (IsBucket b) eqn:Hb; [|done]. cbn [negb] in H. case_bool_decide; [done|].
  constructor; [by apply IsBucket_elem|by eapply IH].
Qed.

Lemma compileBucketSelector_ok source required path selected wildcard :
  compileBucketSelector source required path = inr (selected, wildcard) ->
  (wildcard = false -> source <> None -> selected <> []) /\ Forall (fun b => b ∈ Buckets) selected.
Proof.
  unfold compileBucketSelector. destruct source as [[|b r]|]; [done| |destruct required; [done|by intros [= <- <-]]].
  destruct (bucket_loop _ _ _ _) as [|[]] eqn:E; [done| |]; intros [= <- <-].
  - by split.
  - split; [done|]. by eapply bucket_loop_false.
Qed.

Lemma validateRouteProfile_ok profile signals action known path :
  validateRouteProfile profile signals action known path = None -> profile = "" \/ profile ∈ known.
Proof.
  unfold validateRouteProfile. destruct (String.eqb_spec profile ""); [by left|]. case_match; [done|].
  case_bool_decide; [by right|done].
Qed.

Lemma Buckets_all : Forall (fun b => b ∈ Buckets) Buckets.
Proof. by apply Forall_forall. Qed.

(** The shape shared by the three kinds of routes. *)
Lemma send_route_ok known bs index name generated signals selected wildcard sources connectors actions names minimum
    explicit action floor :
  buckets_ok known bs -> explicit = "" \/ explicit ∈ known -> action = RouteSend \/ action = RouteDrop ->
  (wildcard = true -> selected = Buckets) -> selected <> [] -> Forall (fun b => b ∈ Buckets) selected ->
  route_ok known (mkRoute index name generated signals
    (mkEffectiveSelector selected wildcard sources connectors actions names minimum) action
    (if (action =? RouteSend) && HasContentSignal signals then RouteProfiles selected explicit bs else ∅) floor).
Proof.
  intros Hbs He Ha Hw Hne Hin. split_and!; try done. intros Ea Hc b Hb.
  cbn [er_Action er_Signals er_Selector es_Buckets er_RedactionProfileByBucket] in *.
  rewrite Hc, Ea, String.eqb_refl. cbn [andb].
  apply RouteProfiles_lookup; try done. rewrite Forall_forall in Hin. by apply Hin.
Qed.

Lemma compileCapabilityRoute_ok known bs capabilities :
  buckets_ok known bs -> route_ok known (compileCapabilityRoute capabilities bs).
Proof.
  intros Hbs. pose proof (proj1 Hbs) as Hids. unfold compileCapabilityRoute. rewrite Hids.
  apply (send_route_ok known bs 0 "capability-default" true capabilities Buckets true [] [] [] [] "" "" RouteSend false);
    auto using Buckets_all.
Qed.

Lemma compileConciseSend_ok known bs source path capabilities r :
  buckets_ok known bs -> compileConciseSend source path capabilities bs known = inr r ->
  route_ok known r /\ er_Index r = 0%Z.
Proof.
  intros Hbs H. unfold compileConciseSend in H. destruct (validateSignals _ _ _) as [|signals]; [done|].
  destruct (compileBucketSelector _ _ _) as [|[selected wildcard]] eqn:Hs; [done|].
  destruct (validateRouteProfile _ _ _ _ _) eqn:Hp; [done|]. injection H as <-. split; [|done].
  apply compileBucketSelector_ok in Hs as [Hne Hin]. apply validateRouteProfile_ok in Hp.
  pose proof (proj1 Hbs) as Hids. rewrite Hids.
  apply (send_route_ok known bs 0 "send" true signals (if wildcard then Buckets else selected) wildcard [] [] [] [] ""
    (ss_RedactionProfile source) RouteSend false); auto; destruct wildcard; auto using Buckets_all; done.
Qed.

Section Routes.
Context (registered_action registered_name : string -> bool).

Lemma compileSelector_ok known bs source path s :
  buckets_ok known bs -> compileSelector registered_action registered_name source path bs = inr s ->
  (es_BucketWildcard s = true -> es_Buckets s = Buckets) /\ es_Buckets s <> [] /\
  Forall (fun b => b ∈ Buckets) (es_Buckets s).
Proof.
  intros [Hids _] H. unfold compileSelector in H.
  destruct (compileBucketSelector _ _ _) as [|[selected wildcard]] eqn:Hs; [done|].
  cbv zeta in H. destruct (validateSelectorPresence _ _); [done|]. destruct (Selector_Validate _); [done|].
  destruct (first_error _); [done|]. injection H as <-.
  cbn [es_BucketWildcard es_Buckets]. rewrite Hids. apply compileBucketSelector_ok in Hs as [Hne Hin].
  case_bool_decide as Hn; destruct wildcard; cbn [orb]; split_and!; auto using Buckets_all; done.
Qed.

Lemma compile_route_ok known bs path capabilities seen index source r :
  buckets_ok known bs ->
  compile_route registered_action registered_name path capabilities bs known seen index source = inr r ->
  route_ok known r /\ er_Index r = Z.of_nat index /\ er_IncludesMandatoryFloor r = false.
Proof.
  intros Hbs H. unfold compile_route in H. cbv zeta in H.
  destruct (negb (StableName _)); [done|]. case_bool_decide; [done|].
  destruct (validateSignals _ _ _) as [|signals]; [done|].
  set (action := if rs_Action source =? "" then RouteSend else rs_Action source) in *.
  destruct (negb (action =? RouteSend) && negb (action =? RouteDrop)) eqn:Ha; [done|].
  destruct (validateRouteProfile _ _ _ _ _) eqn:Hp; [done|]. destruct (rs_Selector source); [|done].
  destruct (RoutingPlan.compileSelector _ _ _ _ _) as [|sel] eqn:Hs; [done|]. injection H as <-.
  split; [|done]. apply (compileSelector_ok known) in Hs as (Hw & Hne & Hin); [|done].
  apply validateRouteProfile_ok in Hp. destruct sel.
  apply send_route_ok; try done. bool_facts.
  apply andb_false_iff in Ha as [Ha|Ha]; apply negb_false_iff, String.eqb_eq in Ha; auto.
Qed.

Lemma compileAdvancedRoutes_ok known bs path capabilities source : forall seen index rs,
  buckets_ok known bs ->
  compileAdvancedRoutes registered_action registered_name path capabilities bs known seen index source = inr rs ->
  Forall (route_ok known) rs /\ forall i r, rs !! i = Some r -> er_Index r = Z.of_nat (index + i).
Proof.
  induction source as [|x source IH]; intros seen index rs Hbs H; cbn [compileAdvancedRoutes] in H.
  { injection H as <-. split; [constructor|]. intros i r Hi. by rewrite lookup_nil in Hi. }
  destruct (compile_route _ _ _ _ _ _ _ _ _) as [|r] eqn:Hr; [done|].
  destruct (compileAdvancedRoutes _ _ _ _ _ _ _ _ _) as [|rest] eqn:Hrest; [done|]. injection H as <-.
  apply (compile_route_ok known) in Hr as (Hok & Hi & _); [|done].
  apply IH in Hrest as [Hall Hix]; [|done]. split; [by constructor|].
  intros [|i] r' Hl; cbn in Hl; [injection Hl as <-; rewrite Hi; f_equal; lia|].
  apply Hix in Hl. rewrite Hl. f_equal. lia.
Qed.

(** ** Destinations *)

Context {Settings : Type}.
Context (headers_error : DestinationSource Settings -> string -> option Error).
Context (compileTransport : DestinationSource Settings -> list string -> string -> Error + TransportPlan).
Context (overrides_error : DestinationSource Settings -> list string -> string -> option Error).
Context (destinationCompatibility : EffectiveDestination -> Error + list (string * list SpanFamily)).
Context (galileoCompatibilityProfile : string).

Notation compile_policy := (compile_policy registered_action registered_name).
Notation compileDestination := (compileDestination registered_action registered_name headers_error compileTransport
  overrides_error destinationCompatibility galileoCompatibilityProfile).
Notation compile_destinations := (compile_destinations registered_action registered_name headers_error
  compileTransport overrides_error destinationCompatibility galileoCompatibilityProfile).

Lemma singleton_order r : er_Index r = 0%Z -> routes_in_order [r].
Proof. by intros H i r' [-> ->]%list_lookup_singleton_Some. Qed.

Lemma compile_policy_ok known bs (source : DestinationSource Settings) path capabilities form rs n :
  buckets_ok known bs -> compile_policy source path capabilities bs known = inr (form, rs, n) ->
  Forall (route_ok known) rs /\ routes_in_order rs.
Proof.
  intros Hbs H. unfold RoutingPlan.compile_policy in H. destruct (ds_Send source) as [send|].
  - destruct (compileConciseSend _ _ _ _ _) as [|r] eqn:Hr; [done|]. injection H as <- <- <-.
    apply (compileConciseSend_ok known) in Hr as [Hok Hi]; [|done]. split; [by constructor|by apply singleton_order].
  - destruct (ds_Routes source) as [routes|].
    + destruct routes as [|x routes]; [done|]. destruct (_ <? _)%Z; [done|].
      destruct (compileAdvancedRoutes _ _ _ _ _ _ _ _ _) as [|compiled] eqn:Hr; [done|]. injection H as <- <- <-.
      by apply (compileAdvancedRoutes_ok known) in Hr.
    + injection H as <- <- <-. split; [|by apply singleton_order].
      constructor; [by apply compileCapabilityRoute_ok|constructor].
Qed.

Lemma constrain_ok known d d' :
  destination_ok known d -> constrainCapabilityRoute d = inr d' ->
  destination_ok known d' /\ ed_Name d' = ed_Name d /\ ed_Kind d' = ed_Kind d.
Proof.
  intros (Hf & Ho & Hr) H. unfold constrainCapabilityRoute in H.
  destruct (ed_Routes d) as [|r [|]] eqn:Er; [done| |done].
  destruct (ed_CompatibilityProfiles d) as [|[? families] [|]]; [done| |done].
  destruct (_ || _); [done|]. destruct (available_names families); [done|]. injection H as <-.
  split; [|done]. split_and!; [done| |].
  - apply singleton_order. exact (Ho 0%nat r eq_refl).
  - apply Forall_cons_1 in Hr as [Hr _]. apply Forall_singleton. exact Hr.
Qed.

Lemma compileDestination_ok known bs source path d n :
  buckets_ok known bs -> compileDestination source path bs known = inr (d, n) ->
  configured d /\ destination_ok known d.
Proof.
  intros Hbs H. unfold RoutingPlan.compileDestination in H. cbv zeta in H.
  destruct (StableName (ds_Name source)) eqn:Hname; [|done]. cbn [negb] in H.
  destruct (String.eqb_spec (ds_Name source) LocalDestinationName) as [|Hl]; [done|].
  destruct (String.eqb_spec (ds_Name source) ManagedAIDDestinationName) as [|Hm]; [done|].
  destruct (capabilities_of _ _) as [|capabilities] eqn:Hc; [done|].
  destruct (_ && _); [done|]. destruct (_ <? _)%Z; [done|]. destruct (_ <? _)%Z; [done|].
  destruct (headers_error _ _); [done|].
  destruct (compile_policy _ _ _ _ _) as [|[[form rs] explicit]] eqn:Hp; [done|].
  destruct (compileTransport _ _ _); [done|]. destruct (overrides_error _ _ _); [done|].
  destruct (destinationCompatibility _); [done|].
  apply (compile_policy_ok known) in Hp as [Hr Ho]; [|done].
  assert (Hk : ds_Kind source <> DestinationLocalSQLite).
  { intros E. unfold capabilities_of in Hc. rewrite E in Hc. by repeat case_match. }
  assert (Hne : ds_Name source <> "") by (intros E; by rewrite E in Hname).
  destruct (_ && _).
  - destruct (constrainCapabilityRoute _) as [|d'] eqn:Hd; [done|]. injection H as <- <-.
    apply (constrain_ok known) in Hd as (Hok & En & Ek); [|by split_and!]. split; [|done].
    unfold configured. rewrite En, Ek. by split_and!.
  - injection H as <- <-. by split_and!.
Qed.

Lemma compile_destinations_ok known bs source : forall index seen total ds,
  buckets_ok known bs -> compile_destinations bs known index seen total source = inr ds ->
  Forall configured ds /\ Forall (destination_ok known) ds /\ NoDup (ed_Name <$> ds) /\
  Forall (fun d => ed_Name d ∉ seen) ds.
Proof.
  induction source as [|x source IH]; intros index seen total ds Hbs H; cbn [RoutingPlan.compile_destinations] in H.
  { injection H as <-. split_and!; constructor. }
  destruct (compileDestination _ _ _ _) as [|[d n]] eqn:Hd; [done|].
  case_bool_decide as Hs; [done|]. destruct (_ <? _)%Z; [done|].
  destruct (compile_destinations _ _ _ _ _ _) as [|rest] eqn:Hr; [done|]. injection H as <-.
  apply (compileDestination_ok known) in Hd as [Hc Ho]; [|done].
  apply IH in Hr as (Hcs & Hos & Hn & Hseen); [|done]. split_and!; try by constructor.
  - cbn. constructor; [|done]. intros (y & Ey & Hy)%list_elem_of_fmap.
    rewrite Forall_forall in Hseen. apply Hseen in Hy. set_solver.
  - constructor; [done|]. eapply Forall_impl; [exact Hseen|]. set_solver.
Qed.
End Routes.

(** ** Profiles *)

Lemma compile_profile_name n source p : compile_profile n source = inr p -> ep_Name p = n.
Proof.
  unfold compile_profile. cbv zeta. intros H. destruct (config_builtin _); [|done]. destruct (_ || _); [done|].
  case_bool_decide; [done|]. destruct (detector_groups_error _ _ _); [done|]. destruct (first_error _); [done|].
  destruct (validateProfileStrength _); [done|]. by injection H as <-.
Qed.

Lemma compile_profiles_names source names : forall ps,
  compile_profiles source names = inr ps -> ep_Name <$> ps = names.
Proof.
  induction names as [|n names IH]; intros ps H; cbn [compile_profiles] in H; [by injection H as <-|].
  destruct (compile_profile _ _) as [|p] eqn:Hp; [done|].
  destruct (compile_profiles _ _) as [|rest] eqn:Hr; [done|]. injection H as <-.
  cbn. f_equal; [by eapply compile_profile_name|by apply IH].
Qed.

Lemma known_nonempty source :
  first_error (profile_name_error <$> (fst <$> map_to_list source)) = None -> "" ∉ known_profiles source.
Proof.
  intros He [Hin|Hin]%elem_of_union.
  - apply elem_of_list_to_set in Hin. revert Hin. apply (bool_decide_unpack (¬ _)). vm_compute. exact I.
  - apply first_error_None in He. rewrite !Forall_fmap, Forall_forall in He.
    apply elem_of_dom in Hin as [p Hp]. by specialize (He ("", p) (proj2 (elem_of_map_to_list source _ p) Hp)).
Qed.

Lemma compileProfiles_known source ps known :
  compileProfiles source = inr (ps, known) ->
  known = known_profiles source /\ DefaultRedactionProfile ∈ known /\ "" ∉ known /\
  forall n, n ∈ known <-> n ∈ ep_Name <$> ps.
Proof.
  unfold compileProfiles. intros H. destruct (first_error _) eqn:He; [done|].
  destruct (compile_profiles _ _) as [|rest] eqn:Hr; [done|].
  assert (ps = ((snd <$> config_builtins) ++ rest)%list /\ known = known_profiles source) as [-> ->] by (by simplify_eq).
  apply compile_profiles_names in Hr. split_and!; [done| |by apply known_nonempty|].
  - apply elem_of_union_l, elem_of_list_to_set. vm_compute. constructor.
  - intros n. rewrite fmap_app, elem_of_app, Hr, merge_sort_Permutation. unfold known_profiles.
    assert (Hd : n ∈ dom source <-> n ∈ fst <$> map_to_list source).
    { rewrite elem_of_dom, list_elem_of_fmap. split.
      - intros [p Hp]. exists (n, p). split; [done|by apply elem_of_map_to_list].
      - intros ([m p] & -> & Hp). exists p. by apply elem_of_map_to_list in Hp. }
    by rewrite elem_of_union, elem_of_list_to_set, Hd.
Qed.

(** ** Plans *)

Section Compiled.
Context (registered_action registered_name : string -> bool) {Settings : Type}.
Context (headers_error : DestinationSource Settings -> string -> option Error).
Context (compileTransport : DestinationSource Settings -> list string -> string -> Error + TransportPlan).
Context (overrides_error : DestinationSource Settings -> list string -> string -> option Error).
Context (destinationCompatibility : EffectiveDestination -> Error + list (string * list SpanFamily)).
Context (galileoCompatibilityProfile : string).
Context (completeProvenance : EffectivePlan -> option (list (string * string * string))).
Context (maskEndpoint : string -> string).
Context (plan_digest : EffectivePlan -> string).
Context (semanticLock_error traceMetric_error resource_error : PlanSource Settings -> option Error).
Context (sourceProvenance : PlanSource Settings -> list EffectiveBucket -> list EffectiveDestination ->
  list (string * string * string)).

Notation Compile := (CompileObservabilityV8 registered_action registered_name headers_error compileTransport
  overrides_error destinationCompatibility galileoCompatibilityProfile completeProvenance maskEndpoint
  plan_digest semanticLock_error traceMetric_error resource_error sourceProvenance).

(** A plan whose masked view shows the same routing. *)
Definition masked (p : Plan) : Prop := display p = maskEffectivePlan maskEndpoint (effective p).

(** The profiles of a plan are the known ones, and all have a name. *)
Definition profiles_known (known : gset string) (e : EffectivePlan) : Prop :=
  "" ∉ known /\ forall n, n ∈ known <-> n ∈ ep_Name <$> pl_Profiles e.

Lemma newPlan_spec e p :
  newPlan completeProvenance maskEndpoint plan_digest e = inr p ->
  masked p /\ exists ps, effective p = with_provenance ps e.
Proof.
  unfold newPlan. destruct (completeProvenance e) as [ps|]; [|done]. intros [= <-]. split; [done|by exists ps].
Qed.

Lemma base_plan_provenance known ps e : base_plan known (with_provenance ps e) <-> base_plan known e.
Proof. done. Qed.

Lemma Compile_base_plan source p :
  Compile source = inr p ->
  let known := known_profiles (src_RedactionProfiles (default empty_source source)) in
  base_plan known (effective p) /\ profiles_known known (effective p) /\ masked p.
Proof.
  intros H. cbv zeta. unfold CompileObservabilityV8 in H. cbv zeta in H.
  set (src := default empty_source source) in *.
  destruct (semanticLock_error src); [done|]. destruct (_ <? _)%Z; [done|]. destruct (_ <? _)%Z; [done|].
  destruct (_ <? _)%Z; [done|]. destruct (compileCatalogVersion _) as [|version] eqn:Hv; [done|].
  destruct (compileProfiles _) as [|[profiles known]] eqn:Hp; [done|].
  destruct (compileBuckets _ _ _) as [|buckets] eqn:Hb; [done|].
  destruct (traceMetric_error src); [done|]. destruct (compileLocal _) as [|local]; [done|].
  destruct (resource_error src); [done|].
  destruct (compile_destinations _ _ _ _ _ _ _ _ _ _ _ _ _) as [|compiled] eqn:Hd; [done|].
  apply newPlan_spec in H as [Hm [ps He]].
  apply compileProfiles_known in Hp as (-> & Hdef & Hk).
  apply compileBuckets_ok in Hb; [|done]. apply (compile_destinations_ok _ _ _ _ _ _ _ _ _ _ _ _ _ _ Hb) in Hd as (? & ? & ? & _).
  rewrite He. split_and!; [|exact Hk|exact Hm]. split; [|split; [done|by eexists]].
  unfold compileCatalogVersion in Hv. cbn. destruct (src_BucketCatalogVersion src) as [v|]; [|by injection Hv as <-].
  destruct (Z.eqb_spec v BucketCatalogVersion); [|done]. by injection Hv as <-.
Qed.
End Compiled.
