(* ===== verification/ManagedPlan.v ===== *)
(** * The managed destination of a plan
    (internal/config/observability_v8_managed_destination.go)

    In a managed deployment the plan gets one release-owned destination for logs,
    the logs of two buckets are collected whatever the configuration says, and
    every other destination of logs gets a route in front of its own that drops
    the endpoint inventory.  Parameters: the URL parser, the test for Unicode
    white space, and those of the plan compiler. *)
From stdpp Require Import base list gmap strings.
From Stdlib Require Import ZArith Lia Ascii.
From S2P Require Import Prelude GoStrings Taxonomy RoutingPlan.

Local Open Scope string_scope.

Definition ManagedAIDIngestPath : string := "/api/v1/defenseclaw/events/ingest".
Definition ManagedAIDRedactionProfile : string := "sensitive".

Definition ManagedAgentInventoryAction : string := "managed_agent_inventory".
Definition ManagedConnectorInventoryAction : string := "managed_connector_inventory".
Definition ManagedMCPInventoryAction : string := "managed_mcp_inventory".
Definition ManagedSkillInventoryAction : string := "managed_skill_inventory".
Definition ManagedPluginInventoryAction : string := "managed_plugin_inventory".
Definition LocalInventoryDiagnosticAction : string := "local_inventory_diagnostic".

Definition ReservedActions : list string :=
  [ManagedAgentInventoryAction; ManagedConnectorInventoryAction; ManagedMCPInventoryAction;
   ManagedSkillInventoryAction; ManagedPluginInventoryAction; LocalInventoryDiagnosticAction].

Record ManagedAIDOptions := {
  DeploymentMode : string;
  opt_Endpoint : string;
  SourceContentHash : string;
}.

(** [net/url], as far as the code reads it. *)
Record ParsedURL := {
  u_Scheme : string;
  u_Opaque : string;
  u_Host : string;
  u_Hostname : string;
  u_Port : string;
  u_User : bool;
  u_Path : string;
  u_EscapedPath : string;
  u_RawPath : string;
  u_RawQuery : string;
  u_ForceQuery : bool;
  u_Fragment : string;
  u_RawFragment : string;
}.

(** [strconv.Atoi] on a port, which holds digits only. *)
Fixpoint decimal (acc : Z) (s : string) : option Z :=
  match s with
  | "" => Some acc
  | String c r => if byte_in 48 57 c then decimal (10 * acc + (Z.of_nat (byte_of c) - 48))%Z r else None
  end.

Definition validContentHash (value : string) : bool :=
  (slen value =? 64)%Z && sall (fun c => byte_in 48 57 c || byte_in 97 102 c) value.

Section Managed.
Context {U : GoUnicode}.
Variable url_Parse : string -> option ParsedURL.
Variable has_space : string -> bool.
Variable completeProvenance : EffectivePlan -> option (list (string * string * string)).
Variable maskEndpoint : string -> string.
Variable plan_digest : EffectivePlan -> string.

Definition IsManagedEnterprise (mode : string) : bool := EqualFold (TrimSpace mode) "managed_enterprise".

(** [observabilityV8ManagedAIDOrigin] *)
Definition ManagedAIDOrigin (raw : string) : option string :=
  if (raw =? "") || (2048 <? slen raw)%Z || negb (valid_utf8 raw) || has_space raw then None
  else match url_Parse raw with
  | None => None
  | Some u =>
      if negb (u_Scheme u =? "https") || negb (u_Opaque u =? "") || (u_Host u =? "") || (u_Hostname u =? "") ||
         u_User u || negb (u_RawQuery u =? "") || u_ForceQuery u || negb (u_Fragment u =? "") ||
         negb (u_RawFragment u =? "") || Contains raw "#" ||
         (negb (u_Path u =? "") && negb (u_Path u =? "/")) ||
         (negb (u_EscapedPath u =? "") && negb (u_EscapedPath u =? "/")) ||
         negb (u_RawPath u =? "") || HasSuffix (u_Host u) ":"
      then None
      else if u_Port u =? "" then Some ("https://" ++ u_Host u)
      else match decimal 0 (u_Port u) with
           | Some value => if (value <? 1)%Z || (65535 <? value)%Z then None else Some ("https://" ++ u_Host u)
           | None => None
           end
  end.

Definition validManagedAIDIdentity (d : EffectiveDestination) : bool :=
  (ed_Name d =? ManagedAIDDestinationName) && (ed_Kind d =? DestinationOTLP) && ed_Generated d &&
  bool_decide (ed_SelectedSignals d = [SignalLogs]).

(** ** Required collection *)

Definition required_bucket (bucket : string) : bool := (bucket =? BucketPlatformHealth) || (bucket =? BucketAIDiscovery).

Definition with_logs (b : EffectiveBucket) : EffectiveBucket :=
  mkBucket (eb_Bucket b) (mkCollect true (Traces (eb_Collect b)) (Metrics (eb_Collect b))) (eb_RedactionProfile b).

Definition force_bucket (b : EffectiveBucket) : EffectiveBucket :=
  if required_bucket (eb_Bucket b) then with_logs b else b.

(** The search through the provenance: [None] when the path is not there. *)
Fixpoint replace_provenance (path detail : string) (ps : list (string * string * string)) :
    option (list (string * string * string)) :=
  match ps with
  | [] => None
  | p :: r =>
      if fst (fst p) =? path then Some ((path, "generated", detail) :: r)
      else match replace_provenance path detail r with Some r' => Some (p :: r') | None => None end
  end.

Definition required_path (bucket : string) : string := "observability.buckets." ++ bucket ++ ".collect.logs".

(** The two required buckets, in either order. *)
Definition forceRequiredLogCollection (e : EffectivePlan) : option EffectivePlan :=
  match replace_provenance (required_path BucketPlatformHealth)
          "managed-enterprise AID fail-open availability collection" (pl_Provenance e) with
  | None => None
  | Some ps =>
      match replace_provenance (required_path BucketAIDiscovery) "managed-enterprise endpoint inventory collection" ps with
      | None => None
      | Some ps => Some (mkEffectivePlan (pl_BucketCatalogVersion e) (pl_Local e) (force_bucket <$> pl_Buckets e)
                           (pl_Profiles e) (pl_Destinations e) ps)
      end
  end.

(** The last policy of a bucket decides. *)
Definition logs_collected (e : EffectivePlan) (bucket : string) : bool :=
  foldl (fun acc b => if eb_Bucket b =? bucket then Logs (eb_Collect b) else acc) false (pl_Buckets e).

Definition RequiredLogsCollected (e : EffectivePlan) : bool :=
  logs_collected e BucketPlatformHealth && logs_collected e BucketAIDiscovery.

(** ** Reservation of the inventory *)

Definition drop_route : EffectiveRoute :=
  mkRoute 0 "drop-managed-endpoint-inventory" true [SignalLogs]
    (mkEffectiveSelector [BucketAIDiscovery] false [] [] ReservedActions [] "") RouteDrop ∅ false.

Definition with_index (index : Z) (r : EffectiveRoute) : EffectiveRoute :=
  mkRoute index (er_Name r) (er_Generated r) (er_Signals r) (er_Selector r) (er_Action r)
    (er_RedactionProfileByBucket r) (er_IncludesMandatoryFloor r).

Definition reserve_destination (d : EffectiveDestination) : EffectiveDestination :=
  if (ed_Kind d =? DestinationLocalSQLite) || (ed_Name d =? ManagedAIDDestinationName) ||
     negb (Supports (ed_Capabilities d) SignalLogs) || negb (Supports (ed_SelectedSignals d) SignalLogs)
  then d
  else with_routes (drop_route :: imap (fun i r => with_index (Z.of_nat i + 1) r) (ed_Routes d)) d.

(** ** The destination *)

Definition sum_map {E A B} (f : A -> B) (r : E + A) : E + B :=
  match r with inl e => inl e | inr a => inr (f a) end.

Definition managed_profiles (buckets : list EffectiveBucket) : gmap string string :=
  foldl (fun m b => <[eb_Bucket b := ManagedAIDRedactionProfile]> m) ∅ buckets.

Definition managed_destination (e : EffectivePlan) (endpoint hash : string) : EffectiveDestination :=
  mkDestination ManagedAIDDestinationName DestinationOTLP true true "" "" [] [SignalLogs] [SignalLogs]
    PolicyImplicitLocal true RestartRequired LiveReloadable
    [mkRoute 0 "drop-local-inventory-diagnostics" true [SignalLogs]
       (mkEffectiveSelector [BucketAIDiscovery] false [] [] [LocalInventoryDiagnosticAction] [] "") RouteDrop ∅ false;
     mkRoute 1 "all-collected-logs" true [SignalLogs]
       (mkEffectiveSelector (BucketIDs (pl_Buckets e)) true [] [] [] [] "") RouteSend
       (managed_profiles (pl_Buckets e)) false]
    (mkTransport "" "" endpoint "http/json" "POST" ∅ "" "" "defenseclaw" 10000
       (Some {| MaxQueueSize := 2048; MaxQueueBytes := 64 * 1024 * 1024; MaxExportBatchSize := 512;
                MaxExportBatchBytes := 64 * 1024 * 1024; ScheduledDelayMS := 5000 |}))
    hash.

Definition managed_provenance : list (string * string * string) :=
  let base := "observability.destinations." ++ ManagedAIDDestinationName in
  [(base ++ ".name", "generated", "release-owned managed destination identity");
   (base ++ ".kind", "generated", "release-owned managed destination identity");
   (base ++ ".generated", "generated", "release-owned managed destination identity");
   (base ++ ".enabled", "generated", "managed-enterprise endpoint gate");
   (base ++ ".policy", "generated", "release-owned sensitive log route");
   (base ++ ".transport", "generated", "top-level cisco_ai_defense.endpoint");
   (base ++ ".reload_applicability", "reload-contract", "policy=restart_required,transport=live_reloadable")].

Definition with_hash (hash : string) (d : EffectiveDestination) : EffectiveDestination :=
  mkDestination (ed_Name d) (ed_Kind d) (ed_Enabled d) (ed_Generated d) (ed_Preset d) (ed_PresetProfile d)
    (ed_CompatibilityProfiles d) (ed_Capabilities d) (ed_SelectedSignals d) (ed_PolicyForm d)
    (ed_FirstMatchPerSignal d) (ed_ReloadPolicy d) (ed_ReloadTransport d) (ed_Routes d) (ed_Transport d) hash.

Definition rejected : Error := ("observability", "generated managed-enterprise destination rejected").

Definition make_plan (e : EffectivePlan) : Error + Plan :=
  newPlan completeProvenance maskEndpoint plan_digest e.

(** A plan that already has the destination. *)
Definition extend_managed (plan : Plan) (options : ManagedAIDOptions) (endpoint : string) (index : nat)
    (d : EffectiveDestination) : Error + Plan :=
  let e := effective plan in
  if ed_Generated d && validManagedAIDIdentity d && (Endpoint (ed_Transport d) =? endpoint) && RequiredLogsCollected e
  then if (SourceContentHash options =? "") || (ed_SourceContentHash d =? SourceContentHash options) then inr plan
       else make_plan (with_destinations (<[index := with_hash (SourceContentHash options) d]> (pl_Destinations e)) e)
  else inl rejected.

Definition append_managed (e : EffectivePlan) (endpoint hash : string) : Error + Plan :=
  if (MaxDestinations + 1 <=? zlen (pl_Destinations e))%Z then inl rejected
  else match forceRequiredLogCollection e with
  | None => inl rejected
  | Some e =>
      let e := with_destinations (reserve_destination <$> pl_Destinations e) e in
      make_plan (mkEffectivePlan (pl_BucketCatalogVersion e) (pl_Local e) (pl_Buckets e) (pl_Profiles e)
                   (pl_Destinations e ++ [managed_destination e endpoint hash])
                   (pl_Provenance e ++ managed_provenance))
  end.

Definition WithManagedAIDDestination (plan : option Plan) (options : ManagedAIDOptions) : Error + option Plan :=
  match plan with
  | None => inr None
  | Some p =>
      if negb (IsManagedEnterprise (DeploymentMode options)) || (opt_Endpoint options =? "") then inr (Some p)
      else match ManagedAIDOrigin (opt_Endpoint options) with
      | None => inl rejected
      | Some origin =>
          if negb (SourceContentHash options =? "") && negb (validContentHash (SourceContentHash options))
          then inl rejected
          else
            let e := effective p in
            let endpoint := origin ++ ManagedAIDIngestPath in
            match list_find (fun d => ed_Name d = ManagedAIDDestinationName) (pl_Destinations e) with
            | Some (index, d) => sum_map Some (extend_managed p options endpoint index d)
            | None => sum_map Some (append_managed e endpoint (SourceContentHash options))
            end
      end
  end.
End Managed.
