(* ===== verification/ManagedFacts.v ===== *)
(** * What a managed plan guarantees

    The invariant of the plans after the release-owned destination was added, and
    its common part with the compiled plans: the local store comes first, then the
    configured destinations, then at most the managed one. *)
From stdpp Require Import base list gmap strings.
From Stdlib Require Import ZArith Lia Ascii.
From S2P Require Import Prelude GoStrings Taxonomy RoutingPlan PlanFacts ManagedPlan.

Local Open Scope string_scope.

(** ** Reservation *)

Definition exports_logs (d : EffectiveDestination) : bool :=
  Supports (ed_Capabilities d) SignalLogs && Supports (ed_SelectedSignals d) SignalLogs.

(** A destination of logs starts with the route that drops the inventory. *)
Definition reserved (d : EffectiveDestination) : Prop :=
  exports_logs d = true -> exists routes, ed_Routes d = drop_route :: routes.

Lemma drop_route_ok known : route_ok known drop_route.
Proof.
  split_and!; try done; [by right|]. constructor; [|constructor]. by apply IsBucket_elem.
Qed.

Lemma with_index_ok known i r : route_ok known r -> route_ok known (with_index i r).
Proof. done. Qed.

Lemma reserve_unfold d :
  configured d -> reserve_destination d =
    if exports_logs d
    then with_routes (drop_route :: imap (fun i r => with_index (Z.of_nat i + 1) r) (ed_Routes d)) d else d.
Proof.
  intros (Hk & _ & Hm & _). unfold reserve_destination, exports_logs.
  apply String.eqb_neq in Hk, Hm. rewrite Hk, Hm. cbn [orb].
  destruct (Supports (ed_Capabilities d) SignalLogs), (Supports (ed_SelectedSignals d) SignalLogs); done.
Qed.

Lemma reserve_ok known d :
  configured d -> destination_ok known d ->
  configured (reserve_destination d) /\ destination_ok known (reserve_destination d) /\
  reserved (reserve_destination d) /\ ed_Name (reserve_destination d) = ed_Name d.
Proof.
  intros Hc Ho. rewrite reserve_unfold by done. destruct (exports_logs d) eqn:E.
  2:{ split_and!; try done. intros ?. congruence. }
  destruct Ho as (Hf & Hi & Hr). split_and!; try done; [|by eexists].
  split_and!; [done| |].
  - intros i r [[-> <-]|[Hp Hl]]%lookup_cons_Some; [done|].
    rewrite list_lookup_imap in Hl. apply fmap_Some in Hl as (r' & Hl & ->). cbn [er_Index with_index]. lia.
  - cbn [ed_Routes with_routes]. constructor; [apply drop_route_ok|]. apply Forall_forall.
    intros r (i & x & -> & Hl)%elem_of_lookup_imap. apply with_index_ok.
    rewrite Forall_forall in Hr. apply Hr. by eapply list_elem_of_lookup_2.
Qed.

(** ** The invariant *)

Section Managed.
Context {U : GoUnicode}.
Context (completeProvenance : EffectivePlan -> option (list (string * string * string))).
Context (maskEndpoint : string -> string).
Context (plan_digest : EffectivePlan -> string).
Context (url_Parse : string -> option ParsedURL) (has_space : string -> bool).
(** The endpoints that the router will accept. *)
Context (endpoint_ok : string -> Prop).

Definition managed_part (e : EffectivePlan) (rest ms : list EffectiveDestination) : Prop :=
  ms = [] \/
  exists endpoint hash, ms = [managed_destination e endpoint hash] /\ endpoint_ok (maskEndpoint endpoint) /\
    Forall reserved rest.

Definition plan_ok (known : gset string) (e : EffectivePlan) : Prop :=
  pl_BucketCatalogVersion e = 1%Z /\ buckets_ok known (pl_Buckets e) /\ ManagedAIDRedactionProfile ∈ known /\
  exists rest ms,
    pl_Destinations e = (compileLocalDestination (pl_Buckets e) (pl_Local e) :: rest ++ ms)%list /\
    Forall configured rest /\ Forall (destination_ok known) rest /\ NoDup (ed_Name <$> rest) /\
    managed_part e rest ms.

(** The plan has the managed destination. *)
Definition is_managed (e : EffectivePlan) : Prop := exists d, d ∈ pl_Destinations e /\ ed_Name d = ManagedAIDDestinationName.

Lemma base_plan_ok known e :
  ManagedAIDRedactionProfile ∈ known -> base_plan known e -> plan_ok known e.
Proof.
  intros Hs (Hv & Hb & rest & Hd & Hc & Ho & Hn). split_and!; try done.
  exists rest, []. rewrite app_nil_r. split_and!; try done. by left.
Qed.

Lemma known_sensitive source : ManagedAIDRedactionProfile ∈ known_profiles source.
Proof. apply elem_of_union_l, elem_of_list_to_set. vm_compute. apply list_elem_of_further, list_elem_of_here. Qed.

Lemma managed_part_None e rest ms :
  Forall configured rest -> managed_part e rest ms ->
  Forall (fun d => ed_Name d <> ManagedAIDDestinationName)
    (compileLocalDestination (pl_Buckets e) (pl_Local e) :: rest ++ ms) -> ms = [].
Proof.
  intros _ [?|(endpoint & hash & -> & _)] Hall; [done|]. exfalso.
  apply Forall_cons_1 in Hall as [_ Hall]. apply Forall_app in Hall as [_ Hall].
  by apply Forall_cons_1 in Hall as [Hall _].
Qed.

Lemma force_bucket_id b : eb_Bucket (force_bucket b) = eb_Bucket b /\ eb_RedactionProfile (force_bucket b) = eb_RedactionProfile b.
Proof. unfold force_bucket. by case_match. Qed.

Lemma force_buckets_ok known bs : buckets_ok known bs -> buckets_ok known (force_bucket <$> bs).
Proof.
  intros [Hi Hk]. split.
  - unfold BucketIDs in *. rewrite <-Hi, <-list_fmap_compose. apply list_fmap_ext. intros i b _. apply force_bucket_id.
  - apply Forall_fmap. eapply Forall_impl; [exact Hk|]. intros b. cbn. by rewrite (proj2 (force_bucket_id b)).
Qed.

(** The profile of the local store does not depend on what is collected. *)
Lemma policy_map_force bs : policy_map (force_bucket <$> bs) = policy_map bs.
Proof.
  unfold policy_map. generalize (∅ : gmap string string). induction bs as [|b bs IH]; intros m; [done|]. cbn.
  destruct (force_bucket_id b) as [-> ->]. apply IH.
Qed.

Lemma compileLocal_force bs local :
  compileLocalDestination (force_bucket <$> bs) local = compileLocalDestination bs local.
Proof.
  unfold compileLocalDestination. rewrite policy_map_force.
  replace (BucketIDs (force_bucket <$> bs)) with (BucketIDs bs); [done|]. unfold BucketIDs.
  rewrite <-list_fmap_compose. apply list_fmap_ext. intros i b _. symmetry. apply force_bucket_id.
Qed.

Lemma reserve_local bs local :
  reserve_destination (compileLocalDestination bs local) = compileLocalDestination bs local.
Proof. done. Qed.

Lemma reserve_all known rest :
  Forall configured rest -> Forall (destination_ok known) rest ->
  Forall configured (reserve_destination <$> rest) /\ Forall (destination_ok known) (reserve_destination <$> rest) /\
  Forall reserved (reserve_destination <$> rest) /\
  ed_Name <$> (reserve_destination <$> rest) = ed_Name <$> rest.
Proof.
  intros Hc Ho. induction rest as [|d rest IH]; [by split_and!|].
  apply Forall_cons_1 in Hc as [Hc Hcs], Ho as [Ho Hos].
  destruct (IH Hcs Hos) as (? & ? & ? & E). destruct (reserve_ok known d Hc Ho) as (? & ? & ? & En).
  rewrite fmap_cons. split_and!; try by constructor. cbn. by rewrite En, E.
Qed.

Notation append := (append_managed completeProvenance maskEndpoint plan_digest).

Lemma append_managed_ok known e endpoint hash p :
  plan_ok known e -> Forall (fun d => ed_Name d <> ManagedAIDDestinationName) (pl_Destinations e) ->
  endpoint_ok (maskEndpoint endpoint) -> append e endpoint hash = inr p ->
  plan_ok known (effective p) /\ is_managed (effective p) /\ masked maskEndpoint p.
Proof.
  intros (Hv & Hb & Hs & rest & ms & Hd & Hc & Ho & Hn & Hm) Hnone Hend H.
  rewrite Hd in Hnone. rewrite (managed_part_None e rest ms Hc Hm Hnone), app_nil_r in Hd. clear Hm Hnone.
  unfold append_managed in H. destruct (_ <=? _)%Z; [done|].
  destruct (forceRequiredLogCollection e) as [e1|] eqn:He; [|done].
  unfold forceRequiredLogCollection in He. destruct (replace_provenance _ _ _) as [ps|]; [|done].
  destruct (replace_provenance _ _ ps) as [ps'|]; [|done]. injection He as <-.
  apply newPlan_spec in H as [Hmask [ps2 E]]. rewrite E. clear E.
  destruct (reserve_all known rest Hc Ho) as (Hc' & Ho' & Hr & En).
  assert (Hk : reserve_destination <$> pl_Destinations e =
    compileLocalDestination (force_bucket <$> pl_Buckets e) (pl_Local e) :: (reserve_destination <$> rest)).
  { rewrite Hd, fmap_cons, reserve_local, compileLocal_force. done. }
  split_and!; [|eexists; split; [apply elem_of_app; right; apply list_elem_of_here|done]|done].
  split_and!; [exact Hv|by apply force_buckets_ok|done|].
  exists (reserve_destination <$> rest), [managed_destination
    (mkEffectivePlan 1 (pl_Local e) (force_bucket <$> pl_Buckets e) [] [] []) endpoint hash].
  split_and!; [cbn; rewrite Hk; done|done|done|by rewrite En|].
  right. exists endpoint, hash. done.
Qed.

(** The address the parser and the masking leave as it is. *)
Context (Horigin : forall raw o, ManagedAIDOrigin url_Parse has_space raw = Some o ->
  endpoint_ok (maskEndpoint (o ++ ManagedAIDIngestPath))).

Notation WithManaged := (WithManagedAIDDestination url_Parse has_space completeProvenance maskEndpoint plan_digest).

Lemma rehash_ok known e index d hash :
  plan_ok known e -> pl_Destinations e !! index = Some d -> ed_Name d = ManagedAIDDestinationName ->
  plan_ok known (with_destinations (<[index := with_hash hash d]> (pl_Destinations e)) e).
Proof.
  intros (Hv & Hb & Hs & rest & ms & Hd & Hc & Ho & Hn & Hm) Hl Hname. split_and!; try done.
  rewrite Hd in Hl. destruct index as [|index]; [cbn in Hl; injection Hl as <-; done|]. cbn in Hl.
  apply lookup_app_Some in Hl as [Hl|[Hlen Hl]].
  { apply list_elem_of_lookup_2 in Hl. rewrite Forall_forall in Hc. by apply Hc in Hl as (_ & _ & ? & _). }
  destruct Hm as [->|(endpoint & h & -> & Hend & Hr)]; [done|].
  apply list_lookup_singleton_Some in Hl as [Hi <-].
  exists rest, [managed_destination e endpoint hash]. split_and!; try done.
  - cbn [pl_Destinations with_destinations]. rewrite Hd.
    transitivity (compileLocalDestination (pl_Buckets e) (pl_Local e)
      :: <[index := with_hash hash (managed_destination e endpoint h)]> (rest ++ [managed_destination e endpoint h]))%list;
      [done|]. rewrite insert_app_r_alt by done. by rewrite Hi.
  - right. by exists endpoint, hash.
Qed.

Lemma WithManaged_ok known p options p' :
  plan_ok known (effective p) -> masked maskEndpoint p -> WithManaged (Some p) options = inr (Some p') ->
  plan_ok known (effective p') /\ masked maskEndpoint p' /\
  (p' = p \/ is_managed (effective p')).
Proof.
  intros Hp Hmask H. unfold WithManagedAIDDestination in H.
  destruct (_ || _); [injection H as <-; auto|].
  destruct (ManagedAIDOrigin _ _ _) as [origin|] eqn:Ho; [|done]. apply Horigin in Ho.
  destruct (_ && _); [done|]. cbv zeta in H.
  destruct (list_find _ _) as [[index d]|] eqn:Hf.
  - apply list_find_Some in Hf as (Hl & Hn & _). unfold extend_managed in H.
    destruct (_ && _); [|done]. destruct (_ || _); [cbn in H; injection H as <-; auto|].
    destruct (make_plan _ _ _ _) as [|q] eqn:Hq; [done|]. cbn in H. injection H as <-.
    apply newPlan_spec in Hq as [Hmq [ps E]]. split_and!; [|done|].
    + rewrite E. by apply rehash_ok.
    + right. exists (with_hash (SourceContentHash options) d). split; [|done]. rewrite E. cbn.
      apply list_elem_of_lookup. exists index. rewrite list_lookup_insert_eq; [done|by eapply lookup_lt_Some].
  - apply list_find_None in Hf. destruct (append_managed _ _ _ _ _ _) as [|q] eqn:Hq; [done|].
    cbn in H. injection H as <-. apply (append_managed_ok known) in Hq as (? & ? & ?); auto.
Qed.

Lemma WithManaged_profiles p options p' :
  WithManaged (Some p) options = inr (Some p') -> pl_Profiles (effective p') = pl_Profiles (effective p).
Proof.
  intros H. unfold WithManagedAIDDestination in H. destruct (_ || _); [by injection H as <-|].
  destruct (ManagedAIDOrigin _ _ _); [|done]. destruct (_ && _); [done|]. cbv zeta in H.
  destruct (list_find _ _) as [[index d]|].
  - unfold extend_managed in H. destruct (_ && _); [|done]. destruct (_ || _); [by injection H as <-|].
    destruct (make_plan _ _ _ _) as [|q] eqn:Hq; [done|]. injection H as <-. by apply newPlan_spec in Hq as [_ [ps ->]].
  - unfold append_managed, forceRequiredLogCollection in H. destruct (_ <=? _)%Z; [done|].
    destruct (replace_provenance _ _ _) as [ps|]; [|done]. destruct (replace_provenance _ _ ps); [|done].
    destruct (make_plan _ _ _ _) as [|q] eqn:Hq; [done|]. injection H as <-. by apply newPlan_spec in Hq as [_ [ps' ->]].
Qed.
End Managed.
