(* ===== verification/Router.v ===== *)
(** * The router (internal/observability/router/router.go)

    The admission of a record and the choice of the destinations and routes it
    goes to, over the index built from a compiled plan.  The construction of a
    record is lazy: [Evaluate] returns with its result the calls it made to the
    builder.  Parameters: the registered identities, the producer catalog, the
    parser of URLs behind the endpoint check, the inbound catalog. *)
From stdpp Require Import base list gmap strings.
From Stdlib Require Import ZArith Lia Ascii.
From S2P Require Import Prelude GoStrings Taxonomy Classification RoutingPlan ManagedPlan.

Local Open Scope string_scope.

(** ** Metadata *)

Inductive Admission := AdmissionDrop | AdmissionOrdinary | AdmissionFloor.

#[export] Instance Admission_eq_dec : EqDecision Admission.
Proof. solve_decision. Defined.

Record Metadata := mkMetadata {
  m_identity : EventIdentity;
  m_severity : string;
  m_hasSeverity : bool;
  m_source : string;
  m_connector : string;
  m_action : string;
  m_mandatory : bool;
}.

#[export] Instance Metadata_eq_dec : EqDecision Metadata.
Proof. solve_decision. Defined.

(** What the router reads of a record (observability.Record); [Content] is the
    rest of it, which routing carries along. *)
Record BuiltRecord (Content : Type) := mkBuilt { r_metadata : Metadata; r_floorOnly : bool; r_content : Content }.
Arguments mkBuilt {_} _ _ _.
Arguments r_metadata {_} _.
Arguments r_floorOnly {_} _.
Arguments r_content {_} _.

Definition metadataFromRecord {Content} (record : BuiltRecord Content) : Metadata := r_metadata record.

Inductive RouterError :=
| OrdinaryLogNotSupported | UnknownProducer | InvalidClassification | NotALogIdentity | InvalidInboundTarget
| IdentityNotRegistered | SeverityNotCanonical | SeverityMarkedAbsent | BadSource | BadToken | MandatoryNotLog
| NilEvaluator | BuilderRequired | BuilderError (e : string) | MetadataMismatch | FloorRecordRequired
| FloorOnlyRejected | PlanRequired | CatalogVersion | UnknownPlanBucket | DuplicateBucket | MissingBucket
| UnnamedDestination | DuplicateDestination | NotFirstMatch | RouteOrder | WildcardIncomplete
| InvalidManaged | InvalidLocal | MultipleLocal | InvalidLocalRoute | MissingLocal.

Section Metadata.
Context {U : GoUnicode}.
Variable registered : EventIdentity -> bool.
Variable registry : Classification.Registry.
Variable url_Parse : string -> option ParsedURL.

Definition validate (m : Metadata) : option RouterError :=
  if negb (IsRegisteredEventIdentity registered (m_identity m)) then Some IdentityNotRegistered
  else if m_hasSeverity m && negb (bool_decide (is_Some (SeverityRank (m_severity m)))) then Some SeverityNotCanonical
  else if negb (m_hasSeverity m) && negb (m_severity m =? "") then Some SeverityMarkedAbsent
  else if negb (IsStableToken (m_source m)) then Some BadSource
  else if negb ((m_connector m =? "") || IsStableToken (m_connector m)) then Some BadToken
  else if negb ((m_action m =? "") || IsStableToken (m_action m)) then Some BadToken
  else if m_mandatory m && negb (id_Signal (m_identity m) =? SignalLogs) then Some MandatoryNotLog
  else None.

Definition validated (m : Metadata) : RouterError + Metadata :=
  match validate m with Some e => inl e | None => inr m end.

Definition NewMetadata (identity : EventIdentity) (severity : option string) (source connector action : string) :
    RouterError + Metadata :=
  if id_Signal identity =? SignalLogs then inl OrdinaryLogNotSupported
  else validated (mkMetadata identity (default "" severity) (bool_decide (is_Some severity)) source connector action false).

Definition NewClassifiedLogMetadata (kind key : string) (context : Classification.ClassificationContext)
    (source connector action : string) : RouterError + Metadata :=
  match Classification.registeredClassification registry kind key with
  | None => inl UnknownProducer
  | Some classification =>
      match Classification.Resolve registered registry classification context with
      | inl _ => inl InvalidClassification
      | inr resolved =>
          let identity := Classification.Identity resolved in
          let severity := Classification.ResolvedSeverity resolved in
          if negb (id_Signal identity =? SignalLogs) then inl NotALogIdentity
          else validated (mkMetadata identity (if Present severity then Severity severity else "") (Present severity)
                            source connector action (Classification.Mandatory resolved))
      end
  end.

(** What [NewInboundImportedLogMetadata] reads of the inbound catalog; a handle
    is a snapshot and an index. *)
Record InboundImportContext := {
  ic_handle : Z * Z;
  ic_Bucket : string;
  ic_EventName : string;
  ic_FamilyDescriptorID : string;
  ic_ConstructionMode : string;
  ic_Capabilities : list string;
}.

Record InboundTarget := {
  it_ImportContext : option (Z * Z);
  it_Signal : string;
  it_Role : string;
  it_Bucket : string;
  it_EventName : string;
  it_DescriptorID : string;
  it_AcceptsAuthenticatedSource : string -> bool;
}.

Definition validInboundTarget (target : InboundTarget) (context : InboundImportContext) (source : string) : bool :=
  bool_decide (it_ImportContext target = Some (ic_handle context)) && (it_Signal target =? SignalLogs) &&
  (it_Role target =? "import") && (it_Bucket target =? ic_Bucket context) &&
  (it_EventName target =? ic_EventName context) && (it_DescriptorID target =? ic_FamilyDescriptorID context) &&
  it_AcceptsAuthenticatedSource target source && (ic_ConstructionMode context =? "ordinary_import_only") &&
  bool_decide (ic_Capabilities context = ["validate"; "construct_ordinary"]).

Definition NewInboundImportedLogMetadata (target : InboundTarget) (context : InboundImportContext)
    (severity : option string) (authenticatedSource : string) : RouterError + Metadata :=
  if negb (validInboundTarget target context authenticatedSource) then inl InvalidInboundTarget
  else validated (mkMetadata (mkIdentity (it_Bucket target) (it_Signal target) (it_EventName target))
                    (default "" severity) (bool_decide (is_Some severity)) SourceOTelReceiver authenticatedSource "" false).

(** ** The index *)

Record compiledSelector := mkCompiledSelector {
  cs_buckets : gset string;
  cs_bucketWildcard : bool;
  cs_sources : gset string;
  cs_connectors : gset string;
  cs_actions : gset string;
  cs_eventNames : gset string;
  cs_minSeverity : string;
}.

Record compiledRoute := mkCompiledRoute {
  cr_index : Z;
  cr_name : string;
  cr_generated : bool;
  cr_signals : gset string;
  cr_selector : compiledSelector;
  cr_action : string;
  cr_redactionProfileByBucket : gmap string string;
  cr_includesMandatoryFloor : bool;
}.

Record compiledDestination := mkCompiledDestination {
  cd_name : string;
  cd_kind : string;
  cd_enabled : bool;
  cd_generated : bool;
  cd_firstMatch : bool;
  cd_capabilities : gset string;
  cd_selected : gset string;
  cd_routes : list compiledRoute;
}.

(** [None] for the index -1. *)
Record Evaluator := mkEvaluator {
  collection : gmap (string * string) bool;
  destinations : list compiledDestination;
  localDestination : option nat;
  managedFallback : option nat;
  planDigest : string;
}.

Definition compileSelector (source : EffectiveSelector) : compiledSelector :=
  mkCompiledSelector (list_to_set (es_Buckets source)) (es_BucketWildcard source) (list_to_set (es_Sources source))
    (list_to_set (es_Connectors source)) (list_to_set (es_Actions source)) (list_to_set (es_EventNames source))
    (es_MinSeverity source).

Definition compileRoute (source : EffectiveRoute) : compiledRoute :=
  mkCompiledRoute (er_Index source) (er_Name source) (er_Generated source) (list_to_set (er_Signals source))
    (compileSelector (er_Selector source)) (er_Action source) (er_RedactionProfileByBucket source)
    (er_IncludesMandatoryFloor source).

Definition compileDestinationIndex (source : EffectiveDestination) : compiledDestination :=
  mkCompiledDestination (ed_Name source) (ed_Kind source) (ed_Enabled source) (ed_Generated source)
    (ed_FirstMatchPerSignal source) (list_to_set (ed_Capabilities source)) (list_to_set (ed_SelectedSignals source))
    (compileRoute <$> ed_Routes source).

Definition coversCatalog (buckets : gset string) : bool :=
  (size buckets =? length Buckets)%nat && forallb (fun b => bool_decide (b ∈ buckets)) Buckets.

(** The loop of [validateDestinationIndex]. *)
Fixpoint routes_error (position : Z) (routes : list compiledRoute) : option RouterError :=
  match routes with
  | [] => None
  | r :: rest =>
      if negb (cr_index r =? position)%Z then Some RouteOrder
      else if cs_bucketWildcard (cr_selector r) && negb (coversCatalog (cs_buckets (cr_selector r)))
      then Some WildcardIncomplete
      else routes_error (position + 1) rest
  end.

Definition validateDestinationIndex (d : compiledDestination) : option RouterError :=
  if (0 <? zlen (cd_routes d))%Z && negb (cd_firstMatch d) then Some NotFirstMatch
  else routes_error 0 (cd_routes d).

Definition validLocalDestination (d : compiledDestination) : bool :=
  cd_generated d && cd_firstMatch d &&
  bool_decide (cd_capabilities d = {[ SignalLogs ]}) && bool_decide (cd_selected d = {[ SignalLogs ]}) &&
  match cd_routes d with
  | [route] =>
      cr_generated route && bool_decide (cr_signals route = {[ SignalLogs ]}) && (cr_action route =? RouteSend) &&
      cr_includesMandatoryFloor route &&
      (cs_bucketWildcard (cr_selector route) || (size (cs_buckets (cr_selector route)) =? length Buckets)%nat) &&
      forallb (fun b => (cs_bucketWildcard (cr_selector route) || bool_decide (b ∈ cs_buckets (cr_selector route))) &&
                        negb (default "" (cr_redactionProfileByBucket route !! b) =? "")) Buckets
  | _ => false
  end.

(** ** The managed destination *)

Definition validManagedFallbackEndpoint (raw : string) : bool :=
  match url_Parse raw with
  | None => false
  | Some u =>
      (u_Scheme u =? "https") && (u_Opaque u =? "") && negb (u_Host u =? "") && negb (u_Hostname u =? "") &&
      negb (u_User u) && (u_Path u =? ManagedAIDIngestPath) && (u_EscapedPath u =? ManagedAIDIngestPath) &&
      (u_RawPath u =? "") && (u_RawQuery u =? "") && negb (u_ForceQuery u) && (u_Fragment u =? "") &&
      (u_RawFragment u =? "")
  end.

Definition validGeneratedManagedDropRoute (route : EffectiveRoute) (index : Z) (name : string)
    (actions eventNames : list string) : bool :=
  (er_Index route =? index)%Z && (er_Name route =? name) && er_Generated route &&
  bool_decide (er_Signals route = [SignalLogs]) && (er_Action route =? RouteDrop) &&
  negb (er_IncludesMandatoryFloor route) && negb (es_BucketWildcard (er_Selector route)) &&
  bool_decide (es_Buckets (er_Selector route) = [BucketAIDiscovery]) &&
  bool_decide (es_Sources (er_Selector route) = []) && bool_decide (es_Connectors (er_Selector route) = []) &&
  bool_decide (es_Actions (er_Selector route) = actions) &&
  bool_decide (es_EventNames (er_Selector route) = eventNames) &&
  (es_MinSeverity (er_Selector route) =? "") && (size (er_RedactionProfileByBucket route) =? 0)%nat.

Definition validManagedSendRoute (send : EffectiveRoute) (compiled : compiledRoute) : bool :=
  (er_Index send =? 1)%Z && (er_Name send =? "all-collected-logs") && er_Generated send &&
  bool_decide (er_Signals send = [SignalLogs]) && (er_Action send =? RouteSend) &&
  negb (er_IncludesMandatoryFloor send) && es_BucketWildcard (er_Selector send) &&
  (length (es_Buckets (er_Selector send)) =? length Buckets)%nat &&
  bool_decide (es_Sources (er_Selector send) = []) && bool_decide (es_Connectors (er_Selector send) = []) &&
  bool_decide (es_Actions (er_Selector send) = []) && bool_decide (es_EventNames (er_Selector send) = []) &&
  (es_MinSeverity (er_Selector send) =? "") && coversCatalog (cs_buckets (cr_selector compiled)) &&
  (size (er_RedactionProfileByBucket send) =? length Buckets)%nat &&
  forallb (fun b => default "" (er_RedactionProfileByBucket send !! b) =? "sensitive") Buckets.

Definition validManagedTransport (t : TransportPlan) : bool :=
  (Protocol t =? "http/json") && (Method t =? "POST") && (LoggerName t =? "defenseclaw") &&
  (size (Headers t) =? 0)%nat && (TokenEnv t =? "") && (BearerEnv t =? "") &&
  validManagedFallbackEndpoint (Endpoint t) &&
  match BatchPlan t with
  | None => false
  | Some b => (0 <? MaxQueueSize b)%Z && (0 <? MaxQueueBytes b)%Z && (0 <? MaxExportBatchSize b)%Z &&
              (0 <? MaxExportBatchBytes b)%Z && (0 <? ScheduledDelayMS b)%Z
  end.

Definition validManagedFallbackDestination (source : EffectiveDestination) (d : compiledDestination) : bool :=
  (ed_Name source =? ManagedAIDDestinationName) && (ed_Kind source =? DestinationOTLP) && ed_Enabled source &&
  ed_Generated source && (ed_PolicyForm source =? PolicyImplicitLocal) && ed_FirstMatchPerSignal source &&
  bool_decide (ed_Capabilities source = [SignalLogs]) && bool_decide (ed_SelectedSignals source = [SignalLogs]) &&
  (ed_ReloadPolicy source =? RestartRequired) && (ed_ReloadTransport source =? LiveReloadable) &&
  validManagedTransport (ed_Transport source) &&
  match ed_Routes source, cd_routes d with
  | [diagnosticDrop; send], [_; compiledSend] =>
      validGeneratedManagedDropRoute diagnosticDrop 0 "drop-local-inventory-diagnostics"
        [LocalInventoryDiagnosticAction] [] && validManagedSendRoute send compiledSend
  | _, _ => false
  end.

(** ** New *)

(** The loop over the bucket policies. *)
Fixpoint index_buckets (seen : gset string) (index : gmap (string * string) bool) (policies : list EffectiveBucket) :
    RouterError + (gset string * gmap (string * string) bool) :=
  match policies with
  | [] => inr (seen, index)
  | p :: r =>
      if negb (IsBucket (eb_Bucket p)) then inl UnknownPlanBucket
      else if bool_decide (eb_Bucket p ∈ seen) then inl DuplicateBucket
      else index_buckets ({[ eb_Bucket p ]} ∪ seen)
             (foldl (fun m signal => <[(eb_Bucket p, signal) := Enabled (eb_Collect p) signal]> m) index Signals) r
  end.

(** The body of the loop over the destinations, for the one at [position]. *)
Definition index_destination (position : nat) (local managed : option nat) (source : EffectiveDestination) :
    RouterError + (option nat * option nat) :=
  let destination := compileDestinationIndex source in
  match validateDestinationIndex destination with
  | Some e => inl e
  | None =>
      let managedOr :=
        if ed_Name source =? ManagedAIDDestinationName then
          if bool_decide (is_Some managed) || negb (validManagedFallbackDestination source destination)
          then inl InvalidManaged else inr (Some position)
        else inr managed in
      match managedOr with
      | inl e => inl e
      | inr managed =>
          if ed_Kind source =? DestinationLocalSQLite then
            if negb (ed_Name source =? LocalDestinationName) || negb (ed_Generated source) || negb (ed_Enabled source)
            then inl InvalidLocal
            else if bool_decide (is_Some local) then inl MultipleLocal
            else if negb (validLocalDestination destination) then inl InvalidLocalRoute
            else inr (Some position, managed)
          else inr (local, managed)
      end
  end.

Fixpoint index_destinations (position : nat) (seen : gset string) (local managed : option nat)
    (sources : list EffectiveDestination) : RouterError + (option nat * option nat) :=
  match sources with
  | [] => inr (local, managed)
  | source :: r =>
      if ed_Name source =? "" then inl UnnamedDestination
      else if bool_decide (ed_Name source ∈ seen) then inl DuplicateDestination
      else match index_destination position local managed source with
           | inl e => inl e
           | inr (local, managed) => index_destinations (S position) ({[ ed_Name source ]} ∪ seen) local managed r
           end
  end.

Definition New (plan : option Plan) : RouterError + Evaluator :=
  match plan with
  | None => inl PlanRequired
  | Some plan =>
      let snapshot := Snapshot plan in
      if negb (pl_BucketCatalogVersion snapshot =? CurrentBucketCatalogVersion)%Z then inl CatalogVersion
      else match index_buckets ∅ ∅ (pl_Buckets snapshot) with
      | inl e => inl e
      | inr (seen, index) =>
          if negb (forallb (fun b => bool_decide (b ∈ seen)) Buckets) then inl MissingBucket
          else match index_destinations 0 ∅ None None (pl_Destinations snapshot) with
          | inl e => inl e
          | inr (None, _) => inl MissingLocal
          | inr (Some local, managed) =>
              inr (mkEvaluator index (compileDestinationIndex <$> pl_Destinations snapshot) (Some local) managed
                     (digest plan))
          end
      end
  end.

Definition PlanDigest (evaluator : option Evaluator) : string := from_option planDigest "" evaluator.

(** ** Admission *)

Definition Collected (evaluator : option Evaluator) (bucket signal : string) : bool :=
  match evaluator with
  | None => false
  | Some e => default false (collection e !! (bucket, signal))
  end.

Definition Admit (evaluator : option Evaluator) (m : Metadata) : RouterError + Admission :=
  match evaluator with
  | None => inl NilEvaluator
  | Some _ =>
      match validate m with
      | Some e => inl e
      | None =>
          if Collected evaluator (id_Bucket (m_identity m)) (id_Signal (m_identity m)) then inr AdmissionOrdinary
          else if (id_Signal (m_identity m) =? SignalLogs) && m_mandatory m then inr AdmissionFloor
          else inr AdmissionDrop
      end
  end.

(** ** Routes *)

Record Delivery := mkDelivery {
  DestinationName : string;
  DestinationKind : string;
  RouteName : string;
  RouteIndex : Z;
  RedactionProfile : string;
  MandatoryFloor : bool;
}.

Definition matchesValue (allowed : gset string) (actual wildcard : string) : bool :=
  if (size allowed =? 0)%nat then true
  else if actual =? "" then false
  else if bool_decide (wildcard ∈ allowed) then true
  else bool_decide (actual ∈ allowed).

Definition selector_matches (selector : compiledSelector) (m : Metadata) : bool :=
  (cs_bucketWildcard selector || matchesValue (cs_buckets selector) (id_Bucket (m_identity m)) "*") &&
  matchesValue (cs_sources selector) (m_source m) "*" &&
  matchesValue (cs_connectors selector) (m_connector m) "*" &&
  matchesValue (cs_actions selector) (m_action m) "*" &&
  matchesValue (cs_eventNames selector) (id_Name (m_identity m)) "*" &&
  (if cs_minSeverity selector =? "" then true
   else m_hasSeverity m &&
     match SeverityRank (cs_minSeverity selector), SeverityRank (m_severity m) with
     | Some minimum, Some actual => negb (actual <? minimum)%Z
     | _, _ => false
     end).

(** The tests of the loop of [routeDestination] that pass over a route. *)
Definition route_applies (floorOnly : bool) (m : Metadata) (route : compiledRoute) : bool :=
  negb (floorOnly && negb (cr_includesMandatoryFloor route)) &&
  bool_decide (id_Signal (m_identity m) ∈ cr_signals route) && selector_matches (cr_selector route) m.

Definition delivery_of (d : compiledDestination) (m : Metadata) (floorOnly : bool) (route : compiledRoute) : Delivery :=
  mkDelivery (cd_name d) (cd_kind d) (cr_name route) (cr_index route)
    (if negb (id_Signal (m_identity m) =? SignalMetrics)
     then default "" (cr_redactionProfileByBucket route !! id_Bucket (m_identity m)) else "")
    floorOnly.

Fixpoint route_loop (d : compiledDestination) (m : Metadata) (floorOnly : bool) (routes : list compiledRoute) :
    list Delivery :=
  match routes with
  | [] => []
  | route :: r =>
      if negb (route_applies floorOnly m route) then route_loop d m floorOnly r
      else if negb (cr_action route =? RouteSend) then []
      else [delivery_of d m floorOnly route]
  end.

Definition routeDestination (d : compiledDestination) (m : Metadata) (floorOnly : bool) : list Delivery :=
  if negb (cd_enabled d) then []
  else if negb (bool_decide (id_Signal (m_identity m) ∈ cd_capabilities d)) then []
  else if negb (bool_decide (id_Signal (m_identity m) ∈ cd_selected d)) then []
  else route_loop d m floorOnly (cd_routes d).

(** The index of the local destination is always in range in an evaluator of
    [New]; out of range the code would panic. *)
Definition route (e : Evaluator) (m : Metadata) (admission : Admission) : list Delivery :=
  if bool_decide (admission = AdmissionFloor) then
    match localDestination e ≫= fun i => destinations e !! i with
    | Some destination => routeDestination destination m true
    | None => []
    end
  else concat ((fun d => routeDestination d m false) <$> destinations e).

(** ** Evaluation *)

Context {Content : Type}.
Notation BuiltRecord := (BuiltRecord Content).

Definition RecordBuilder : Type := Admission -> string + BuiltRecord.

Definition verifyBuiltRecord (m : Metadata) (admission : Admission) (record : BuiltRecord) : option RouterError :=
  if negb (bool_decide (metadataFromRecord record = m)) then Some MetadataMismatch
  else match admission with
       | AdmissionFloor =>
           if negb (m_mandatory (r_metadata record)) || negb (r_floorOnly record) then Some FloorRecordRequired else None
       | AdmissionOrdinary => if r_floorOnly record then Some FloorOnlyRejected else None
       | AdmissionDrop => Some FloorOnlyRejected
       end.

Record Result := mkResult { res_admission : Admission; res_record : option BuiltRecord; res_deliveries : list Delivery }.

(** The result and the calls of the builder. *)
Definition Evaluate (evaluator : option Evaluator) (m : Metadata) (builder : option RecordBuilder) :
    (RouterError + Result) * list Admission :=
  match Admit evaluator m with
  | inl e => (inl e, [])
  | inr AdmissionDrop => (inr (mkResult AdmissionDrop None []), [])
  | inr admission =>
      match builder with
      | None => (inl BuilderRequired, [])
      | Some build =>
          match build admission with
          | inl e => (inl (BuilderError e), [admission])
          | inr record =>
              match verifyBuiltRecord m admission record with
              | Some e => (inl e, [admission])
              | None =>
                  (inr (mkResult admission (Some record) (from_option (fun e => route e m admission) [] evaluator)),
                   [admission])
              end
          end
      end
  end.

Definition fallback_delivery (d : Delivery) : bool :=
  (DestinationName d =? ManagedAIDDestinationName) && (DestinationKind d =? DestinationOTLP) &&
  negb (MandatoryFloor d) && (RedactionProfile d =? "sensitive").

(** [None] for the empty result. *)
Definition EvaluateManagedLogFallback (evaluator : option Evaluator) (m : Metadata) (builder : option RecordBuilder) :
    (RouterError + option (BuiltRecord * Delivery)) * list Admission :=
  match Admit evaluator m with
  | inl e => (inl e, [])
  | inr admission =>
      if negb (bool_decide (admission = AdmissionDrop)) || negb (id_Signal (m_identity m) =? SignalLogs) ||
         (m_source m =? SourceOTelReceiver)
      then (inr None, [])
      else match evaluator ≫= (fun e => managedFallback e ≫= fun i => destinations e !! i) with
      | None => (inr None, [])
      | Some destination =>
          match routeDestination destination m false with
          | [delivery] =>
              if negb (fallback_delivery delivery) then (inr None, [])
              else match builder with
              | None => (inl BuilderRequired, [])
              | Some build =>
                  match build AdmissionOrdinary with
                  | inl e => (inl (BuilderError e), [AdmissionOrdinary])
                  | inr record =>
                      match verifyBuiltRecord m AdmissionOrdinary record with
                      | Some e => (inl e, [AdmissionOrdinary])
                      | None => (inr (Some (record, delivery)), [AdmissionOrdinary])
                      end
                  end
              end
          | _ => (inr None, [])
          end
      end
  end.
End Metadata.
Arguments RecordBuilder _ : clear implicits.
Arguments Result _ : clear implicits.
