(* ===== verification/RouterFacts.v ===== *)
(** * Lemmas on the router

    What [New] builds from a plan with the invariant, and what the selection of a
    route returns. *)
From stdpp Require Import base list gmap strings.
From Stdlib Require Import ZArith Lia Ascii.
From S2P Require Import Prelude GoStrings Taxonomy Classification RoutingPlan PlanFacts ManagedPlan ManagedFacts Router.

Local Open Scope string_scope.

Section Facts.
Context (maskEndpoint : string -> string).
Context (url_Parse : string -> option ParsedURL).

Notation endpoint_ok := (fun endpoint => validManagedFallbackEndpoint url_Parse endpoint = true).
Notation plan_ok := (plan_ok maskEndpoint endpoint_ok).
Notation New := (New url_Parse).

(** ** New accepts *)

Lemma compile_mask d : compileDestinationIndex (mask_destination maskEndpoint d) = compileDestinationIndex d.
Proof. done. Qed.

Lemma coversCatalog_Buckets : coversCatalog (list_to_set Buckets) = true.
Proof. vm_compute. done. Qed.

Lemma routes_error_None known position rs :
  Forall (route_ok known) rs -> (forall i r, rs !! i = Some r -> er_Index r = position + Z.of_nat i)%Z ->
  routes_error position (compileRoute <$> rs) = None.
Proof.
  revert position. induction rs as [|r rs IH]; intros position Hr Hi; [done|].
  apply Forall_cons_1 in Hr as [(_ & Hw & _) Hr]. cbn [fmap list_fmap routes_error].
  pose proof (Hi 0%nat r eq_refl) as H0. cbn [cr_index compileRoute]. rewrite H0.
  replace (position + Z.of_nat 0)%Z with position by lia. rewrite Z.eqb_refl. cbn [negb].
  cbn [cr_selector compileRoute compileSelector cs_bucketWildcard cs_buckets].
  destruct (es_BucketWildcard (er_Selector r)) eqn:E.
  - rewrite Hw, coversCatalog_Buckets by done. cbn [negb andb]. apply IH; [done|].
    intros i r' Hl. rewrite (Hi (S i) r' Hl). lia.
  - cbn [andb]. apply IH; [done|]. intros i r' Hl. rewrite (Hi (S i) r' Hl). lia.
Qed.

Lemma destination_index_ok known d :
  destination_ok known d -> validateDestinationIndex (compileDestinationIndex d) = None.
Proof.
  intros (Hf & Hi & Hr). unfold validateDestinationIndex. cbn [cd_firstMatch cd_routes compileDestinationIndex].
  rewrite Hf, andb_false_r. eapply routes_error_None; [done|]. intros i r Hl. rewrite (Hi i r Hl). lia.
Qed.

Lemma index_configured known position local managed d :
  configured d -> destination_ok known d ->
  index_destination url_Parse position local managed (mask_destination maskEndpoint d) = inr (local, managed).
Proof.
  intros (Hk & Hl & Hm & _) Ho. unfold index_destination. rewrite compile_mask, (destination_index_ok known) by done.
  cbn [ed_Name ed_Kind mask_destination]. apply String.eqb_neq in Hk, Hm. by rewrite Hm, Hk.
Qed.

Lemma index_all known ds : forall position seen local managed rest,
  Forall configured ds -> Forall (destination_ok known) ds -> NoDup (ed_Name <$> ds) ->
  Forall (fun d => ed_Name d ∉ seen) ds ->
  index_destinations url_Parse position seen local managed ((mask_destination maskEndpoint <$> ds) ++ rest) =
  index_destinations url_Parse (position + length ds) (list_to_set (reverse (ed_Name <$> ds)) ∪ seen) local managed rest.
Proof.
  induction ds as [|d ds IH]; intros position seen local managed rest Hc Ho Hn Hs.
  { cbn. rewrite Nat.add_0_r. f_equal. set_solver. }
  apply Forall_cons_1 in Hc as [Hc Hcs], Ho as [Ho Hos], Hs as [Hd Hs].
  rewrite fmap_cons in Hn. apply NoDup_cons in Hn as [Hd' Hn].
  rewrite fmap_cons. cbn [app index_destinations]. cbn [ed_Name mask_destination].
  destruct Hc as (? & ? & ? & Hne). pose proof Hne as Hne'. apply String.eqb_neq in Hne. rewrite Hne.
  rewrite bool_decide_eq_false_2 by done. rewrite (index_configured known) by done. rewrite IH; try done.
  - cbn [length]. replace (position + S (length ds))%nat with (S position + length ds)%nat by lia.
    rewrite fmap_cons, reverse_cons, list_to_set_app_L. f_equal. cbn. set_solver.
  - apply Forall_forall. intros x Hx. rewrite Forall_forall in Hs. specialize (Hs x Hx).
    assert (ed_Name x <> ed_Name d) by (intros E; apply Hd'; rewrite <-E; by apply list_elem_of_fmap_2).
    set_solver.
Qed.

Lemma index_local known bs local position managed :
  buckets_ok known bs -> "" ∉ known ->
  index_destination url_Parse position None managed
    (mask_destination maskEndpoint (compileLocalDestination bs local)) = inr (Some position, managed).
Proof.
  intros Hb Hk. unfold index_destination. rewrite compile_mask.
  assert (Hv : validateDestinationIndex (compileDestinationIndex (compileLocalDestination bs local)) = None).
  { unfold validateDestinationIndex, compileDestinationIndex, compileLocalDestination, compileRoute, compileSelector.
    rewrite (proj1 Hb). cbn [cd_firstMatch cd_routes ed_FirstMatchPerSignal ed_Routes negb andb fmap list_fmap
      routes_error cr_index er_Index cr_selector cs_bucketWildcard cs_buckets er_Selector es_BucketWildcard es_Buckets].
    rewrite coversCatalog_Buckets, andb_false_r. done. }
  rewrite Hv. cbn [ed_Name ed_Kind mask_destination compileLocalDestination ed_Generated ed_Enabled].
  change (LocalDestinationName =? ManagedAIDDestinationName) with false.
  rewrite String.eqb_refl. cbn [negb orb]. rewrite String.eqb_refl. cbn [negb orb].
  rewrite bool_decide_eq_false_2 by (by intros [? ?]).
  assert (Hl : validLocalDestination (compileDestinationIndex (compileLocalDestination bs local)) = true).
  { unfold validLocalDestination, compileDestinationIndex, compileLocalDestination.
    cbn [cd_generated cd_firstMatch cd_capabilities cd_selected cd_routes ed_Generated ed_FirstMatchPerSignal
      ed_Capabilities ed_SelectedSignals ed_Routes fmap list_fmap]. unfold compileRoute, compileSelector.
    cbn [cr_generated cr_signals cr_action cr_includesMandatoryFloor cr_selector cs_bucketWildcard
      cr_redactionProfileByBucket er_Generated er_Signals er_Action er_IncludesMandatoryFloor er_Selector
      es_BucketWildcard er_RedactionProfileByBucket andb orb].
    replace (list_to_set [SignalLogs] : gset string) with ({[SignalLogs]} : gset string) by set_solver.
    rewrite bool_decide_eq_true_2 by done. rewrite String.eqb_refl. cbn [andb].
    apply forallb_forall. intros b Hin%list_elem_of_In. destruct (policy_map_lookup _ _ _ Hb Hin) as (p & E & Hp).
    rewrite E. cbn. destruct (String.eqb_spec p ""); [by subst|done]. }
  by rewrite Hl.
Qed.

Definition index_signals (b : EffectiveBucket) (index : gmap (string * string) bool) : gmap (string * string) bool :=
  foldl (fun m signal => <[(eb_Bucket b, signal) := Enabled (eb_Collect b) signal]> m) index Signals.

Lemma index_signals_other b index k s : k <> eb_Bucket b -> index_signals b index !! (k, s) = index !! (k, s).
Proof. intros Hne. unfold index_signals. cbn. by rewrite !lookup_insert_ne by congruence. Qed.

Lemma index_signals_same b index s :
  s ∈ Signals -> index_signals b index !! (eb_Bucket b, s) = Some (Enabled (eb_Collect b) s).
Proof.
  unfold Signals. rewrite !elem_of_cons. intros [->|[->|[->|?%elem_of_nil]]]; [..|done]; unfold index_signals; cbn [foldl Signals];
    repeat (rewrite lookup_insert_eq || rewrite lookup_insert_ne by (intros [=])); done.
Qed.

Lemma index_buckets_app bs : forall seen index,
  Forall (fun b => b ∈ Buckets) (BucketIDs bs) -> NoDup (BucketIDs bs) ->
  Forall (fun b => b ∉ seen) (BucketIDs bs) ->
  exists index', index_buckets seen index bs = inr (list_to_set (BucketIDs bs) ∪ seen, index') /\
    (forall k s, k ∉ BucketIDs bs -> index' !! (k, s) = index !! (k, s)) /\
    forall b s, b ∈ bs -> s ∈ Signals -> index' !! (eb_Bucket b, s) = Some (Enabled (eb_Collect b) s).
Proof.
  induction bs as [|b bs IH]; intros seen index Hin Hn Hs.
  { eexists. split; [cbn; do 2 f_equal; set_solver|]. split; [done|]. by intros b s ?%elem_of_nil. }
  cbn [BucketIDs fmap list_fmap] in *. apply Forall_cons_1 in Hin as [Hb Hin], Hs as [Hbs Hs].
  apply NoDup_cons in Hn as [Hnb Hn]. cbn [index_buckets]. apply IsBucket_elem in Hb. rewrite Hb. cbn [negb].
  rewrite bool_decide_eq_false_2 by done.
  edestruct (IH ({[eb_Bucket b]} ∪ seen) (index_signals b index)) as (index' & E & Ho & Hl); [exact Hin|exact Hn| |].
  - apply Forall_forall. intros x Hx. rewrite Forall_forall in Hs. specialize (Hs x Hx).
    assert (x <> eb_Bucket b) by (by intros ->). set_solver.
  - unfold index_signals in E. rewrite E. exists index'. split; [do 2 f_equal; cbn; set_solver|]. split.
    + intros k s Hk. apply not_elem_of_cons in Hk as [Hk1 Hk2]. rewrite Ho by done. by apply index_signals_other.
    + intros b' s [->|Hb']%elem_of_cons Hsig; [|by apply Hl]. rewrite Ho by done. by apply index_signals_same.
Qed.

Lemma index_buckets_ok known bs :
  buckets_ok known bs -> exists index, index_buckets ∅ ∅ bs = inr (list_to_set Buckets ∪ ∅, index) /\
    forall b s, b ∈ bs -> s ∈ Signals -> index !! (eb_Bucket b, s) = Some (Enabled (eb_Collect b) s).
Proof.
  intros [Hi _]. rewrite <-Hi. edestruct (index_buckets_app bs ∅ ∅) as (index & E & _ & Hl);
    [..|exists index; split; [exact E|exact Hl]]; rewrite Hi; [apply Buckets_all|apply Buckets_NoDup|].
  apply Forall_forall. set_solver.
Qed.

Lemma foldl_sensitive bs b :
  b ∈ BucketIDs bs -> managed_profiles bs !! b = Some ManagedAIDRedactionProfile.
Proof.
  intros Hb. by destruct (foldl_insert_elem eb_Bucket (fun _ => ManagedAIDRedactionProfile) bs ∅ b Hb) as (a & _ & _ & E).
Qed.

Lemma managed_profiles_size bs : BucketIDs bs = Buckets -> size (managed_profiles bs) = length Buckets.
Proof.
  intros Hi.
  assert (H : forall m : gmap string string, foldl (fun m b => <[eb_Bucket b := ManagedAIDRedactionProfile]> m) m bs =
    foldl (fun m k => <[k := ManagedAIDRedactionProfile]> m) m (BucketIDs bs)).
  { clear Hi. induction bs as [|b bs IH]; intros m; [done|]. apply IH. }
  unfold managed_profiles. rewrite H, Hi. by vm_compute.
Qed.

Lemma managed_destination_ok known e endpoint hash :
  buckets_ok known (pl_Buckets e) -> ManagedAIDRedactionProfile ∈ known ->
  destination_ok known (managed_destination e endpoint hash).
Proof.
  intros [Hi _] Hs. split_and!; [done| |].
  - intros i r [[-> <-]|[Hp Hl]]%lookup_cons_Some; [done|].
    apply list_lookup_singleton_Some in Hl as [Hi' <-]. cbn [er_Index]. lia.
  - constructor; [|apply Forall_singleton].
    + split_and!; try done; [by right|]. apply Forall_singleton. by apply IsBucket_elem.
    + rewrite Hi. split_and!; [by left|done|done|exact Buckets_all|]. intros _ _ b Hb. exists ManagedAIDRedactionProfile.
      split; [|done]. apply foldl_sensitive. by rewrite Hi.
Qed.

Lemma index_managed known e endpoint hash position l :
  buckets_ok known (pl_Buckets e) -> ManagedAIDRedactionProfile ∈ known -> endpoint_ok (maskEndpoint endpoint) ->
  index_destination url_Parse position (Some l) None (mask_destination maskEndpoint (managed_destination e endpoint hash))
  = inr (Some l, Some position).
Proof.
  intros Hb Hs He. pose proof (proj1 Hb) as Hi. unfold index_destination.
  rewrite compile_mask, (destination_index_ok known) by (by apply managed_destination_ok).
  cbn [ed_Name ed_Kind mask_destination managed_destination]. rewrite String.eqb_refl.
  rewrite bool_decide_eq_false_2 by (by intros [? ?]). cbn [orb].
  assert (Hv : validManagedFallbackDestination url_Parse (mask_destination maskEndpoint (managed_destination e endpoint hash))
    (compileDestinationIndex (managed_destination e endpoint hash)) = true); [|by rewrite Hv].
  assert (Ht : validManagedTransport url_Parse
    (ed_Transport (mask_destination maskEndpoint (managed_destination e endpoint hash))) = true).
  { unfold validManagedTransport. cbn [ed_Transport mask_destination managed_destination mask_transport Protocol Method
      LoggerName Headers TokenEnv BearerEnv Endpoint BatchPlan]. by rewrite He, fmap_empty. }
  unfold validManagedFallbackDestination. rewrite Ht.
  cbn [ed_Routes mask_destination managed_destination cd_routes compileDestinationIndex fmap list_fmap].
  assert (Hsend : forall c, cs_buckets (cr_selector c) = list_to_set Buckets -> validManagedSendRoute
    (mkRoute 1 "all-collected-logs" true [SignalLogs] (mkEffectiveSelector (BucketIDs (pl_Buckets e)) true [] [] [] [] "")
       RouteSend (managed_profiles (pl_Buckets e)) false) c = true).
  { intros c Hc. unfold validManagedSendRoute.
    cbn [er_Index er_Name er_Generated er_Signals er_Action er_IncludesMandatoryFloor er_Selector es_BucketWildcard es_Buckets
      es_Sources es_Connectors es_Actions es_EventNames es_MinSeverity er_RedactionProfileByBucket].
    rewrite Hc, coversCatalog_Buckets, Hi, managed_profiles_size by done. rewrite Nat.eqb_refl.
    assert (forallb (fun b => default "" (managed_profiles (pl_Buckets e) !! b) =? "sensitive") Buckets = true) as ->; [|done].
    apply forallb_forall. intros b Hin%list_elem_of_In. rewrite foldl_sensitive; [done|by rewrite Hi]. }
  rewrite Hsend; [done|]. cbn [cr_selector compileRoute compileSelector er_Selector cs_buckets es_Buckets]. by rewrite Hi.
Qed.

(** The evaluator that [New] builds. *)
Record built (p : Plan) (ev : Evaluator) : Prop := {
  built_destinations : destinations ev = compileDestinationIndex <$> pl_Destinations (effective p);
  built_local : localDestination ev = Some 0%nat;
  built_managed : forall i, managedFallback ev = Some i ->
    exists d, pl_Destinations (effective p) !! i = Some d /\ ed_Name d = ManagedAIDDestinationName;
  built_collection : forall b s, b ∈ pl_Buckets (effective p) -> s ∈ Signals ->
    collection ev !! (eb_Bucket b, s) = Some (Enabled (eb_Collect b) s);
}.

Lemma mask_index (ds : list EffectiveDestination) : compileDestinationIndex <$> (mask_destination maskEndpoint <$> ds) = compileDestinationIndex <$> ds.
Proof. rewrite <-list_fmap_compose. by apply list_fmap_ext. Qed.

Lemma New_plan_ok known p :
  plan_ok known (effective p) -> "" ∉ known -> masked maskEndpoint p ->
  exists ev, New (Some p) = inr ev /\ built p ev.
Proof.
  intros (Hv & Hb & Hs & rest & ms & Hd & Hc & Ho & Hn & Hm) Hk Hmask.
  unfold Router.New, Snapshot. rewrite Hmask. cbn [maskEffectivePlan pl_BucketCatalogVersion with_destinations pl_Buckets
    pl_Destinations]. rewrite Hv. cbn [negb CurrentBucketCatalogVersion Z.eqb Pos.eqb].
  destruct (index_buckets_ok known _ Hb) as (index & -> & Hindex).
  assert (forallb (fun b => bool_decide (b ∈ (list_to_set Buckets ∪ ∅ : gset string))) Buckets = true) as ->.
  { apply forallb_forall. intros b Hin%list_elem_of_In. apply bool_decide_eq_true. set_solver. }
  cbn [negb]. rewrite Hd. rewrite fmap_cons, fmap_app. cbn [index_destinations].
  change (ed_Name (mask_destination maskEndpoint (compileLocalDestination (pl_Buckets (effective p)) (pl_Local (effective p)))))
    with LocalDestinationName.
  change (LocalDestinationName =? "") with false. rewrite bool_decide_eq_false_2 by set_solver.
  rewrite (index_local known) by done. rewrite (index_all known); try done.
  2:{ apply Forall_forall. intros d Hdin. rewrite Forall_forall in Hc. destruct (Hc d Hdin) as (_ & Hl & _). set_solver. }
  assert (Hbuilt : forall i, (i = None \/ exists j d, i = Some j /\ pl_Destinations (effective p) !! j = Some d /\
      ed_Name d = ManagedAIDDestinationName) ->
    built p (mkEvaluator index (compileDestinationIndex <$> (mask_destination maskEndpoint <$> pl_Destinations (effective p)))
      (Some 0%nat) i (digest p))).
  { intros i Hi. split; [apply mask_index|done| |exact Hindex]. cbn. intros j ->. destruct Hi as [?|(j' & d & [= <-] & ? & ?)]; [done|eauto]. }
  rewrite Hd, fmap_cons, fmap_app in Hbuilt.
  destruct Hm as [->|(endpoint & hash & -> & He & _)]; cbn [fmap list_fmap index_destinations].
  - eexists. split; [done|]. apply Hbuilt. by left.
  - change (ed_Name (mask_destination maskEndpoint (managed_destination (effective p) endpoint hash)))
      with ManagedAIDDestinationName. change (ManagedAIDDestinationName =? "") with false.
    rewrite bool_decide_eq_false_2.
    2:{ rewrite elem_of_union, elem_of_list_to_set, elem_of_reverse, list_elem_of_fmap.
        intros [(d & E & Hdin)|Hin]; [|set_solver]. rewrite Forall_forall in Hc. by destruct (Hc d Hdin) as (_ & _ & ? & _). }
    rewrite (index_managed known) by done. eexists. split; [done|]. apply Hbuilt. right.
    exists (1 + length rest)%nat, (managed_destination (effective p) endpoint hash). split_and!; [done| |done].
    rewrite app_comm_cons, lookup_app_r by (cbn; lia). cbn. by rewrite Nat.sub_diag.
Qed.
End Facts.
