(* ===== verification/RouterProps.v ===== *)
(** * The guarantees of routing

    Theorems on the plan compiler, the managed destination and the router
    together: a plan the compiler accepts is one the router accepts; a mandatory
    log reaches the local store under every configuration; the endpoint inventory
    of a managed deployment reaches no configured exporter; nothing with content
    leaves without a known redaction profile; each destination gets a record at
    most once, by its first matching route. *)
From stdpp Require Import base list gmap strings.
From Stdlib Require Import ZArith Lia Ascii.
From S2P Require Import Prelude GoStrings Taxonomy Classification RoutingPlan PlanFacts ManagedPlan ManagedFacts Router RouterFacts.

Local Open Scope string_scope.

(** ** Selection of a route *)

Lemma route_loop_find d m f rs :
  route_loop d m f rs =
  match list_find (fun r => route_applies f m r = true) rs with
  | Some (_, r) => if cr_action r =? RouteSend then [delivery_of d m f r] else []
  | None => []
  end.
Proof.
  induction rs as [|r rs IH]; [done|]. cbn [route_loop list_find].
  destruct (route_applies f m r) eqn:E; cbn [negb].
  - rewrite decide_True by done. by destruct (cr_action r =? RouteSend).
  - rewrite decide_False by done. rewrite IH.
    destruct (list_find _ rs) as [[i r']|] eqn:Ef; cbn; by rewrite ?Ef.
Qed.

(** The first route of a destination that applies to a record. *)
Definition first_match (d : compiledDestination) (m : Metadata) (floorOnly : bool) (r : compiledRoute) : Prop :=
  exists i, cd_routes d !! i = Some r /\ route_applies floorOnly m r = true /\
    forall j r', (j < i)%nat -> cd_routes d !! j = Some r' -> route_applies floorOnly m r' = false.

Definition handles (d : compiledDestination) (m : Metadata) : Prop :=
  cd_enabled d = true /\ id_Signal (m_identity m) ∈ cd_capabilities d /\ id_Signal (m_identity m) ∈ cd_selected d.

Lemma routeDestination_spec d m f x :
  x ∈ routeDestination d m f <->
  handles d m /\ exists r, first_match d m f r /\ cr_action r = RouteSend /\ x = delivery_of d m f r.
Proof.
  unfold routeDestination, handles.
  destruct (cd_enabled d); cbn [negb]; [|split; [by intros ?%elem_of_nil|by intros [[? _] _]]].
  case_bool_decide as Hc; cbn [negb]; [|split; [by intros ?%elem_of_nil|by intros [(_ & ? & _) _]]].
  case_bool_decide as Hs; cbn [negb]; [|split; [by intros ?%elem_of_nil|by intros [(_ & _ & ?) _]]].
  rewrite route_loop_find. destruct (list_find _ _) as [[i r]|] eqn:E.
  - apply list_find_Some in E as (Hl & Ha & Hb).
    assert (Hf : first_match d m f r).
    { exists i. split_and!; [done..|]. intros j r' Hj Hl'. apply not_true_iff_false. by eapply Hb. }
    destruct (String.eqb_spec (cr_action r) RouteSend) as [Hact|Hact].
    + rewrite list_elem_of_singleton. split; [by intros ->; eauto 8|]. intros [_ (r' & (j & Hl' & Ha' & Hb') & _ & ->)].
      destruct (lt_eq_lt_dec i j) as [[Hlt| ->]|Hlt]; [|by simplify_eq|].
      * by rewrite (Hb' i r) in Ha.
      * exfalso. by apply (Hb j r').
    + split; [by intros ?%elem_of_nil|]. intros [_ (r' & (j & Hl' & Ha' & Hb') & Hact' & _)]. exfalso.
      destruct (lt_eq_lt_dec i j) as [[Hlt| ->]|Hlt]; [|by simplify_eq|].
      * by rewrite (Hb' i r) in Ha.
      * by apply (Hb j r').
  - apply list_find_None in E. split; [by intros ?%elem_of_nil|].
    intros [_ (r & (i & Hl & Ha & _) & _)]. rewrite Forall_forall in E. exfalso. apply (E r); [|done].
    by eapply list_elem_of_lookup_2.
Qed.

Lemma routeDestination_length d m f : (length (routeDestination d m f) <= 1)%nat.
Proof.
  unfold routeDestination. repeat (case_match; [cbn; lia|]). rewrite route_loop_find.
  destruct (list_find _ _) as [[i r]|]; [case_match|]; cbn; lia.
Qed.

Lemma routeDestination_name d m f x : x ∈ routeDestination d m f -> DestinationName x = cd_name d.
Proof. rewrite routeDestination_spec. by intros [_ (r & _ & _ & ->)]. Qed.

(** The destinations a record is sent to: all of them, or the local store. *)
Definition targets (ev : Evaluator) (a : Admission) : list compiledDestination :=
  if bool_decide (a = AdmissionFloor)
  then match localDestination ev ≫= fun i => destinations ev !! i with Some d => [d] | None => [] end
  else destinations ev.

Lemma route_targets ev m a :
  route ev m a = concat ((fun d => routeDestination d m (bool_decide (a = AdmissionFloor))) <$> targets ev a).
Proof.
  unfold route, targets. case_bool_decide; [|done].
  destruct (localDestination ev ≫= _) as [d|]; [|done]. cbn. by rewrite app_nil_r.
Qed.

Lemma elem_of_concat_map {A B} (f : A -> list B) (l : list A) x :
  x ∈ concat (f <$> l) <-> exists d, d ∈ l /\ x ∈ f d.
Proof.
  rewrite <-flat_map_concat_map. split.
  - intros Hx%list_elem_of_In. apply in_flat_map in Hx as (d & Hd & Hx). exists d. by rewrite !list_elem_of_In.
  - intros (d & Hd & Hx). apply list_elem_of_In, in_flat_map. exists d. by rewrite <-!list_elem_of_In.
Qed.

Lemma elem_of_route ev m a x :
  x ∈ route ev m a <-> exists d, d ∈ targets ev a /\ x ∈ routeDestination d m (bool_decide (a = AdmissionFloor)).
Proof. by rewrite route_targets, elem_of_concat_map. Qed.

Lemma route_names_sublist m f ds :
  (DestinationName <$> concat ((fun d => routeDestination d m f) <$> ds)) `sublist_of` (cd_name <$> ds).
Proof.
  induction ds as [|d ds IH]; [done|]. cbn. rewrite fmap_app.
  pose proof (routeDestination_length d m f) as Hl. pose proof (routeDestination_name d m f) as Hn.
  destruct (routeDestination d m f) as [|x [|]]; cbn in *; [by constructor| |lia].
  rewrite (Hn x) by apply list_elem_of_here. by constructor.
Qed.

(** ** Plans from a configuration *)

Section Plans.
Context {U : GoUnicode}.
Context (registered_action registered_name : string -> bool) {Settings : Type}.
Context (headers_error : DestinationSource Settings -> string -> option Error).
Context (compileTransport : DestinationSource Settings -> list string -> string -> Error + TransportPlan).
Context (overrides_error : DestinationSource Settings -> list string -> string -> option Error).
Context (destinationCompatibility : EffectiveDestination -> Error + list (string * list SpanFamily)).
Context (galileoCompatibilityProfile : string).
Context (completeProvenance : EffectivePlan -> option (list (string * string * string))).
Context (maskEndpoint : string -> string) (plan_digest : EffectivePlan -> string).
Context (semanticLock_error traceMetric_error resource_error : PlanSource Settings -> option Error).
Context (sourceProvenance : PlanSource Settings -> list EffectiveBucket -> list EffectiveDestination ->
  list (string * string * string)).
Context (url_Parse : string -> option ParsedURL) (has_space : string -> bool).
Context (registered : EventIdentity -> bool) {Content : Type}.

(** The plan the runtime gets: the compiled one, with the managed destination in
    a managed deployment. *)
Definition runtime_plan (source : option (PlanSource Settings)) (options : ManagedAIDOptions) (p : Plan) : Prop :=
  exists compiled,
    CompileObservabilityV8 registered_action registered_name headers_error compileTransport overrides_error
      destinationCompatibility galileoCompatibilityProfile completeProvenance maskEndpoint plan_digest
      semanticLock_error traceMetric_error resource_error sourceProvenance source = inr compiled /\
    WithManagedAIDDestination url_Parse has_space completeProvenance maskEndpoint plan_digest (Some compiled) options
      = inr (Some p).

(** What [net/url] does with a release-owned address: it parses as it was built,
    and masking leaves it as it is. *)
Definition origin_parses : Prop := forall raw o,
  ManagedAIDOrigin url_Parse has_space raw = Some o ->
  validManagedFallbackEndpoint url_Parse (maskEndpoint (o ++ ManagedAIDIngestPath)) = true.

Definition known_of (source : option (PlanSource Settings)) : gset string :=
  known_profiles (src_RedactionProfiles (default empty_source source)).

Notation endpoint_ok := (fun endpoint => validManagedFallbackEndpoint url_Parse endpoint = true).
Notation Admit := (Admit registered).
Notation Evaluate := (Evaluate (Content:=Content) registered).
Notation EvaluateManagedLogFallback := (EvaluateManagedLogFallback (Content:=Content) registered).
Notation validate := (validate registered).

Lemma runtime_plan_ok source options p :
  origin_parses -> runtime_plan source options p ->
  plan_ok maskEndpoint endpoint_ok (known_of source) (effective p) /\ masked maskEndpoint p /\
  "" ∉ known_of source /\ (forall n, n ∈ known_of source <-> n ∈ ep_Name <$> pl_Profiles (effective p)).
Proof.
  intros Ho (compiled & Hc & Hm). apply Compile_base_plan in Hc as (Hb & [Hne Hk] & Hmask).
  pose proof (base_plan_ok maskEndpoint endpoint_ok _ _ (known_sensitive _) Hb) as Hok.
  pose proof (WithManaged_ok completeProvenance maskEndpoint plan_digest url_Parse has_space endpoint_ok Ho
    (known_of source) compiled options p Hok Hmask Hm) as (? & ? & _).
  split_and!; try done. intros n. unfold known_of. rewrite Hk.
  by rewrite (WithManaged_profiles completeProvenance maskEndpoint plan_digest url_Parse has_space compiled options p Hm).
Qed.

Lemma runtime_plan_built source options p ev :
  origin_parses -> runtime_plan source options p -> New url_Parse (Some p) = inr ev -> built p ev.
Proof.
  intros Ho (Hok & Hmask & Hne & _)%runtime_plan_ok Hnew; [|done].
  destruct (New_plan_ok maskEndpoint url_Parse _ p Hok Hne Hmask) as (ev' & E & Hb).
  by assert (ev' = ev) as -> by congruence.
Qed.

(** *** The local store *)

Lemma validate_identity m : validate m = None -> id_Bucket (m_identity m) ∈ Buckets /\ id_Signal (m_identity m) ∈ Signals.
Proof.
  unfold Router.validate, IsRegisteredEventIdentity. intros H.
  destruct (IsBucket (id_Bucket (m_identity m))) eqn:Hb; [|done].
  destruct (IsSignal (id_Signal (m_identity m))) eqn:Hs; [|done].
  by apply IsBucket_elem in Hb; apply IsSignal_elem in Hs.
Qed.

Lemma local_delivery known bs local m f :
  buckets_ok known bs -> id_Signal (m_identity m) = SignalLogs -> id_Bucket (m_identity m) ∈ Buckets ->
  exists d, routeDestination (compileDestinationIndex (compileLocalDestination bs local)) m f = [d] /\
    DestinationName d = LocalDestinationName /\ RedactionProfile d ∈ known /\ MandatoryFloor d = f /\
    DestinationKind d = DestinationLocalSQLite.
Proof.
  intros Hb Hs Hin. destruct (policy_map_lookup _ _ _ Hb Hin) as (p & Hp & Hk).
  unfold routeDestination. cbn [cd_enabled cd_capabilities cd_selected compileDestinationIndex compileLocalDestination
    ed_Enabled ed_Capabilities ed_SelectedSignals negb]. rewrite Hs.
  rewrite bool_decide_eq_true_2 by set_solver. cbn [negb cd_routes compileDestinationIndex compileLocalDestination ed_Routes fmap list_fmap route_loop].
  assert (Ha : route_applies f m (compileRoute (mkRoute 0 "all-collected-logs-and-mandatory-floor" true [SignalLogs]
    (mkEffectiveSelector (BucketIDs bs) true [] [] [] [] "") RouteSend (policy_map bs) true)) = true).
  { unfold route_applies. cbn [cr_includesMandatoryFloor compileRoute er_IncludesMandatoryFloor negb cr_signals er_Signals].
    rewrite andb_false_r, Hs. rewrite bool_decide_eq_true_2 by set_solver. done. }
  rewrite Ha. cbn [negb cr_action compileRoute er_Action]. rewrite String.eqb_refl. cbn [negb].
  eexists. split; [done|]. split; [done|]. split; [|by split].
  unfold delivery_of. rewrite Hs. cbn [RedactionProfile cr_redactionProfileByBucket compileRoute er_RedactionProfileByBucket].
  change (SignalLogs =? SignalMetrics) with false. cbn [negb]. by rewrite Hp.
Qed.

Lemma built_local_destination known p ev :
  plan_ok maskEndpoint endpoint_ok known (effective p) -> built p ev ->
  exists bs local, destinations ev !! 0%nat = Some (compileDestinationIndex (compileLocalDestination bs local)) /\
    buckets_ok known bs.
Proof.
  intros (_ & Hb & _ & rest & ms & Hd & _) Hbuilt. exists (pl_Buckets (effective p)), (pl_Local (effective p)).
  split; [|done]. by rewrite (built_destinations _ _ Hbuilt), Hd.
Qed.

Lemma Admit_cases ev m a :
  Admit (Some ev) m = inr a ->
  validate m = None /\
  ((a = AdmissionOrdinary /\ Collected (Some ev) (id_Bucket (m_identity m)) (id_Signal (m_identity m)) = true) \/
   (Collected (Some ev) (id_Bucket (m_identity m)) (id_Signal (m_identity m)) = false /\
    ((a = AdmissionFloor /\ id_Signal (m_identity m) = SignalLogs /\ m_mandatory m = true) \/
     (a = AdmissionDrop /\ (id_Signal (m_identity m) <> SignalLogs \/ m_mandatory m = false))))).
Proof.
  unfold Router.Admit. destruct (validate m); [done|]. destruct (Collected _ _ _) eqn:Hc; [intros [= <-]; auto|].
  destruct (String.eqb_spec (id_Signal (m_identity m)) SignalLogs), (m_mandatory m) eqn:Em; cbn [andb];
    intros [= <-]; (split; [done|]); right; (split; [done|]); auto.
Qed.

(** What an evaluation that returns a result did. *)
Lemma Evaluate_cases ev m builder res calls :
  Evaluate (Some ev) m builder = (inr res, calls) ->
  exists a, Admit (Some ev) m = inr a /\ res_admission res = a /\
  ((a = AdmissionDrop /\ calls = [] /\ res_record res = None /\ res_deliveries res = []) \/
   (a <> AdmissionDrop /\ calls = [a] /\ exists build record, builder = Some build /\ build a = inr record /\
      r_metadata record = m /\ r_floorOnly record = bool_decide (a = AdmissionFloor) /\
      res_record res = Some record /\ res_deliveries res = route ev m a)).
Proof.
  unfold Router.Evaluate. destruct (Admit (Some ev) m) as [|a] eqn:Ha; [done|]. intros H. exists a. split; [done|].
  destruct (decide (a = AdmissionDrop)) as [->|Hne].
  { injection H as <- <-. split; [done|]. by left. }
  assert (H' : match builder with
    | None => (inl BuilderRequired, [])
    | Some build => match build a with
      | inl e => (inl (BuilderError e), [a])
      | inr record => match verifyBuiltRecord m a record with
        | Some e => (inl e, [a])
        | None => (inr (mkResult a (Some record) (route ev m a)), [a])
        end end end = (inr res, calls)) by (destruct a; done).
  clear H. destruct builder as [build|]; [|done]. destruct (build a) as [|record] eqn:Hb; [done|].
  destruct (verifyBuiltRecord m a record) eqn:Hv; [done|]. injection H' as <- <-.
  split; [done|]. right. split_and!; [done..|]. exists build, record.
  unfold verifyBuiltRecord in Hv. case_bool_decide as Hm; [|done]. cbn [negb] in Hv.
  split_and!; try done. destruct a; [done| |].
  - by destruct (r_floorOnly record).
  - by destruct (m_mandatory _), (r_floorOnly record).
Qed.

(** *** Inventory *)

Lemma drop_applies m actions :
  id_Signal (m_identity m) = SignalLogs -> id_Bucket (m_identity m) = BucketAIDiscovery ->
  m_action m <> "" -> m_action m ∈ actions -> forall index name,
  route_applies false m (compileRoute (mkRoute index name true [SignalLogs]
    (mkEffectiveSelector [BucketAIDiscovery] false [] [] actions [] "") RouteDrop ∅ false)) = true.
Proof.
  intros Hs Hb Hne Hin index name. unfold route_applies, selector_matches.
  cbn [cr_includesMandatoryFloor compileRoute cr_signals er_Signals cr_selector er_Selector compileSelector
    cs_bucketWildcard es_BucketWildcard cs_buckets es_Buckets cs_sources es_Sources cs_connectors es_Connectors
    cs_actions es_Actions cs_eventNames es_EventNames cs_minSeverity es_MinSeverity negb andb orb].
  rewrite Hs, Hb. rewrite bool_decide_eq_true_2 by set_solver. cbn [andb].
  assert (matchesValue (list_to_set actions) (m_action m) "*" = true) as ->; [|done].
  unfold matchesValue. case_match; [done|]. apply String.eqb_neq in Hne. rewrite Hne.
  rewrite (bool_decide_eq_true_2 (m_action m ∈ _)) by (by apply elem_of_list_to_set). by case_bool_decide.
Qed.

Lemma drop_first d m r rs :
  cd_routes d = r :: rs -> route_applies false m r = true -> cr_action r = RouteDrop -> routeDestination d m false = [].
Proof.
  intros Hr Ha Hd. unfold routeDestination. repeat (case_match; [done|]). rewrite Hr. cbn [route_loop].
  by rewrite Ha, Hd.
Qed.

Lemma not_exported d m f :
  exports_logs d = false -> id_Signal (m_identity m) = SignalLogs -> routeDestination (compileDestinationIndex d) m f = [].
Proof.
  intros He Hs. unfold routeDestination. case_match; [done|]. rewrite Hs.
  cbn [cd_capabilities cd_selected compileDestinationIndex].
  assert (Hsup : forall l, Supports l SignalLogs = bool_decide (SignalLogs ∈ (list_to_set l : gset string))).
  { intros l. unfold Supports. apply eq_bool_prop_intro. rewrite bool_decide_spec, elem_of_list_to_set, Is_true_true, existsb_exists.
    split; [intros (x & Hx & ->%String.eqb_eq); by apply list_elem_of_In|].
    intros Hx. exists SignalLogs. split; [by apply list_elem_of_In|apply String.eqb_refl]. }
  unfold exports_logs in He. rewrite !Hsup in He. apply andb_false_iff in He as [E|E]; rewrite E; [done|]. by case_match.
Qed.

Lemma managed_routes e endpoint hash m :
  id_Signal (m_identity m) = SignalLogs -> id_Bucket (m_identity m) = BucketAIDiscovery ->
  m_action m = LocalInventoryDiagnosticAction ->
  routeDestination (compileDestinationIndex (managed_destination e endpoint hash)) m false = [].
Proof.
  intros Hs Hb Ha. eapply drop_first; [reflexivity| |done]. apply drop_applies; rewrite ?Ha; try done.
  apply list_elem_of_here.
Qed.

Lemma inventory_routes known p ev m i d :
  plan_ok maskEndpoint endpoint_ok known (effective p) -> built p ev -> is_managed (effective p) ->
  id_Signal (m_identity m) = SignalLogs -> id_Bucket (m_identity m) = BucketAIDiscovery -> m_action m ∈ ReservedActions ->
  destinations ev !! i = Some d -> routeDestination d m false <> [] ->
  cd_name d = LocalDestinationName \/
  (cd_name d = ManagedAIDDestinationName /\ m_action m <> LocalInventoryDiagnosticAction).
Proof.
  intros (_ & _ & _ & rest & ms & Hd & Hc & _ & _ & Hm) Hbuilt (md & Hmd & Hmn) Hs Hb Ha Hl Hr.
  rewrite (built_destinations _ _ Hbuilt), list_lookup_fmap in Hl. apply fmap_Some in Hl as (e & Hl & ->).
  apply list_elem_of_lookup_2 in Hl. rewrite Hd in Hl, Hmd.
  assert (Hne : m_action m <> "") by (intros E; rewrite E in Ha; vm_compute in Ha; by repeat (apply elem_of_cons in Ha as [Ha|Ha]; [done|]); apply elem_of_nil in Ha).
  destruct Hm as [->|(endpoint & hash & -> & _ & Hres)].
  { exfalso. rewrite app_nil_r in Hmd. apply elem_of_cons in Hmd as [->|Hmd]; [done|].
    rewrite Forall_forall in Hc. by destruct (Hc md Hmd) as (_ & _ & ? & _). }
  apply elem_of_cons in Hl as [->|Hl]; [by left|]. apply elem_of_app in Hl as [Hl|Hl].
  - exfalso. apply Hr. destruct (exports_logs e) eqn:Hx; [|by apply not_exported].
    rewrite Forall_forall in Hres. destruct (Hres e Hl Hx) as [routes Hroutes].
    eapply (drop_first _ _ (compileRoute drop_route) (compileRoute <$> routes)); [|by apply drop_applies|done].
    cbn [cd_routes compileDestinationIndex]. by rewrite Hroutes.
  - apply list_elem_of_singleton in Hl as ->. right. split; [done|]. intros E. by apply Hr, managed_routes.
Qed.

(** *** Profiles *)

Lemma matches_bucket known r m :
  route_ok known r -> selector_matches (compileSelector (er_Selector r)) m = true ->
  id_Bucket (m_identity m) ∈ Buckets -> id_Bucket (m_identity m) ∈ es_Buckets (er_Selector r).
Proof.
  intros (_ & Hw & Hne & Hall & _) Hm Hin. unfold selector_matches in Hm.
  do 5 apply andb_true_iff in Hm as [Hm _].
  cbn [cs_bucketWildcard compileSelector cs_buckets] in Hm.
  destruct (es_BucketWildcard (er_Selector r)); [by rewrite Hw|]. cbn [orb] in Hm. unfold matchesValue in Hm.
  destruct (Nat.eqb_spec (size (list_to_set (es_Buckets (er_Selector r)) : gset string)) 0) as [Hz|_].
  { exfalso. apply size_empty_inv in Hz. destruct (es_Buckets (er_Selector r)); [done|]. set_solver. }
  destruct (_ =? _); [done|]. case_bool_decide as Hstar.
  - exfalso. apply elem_of_list_to_set in Hstar. rewrite Forall_forall in Hall. apply Hall in Hstar.
    by apply IsBucket_elem in Hstar.
  - apply bool_decide_eq_true in Hm. by apply elem_of_list_to_set in Hm.
Qed.

Lemma destination_profile known d m f x :
  destination_ok known d -> id_Bucket (m_identity m) ∈ Buckets -> id_Signal (m_identity m) ∈ Signals ->
  x ∈ routeDestination (compileDestinationIndex d) m f ->
  if id_Signal (m_identity m) =? SignalMetrics then RedactionProfile x = "" else RedactionProfile x ∈ known.
Proof.
  intros (_ & _ & Hr) Hb Hs (_ & r & (i & Hl & Ha & _) & Hact & ->)%routeDestination_spec.
  unfold delivery_of. cbn [RedactionProfile]. destruct (String.eqb_spec (id_Signal (m_identity m)) SignalMetrics); [done|].
  cbn [negb]. cbn [cd_routes compileDestinationIndex] in Hl. rewrite list_lookup_fmap in Hl.
  apply fmap_Some in Hl as (er & Hl & ->). rewrite Forall_forall in Hr. apply list_elem_of_lookup_2, Hr in Hl.
  unfold route_applies in Ha. apply andb_true_iff in Ha as [Ha Hsel]. apply andb_true_iff in Ha as [_ Hsig].
  apply bool_decide_eq_true in Hsig. cbn [cr_signals compileRoute cr_selector cr_redactionProfileByBucket] in *.
  apply elem_of_list_to_set in Hsig. pose proof (matches_bucket known er m Hl Hsel Hb) as Hin.
  destruct Hl as (_ & _ & _ & _ & Hp). destruct (Hp Hact) with (b := id_Bucket (m_identity m)) as (q & -> & Hq); try done.
  unfold HasContentSignal. apply existsb_exists. exists (id_Signal (m_identity m)). split; [by apply list_elem_of_In|].
  unfold Signals in Hs. rewrite !elem_of_cons in Hs. destruct Hs as [E|[E|[E|?%elem_of_nil]]]; [..|done]; rewrite E in *; done.
Qed.

Lemma plan_destination_ok known p ev d :
  plan_ok maskEndpoint endpoint_ok known (effective p) -> built p ev -> d ∈ destinations ev ->
  exists e, d = compileDestinationIndex e /\ destination_ok known e.
Proof.
  intros (_ & Hb & Hsens & rest & ms & Hd & _ & Ho & _ & Hm) Hbuilt Hin.
  rewrite (built_destinations _ _ Hbuilt), Hd in Hin. apply list_elem_of_fmap in Hin as (e & -> & Hin). exists e. split; [done|].
  apply elem_of_cons in Hin as [->|[Hin|Hin]%elem_of_app].
  - split_and!; [done|by apply singleton_order|]. apply Forall_singleton.
    pose proof (proj1 Hb) as Hids. unfold compileLocalDestination. cbn [ed_Routes].
    split_and!; cbn [er_Action er_Selector es_BucketWildcard es_Buckets er_Signals er_RedactionProfileByBucket];
      rewrite ?Hids; [by left|done|done|apply Buckets_all|]. intros _ _ b Hbin. by apply (policy_map_lookup known).
  - rewrite Forall_forall in Ho. by apply Ho.
  - destruct Hm as [->|(endpoint & hash & -> & _)]; [by apply elem_of_nil in Hin|].
    apply list_elem_of_singleton in Hin as ->. by apply managed_destination_ok.
Qed.

(** Only the first destination is the local store. *)
Lemma configured_names known p ev :
  plan_ok maskEndpoint endpoint_ok known (effective p) -> built p ev ->
  Forall (fun d => cd_name d <> LocalDestinationName) (drop 1 (destinations ev)).
Proof.
  intros (_ & _ & _ & rest & ms & Hd & Hc & _ & _ & Hm) Hbuilt.
  rewrite (built_destinations _ _ Hbuilt), Hd, fmap_cons. cbn [drop]. apply Forall_fmap, Forall_app. split.
  - eapply Forall_impl; [exact Hc|]. by intros d (_ & ? & _).
  - destruct Hm as [->|(endpoint & hash & -> & _)]; [constructor|]. by apply Forall_singleton.
Qed.

Lemma targets_sub ev a d : d ∈ targets ev a -> d ∈ destinations ev.
Proof.
  unfold targets. case_bool_decide; [|done]. destruct (localDestination ev) as [i|]; [|by intros ?%elem_of_nil]. cbn.
  destruct (destinations ev !! i) eqn:E; [|by intros ?%elem_of_nil]. intros ->%list_elem_of_singleton.
  by eapply list_elem_of_lookup_2.
Qed.

(** The deliveries of an admitted log: the local one, and no other to the local
    store. *)
Lemma log_route known p ev m a :
  plan_ok maskEndpoint endpoint_ok known (effective p) -> built p ev ->
  id_Signal (m_identity m) = SignalLogs -> id_Bucket (m_identity m) ∈ Buckets ->
  exists local optional, route ev m a = local :: optional /\
    DestinationName local = LocalDestinationName /\ DestinationKind local = DestinationLocalSQLite /\
    MandatoryFloor local = bool_decide (a = AdmissionFloor) /\
    Forall (fun d => DestinationName d <> LocalDestinationName) optional /\ (a = AdmissionFloor -> optional = []) /\
    Forall (fun d => RedactionProfile d ∈ known) (local :: optional).
Proof.
  intros Hok Hbuilt Hs Hb. destruct (built_local_destination _ _ _ Hok Hbuilt) as (bs & local & Hl & Hbs).
  destruct (local_delivery _ bs local m (bool_decide (a = AdmissionFloor)) Hbs Hs Hb) as (d & Hd & Hn & Hk & Hf & Hkind).
  assert (Hall : Forall (fun d => RedactionProfile d ∈ known) (route ev m a)).
  { apply Forall_forall. intros x (dst & Ht & Hx)%elem_of_route. apply targets_sub in Ht.
    destruct (plan_destination_ok _ _ _ _ Hok Hbuilt Ht) as (e & -> & He).
    assert (Hsig : id_Signal (m_identity m) ∈ Signals) by (rewrite Hs; apply list_elem_of_here).
    pose proof (destination_profile _ _ _ _ _ He Hb Hsig Hx) as Hprof. by rewrite Hs in Hprof. }
  pose proof (configured_names _ _ _ Hok Hbuilt) as Hnames.
  destruct (destinations ev) as [|d0 ds] eqn:Eds; [done|]. cbn in Hl. injection Hl as ->.
  set (optional := if bool_decide (a = AdmissionFloor) then [] else concat ((fun d => routeDestination d m false) <$> ds)).
  assert (Er : route ev m a = d :: optional).
  { unfold route, optional. case_bool_decide as Ha.
    - rewrite (built_local _ _ Hbuilt). cbn [mbind option_bind]. rewrite Eds. exact Hd.
    - rewrite Eds, fmap_cons. cbn [concat]. by rewrite Hd. }
  exists d, optional. rewrite Er in Hall. split_and!; try done.
  - unfold optional. case_bool_decide; [constructor|]. apply Forall_forall.
    intros x (dst & Hdst & Hx%routeDestination_name)%elem_of_concat_map. rewrite Hx.
    rewrite Forall_forall in Hnames. by apply Hnames.
  - intros ->. unfold optional. by rewrite bool_decide_eq_true_2.
Qed.

(** ** Theorems *)

(** A configuration that compiles can be run: the router accepts every plan the
    compiler accepts, with or without the managed destination, and finds the
    local store first; what it collects is what the plan says. *)
Theorem compiled_plan_accepted source options p :
  origin_parses -> runtime_plan source options p ->
  exists ev, New url_Parse (Some p) = inr ev /\ localDestination ev = Some 0%nat /\
    (managedFallback ev <> None -> is_managed (effective p)) /\
    forall b s, b ∈ pl_Buckets (effective p) -> s ∈ Signals ->
      Collected (Some ev) (eb_Bucket b) s = Enabled (eb_Collect b) s.
Proof.
  intros Ho (Hok & Hmask & Hne & _)%runtime_plan_ok; [|done].
  destruct (New_plan_ok maskEndpoint url_Parse _ p Hok Hne Hmask) as (ev & E & Hb). exists ev. split_and!; [done|apply Hb| |].
  - destruct (managedFallback ev) as [i|] eqn:Hi; [|done]. intros _.
    destruct (built_managed _ _ Hb i Hi) as (d & Hl & Hn). exists d. split; [by eapply list_elem_of_lookup_2|done].
  - intros b s Hbin Hs. cbn. by rewrite (built_collection _ _ Hb b s Hbin Hs).
Qed.

(** C3: no configuration loses a mandatory log: under every plan its evaluation builds
    one record and delivers it to the local store with a known redaction profile;
    when its bucket is not collected that delivery is the only one and the record
    is the minimal one. *)
Theorem mandatory_log_kept source options p ev m build :
  origin_parses -> runtime_plan source options p -> New url_Parse (Some p) = inr ev ->
  validate m = None -> m_mandatory m = true ->
  (forall a, exists r, build a = inr r /\ r_metadata r = m /\ r_floorOnly r = bool_decide (a = AdmissionFloor)) ->
  exists res a record d,
    Evaluate (Some ev) m (Some build) = (inr res, [a]) /\ build a = inr record /\ res_record res = Some record /\
    d ∈ res_deliveries res /\ DestinationName d = LocalDestinationName /\ RedactionProfile d ∈ known_of source /\
    (Collected (Some ev) (id_Bucket (m_identity m)) SignalLogs = false ->
       a = AdmissionFloor /\ res_deliveries res = [d] /\ MandatoryFloor d = true /\ r_floorOnly record = true).
Proof.
  intros Ho Hp Hnew Hv Hmand Hbuild. pose proof (runtime_plan_built _ _ _ _ Ho Hp Hnew) as Hbuilt.
  apply runtime_plan_ok in Hp as (Hok & _); [|done].
  destruct (built_local_destination _ _ _ Hok Hbuilt) as (bs & local & Hl & Hbs).
  assert (Hsig : id_Signal (m_identity m) = SignalLogs).
  { unfold Router.validate in Hv. rewrite Hmand in Hv. cbn [andb] in Hv.
    repeat (case_match; [done|]). match goal with H : negb (_ =? _) = false |- _ => by apply negb_false_iff, String.eqb_eq in H end. }
  pose proof (proj1 (validate_identity m Hv)) as Hin.
  set (a := if Collected (Some ev) (id_Bucket (m_identity m)) SignalLogs then AdmissionOrdinary else AdmissionFloor).
  assert (Ha : Admit (Some ev) m = inr a).
  { unfold Router.Admit. rewrite Hv, Hsig. unfold a. case_match; [done|]. by rewrite Hmand. }
  destruct (local_delivery _ bs local m (bool_decide (a = AdmissionFloor)) Hbs Hsig Hin) as (d & Hd & Hn & Hk & Hf & _).
  destruct (Hbuild a) as (record & Hrec & Hm & Hfl).
  exists (mkResult a (Some record) (route ev m a)), a, record, d.
  assert (Hver : verifyBuiltRecord m a record = None).
  { unfold verifyBuiltRecord, metadataFromRecord. rewrite bool_decide_eq_true_2 by done. cbn [negb].
    rewrite Hm, Hfl, Hmand. unfold a. by destruct (Collected _ _ _). }
  assert (Hev : Evaluate (Some ev) m (Some build) = (inr (mkResult a (Some record) (route ev m a)), [a])).
  { unfold Router.Evaluate. rewrite Ha. unfold a in *. destruct (Collected _ _ _); by rewrite Hrec, Hver. }
  split_and!; try done.
  - apply elem_of_route. exists (compileDestinationIndex (compileLocalDestination bs local)). split.
    + unfold targets. rewrite (built_local _ _ Hbuilt). cbn. rewrite Hl.
      case_bool_decide; [apply list_elem_of_here|by eapply list_elem_of_lookup_2].
    + rewrite Hd. apply list_elem_of_here.
  - intros Hc. assert (Ea : a = AdmissionFloor) by (unfold a; by rewrite Hc). rewrite Hfl, Hf, Ea. split_and!; try done.
    cbn [res_deliveries]. unfold route. rewrite bool_decide_eq_true_2 by done. rewrite (built_local _ _ Hbuilt). cbn [mbind option_bind].
    rewrite Hl. rewrite Ea in Hd. exact Hd.
Qed.

(** The endpoint inventory of a managed deployment stays where it belongs: a log
    of the discovery bucket with a reserved action goes to the local store and
    the managed destination and nowhere else, and the diagnostic of an incomplete
    inventory does not even go to the managed one, also when collection is off
    and the fallback is consulted. *)
Theorem inventory_stays source options p ev m :
  origin_parses -> runtime_plan source options p -> New url_Parse (Some p) = inr ev -> is_managed (effective p) ->
  id_Signal (m_identity m) = SignalLogs -> id_Bucket (m_identity m) = BucketAIDiscovery -> m_action m ∈ ReservedActions ->
  (forall builder res calls d, Evaluate (Some ev) m builder = (inr res, calls) -> d ∈ res_deliveries res ->
     DestinationName d = LocalDestinationName \/
     (DestinationName d = ManagedAIDDestinationName /\ m_action m <> LocalInventoryDiagnosticAction)) /\
  (forall builder record d calls, EvaluateManagedLogFallback (Some ev) m builder = (inr (Some (record, d)), calls) ->
     m_action m <> LocalInventoryDiagnosticAction).
Proof.
  intros Ho Hp Hnew Hman Hs Hb Ha. pose proof (runtime_plan_built _ _ _ _ Ho Hp Hnew) as Hbuilt.
  apply runtime_plan_ok in Hp as (Hok & _); [|done]. split.
  - intros builder res calls d (a & Hadm & _ & Hev)%Evaluate_cases Hd.
    destruct Hev as [(_ & _ & _ & E)|(_ & _ & build & record & _ & _ & _ & _ & _ & E)]; rewrite E in Hd; [by apply elem_of_nil in Hd|].
    apply elem_of_route in Hd as (dst & Ht & Hd). pose proof (routeDestination_name _ _ _ _ Hd) as ->.
    destruct (decide (a = AdmissionFloor)) as [->|Hne].
    + left. unfold targets in Ht. rewrite bool_decide_eq_true_2, (built_local _ _ Hbuilt) in Ht by done.
      destruct (built_local_destination _ _ _ Hok Hbuilt) as (bs & local & Hl & _). cbn in Ht. rewrite Hl in Ht.
      by apply list_elem_of_singleton in Ht as ->.
    + unfold targets in Ht. rewrite bool_decide_eq_false_2 in Ht, Hd by done.
      apply list_elem_of_lookup in Ht as [i Hi]. eapply inventory_routes; try done.
      intros E'. rewrite E' in Hd. by apply elem_of_nil in Hd.
  - intros builder record d calls H. unfold Router.EvaluateManagedLogFallback in H. destruct (Admit _ _) as [|a]; [done|].
    destruct (_ || _); [done|]. destruct (_ ≫= _) as [dst|] eqn:Hdst; [|done].
    cbn in Hdst. destruct (managedFallback ev) as [i|] eqn:Hi; [|done]. cbn in Hdst.
    destruct (routeDestination dst m false) as [|x [|]] eqn:Hr; [done| |done].
    destruct (inventory_routes _ _ _ m i dst Hok Hbuilt Hman Hs Hb Ha Hdst) as [Hn|[_ ?]]; [by rewrite Hr| |done].
    destruct (built_managed _ _ Hbuilt i Hi) as (e & Hl & En).
    rewrite (built_destinations _ _ Hbuilt), list_lookup_fmap, Hl in Hdst. injection Hdst as <-.
    cbn in Hn. by rewrite En in Hn.
Qed.

(** C24: nothing with content leaves without redaction being decided: every delivery
    of a log or a trace names a redaction profile of the plan, and a delivery of
    a metric names none; no destination gets the record twice. *)
Theorem deliveries_have_profiles source options p ev m builder res calls :
  origin_parses -> runtime_plan source options p -> New url_Parse (Some p) = inr ev ->
  Evaluate (Some ev) m builder = (inr res, calls) ->
  (forall d, d ∈ res_deliveries res ->
     if id_Signal (m_identity m) =? SignalMetrics then RedactionProfile d = ""
     else RedactionProfile d ∈ ep_Name <$> pl_Profiles (effective p)) /\
  NoDup (DestinationName <$> res_deliveries res).
Proof.
  intros Ho Hp Hnew (a & Hadm & _ & Hev)%Evaluate_cases. pose proof (runtime_plan_built _ _ _ _ Ho Hp Hnew) as Hbuilt.
  apply runtime_plan_ok in Hp as (Hok & _ & _ & Hk); [|done].
  assert (E : res_deliveries res = [] \/ res_deliveries res = route ev m a).
  { destruct Hev as [(_ & _ & _ & ?)|(_ & _ & ? & ? & _ & _ & _ & _ & _ & ?)]; auto. }
  clear Hev. destruct E as [->| ->]; [split; [by intros d ?%elem_of_nil|constructor]|].
  apply Admit_cases in Hadm as [Hv _]. destruct (validate_identity m Hv) as [Hb Hs]. split.
  - intros d (dst & Ht & Hd)%elem_of_route. apply targets_sub in Ht.
    destruct (plan_destination_ok _ _ _ _ Hok Hbuilt Ht) as (e & -> & He).
    pose proof (destination_profile _ _ _ _ _ He Hb Hs Hd) as Hprof. case_match; [done|]. by apply Hk.
  - rewrite route_targets. eapply sublist_NoDup; [|apply route_names_sublist].
    assert (Hn : NoDup (cd_name <$> destinations ev)).
    { destruct Hok as (_ & _ & _ & rest & ms & Hd & Hc & _ & Hn & Hm).
      rewrite (built_destinations _ _ Hbuilt), <-list_fmap_compose, Hd.
      change (cd_name ∘ compileDestinationIndex) with ed_Name. rewrite fmap_cons, fmap_app.
      assert (Hlocal : LocalDestinationName ∉ ed_Name <$> rest).
      { intros (d & E & Hin)%list_elem_of_fmap. rewrite Forall_forall in Hc. by destruct (Hc d Hin) as (_ & ? & _). }
      assert (Hmanaged : ManagedAIDDestinationName ∉ ed_Name <$> rest).
      { intros (d & E & Hin)%list_elem_of_fmap. rewrite Forall_forall in Hc. by destruct (Hc d Hin) as (_ & _ & ? & _). }
      apply NoDup_cons. destruct Hm as [->|(endpoint & hash & -> & _)].
      - cbn. by rewrite app_nil_r.
      - split; [|apply NoDup_app; split_and!; [done| |apply NoDup_singleton]].
        + rewrite elem_of_app. intros [?|H]; [done|]. by apply list_elem_of_singleton in H.
        + intros x Hx ->%list_elem_of_singleton. done. }
    unfold targets. case_bool_decide; [|done]. rewrite (built_local _ _ Hbuilt). cbn.
    destruct (destinations ev !! 0%nat); [|constructor]. apply NoDup_singleton.
Qed.

(** A destination gets the record exactly when it is enabled for its signal and
    its first route that applies sends; a record that is not collected is never
    built, and the floor reaches only the local store. *)
Theorem Evaluate_first_match ev m builder res calls :
  Evaluate (Some ev) m builder = (inr res, calls) ->
  let a := res_admission res in
  (forall x, x ∈ res_deliveries res <-> a <> AdmissionDrop /\
     exists d r, d ∈ targets ev a /\ handles d m /\ first_match d m (bool_decide (a = AdmissionFloor)) r /\
       cr_action r = RouteSend /\ x = delivery_of d m (bool_decide (a = AdmissionFloor)) r) /\
  calls = (if bool_decide (a = AdmissionDrop) then [] else [a]) /\
  (is_Some (res_record res) <-> a <> AdmissionDrop) /\
  (forall record, res_record res = Some record ->
     r_metadata record = m /\ r_floorOnly record = bool_decide (a = AdmissionFloor)) /\
  (a = AdmissionOrdinary <-> Collected (Some ev) (id_Bucket (m_identity m)) (id_Signal (m_identity m)) = true) /\
  (a = AdmissionFloor -> m_mandatory m = true /\ id_Signal (m_identity m) = SignalLogs).
Proof.
  intros (a & Hadm & -> & H)%Evaluate_cases. cbv zeta. apply Admit_cases in Hadm as [_ Hadm].
  assert (Hcol : (a = AdmissionOrdinary <-> Collected (Some ev) (id_Bucket (m_identity m)) (id_Signal (m_identity m)) = true) /\
    (a = AdmissionFloor -> m_mandatory m = true /\ id_Signal (m_identity m) = SignalLogs)).
  { destruct Hadm as [[-> ->]|[-> [(-> & ? & ?)|[-> _]]]]; done. }
  destruct H as [(-> & -> & E1 & E2)|(Hne & -> & build & record & _ & _ & Hm & Hf & E1 & E2)]; rewrite E1, E2.
  - split; [intros x; split; [by intros ?%elem_of_nil|by intros [? _]]|]. split; [done|].
    split; [split; [by intros [? ?]|done]|]. split; [done|exact Hcol].
  - split_and!; try apply Hcol.
    + intros x. rewrite elem_of_route. split.
      * intros (d & Ht & (Hh & r & ? & ? & ->)%routeDestination_spec). split; [done|]. eauto 10.
      * intros [_ (d & r & Ht & Hh & ? & ? & ->)]. exists d. split; [done|]. apply routeDestination_spec. eauto.
    + by rewrite bool_decide_eq_false_2.
    + split; [done|by eexists].
    + by intros record' [= <-].
Qed.

(** The managed fallback is no way round collection: it yields a delivery only for
    a log the plan does not collect, that is not mandatory and was not imported,
    and only to the managed destination with the sensitive profile and an
    ordinary record of that very log. *)
Theorem managed_fallback_sound ev m builder record d calls :
  EvaluateManagedLogFallback (Some ev) m builder = (inr (Some (record, d)), calls) ->
  id_Signal (m_identity m) = SignalLogs /\ m_source m <> SourceOTelReceiver /\ m_mandatory m = false /\
  Collected (Some ev) (id_Bucket (m_identity m)) SignalLogs = false /\
  Evaluate (Some ev) m builder = (inr (mkResult AdmissionDrop None []), []) /\
  DestinationName d = ManagedAIDDestinationName /\ DestinationKind d = DestinationOTLP /\
  RedactionProfile d = "sensitive" /\ MandatoryFloor d = false /\
  calls = [AdmissionOrdinary] /\ r_metadata record = m /\ r_floorOnly record = false.
Proof.
  unfold Router.EvaluateManagedLogFallback. destruct (Admit (Some ev) m) as [|a] eqn:Ha; [done|].
  case_bool_decide as Hdrop; [|done]. subst a. cbn [negb orb].
  destruct (String.eqb_spec (id_Signal (m_identity m)) SignalLogs) as [Hs|]; [|done].
  destruct (String.eqb_spec (m_source m) SourceOTelReceiver) as [|Hsrc]; [done|]. cbn [negb orb].
  destruct (_ ≫= _) as [dst|]; [|done]. destruct (routeDestination dst m false) as [|x [|]]; [done| |done].
  destruct (fallback_delivery x) eqn:Hx; [|done]. cbn [negb]. destruct builder as [build|]; [|done].
  destruct (build AdmissionOrdinary) as [|rec] eqn:Hb; [done|].
  destruct (verifyBuiltRecord m AdmissionOrdinary rec) eqn:Hver; [done|]. intros [= <- <- <-].
  assert (Hev : Evaluate (Some ev) m (Some build) = (inr (mkResult AdmissionDrop None []), [])) by (unfold Router.Evaluate; by rewrite Ha).
  apply Admit_cases in Ha as [_ [[? _]|[Hc [[? _]|[_ Hm]]]]]; [done..|]. rewrite Hs in Hc.
  unfold fallback_delivery in Hx. bool_facts. unfold verifyBuiltRecord in Hver. case_bool_decide as Hrec; [|done].
  cbn [negb] in Hver. destruct (r_floorOnly rec) eqn:Hfl; [done|]. destruct Hm as [?|Hm]; [done|].
  by split_and!.
Qed.
End Plans.

(** ** A managed deployment *)

Definition result_or {E A} (d : A) (x : E + A) : A := match x with inr a => a | inl _ => d end.

Definition succeeded {E A} (x : E + A) : bool := match x with inr _ => true | inl _ => false end.

Definition succeeded_some {E A} (x : E + option A) : bool := match x with inr (Some _) => true | _ => false end.

Lemma result_or_ok {E A} (d : A) (x : E + A) : succeeded x = true -> x = inr (result_or d x).
Proof. by destruct x. Qed.

Lemma result_or_some {E A} (d : A) (x : E + option A) :
  succeeded_some x = true -> x = inr (Some (default d (result_or None x))).
Proof. by destruct x as [|[]]. Qed.

#[local] Instance w_unicode : GoUnicode := ascii_only.

Definition w_url (path : string) : ParsedURL :=
  {| u_Scheme := "https"; u_Opaque := ""; u_Host := "aid.example"; u_Hostname := "aid.example"; u_Port := "";
     u_User := false; u_Path := path; u_EscapedPath := path; u_RawPath := ""; u_RawQuery := "";
     u_ForceQuery := false; u_Fragment := ""; u_RawFragment := "" |}.

(** A parser that knows two addresses. *)
Definition w_parse (raw : string) : option ParsedURL :=
  if raw =? "https://aid.example" then Some (w_url "")
  else if raw =? "https://aid.example/api/v1/defenseclaw/events/ingest" then Some (w_url ManagedAIDIngestPath)
  else None.

Definition w_transport : TransportPlan := mkTransport "" "" "https://splunk.example" "" "POST" ∅ "TOKEN" "" "" 10000 None.

(** One Splunk exporter; nothing of the discovery bucket is collected, except by
    order of the release, and nothing of the compliance bucket. *)
Definition w_policy (logs : option bool) : BucketPolicySource :=
  {| bp_Collect := {| cs_Logs := logs; cs_Traces := None; cs_Metrics := None |}; bp_RedactionProfile := "" |}.

Definition w_source : PlanSource () :=
  mkPlanSource _ None (w_policy None)
    {[ "compliance.activity" := w_policy (Some false); BucketAIDiscovery := w_policy (Some false);
       "diagnostic" := w_policy (Some false) ]}
    {[ "ours" := {| ps_Extends := "sensitive"; ps_Detectors := None; ps_FieldClasses := {[ "path" := "remove" ]} |} ]} 0
    {| ls_Path := "/l"; ls_JudgeBodiesPath := "/j"; ls_RetentionDays := None |}
    [mkDestinationSource _ "splunk" DestinationSplunkHEC None "" None None 0 0 ()].

Definition w_compile (source : option (PlanSource ())) : Error + Plan :=
  CompileObservabilityV8 (fun _ => true) (fun _ => true) (fun _ _ => None) (fun _ _ _ => inr w_transport)
    (fun _ _ _ => None) (fun _ => inr []) "" (fun e => Some (pl_Provenance e)) id (fun _ => "digest")
    (fun _ => None) (fun _ => None) (fun _ => None)
    (fun _ _ _ => [(required_path BucketPlatformHealth, "default", ""); (required_path BucketAIDiscovery, "source", "")])
    source.

Definition w_options : ManagedAIDOptions :=
  {| DeploymentMode := "managed_enterprise"; opt_Endpoint := "https://aid.example"; SourceContentHash := "" |}.

Definition no_plan : Plan :=
  let e := mkEffectivePlan 0 {| el_Path := ""; el_JudgeBodiesPath := ""; el_RetentionDays := 0 |} [] [] [] [] in
  mkPlan e e "".

Definition w_compiled : Plan := result_or no_plan (w_compile (Some w_source)).

Definition w_plan : Plan :=
  default no_plan (result_or None
    (WithManagedAIDDestination w_parse (fun _ => false) (fun e => Some (pl_Provenance e)) id (fun _ => "digest")
       (Some w_compiled) w_options)).

Definition w_evaluator : Evaluator :=
  result_or (mkEvaluator ∅ [] None None "") (New w_parse (Some w_plan)).

Definition w_metadata (bucket action : string) (mandatory : bool) : Metadata :=
  mkMetadata (mkIdentity bucket SignalLogs "family.name") "HIGH" true "gateway" "" action mandatory.

Definition w_build (m : Metadata) (a : Admission) : string + BuiltRecord string :=
  inr (mkBuilt m (bool_decide (a = AdmissionFloor)) "body").

Lemma w_origin : origin_parses id w_parse (fun _ => false).
Proof.
  intros raw o. unfold ManagedAIDOrigin. cbv beta.
  destruct ((raw =? "") || (2048 <? slen raw)%Z || negb (valid_utf8 raw) || false) eqn:Eg; [done|].
  destruct (String.eqb_spec raw "https://aid.example") as [->|H1].
  - change (w_parse "https://aid.example") with (Some (w_url "")). intros H. vm_compute in H. injection H as <-.
    by vm_compute.
  - unfold w_parse at 1. rewrite (proj2 (String.eqb_neq _ _) H1).
    destruct (raw =? "https://aid.example/api/v1/defenseclaw/events/ingest"); [|by intros [=]]. intros H. exfalso. revert H. cbn [u_Scheme u_Opaque u_Host u_Hostname u_User
      u_RawQuery u_ForceQuery u_Fragment u_RawFragment u_Path w_url]. by rewrite !orb_true_r.
Qed.

Lemma w_runtime_plan :
  runtime_plan (fun _ => true) (fun _ => true) (fun _ _ => None) (fun _ _ _ => inr w_transport)
    (fun _ _ _ => None) (fun _ => inr []) "" (fun e => Some (pl_Provenance e)) id (fun _ => "digest")
    (fun _ => None) (fun _ => None) (fun _ => None)
    (fun _ _ _ => [(required_path BucketPlatformHealth, "default", ""); (required_path BucketAIDiscovery, "source", "")])
    w_parse (fun _ => false) (Some w_source) w_options w_plan.
Proof.
  exists w_compiled. split; [by apply result_or_ok; vm_compute|]. unfold w_plan.
  match goal with |- ?x = _ => assert (H : succeeded_some x = true) by (vm_compute; reflexivity) end.
  exact (result_or_some _ _ H).
Qed.

Lemma w_new : New w_parse (Some w_plan) = inr w_evaluator.
Proof. apply result_or_ok. vm_compute. reflexivity. Qed.

Lemma w_is_managed : is_managed (effective w_plan).
Proof.
  exists (default (managed_destination (effective w_plan) "" "") (pl_Destinations (effective w_plan) !! 2%nat)).
  split; [|by vm_compute]. apply (list_elem_of_lookup_2 _ 2%nat). vm_compute. reflexivity.
Qed.

Lemma compiled_plan_accepted_witness :
  exists ev, New w_parse (Some w_plan) = inr ev /\ localDestination ev = Some 0%nat.
Proof.
  edestruct (compiled_plan_accepted _ _ _ _ _ _ _ _ _ _ _ _ _ _ _ _ (Some w_source) w_options w_plan w_origin w_runtime_plan)
    as (ev & Hn & Hl & _). eauto.
Defined.

Lemma mandatory_log_kept_witness :
  exists res d, fst (Evaluate (fun _ => true) (Some w_evaluator) (w_metadata "compliance.activity" "setup" true)
      (Some (w_build (w_metadata "compliance.activity" "setup" true)))) = inr res /\
    res_deliveries res = [d] /\ DestinationName d = LocalDestinationName.
Proof.
  set (m := w_metadata "compliance.activity" "setup" true).
  edestruct (mandatory_log_kept _ _ _ _ _ _ _ _ _ _ _ _ _ _ _ _ (fun _ => true) (Some w_source) w_options w_plan _ m (w_build m)
    w_origin w_runtime_plan w_new) as (res & a & rec & d & He & _ & _ & _ & Hn & _ & Hc).
  - vm_compute. reflexivity.
  - reflexivity.
  - intros a. eexists. split; [reflexivity|]. split; reflexivity.
  - destruct Hc as (_ & Hd & _); [vm_compute; reflexivity|]. exists res, d. split_and!; [by rewrite He|done|done].
Defined.

Lemma inventory_stays_witness :
  DestinationName <$> route w_evaluator (w_metadata BucketAIDiscovery ManagedAgentInventoryAction false) AdmissionOrdinary
    = [LocalDestinationName; ManagedAIDDestinationName] /\
  forall builder (res : Result string) calls d,
    Evaluate (fun _ => true) (Some w_evaluator) (w_metadata BucketAIDiscovery LocalInventoryDiagnosticAction false) builder
      = (inr res, calls) -> d ∈ res_deliveries res -> DestinationName d = LocalDestinationName.
Proof.
  split; [by vm_compute|]. intros builder res calls d He Hd.
  edestruct (inventory_stays (Content:=string) _ _ _ _ _ _ _ _ _ _ _ _ _ _ _ _ (fun _ => true) (Some w_source) w_options w_plan _
    (w_metadata BucketAIDiscovery LocalInventoryDiagnosticAction false) w_origin w_runtime_plan w_new w_is_managed) as [H _];
    [reflexivity|reflexivity|by apply (bool_decide_unpack _); vm_compute|].
  destruct (H builder res calls d He Hd) as [Hl|[_ Hne]]; [exact Hl|]. exfalso. exact (Hne eq_refl).
Defined.

Definition w_model_io : Metadata := w_metadata "model.io" "" false.

Definition w_delivered : Result string :=
  match fst (Evaluate (fun _ => true) (Some w_evaluator) w_model_io (Some (w_build w_model_io))) with
  | inr res => res
  | inl _ => mkResult AdmissionDrop None []
  end.

Lemma w_evaluates :
  Evaluate (fun _ => true) (Some w_evaluator) w_model_io (Some (w_build w_model_io)) =
    (inr w_delivered, [AdmissionOrdinary]).
Proof. vm_compute. reflexivity. Qed.

Lemma deliveries_have_profiles_witness :
  RedactionProfile <$> res_deliveries w_delivered = ["none"; "none"; "sensitive"] /\
  NoDup (DestinationName <$> res_deliveries w_delivered).
Proof.
  split; [vm_compute; reflexivity|].
  exact (proj2 (deliveries_have_profiles _ _ _ _ _ _ _ _ _ _ _ _ _ _ _ _ (fun _ => true) (Some w_source) w_options w_plan
    w_evaluator w_model_io (Some (w_build w_model_io)) w_delivered [AdmissionOrdinary] w_origin w_runtime_plan w_new
    w_evaluates)).
Defined.

Lemma Evaluate_first_match_witness :
  exists res, fst (Evaluate (fun _ => true) (Some w_evaluator) (w_metadata "diagnostic" "" false) (None : option (RecordBuilder string))) = inr res /\
    res_admission res = AdmissionDrop /\ res_record res = None /\ res_deliveries res = [].
Proof.
  exists (mkResult AdmissionDrop None []). split; [vm_compute; reflexivity|].
  assert (He : Evaluate (fun _ => true) (Some w_evaluator) (w_metadata "diagnostic" "" false) (None : option (RecordBuilder string)) =
    (inr (mkResult AdmissionDrop None []), [])) by (vm_compute; reflexivity).
  destruct (Evaluate_first_match _ _ _ _ _ _ He) as (_ & _ & Hr & _). split_and!; [done| |done].
  cbn. cbn in Hr. tauto.
Defined.

Lemma managed_fallback_sound_witness :
  exists rec d calls, EvaluateManagedLogFallback (fun _ => true) (Some w_evaluator) (w_metadata "diagnostic" "" false)
      (Some (w_build (w_metadata "diagnostic" "" false))) = (inr (Some (rec, d)), calls) /\
    DestinationName d = ManagedAIDDestinationName /\ RedactionProfile d = "sensitive".
Proof.
  do 3 eexists. split; [vm_compute; reflexivity|].
  edestruct (managed_fallback_sound (fun _ => true) w_evaluator (w_metadata "diagnostic" "" false)
    (Some (w_build (w_metadata "diagnostic" "" false)))) as (_ & _ & _ & _ & _ & Hn & _ & Hp & _); [vm_compute; reflexivity|].
  split; [exact Hn|exact Hp].
Defined.
