(* ===== verification/ProfileAdapter.v ===== *)
(** * From the plan to the redaction catalog
    (internal/config/observability_v8_redaction_adapter.go)

    The profiles of an effective plan, rebuilt as profiles of the redaction
    engine: each one is checked again, built-in profiles must be those of the
    engine, and the custom ones go through the constructor of the engine.  The
    facts say that nothing a compiled plan holds is rejected, and that every
    profile arrives with the modes and detector groups the plan gave it. *)
From stdpp Require Import base list gmap strings sorting pretty.
From Stdlib Require Import ZArith Lia Ascii.
From S2P Require Import Prelude GoStrings Taxonomy RedactionProfile RoutingPlan PlanFacts.

Local Open Scope string_scope.

(** ** Vocabularies *)

Definition adaptProfileName (value : string) : option string :=
  if value =? ProfileNone then Some ProfileNone
  else if value =? ProfileSensitive then Some ProfileSensitive
  else if value =? ProfileContent then Some ProfileContent
  else if value =? ProfileStrict then Some ProfileStrict
  else if value =? ProfileLegacyV7 then Some ProfileLegacyV7
  else None.

Definition adapt_group (value : string) : option string :=
  if value =? DetectorPII then Some DetectorGroupPII
  else if value =? DetectorCredentials then Some DetectorGroupCredentials
  else if value =? DetectorSecrets then Some DetectorGroupSecrets
  else None.

Fixpoint adaptDetectorGroups (path : string) (seen values : list string) : Error + list string :=
  match values with
  | [] => inr []
  | value :: r =>
      match adapt_group value with
      | None => inl (path, "unknown detector group")
      | Some group =>
          if bool_decide (group ∈ seen) then inl (path, "duplicate detector group")
          else match adaptDetectorGroups path (group :: seen) r with
               | inl e => inl e
               | inr groups => inr (group :: groups)
               end
      end
  end.

(** The classes of the configuration, in the order of the adapter's array, have
    the names of those of the engine. *)
Definition adaptFieldClass (value : string) : option string :=
  if existsb (String.eqb value) FieldClasses then Some value else None.

Definition adaptFieldMode (value : string) : option string :=
  if isTransformationMode value then Some value else None.

Fixpoint adapt_cells (path : string) (cells : gmap string string) (classes : list string) :
    Error + list (string * string) :=
  match classes with
  | [] => inr []
  | class :: r =>
      match cells !! class with
      | None => inl (path ++ "." ++ class, "canonical field class is missing")
      | Some mode =>
          match adaptFieldClass class with
          | None => inl (path, "adapter does not map canonical field class")
          | Some adaptedClass =>
              match adaptFieldMode mode with
              | None => inl (path ++ "." ++ class, "unknown transformation mode")
              | Some adaptedMode =>
                  match adapt_cells path cells r with
                  | inl e => inl e
                  | inr result => inr ((adaptedClass, adaptedMode) :: result)
                  end
              end
          end
      end
  end.

Definition adaptFieldModes (values : gmap string string) (path : string) : Error + list (string * string) :=
  if negb (size values =? length FieldClasses)%nat then inl (path, "unexpected number of field classes")
  else match adapt_cells path values FieldClasses with
       | inl e => inl e
       | inr result =>
           if forallb (fun c => existsb (fun cell => fst cell =? c) result) FieldClasses then inr result
           else inl (path, "runtime field class is not mapped by the adapter")
       end.

Definition sameDetectorGroups (left right : list string) : bool :=
  (length left =? length right)%nat && forallb (fun g => existsb (String.eqb g) left) right.

(** ** Profiles *)

Section Adapter.
Variable sha256 : string -> string.

(** [modes[class]] of the adapted map. *)
Definition cell_mode (cells : list (string * string)) (class : string) : string :=
  from_option snd "" (find (fun cell => fst cell =? class) cells).

Definition validateEffectiveBuiltIn (effective : EffectiveProfile) (want : Profile) (path : string) : option Error :=
  if negb (ep_BuiltIn effective) then Some (path ++ ".built_in", "required built-in profile is marked custom")
  else if negb (ep_Extends effective =? "") then Some (path ++ ".extends", "built-in profile must not extend")
  else match adaptDetectorGroups (path ++ ".detectors") [] (ep_Detectors effective) with
       | inl e => Some e
       | inr grps =>
           if negb (sameDetectorGroups grps (profile_DetectorGroups want))
           then Some (path ++ ".detectors", "detector groups drifted from the runtime contract")
           else match adaptFieldModes (ep_FieldClasses effective) (path ++ ".field_classes") with
                | inl e => Some e
                | inr cells =>
                    if forallb (fun c => match Mode want c with Some m => cell_mode cells c =? m | None => false end)
                         FieldClasses
                    then None else Some (path ++ ".field_classes", "mode drifted from the runtime contract")
                end
       end.

Definition adaptEffectiveCustomProfile (effective : EffectiveProfile) (path : string) : Error + Profile :=
  if ep_BuiltIn effective then inl (path ++ ".built_in", "custom profile is marked built-in")
  else match adaptProfileName (ep_Extends effective) with
  | None => inl (path ++ ".extends", "expected sensitive, content, or strict")
  | Some b =>
      if negb (b =? ProfileSensitive) && negb (b =? ProfileContent) && negb (b =? ProfileStrict)
      then inl (path ++ ".extends", "expected sensitive, content, or strict")
      else match adaptDetectorGroups (path ++ ".detectors") [] (ep_Detectors effective) with
      | inl e => inl e
      | inr grps =>
          match adaptFieldModes (ep_FieldClasses effective) (path ++ ".field_classes") with
          | inl e => inl e
          | inr cells =>
              match NewCustomProfile sha256 (ep_Name effective) b (Some grps) cells with
              | inl _ => inl (path, "invalid effective custom profile")
              | inr p => inr p
              end
          end
      end
  end.

(** The loop over the profiles: the custom ones, adapted. *)
Fixpoint adapt_profiles (index : nat) (seen : list string) (profiles : list EffectiveProfile) :
    Error + (list Profile * list string) :=
  match profiles with
  | [] => inr ([], seen)
  | effective :: r =>
      let path := "observability.redaction_profiles[" ++ pretty index ++ "]" in
      if ep_Name effective =? "" then inl (path ++ ".name", "must not be empty")
      else if bool_decide (ep_Name effective ∈ seen) then inl (path ++ ".name", "profile is duplicated")
      else
        let seen := ep_Name effective :: seen in
        match BuiltInProfile sha256 (ep_Name effective) with
        | Some builtIn =>
            match validateEffectiveBuiltIn effective builtIn path with
            | Some e => inl e
            | None => adapt_profiles (S index) seen r
            end
        | None =>
            if ep_BuiltIn effective then inl (path, "unknown built-in profile")
            else match adaptEffectiveCustomProfile effective path with
                 | inl e => inl e
                 | inr adapted =>
                     match adapt_profiles (S index) seen r with
                     | inl e => inl e
                     | inr (custom, seen) => inr (adapted :: custom, seen)
                     end
                 end
        end
  end.

Definition buildRedactionProfileCatalog (profiles : list EffectiveProfile) : Error + gmap string Profile :=
  let builtIns := builtInProfiles sha256 in
  if (zlen builtIns + MaxRedactionProfiles <? zlen profiles)%Z
  then inl ("observability.redaction_profiles", "too many effective profiles")
  else match adapt_profiles 0 [] profiles with
       | inl e => inl e
       | inr (custom, seen) =>
           if negb (forallb (fun b => existsb (String.eqb (name (snd b))) seen) builtIns)
           then inl ("observability.redaction_profiles", "required built-in profile is missing")
           else match NewProfileCatalog sha256 custom with
                | inl _ => inl ("observability.redaction_profiles", "construct runtime catalog")
                | inr catalog => inr catalog
                end
       end.

Definition RedactionProfileCatalog (plan : option Plan) : Error + gmap string Profile :=
  match plan with
  | None => inl ("observability v8 redaction profile catalog", "plan is nil")
  | Some p => buildRedactionProfileCatalog (pl_Profiles (effective p))
  end.

Definition ResolveLocalRedactionProfile (plan : option Plan) (bucket : string) : Error + string :=
  match plan with
  | None => inl ("observability v8 local profile", "plan is nil")
  | Some p =>
      match find (fun policy => eb_Bucket policy =? bucket) (pl_Buckets (effective p)) with
      | None => inl ("observability v8 local profile", "bucket is not in the compiled catalog")
      | Some policy =>
          if IsStableToken (eb_RedactionProfile policy) then inr (eb_RedactionProfile policy)
          else inl ("observability v8 local profile", "bucket has an invalid profile")
      end
  end.
End Adapter.

(** ** What the compiler gives to the adapter *)

Definition custom_ok (e : EffectiveProfile) : Prop :=
  ep_BuiltIn e = false /\ StableName (ep_Name e) = true /\ config_builtin (ep_Name e) = None /\
  ep_Extends e ∈ [ProfileSensitive; ProfileContent; ProfileStrict] /\
  (ep_Detectors e <> [] /\ NoDup (ep_Detectors e) /\ Forall (fun g => g ∈ DetectorGroups) (ep_Detectors e)) /\
  (forall class, IsFieldClass class = true <-> is_Some (ep_FieldClasses e !! class)) /\
  (forall class mode, ep_FieldClasses e !! class = Some mode ->
     isTransformationMode mode = true /\ strength_error (ep_Detectors e) (class, mode) = None).

Definition profiles_ok (ps : list EffectiveProfile) : Prop :=
  exists custom, ps = ((snd <$> config_builtins) ++ custom)%list /\ Forall custom_ok custom /\
    NoDup (ep_Name <$> custom) /\ (zlen custom <= MaxRedactionProfiles)%Z.

(** The profile of the engine that stands for an effective one. *)
Definition represents (sha256 : string -> string) (e : EffectiveProfile) (p : Profile) : Prop :=
  name p = ep_Name e /\ trusted sha256 p /\
  (forall class, IsFieldClass class = true -> Mode p class = ep_FieldClasses e !! class) /\
  (forall g, g ∈ profile_DetectorGroups p <-> g ∈ ep_Detectors e).

Lemma detector_groups_sound path grps : forall seen,
  detector_groups_error path seen grps = None ->
  NoDup grps /\ Forall (fun g => g ∈ DetectorGroups /\ g ∉ seen) grps.
Proof.
  induction grps as [|g r IH]; intros seen H; cbn [detector_groups_error] in H; [split; constructor|].
  destruct (existsb _ _) eqn:He; [|done]. cbn [negb] in H. case_bool_decide as Hs; [done|].
  apply IH in H as [Hnd Hall]. rewrite Forall_forall in Hall. split.
  - constructor; [|done]. intros Hg. destruct (Hall g Hg). set_solver.
  - constructor.
    + split; [|done]. apply existsb_exists in He as (x & Hx & ->%String.eqb_eq).
      apply list_elem_of_In in Hx. unfold DetectorGroups. revert Hx.
      unfold DetectorPII, DetectorCredentials, DetectorSecrets, DetectorGroupPII, DetectorGroupCredentials, DetectorGroupSecrets.
      set_solver.
    + apply Forall_forall. intros x Hx. destruct (Hall x Hx). set_solver.
Qed.

Lemma config_builtin_extends n base :
  config_builtin n = Some base -> (n =? "none") || (n =? "legacy-v7") = false ->
  n ∈ [ProfileSensitive; ProfileContent; ProfileStrict] /\
  ep_Detectors base = [DetectorPII; DetectorCredentials; DetectorSecrets] /\
  (forall class, IsFieldClass class = true <-> is_Some (ep_FieldClasses base !! class)) /\
  (forall class mode, ep_FieldClasses base !! class = Some mode -> isTransformationMode mode = true).
Proof.
  unfold config_builtin. intros (kv & Hf & ->)%fmap_Some Hn. apply find_some in Hf as [Hin E%String.eqb_eq]. subst n.
  assert (Hmap : forall cells : list (string * string), fst <$> cells = FieldClasses ->
    Forall (fun cell => isTransformationMode (snd cell) = true) cells ->
    (forall class, IsFieldClass class = true <-> is_Some ((list_to_map cells : gmap string string) !! class)) /\
    (forall class mode, (list_to_map cells : gmap string string) !! class = Some mode ->
       isTransformationMode mode = true)).
  { intros cells Hk Hm. rewrite Forall_forall in Hm. split.
    - intros class. rewrite <-elem_of_dom, dom_list_to_map_L, elem_of_list_to_set.
      change (fst <$> cells) with (map fst cells) in Hk. unfold IsFieldClass. rewrite <-Hk, existsb_exists. split.
      + intros (x & Hx & ->%String.eqb_eq). by apply list_elem_of_In.
      + intros Hx. exists class. split; [by apply list_elem_of_In|apply String.eqb_refl].
    - intros class mode Hl. apply elem_of_list_to_map_2 in Hl. by apply (Hm (class, mode)). }
  destruct Hin as [<-|[<-|[<-|[<-|[<-|[]]]]]]; [by vm_compute in Hn| | | |by vm_compute in Hn];
    (split; [cbn [fst]; unfold ProfileSensitive, ProfileContent, ProfileStrict; set_solver|]; split; [done|]);
    cbn [snd ep_FieldClasses].
  all: try (apply Hmap; [done|repeat constructor]).
  change content_modes with (list_to_map [(FieldClassMetadata, ModePreserve); (FieldClassIdentifier, ModePreserve);
    (FieldClassContent, ModeWhole); (FieldClassReason, ModeWhole); (FieldClassEvidence, ModeWhole);
    (FieldClassError, ModeWhole); (FieldClassPath, ModeHash); (FieldClassCredential, ModeRemove)] : gmap string string).
  apply Hmap; [done|repeat constructor].
Qed.

Lemma compile_profile_custom n source p :
  profile_name_error n = None -> compile_profile n source = inr p -> custom_ok p.
Proof.
  unfold profile_name_error. intros Hn H.
  destruct (StableName n) eqn:Hst; [|done]. cbn [negb] in Hn. destruct (config_builtin n) eqn:Hbn; [done|]. clear Hn.
  unfold compile_profile in H. cbv zeta in H. destruct (config_builtin (ps_Extends source)) as [base|] eqn:Hb; [|done].
  destruct ((ps_Extends source =? "none") || (ps_Extends source =? "legacy-v7")) eqn:Hx; [done|].
  destruct (config_builtin_extends _ _ Hb Hx) as (Hext & Hdet & Hdom & Hmodes).
  case_bool_decide as Hd; [done|].
  destruct (detector_groups_error _ _ _) eqn:Hg; [done|]. apply detector_groups_sound in Hg as [Hnd Hall].
  destruct (first_error _) eqn:Hov; [done|].
  destruct (validateProfileStrength _) eqn:Hs; [done|].
  assert (p = mkEffectiveProfile n false (ps_Extends source) (default (ep_Detectors base) (ps_Detectors source))
    (ps_FieldClasses source ∪ ep_FieldClasses base)) as -> by congruence. clear H.
  apply first_error_None in Hov. rewrite Forall_fmap, Forall_forall in Hov.
  assert (Hsrc : forall class mode, ps_FieldClasses source !! class = Some mode ->
    IsFieldClass class = true /\ isTransformationMode mode = true).
  { intros class mode Hl. specialize (Hov (class, mode) (proj2 (elem_of_map_to_list _ _ _) Hl)).
    unfold compose, mode_override_error in Hov. cbn [fst snd] in Hov. destruct (IsFieldClass class); [|done].
    cbn [negb] in Hov. by destruct (isFieldMode mode) eqn:E. }
  split_and!; [done|done|done|done| |done| | |]; cbn [ep_FieldClasses ep_Detectors].
  - destruct (ps_Detectors source) as [[|g r]|] eqn:E; [by destruct Hd|done|]. cbn. by rewrite Hdet.
  - eapply Forall_impl; [exact Hall|by intros ? [? _]].
  - intros class. rewrite lookup_union_is_Some, <-Hdom. split; [by right|]. intros [[m Hl]|?]; [|done]. by eapply Hsrc.
  - intros class mode Hl. unfold validateProfileStrength in Hs. apply first_error_None in Hs.
    rewrite Forall_fmap, Forall_forall in Hs.
    specialize (Hs (class, mode) (proj2 (elem_of_map_to_list _ _ _) Hl)). split; [|exact Hs].
    apply lookup_union_Some_raw in Hl as [Hl|[_ Hl]]; [by eapply Hsrc|by eapply Hmodes].
Qed.

Lemma compileProfiles_ok source ps known :
  (Z.of_nat (size source) <= MaxRedactionProfiles)%Z -> compileProfiles source = inr (ps, known) -> profiles_ok ps.
Proof.
  unfold compileProfiles. intros Hsz H. destruct (first_error _) eqn:He; [done|].
  destruct (compile_profiles _ _) as [|rest] eqn:Hr; [done|].
  assert (ps = ((snd <$> config_builtins) ++ rest)%list) as -> by congruence. clear H.
  apply first_error_None in He. rewrite Forall_fmap in He.
  pose proof (compile_profiles_names _ _ _ Hr) as Hnames.
  assert (Hperm : ep_Name <$> rest ≡ₚ fst <$> map_to_list source)
    by (rewrite Hnames; apply merge_sort_Permutation).
  exists rest. split_and!; [done| |rewrite Hperm; apply NoDup_fst_map_to_list|].
  - rewrite <-Hperm in He. rewrite <-Hnames in Hr. clear -He Hr. revert He Hr. generalize (ep_Name <$> rest) as names.
    intros names. revert rest. induction names as [|n names IH]; intros rest He Hr; cbn [compile_profiles] in Hr;
      [injection Hr as <-; constructor|].
    apply Forall_cons_1 in He as [Hn He].
    destruct (compile_profile _ _) as [|p] eqn:Hp; [done|]. destruct (compile_profiles source names) as [|r]; [done|].
    injection Hr as <-. constructor; [by eapply compile_profile_custom|by apply IH].
  - unfold zlen. rewrite <-(length_fmap ep_Name), Hperm, length_fmap, length_map_to_list. exact Hsz.
Qed.

(** ** The adapter accepts them *)

Lemma adapt_group_id g : g ∈ DetectorGroups -> adapt_group g = Some g.
Proof.
  unfold DetectorGroups. rewrite !elem_of_cons, elem_of_nil. by intros [->|[->|[->|[]]]].
Qed.

Lemma adaptDetectorGroups_id path grps : forall seen,
  NoDup grps -> Forall (fun g => g ∈ DetectorGroups /\ g ∉ seen) grps ->
  adaptDetectorGroups path seen grps = inr grps.
Proof.
  induction grps as [|g r IH]; intros seen Hnd Hall; [done|].
  apply NoDup_cons in Hnd as [Hg Hnd]. apply Forall_cons_1 in Hall as [[Hin Hs] Hall]. cbn [adaptDetectorGroups].
  rewrite adapt_group_id by done. rewrite bool_decide_eq_false_2 by done. rewrite IH; [done..|].
  rewrite Forall_forall in Hall |- *. intros x Hx. split; [by apply Hall|]. apply Hall in Hx as Hy. set_solver.
Qed.

(** The cells of a complete map, in the order of the classes. *)
Definition cells_of (m : gmap string string) : list (string * string) :=
  (fun c => (c, default "" (m !! c))) <$> FieldClasses.

Lemma adaptFieldModes_total m path :
  (forall class, IsFieldClass class = true <-> is_Some (m !! class)) ->
  (forall class mode, m !! class = Some mode -> isTransformationMode mode = true) ->
  adaptFieldModes m path = inr (cells_of m).
Proof.
  intros Hdom Hmodes. unfold adaptFieldModes.
  assert (Hsz : size m = length FieldClasses).
  { rewrite <-size_dom. assert (E : dom m = list_to_set FieldClasses).
    { apply set_eq. intros c. rewrite elem_of_dom, <-Hdom, elem_of_list_to_set. unfold IsFieldClass.
      rewrite existsb_exists. split.
      - intros (x & Hx & ->%String.eqb_eq). by apply list_elem_of_In.
      - intros Hc. exists c. split; [by apply list_elem_of_In|apply String.eqb_refl]. }
    rewrite E, size_list_to_set; [done|]. apply (bool_decide_unpack _). by vm_compute. }
  rewrite Hsz, Nat.eqb_refl. cbn [negb].
  assert (Hc : forall classes, Forall (fun c => IsFieldClass c = true) classes ->
    adapt_cells path m classes = inr ((fun c => (c, default "" (m !! c))) <$> classes)).
  { induction classes as [|c r IH]; intros Hall; [done|]. apply Forall_cons_1 in Hall as [Hc Hr].
    cbn [adapt_cells]. destruct (proj1 (Hdom c) Hc) as [mode Hl]. rewrite Hl. unfold adaptFieldClass.
    change (existsb (String.eqb c) FieldClasses) with (IsFieldClass c). rewrite Hc. unfold adaptFieldMode.
    rewrite (Hmodes _ _ Hl), (IH Hr). rewrite fmap_cons, Hl. done. }
  rewrite Hc by (repeat constructor). reflexivity.
Qed.

Section Adapter.
Context (sha256 : string -> string).

Lemma StableName_token n : StableName n = true -> IsStableToken n = true.
Proof.
  destruct n as [|c r]; [done|]. unfold StableName, IsStableToken.
  intros [[Hc Hn]%andb_true_iff Hl%Z.leb_le]%andb_true_iff.
  assert (Hr : sall stable_byte r = true).
  { revert Hn. clear. induction r as [|d r IH]; [done|]. cbn [sall]. intros [Hd Hr]%andb_true_iff.
    rewrite (IH Hr), andb_true_r. unfold name_tail in Hd. unfold stable_byte.
    change (stable_first d) with (name_first d). destruct (name_first d); [done|].
    cbn [orb] in *. destruct (Ascii.eqb d "_"); [done|]. cbn [orb] in *. rewrite Hd. apply orb_true_r. }
  rewrite Hr, andb_true_r. apply andb_true_iff. split; [|exact Hc]. apply Z.leb_le.
  unfold slen in *. cbn [String.length]. unfold MaxStableTokenBytes. lia.
Qed.

Lemma builtin_names n : config_builtin n = None <-> BuiltInProfile sha256 n = None.
Proof.
  unfold config_builtin, BuiltInProfile, config_builtins, builtInProfiles. cbn [find fst].
  unfold ProfileNone, ProfileSensitive, ProfileContent, ProfileStrict, ProfileLegacyV7.
  repeat (case_match; [by split|]). done.
Qed.

(** The groups a selection stands for. *)
Notation groups_of sel := (omap (fun '(g, enabled) => if (enabled : bool) then Some g else None) (zip DetectorGroups sel)).

Lemma select_groups_all gs : forall sel,
  length sel = 3%nat -> NoDup gs -> Forall (fun g => g ∈ DetectorGroups /\ g ∉ groups_of sel) gs ->
  exists sel', select_groups gs sel = inr sel' /\ forall g, g ∈ groups_of sel' <-> g ∈ groups_of sel \/ g ∈ gs.
Proof.
  induction gs as [|g gs IH]; intros sel Hlen Hnd Hall; [exists sel; set_solver|].
  apply NoDup_cons in Hnd as [Hg Hnd]. apply Forall_cons_1 in Hall as [[Hin Hs] Hall].
  assert (Hstep : exists i, detectorGroupIndex g = Some i /\ default false (sel !! i) = false /\
    forall x, x ∈ groups_of (<[i := true]> sel) <-> x ∈ groups_of sel \/ x = g).
  { destruct sel as [|a [|b [|c [|]]]]; try done. unfold DetectorGroups in Hin.
    rewrite !elem_of_cons, elem_of_nil in Hin. destruct Hin as [->|[->|[->|[]]]];
      [exists 0%nat|exists 1%nat|exists 2%nat]; (split; [done|]);
      revert Hs; destruct a, b, c; cbn; intros Hs; (split; [try done; exfalso; apply Hs; set_solver|set_solver]). }
  destruct Hstep as (i & Hi & Hf & Hx). cbn [select_groups]. rewrite Hi, Hf.
  destruct (IH (<[i := true]> sel)) as (sel' & Hs' & Hx'); [by rewrite length_insert|done| |].
  - rewrite Forall_forall in Hall |- *. intros x Hxin. destruct (Hall x Hxin) as [? Hn]. split; [done|].
    rewrite Hx. by intros [?| ->].
  - exists sel'. split; [done|]. intros x. rewrite Hx', Hx, elem_of_cons. tauto.
Qed.

Lemma apply_overrides_step c mode r ms i :
  fieldClassIndex c = Some i -> isTransformationMode mode = true ->
  apply_overrides ((c, mode) :: r) ms = apply_overrides r (<[i := mode]> ms).
Proof. intros Hi Hm. cbn [apply_overrides]. by rewrite Hi, Hm. Qed.

Lemma apply_overrides_all m ms :
  length ms = length FieldClasses ->
  (forall class, IsFieldClass class = true -> isTransformationMode (default "" (m !! class)) = true) ->
  apply_overrides (cells_of m) ms = inr (snd <$> cells_of m).
Proof.
  intros Hlen Hm. do 8 (destruct ms as [|? ms]; [done|]). destruct ms; [|done]. clear Hlen.
  unfold cells_of, FieldClasses. rewrite !fmap_cons, fmap_nil.
  rewrite (apply_overrides_step FieldClassMetadata _ _ _ 0 eq_refl (Hm FieldClassMetadata eq_refl)),
    (apply_overrides_step FieldClassIdentifier _ _ _ 1 eq_refl (Hm FieldClassIdentifier eq_refl)),
    (apply_overrides_step FieldClassContent _ _ _ 2 eq_refl (Hm FieldClassContent eq_refl)),
    (apply_overrides_step FieldClassReason _ _ _ 3 eq_refl (Hm FieldClassReason eq_refl)),
    (apply_overrides_step FieldClassEvidence _ _ _ 4 eq_refl (Hm FieldClassEvidence eq_refl)),
    (apply_overrides_step FieldClassError _ _ _ 5 eq_refl (Hm FieldClassError eq_refl)),
    (apply_overrides_step FieldClassPath _ _ _ 6 eq_refl (Hm FieldClassPath eq_refl)),
    (apply_overrides_step FieldClassCredential _ _ _ 7 eq_refl (Hm FieldClassCredential eq_refl)).
  reflexivity.
Qed.

Lemma classes_error_none grps custom cells :
  Forall (fun cell => class_error grps custom (fst cell) (snd cell) = None) cells ->
  classes_error grps custom cells = None.
Proof. induction 1 as [|[c m] cells H _ IH]; [done|]. cbn [classes_error fst snd] in *. by rewrite H. Qed.

(** The checks of the compiler are those of the engine. *)
Lemma strength_class detectors grps class mode :
  detectors <> [] -> grps <> [] -> isTransformationMode mode = true ->
  strength_error detectors (class, mode) = None -> class_error grps true class mode = None.
Proof.
  intros Hd Hg Hm. unfold strength_error, class_error. rewrite Hm. cbn [negb].
  repeat (case_match; [done|]). intros _.
  destruct grps; [done|]. cbn [length Nat.eqb]. by rewrite andb_false_r.
Qed.

Lemma adapt_custom e path :
  custom_ok e -> exists p, adaptEffectiveCustomProfile sha256 e path = inr p /\ represents sha256 e p /\
    BuiltInProfile sha256 (ep_Name e) = None /\
    exists b gs o, NewCustomProfile sha256 (ep_Name e) b gs o = inr p.
Proof.
  intros (Hb & Hst & Hcb & Hext & (Hne & Hnd & Hgs) & Hdom & Hmodes).
  apply builtin_names in Hcb. apply StableName_token in Hst.
  unfold adaptEffectiveCustomProfile. rewrite Hb.
  assert (Hname : adaptProfileName (ep_Extends e) = Some (ep_Extends e) /\
    negb (ep_Extends e =? ProfileSensitive) && negb (ep_Extends e =? ProfileContent) &&
    negb (ep_Extends e =? ProfileStrict) = false).
  { revert Hext. rewrite !elem_of_cons, elem_of_nil. by intros [->|[->|[->|[]]]]. }
  destruct Hname as [-> Hbase]. rewrite Hbase.
  rewrite adaptDetectorGroups_id; [|done|eapply Forall_impl; [exact Hgs|]; set_solver].
  rewrite adaptFieldModes_total; [|done|by intros c m Hl; eapply Hmodes].
  destruct (base_start sha256 _ Hbase) as (start & Hs & [Hsm Hsg]).
  destruct (select_groups_all (ep_Detectors e) [false; false; false]) as (sel & Hsel & Hg); [done|done| |].
  { eapply Forall_impl; [exact Hgs|]. intros g Hin. split; [done|]. cbn. set_solver. }
  assert (Hall : forall class, IsFieldClass class = true ->
    isTransformationMode (default "" (ep_FieldClasses e !! class)) = true).
  { intros class [mode Hl]%Hdom. rewrite Hl. by eapply Hmodes. }
  assert (Hgroups : choose_groups (Some (ep_Detectors e)) (groups start) = inr sel).
  { unfold choose_groups. by destruct (ep_Detectors e). }
  pose proof (apply_overrides_all (ep_FieldClasses e) (modes start) Hsm Hall) as Hov.
  set (p := mkProfile (ep_Name e) (ep_Extends e) (snd <$> cells_of (ep_FieldClasses e)) sel "").
  assert (Hin : forall g, g ∈ profile_DetectorGroups p <-> g ∈ ep_Detectors e).
  { intros g. unfold profile_DetectorGroups, p. cbn [groups]. rewrite Hg. cbn. set_solver. }
  assert (Hsz : length sel = 3%nat) by (apply select_groups_length in Hsel; done).
  assert (Hv : validateResolvedProfile p true = None).
  { unfold validateResolvedProfile, validateProfileName. cbn [name p]. rewrite Hst. apply classes_error_none.
    change (zip FieldClasses (modes p)) with (cells_of (ep_FieldClasses e)). unfold cells_of. apply Forall_fmap.
    apply Forall_forall. intros c Hc. unfold compose. cbn [fst snd].
    assert (Hic : IsFieldClass c = true).
    { apply existsb_exists. exists c. split; [by apply list_elem_of_In|apply String.eqb_refl]. }
    apply Hdom in Hic as [mode Hl]. rewrite Hl. cbn [default from_option id].
    destruct (Hmodes _ _ Hl) as [Hm Hstr]. eapply strength_class; [exact Hne| |done..].
    destruct (ep_Detectors e) as [|g r] eqn:E; [done|]. intros En.
    assert (Hx : g ∈ profile_DetectorGroups p) by (apply Hin; apply list_elem_of_here). rewrite En in Hx.
    by apply elem_of_nil in Hx. }
  assert (Hnew : NewCustomProfile sha256 (ep_Name e) (ep_Extends e) (Some (ep_Detectors e))
    (cells_of (ep_FieldClasses e)) = inr (sealed sha256 p)).
  { unfold NewCustomProfile, validateProfileName. rewrite Hst, Hcb, Hbase, Hs. cbn [default from_option id].
    rewrite Hgroups, Hov. fold p. by rewrite Hv. }
  rewrite Hnew. exists (sealed sha256 p). split; [done|]. split; [|split; [done|by eauto]].
  split; [done|]. split; [split; [split; [done|exact Hsz]|split; [done|]]|split; [|exact Hin]].
  - cbn [name sealed p]. by rewrite Hcb, sealed_validate.
  - intros class Hc. unfold Mode, fieldClassIndex. destruct (proj1 (index_of_some _ _) Hc) as [i Hi]. rewrite Hi.
    apply index_of_lookup in Hi. cbn [modes sealed p]. unfold cells_of.
    rewrite !list_lookup_fmap, Hi. cbn. apply Hdom in Hc as [mode Hl]. by rewrite Hl.
Qed.

(** The profiles of the engine by construction, and by their names. *)
Definition adapted (ps : list Profile) : Prop :=
  Forall (fun p => BuiltInProfile sha256 (name p) = None /\
                   exists b gs o, NewCustomProfile sha256 (name p) b gs o = inr p) ps.

Lemma adapt_customs custom : forall index seen,
  Forall custom_ok custom -> NoDup (ep_Name <$> custom) ->
  Forall (fun e => ep_Name e ∉ seen) custom ->
  exists ps seen', adapt_profiles sha256 index seen custom = inr (ps, seen') /\
    Forall2 (represents sha256) custom ps /\ adapted ps /\ (forall n, n ∈ seen -> n ∈ seen').
Proof.
  induction custom as [|e r IH]; intros index seen Hok Hnd Hseen.
  { exists [], seen. split_and!; [done|constructor|constructor|done]. }
  apply Forall_cons_1 in Hok as [He Hok], Hseen as [Hs Hseen]. rewrite fmap_cons in Hnd.
  apply NoDup_cons in Hnd as [Hn Hnd]. cbn [adapt_profiles]. cbv zeta.
  destruct (adapt_custom e ("observability.redaction_profiles[" ++ pretty index ++ "]") He)
    as (p & Hp & Hrep & Hb & Hnew).
  pose proof He as (Hbi & Hst & _). destruct (String.eqb_spec (ep_Name e) "") as [E|_]; [by rewrite E in Hst|].
  rewrite bool_decide_eq_false_2 by done. rewrite Hb, Hbi, Hp.
  destruct (IH (S index) (ep_Name e :: seen) Hok Hnd) as (ps & seen' & Ha & Hf & Had & Hsub).
  { rewrite Forall_forall in Hseen |- *. intros x Hx. rewrite elem_of_cons. intros [E|?]; [|by eapply Hseen].
    apply Hn. rewrite <-E. by apply list_elem_of_fmap_2. }
  rewrite Ha. exists (p :: ps), seen'. split_and!; [done|by constructor| |].
  - constructor; [|done]. destruct Hrep as [-> _]. eauto.
  - intros n Hin. apply Hsub. set_solver.
Qed.

Lemma adapt_builtins custom :
  adapt_profiles sha256 0 [] ((snd <$> config_builtins) ++ custom)%list =
  adapt_profiles sha256 5 (rev (fst <$> config_builtins)) custom.
Proof.
  assert (Hstep : forall index seen e q r, ep_Name e <> "" -> ep_Name e ∉ seen ->
    BuiltInProfile sha256 (ep_Name e) = Some q -> (forall path, validateEffectiveBuiltIn e q path = None) ->
    adapt_profiles sha256 index seen (e :: r) = adapt_profiles sha256 (S index) (ep_Name e :: seen) r).
  { intros index seen e q r Hn Hs Hq Hv. cbn [adapt_profiles]. cbv zeta.
    destruct (String.eqb_spec (ep_Name e) ""); [done|]. rewrite bool_decide_eq_false_2 by done. by rewrite Hq, Hv. }
  change (snd <$> config_builtins) with (List.map snd config_builtins). unfold config_builtins.
  cbn [List.map snd app]. do 5 (erewrite Hstep; [|done| |reflexivity|intros path; vm_compute; reflexivity];
    [|cbn [ep_Name]; apply (bool_decide_unpack (_ ∉ _)); by vm_compute]). reflexivity.
Qed.

Lemma represents_builtin e : e ∈ snd <$> config_builtins ->
  exists p, BuiltInProfile sha256 (ep_Name e) = Some p /\ represents sha256 e p.
Proof.
  intros ([n e'] & -> & Hin%list_elem_of_In)%list_elem_of_fmap.
  assert (Hfix : forall p, BuiltInProfile sha256 (ep_Name e') = Some p ->
    Forall (fun c => Mode p c = ep_FieldClasses e' !! c) FieldClasses ->
    profile_DetectorGroups p ≡ₚ ep_Detectors e' ->
    exists p, BuiltInProfile sha256 (ep_Name e') = Some p /\ represents sha256 e' p).
  { intros p Hp Hm Hg. exists p. split; [done|]. destruct (builtin_disciplined _ _ _ Hp) as (Hn & Hs & Hf & _).
    split; [done|]. split; [|split; [|by intros g; rewrite Hg]].
    - split; [done|]. split; [done|]. by rewrite Hn, Hp.
    - intros c (x & Hx & ->%String.eqb_eq)%existsb_exists. rewrite Forall_forall in Hm.
      by apply Hm, list_elem_of_In. }
  repeat destruct Hin as [[= <- <-]|Hin]; [..|done]; (eapply Hfix; [reflexivity|repeat constructor|]); cbn;
    unfold DetectorGroupCredentials, DetectorCredentials, DetectorGroupSecrets, DetectorSecrets, DetectorGroupPII, DetectorPII;
    try done; by rewrite (Permutation_swap "secrets" "credentials"), (Permutation_swap "pii"); solve_Permutation.
Qed.

(** The constructor's profiles are accepted by the catalog. *)
Lemma add_profiles_total ps : forall cat,
  adapted ps -> NoDup (name <$> ps) -> Forall (fun p => cat !! name p = None) ps ->
  exists cat', add_profiles sha256 ps cat = inr cat' /\
    (forall n, is_Some (cat' !! n) <-> is_Some (cat !! n) \/ n ∈ name <$> ps).
Proof.
  induction ps as [|p r IH]; intros cat Had Hnd Hnone; [exists cat; split; [done|set_solver]|].
  apply Forall_cons_1 in Had as [(Hb & b & gs & o & Hnew) Had], Hnone as [Hp Hnone].
  rewrite fmap_cons in Hnd. apply NoDup_cons in Hnd as [Hn Hnd].
  apply NewCustomProfile_inv in Hnew as (_ & _ & _ & _ & Hfp & Hv & _). cbn [add_profiles].
  assert (Hname : name p <> "").
  { intros E. unfold validateResolvedProfile in Hv. rewrite E in Hv. done. }
  destruct (String.eqb_spec (name p) "") as [|_]; [done|]. rewrite Hfp, String.eqb_refl. cbn [orb negb]. rewrite Hp, Hv.
  destruct (IH (<[name p := p]> cat) Had Hnd) as (cat' & Hc & Hdom).
  { rewrite Forall_forall in Hnone |- *. intros x Hx. rewrite lookup_insert_ne; [by apply Hnone|].
    intros E. apply Hn. rewrite E. by apply list_elem_of_fmap_2. }
  exists cat'. split; [done|]. intros n. rewrite Hdom, fmap_cons, elem_of_cons.
  destruct (decide (n = name p)) as [->|Hne].
  - rewrite lookup_insert_eq. split; [by right; left|by left; eauto].
  - rewrite lookup_insert_ne by done. tauto.
Qed.

Lemma builtin_map_names n : is_Some (builtin_map sha256 !! n) <-> n ∈ fst <$> config_builtins.
Proof.
  rewrite builtin_map_lookup. destruct (BuiltInProfile sha256 n) as [q|] eqn:E.
  - split; [|by eauto]. intros _. unfold BuiltInProfile in E. apply fmap_Some in E as (kv & Hf & _).
    apply find_some in Hf as [Hin <-%String.eqb_eq].
    repeat destruct Hin as [<-|Hin]; [..|done]; cbn [fst]; apply (bool_decide_unpack (_ ∈ _)); by vm_compute.
  - split; [by intros []|]. intros Hin. exfalso. apply builtin_names in E. unfold config_builtin in E.
    apply list_elem_of_fmap in Hin as (kv & -> & Hin). apply list_elem_of_In in Hin.
    destruct (find _ _) eqn:Hf; [done|]. eapply find_none in Hf; [|exact Hin]. by rewrite String.eqb_refl in Hf.
Qed.

Lemma build_total ps :
  profiles_ok ps -> exists cat, buildRedactionProfileCatalog sha256 ps = inr cat /\
    (forall n, is_Some (cat !! n) <-> n ∈ ep_Name <$> ps) /\
    forall e, e ∈ ps -> exists p, Resolve cat (ep_Name e) = Some p /\ represents sha256 e p.
Proof.
  intros (custom & -> & Hok & Hnd & Hlen). unfold buildRedactionProfileCatalog. cbv zeta.
  destruct (Z.ltb_spec (zlen (builtInProfiles sha256) + MaxRedactionProfiles)
    (zlen ((snd <$> config_builtins) ++ custom)%list)) as [Hlt|_].
  { exfalso. rewrite zlen_app in Hlt. change (zlen (snd <$> config_builtins)) with 5%Z in Hlt.
    change (zlen (builtInProfiles sha256)) with 5%Z in Hlt. lia. }
  rewrite adapt_builtins.
  destruct (adapt_customs custom 5 (rev (fst <$> config_builtins)) Hok Hnd) as (ps & seen & Ha & Hf & Had & Hsub).
  { eapply Forall_impl; [exact Hok|]. intros e (_ & _ & Hcb & _) Hin. apply builtin_names in Hcb.
    assert (H : is_Some (builtin_map sha256 !! ep_Name e)).
    { apply builtin_map_names. by apply list_elem_of_In, in_rev, list_elem_of_In in Hin. }
    rewrite builtin_map_lookup, Hcb in H. by destruct H. }
  rewrite Ha.
  assert (Hseen : forallb (fun b => existsb (String.eqb (name (snd b))) seen) (builtInProfiles sha256) = true).
  { apply forallb_forall. intros kv Hin. apply existsb_exists. exists (name (snd kv)).
    split; [|apply String.eqb_refl]. apply list_elem_of_In, Hsub.
    repeat destruct Hin as [<-|Hin]; [..|done]; apply (bool_decide_unpack (_ ∈ _)); by vm_compute. }
  rewrite Hseen. cbn [negb].
  assert (Hnames : name <$> ps = ep_Name <$> custom).
  { clear -Hf. induction Hf as [|e p l k [Hn _] _ IH]; [done|]. rewrite !fmap_cons. by rewrite Hn, IH. }
  destruct (add_profiles_total ps (builtin_map sha256)) as (cat & Hc & Hdom); [done|by rewrite Hnames| |].
  { eapply Forall_impl; [exact Had|]. intros p [Hb _]. by rewrite builtin_map_lookup. }
  unfold NewProfileCatalog. rewrite Hc. exists cat. split; [done|].
  destruct (add_profiles_ok sha256 ps (builtin_map sha256) cat) as (_ & Hcus & Hbi);
    [|by intros n q; rewrite builtin_map_lookup|apply builtin_catalog_ok|done|].
  { eapply Forall_impl; [exact Had|]. intros p (_ & b & gs & o & Hp).
    by apply NewCustomProfile_inv in Hp as (_ & _ & _ & ? & _). }
  split.
  - intros n. rewrite Hdom, builtin_map_names, fmap_app, elem_of_app, Hnames. done.
  - intros e [He|He]%elem_of_app.
    + destruct (represents_builtin e He) as (p & Hp & Hrep). exists p. split; [|done]. apply Hbi.
      by rewrite builtin_map_lookup.
    + apply list_elem_of_lookup in He as [i Hi]. destruct (Forall2_lookup_l _ _ _ _ _ Hf Hi) as (p & Hp & Hrep).
      exists p. split; [|done]. pose proof Hrep as [<- _]. apply Hcus. by eapply list_elem_of_lookup_2.
Qed.
End Adapter.

(** ** Compiled plans *)

Section Compiled.
Context (registered_action registered_name : string -> bool) {Settings : Type}.
Context (headers_error : DestinationSource Settings -> string -> option Error).
Context (compileTransport : DestinationSource Settings -> list string -> string -> Error + TransportPlan).
Context (overrides_error : DestinationSource Settings -> list string -> string -> option Error).
Context (destinationCompatibility : EffectiveDestination -> Error + list (string * list SpanFamily)).
Context (galileoCompatibilityProfile : string).
Context (completeProvenance : EffectivePlan -> option (list (string * string * string))).
Context (maskEndpoint : string -> string) (plan_digest : EffectivePlan -> string).
Context (semanticLock_error traceMetric_error resource_error : PlanSource Settings -> option Error).
Context (sourceProvenance : PlanSource Settings -> list EffectiveBucket -> list EffectiveDestination ->
  list (string * string * string)).

Lemma Compile_profiles_ok source p :
  CompileObservabilityV8 registered_action registered_name headers_error compileTransport overrides_error
    destinationCompatibility galileoCompatibilityProfile completeProvenance maskEndpoint plan_digest
    semanticLock_error traceMetric_error resource_error sourceProvenance source = inr p ->
  profiles_ok (pl_Profiles (effective p)).
Proof.
  intros H. unfold CompileObservabilityV8 in H. cbv zeta in H. set (src := default empty_source source) in *.
  destruct (semanticLock_error src); [done|]. destruct (_ <? _)%Z; [done|].
  destruct (Z.ltb_spec MaxRedactionProfiles (Z.of_nat (size (src_RedactionProfiles src)))) as [|Hsz]; [done|].
  destruct (_ <? _)%Z; [done|]. destruct (compileCatalogVersion _); [done|].
  destruct (compileProfiles _) as [|[profiles known]] eqn:Hp; [done|].
  destruct (compileBuckets _ _ _); [done|]. destruct (traceMetric_error src); [done|].
  destruct (compileLocal _); [done|]. destruct (resource_error src); [done|].
  destruct (compile_destinations _ _ _ _ _ _ _ _ _ _ _ _ _); [done|].
  apply newPlan_spec in H as [_ [ps ->]]. by eapply compileProfiles_ok.
Qed.
End Compiled.
