(* ===== verification/Pipeline.v ===== *)
(** * The log and trace pipelines (internal/observability/pipeline/local_logs.go,
    trace_projection.go, failure_records.go)

    What happens to a record between the producer and the destinations: routing,
    the projection of the local copy, the mandatory append, and one projection
    per optional destination.  The projector and the local store are interfaces;
    each call of them is an event, and a program returns its events in the order
    in which it made the calls. *)
From stdpp Require Import base list gmap strings.
From Stdlib Require Import ZArith Lia Ascii.
From S2P Require Import Prelude GoStrings Taxonomy Json RedactionProfile RedactionEngine Classification RoutingPlan ManagedPlan Router ProfileAdapter.

Local Open Scope string_scope.

(** ** Records *)

(** The per-occurrence policy of a record, and of a request. *)
Inductive SinkPolicy := SinkPolicyDefault | SinkPolicyRaw | SinkPolicyRedact | SinkPolicyInvalid.

(** What the pipeline reads of a record beyond what routing does.  The
    correlation and the provenance are only carried along. *)
Record RecordContent := mkContent {
  rc_RecordID : string;
  rc_Body : option json;
  rc_InstrumentData : option json;
  rc_FieldClasses : gmap string string;
  rc_SchemaDerived : bool;
  rc_Envelope : string;
  rc_Correlation : string;
  rc_Provenance : string;
  rc_ConfigDigest : string;
  rc_Policy : SinkPolicy;
}.

Definition LogRecord : Type := BuiltRecord RecordContent.

Definition identity_of (r : LogRecord) : EventIdentity := m_identity (r_metadata r).

(** What the engine reads of the record. *)
Definition canonical (r : LogRecord) : CanonicalRecord :=
  let c := r_content r in
  mkRecord (id_Signal (identity_of r)) (rc_Body c) (rc_InstrumentData c) (rc_FieldClasses c) (rc_SchemaDerived c)
    (rc_Envelope c).

(** ** The interfaces *)

(** A [ProjectionError], or an error of another type. *)
Inductive ProjectError := OfProjection (c : ProjectionErrorCode) | OtherError (err : ExternalError).

Class Projector := {
  Projected : Type;
  project : CanonicalRecord -> Profile -> ProjectError + Projected;
}.

Record ProjectionFailureRecord := mkFailure {
  FailedBucket : string;
  FailedProfile : string;
  FailureCode : string;
  FailureCorrelation : string;
  FailureProvenance : string;
}.

(** ** Errors and outcomes *)

Inductive ErrorCode :=
| ErrorInvalidDependency | ErrorInvalidInput | ErrorContextDone | ErrorEvaluation | ErrorRecordBuild
| ErrorLocalDelivery | ErrorLocalProfile | ErrorLocalProjection | ErrorLocalWrite | ErrorFailureRecord.

Inductive ContextCause := Canceled | DeadlineExceeded.

Record PipelineError := mkError { code : ErrorCode; contextCause : option ContextCause }.

Definition plain (c : ErrorCode) : PipelineError := mkError c None.

Definition boundedPipelineError (c : ErrorCode) (err : ExternalError) : PipelineError :=
  if is_Canceled err then mkError c (Some Canceled)
  else if is_DeadlineExceeded err then mkError c (Some DeadlineExceeded)
  else plain c.

Definition OptionalFailureProfile : string := "profile_invalid".
Definition OptionalFailureClassification : string := "classification_failed".
Definition OptionalFailureMetricClass : string := "metric_classification_failed".
Definition OptionalFailureContext : string := "projection_context_mismatch".
Definition OptionalFailureOutputLimit : string := "output_limit".
Definition OptionalFailureSerialization : string := "serialization_failed".
Definition OptionalFailureProjection : string := "projection_failed".

Definition boundedProjectionFailure (err : ProjectError) : string :=
  match err with
  | OtherError _ => OptionalFailureProjection
  | OfProjection ProjectionFailureClassification => OptionalFailureClassification
  | OfProjection ProjectionFailureMetricClass => OptionalFailureMetricClass
  | OfProjection ProjectionFailureContext => OptionalFailureContext
  | OfProjection ProjectionFailureOutputLimit => OptionalFailureOutputLimit
  | OfProjection ProjectionFailureSerialization => OptionalFailureSerialization
  end.

Definition validOptionalFailureCode (c : string) : bool :=
  existsb (String.eqb c) [OptionalFailureProfile; OptionalFailureClassification; OptionalFailureMetricClass;
    OptionalFailureContext; OptionalFailureOutputLimit; OptionalFailureSerialization; OptionalFailureProjection].

Record OptionalFailure := mkOptionalFailure {
  of_destinationName : string;
  of_destinationKind : string;
  of_routeName : string;
  of_routeIndex : Z;
  of_code : string;
}.

Definition newOptionalFailure (d : Delivery) (c : string) : OptionalFailure :=
  mkOptionalFailure (DestinationName d) (DestinationKind d) (RouteName d) (RouteIndex d) c.

Record ProjectedDeliveryIdentity := mkDeliveryIdentity {
  pi_recordID : string;
  pi_identity : EventIdentity;
  pi_originDestination : string;
}.

Definition delivery_identity (r : LogRecord) (origin : string) : ProjectedDeliveryIdentity :=
  mkDeliveryIdentity (rc_RecordID (r_content r)) (identity_of r) origin.

Record ProjectedDelivery {P : Projector} := mkWork {
  w_delivery : Delivery;
  w_projection : Projected;
  w_identity : ProjectedDeliveryIdentity;
}.

Record LocalLogOutcome {P : Projector} := mkOutcome {
  o_admission : Admission;
  o_localPersisted : bool;
  o_managedOnly : bool;
  o_optionalWork : list ProjectedDelivery;
  o_optionalFailure : list OptionalFailure;
}.

(** ** Effects *)

Definition Append {P : Projector} : Type := LogRecord * Projected.

(** A call of [Project], and a call of [AppendContext]. *)
Inductive PipelineEvent {P : Projector} :=
| Projecting (r : LogRecord) (q : Profile)
| Appending (a : Append).

(** A program with its calls of the projector and the store, first one first. *)
Definition Traced {P : Projector} (A : Type) : Type := A * list PipelineEvent.

Definition tret {P : Projector} {A} (a : A) : Traced A := (a, []).

Definition tbind {P : Projector} {A B} (m : Traced A) (f : A -> Traced B) : Traced B :=
  (fst (f (fst m)), (snd m ++ snd (f (fst m)))%list).

Declare Scope pipeline_scope.
Notation "x <-- m ; k" := (tbind m (fun x => k))
  (at level 100, m at next level, right associativity) : pipeline_scope.
Local Open Scope pipeline_scope.

(** A loop that collects one result per element. *)
Fixpoint tmap {P : Projector} {A B} (f : A -> Traced B) (l : list A) : Traced (list B) :=
  match l with
  | [] => tret []
  | x :: r => y <-- f x; ys <-- tmap f r; tret (y :: ys)
  end.

Definition call_Project {P : Projector} (r : LogRecord) (q : Profile) : Traced (ProjectError + Projected) :=
  (project (canonical r) q, [Projecting r q]).

Definition appends {P : Projector} (es : list PipelineEvent) : list Append :=
  omap (fun e => match e with Appending a => Some a | Projecting _ _ => None end) es.

(** ** The log pipeline *)

Section Pipeline.
Context {P : Projector} (sha256 : string -> string) (registered : EventIdentity -> bool).

(** [AppendContext] of the local store, and [BuildProjectionFailure]. *)
Record LocalEventAppender := { GraphDigest : string; AppendContext : Append -> option ExternalError }.
Definition FailureFactory : Type := ProjectionFailureRecord -> ExternalError + LogRecord.

Definition call_AppendContext (appender : LocalEventAppender) (a : Append) : Traced (option ExternalError) :=
  (AppendContext appender a, [Appending a]).

Record LocalLogPipeline := mkPipeline {
  evaluator : Evaluator;
  catalog : gmap string Profile;
  local : gmap string string;
  appender : LocalEventAppender;
  failures : FailureFactory;
}.

(** The loop over the catalog of buckets. *)
Fixpoint local_profiles (plan : Plan) (buckets : list string) (acc : gmap string string) : option (gmap string string) :=
  match buckets with
  | [] => Some acc
  | bucket :: r =>
      match ResolveLocalRedactionProfile (Some plan) bucket with
      | inl _ => None
      | inr profile => local_profiles plan r (<[bucket := profile]> acc)
      end
  end.

(** A nil projector, appender or factory is [None]. *)
Definition NewLocalLogPipeline (plan : option Plan) (evaluator : option Evaluator) (projector : option unit)
    (appender : option LocalEventAppender) (failures : option FailureFactory) : PipelineError + LocalLogPipeline :=
  match plan, evaluator, projector, appender, failures with
  | Some p, Some e, Some _, Some a, Some f =>
      if (planDigest e =? "") || negb (planDigest e =? digest p) || (GraphDigest a =? "") ||
         negb (GraphDigest a =? digest p)
      then inl (plain ErrorInvalidDependency)
      else match RedactionProfileCatalog sha256 (Some p) with
      | inl _ => inl (plain ErrorInvalidDependency)
      | inr catalog =>
          match local_profiles p Buckets ∅ with
          | None => inl (plain ErrorInvalidDependency)
          | Some local => inr (mkPipeline e catalog local a f)
          end
      end
  | _, _, _, _, _ => inl (plain ErrorInvalidDependency)
  end.

(** What a call reads of its context. *)
Record Context := { ctx_Err : option ContextCause; ctx_SinkPolicy : SinkPolicy }.

Definition resolveProjectionProfile (catalog : gmap string Profile) (configured : string) (policy : SinkPolicy) :
    option Profile :=
  match policy with
  | SinkPolicyDefault => RedactionProfile.Resolve catalog configured
  | SinkPolicyRaw => RedactionProfile.Resolve catalog ProfileNone
  | SinkPolicyRedact => RedactionProfile.Resolve catalog ProfileSensitive
  | SinkPolicyInvalid => None
  end.

(** The error of [safeBuilder]. *)
Definition recordBuildFailure : string := "canonical log record build failed".

Definition safeBuilder (builder : option (RecordBuilder RecordContent)) : RecordBuilder RecordContent := fun admission =>
  match builder with
  | None => inl recordBuildFailure
  | Some build => match build admission with inl _ => inl recordBuildFailure | inr record => inr record end
  end.

(** [errors.As] finds the type only in an error of the builder. *)
Definition evaluation_error (e : RouterError) : PipelineError :=
  match e with BuilderError _ => plain ErrorRecordBuild | _ => plain ErrorEvaluation end.

Definition is_local (d : Delivery) : bool :=
  (DestinationName d =? LocalDestinationName) && (DestinationKind d =? DestinationLocalSQLite).

Definition splitLocalDelivery (deliveries : list Delivery) (admission : Admission) : option (Delivery * list Delivery) :=
  let optional := List.filter (fun d => negb (is_local d)) deliveries in
  match List.filter is_local deliveries with
  | [local] =>
      match admission with
      | AdmissionOrdinary => if MandatoryFloor local then None else Some (local, optional)
      | AdmissionFloor =>
          if negb (MandatoryFloor local) || negb (length optional =? 0)%nat then None else Some (local, optional)
      | AdmissionDrop => None
      end
  | _ => None
  end.

(** One iteration of the loop over the optional deliveries. *)
Definition project_optional (catalog : gmap string Profile) (policy : SinkPolicy) (record : LogRecord) (origin : string)
    (d : Delivery) : Traced (OptionalFailure + ProjectedDelivery) :=
  match resolveProjectionProfile catalog (RedactionProfile d) policy with
  | None => tret (inl (newOptionalFailure d OptionalFailureProfile))
  | Some profile =>
      projected <-- call_Project record profile;
      tret match projected with
           | inl err => inl (newOptionalFailure d (boundedProjectionFailure err))
           | inr projection => inr (mkWork _ d projection (delivery_identity record origin))
           end
  end.

Definition works {A B} (results : list (A + B)) : list B :=
  omap (fun r => match r with inr b => Some b | inl _ => None end) results.
Definition faults {A B} (results : list (A + B)) : list A :=
  omap (fun r => match r with inl a => Some a | inr _ => None end) results.

Definition valid_failure_record (r : LogRecord) : bool :=
  let m := r_metadata r in
  (id_Signal (m_identity m) =? SignalLogs) && (id_Bucket (m_identity m) =? BucketPlatformHealth) &&
  (id_Name (m_identity m) =? "redaction.failed_closed") && m_mandatory m && negb (r_floorOnly r) &&
  m_hasSeverity m && (m_severity m =? SeverityInfo).

(** [None]: the failure record is in the store. *)
Definition persistLocalProjectionFailure (pl : LocalLogPipeline) (failed : LogRecord) (profile c : string) :
    Traced (option PipelineError) :=
  let content := r_content failed in
  match failures pl (mkFailure (id_Bucket (identity_of failed)) profile c (rc_Correlation content) (rc_Provenance content)) with
  | inl err => tret (Some (boundedPipelineError ErrorFailureRecord err))
  | inr failureRecord =>
      if negb (valid_failure_record failureRecord) then tret (Some (plain ErrorFailureRecord))
      else match local pl !! BucketPlatformHealth with
      | None => tret (Some (plain ErrorFailureRecord))
      | Some profileName =>
          match RedactionProfile.Resolve (catalog pl) profileName with
          | None => tret (Some (plain ErrorFailureRecord))
          | Some localProfile =>
              projected <-- call_Project failureRecord localProfile;
              match projected with
              | inl (OtherError err) => tret (Some (boundedPipelineError ErrorFailureRecord err))
              | inl (OfProjection _) => tret (Some (plain ErrorFailureRecord))
              | inr projection =>
                  refused <-- call_AppendContext (appender pl) (failureRecord, projection);
                  tret (boundedPipelineError ErrorLocalWrite <$> refused)
              end
          end
      end
  end.

(** The part of [process] that follows an admission. *)
Definition process_admitted (pl : LocalLogPipeline) (policy : SinkPolicy) (localOnly : bool) (origin : string)
    (admission : Admission) (record : LogRecord) (deliveries : list Delivery) :
    Traced (PipelineError + LocalLogOutcome) :=
  match splitLocalDelivery deliveries admission with
  | None => tret (inl (plain ErrorLocalDelivery))
  | Some (localDelivery, optional) =>
      match resolveProjectionProfile (catalog pl) (RedactionProfile localDelivery) policy with
      | None => tret (inl (plain ErrorLocalProfile))
      | Some localProfile =>
          projected <-- call_Project record localProfile;
          match projected with
          | inl err =>
              failureErr <-- persistLocalProjectionFailure pl record (name localProfile) (boundedProjectionFailure err);
              tret (inl (default (plain ErrorLocalProjection) failureErr))
          | inr localProjection =>
              refused <-- call_AppendContext (appender pl) (record, localProjection);
              match refused with
              | Some err => tret (inl (boundedPipelineError ErrorLocalWrite err))
              | None =>
                  if localOnly then tret (inr (mkOutcome _ admission true false [] []))
                  else
                    results <-- tmap (project_optional (catalog pl) policy record origin) optional;
                    tret (inr (mkOutcome _ admission true false (works results) (faults results)))
              end
          end
      end
  end.

Definition process (pipeline : option LocalLogPipeline) (ctx : option Context) (m : Metadata)
    (builder : option (RecordBuilder RecordContent)) (localOnly : bool) (origin : string) :
    Traced (PipelineError + LocalLogOutcome) :=
  match pipeline with
  | None => tret (inl (plain ErrorInvalidDependency))
  | Some pl =>
      match ctx with
      | None => tret (inl (plain ErrorInvalidInput))
      | Some c =>
          match ctx_Err c with
          | Some cause => tret (inl (mkError ErrorContextDone (Some cause)))
          | None =>
              if negb (id_Signal (m_identity m) =? SignalLogs) then tret (inl (plain ErrorInvalidInput))
              else match fst (Evaluate registered (Some (evaluator pl)) m (Some (safeBuilder builder))) with
              | inl e => tret (inl (evaluation_error e))
              | inr result =>
                  if bool_decide (res_admission result = AdmissionDrop)
                  then tret (inr (mkOutcome _ AdmissionDrop false false [] []))
                  else match res_record result with
                  | None => tret (inl (plain ErrorEvaluation))
                  | Some record =>
                      if negb (id_Signal (identity_of record) =? SignalLogs) then tret (inl (plain ErrorEvaluation))
                      else process_admitted pl (ctx_SinkPolicy c) localOnly origin (res_admission result) record
                             (res_deliveries result)
                  end
              end
          end
      end
  end.

Definition Process pl ctx m builder := process pl ctx m builder false "".
Definition ProcessLocalOnly pl ctx m builder := process pl ctx m builder true "".

Definition ProcessImported (pl : option LocalLogPipeline) (ctx : option Context) (m : Metadata) (origin : string)
    (suppressAll : bool) (builder : option (RecordBuilder RecordContent)) :
    Traced (PipelineError + LocalLogOutcome) :=
  if (negb (origin =? "") && negb (IsStableToken origin)) || (suppressAll && negb (origin =? ""))
  then tret (inl (plain ErrorInvalidInput))
  else process pl ctx m builder suppressAll origin.

Definition ProcessManagedLogFallback (pipeline : option LocalLogPipeline) (ctx : option Context) (m : Metadata)
    (builder : option (RecordBuilder RecordContent)) : Traced (PipelineError + LocalLogOutcome) :=
  match pipeline with
  | None => tret (inl (plain ErrorInvalidDependency))
  | Some pl =>
      match ctx with
      | None => tret (inl (plain ErrorInvalidInput))
      | Some c =>
        if negb (id_Signal (m_identity m) =? SignalLogs) then tret (inl (plain ErrorInvalidInput))
        else match ctx_Err c with
        | Some cause => tret (inl (mkError ErrorContextDone (Some cause)))
        | None =>
            match fst (EvaluateManagedLogFallback registered (Some (evaluator pl)) m (Some (safeBuilder builder))) with
            | inl e => tret (inl (evaluation_error e))
            | inr None => tret (inr (mkOutcome _ AdmissionDrop false false [] []))
            | inr (Some (record, d)) =>
                if negb (fallback_delivery d) then tret (inl (plain ErrorEvaluation))
                else
                  match resolveProjectionProfile (catalog pl) ProfileSensitive (ctx_SinkPolicy c) with
                  | None => tret (inr (mkOutcome _ AdmissionDrop false true [] [newOptionalFailure d OptionalFailureProfile]))
                  | Some profile =>
                      projected <-- call_Project record profile;
                      tret (inr match projected with
                                | inl err => mkOutcome _ AdmissionDrop false true []
                                               [newOptionalFailure d (boundedProjectionFailure err)]
                                | inr projection => mkOutcome _ AdmissionDrop false true
                                                      [mkWork _ d projection (delivery_identity record "")] []
                                end)
                  end
            end
        end
      end
  end.

(** ** The trace pipeline *)

Record TraceProjectionPipeline := mkTracePipeline {
  t_evaluator : Evaluator;
  t_catalog : gmap string Profile;
  t_digest : string;
}.

Definition NewTraceProjectionPipeline (plan : option Plan) (evaluator : option Evaluator) (projector : option unit) :
    PipelineError + TraceProjectionPipeline :=
  match plan, evaluator, projector with
  | Some p, Some e, Some _ =>
      if (planDigest e =? "") || negb (planDigest e =? digest p) then inl (plain ErrorInvalidDependency)
      else match RedactionProfileCatalog sha256 (Some p) with
           | inl _ => inl (plain ErrorInvalidDependency)
           | inr catalog => inr (mkTracePipeline e catalog (digest p))
           end
  | _, _, _ => inl (plain ErrorInvalidDependency)
  end.

Record TraceProjectionOutcome := mkTraceOutcome {
  to_admission : Admission;
  to_optionalWork : list ProjectedDelivery;
  to_optionalFailure : list OptionalFailure;
}.

(** One iteration of the loop over the deliveries; the occurrence carries its policy. *)
Definition project_trace (catalog : gmap string Profile) (record : LogRecord) (d : Delivery) :
    Traced (OptionalFailure + ProjectedDelivery) :=
  if DestinationKind d =? DestinationLocalSQLite then tret (inl (newOptionalFailure d OptionalFailureProjection))
  else project_optional catalog (rc_Policy (r_content record)) record "" d.

(** The builder hands out the given record, for an ordinary admission only. *)
Definition given_record (record : LogRecord) : RecordBuilder RecordContent := fun admission =>
  match admission with AdmissionOrdinary => inr record | _ => inl recordBuildFailure end.

Definition process_trace (pipeline : option TraceProjectionPipeline) (record : LogRecord) :
    Traced (PipelineError + TraceProjectionOutcome) :=
  match pipeline with
  | None => tret (inl (plain ErrorInvalidDependency))
  | Some pl =>
      let m := r_metadata record in
      let content := r_content record in
      if t_digest pl =? "" then tret (inl (plain ErrorInvalidDependency))
      else if negb (id_Signal (m_identity m) =? SignalTraces) || negb (rc_SchemaDerived content) ||
              negb (rc_ConfigDigest content =? t_digest pl)
      then tret (inl (plain ErrorInvalidInput))
      else match NewMetadata registered (m_identity m) (if m_hasSeverity m then Some (m_severity m) else None)
                   (m_source m) (m_connector m) (m_action m) with
      | inl _ => tret (inl (plain ErrorInvalidInput))
      | inr metadata =>
          match fst (Evaluate registered (Some (t_evaluator pl)) metadata (Some (given_record record))) with
          | inl _ => tret (inl (plain ErrorEvaluation))
          | inr result =>
              if bool_decide (res_admission result = AdmissionDrop) then tret (inr (mkTraceOutcome AdmissionDrop [] []))
              else match res_record result with
              | None => tret (inl (plain ErrorEvaluation))
              | Some verified =>
                  if negb (rc_RecordID (r_content verified) =? rc_RecordID content) ||
                     negb (id_Signal (identity_of verified) =? SignalTraces)
                  then tret (inl (plain ErrorEvaluation))
                  else
                    results <-- tmap (project_trace (t_catalog pl) record) (res_deliveries result);
                    tret (inr (mkTraceOutcome (res_admission result) (works results) (faults results)))
              end
          end
      end
  end.
End Pipeline.

(** ** The engine as a projector *)

Section Engine.
Context (sha256 : string -> string) (hmac : string -> string -> string)
        (recognize : string -> string -> string -> list Detector.acceptedMatch -> string + list Detector.candidate)
        (normalizeHashV1Value : string -> string -> HashV1ErrorCode + string)
        (legacy : Legacy)
        (NewValue : json -> bool)
        (encode_metadata : ProjectionMetadata -> option string)
        (encode_wire : string -> string -> json -> gmap string string -> ProjectionMetadata -> option string)
        (engine : Engine).

Definition engine_projector : Projector := {|
  Projected := ProjectionT;
  project r p :=
    match fst (Project sha256 hmac recognize normalizeHashV1Value legacy NewValue encode_metadata encode_wire
                 (Some engine) r p) with
    | inl c => inl (OfProjection c)
    | inr projection => inr projection
    end;
|}.
End Engine.
