(* ===== verification/PipelineProps.v ===== *)
(** * Properties of the pipelines

    Under the plans a configuration compiles to: the pipeline can be assembled,
    its record reaches the local store before anything leaves, what leaves is
    redacted as the plan says, and a mandatory log is kept or accounted for. *)
From stdpp Require Import base list gmap strings.
From Stdlib Require Import ZArith Lia Ascii.
From S2P Require Import Prelude GoStrings Taxonomy Json RedactionProfile RedactionEngine Classification RoutingPlan PlanFacts ManagedPlan ManagedFacts Router RouterFacts RouterProps ProfileAdapter Pipeline.

Local Open Scope string_scope.

(** ** Outcomes *)

Section Outcomes.
Context {P : Projector} (sha256 : string -> string) (registered : EventIdentity -> bool).


Lemma elem_of_works {A B} (results : list (A + B)) b : b ∈ works results <-> inr b ∈ results.
Proof.
  unfold works. rewrite list_elem_of_omap. split; [|by exists (inr b)].
  intros ([a|b'] & Hin & E); [done|]. by injection E as ->.
Qed.

Lemma elem_of_faults {A B} (results : list (A + B)) a : a ∈ faults results <-> inl a ∈ results.
Proof.
  unfold faults. rewrite list_elem_of_omap. split; [|by exists (inl a)].
  intros ([a'|b] & Hin & E); [|done]. by injection E as ->.
Qed.

Lemma project_optional_delivery cat policy r origin d w :
  fst (project_optional cat policy r origin d) = inr w ->
  w_delivery w = d /\ w_identity w = delivery_identity r origin /\
  exists q, resolveProjectionProfile cat (RedactionProfile d) policy = Some q /\
    project (canonical r) q = inr (w_projection w).
Proof.
  unfold project_optional. destruct (resolveProjectionProfile _ _ _) as [q|]; [|done]. cbn.
  destruct (project (canonical r) q) eqn:E; [done|]. intros [= <-]. eauto.
Qed.

Lemma project_optional_fault cat policy r origin d f :
  fst (project_optional cat policy r origin d) = inl f ->
  (resolveProjectionProfile cat (RedactionProfile d) policy = None /\ f = newOptionalFailure d OptionalFailureProfile) \/
  (exists q err, resolveProjectionProfile cat (RedactionProfile d) policy = Some q /\
    project (canonical r) q = inl err /\ f = newOptionalFailure d (boundedProjectionFailure err)).
Proof.
  unfold project_optional. destruct (resolveProjectionProfile _ _ _) as [q|]; [|intros [= <-]; by left]. cbn.
  destruct (project (canonical r) q) eqn:E; [|done]. intros [= <-]. right. eauto.
Qed.

(** A loop makes its calls one element after the other. *)
Lemma tmap_spec {A B} (f : A -> Traced B) l :
  tmap f l = ((fun x => fst (f x)) <$> l, l ≫= (fun x => snd (f x))).
Proof. induction l as [|x l IH]; [done|]. cbn. rewrite IH. unfold tbind. cbn. by rewrite app_nil_r. Qed.

Lemma project_optional_events cat policy r origin d e :
  e ∈ snd (project_optional cat policy r origin d) -> exists q, e = Projecting r q.
Proof.
  unfold project_optional. destruct (resolveProjectionProfile _ _ _) as [q|]; [|by intros ?%elem_of_nil].
  cbn. intros ->%list_elem_of_singleton. by exists q.
Qed.

(** What the builder may do with a failure. *)
Lemma safeBuilder_inr builder a r : safeBuilder builder a = inr r -> exists build, builder = Some build /\ build a = inr r.
Proof. unfold safeBuilder. destruct builder as [build|]; [|done]. destruct (build a) eqn:E; [done|]. intros [= <-]. eauto. Qed.
End Outcomes.

(** ** One call of the log pipeline *)

Section Process.
Context {P : Projector} (sha256 : string -> string) (registered : EventIdentity -> bool).

Notation process := (process registered).

(** The optional part of a successful outcome. *)
Definition optional_results (pl : LocalLogPipeline) (policy : SinkPolicy) (localOnly : bool) (record : LogRecord)
    (origin : string) (optional : list Delivery) : list (OptionalFailure + ProjectedDelivery) :=
  if localOnly then [] else (fun d => fst (project_optional (catalog pl) policy record origin d)) <$> optional.

Definition optional_events (pl : LocalLogPipeline) (policy : SinkPolicy) (localOnly : bool) (record : LogRecord)
    (origin : string) (optional : list Delivery) : list PipelineEvent :=
  if localOnly then [] else optional ≫= fun d => snd (project_optional (catalog pl) policy record origin d).

(** The optional part of a call appends nothing. *)
Lemma appends_stored pl policy localOnly record origin optional lp lproj :
  appends (Projecting record lp :: Appending (record, lproj) ::
    optional_events pl policy localOnly record origin optional) = [(record, lproj)].
Proof.
  unfold appends. cbn. f_equal. apply elem_of_nil_inv. intros a (e & He & Ha)%list_elem_of_omap.
  unfold optional_events in He. destruct localOnly; [by apply elem_of_nil in He|].
  apply list_elem_of_bind in He as (d & He & _). by apply project_optional_events in He as [q ->].
Qed.

Lemma process_inr pl c m builder localOnly origin o events :
  process (Some pl) (Some c) m builder localOnly origin = (inr o, events) ->
  (o = mkOutcome _ AdmissionDrop false false [] [] /\ events = [] /\
   Admit registered (Some (evaluator pl)) m = inr AdmissionDrop) \/
  exists a record local optional lp lproj,
    a <> AdmissionDrop /\ Admit registered (Some (evaluator pl)) m = inr a /\
    safeBuilder builder a = inr record /\ r_metadata record = m /\
    splitLocalDelivery (route (evaluator pl) m a) a = Some (local, optional) /\
    resolveProjectionProfile (catalog pl) (RedactionProfile local) (ctx_SinkPolicy c) = Some lp /\
    project (canonical record) lp = inr lproj /\ AppendContext (appender pl) (record, lproj) = None /\
    events = Projecting record lp :: Appending (record, lproj) ::
      optional_events pl (ctx_SinkPolicy c) localOnly record origin optional /\
    o = mkOutcome _ a true false (works (optional_results pl (ctx_SinkPolicy c) localOnly record origin optional))
          (faults (optional_results pl (ctx_SinkPolicy c) localOnly record origin optional)).
Proof.
  unfold Pipeline.process. intros H. destruct (ctx_Err c); [done|].
  destruct (negb (id_Signal (m_identity m) =? SignalLogs)); [done|].
  destruct (Evaluate registered (Some (evaluator pl)) m (Some (safeBuilder builder))) as [[err|res] calls] eqn:He; [done|].
  cbn [fst] in H. apply Evaluate_cases in He as (a & Ha & Hra & Hcase). rewrite Hra in H.
  destruct Hcase as [(-> & _ & _ & _)|(Hne & _ & build & record & Hb & Hbr & Hm & _ & Hrec & Hdel)].
  { rewrite bool_decide_eq_true_2 in H by done. injection H as <- <-. by left. }
  rewrite bool_decide_eq_false_2 in H by done. rewrite Hrec in H.
  destruct (negb (id_Signal (identity_of record) =? SignalLogs)); [done|]. injection Hb as <-.
  right. unfold process_admitted in H. rewrite Hdel in H.
  destruct (splitLocalDelivery _ _) as [[local optional]|] eqn:Hs; [|done].
  destruct (resolveProjectionProfile (catalog pl) (RedactionProfile local) _) as [lp|] eqn:Hl; [|done].
  unfold tbind, call_Project in H. cbn [fst snd] in H.
  destruct (project (canonical record) lp) as [err|lproj] eqn:Hp; [done|].
  unfold tbind, call_AppendContext in H. cbn [fst snd] in H. destruct (AppendContext _ _) eqn:Happ in H; [done|].
  exists a, record, local, optional, lp, lproj. unfold optional_results, optional_events.
  destruct localOnly; [by injection H as <- <-|]. rewrite tmap_spec in H. cbn in H. rewrite app_nil_r in H.
  by injection H as <- <-.
Qed.

(** What a call that succeeds has passed on its way. *)
Lemma process_gates pl c m builder localOnly origin o events :
  process (Some pl) (Some c) m builder localOnly origin = (inr o, events) ->
  ctx_Err c = None /\ id_Signal (m_identity m) = SignalLogs /\
  forall a record, Admit registered (Some (evaluator pl)) m = inr a -> safeBuilder builder a = inr record ->
    a <> AdmissionDrop -> verifyBuiltRecord m a record = None.
Proof.
  unfold Pipeline.process. intros H. destruct (ctx_Err c); [done|]. split; [done|].
  destruct (id_Signal (m_identity m) =? SignalLogs) eqn:Hs; [|done]. apply String.eqb_eq in Hs. split; [done|].
  intros a record Ha Hb Hne. unfold Evaluate in H. rewrite Ha in H.
  destruct a; [done| |]; rewrite Hb in H; by destruct (verifyBuiltRecord _ _ _).
Qed.

Lemma process_admits pl c m builder localOnly origin a record :
  ctx_Err c = None -> id_Signal (m_identity m) = SignalLogs -> Admit registered (Some (evaluator pl)) m = inr a ->
  a <> AdmissionDrop -> safeBuilder builder a = inr record -> r_metadata record = m ->
  verifyBuiltRecord m a record = None ->
  process (Some pl) (Some c) m builder localOnly origin =
    process_admitted pl (ctx_SinkPolicy c) localOnly origin a record (route (evaluator pl) m a).
Proof.
  intros Hc Hs Ha Hne Hb Hm Hv. unfold Pipeline.process. rewrite Hc, Hs, String.eqb_refl. cbn [negb].
  assert (He : fst (Evaluate registered (Some (evaluator pl)) m (Some (safeBuilder builder))) =
    inr (mkResult a (Some record) (route (evaluator pl) m a))).
  { unfold Evaluate. rewrite Ha. by destruct a; [done| |]; rewrite Hb, Hv. }
  rewrite He. cbn [res_admission res_record res_deliveries]. rewrite bool_decide_eq_false_2 by done.
  unfold identity_of. by rewrite Hm, Hs, String.eqb_refl.
Qed.

(** The local leg of a call: either it stores the record, or its projection fails
    or the store refuses it. *)
Lemma process_local_leg pl c m builder localOnly origin a record local optional lp :
  process (Some pl) (Some c) m builder localOnly origin =
    process_admitted pl (ctx_SinkPolicy c) localOnly origin a record (route (evaluator pl) m a) ->
  splitLocalDelivery (route (evaluator pl) m a) a = Some (local, optional) ->
  resolveProjectionProfile (catalog pl) (RedactionProfile local) (ctx_SinkPolicy c) = Some lp ->
  (exists o, fst (process (Some pl) (Some c) m builder localOnly origin) = inr o) \/
  (exists err, project (canonical record) lp = inl err) \/
  (exists p err, project (canonical record) lp = inr p /\ AppendContext (appender pl) (record, p) = Some err).
Proof.
  intros -> Hs Hl. unfold process_admitted, tbind, call_Project, call_AppendContext. rewrite Hs, Hl. cbn [fst snd].
  destruct (project (canonical record) lp) as [err|p]; [right; left; eauto|].
  destruct (AppendContext _ _) eqn:Happ; [right; right; eauto|]. left. cbn [fst snd].
  destruct localOnly; [by eexists|]. rewrite tmap_spec. by eexists.
Qed.

Lemma split_spec deliveries a local optional :
  splitLocalDelivery deliveries a = Some (local, optional) ->
  local ∈ deliveries /\ is_local local = true /\ length deliveries = S (length optional) /\
  (forall d, d ∈ optional <-> d ∈ deliveries /\ is_local d = false).
Proof.
  unfold splitLocalDelivery. intros H.
  assert (Hlen : length (List.filter is_local deliveries) + length (List.filter (fun d => negb (is_local d)) deliveries) =
    length deliveries) by apply List.filter_length.
  destruct (List.filter is_local deliveries) as [|x [|]] eqn:Ef; [done| |done].
  assert (Hx : local = x /\ optional = List.filter (fun d => negb (is_local d)) deliveries).
  { destruct a; [done| |]; [destruct (MandatoryFloor x)|destruct (_ || _)]; try done; by injection H as <- <-. }
  destruct Hx as [-> ->]. cbn in Hlen.
  assert (Hin : In x (List.filter is_local deliveries)) by (rewrite Ef; by left).
  apply filter_In in Hin as [Hin Hl]. split_and!; [by apply list_elem_of_In|done|lia|].
  intros d. rewrite !list_elem_of_In, filter_In. by rewrite negb_true_iff.
Qed.

(** The optional work of a successful call. *)
Lemma process_work pl c m builder localOnly origin o events w :
  process (Some pl) (Some c) m builder localOnly origin = (inr o, events) ->
  Admit registered (Some (evaluator pl)) m = inr (o_admission o) /\
  (w ∈ o_optionalWork o <->
    localOnly = false /\ o_admission o <> AdmissionDrop /\
    exists build record q, builder = Some build /\ build (o_admission o) = inr record /\ r_metadata record = m /\
      w_delivery w ∈ route (evaluator pl) m (o_admission o) /\ is_local (w_delivery w) = false /\
      w_identity w = delivery_identity record origin /\
      resolveProjectionProfile (catalog pl) (RedactionProfile (w_delivery w)) (ctx_SinkPolicy c) = Some q /\
      project (canonical record) q = inr (w_projection w)).
Proof.
  intros [(-> & -> & Ha)|(a & record & local & optional & lp & lproj & Hne & Ha & Hb & Hm & Hs & _ & _ & _ & _ & ->)]
    %process_inr; cbn [o_admission o_optionalWork]; (split; [done|]).
  { split; [by intros ?%elem_of_nil|]. by intros (_ & ? & _). }
  apply split_spec in Hs as (_ & _ & _ & Hopt). apply safeBuilder_inr in Hb as (build & -> & Hb).
  rewrite elem_of_works. unfold optional_results. destruct localOnly.
  { split; [by intros ?%elem_of_nil|by intros [? _]]. }
  rewrite list_elem_of_fmap. split.
  - intros (d & Hw & Hd). symmetry in Hw. apply project_optional_delivery in Hw as (<- & Hid & q & Hq & Hproj).
    apply Hopt in Hd as [? ?]. split_and!; [done..|]. exists build, record, q. by split_and!.
  - intros (_ & _ & build' & record' & q & [= <-] & Hb' & _ & Hin & Hl & Hid & Hq & Hproj).
    assert (record' = record) as -> by congruence. exists (w_delivery w). split; [|by apply Hopt].
    unfold project_optional. rewrite Hq. cbn. rewrite Hproj. destruct w. cbn in *. by subst.
Qed.





End Process.

(** ** Compiled plans *)

Section Plans.
Context {U : GoUnicode} {P : Projector} (sha256 : string -> string).
Context (registered_action registered_name : string -> bool) {Settings : Type}.
Context (headers_error : DestinationSource Settings -> string -> option Error).
Context (compileTransport : DestinationSource Settings -> list string -> string -> Error + TransportPlan).
Context (overrides_error : DestinationSource Settings -> list string -> string -> option Error).
Context (destinationCompatibility : EffectiveDestination -> Error + list (string * list SpanFamily)).
Context (galileoCompatibilityProfile : string).
Context (completeProvenance : EffectivePlan -> option (list (string * string * string))).
Context (maskEndpoint : string -> string) (plan_digest : EffectivePlan -> string).
Context (semanticLock_error traceMetric_error resource_error : PlanSource Settings -> option Error).
Context (sourceProvenance : PlanSource Settings -> list EffectiveBucket -> list EffectiveDestination ->
  list (string * string * string)).
Context (url_Parse : string -> option ParsedURL) (has_space : string -> bool).
Context (registered : EventIdentity -> bool).

Notation runtime_plan := (runtime_plan registered_action registered_name headers_error compileTransport
  overrides_error destinationCompatibility galileoCompatibilityProfile completeProvenance maskEndpoint plan_digest
  semanticLock_error traceMetric_error resource_error sourceProvenance url_Parse has_space).
Notation origin_parses := (origin_parses maskEndpoint url_Parse has_space).
Notation NewLocalLogPipeline := (NewLocalLogPipeline sha256).
Notation process := (process registered).

Lemma runtime_profiles_ok source options p : runtime_plan source options p -> profiles_ok (pl_Profiles (effective p)).
Proof.
  intros (compiled & Hc & Hm). apply Compile_profiles_ok in Hc.
  by rewrite (WithManaged_profiles completeProvenance maskEndpoint plan_digest url_Parse has_space _ _ _ Hm).
Qed.

Lemma profile_names_stable ps n : profiles_ok ps -> n ∈ ep_Name <$> ps -> IsStableToken n = true.
Proof.
  intros (custom & -> & Hok & _). rewrite fmap_app, elem_of_app. intros [Hn|Hn].
  - revert n Hn. apply Forall_forall. repeat constructor.
  - apply list_elem_of_fmap in Hn as (e & -> & He). rewrite Forall_forall in Hok. apply StableName_token.
    by destruct (Hok e He) as (_ & ? & _).
Qed.

Lemma New_digest p ev : New url_Parse (Some p) = inr ev -> planDigest ev = digest p.
Proof.
  unfold New. destruct (negb _); [done|]. destruct (index_buckets _ _ _) as [|[seen index]]; [done|].
  destruct (negb _); [done|]. destruct (index_destinations _ _ _ _ _ _) as [|[[local|] managed]]; [done| |done].
  by intros [= <-].
Qed.

Lemma local_profiles_total p buckets : forall acc,
  (forall b, b ∈ buckets -> exists e, find (fun q => eb_Bucket q =? b) (pl_Buckets (effective p)) = Some e /\
     IsStableToken (eb_RedactionProfile e) = true) ->
  exists m, local_profiles p buckets acc = Some m /\
    forall b e, find (fun q => eb_Bucket q =? b) (pl_Buckets (effective p)) = Some e ->
      b ∈ buckets \/ acc !! b = Some (eb_RedactionProfile e) -> m !! b = Some (eb_RedactionProfile e).
Proof.
  induction buckets as [|b r IH]; intros acc Hall; [exists acc; split; [done|]; intros b e _ [?%elem_of_nil|]; done|].
  destruct (Hall b) as (e & He & Hs); [apply list_elem_of_here|]. cbn [local_profiles ResolveLocalRedactionProfile].
  rewrite He, Hs. destruct (IH (<[b := eb_RedactionProfile e]> acc)) as (m & Hm & Hl).
  { intros b' Hb'. apply Hall. by apply list_elem_of_further. }
  exists m. split; [done|]. intros b' e' He' Hin. apply Hl; [done|].
  destruct (decide (b' = b)) as [->|Hne].
  - right. rewrite lookup_insert_eq. congruence.
  - rewrite lookup_insert_ne by done. destruct Hin as [Hin|?]; [|by right]. left.
    by apply elem_of_cons in Hin as [?|?].
Qed.

Lemma find_bucket known bs b :
  buckets_ok known bs -> b ∈ Buckets -> exists e, find (fun q => eb_Bucket q =? b) bs = Some e /\ e ∈ bs /\ eb_Bucket e = b.
Proof.
  intros [Hids _] Hb. rewrite <-Hids in Hb. apply list_elem_of_fmap in Hb as (e & -> & He).
  destruct (find _ bs) as [e'|] eqn:Hf.
  - apply find_some in Hf as [Hin Heq%String.eqb_eq]. exists e'. by rewrite list_elem_of_In.
  - eapply find_none in Hf; [|by apply list_elem_of_In]. by rewrite String.eqb_refl in Hf.
Qed.

(** A pipeline over the plan [p]: what its construction establishes. *)
Record assembled (p : Plan) (ev : Evaluator) (pl : LocalLogPipeline) : Prop := {
  as_evaluator : evaluator pl = ev;
  as_names : forall n, is_Some (catalog pl !! n) <-> n ∈ ep_Name <$> pl_Profiles (effective p);
  as_profiles : forall e, e ∈ pl_Profiles (effective p) ->
    exists q, catalog pl !! ep_Name e = Some q /\ represents sha256 e q;
  as_local : forall bucket, bucket ∈ Buckets -> exists e, e ∈ pl_Buckets (effective p) /\ eb_Bucket e = bucket /\
    local pl !! bucket = Some (eb_RedactionProfile e);
}.

Lemma assemble source options p ev app fac :
  origin_parses -> runtime_plan source options p -> New url_Parse (Some p) = inr ev ->
  digest p <> "" -> GraphDigest app = digest p ->
  exists pl, NewLocalLogPipeline (Some p) (Some ev) (Some tt) (Some app) (Some fac) = inr pl /\
    assembled p ev pl /\ appender pl = app /\ failures pl = fac /\
    NewTraceProjectionPipeline sha256 (Some p) (Some ev) (Some tt) = inr (mkTracePipeline ev (catalog pl) (digest p)).
Proof.
  intros Ho Hp Hnew Hd Hg. pose proof (runtime_profiles_ok _ _ _ Hp) as Hps.
  apply runtime_plan_ok in Hp as (Hok & _ & _ & Hknown); [|done]. destruct Hok as (_ & Hbs & _).
  destruct (build_total sha256 _ Hps) as (cat & Hcat & Hnames & Hrep).
  assert (Hbk : forall b, b ∈ Buckets -> exists e, find (fun q => eb_Bucket q =? b) (pl_Buckets (effective p)) = Some e /\
    e ∈ pl_Buckets (effective p) /\ eb_Bucket e = b /\ IsStableToken (eb_RedactionProfile e) = true).
  { intros b Hb. destruct (find_bucket _ _ b Hbs Hb) as (e & Hf & He & Hb'). exists e. split_and!; try done.
    apply (profile_names_stable (pl_Profiles (effective p))); [done|]. apply Hknown. destruct Hbs as [_ Hall].
    rewrite Forall_forall in Hall. by apply Hall. }
  destruct (local_profiles_total p Buckets ∅) as (m & Hm & Hml).
  { intros b Hb. destruct (Hbk b Hb) as (e & ? & _ & _ & ?). eauto. }
  exists (mkPipeline ev cat m app fac).
  assert (Hdig : (digest p =? "") = false) by by apply String.eqb_neq.
  unfold Pipeline.NewLocalLogPipeline, NewTraceProjectionPipeline.
  rewrite (New_digest _ _ Hnew), Hg, Hdig, String.eqb_refl. cbn [orb negb RedactionProfileCatalog].
  rewrite Hcat, Hm. split; [done|]. split; [|done]. split; [done|exact Hnames|exact Hrep|].
  intros b Hb. destruct (Hbk b Hb) as (e & Hf & He & Hbe & _). exists e. split_and!; [done..|]. cbn. apply Hml; auto.
Qed.

(** C25: a configuration that compiles can be run to the end: with the evaluator of its
    plan, and a local store that serves the same plan, both pipelines can be
    built.  Their catalog has exactly the profiles of the plan, each profile
    treats every class as the plan says, and every bucket has its local profile. *)
Theorem pipeline_assembles source options p app fac :
  origin_parses -> runtime_plan source options p -> digest p <> "" -> GraphDigest app = digest p ->
  exists ev pl t, New url_Parse (Some p) = inr ev /\
    NewLocalLogPipeline (Some p) (Some ev) (Some tt) (Some app) (Some fac) = inr pl /\
    NewTraceProjectionPipeline sha256 (Some p) (Some ev) (Some tt) = inr t /\ t_catalog t = catalog pl /\
    (forall n, is_Some (catalog pl !! n) <-> n ∈ ep_Name <$> pl_Profiles (effective p)) /\
    (forall e, e ∈ pl_Profiles (effective p) -> exists q, catalog pl !! ep_Name e = Some q /\ represents sha256 e q) /\
    (forall bucket, bucket ∈ Buckets -> exists e, e ∈ pl_Buckets (effective p) /\ eb_Bucket e = bucket /\
       local pl !! bucket = Some (eb_RedactionProfile e)).
Proof.
  intros Ho Hp Hd Hg. pose proof (runtime_plan_ok _ _ _ _ _ _ _ _ _ _ _ _ _ _ _ _ _ _ _ Ho Hp) as (Hok & Hmask & Hne & _).
  destruct (New_plan_ok maskEndpoint url_Parse _ p Hok Hne Hmask) as (ev & Hnew & _).
  destruct (assemble source options p ev app fac Ho Hp Hnew Hd Hg) as (pl & Hpl & [_ ? ? ?] & _ & _ & Ht).
  by exists ev, pl, (mkTracePipeline ev (catalog pl) (digest p)).
Qed.

Lemma NewLocal_assembled source options p ev app fac pl :
  origin_parses -> runtime_plan source options p -> New url_Parse (Some p) = inr ev ->
  NewLocalLogPipeline (Some p) (Some ev) (Some tt) (Some app) (Some fac) = inr pl ->
  assembled p ev pl /\ appender pl = app /\ failures pl = fac.
Proof.
  intros Ho Hp Hnew Hpl. assert (Hd : digest p <> "" /\ GraphDigest app = digest p).
  { unfold Pipeline.NewLocalLogPipeline in Hpl. rewrite (New_digest _ _ Hnew) in Hpl.
    destruct (String.eqb_spec (digest p) ""); [done|]. rewrite String.eqb_refl in Hpl. cbn [orb negb] in Hpl.
    destruct (GraphDigest app =? "") eqn:E; [done|]. cbn [orb] in Hpl.
    by destruct (String.eqb_spec (GraphDigest app) (digest p)). }
  destruct Hd as [Hd Hg]. destruct (assemble source options p ev app fac Ho Hp Hnew Hd Hg) as (pl' & Hpl' & Has & Ha & Hf & _).
  by assert (pl' = pl) as -> by congruence.
Qed.

(** A policy of the context resolves every profile of the plan. *)
Lemma resolve_total p ev pl n policy :
  profiles_ok (pl_Profiles (effective p)) -> assembled p ev pl -> policy <> SinkPolicyInvalid ->
  n ∈ ep_Name <$> pl_Profiles (effective p) ->
  exists q, resolveProjectionProfile (catalog pl) n policy = Some q.
Proof.
  intros (custom & Eps & _) Has Hpol Hn.
  assert (Hb : forall n, n ∈ ep_Name <$> (snd <$> config_builtins) -> is_Some (catalog pl !! n)).
  { intros n' Hn'. apply (as_names _ _ _ Has). rewrite Eps, fmap_app. apply elem_of_app. by left. }
  unfold resolveProjectionProfile, RedactionProfile.Resolve. destruct policy; [by apply (as_names _ _ _ Has)| | |done];
    apply Hb, (bool_decide_unpack (_ ∈ _)); by vm_compute.
Qed.

Lemma split_log local optional a :
  a <> AdmissionDrop -> is_local local = true -> Forall (fun d => is_local d = false) optional ->
  MandatoryFloor local = bool_decide (a = AdmissionFloor) -> (a = AdmissionFloor -> optional = []) ->
  splitLocalDelivery (local :: optional) a = Some (local, optional).
Proof.
  intros Ha Hl Hopt Hf Hnone. unfold splitLocalDelivery. cbn [List.filter]. rewrite Hl. cbn [negb].
  assert (List.filter is_local optional = [] /\ List.filter (fun d => negb (is_local d)) optional = optional) as [-> ->].
  { clear -Hopt. induction Hopt as [|d r Hd _ IH]; [done|]. cbn. rewrite Hd. cbn. by destruct IH as [-> ->]. }
  destruct a; [done| |].
  - by rewrite Hf.
  - by rewrite Hf, Hnone.
Qed.

(** The builder does what the evaluator checks: a record of this very
    classification, minimal exactly when only the floor admits it. *)
Definition conformant (m : Metadata) (build : RecordBuilder RecordContent) : Prop :=
  forall a, exists r, build a = inr r /\ r_metadata r = m /\ r_floorOnly r = bool_decide (a = AdmissionFloor).

Lemma Evaluate_conformant ev m a build :
  Admit registered (Some ev) m = inr a -> a <> AdmissionDrop -> conformant m build ->
  exists r, build a = inr r /\ r_metadata r = m /\
    fst (Evaluate registered (Some ev) m (Some build)) = inr (mkResult a (Some r) (route ev m a)).
Proof.
  intros Ha Hne Hb. destruct (Hb a) as (r & Hr & Hm & Hfl). exists r. split_and!; [done..|].
  pose proof (Admit_cases registered ev m a Ha) as [_ Hc].
  assert (Hver : verifyBuiltRecord m a r = None).
  { unfold verifyBuiltRecord, metadataFromRecord. rewrite bool_decide_eq_true_2 by done. cbn [negb].
    rewrite Hm, Hfl. destruct a; [done|done|]. destruct Hc as [[? _]|[_ [(_ & _ & ->)|[? _]]]]; done. }
  unfold Evaluate. rewrite Ha. by destruct a; [done| |]; rewrite Hr, Hver.
Qed.

Lemma boundedProjectionFailure_projection err : boundedProjectionFailure err <> OptionalFailureProfile.
Proof. by destruct err as [[]|]. Qed.

(** The failure record is stored, or the error says why it is not. *)
Lemma persist_cases p ev pl failed profile c :
  profiles_ok (pl_Profiles (effective p)) -> assembled p ev pl ->
  (forall b, b ∈ pl_Buckets (effective p) -> eb_RedactionProfile b ∈ ep_Name <$> pl_Profiles (effective p)) ->
  match persistLocalProjectionFailure pl failed profile c with
  | (None, events) =>
      exists fr proj, appends events = [(fr, proj)] /\ AppendContext (appender pl) (fr, proj) = None /\
        valid_failure_record fr = true /\
        failures pl (mkFailure (id_Bucket (identity_of failed)) profile c (rc_Correlation (r_content failed))
          (rc_Provenance (r_content failed))) = inr fr
  | (Some e, events) =>
      (code e = ErrorLocalWrite /\ exists a err, appends events = [a] /\ AppendContext (appender pl) a = Some err) \/
      (code e = ErrorFailureRecord /\ appends events = [])
  end.
Proof.
  intros Hps Has Hbk. unfold persistLocalProjectionFailure.
  assert (Hbound : forall k err, code (boundedPipelineError k err) = k).
  { intros k err. unfold boundedPipelineError. by destruct (is_Canceled err), (is_DeadlineExceeded err). }
  destruct (failures pl _) as [err|fr] eqn:Hfr; [right; by rewrite Hbound|].
  destruct (valid_failure_record fr) eqn:Hv; [|by right]. cbn [negb].
  destruct (as_local _ _ _ Has BucketPlatformHealth) as (e & He & _ & ->); [apply (bool_decide_unpack (_ ∈ _)); by vm_compute|].
  destruct (proj2 (as_names _ _ _ Has (eb_RedactionProfile e)) (Hbk e He)) as [q Hq].
  unfold RedactionProfile.Resolve. rewrite Hq. unfold tbind, call_Project. cbn [fst snd].
  destruct (project (canonical fr) q) as [[?|err]|proj]; [by right|right; by rewrite Hbound|]. cbn.
  destruct (AppendContext (appender pl) _) as [err|] eqn:Happ; cbn; [left|by eauto 6].
  rewrite Hbound. split; [done|]. by exists (fr, proj), err.
Qed.

(** C2: no log is lost without a trace: under every plan a well-classified log is
    dropped only when it is optional and its bucket is not collected.  Otherwise it
    is appended exactly once and that append is accepted; or the call ends in an
    error whose code says which step failed: an append the store refused (of the
    record, or of its failure record); a failed projection for which a valid
    failure record stands in the store, the one the factory built for the bucket
    of the log; or a failed projection whose failure record could not be built or
    projected either, and then nothing is appended.  The routing never fails,
    every profile is found, and an optional delivery fails only when its
    projection does. *)
Theorem log_accounted source options p ev app fac pl c m build localOnly origin :
  origin_parses -> runtime_plan source options p -> New url_Parse (Some p) = inr ev ->
  NewLocalLogPipeline (Some p) (Some ev) (Some tt) (Some app) (Some fac) = inr pl ->
  id_Signal (m_identity m) = SignalLogs -> validate registered m = None -> conformant m build ->
  ctx_Err c = None -> ctx_SinkPolicy c <> SinkPolicyInvalid ->
  match process (Some pl) (Some c) m (Some build) localOnly origin with
  | (inr o, events) =>
      if o_localPersisted o then
        (exists a, appends events = [a] /\ AppendContext app a = None /\ r_metadata (fst a) = m) /\
        Forall (fun f => of_code f <> OptionalFailureProfile) (o_optionalFailure o)
      else events = [] /\ m_mandatory m = false /\
           Collected (Some ev) (id_Bucket (m_identity m)) SignalLogs = false
  | (inl e, events) =>
      (code e = ErrorLocalWrite /\ exists a err, appends events = [a] /\ AppendContext app a = Some err) \/
      ((exists a r q err, build a = inr r /\ project (canonical r) q = inl err) /\
       ((code e = ErrorLocalProjection /\ exists fr proj profile failure correlation provenance,
           appends events = [(fr, proj)] /\ AppendContext app (fr, proj) = None /\ valid_failure_record fr = true /\
           fac (mkFailure (id_Bucket (m_identity m)) profile failure correlation provenance) = inr fr) \/
        (code e = ErrorFailureRecord /\ appends events = [])))
  end.
Proof.
  intros Ho Hp Hnew Hpl Hsig Hv Hb Hctx Hpol.
  destruct (NewLocal_assembled _ _ _ _ _ _ _ Ho Hp Hnew Hpl) as (Has & <- & <-).
  pose proof (runtime_profiles_ok _ _ _ Hp) as Hps.
  pose proof (runtime_plan_built _ _ _ _ _ _ _ _ _ _ _ _ _ _ _ _ _ _ _ _ Ho Hp Hnew) as Hbuilt.
  apply runtime_plan_ok in Hp as (Hok & _ & _ & Hknown); [|done].
  assert (Hbk : forall b, b ∈ pl_Buckets (effective p) -> eb_RedactionProfile b ∈ ep_Name <$> pl_Profiles (effective p)).
  { destruct Hok as (_ & [_ Hall] & _). intros b Hin. rewrite Forall_forall in Hall. by apply Hknown, Hall. }
  assert (Hadm : exists a, Admit registered (Some ev) m = inr a).
  { unfold Admit. rewrite Hv. case_match; [by eexists|]. case_match; by eexists. }
  destruct Hadm as [a Ha]. unfold Pipeline.process. rewrite Hctx, Hsig, String.eqb_refl. cbn [negb].
  rewrite (as_evaluator _ _ _ Has). destruct (decide (a = AdmissionDrop)) as [->|Hne].
  { unfold Evaluate. rewrite Ha. cbn [fst res_admission]. rewrite bool_decide_eq_true_2 by done. cbn [o_localPersisted].
    apply Admit_cases in Ha as [_ [[? _]|[Hc [[? _]|[_ Hm]]]]]; [done..|]. rewrite Hsig in Hc. by destruct Hm as [?|?]. }
  destruct (Evaluate_conformant ev m a (safeBuilder (Some build)) Ha Hne) as (r & Hr & Hm & He).
  { intros a'. destruct (Hb a') as (r & Hr & ?). exists r. unfold safeBuilder. by rewrite Hr. }
  rewrite He. cbn [res_admission res_record res_deliveries]. rewrite bool_decide_eq_false_2 by done.
  unfold identity_of. rewrite Hm, Hsig, String.eqb_refl. cbn [negb]. unfold process_admitted.
  destruct (log_route registered_action registered_name maskEndpoint url_Parse has_space _ p ev m a Hok Hbuilt Hsig)
    as (local & optional & Hroute & Hn & Hk & Hf & Hopt & Hnone & Hprof); [by apply (validate_identity registered m)|].
  rewrite Hroute, split_log; [|done| | |done|done].
  2:{ unfold is_local. by rewrite Hn, Hk, !String.eqb_refl. }
  2:{ eapply Forall_impl; [exact Hopt|]. intros d Hd. unfold is_local. by apply String.eqb_neq in Hd as ->. }
  apply Forall_cons_1 in Hprof as [Hlp Hprof].
  destruct (resolve_total p ev pl (RedactionProfile local) (ctx_SinkPolicy c) Hps Has Hpol) as [lp Hl]; [by apply Hknown|].
  rewrite Hl. apply safeBuilder_inr in Hr as (build' & [= <-] & Hr). unfold tbind at 1, call_Project. cbn [fst snd].
  destruct (project (canonical r) lp) as [err|proj] eqn:Hproj.
  - pose proof (persist_cases p ev pl r (name lp) (boundedProjectionFailure err) Hps Has Hbk) as Hc. unfold tbind.
    destruct (persistLocalProjectionFailure _ _ _ _) as [[e|] events]; cbn [fst snd tret default];
      change (appends ([Projecting r lp] ++ events ++ [])) with (appends (events ++ [])); rewrite app_nil_r.
    + destruct Hc as [?|?]; [by left|]. right. split; [by exists a, r, lp, err|by right].
    + destruct Hc as (fr & proj & Hap & ? & ? & Hfr). right. split; [by exists a, r, lp, err|]. left. split; [done|].
      unfold identity_of in Hfr. rewrite Hm in Hfr. by repeat eexists.
  - unfold tbind at 1, call_AppendContext. cbn [fst snd]. destruct (AppendContext _ _) as [err|] eqn:Happ.
    { left. split; [unfold boundedPipelineError; by destruct (is_Canceled err), (is_DeadlineExceeded err)|].
      by exists (r, proj), err. }
    assert (Hfl : Forall (fun f => of_code f <> OptionalFailureProfile)
      (faults ((fun d => fst (project_optional (catalog pl) (ctx_SinkPolicy c) r origin d)) <$> optional))).
    { apply Forall_forall. intros f (d & Hpf & Hd)%elem_of_faults%list_elem_of_fmap. symmetry in Hpf.
      rewrite Forall_forall in Hprof. destruct (resolve_total p ev pl (RedactionProfile d) (ctx_SinkPolicy c) Hps Has Hpol)
        as [q Hq]; [by apply Hknown, Hprof|].
      apply project_optional_fault in Hpf as [[Hq' _]|(q' & err & _ & _ & ->)]; [congruence|].
      apply boundedProjectionFailure_projection. }
    pose proof (appends_stored pl (ctx_SinkPolicy c) localOnly r origin optional lp proj) as Hap. unfold optional_events in Hap.
    destruct localOnly; [|rewrite tmap_spec; unfold tbind; cbn [fst snd tret]; rewrite app_nil_r];
      cbn [o_localPersisted o_optionalFailure]; (split; [by exists (r, proj)|]); [constructor|exact Hfl].
Qed.
End Plans.

(** ** With the redaction engine *)

Section WithEngine.
Context {U : GoUnicode}.
Context (sha256 : string -> string) (hmac : string -> string -> string)
        (recognize : string -> string -> string -> list Detector.acceptedMatch -> string + list Detector.candidate)
        (normalizeHashV1Value : string -> string -> HashV1ErrorCode + string)
        (legacy : Legacy)
        (NewValue : json -> bool)
        (encode_metadata : ProjectionMetadata -> option string)
        (encode_wire : string -> string -> json -> gmap string string -> ProjectionMetadata -> option string)
        (engine : Engine).

#[local] Instance the_projector : Projector :=
  engine_projector sha256 hmac recognize normalizeHashV1Value legacy NewValue encode_metadata encode_wire engine.

Context (registered_action registered_name : string -> bool) {Settings : Type}.
Context (headers_error : DestinationSource Settings -> string -> option Error).
Context (compileTransport : DestinationSource Settings -> list string -> string -> Error + TransportPlan).
Context (overrides_error : DestinationSource Settings -> list string -> string -> option Error).
Context (destinationCompatibility : EffectiveDestination -> Error + list (string * list SpanFamily)).
Context (galileoCompatibilityProfile : string).
Context (completeProvenance : EffectivePlan -> option (list (string * string * string))).
Context (maskEndpoint : string -> string) (plan_digest : EffectivePlan -> string).
Context (semanticLock_error traceMetric_error resource_error : PlanSource Settings -> option Error).
Context (sourceProvenance : PlanSource Settings -> list EffectiveBucket -> list EffectiveDestination ->
  list (string * string * string)).
Context (url_Parse : string -> option ParsedURL) (has_space : string -> bool).
Context (registered : EventIdentity -> bool).

Notation runtime_plan := (runtime_plan registered_action registered_name headers_error compileTransport
  overrides_error destinationCompatibility galileoCompatibilityProfile completeProvenance maskEndpoint plan_digest
  semanticLock_error traceMetric_error resource_error sourceProvenance url_Parse has_space).
Notation origin_parses := (origin_parses maskEndpoint url_Parse has_space).
Notation process := (process registered).
Notation projects_list := (projects_list sha256 hmac recognize normalizeHashV1Value legacy engine).

(** The profile that applies to a delivery under the policy of the call. *)
Definition applied_profile (policy : SinkPolicy) (configured : string) : string :=
  match policy with
  | SinkPolicyDefault | SinkPolicyInvalid => configured
  | SinkPolicyRaw => ProfileNone
  | SinkPolicyRedact => ProfileSensitive
  end.

Lemma resolve_applied cat configured policy q :
  resolveProjectionProfile cat configured policy = Some q -> cat !! applied_profile policy configured = Some q.
Proof. unfold resolveProjectionProfile, RedactionProfile.Resolve. by destruct policy. Qed.

(** What the engine accepted. *)
Lemma projected_fields r q w :
  project r q = inr w -> Signal r <> SignalMetrics ->
  exists fields, Body r = Some (JObject fields) /\ preflightFieldMap (JObject fields) (FieldClassMap r) = true.
Proof.
  cbn [project the_projector engine_projector]. unfold Project, recordPayload. intros H Hs.
  apply String.eqb_neq in Hs. rewrite Hs in H.
  destruct (negb (validProfile sha256 q)); [done|]. destruct (Body r) as [[]|]; try done.
  destruct (preflightFieldMap _ _) eqn:E; [|done]. eauto.
Qed.

(** C6: what leaves is redacted as the plan says: every projection of a successful
    call comes from a profile of the plan, the one its delivery names unless the
    request has a policy of its own, which puts the profile "none" (raw) or
    "sensitive" (redact) in its place; its payload is the record with each leaf
    treated as that profile says for the class of the leaf, and the whole record
    when the profile is "none". *)
Theorem redaction_as_planned source options p ev app fac pl c m builder localOnly origin o events w :
  origin_parses -> runtime_plan source options p -> New url_Parse (Some p) = inr ev ->
  NewLocalLogPipeline sha256 (Some p) (Some ev) (Some tt) (Some app) (Some fac) = inr pl ->
  process (Some pl) (Some c) m builder localOnly origin = (inr o, events) -> w ∈ o_optionalWork o ->
  id_Signal (m_identity m) = SignalLogs ->
  exists build record fields e q outs,
    builder = Some build /\ build (o_admission o) = inr record /\ Body (canonical record) = Some (JObject fields) /\
    e ∈ pl_Profiles (effective p) /\
    ep_Name e = applied_profile (ctx_SinkPolicy c) (RedactionProfile (w_delivery w)) /\ represents sha256 e q /\
    projects_list q (rc_FieldClasses (r_content record)) "" (children (JObject fields)) outs /\
    payload (w_projection w) = JObject (kept fields outs) /\ profileFingerprintOf (w_projection w) = fingerprint q /\
    (ep_Name e = ProfileNone -> kept fields outs = fields).
Proof.
  intros Ho Hp Hnew Hpl Hproc Hw Hsig. destruct (NewLocal_assembled _ _ _ _ _ _ _ _ _ _ _ _ _ _ _ _ _ _ _ _ _ _ _ _ Ho Hp Hnew Hpl) as (Has & _).
  apply (process_work registered pl c m builder localOnly origin o events w Hproc)
    in Hw as (_ & _ & build & record & q & Hb & Hrec & Hm & _ & _ & _ & Hq & Hproj). apply resolve_applied in Hq.
  assert (He : exists e, e ∈ pl_Profiles (effective p) /\
    ep_Name e = applied_profile (ctx_SinkPolicy c) (RedactionProfile (w_delivery w))).
  { assert (Hin : applied_profile (ctx_SinkPolicy c) (RedactionProfile (w_delivery w)) ∈ ep_Name <$> pl_Profiles (effective p))
      by (apply (as_names _ _ _ _ Has); eauto). apply list_elem_of_fmap in Hin as (e & ? & ?). eauto. }
  destruct He as (e & He & Hn). destruct (as_profiles _ _ _ _ Has e He) as (q' & Hq' & Hrep).
  assert (q' = q) as -> by congruence.
  assert (Hs : Signal (canonical record) = SignalLogs) by (cbn; unfold identity_of; congruence).
  destruct (projected_fields _ _ _ Hproj) as (fields & Hbody & Hpre); [by rewrite Hs|].
  destruct (project_outcome sha256 hmac recognize normalizeHashV1Value legacy NewValue encode_metadata encode_wire
    engine (canonical record) q fields (proj1 (proj2 Hrep)) (or_introl Hs) Hbody Hpre)
    as (outs & b & Hlist & _ & Hnone & Hout). cbv zeta in Hout.
  exists build, record, fields, e, q, outs. cbn [project the_projector engine_projector] in Hproj. rewrite Hout in Hproj.
  assert (Hpay : payload (w_projection w) = JObject (kept fields outs) /\ profileFingerprintOf (w_projection w) = fingerprint q).
  { destruct (NewValue _); [|done]. destruct (marshalProjectedRecord _ _ _ _ _); [done|]. injection Hproj as <-. done. }
  destruct Hpay. split_and!; try done. intros E. apply Hnone. destruct Hrep as [-> _]. exact E.
Qed.

(** C4: what one destination can learn: take two calls whose records differ only in
    what a profile does not tell apart, and let the first return an outcome.  If
    the second returns one too, every destination that gets its copy under that
    profile gets the very same projection in both calls, or none in both,
    whatever the profiles of the other destinations and of the local store let
    through.  Otherwise the second call failed in its local leg, which decides for
    all destinations at once: the projection for the local store failed, or the
    store refused the append.  That one bit a destination can learn although its
    own profile hides it. *)
Theorem exporter_noninterference pl c m build build' localOnly origin o events q w :
  process (Some pl) (Some c) m (Some build) localOnly origin = (inr o, events) ->
  (forall a, exists r r', build a = inr r /\ build' a = inr r' /\
     rc_RecordID (r_content r) = rc_RecordID (r_content r') /\ r_metadata r = r_metadata r' /\
     r_floorOnly r = r_floorOnly r' /\
     alike sha256 hmac normalizeHashV1Value engine q (canonical r) (canonical r')) ->
  resolveProjectionProfile (catalog pl) (RedactionProfile (w_delivery w)) (ctx_SinkPolicy c) = Some q ->
  match process (Some pl) (Some c) m (Some build') localOnly origin with
  | (inr o', _) => w ∈ o_optionalWork o <-> w ∈ o_optionalWork o'
  | (inl _, _) =>
      exists record' local lp, build' (o_admission o) = inr record' /\
        local ∈ route (evaluator pl) m (o_admission o) /\ is_local local = true /\
        resolveProjectionProfile (catalog pl) (RedactionProfile local) (ctx_SinkPolicy c) = Some lp /\
        ((exists err, project (canonical record') lp = inl err) \/
         (exists p err, project (canonical record') lp = inr p /\ AppendContext (appender pl) (record', p) = Some err))
  end.
Proof.
  intros H Hb Hq. destruct (process_gates registered _ _ _ _ _ _ _ _ H) as (Hctx & Hs & Hver).
  destruct (process (Some pl) (Some c) m (Some build') localOnly origin) as [[e|o'] events'] eqn:H'.
  - apply (process_inr registered) in H
      as [(-> & _ & Ha)|(a & r & local & optional & lp & lproj & Hne & Ha & Hbr & Hm & Hsp & Hl & _ & _ & _ & ->)].
    { exfalso. revert H'. unfold Pipeline.process, Evaluate. rewrite Hctx, Hs, String.eqb_refl, Ha. cbn.
      by rewrite bool_decide_eq_true_2. }
    cbn [o_admission]. destruct (Hb a) as (r0 & r' & Hr & Hr' & _ & Hm' & Hfl & _).
    pose proof (Hver a r Ha Hbr Hne) as Hv. apply safeBuilder_inr in Hbr as (? & [= <-] & Hbr).
    assert (r0 = r) as -> by congruence.
    assert (Hv' : verifyBuiltRecord m a r' = None).
    { revert Hv. unfold verifyBuiltRecord, metadataFromRecord. by rewrite Hm', Hfl. }
    assert (Hsb : safeBuilder (Some build') a = inr r') by (unfold safeBuilder; by rewrite Hr').
    rewrite Hm in Hm'. symmetry in Hm'.
    pose proof (process_admits registered pl c m (Some build') localOnly origin a r' Hctx Hs Ha Hne Hsb Hm' Hv') as Hadm.
    destruct (process_local_leg registered pl c m (Some build') localOnly origin a r' local optional lp Hadm Hsp Hl)
      as [[o' Ho]|Hfail]; [by rewrite H' in Ho|]. apply split_spec in Hsp as (Hin & Hloc & _).
    by exists r', local, lp.
  - apply (process_work registered pl c m _ _ _ _ _ w) in H as [Ha ->], H' as [Ha' ->].
    assert (o_admission o' = o_admission o) as -> by congruence.
    destruct (Hb (o_admission o)) as (r & r' & Hr & Hr' & Hid & Hm & _ & Halike).
    assert (Hproj : project (canonical r') q = project (canonical r) q).
    { cbn [project the_projector engine_projector]. by rewrite (project_alike sha256 hmac recognize normalizeHashV1Value
        legacy NewValue encode_metadata encode_wire engine q _ _ Halike). }
    assert (Hident : delivery_identity r' origin = delivery_identity r origin).
    { unfold delivery_identity, identity_of. by rewrite Hid, Hm. }
    split; intros (? & ? & b & record & q' & [= <-] & Hbr & Hmr & ? & ? & Hw & Hq' & Hp);
      assert (q' = q) as -> by congruence; (split_and!; [done..|]).
    + assert (record = r) as -> by congruence. exists build', r', q. rewrite Hproj, Hident, <-Hm. by split_and!.
    + assert (record = r') as -> by congruence. exists build, r, q. rewrite <-Hproj, <-Hident, Hm. by split_and!.
Qed.
End WithEngine.

(** ** An example *)

#[local] Existing Instance w_unicode.

#[local] Instance w_projector : Projector :=
  engine_projector ex_id ex_hmac ex_recognize ex_normalize ex_legacy ex_accept ex_metadata ex_wire ex_engine.

Definition w_content (message credential : string) : RecordContent :=
  let r := ex_record message credential in
  mkContent "record-1" (Body r) (InstrumentData r) (FieldClassMap r) (SchemaDerived r) (Envelope r) "correlation"
    "provenance" "digest" SinkPolicyDefault.

Definition w_log (m : Metadata) (message credential : string) : RecordBuilder RecordContent := fun a =>
  inr (mkBuilt m (bool_decide (a = AdmissionFloor)) (w_content message credential)).

(** A store that takes everything, and a factory of failure records. *)
Definition w_store : LocalEventAppender := {| GraphDigest := "digest"; AppendContext := fun _ => None |}.

Definition w_failures : FailureFactory := fun _ =>
  inr (mkBuilt (mkMetadata (mkIdentity BucketPlatformHealth SignalLogs "redaction.failed_closed") SeverityInfo true
    "gateway" "" "" true) false (w_content "" "")).

Definition w_context : Context := {| ctx_Err := None; ctx_SinkPolicy := SinkPolicyDefault |}.

Definition w_pipeline : LocalLogPipeline :=
  result_or (mkPipeline w_evaluator ∅ ∅ w_store w_failures)
    (NewLocalLogPipeline ex_id (Some w_plan) (Some w_evaluator) (Some tt) (Some w_store) (Some w_failures)).

Lemma w_pipeline_ok :
  NewLocalLogPipeline ex_id (Some w_plan) (Some w_evaluator) (Some tt) (Some w_store) (Some w_failures) = inr w_pipeline.
Proof. apply result_or_ok. vm_compute. reflexivity. Qed.

(** A call with a message and a credential. *)
Definition w_call (credential : string) : Traced (PipelineError + LocalLogOutcome) :=
  process (fun _ => true) (Some w_pipeline) (Some w_context) w_model_io (Some (w_log w_model_io "hello" credential)) false "".

Definition w_outcome (credential : string) : LocalLogOutcome :=
  result_or (mkOutcome _ AdmissionDrop false false [] []) (fst (w_call credential)).

Definition calls (credential : string) : Prop :=
  process (fun _ => true) (Some w_pipeline) (Some w_context) w_model_io (Some (w_log w_model_io "hello" credential)) false "" =
    (inr (w_outcome credential), snd (w_call credential)).

Lemma w_call_ok credential : succeeded (fst (w_call credential)) = true -> calls credential.
Proof.
  intros H. unfold calls, w_outcome. rewrite <-(result_or_ok (mkOutcome _ AdmissionDrop false false [] []) _ H).
  apply surjective_pairing.
Qed.

Lemma w_hunter2 : process (fun _ => true) (Some w_pipeline) (Some w_context) w_model_io
    (Some (w_log w_model_io "hello" "hunter2")) false "" = (inr (w_outcome "hunter2"), snd (w_call "hunter2")).
Proof. apply (w_call_ok "hunter2"). vm_compute. reflexivity. Qed.

Lemma w_swordfish : process (fun _ => true) (Some w_pipeline) (Some w_context) w_model_io
    (Some (w_log w_model_io "hello" "swordfish")) false "" = (inr (w_outcome "swordfish"), snd (w_call "swordfish")).
Proof. apply (w_call_ok "swordfish"). vm_compute. reflexivity. Qed.

(** The work for the managed destination. *)
Definition w_none : ProjectedDelivery :=
  mkWork _ (mkDelivery "" "" "" 0 "" false) (mkProjection JNull (mkMeta "" 0 "" 0 0 0 0 false) (newReportBuilder ex_profile) "" 0 "" "" 0)
    (mkDeliveryIdentity "" (mkIdentity "" "" "") "").

Definition w_work (i : nat) : ProjectedDelivery := default w_none (o_optionalWork (w_outcome "hunter2") !! i).

Lemma lookup_default_in {A} (d : A) (l : list A) i : (i <? length l)%nat = true -> default d (l !! i) ∈ l.
Proof.
  intros Hi%Nat.ltb_lt. destruct (lookup_lt_is_Some_2 l i Hi) as [a Ha]. rewrite Ha. by eapply list_elem_of_lookup_2.
Qed.

Lemma w_work_in : w_work 1 ∈ o_optionalWork (w_outcome "hunter2").
Proof.
  assert (H : (1 <? length (o_optionalWork (w_outcome "hunter2")))%nat = true) by (vm_compute; reflexivity).
  exact (lookup_default_in w_none _ 1 H).
Qed.


Lemma pipeline_assembles_witness :
  exists ev pl, New w_parse (Some w_plan) = inr ev /\
    NewLocalLogPipeline ex_id (Some w_plan) (Some ev) (Some tt) (Some w_store) (Some w_failures) = inr pl /\
    is_Some (catalog pl !! "ours").
Proof.
  edestruct (pipeline_assembles ex_id _ _ _ _ _ _ _ _ _ _ _ _ _ _ _ _ (Some w_source) w_options w_plan w_store w_failures
    w_origin w_runtime_plan) as (ev & pl & t & Hn & Hp & _ & _ & Hnames & _); [by vm_compute|reflexivity|].
  exists ev, pl. split_and!; [exact Hn|exact Hp|]. apply Hnames. apply (bool_decide_unpack (_ ∈ _)). vm_compute. reflexivity.
Defined.

Lemma log_accounted_witness :
  match process (fun _ => true) (Some w_pipeline) (Some w_context) (w_metadata "compliance.activity" "setup" true)
      (Some (w_log (w_metadata "compliance.activity" "setup" true) "hello" "hunter2")) false "" with
  | (inr o, events) => o_localPersisted o = true /\ length (appends events) = 1%nat
  | _ => False
  end.
Proof.
  set (m := w_metadata "compliance.activity" "setup" true).
  pose proof (log_accounted ex_id _ _ _ _ _ _ _ _ _ _ _ _ _ _ _ _ (fun _ => true) (Some w_source) w_options w_plan w_evaluator
    w_store w_failures w_pipeline w_context m (w_log m "hello" "hunter2") false "" w_origin w_runtime_plan w_new w_pipeline_ok
    eq_refl) as H.
  assert (Hv : validate (fun _ => true) m = None) by (vm_compute; reflexivity).
  assert (Hb : conformant m (w_log m "hello" "hunter2")) by (intros a; eexists; split; [reflexivity|by split]).
  assert (Hs : ctx_SinkPolicy w_context <> SinkPolicyInvalid) by discriminate.
  specialize (H Hv Hb eq_refl Hs). revert H.
  assert (E : match process (fun _ => true) (Some w_pipeline) (Some w_context) m (Some (w_log m "hello" "hunter2")) false "" with
    | (inr o, _) => o_localPersisted o | _ => false end = true) by (vm_compute; reflexivity).
  destruct (process _ _ _ _ _ _ _) as [[e|o] events]; [done|]. rewrite E. intros [(a & -> & _) _]. by split.
Defined.

Lemma redaction_as_planned_witness :
  exists e q, e ∈ pl_Profiles (effective w_plan) /\ ep_Name e = ProfileSensitive /\ represents ex_id e q /\
    profileFingerprintOf (w_projection (w_work 1)) = fingerprint q.
Proof.
  destruct (redaction_as_planned ex_id ex_hmac ex_recognize ex_normalize ex_legacy ex_accept ex_metadata ex_wire ex_engine
    _ _ _ _ _ _ _ _ _ _ _ _ _ _ _ _ (fun _ => true) (Some w_source) w_options w_plan w_evaluator w_store w_failures w_pipeline
    w_context w_model_io _ false "" _ _ (w_work 1) w_origin w_runtime_plan w_new w_pipeline_ok w_hunter2 w_work_in)
    as (build & record & fields & e & q & outs & _ & _ & _ & He & Hn & Hr & _ & _ & Hf & _); [reflexivity|].
  exists e, q. split_and!; [exact He| |exact Hr|exact Hf]. rewrite Hn. vm_compute. reflexivity.
Defined.

(** Another credential: the managed destination cannot tell. *)
Lemma exporter_noninterference_witness :
  w_work 1 ∈ o_optionalWork (w_outcome "swordfish") /\
  DestinationName (w_delivery (w_work 1)) = ManagedAIDDestinationName.
Proof.
  split; [|vm_compute; reflexivity].
  pose proof (exporter_noninterference ex_id ex_hmac ex_recognize ex_normalize ex_legacy ex_accept ex_metadata ex_wire ex_engine
    (fun _ => true) w_pipeline w_context w_model_io _ (w_log w_model_io "hello" "swordfish") false "" _ _
    (default ex_profile (BuiltInProfile ex_id ProfileSensitive)) (w_work 1) w_hunter2) as H.
  change (the_projector ex_id ex_hmac ex_recognize ex_normalize ex_legacy ex_accept ex_metadata ex_wire ex_engine)
    with w_projector in H.
  change (forall _ : Admission, sum string (BuiltRecord RecordContent)) with (RecordBuilder RecordContent) in H.
  rewrite w_swordfish in H. refine (proj1 (H _ _) w_work_in); [clear H|vm_compute; reflexivity].
  intros a. do 2 eexists. split; [reflexivity|]. split; [reflexivity|]. split; [reflexivity|]. split; [reflexivity|].
  split; [reflexivity|]. split; [by left|]. split; [reflexivity|]. split; [reflexivity|]. split; [reflexivity|].
  exists (ex_fields "hello" "hunter2"), (ex_fields "hello" "swordfish").
  split; [reflexivity|]. split; [reflexivity|]. split; [reflexivity|].
  constructor; [|constructor; [|constructor; [|constructor]]].
  - eapply similar_leaf; [reflexivity|reflexivity|vm_compute; reflexivity|vm_compute; reflexivity|by left].
  - eapply similar_leaf; [reflexivity|reflexivity|vm_compute; reflexivity|vm_compute; reflexivity|by left].
  - eapply similar_leaf; [reflexivity|reflexivity|vm_compute; reflexivity|vm_compute; reflexivity|].
    right. left. reflexivity.
Defined.
