(* ===== verification/RuntimeGraph.v ===== *)
(** * Runtime graphs (internal/observability/runtimegraph/manager.go, the graph)

    One generation of the observability runtime: its configuration and the check
    of it, the components its factories prepare, the ownership of a component by
    one generation, and the teardown that a retired or rejected generation gets.
    A call of a component answers with an error or not; the answers are an
    argument, and the calls made are part of every result. *)
From stdpp Require Import base list gmap strings.
From Stdlib Require Import ZArith Lia Ascii.
From S2P Require Import Prelude GoStrings Taxonomy RoutingPlan.

Local Open Scope string_scope.

(** ** Configuration *)

Definition FieldLocalPath : string := "observability.local.path".
Definition FieldJudgeBodiesPath : string := "observability.local.judge_bodies_path".
Definition FieldRetainJudgeBodies : string := "guardrail.retain_judge_bodies".

(** The name [Config] of the source, with the fields it has there. *)
Record GraphConfig := mkGraphConfig {
  gc_Plan : option Plan;
  gc_PlanDigest : string;
  gc_LocalPath : string;
  gc_JudgeBodiesPath : string;
  gc_RetentionDays : Z;
  gc_RetainJudgeBodies : bool;
}.

Definition ConfigFromPlan (plan : option Plan) (retainJudgeBodies : bool) : GraphConfig :=
  match plan with
  | None => mkGraphConfig None "" "" "" 0 retainJudgeBodies
  | Some p =>
      let local := pl_Local (Snapshot p) in
      mkGraphConfig (Some p) (digest p) (el_Path local) (el_JudgeBodiesPath local) (el_RetentionDays local)
        retainJudgeBodies
  end.

Inductive ErrorCode :=
| ErrorInvalidDependency | ErrorInvalidConfig | ErrorRestartRequired | ErrorInitialization | ErrorReporting
| ErrorClosed | ErrorShutdown.

(** What [contextIdentity] keeps of a context error. *)
Inductive ContextCause := CauseCanceled | CauseDeadlineExceeded.

Definition contextIdentity (err : ExternalError) : ContextCause :=
  if is_DeadlineExceeded err then CauseDeadlineExceeded else CauseCanceled.

(** The name [Error] of the source. *)
Record GraphError := mkGraphError {
  ge_code : ErrorCode;
  ge_fieldPath : string;
  ge_componentName : string;
  ge_contextCause : option ContextCause;
}.

Definition failure (c : ErrorCode) : GraphError := mkGraphError c "" "" None.

(** [hex.DecodeString] of a string of even length. *)
Definition hex_digit (c : ascii) : bool :=
  let n := nat_of_ascii c in
  ((48 <=? n) && (n <=? 57) || (97 <=? n) && (n <=? 102) || (65 <=? n) && (n <=? 70))%nat.

Definition validDigest (value : string) : bool :=
  if negb (slen value =? 64)%Z || negb (IsStableToken value) then false else sall hex_digit value.

Definition validateConfig (candidate : GraphConfig) : option GraphError :=
  match gc_Plan candidate with
  | None => Some (failure ErrorInvalidConfig)
  | Some plan =>
      if negb (validDigest (gc_PlanDigest candidate)) || negb (gc_PlanDigest candidate =? digest plan) ||
         (gc_RetentionDays candidate <? 0)%Z || (gc_LocalPath candidate =? "") || (gc_JudgeBodiesPath candidate =? "") ||
         (gc_LocalPath candidate =? gc_JudgeBodiesPath candidate)
      then Some (failure ErrorInvalidConfig)
      else
        let local := pl_Local (Snapshot plan) in
        if negb (gc_LocalPath candidate =? el_Path local) || negb (gc_JudgeBodiesPath candidate =? el_JudgeBodiesPath local) ||
           negb (gc_RetentionDays candidate =? el_RetentionDays local)%Z
        then Some (failure ErrorInvalidConfig)
        else None
  end.

Definition destinations_of (c : GraphConfig) : list EffectiveDestination :=
  from_option (fun plan => pl_Destinations (Snapshot plan)) [] (gc_Plan c).

Definition listens (d : EffectiveDestination) : bool :=
  (ed_Kind d =? DestinationPrometheus) && ed_Enabled d.

(** [None] for the empty field: the candidate can replace the old graph live. *)
Definition restartRequiredField (old candidate : GraphConfig) : option string :=
  if negb (gc_LocalPath old =? gc_LocalPath candidate) then Some FieldLocalPath
  else if negb (gc_JudgeBodiesPath old =? gc_JudgeBodiesPath candidate) then Some FieldJudgeBodiesPath
  else if negb (Bool.eqb (gc_RetainJudgeBodies old) (gc_RetainJudgeBodies candidate)) then Some FieldRetainJudgeBodies
  else
    match find (fun c => listens c && negb (Listen (ed_Transport c) =? "") &&
                         existsb (fun o => listens o && (Listen (ed_Transport o) =? Listen (ed_Transport c)))
                           (destinations_of old)) (destinations_of candidate) with
    | Some c => Some ("observability.destinations." ++ ed_Name c ++ ".listen")
    | None => None
    end.

(** ** Components *)

Record componentIdentity := mkIdentityOf { typeName : string; pointer : Z }.

#[export] Instance componentIdentity_eq_dec : EqDecision componentIdentity.
Proof. solve_decision. Defined.
#[export] Instance componentIdentity_countable : Countable componentIdentity.
Proof.
  refine (inj_countable' (fun i => (typeName i, pointer i)) (fun p => mkIdentityOf (fst p) (snd p)) _).
  by intros [].
Defined.

(** What a factory returns as a component: a nil interface, an interface that
    holds a nil pointer or no pointer at all, or a pointer with its identity. *)
Inductive Component := NilComponent | NoPointer | PointerTo (identity : componentIdentity).

Definition validComponent (c : Component) : bool := match c with PointerTo _ => true | _ => false end.

(** A child of a component; its clean-up function is known by its position. *)
Record acquiredChild := mkChild { child_name : string; child_handle : nat }.

Record Acquisitions := mkAcquisitions { sealed : bool; children_of : list acquiredChild }.

(** A nil clean-up function is [None]. *)
Definition Register (a : Acquisitions) (name : string) (cleanup : option nat) : Acquisitions * option GraphError :=
  match cleanup with
  | Some handle =>
      if negb (IsStableToken name) then (a, Some (failure ErrorInvalidDependency))
      else if sealed a then (a, Some (failure ErrorInitialization))
      else (mkAcquisitions false (children_of a ++ [mkChild name handle])%list, None)
  | None => (a, Some (failure ErrorInvalidDependency))
  end.

Definition seal (a : Acquisitions) : Acquisitions * list acquiredChild :=
  (mkAcquisitions true (children_of a), children_of a).

Record BuildInput := mkBuildInput {
  bi_Config : GraphConfig;
  bi_Generation : nat;
  bi_PreviousDigest : string;
  bi_Rebuild : bool;
}.

(** A factory; the decider is there when it implements [RebuildDecider]. *)
Record ComponentFactory := mkFactory {
  f_Name : string;
  NeedsRebuild : option (GraphConfig -> GraphConfig -> bool);
}.

Record componentEntry := mkEntry {
  e_name : string;
  component : Component;
  children : list acquiredChild;
  started : bool;
  stopped : bool;
  drained : bool;
  available : bool;
  closed : bool;
  identity : componentIdentity;
  claimed : bool;
}.

Definition no_identity : componentIdentity := mkIdentityOf "" 0.

(** [entry.component != nil]. *)
Definition has_component (e : componentEntry) : bool :=
  match component e with NilComponent => false | _ => true end.

(** ** Calls *)

(** A call of a component, of a clean-up function at a position, or of a factory. *)
Inductive Call :=
| Activate | StopIntake | Drain | Close | Cleanup (position : nat) (child : string) | Prepare (input : BuildInput).

(** [group] tells the candidate of a generation from every other one. *)
Record Called := mkCalled { group : nat; entry : string; call : Call }.

(** ** Build *)

(** What a call of [Prepare] returns, and the acquisitions it leaves. *)
Record Prepared := mkPrepared {
  p_component : Component;
  p_error : option ExternalError;
  p_acquisitions : Acquisitions;
}.

Definition build_input (f : ComponentFactory) (candidate : GraphConfig) (generation : nat) (previous : option GraphConfig) :
    BuildInput :=
  mkBuildInput candidate generation (from_option gc_PlanDigest "" previous)
    (match previous, NeedsRebuild f with Some old, Some decide => decide old candidate | _, _ => true end).

(** [claimComponent], for a valid component. *)
Definition claimComponent (owned : gset componentIdentity) (i : componentIdentity) : gset componentIdentity * bool :=
  if bool_decide (i ∈ owned) then (owned, false) else ({[ i ]} ∪ owned, true).

Definition releaseComponent (owned : gset componentIdentity) (i : componentIdentity) : gset componentIdentity :=
  owned ∖ {[ i ]}.

(** One iteration of the loop of [build] after [Prepare]: the entries, the owned
    components, and the error that ends the loop. *)
Definition build_factory (f : ComponentFactory) (p : Prepared) (entries : list componentEntry)
    (owned : gset componentIdentity) : list componentEntry * gset componentIdentity * option GraphError :=
  let '(_, children) := seal (p_acquisitions p) in
  let '(c, ident, owned, claimed, refused) :=
    match p_component p with
    | PointerTo i =>
        match claimComponent owned i with
        | (owned', true) => (PointerTo i, i, owned', true, false)
        | (owned', false) => (NilComponent, i, owned', false, true)
        end
    | c => (c, no_identity, owned, false, false)
    end in
  let entries :=
    if validComponent c || (0 <? length children)%nat
    then (entries ++ [mkEntry (f_Name f) c children false false false false false ident claimed])%list
    else entries in
  match p_error p with
  | Some err =>
      (entries, owned, Some (mkGraphError ErrorInitialization "" (f_Name f)
         (if is_Canceled err || is_DeadlineExceeded err then Some (contextIdentity err) else None)))
  | None =>
      if refused || negb (validComponent c)
      then (entries, owned, Some (mkGraphError ErrorInitialization "" (f_Name f) None))
      else (entries, owned, None)
  end.

(** ** Teardown *)

Record cleanupResult := mkCleanup { failed : bool; componentName : string }.

Definition clean : cleanupResult := mkCleanup false "".

(** The first error names its component. *)
Definition record_error (result : cleanupResult) (name : string) (err : bool) : cleanupResult :=
  if err && negb (failed result) then mkCleanup true name else result.

Definition set_stopped (e : componentEntry) : componentEntry :=
  mkEntry (e_name e) (component e) (children e) (started e) true (drained e) (available e) (closed e) (identity e) (claimed e).
Definition set_drained (e : componentEntry) : componentEntry :=
  mkEntry (e_name e) (component e) (children e) (started e) (stopped e) true (available e) (closed e) (identity e) (claimed e).
Definition set_closed (e : componentEntry) : componentEntry :=
  mkEntry (e_name e) (component e) (children e) (started e) (stopped e) (drained e) (available e) true (identity e) (claimed e).
Definition set_children (cs : list acquiredChild) (e : componentEntry) : componentEntry :=
  mkEntry (e_name e) (component e) cs (started e) (stopped e) (drained e) (available e) (closed e) (identity e) (claimed e).
Definition set_unclaimed (e : componentEntry) : componentEntry :=
  mkEntry (e_name e) (component e) (children e) (started e) (stopped e) (drained e) (available e) (closed e) (identity e) false.
Definition set_active (e : componentEntry) : componentEntry :=
  mkEntry (e_name e) (component e) (children e) true (stopped e) (drained e) true (closed e) (identity e) (claimed e).

Section Teardown.
(** The calls that return an error. *)
Context (fails : Called -> bool) (g : nat).

(** A step on an entry: the entry after it, the calls made, whether one failed. *)
Definition calls_if (due : bool) (c : Call) (done : componentEntry -> componentEntry) (e : componentEntry) :
    componentEntry * list Called * bool :=
  if due then
    let ev := mkCalled g (e_name e) c in
    if fails ev then (e, [ev], true) else (done e, [ev], false)
  else (e, [], false).

Definition stop_entry (e : componentEntry) : componentEntry * list Called * bool :=
  calls_if (has_component e && started e && negb (stopped e) && negb (closed e)) StopIntake set_stopped e.

Definition drain_entry (e : componentEntry) : componentEntry * list Called * bool :=
  calls_if (has_component e && negb (closed e) && (started e && negb (drained e))) Drain set_drained e.

Definition close_entry (e : componentEntry) : componentEntry * list Called * bool :=
  calls_if (has_component e && negb (closed e)) Close set_closed e.

(** The loop over the children, last to first; [at] is the number still to do.
    The children that failed come out last first, and are reversed. *)
Fixpoint clean_children (name : string) (cs : list acquiredChild) (at_ : nat) : list acquiredChild * list Called :=
  match at_ with
  | 0%nat => ([], [])
  | S i =>
      match cs !! i with
      | None => ([], [])
      | Some child =>
          let ev := mkCalled g name (Cleanup i (child_name child)) in
          let '(failed, evs) := clean_children name cs i in
          ((if fails ev then (failed ++ [child])%list else failed), ev :: evs)
      end
  end.

(** The body of the second loop: drain, close, children, release. *)
Definition finish_entry (e : componentEntry) (owned : gset componentIdentity) :
    componentEntry * gset componentIdentity * list Called * bool :=
  let '(e1, evs1, err1) := drain_entry e in
  let '(e2, evs2, err2) := close_entry e1 in
  let '(failedChildren, evs3) := clean_children (e_name e) (children e2) (length (children e2)) in
  let e3 := set_children failedChildren e2 in
  let err := err1 || err2 || (0 <? length failedChildren)%nat in
  if claimed e3 && closed e3 && (length (children e3) =? 0)%nat
  then (set_unclaimed e3, releaseComponent owned (identity e3), evs1 ++ evs2 ++ evs3, err)%list
  else (e3, owned, evs1 ++ evs2 ++ evs3, err)%list.

(** The two loops as the list of their iterations. *)
Inductive Action := StopAt (i : nat) | FinishAt (i : nat).

Definition teardown_actions (n : nat) : list Action :=
  ((StopAt <$> reverse (seq 0 n)) ++ (FinishAt <$> reverse (seq 0 n)))%list.

Record Teardown := mkTeardown {
  td_entries : list componentEntry;
  td_owned : gset componentIdentity;
  td_result : cleanupResult;
  td_calls : list Called;
}.

Definition do_action (a : Action) (td : Teardown) : Teardown :=
  match a with
  | StopAt i =>
      match td_entries td !! i with
      | None => td
      | Some e =>
          let '(e', evs, err) := stop_entry e in
          mkTeardown (<[i := e']> (td_entries td)) (td_owned td) (record_error (td_result td) (e_name e) err)
            (td_calls td ++ evs)%list
      end
  | FinishAt i =>
      match td_entries td !! i with
      | None => td
      | Some e =>
          let '(e', owned, evs, err) := finish_entry e (td_owned td) in
          mkTeardown (<[i := e']> (td_entries td)) owned (record_error (td_result td) (e_name e) err)
            (td_calls td ++ evs)%list
      end
  end.

Definition teardownEntries (entries : list componentEntry) (owned : gset componentIdentity) : Teardown :=
  foldl (fun td a => do_action a td) (mkTeardown entries owned clean []) (teardown_actions (length entries)).
End Teardown.

Definition owns (e : componentEntry) : bool :=
  has_component e && negb (closed e) || (0 <? length (children e))%nat || claimed e.

Definition hasCleanupOwnership (entries : list componentEntry) : bool := existsb owns entries.

(** ** Lemmas *)

Local Close Scope string_scope.

(** A list split at [k], processed from its end. *)
Lemma reverse_seq_S k : reverse (seq 0 (S k)) = k :: reverse (seq 0 k).
Proof. rewrite seq_S. cbn [Nat.add]. by rewrite reverse_snoc. Qed.

Section TeardownFacts.
Context (fails : Called -> bool) (g : nat).

Notation stop_entry := (stop_entry fails g).
Notation drain_entry := (drain_entry fails g).
Notation close_entry := (close_entry fails g).
Notation clean_children := (clean_children fails g).
Notation finish_entry := (finish_entry fails g).
Notation do_action := (do_action fails g).

(** The calls of a step are of one entry, and one fails when the step says so. *)
Definition calls_of (name : string) (evs : list Called) (err : bool) : Prop :=
  Forall (fun ev => group ev = g /\ entry ev = name) evs /\ err = existsb fails evs.

Lemma calls_of_app name evs evs' err err' :
  calls_of name evs err -> calls_of name evs' err' -> calls_of name (evs ++ evs') (err || err').
Proof. intros [? ->] [? ->]. split; [by apply Forall_app|]. by rewrite existsb_app. Qed.

Lemma calls_if_of due c done e :
  calls_of (e_name e) (snd (fst (calls_if fails g due c done e))) (snd (calls_if fails g due c done e)).
Proof.
  unfold calls_if. destruct due; [|by split].
  destruct (fails _) eqn:E; (split; [by repeat constructor|]); cbn; by rewrite E.
Qed.

Lemma calls_if_entry due c done e :
  fst (fst (calls_if fails g due c done e)) =
    if due && negb (fails (mkCalled g (e_name e) c)) then done e else e.
Proof. unfold calls_if. destruct due; [|done]. by destruct (fails _). Qed.

Lemma clean_children_spec name cs : forall n, (n <= length cs)%nat ->
  calls_of name (snd (clean_children name cs n)) (0 <? length (fst (clean_children name cs n)))%nat /\
  fst (clean_children name cs n) `sublist_of` take n cs.
Proof.
  induction n as [|n IH]; intros Hn; [by split; [split|]|]. cbn [RuntimeGraph.clean_children].
  destruct (lookup_lt_is_Some_2 cs n) as [child Hc]; [lia|]. rewrite Hc.
  destruct IH as [[Ho He] Hs]; [lia|]. destruct (clean_children name cs n) as [failed evs]. cbn [fst snd] in *.
  rewrite (take_S_r _ _ _ Hc). split; [split; [by constructor|]|].
  - cbn [existsb]. destruct (fails _); cbn [orb]; [|done]. rewrite length_app. apply Nat.ltb_lt. cbn [length]. lia.
  - destruct (fails _); [by apply sublist_app|by apply sublist_inserts_r].
Qed.

Lemma clean_children_nil name n : clean_children name [] n = ([], []).
Proof. by destruct n. Qed.

(** The fields of an entry that no teardown changes. *)
Definition same_entry (e e' : componentEntry) : Prop :=
  e_name e' = e_name e /\ component e' = component e /\ identity e' = identity e /\
  started e' = started e /\ available e' = available e.

Definition drain_due (e : componentEntry) : bool :=
  has_component e && negb (closed e) && (started e && negb (drained e)).
Definition close_due (e : componentEntry) : bool := has_component e && negb (closed e).

Definition when (due : bool) (name : string) (c : Call) : list Called := if due then [mkCalled g name c] else [].

Lemma calls_if_calls due c done e : snd (fst (calls_if fails g due c done e)) = when due (e_name e) c.
Proof. unfold calls_if, when. destruct due; [|done]. by destruct (fails _). Qed.

(** The calls of the second loop for an entry. *)
Definition finish_calls (e : componentEntry) : list Called :=
  when (drain_due e) (e_name e) Drain ++ when (close_due e) (e_name e) Close ++
  snd (clean_children (e_name e) (children e) (length (children e))).

(** The entry after it. *)
Definition finished (e : componentEntry) : componentEntry := fst (fst (fst (finish_entry e ∅))).

Definition releases (e : componentEntry) : bool :=
  claimed e && closed (finished e) && (length (children (finished e)) =? 0)%nat.

Lemma finish_entry_spec e :
  (forall owned, finish_entry e owned =
    (finished e, if releases e then releaseComponent owned (identity e) else owned, finish_calls e,
     existsb fails (finish_calls e))) /\
  calls_of (e_name e) (finish_calls e) (existsb fails (finish_calls e)) /\
  same_entry e (finished e) /\ stopped (finished e) = stopped e /\
  claimed (finished e) = claimed e && negb (releases e) /\
  closed (finished e) = closed e || (close_due e && negb (fails (mkCalled g (e_name e) Close))) /\
  children (finished e) = fst (clean_children (e_name e) (children e) (length (children e))).
Proof.
  destruct (clean_children_spec (e_name e) (children e) (length (children e))) as [[Hall Hcc] _]; [lia|].
  unfold calls_of, same_entry, releases, finished, finish_calls, when, drain_due, close_due, RuntimeGraph.finish_entry, RuntimeGraph.drain_entry,
    RuntimeGraph.close_entry, calls_if.
  destruct e as [n c cs st sp dr av cl i m].
  destruct c, st, dr, cl; cbn [has_component component started drained closed negb andb orb e_name set_drained set_closed];
    repeat match goal with |- context [if fails ?ev then _ else _] =>
      let E := fresh "E" in destruct (fails ev) eqn:E; cbn [has_component component started drained closed negb andb orb e_name
        set_drained set_closed] end;
    cbn [children e_name set_drained set_closed] in *;
    destruct (RuntimeGraph.clean_children fails g n cs (length cs)) as [failed cc]; cbn [fst snd] in *;
    destruct m, failed; cbn [claimed closed children set_children set_drained set_closed set_unclaimed identity length Nat.ltb Nat.leb
      Nat.eqb andb orb negb app existsb fst snd stopped] in *;
    rewrite <-?Hcc; repeat match goal with E : fails _ = _ |- _ => rewrite E; clear E end; cbn [orb andb negb];
    split_and!; try reflexivity; try assumption; repeat (constructor; [by split|]); assumption.
Qed.

Lemma finish_entry_eq e owned :
  finish_entry e owned =
    (finished e, if releases e then releaseComponent owned (identity e) else owned, finish_calls e,
     existsb fails (finish_calls e)).
Proof. apply finish_entry_spec. Qed.

Lemma stop_entry_calls e :
  calls_of (e_name e) (snd (fst (stop_entry e))) (snd (stop_entry e)) /\ same_entry e (fst (fst (stop_entry e))) /\
  children (fst (fst (stop_entry e))) = children e /\ closed (fst (fst (stop_entry e))) = closed e /\
  claimed (fst (fst (stop_entry e))) = claimed e.
Proof.
  split; [apply calls_if_of|]. unfold RuntimeGraph.stop_entry. rewrite calls_if_entry. by destruct (_ && _).
Qed.

Definition stop_due (e : componentEntry) : bool := has_component e && started e && negb (stopped e) && negb (closed e).
Definition stop_calls (e : componentEntry) : list Called := when (stop_due e) (e_name e) StopIntake.

(** The entry after the first loop. *)
Definition stop_attempted (e : componentEntry) : componentEntry := fst (fst (stop_entry e)).

Lemma stop_entry_eq e : stop_entry e = (stop_attempted e, stop_calls e, existsb fails (stop_calls e)).
Proof.
  pose proof (stop_entry_calls e) as [[_ H] _]. unfold stop_attempted, stop_calls.
  rewrite <-calls_if_calls with (done := set_stopped) in *. fold (stop_entry e) in *. unfold stop_due.
  change (calls_if fails g (has_component e && started e && negb (stopped e) && negb (closed e)) StopIntake set_stopped e)
    with (stop_entry e). rewrite <-H. by destruct (stop_entry e) as [[? ?] ?].
Qed.

Notation run_actions := (foldl (fun td a => do_action a td)).

Lemma stop_loop k : forall td, (k <= length (td_entries td))%nat ->
  let td' := run_actions td (StopAt <$> reverse (seq 0 k)) in
  td_entries td' = (stop_attempted <$> take k (td_entries td)) ++ drop k (td_entries td) /\
  td_calls td' = td_calls td ++ concat (stop_calls <$> reverse (take k (td_entries td))) /\ td_owned td' = td_owned td.
Proof.
  induction k as [|k IH]; intros td Hk; [cbn; by rewrite app_nil_r|].
  destruct (lookup_lt_is_Some_2 (td_entries td) k) as [e He]; [lia|].
  cbv zeta. rewrite reverse_seq_S, fmap_cons. cbn [foldl RuntimeGraph.do_action]. rewrite He, stop_entry_eq.
  destruct (IH (mkTeardown (<[k := stop_attempted e]> (td_entries td)) (td_owned td)
    (record_error (td_result td) (e_name e) (existsb fails (stop_calls e))) (td_calls td ++ stop_calls e)))
    as (He' & Hc' & Ho'); [cbn; rewrite length_insert; lia|]. cbn [td_entries td_calls td_owned] in *.
  rewrite He', Hc', Ho'. rewrite take_insert_ge by lia. rewrite (take_S_r _ _ _ He), fmap_app, reverse_snoc, fmap_cons.
  split_and!; [|by rewrite <-app_assoc|done].
  rewrite (drop_S (<[k:=stop_attempted e]> (td_entries td)) (stop_attempted e) k) by (apply list_lookup_insert_eq; lia).
  rewrite drop_insert_lt by lia. by rewrite <-app_assoc.
Qed.

(** The components that a list of entries releases. *)
Definition released (es : list componentEntry) : gset componentIdentity :=
  list_to_set (identity <$> filter (fun e => releases e = true) es).

Lemma finish_loop k : forall td, (k <= length (td_entries td))%nat ->
  let td' := run_actions td (FinishAt <$> reverse (seq 0 k)) in
  td_entries td' = (finished <$> take k (td_entries td)) ++ drop k (td_entries td) /\
  td_calls td' = td_calls td ++ concat (finish_calls <$> reverse (take k (td_entries td))) /\
  td_owned td' = td_owned td ∖ released (take k (td_entries td)).
Proof.
  induction k as [|k IH]; intros td Hk; [cbn; rewrite app_nil_r; split_and!; [done..|set_solver]|].
  destruct (lookup_lt_is_Some_2 (td_entries td) k) as [e He]; [lia|].
  cbv zeta. rewrite reverse_seq_S, fmap_cons. cbn [foldl RuntimeGraph.do_action]. rewrite He, finish_entry_eq.
  set (owned := if releases e then releaseComponent (td_owned td) (identity e) else td_owned td).
  destruct (IH (mkTeardown (<[k := finished e]> (td_entries td)) owned
    (record_error (td_result td) (e_name e) (existsb fails (finish_calls e))) (td_calls td ++ finish_calls e)))
    as (He' & Hc' & Ho'); [cbn; rewrite length_insert; lia|]. cbn [td_entries td_calls td_owned] in *.
  rewrite He', Hc', Ho'. rewrite take_insert_ge by lia. rewrite (take_S_r _ _ _ He), fmap_app, reverse_snoc, fmap_cons.
  split_and!; [|by rewrite <-app_assoc|].
  - rewrite (drop_S (<[k:=finished e]> (td_entries td)) (finished e) k) by (apply list_lookup_insert_eq; lia).
    rewrite drop_insert_lt by lia. by rewrite <-app_assoc.
  - unfold released, owned, releaseComponent. rewrite filter_app, fmap_app, list_to_set_app_L.
    cbn [filter list_filter]. destruct (releases e) eqn:E; [rewrite decide_True by done|rewrite decide_False by done]; set_solver.
Qed.

(** The result is the first call that fails. *)
Definition first_failure (calls : list Called) : cleanupResult :=
  match find fails calls with Some ev => mkCleanup true (entry ev) | None => clean end.

Lemma first_failure_app result calls name evs :
  result = first_failure calls -> Forall (fun ev => group ev = g /\ entry ev = name) evs ->
  record_error result name (existsb fails evs) = first_failure (calls ++ evs).
Proof.
  intros -> Hall. unfold first_failure.
  assert (Happ : forall a b, find fails (a ++ b) = match find fails a with Some x => Some x | None => find fails b end).
  { induction a as [|x a IH]; intros b; [done|]. cbn. by destruct (fails x). }
  rewrite Happ. unfold record_error. destruct (find fails calls); cbn [failed negb].
  { by rewrite andb_false_r. }
  rewrite andb_true_r. induction evs as [|ev evs IH]; [done|]. apply Forall_cons_1 in Hall as [[_ Hn] Hall]. cbn.
  destruct (fails ev); cbn; [by rewrite Hn|]. by apply IH.
Qed.

Lemma do_action_result a td :
  td_result td = first_failure (td_calls td) -> td_result (do_action a td) = first_failure (td_calls (do_action a td)).
Proof.
  intros H. destruct a as [i|i]; cbn [RuntimeGraph.do_action]; (destruct (td_entries td !! i) as [e|]; [|done]).
  - rewrite stop_entry_eq. cbn. apply first_failure_app; [done|].
    pose proof (stop_entry_calls e) as [[Hall _] _]. by rewrite stop_entry_eq in Hall.
  - rewrite finish_entry_eq. cbn. apply first_failure_app; [done|]. apply (finish_entry_spec e).
Qed.

Lemma run_actions_result actions : forall td,
  td_result td = first_failure (td_calls td) ->
  td_result (run_actions td actions) = first_failure (td_calls (run_actions td actions)).
Proof. induction actions as [|a r IH]; intros td H; [done|]. apply IH. by apply do_action_result. Qed.

Lemma teardown_eq entries owned :
  let td := teardownEntries fails g entries owned in
  td_entries td = finished <$> (stop_attempted <$> entries) /\
  td_calls td = concat (stop_calls <$> reverse entries) ++
    concat (finish_calls <$> reverse (stop_attempted <$> entries)) /\
  td_owned td = owned ∖ released (stop_attempted <$> entries) /\
  td_result td = first_failure (td_calls td).
Proof.
  cbv zeta. assert (Hr : td_result (teardownEntries fails g entries owned) =
    first_failure (td_calls (teardownEntries fails g entries owned))) by by apply run_actions_result.
  rewrite Hr. unfold teardownEntries, teardown_actions in *. rewrite foldl_app in *.
  destruct (stop_loop (length entries) (mkTeardown entries owned clean [])) as (He & Hc & Ho); [done|].
  cbn [td_entries td_calls td_owned] in *. rewrite firstn_all, drop_all, app_nil_r in He. rewrite firstn_all in Hc.
  set (td := run_actions _ (StopAt <$> _)) in *.
  destruct (finish_loop (length entries) td) as (He' & Hc' & Ho'); [rewrite He, length_fmap; done|].
  rewrite He' , Hc', Ho', He, Hc, Ho. rewrite <-(length_fmap stop_attempted entries) at 1 2 3 4.
  rewrite firstn_all, drop_all, app_nil_r. by split_and!.
Qed.
End TeardownFacts.

(** ** Entries *)

(** What the ownership of a component means for its entry. *)
Definition entry_ok (e : componentEntry) : Prop :=
  (claimed e = true -> component e = PointerTo (identity e)) /\
  (has_component e = true -> closed e = false -> validComponent (component e) = true -> claimed e = true) /\
  (closed e = true -> has_component e = true).
