(* ===== verification/ReportSpool.v ===== *)
(** * The report spool of the runtime manager (internal/observability/runtimegraph/manager.go)

    Reports about reloads go through an ordered spool to one delivery worker.  A
    batch gets its sequence number while the transaction that made it is still
    serialized, and is put into the spool later, by whoever made it, in any
    order; the worker takes the numbers in turn.  Time stamps are left out; the
    counters, 64 bits wide in the source, count batches and do not wrap. *)
From stdpp Require Import base list gmap strings.
From Stdlib Require Import ZArith Lia.
From S2P Require Import Prelude RuntimeGraph.

(** ** Reports *)

Inductive ReportCode :=
| ReportReloadApplied | ReportValidationRejected | ReportRestartRequired | ReportInitializationFail
| ReportCleanupFailed | ReportDrainFailed.

Record Report := mkReport {
  rp_Code : ReportCode;
  rp_Outcome : string;
  rp_FieldPath : string;
  rp_ComponentName : string;
  rp_Generation : nat;
  rp_DeliverySequence : nat;
  rp_DeliveryIndex : nat;
}.

Inductive reportKind := reportHealthKind | reportComplianceKind.

(** The graph of an envelope by the group of its entries; [None] is nil. *)
Record reportEnvelope := mkEnvelope { en_kind : reportKind; en_graph : option nat; en_report : Report }.

Definition stamp (sequence index : nat) (e : reportEnvelope) : reportEnvelope :=
  let r := en_report e in
  mkEnvelope (en_kind e) (en_graph e)
    (mkReport (rp_Code r) (rp_Outcome r) (rp_FieldPath r) (rp_ComponentName r) (rp_Generation r) sequence index).

Record reportBatch := mkBatch { sequence : nat; envelopes : list reportEnvelope }.

(** ** The spool *)

(** Where [deliverReports] stands: it waits for a batch, has one under way, or
    has returned. *)
Inductive Worker :=
| Waiting (expected : nat) | Delivering (seq : nat) (todo : list reportEnvelope) | Stopped.

Record Spool := mkSpool {
  reportBatchSeq : nat;
  reportAccepted : nat;
  reportCompleted : nat;
  reportFailed : bool;
  reportSpool : gmap nat reportBatch;
  reportSpoolClosed : bool;
  reportDelivering : nat;
  reporterStarted : bool;
  worker : Worker;
}.

Definition newSpool : Spool := mkSpool 0 0 0 false ∅ false 0 false (Waiting 1).

Definition startReporter (s : Spool) : Spool :=
  mkSpool (reportBatchSeq s) (reportAccepted s) (reportCompleted s) (reportFailed s) (reportSpool s)
    (reportSpoolClosed s) (reportDelivering s) true (worker s).

(** A batch without envelopes gets no number; neither does one that has it. *)
Definition sequenceReports (b : reportBatch) (s : Spool) : reportBatch * Spool :=
  match envelopes b with
  | [] => (b, s)
  | _ =>
      if negb (sequence b =? 0)%nat then (b, s)
      else
        let n := S (reportBatchSeq s) in
        (mkBatch n (imap (stamp n) (envelopes b)),
         mkSpool n (reportAccepted s) (reportCompleted s) (reportFailed s) (reportSpool s) (reportSpoolClosed s)
           (reportDelivering s) (reporterStarted s) (worker s))
  end.

(** [true]: the batch is in the spool, or had nothing in it. *)
Definition dispatchReports (b : reportBatch) (s : Spool) : bool * Spool :=
  match envelopes b with
  | [] => (true, s)
  | _ =>
      if (sequence b =? 0)%nat then (false, s)
      else if reportSpoolClosed s || (sequence b <=? reportCompleted s)%nat || (sequence b =? reportDelivering s)%nat
      then (false, s)
      else if bool_decide (is_Some (reportSpool s !! sequence b)) then (false, s)
      else
        (true, mkSpool (reportBatchSeq s) (S (reportAccepted s)) (reportCompleted s) (reportFailed s)
                 (<[sequence b := b]> (reportSpool s)) (reportSpoolClosed s) (reportDelivering s) (reporterStarted s)
                 (worker s))
  end.

Definition requestReporterClose (s : Spool) : Spool :=
  if reporterStarted s
  then mkSpool (reportBatchSeq s) (reportAccepted s) (reportCompleted s) (reportFailed s) (reportSpool s) true
         (reportDelivering s) (reporterStarted s) (worker s)
  else s.

Definition with_worker (completed : nat) (failed : bool) (spool : gmap nat reportBatch) (delivering : nat) (w : Worker)
    (s : Spool) : Spool :=
  mkSpool (reportBatchSeq s) (reportAccepted s) completed failed spool (reportSpoolClosed s) delivering
    (reporterStarted s) w.

(** One step of the worker: it takes the next batch, hands out an envelope, or
    closes the batch.  [ok] is what the reporter answers; on an error, or a
    panic, the same envelope is handed out again.  The envelope handed out is
    part of the result.  [None]: the worker sleeps, or has returned. *)
Definition worker_step (ok : bool) (s : Spool) : option (Spool * list (reportEnvelope * bool)) :=
  if negb (reporterStarted s) then None
  else match worker s with
  | Waiting expected =>
      match reportSpool s !! expected with
      | Some batch =>
          Some (with_worker (reportCompleted s) (reportFailed s) (delete expected (reportSpool s)) expected
                  (Delivering expected (envelopes batch)) s, [])
      | None =>
          if reportSpoolClosed s
          then Some (with_worker (reportCompleted s) (reportFailed s) (reportSpool s) (reportDelivering s) Stopped s, [])
          else None
      end
  | Delivering seq (e :: rest) =>
      if ok
      then Some (with_worker (reportCompleted s) false (reportSpool s) (reportDelivering s) (Delivering seq rest) s, [(e, true)])
      else Some (with_worker (reportCompleted s) true (reportSpool s) (reportDelivering s) (Delivering seq (e :: rest)) s, [(e, false)])
  | Delivering seq [] =>
      Some (with_worker seq (reportFailed s) (reportSpool s) (reportDelivering s) (Waiting (S seq)) s, [])
  | Stopped => None
  end.

(** ** What holds of a spool

    [history] is the list of the batches that got a number, in that order, and
    [delivered] the envelopes the reporter has taken. *)

Definition batches_from (expected : nat) (history : list reportBatch) (spool : gmap nat reportBatch) : Prop :=
  map_Forall (fun k b => (expected <= k)%nat /\ history !! pred k = Some b) spool.

Definition worker_ok (history : list reportBatch) (delivered : list reportEnvelope) (s : Spool) : Prop :=
  match worker s with
  | Waiting expected =>
      expected = S (reportCompleted s) /\ (reportCompleted s <= length history)%nat /\
      delivered = concat (envelopes <$> take (reportCompleted s) history) /\
      batches_from expected history (reportSpool s)
  | Delivering seq todo =>
      seq = S (reportCompleted s) /\ reportDelivering s = seq /\
      (exists b done, history !! reportCompleted s = Some b /\ envelopes b = done ++ todo /\
        delivered = concat (envelopes <$> take (reportCompleted s) history) ++ done) /\
      batches_from (S seq) history (reportSpool s)
  | Stopped =>
      reportSpoolClosed s = true /\ (reportCompleted s <= length history)%nat /\
      delivered = concat (envelopes <$> take (reportCompleted s) history) /\
      reportSpool s !! S (reportCompleted s) = None /\ batches_from (S (reportCompleted s)) history (reportSpool s)
  end.

Record spool_ok (history : list reportBatch) (delivered : list reportEnvelope) (s : Spool) : Prop := {
  so_length : reportBatchSeq s = length history;
  so_numbers : forall i b, history !! i = Some b -> sequence b = S i /\ envelopes b <> [];
  so_worker : worker_ok history delivered s;
}.

Lemma spool_ok_new : spool_ok [] [] newSpool.
Proof. split; [done|by intros i b|]. cbn. split_and!; [done|lia|done|]. by apply map_Forall_empty. Qed.

Lemma spool_ok_start history delivered s : spool_ok history delivered s -> spool_ok history delivered (startReporter s).
Proof. by intros [? ? ?]. Qed.

Lemma batches_from_app expected history spool b :
  batches_from expected history spool -> batches_from expected (history ++ [b]) spool.
Proof. intros H k b' Hk. destruct (H k b' Hk) as [? Hl]. split; [done|]. by apply lookup_app_l_Some. Qed.

Lemma worker_ok_app history delivered s b :
  worker_ok history delivered s -> worker_ok (history ++ [b]) delivered s.
Proof.
  unfold worker_ok. destruct (worker s).
  - intros (? & ? & ? & ?). rewrite take_app_le by done. split_and!; [done|rewrite length_app; lia|done|by apply batches_from_app].
  - intros (? & ? & (b' & done' & Hb & He & Hd) & ?). pose proof (lookup_lt_Some _ _ _ Hb). split_and!; [done|done| |by apply batches_from_app].
    exists b', done'. rewrite take_app_le by lia. split_and!; [by apply lookup_app_l_Some|done..].
  - intros (? & ? & ? & ? & ?). rewrite take_app_le by done.
    split_and!; [done|rewrite length_app; lia|done|done|by apply batches_from_app].
Qed.

Lemma sequence_ok history delivered s b :
  spool_ok history delivered s -> sequence b = 0%nat ->
  let '(b', s') := sequenceReports b s in
  (envelopes b = [] /\ b' = b /\ s' = s) \/
  (envelopes b <> [] /\ sequence b' = S (length history) /\ spool_ok (history ++ [b']) delivered s').
Proof.
  intros [Hl Hn Hw] Hb. unfold sequenceReports. destruct (envelopes b) eqn:E; [by left|]. rewrite Hb. right.
  split; [done|]. cbn [Nat.eqb negb sequence]. rewrite Hl. split; [done|]. split.
  - rewrite length_app. cbn. lia.
  - intros i b' Hi. apply lookup_app_Some in Hi as [Hi|[Hlen Hi]]; [by apply Hn|].
    apply list_lookup_singleton_Some in Hi as [Hi <-]. cbn. split; [lia|]. done.
  - exact (worker_ok_app history delivered s (mkBatch (S (length history)) (imap (stamp (S (length history))) (r :: l))) Hw).
Qed.

Lemma dispatch_ok history delivered s b :
  spool_ok history delivered s -> history !! pred (sequence b) = Some b ->
  spool_ok history delivered (snd (dispatchReports b s)).
Proof.
  intros [Hl Hn Hw] Hb. destruct (Hn _ _ Hb) as [Hseq _]. unfold dispatchReports. destruct (envelopes b); [by split|].
  destruct (_ =? 0)%nat; [by split|]. destruct (_ || _) eqn:E; [by split|]. case_bool_decide as Hd; [by split|].
  apply orb_false_iff in E as [[Hc Hcomp%Nat.leb_gt]%orb_false_iff Hdel%Nat.eqb_neq]. split; [done..|]. cbn [snd].
  assert (Hins : forall k, batches_from k history (reportSpool s) -> (k <= sequence b)%nat ->
    batches_from k history (<[sequence b := b]> (reportSpool s))).
  { intros k H Hk. apply map_Forall_insert_2; [by split|exact H]. }
  unfold worker_ok in *. cbn [worker reportCompleted reportSpool reportSpoolClosed]. destruct (worker s) as [e|seq todo|] eqn:Ew.
  - destruct Hw as (He & ? & ? & ?). split_and!; [done..|]. apply Hins; [done|lia].
  - destruct Hw as (He & Hdl & ? & ?). split_and!; [done..|]. apply Hins; [done|]. rewrite Hdl in Hdel. lia.
  - destruct Hw as (? & _). congruence.
Qed.

Lemma close_ok history delivered s : spool_ok history delivered s -> spool_ok history delivered (requestReporterClose s).
Proof.
  intros [? ? Hw]. unfold requestReporterClose. destruct (reporterStarted s); [|by split]. split; [done..|].
  unfold worker_ok in *. cbn [worker reportCompleted reportSpool reportSpoolClosed reportDelivering].
  destruct (worker s); [done..|]. by destruct Hw as (? & ?).
Qed.

(** The envelopes that the reporter took in a step. *)
Definition taken (attempts : list (reportEnvelope * bool)) : list reportEnvelope :=
  omap (fun a => if snd a : bool then Some (fst a) else None) attempts.

Lemma worker_step_ok history delivered s ok s' attempts :
  spool_ok history delivered s -> worker_step ok s = Some (s', attempts) ->
  spool_ok history (delivered ++ taken attempts) s'.
Proof.
  intros [Hl Hn Hw]. unfold worker_step. destruct (negb (reporterStarted s)); [done|]. unfold worker_ok in Hw.
  destruct (worker s) as [e|seq [|env rest]|] eqn:Ew; [| | |done].
  - destruct Hw as (He & Hle & Hd & Hf). destruct (reportSpool s !! e) as [b|] eqn:Eb.
    + intros [= <- <-]. cbn. rewrite app_nil_r. split; [done..|]. unfold worker_ok, with_worker. cbn.
      destruct (Hf _ _ Eb) as [_ Hb]. split_and!; [done|done| |].
      * exists b, []. subst e. cbn in Hb. rewrite app_nil_r. by split_and!.
      * intros k b' Hk. apply lookup_delete_Some in Hk as [Hne Hk]. destruct (Hf _ _ Hk). split; [lia|done].
    + destruct (reportSpoolClosed s) eqn:Ec; [|done]. intros [= <- <-]. cbn. rewrite app_nil_r. split; [done..|].
      unfold worker_ok, with_worker. cbn. subst e. by split_and!.
  - intros [= <- <-]. cbn. rewrite app_nil_r. split; [done..|]. destruct Hw as (-> & Hdl & (b & dn & Hb & He & Hd) & Hf).
    unfold worker_ok, with_worker. cbn. pose proof (lookup_lt_Some _ _ _ Hb). split_and!; [done|lia| |done].
    rewrite (take_S_r _ _ _ Hb), fmap_app, concat_app. cbn. rewrite !app_nil_r in *. by rewrite He.
  - destruct Hw as (-> & Hdl & (b & dn & Hb & He & Hd) & Hf). destruct ok; intros [= <- <-]; cbn.
    + split; [done..|]. unfold worker_ok, with_worker. cbn. split_and!; [done|done| |done].
      exists b, (dn ++ [env]). split_and!; [done|by rewrite <-app_assoc|]. by rewrite Hd, <-app_assoc.
    + rewrite app_nil_r. split; [done..|]. unfold worker_ok, with_worker. cbn. split_and!; [done|done| |done]. eauto.
Qed.

(** What was delivered is what the batches hold, in their order. *)
Lemma delivered_prefix history delivered s :
  spool_ok history delivered s -> delivered `prefix_of` concat (envelopes <$> history).
Proof.
  intros [_ _ Hw]. unfold worker_ok in Hw. destruct (worker s) as [e|seq todo|].
  - destruct Hw as (_ & _ & -> & _). rewrite <-(take_drop (reportCompleted s) history) at 2. rewrite fmap_app, concat_app.
    by apply prefix_app_r.
  - destruct Hw as (_ & _ & (b & dn & Hb & He & ->) & _).
    rewrite <-(take_drop_middle _ _ _ Hb) at 2. rewrite fmap_app, concat_app, fmap_cons. cbn [concat]. rewrite He, <-!app_assoc.
    apply prefix_app, prefix_app_r. done.
  - destruct Hw as (_ & _ & -> & _). rewrite <-(take_drop (reportCompleted s) history) at 2. rewrite fmap_app, concat_app.
    by apply prefix_app_r.
Qed.

(** ** The worker empties the spool *)

Fixpoint worker_run (n : nat) (s : Spool) : Spool :=
  match n with
  | 0 => s
  | S n => match worker_step true s with None => s | Some (s', _) => worker_run n s' end
  end.

Lemma worker_run_app n m s : worker_run (n + m) s = worker_run m (worker_run n s).
Proof.
  revert s. induction n as [|n IH]; intros s; [done|]. cbn [Nat.add worker_run]. destruct (worker_step true s) as [[s' ?]|] eqn:E.
  - apply IH.
  - destruct m; [done|]. cbn. by rewrite E.
Qed.

Lemma deliver_all todo : forall s seq,
  reporterStarted s = true -> worker s = Delivering seq todo ->
  exists n, let s' := worker_run n s in worker s' = Waiting (S seq) /\ reportCompleted s' = seq /\
    reportSpool s' = reportSpool s /\ reporterStarted s' = true.
Proof.
  induction todo as [|e todo IH]; intros s seq Hs Hw.
  - exists 1%nat. cbn [worker_run]. unfold worker_step. by rewrite Hs, Hw.
  - destruct (IH (with_worker (reportCompleted s) false (reportSpool s) (reportDelivering s) (Delivering seq todo) s) seq)
      as (n & Hn); [done..|]. exists (S n). cbn [worker_run]. unfold worker_step. rewrite Hs, Hw. exact Hn.
Qed.

(** With an answer for every envelope the worker gets to any number up to which
    every batch is in the spool. *)
Lemma worker_reaches m : forall s expected,
  reporterStarted s = true -> worker s = Waiting expected -> expected = S (reportCompleted s) ->
  (forall k, (expected <= k < expected + m)%nat -> is_Some (reportSpool s !! k)) ->
  exists n, worker (worker_run n s) = Waiting (expected + m) /\
    S (reportCompleted (worker_run n s)) = (expected + m)%nat.
Proof.
  induction m as [|m IH]; intros s expected Hs Hw He Hall.
  { exists 0%nat. rewrite Nat.add_0_r. split; [done|]. cbn. lia. }
  destruct (Hall expected) as [b Hb]; [lia|].
  set (s1 := with_worker (reportCompleted s) (reportFailed s) (delete expected (reportSpool s)) expected
    (Delivering expected (envelopes b)) s).
  destruct (deliver_all (envelopes b) s1 expected) as (n1 & Hw1 & Hc1 & Hs1 & Hst1); [done..|].
  destruct (IH (worker_run n1 s1) (S expected)) as (n2 & Hw2 & Hc2); [done|done|by rewrite Hc1| |].
  { intros k Hk. rewrite Hs1. cbn. rewrite lookup_delete_ne by lia. apply Hall. lia. }
  exists (S n1 + n2)%nat. rewrite worker_run_app. cbn [worker_run].
  assert (E : worker_step true s = Some (s1, [])) by (unfold worker_step; by rewrite Hs, Hw, Hb).
  rewrite E. by replace (expected + S m)%nat with (S expected + m)%nat by lia.
Qed.
