(* ===== verification/RuntimeManager.v ===== *)
(** * The runtime manager (internal/observability/runtimegraph/manager.go, the manager)

    Publication and retirement of generations under concurrency.  A state holds
    the atomics and the tables of the manager, the transaction that holds
    [reloadMu], and every other goroutine as an agent with its program point: a
    producer in [Acquire], a lease, a clean-up that waits or retries, a dispatch
    of reports.  A step is one access to shared memory, one critical section, one
    call of a component or, in a teardown, one iteration of a loop: the drain, the
    close and the clean-up of the children of one entry are one step.  A group names the entries that one [build] makes;
    the group of a published candidate is also its graph. *)
From stdpp Require Import base list gmap strings.
From Stdlib Require Import ZArith Lia.
From S2P Require Import Prelude GoStrings Taxonomy RoutingPlan RuntimeGraph ReportSpool.

(** ** Graphs *)

(** The channel that [beginRetirement] makes; it retires a graph once. *)
Inductive Quiescence := NotRetired | StillUsed | Quiescent.

Record Graph := mkGraph {
  gr_config : GraphConfig;
  gr_generation : nat;
  retired : bool;
  ready : bool;
  users : Z;
  quiescent : Quiescence;
}.

Definition newGraph (c : GraphConfig) (generation : nat) : Graph := mkGraph c generation false false 0 NotRetired.

Definition finishActivation (g : Graph) : Graph :=
  mkGraph (gr_config g) (gr_generation g) (retired g) true (users g) (quiescent g).

Inductive Acquired := Refused | Entered (g : Graph) | MustWait.

(** One round of the loop of [acquire]. *)
Definition acquire (g : Graph) : Acquired :=
  if retired g then Refused
  else if ready g
  then Entered (mkGraph (gr_config g) (gr_generation g) (retired g) (ready g) (users g + 1) (quiescent g))
  else MustWait.

Definition release (g : Graph) : Graph :=
  if (users g <=? 0)%Z then g
  else
    let left := (users g - 1)%Z in
    mkGraph (gr_config g) (gr_generation g) (retired g) (ready g) left
      (if retired g && (left =? 0)%Z then match quiescent g with StillUsed => Quiescent | q => q end else quiescent g).

(** The critical section of [Fork]. *)
Definition fork (g : Graph) : option Graph :=
  if (users g <=? 0)%Z then None
  else Some (mkGraph (gr_config g) (gr_generation g) (retired g) (ready g) (users g + 1) (quiescent g)).

Definition beginRetirement (g : Graph) : Graph :=
  mkGraph (gr_config g) (gr_generation g) true (ready g) (users g)
    (if (users g =? 0)%Z then Quiescent else StillUsed).

(** ** Transactions *)

Inductive ReloadStatus := ReloadRejected | ReloadApplied | ReloadAppliedDegraded.

Record ReloadResult := mkReloadResult { rr_active : option nat; rr_status : ReloadStatus }.

(** What [New], [Reload] and [Close] return. *)
Inductive Outcome :=
| ReturnedNew (err : option GraphError)
| ReturnedReload (result : ReloadResult) (err : option GraphError)
| ReturnedClose (err : option GraphError).

(** A teardown under way: the iterations left and the result so far. *)
Record Progress := mkProgress { todo : list Action; result : cleanupResult }.

(** Why a graph is retired. *)
Inductive Retirement := AfterReload (new : nat) | AtClose.

(** Where the holder of [reloadMu] stands, or [New] before it returns. *)
Inductive Transaction :=
| Idle
| Reloading (candidate : GraphConfig)
| Building (candidate : GraphConfig) (g : nat) (previous : option nat) (left : list ComponentFactory)
| Rejecting (g : nat) (previous : option nat) (err : GraphError) (p : Progress)
| Activating (g : nat) (previous : option nat) (next : nat)
| Retiring (g : nat) (why : Retirement)
| Awaiting (g : nat) (why : Retirement)
| TearingDown (g : nat) (why : Retirement) (p : Progress)
| Closing
| Finishing (batch : list reportEnvelope) (outcome : Outcome)
| Dropped.

(** ** Agents *)

(** The program points of [Acquire]. *)
Inductive AcquirePoint :=
| CheckClosed | LoadActive | Enter (g : nat) | Revalidate (g : nat) | Recheck (g : nat) | UndoAcquire (g : nat)
| Undone | WasRefused (g : nat) | CompareActive (g : nat).

(** Those of [maybeCloseReporter]. *)
Inductive ClosePoint := MaybeClosed | MaybeAsync | MaybePending | MaybeAccepted | RequestClose.

Inductive Agent :=
| Acquiring (at_ : AcquirePoint)
| NotAcquired (err : GraphError)
| Leased (g : nat)
| Releasing (g : nat)
| ReleasedLease
| AwaitQuiescence (g reportGraph : nat)
| AsyncTeardown (g reportGraph : nat) (p : Progress)
| AsyncReport (g target : nat) (name : string)
| AsyncDispatch (g : nat) (b : reportBatch)
| AsyncSchedule (g : nat)
| AsyncDone
| AwaitRetry (g : nat)
| Retrying (g : nat) (p : Progress)
| Dispatching (b : reportBatch) (outcome : Outcome)
| ClosingReporter (at_ : ClosePoint) (again : bool) (then_return : option Outcome)
| Ended.

(** ** The state *)

Record Manager := mkManager {
  active : option nat;
  m_closed : bool;
  transaction : Transaction;
  graphs : gmap nat Graph;
  groups : gmap nat (list componentEntry);
  owned : gset componentIdentity;
  pending : gset nat;
  asyncCleanup : nat;
  agents : gmap nat Agent;
  reports : Spool;
}.

Definition with_active (a : option nat) (m : Manager) : Manager :=
  mkManager a (m_closed m) (transaction m) (graphs m) (groups m) (owned m) (pending m) (asyncCleanup m) (agents m) (reports m).
Definition with_closed (m : Manager) : Manager :=
  mkManager (active m) true (transaction m) (graphs m) (groups m) (owned m) (pending m) (asyncCleanup m) (agents m) (reports m).
Definition with_txn (t : Transaction) (m : Manager) : Manager :=
  mkManager (active m) (m_closed m) t (graphs m) (groups m) (owned m) (pending m) (asyncCleanup m) (agents m) (reports m).
Definition with_graph (i : nat) (g : Graph) (m : Manager) : Manager :=
  mkManager (active m) (m_closed m) (transaction m) (<[i := g]> (graphs m)) (groups m) (owned m) (pending m)
    (asyncCleanup m) (agents m) (reports m).
Definition with_group (i : nat) (es : list componentEntry) (o : gset componentIdentity) (m : Manager) : Manager :=
  mkManager (active m) (m_closed m) (transaction m) (graphs m) (<[i := es]> (groups m)) o (pending m)
    (asyncCleanup m) (agents m) (reports m).
Definition with_pending (p : gset nat) (m : Manager) : Manager :=
  mkManager (active m) (m_closed m) (transaction m) (graphs m) (groups m) (owned m) p (asyncCleanup m) (agents m) (reports m).
Definition with_async (n : nat) (m : Manager) : Manager :=
  mkManager (active m) (m_closed m) (transaction m) (graphs m) (groups m) (owned m) (pending m) n (agents m) (reports m).
Definition with_agent (a : nat) (x : Agent) (m : Manager) : Manager :=
  mkManager (active m) (m_closed m) (transaction m) (graphs m) (groups m) (owned m) (pending m) (asyncCleanup m)
    (<[a := x]> (agents m)) (reports m).
Definition with_reports (s : Spool) (m : Manager) : Manager :=
  mkManager (active m) (m_closed m) (transaction m) (graphs m) (groups m) (owned m) (pending m) (asyncCleanup m) (agents m) s.

(** What can be seen of a run. *)
Inductive Event :=
| ECalled (c : Called)
| ESequenced (b : reportBatch)
| EDispatched (b : reportBatch) (accepted : bool)
| EReported (e : reportEnvelope) (ok : bool)
| EReturned (o : Outcome).

(** ** Reports *)

Definition generation_of (m : Manager) (g : option nat) : nat :=
  from_option gr_generation 0 (g ≫= fun g => graphs m !! g).

Definition newReport (m : Manager) (g : option nat) (code : ReportCode) (outcome fieldPath component : string) : Report :=
  mkReport code outcome fieldPath component (generation_of m g) 0 0.

Definition addHealth (m : Manager) (g : option nat) (code : ReportCode) (outcome fieldPath component : string)
    (batch : list reportEnvelope) : list reportEnvelope :=
  batch ++ [mkEnvelope reportHealthKind g (newReport m g code outcome fieldPath component)].

Definition addCompliance (m : Manager) (g : option nat) (code : ReportCode) (outcome fieldPath component : string)
    (batch : list reportEnvelope) : list reportEnvelope :=
  batch ++ [mkEnvelope reportComplianceKind g (newReport m g code outcome fieldPath component)].

Definition rejected_code (err : GraphError) : ReportCode :=
  match ge_code err with
  | ErrorRestartRequired => ReportRestartRequired
  | ErrorInitialization => ReportInitializationFail
  | _ => ReportValidationRejected
  end.

Definition addRejected (m : Manager) (g : option nat) (err : GraphError) (component : string)
    (batch : list reportEnvelope) : list reportEnvelope :=
  addCompliance m g (rejected_code err) "rejected" (ge_fieldPath err) component
    (addHealth m g (rejected_code err) "rejected" (ge_fieldPath err) component batch).

(** The pair of reports about a failed clean-up or drain. *)
Definition addFailed (m : Manager) (g : option nat) (code : ReportCode) (outcome component : string)
    (batch : list reportEnvelope) : list reportEnvelope :=
  addCompliance m g code outcome "" component (addHealth m g code "failed" "" component batch).

(** ** Teardown *)

Definition entries_of (m : Manager) (g : nat) : list componentEntry := default [] (groups m !! g).

Definition start_teardown (m : Manager) (g : nat) : Progress :=
  mkProgress (teardown_actions (length (entries_of m g))) clean.

(** The next iteration of a teardown; [None] when none is left. *)
Definition tear_next (fails : Called -> bool) (g : nat) (p : Progress) (m : Manager) :
    option (Manager * Progress * list Event) :=
  match todo p with
  | [] => None
  | a :: rest =>
      let td := do_action fails g a (mkTeardown (entries_of m g) (owned m) (result p) []) in
      Some (with_group g (td_entries td) (td_owned td) m, mkProgress rest (td_result td), ECalled <$> td_calls td)
  end.

(** [scheduleCleanupRetry]; the new goroutine is the agent [a]. *)
Definition scheduleCleanupRetry (g a : nat) (m : Manager) : Manager :=
  if hasCleanupOwnership (entries_of m g) then with_agent a (AwaitRetry g) (with_pending ({[ g ]} ∪ pending m) m) else m.

(** ** New and Reload *)

Section Manager.
(** The factories of the manager, in their order. *)
Context (factories : list ComponentFactory).

(** [newManager]: a nil interface is [false], a nil factory [None]. *)
Definition newManager (configured : list (option ComponentFactory)) (drainTimeout : Duration)
    (clock deadlines reporter : bool) : option GraphError :=
  if (drainTimeout <=? 0)%Z || negb clock || negb deadlines || negb reporter then Some (failure ErrorInvalidDependency)
  else if forallb (fun f => match f with Some f => IsStableToken (f_Name f) | None => false end) configured &&
          bool_decide (NoDup (omap (option_map f_Name) configured))
       then None
       else Some (failure ErrorInvalidDependency).

(** [New] about to build the first generation. *)
Definition initial (config : GraphConfig) : Manager :=
  mkManager None false (Building config 0 None factories) ∅ {[ 0%nat := [] ]} ∅ ∅ 0 ∅ newSpool.

Definition finish (batch : list reportEnvelope) (o : Outcome) (m : Manager) : Manager := with_txn (Finishing batch o) m.

(** [Reload] up to the build; [g] is the new group. *)
Definition decide_reload (candidate : GraphConfig) (ctx : option ExternalError) (g : nat) (m : Manager) : option Manager :=
  let rejected old err := ReturnedReload (mkReloadResult old ReloadRejected) (Some err) in
  if m_closed m then Some (finish [] (rejected (active m) (failure ErrorClosed)) m)
  else match active m with
  | None => Some (finish [] (rejected None (failure ErrorInvalidDependency)) m)
  | Some old =>
      let reject err := Some (finish (addRejected m (Some old) err "" []) (rejected (Some old) err) m) in
      match validateConfig candidate with
      | Some err => reject err
      | None =>
          match graphs m !! old ≫= fun graph => restartRequiredField (gr_config graph) candidate with
          | Some field => reject (mkGraphError ErrorRestartRequired field "" None)
          | None =>
              match ctx with
              | Some err => reject (mkGraphError ErrorInitialization "" "" (Some (contextIdentity err)))
              | None =>
                  match groups m !! g with
                  | Some _ => None
                  | None => Some (with_txn (Building candidate g (Some old) factories) (with_group g [] (owned m) m))
                  end
              end
          end
      end
  end.

Definition next_generation (m : Manager) (previous : option nat) : nat :=
  match previous with None => 1 | Some old => S (generation_of m (Some old)) end.

Definition config_of (m : Manager) (previous : option nat) : option GraphConfig :=
  gr_config <$> (previous ≫= fun old => graphs m !! old).

Definition txn_step_build (p : option Prepared) (ctx : option ExternalError) (m : Manager) : option (Manager * list Event) :=
  match transaction m, p with
  | Building candidate g previous (f :: fs), Some prepared =>
      let input := build_input f candidate (next_generation m previous) (config_of m previous) in
      let '(entries, owned', err) := build_factory f prepared (entries_of m g) (owned m) in
      let m' := with_group g entries owned' m in
      let t := match err with
               | None => Building candidate g previous fs
               | Some e => Rejecting g previous e (start_teardown m' g)
               end in
      Some (with_txn t m', [ECalled (mkCalled g (f_Name f) (Prepare input))])
  | Building candidate g previous [], None =>
      match ctx with
      | Some err =>
          Some (with_txn (Rejecting g previous (mkGraphError ErrorInitialization "" "" (Some (contextIdentity err)))
                            (start_teardown m g)) m, [])
      | None =>
          Some (with_txn (Activating g previous 0)
                  (with_active (Some g) (with_graph g (newGraph candidate (next_generation m previous)) m)), [])
      end
  | _, _ => None
  end.

Definition set_nth (i : nat) (f : componentEntry -> componentEntry) (es : list componentEntry) : list componentEntry :=
  alter f i es.

Definition txn_step_activate (m : Manager) : option (Manager * list Event) :=
  match transaction m with
  | Activating g previous i =>
      match entries_of m g !! i with
      | Some e =>
          Some (with_txn (Activating g previous (S i)) (with_group g (set_nth i set_active (entries_of m g)) (owned m) m),
                [ECalled (mkCalled g (e_name e) Activate)])
      | None =>
          match graphs m !! g with
          | None => None
          | Some graph =>
              let m' := with_graph g (finishActivation graph) m in
              match previous with
              | Some old => Some (with_txn (Retiring old (AfterReload g)) m', [])
              | None =>
                  let m' := with_reports (startReporter (reports m)) m' in
                  Some (finish (addCompliance m' (Some g) ReportReloadApplied "applied" "" "" []) (ReturnedNew None) m', [])
              end
          end
      end
  | _ => None
  end.

(** The end of [Reload] and of [Close], for the result of [retire]. *)
Definition after_retirement (why : Retirement) (g : nat) (r : cleanupResult) (m : Manager) : Manager :=
  match why with
  | AfterReload new =>
      let batch := if failed r then addFailed m (Some new) ReportDrainFailed "failed" (componentName r) [] else [] in
      finish (addCompliance m (Some new) ReportReloadApplied "applied" "" "" batch)
        (ReturnedReload (mkReloadResult (Some new) (if failed r then ReloadAppliedDegraded else ReloadApplied)) None) m
  | AtClose =>
      if failed r
      then finish (addFailed m (Some g) ReportDrainFailed "failed" (componentName r) [])
             (ReturnedClose (Some (mkGraphError ErrorShutdown "" (componentName r) None))) m
      else finish [] (ReturnedClose None) m
  end.

Definition report_graph (why : Retirement) (g : nat) : nat := match why with AfterReload new => new | AtClose => g end.

Definition txn_step_retire (expired : option nat) (m : Manager) : option (Manager * list Event) :=
  match transaction m with
  | Retiring g why =>
      match graphs m !! g with
      | None => None
      | Some graph => Some (with_txn (Awaiting g why) (with_graph g (beginRetirement graph) m), [])
      end
  | Awaiting g why =>
      match expired with
      | None =>
          match quiescent <$> (graphs m !! g) with
          | Some Quiescent => Some (with_txn (TearingDown g why (start_teardown m g)) m, [])
          | _ => None
          end
      | Some a =>
          match agents m !! a with
          | Some _ => None
          | None =>
              Some (after_retirement why g (mkCleanup true "inflight-users")
                      (with_agent a (AwaitQuiescence g (report_graph why g)) (with_async (S (asyncCleanup m)) m)), [])
          end
      end
  | _ => None
  end.

Definition txn_step_tear (fails : Called -> bool) (a : nat) (m : Manager) : option (Manager * list Event) :=
  match agents m !! a, transaction m with
  | None, Rejecting g previous err p =>
      match tear_next fails g p m with
      | Some (m', p', evs) => Some (with_txn (Rejecting g previous err p') m', evs)
      | None =>
          let m' := if failed (result p) then scheduleCleanupRetry g a m else m in
          match previous with
          | Some old =>
              let batch := if failed (result p)
                           then addFailed m (Some old) ReportCleanupFailed "rejected" (componentName (result p)) [] else [] in
              Some (finish (addRejected m (Some old) err (ge_componentName err) batch)
                      (ReturnedReload (mkReloadResult (Some old) ReloadRejected) (Some err)) m', [])
          | None =>
              if bool_decide (pending m' = ∅) then Some (with_txn Dropped m', [])
              else Some (finish [] (ReturnedNew (Some err)) (with_closed m'), [])
          end
      end
  | None, TearingDown g why p =>
      match tear_next fails g p m with
      | Some (m', p', evs) => Some (with_txn (TearingDown g why p') m', evs)
      | None => Some (after_retirement why g (result p) (if failed (result p) then scheduleCleanupRetry g a m else m), [])
      end
  | _, _ => None
  end.

(** The end of a transaction: its batch gets a number, the lock is released, and
    the same goroutine, the agent [a], goes on to dispatch. *)
Definition txn_step_finish (a : nat) (m : Manager) : option (Manager * list Event) :=
  match agents m !! a, transaction m with
  | None, Finishing batch o =>
      let '(b, s) := sequenceReports (mkBatch 0 batch) (reports m) in
      Some (with_agent a (Dispatching b o) (with_reports s (with_txn Idle m)),
            match batch with [] => [] | _ => [ESequenced b] end)
  | _, _ => None
  end.

(** ** Close *)

Definition begin_close (m : Manager) : option (Manager * list Event) :=
  match transaction m with
  | Idle => Some (if m_closed m then finish [] (ReturnedClose None) m else with_txn Closing (with_closed m), [])
  | _ => None
  end.

Definition detach (m : Manager) : option (Manager * list Event) :=
  match transaction m with
  | Closing =>
      Some (with_txn (match active m with Some g => Retiring g AtClose | None => Finishing [] (ReturnedClose None) end)
              (with_active None m), [])
  | _ => None
  end.

(** ** Producers *)

(** One step of [Acquire]; [ctx] is what a done context answers to a wait. *)
Definition acquire_step (at_ : AcquirePoint) (ctx : option ExternalError) (m : Manager) : option (Manager * Agent) :=
  match at_ with
  | CheckClosed =>
      Some (m, if m_closed m then NotAcquired (failure ErrorClosed) else Acquiring LoadActive)
  | LoadActive =>
      Some (m, match active m with None => NotAcquired (failure ErrorClosed) | Some g => Acquiring (Enter g) end)
  | Enter g =>
      match graphs m !! g with
      | None => None
      | Some graph =>
          match acquire graph with
          | Refused => Some (m, Acquiring (WasRefused g))
          | Entered graph' => Some (with_graph g graph' m, Acquiring (Revalidate g))
          | MustWait =>
              match ctx with
              | Some err => Some (m, NotAcquired (mkGraphError ErrorInitialization "" "" (Some (contextIdentity err))))
              | None => None
              end
          end
      end
  | Revalidate g => Some (m, Acquiring (if bool_decide (active m = Some g) then Recheck g else UndoAcquire g))
  | Recheck g => Some (m, if m_closed m then Acquiring (UndoAcquire g) else Leased g)
  | UndoAcquire g =>
      match graphs m !! g with
      | None => None
      | Some graph => Some (with_graph g (release graph) m, Acquiring Undone)
      end
  | Undone => Some (m, if m_closed m then NotAcquired (failure ErrorClosed) else Acquiring CheckClosed)
  | WasRefused g => Some (m, if m_closed m then NotAcquired (failure ErrorClosed) else Acquiring (CompareActive g))
  | CompareActive g =>
      Some (m, if bool_decide (active m = Some g) then NotAcquired (failure ErrorInitialization) else Acquiring CheckClosed)
  end.

(** The graph whose [users] counts the agent. *)
Definition holds (x : Agent) : option nat :=
  match x with
  | Acquiring (Revalidate g) | Acquiring (Recheck g) | Acquiring (UndoAcquire g) | Leased g | Releasing g => Some g
  | _ => None
  end.

(** [Fork] of the lease [a] into the new lease [child].  The test of [released] and
    the increment are two accesses, so the lease may be on its way out. *)
Definition fork_step (a child : nat) (m : Manager) : option (Manager * list Event) :=
  match agents m !! a, agents m !! child with
  | Some (Leased g), None | Some (Releasing g), None =>
      match graphs m !! g ≫= fork with
      | Some graph => Some (with_agent child (Leased g) (with_graph g graph m), [])
      | None => None
      end
  | _, _ => None
  end.

Definition release_step (a : nat) (m : Manager) : option (Manager * list Event) :=
  match agents m !! a with
  | Some (Leased g) => Some (with_agent a (Releasing g) m, [])
  | Some (Releasing g) =>
      match graphs m !! g with
      | Some graph => Some (with_agent a ReleasedLease (with_graph g (release graph) m), [])
      | None => None
      end
  | _ => None
  end.

(** [Lease.Graph] and [Lease.Component]. *)
Definition lease_Graph (m : Manager) (a : nat) : option nat :=
  match agents m !! a with Some (Leased g) => Some g | _ => None end.

Definition byName (es : list componentEntry) (name : string) : option componentEntry :=
  last (filter (fun e => has_component e = true /\ e_name e = name) es).

Definition lease_Component (m : Manager) (a : nat) (name : string) : option Component :=
  match lease_Graph m a with
  | None => None
  | Some g =>
      match byName (entries_of m g) name with
      | Some e => if negb (available e) || closed e then None else Some (component e)
      | None => None
      end
  end.

(** ** Clean-up *)

(** A step of [cleanupAfterQuiescence] by the agent [a].  The check that the
    dispatch makes on the way cannot close the reporter: the agent itself still
    counts as an asynchronous clean-up. *)
Definition async_step (a : nat) (fails : Called -> bool) (child : nat) (m : Manager) : option (Manager * list Event) :=
  match agents m !! a with
  | Some (AwaitQuiescence g r) =>
      match quiescent <$> (graphs m !! g) with
      | Some Quiescent => Some (with_agent a (AsyncTeardown g r (start_teardown m g)) m, [])
      | _ => None
      end
  | Some (AsyncTeardown g r p) =>
      match tear_next fails g p m with
      | Some (m', p', evs) => Some (with_agent a (AsyncTeardown g r p') m', evs)
      | None =>
          Some (with_agent a (if failed (result p) then AsyncReport g (default r (active m)) (componentName (result p))
                              else AsyncDone) m, [])
      end
  | Some (AsyncReport g target name) =>
      let '(b, s) := sequenceReports (mkBatch 0 (addFailed m (Some target) ReportDrainFailed "failed" name [])) (reports m) in
      Some (with_agent a (AsyncDispatch g b) (with_reports s m), [ESequenced b])
  | Some (AsyncDispatch g b) =>
      let '(accepted, s) := dispatchReports b (reports m) in
      Some (with_agent a (AsyncSchedule g) (with_reports s m), [EDispatched b accepted])
  | Some (AsyncSchedule g) =>
      match agents m !! child with
      | Some _ => None
      | None => Some (with_agent a AsyncDone (scheduleCleanupRetry g child m), [])
      end
  | Some AsyncDone => Some (with_agent a (ClosingReporter MaybeClosed false None) (with_async (pred (asyncCleanup m)) m), [])
  | _ => None
  end.

(** A step of [retryCleanup]. *)
Definition retry_step (a : nat) (fails : Called -> bool) (m : Manager) : option (Manager * list Event) :=
  match agents m !! a with
  | Some (AwaitRetry g) => Some (with_agent a (Retrying g (start_teardown m g)) m, [])
  | Some (Retrying g p) =>
      match tear_next fails g p m with
      | Some (m', p', evs) => Some (with_agent a (Retrying g p') m', evs)
      | None =>
          if failed (result p) then Some (with_agent a (AwaitRetry g) m, [])
          else Some (with_agent a (ClosingReporter MaybeClosed false None) (with_pending (pending m ∖ {[ g ]}) m), [])
      end
  | _ => None
  end.

(** [WaitCleanup] returns nil. *)
Definition cleanup_done (m : Manager) : Prop := pending m = ∅ /\ asyncCleanup m = 0%nat.

(** ** Reports *)

Definition is_close (o : Outcome) : bool := match o with ReturnedClose _ => true | _ => false end.

(** The dispatch at the end of a transaction; a refusal is ignored.  An accepted
    dispatch checks whether the reporter can be closed, and so does [Close]. *)
Definition dispatch_step (a : nat) (m : Manager) : option (Manager * list Event) :=
  match agents m !! a with
  | Some (Dispatching b o) =>
      let '(accepted, s) := dispatchReports b (reports m) in
      let evs := match envelopes b with [] => [] | _ => [EDispatched b accepted] end in
      let checked := accepted && negb (length (envelopes b) =? 0)%nat in
      if checked || is_close o
      then Some (with_agent a (ClosingReporter MaybeClosed (checked && is_close o) (Some o)) (with_reports s m), evs)
      else Some (with_agent a Ended (with_reports s m), evs ++ [EReturned o])
  | _ => None
  end.

Definition closing_step (a : nat) (m : Manager) : option (Manager * list Event) :=
  match agents m !! a with
  | Some (ClosingReporter at_ again o) =>
      let over m : Manager * list Event :=
        if again then (with_agent a (ClosingReporter MaybeClosed false o) m, [])
        else (with_agent a Ended m, from_option (fun o => [EReturned o]) [] o) in
      let ended := over m in
      let next p : Manager * list Event := (with_agent a (ClosingReporter p again o) m, []) in
      Some match at_ with
           | MaybeClosed => if m_closed m then next MaybeAsync else ended
           | MaybeAsync => if (asyncCleanup m =? 0)%nat then next MaybePending else ended
           | MaybePending => if bool_decide (pending m = ∅) then next MaybeAccepted else ended
           | MaybeAccepted =>
               if (reportAccepted (reports m) =? reportBatchSeq (reports m))%nat then next RequestClose else ended
           | RequestClose => over (with_reports (requestReporterClose (reports m)) m)
           end
  | _ => None
  end.

(** What [FlushReports] waits for: the numbers given before the call. *)
Definition flush_target (m : Manager) : nat := reportBatchSeq (reports m).
Definition flushed (target : nat) (m : Manager) : bool := (target <=? reportCompleted (reports m))%nat.

(** ** The machine *)

Inductive Label :=
| LBeginReload (candidate : GraphConfig)
| LDecideReload (ctx : option ExternalError) (g : nat)
| LBuild (p : option Prepared) (ctx : option ExternalError)
| LActivate
| LRetire (expired : option nat)
| LTear (fails : Called -> bool) (a : nat)
| LFinish (a : nat)
| LBeginClose
| LDetach
| LCallAcquire (a : nat)
| LAcquire (a : nat) (ctx : option ExternalError)
| LFork (a child : nat)
| LRelease (a : nat)
| LAsync (a : nat) (fails : Called -> bool) (child : nat)
| LRetry (a : nat) (fails : Called -> bool)
| LDispatch (a : nat)
| LClosing (a : nat)
| LWorker (ok : bool).

Definition step (l : Label) (m : Manager) : option (Manager * list Event) :=
  match l with
  | LBeginReload candidate =>
      match transaction m with Idle => Some (with_txn (Reloading candidate) m, []) | _ => None end
  | LDecideReload ctx g =>
      match transaction m with
      | Reloading candidate => (fun m' : Manager => (m', [] : list Event)) <$> decide_reload candidate ctx g m
      | _ => None
      end
  | LBuild p ctx => txn_step_build p ctx m
  | LActivate => txn_step_activate m
  | LRetire expired => txn_step_retire expired m
  | LTear fails a => txn_step_tear fails a m
  | LFinish a => txn_step_finish a m
  | LBeginClose => begin_close m
  | LDetach => detach m
  | LCallAcquire a =>
      match agents m !! a with None => Some (with_agent a (Acquiring CheckClosed) m, []) | Some _ => None end
  | LAcquire a ctx =>
      match agents m !! a with
      | Some (Acquiring at_) => (fun r : Manager * Agent => (with_agent a (snd r) (fst r), [] : list Event)) <$> acquire_step at_ ctx m
      | _ => None
      end
  | LFork a child => fork_step a child m
  | LRelease a => release_step a m
  | LAsync a fails child => async_step a fails child m
  | LRetry a fails => retry_step a fails m
  | LDispatch a => dispatch_step a m
  | LClosing a => closing_step a m
  | LWorker ok =>
      (fun r : Spool * list (reportEnvelope * bool) =>
         (with_reports (fst r) m, (fun t => EReported (fst t) (snd t)) <$> snd r)) <$> worker_step ok (reports m)
  end.
End Manager.
