(* ===== verification/ManagerFacts.v ===== *)
(** * Invariants of the runtime manager

    The steps of the machine once more, as a relation with one rule per branch,
    and the invariants by rule induction: the users of a graph are its holders,
    every group has at most one owner, a component belongs to one entry. *)
From stdpp Require Import base list gmap strings.
From Stdlib Require Import ZArith Lia.
From S2P Require Import Prelude GoStrings Taxonomy RoutingPlan RuntimeGraph ReportSpool RuntimeManager.

(** ** Agents by kind *)

(** The agent only reports: it holds no graph and cleans up nothing. *)
Definition reporting (x : Agent) : bool :=
  match x with Dispatching _ _ | ClosingReporter _ _ _ | Ended => true | _ => false end.

(** The group that an agent cleans up. *)
Definition handles (x : Agent) : option nat :=
  match x with
  | AwaitQuiescence g _ | AsyncTeardown g _ _ | AsyncReport g _ _ | AsyncDispatch g _ | AsyncSchedule g
  | AwaitRetry g | Retrying g _ => Some g
  | _ => None
  end.

(** The agent is a [cleanupAfterQuiescence]. *)
Definition is_async (x : Agent) : bool :=
  match x with
  | AwaitQuiescence _ _ | AsyncTeardown _ _ _ | AsyncReport _ _ _ | AsyncDispatch _ _ | AsyncSchedule _ | AsyncDone => true
  | _ => false
  end.

(** The batch under retry. *)
Definition retries (x : Agent) : option nat :=
  match x with AwaitRetry g | Retrying g _ => Some g | _ => None end.

Definition count (f : Agent -> bool) (ag : gmap nat Agent) : nat := size (filter (fun kv => f (snd kv) = true) ag).

Definition b2n (b : bool) : nat := if b then 1 else 0.

Lemma count_insert f ag a x :
  (count f (<[a := x]> ag) + b2n (from_option f false (ag !! a)) = b2n (f x) + count f ag)%nat.
Proof.
  unfold count. destruct (f x) eqn:Hx.
  - rewrite map_filter_insert_True by done. destruct (ag !! a) as [y|] eqn:Hy; cbn [from_option].
    + destruct (f y) eqn:Hf; cbn.
      * rewrite map_size_insert_Some; [lia|]. exists y. by apply map_lookup_filter_Some.
      * rewrite map_size_insert_None; [lia|]. apply map_lookup_filter_None. right. intros z Hz. cbn. congruence.
    + cbn. rewrite map_size_insert_None; [lia|]. apply map_lookup_filter_None. by left.
  - rewrite map_filter_insert_False by (cbn; congruence). destruct (ag !! a) as [y|] eqn:Hy; cbn [from_option].
    + rewrite map_filter_delete. destruct (f y) eqn:Hf; cbn.
      * assert (Hl : is_Some (filter (fun kv : nat * Agent => f kv.2 = true) ag !! a))
          by (exists y; by apply map_lookup_filter_Some).
        rewrite (map_size_delete_Some _ _ Hl).
        assert (size (filter (fun kv : nat * Agent => f kv.2 = true) ag) <> 0%nat).
        { intros Hz%map_size_empty_iff. rewrite Hz in Hl. by destruct Hl. } lia.
      * rewrite map_size_delete_None; [lia|]. apply map_lookup_filter_None. right. intros z Hz. cbn. congruence.
    + rewrite delete_id by done. cbn. lia.
Qed.

Lemma count_zero f ag : count f ag = 0%nat <-> forall a x, ag !! a = Some x -> f x = false.
Proof.
  unfold count. rewrite map_size_empty_iff. split.
  - intros H a x Hx. destruct (f x) eqn:E; [|done]. exfalso.
    assert (Hl : filter (fun kv : nat * Agent => f kv.2 = true) ag !! a = Some x) by by apply map_lookup_filter_Some.
    by rewrite H in Hl.
  - intros H. apply map_empty. intros a. apply map_lookup_filter_None. right. intros x Hx. cbn. by rewrite (H a x Hx).
Qed.

Lemma count_pos f ag a x : ag !! a = Some x -> f x = true -> (0 < count f ag)%nat.
Proof.
  intros Hx Hf. destruct (count f ag) eqn:E; [|lia]. rewrite count_zero in E. by rewrite (E a x Hx) in Hf.
Qed.

(** ** The rules *)

Section Rules.
Context (factories : list ComponentFactory).

Inductive transition (m : Manager) : Manager -> list Event -> Prop :=
| tr_begin_reload c : transaction m = Idle -> transition m (with_txn (Reloading c) m) []
| tr_reject c err batch :
    transaction m = Reloading c ->
    transition m (finish batch (ReturnedReload (mkReloadResult (active m) ReloadRejected) (Some err)) m) []
| tr_start c g old :
    transaction m = Reloading c -> m_closed m = false -> active m = Some old -> validateConfig c = None ->
    (graphs m !! old ≫= fun graph => restartRequiredField (gr_config graph) c) = None -> groups m !! g = None ->
    transition m (with_txn (Building c g (Some old) factories) (with_group g [] (owned m) m)) []
| tr_prepare c g previous f fs p es o :
    transaction m = Building c g previous (f :: fs) -> build_factory f p (entries_of m g) (owned m) = (es, o, None) ->
    transition m (with_txn (Building c g previous fs) (with_group g es o m))
      [ECalled (mkCalled g (f_Name f) (Prepare (build_input f c (next_generation m previous) (config_of m previous))))]
| tr_prepare_failed c g previous f fs p es o err :
    transaction m = Building c g previous (f :: fs) -> build_factory f p (entries_of m g) (owned m) = (es, o, Some err) ->
    transition m (with_txn (Rejecting g previous err (start_teardown (with_group g es o m) g)) (with_group g es o m))
      [ECalled (mkCalled g (f_Name f) (Prepare (build_input f c (next_generation m previous) (config_of m previous))))]
| tr_build_canceled c g previous err :
    transaction m = Building c g previous [] ->
    transition m (with_txn (Rejecting g previous err (start_teardown m g)) m) []
| tr_publish c g previous :
    transaction m = Building c g previous [] ->
    transition m (with_txn (Activating g previous 0)
                    (with_active (Some g) (with_graph g (newGraph c (next_generation m previous)) m))) []
| tr_activate g previous i e :
    transaction m = Activating g previous i -> entries_of m g !! i = Some e ->
    transition m (with_txn (Activating g previous (S i)) (with_group g (set_nth i set_active (entries_of m g)) (owned m) m))
      [ECalled (mkCalled g (e_name e) Activate)]
| tr_ready_reload g old i graph :
    transaction m = Activating g (Some old) i -> entries_of m g !! i = None -> graphs m !! g = Some graph ->
    transition m (with_txn (Retiring old (AfterReload g)) (with_graph g (finishActivation graph) m)) []
| tr_ready_new g i graph batch :
    transaction m = Activating g None i -> entries_of m g !! i = None -> graphs m !! g = Some graph ->
    transition m (finish batch (ReturnedNew None)
                    (with_reports (startReporter (reports m)) (with_graph g (finishActivation graph) m))) []
| tr_retire g why graph :
    transaction m = Retiring g why -> graphs m !! g = Some graph ->
    transition m (with_txn (Awaiting g why) (with_graph g (beginRetirement graph) m)) []
| tr_quiesced g why graph :
    transaction m = Awaiting g why -> graphs m !! g = Some graph -> quiescent graph = Quiescent ->
    transition m (with_txn (TearingDown g why (start_teardown m g)) m) []
| tr_expired g why a :
    transaction m = Awaiting g why -> agents m !! a = None ->
    transition m (after_retirement why g (mkCleanup true "inflight-users")
                    (with_agent a (AwaitQuiescence g (report_graph why g)) (with_async (S (asyncCleanup m)) m))) []
| tr_reject_tear g previous err p m' p' evs fails :
    transaction m = Rejecting g previous err p -> tear_next fails g p m = Some (m', p', evs) ->
    transition m (with_txn (Rejecting g previous err p') m') evs
| tr_rejected g old err p a batch :
    transaction m = Rejecting g (Some old) err p -> todo p = [] -> agents m !! a = None ->
    transition m (finish batch (ReturnedReload (mkReloadResult (Some old) ReloadRejected) (Some err))
                    (if failed (result p) then scheduleCleanupRetry g a m else m)) []
| tr_dropped g err p a :
    transaction m = Rejecting g None err p -> todo p = [] -> agents m !! a = None ->
    pending (if failed (result p) then scheduleCleanupRetry g a m else m) = ∅ ->
    transition m (with_txn Dropped (if failed (result p) then scheduleCleanupRetry g a m else m)) []
| tr_new_failed g err p a :
    transaction m = Rejecting g None err p -> todo p = [] -> agents m !! a = None ->
    transition m (finish [] (ReturnedNew (Some err))
                    (with_closed (if failed (result p) then scheduleCleanupRetry g a m else m))) []
| tr_tear g why p m' p' evs fails :
    transaction m = TearingDown g why p -> tear_next fails g p m = Some (m', p', evs) ->
    transition m (with_txn (TearingDown g why p') m') evs
| tr_torn g why p a :
    transaction m = TearingDown g why p -> todo p = [] -> agents m !! a = None ->
    transition m (after_retirement why g (result p) (if failed (result p) then scheduleCleanupRetry g a m else m)) []
| tr_finish batch o b s a :
    transaction m = Finishing batch o -> agents m !! a = None -> sequenceReports (mkBatch 0 batch) (reports m) = (b, s) ->
    transition m (with_agent a (Dispatching b o) (with_reports s (with_txn Idle m)))
      (match batch with [] => [] | _ => [ESequenced b] end)
| tr_close_again : transaction m = Idle -> m_closed m = true -> transition m (finish [] (ReturnedClose None) m) []
| tr_close : transaction m = Idle -> m_closed m = false -> transition m (with_txn Closing (with_closed m)) []
| tr_detach g : transaction m = Closing -> active m = Some g ->
    transition m (with_txn (Retiring g AtClose) (with_active None m)) []
| tr_detach_nil : transaction m = Closing -> active m = None ->
    transition m (with_txn (Finishing [] (ReturnedClose None)) (with_active None m)) []
| tr_call a : agents m !! a = None -> transition m (with_agent a (Acquiring CheckClosed) m) []
| tr_acquire a at_ ctx x :
    agents m !! a = Some (Acquiring at_) -> acquire_step at_ ctx m = Some (m, x) -> holds x = holds (Acquiring at_) ->
    handles x = None -> is_async x = false -> retries x = None ->
    transition m (with_agent a x m) []
| tr_enter a g graph :
    agents m !! a = Some (Acquiring (Enter g)) -> graphs m !! g = Some graph -> retired graph = false -> ready graph = true ->
    transition m (with_agent a (Acquiring (Revalidate g)) (with_graph g
      (mkGraph (gr_config graph) (gr_generation graph) (retired graph) (ready graph) (users graph + 1) (quiescent graph)) m)) []
| tr_undo a g graph :
    agents m !! a = Some (Acquiring (UndoAcquire g)) -> graphs m !! g = Some graph ->
    transition m (with_agent a (Acquiring Undone) (with_graph g (release graph) m)) []
| tr_fork a child g graph graph' :
    agents m !! a = Some (Leased g) \/ agents m !! a = Some (Releasing g) -> agents m !! child = None ->
    graphs m !! g = Some graph -> fork graph = Some graph' ->
    transition m (with_agent child (Leased g) (with_graph g graph' m)) []
| tr_begin_release a g : agents m !! a = Some (Leased g) -> transition m (with_agent a (Releasing g) m) []
| tr_release a g graph :
    agents m !! a = Some (Releasing g) -> graphs m !! g = Some graph ->
    transition m (with_agent a ReleasedLease (with_graph g (release graph) m)) []
| tr_async_quiesced a g r graph :
    agents m !! a = Some (AwaitQuiescence g r) -> graphs m !! g = Some graph -> quiescent graph = Quiescent ->
    transition m (with_agent a (AsyncTeardown g r (start_teardown m g)) m) []
| tr_async_tear a g r p m' p' evs fails :
    agents m !! a = Some (AsyncTeardown g r p) -> tear_next fails g p m = Some (m', p', evs) ->
    transition m (with_agent a (AsyncTeardown g r p') m') evs
| tr_async_failed a g r p target name :
    agents m !! a = Some (AsyncTeardown g r p) -> todo p = [] -> failed (result p) = true ->
    transition m (with_agent a (AsyncReport g target name) m) []
| tr_async_torn a g r p :
    agents m !! a = Some (AsyncTeardown g r p) -> todo p = [] -> failed (result p) = false ->
    transition m (with_agent a AsyncDone m) []
| tr_async_report a g target name batch b s :
    agents m !! a = Some (AsyncReport g target name) -> sequenceReports (mkBatch 0 batch) (reports m) = (b, s) ->
    batch <> [] -> transition m (with_agent a (AsyncDispatch g b) (with_reports s m)) [ESequenced b]
| tr_async_dispatch a g b ok s :
    agents m !! a = Some (AsyncDispatch g b) -> dispatchReports b (reports m) = (ok, s) ->
    transition m (with_agent a (AsyncSchedule g) (with_reports s m)) [EDispatched b ok]
| tr_async_schedule a g child :
    agents m !! a = Some (AsyncSchedule g) -> agents m !! child = None ->
    transition m (with_agent a AsyncDone (scheduleCleanupRetry g child m)) []
| tr_async_done a :
    agents m !! a = Some AsyncDone ->
    transition m (with_agent a (ClosingReporter MaybeClosed false None) (with_async (pred (asyncCleanup m)) m)) []
| tr_retry a g : agents m !! a = Some (AwaitRetry g) -> transition m (with_agent a (Retrying g (start_teardown m g)) m) []
| tr_retry_tear a g p m' p' evs fails :
    agents m !! a = Some (Retrying g p) -> tear_next fails g p m = Some (m', p', evs) ->
    transition m (with_agent a (Retrying g p') m') evs
| tr_retry_failed a g p :
    agents m !! a = Some (Retrying g p) -> todo p = [] -> failed (result p) = true ->
    transition m (with_agent a (AwaitRetry g) m) []
| tr_retry_done a g p :
    agents m !! a = Some (Retrying g p) -> todo p = [] -> failed (result p) = false ->
    transition m (with_agent a (ClosingReporter MaybeClosed false None) (with_pending (pending m ∖ {[ g ]}) m)) []
| tr_dispatch a b o ok s x evs :
    agents m !! a = Some (Dispatching b o) -> dispatchReports b (reports m) = (ok, s) ->
    (exists again, x = ClosingReporter MaybeClosed again (Some o)) \/ x = Ended ->
    Forall (fun ev => (ev = EDispatched b ok /\ envelopes b <> []) \/ ev = EReturned o) evs ->
    transition m (with_agent a x (with_reports s m)) evs
| tr_closing a at_ again o x s evs :
    agents m !! a = Some (ClosingReporter at_ again o) -> reporting x = true ->
    s = reports m \/ (at_ = RequestClose /\ s = requestReporterClose (reports m)) ->
    (x = Ended \/ exists at' again', x = ClosingReporter at' again' o) ->
    Forall (fun ev => Some ev = EReturned <$> o) evs -> transition m (with_agent a x (with_reports s m)) evs
| tr_worker ok s attempts :
    worker_step ok (reports m) = Some (s, attempts) ->
    transition m (with_reports s m) ((fun t => EReported (fst t) (snd t)) <$> attempts).

Lemma with_reports_id m : with_reports (reports m) m = m.
Proof. by destruct m. Qed.

Lemma tear_next_nil fails g p m : tear_next fails g p m = None <-> todo p = [].
Proof. unfold tear_next. by destruct (todo p). Qed.

Lemma txn_transition l m m' evs :
  match l with
  | LBeginReload _ | LDecideReload _ _ | LBuild _ _ | LActivate | LRetire _ | LTear _ _ | LFinish _ | LBeginClose | LDetach => True
  | _ => False
  end -> step factories l m = Some (m', evs) -> transition m m' evs.
Proof.
  destruct l as [c|ctx g|p ctx| |expired|fails a|a| | |a|a ctx|a child|a|a fails child|a fails|a|a|ok]; try done; intros _ H;
    cbn [step] in H.
  - destruct (transaction m) eqn:Et; try done. injection H as <- <-. by apply tr_begin_reload.
  - destruct (transaction m) as [|c| | | | | | | | |] eqn:Et; try done. unfold decide_reload in H.
    destruct (m_closed m) eqn:Ec; [cbn in H; injection H as <- <-; by eapply tr_reject|].
    destruct (active m) as [old|] eqn:Ea; [|cbn in H; injection H as <- <-; rewrite <-Ea; by eapply tr_reject].
    destruct (validateConfig c) eqn:Ev; [cbn in H; injection H as <- <-; rewrite <-Ea; by eapply tr_reject|].
    destruct (_ ≫= _) eqn:Er; [cbn in H; injection H as <- <-; rewrite <-Ea; by eapply tr_reject|].
    destruct ctx; [cbn in H; injection H as <- <-; rewrite <-Ea; by eapply tr_reject|].
    destruct (groups m !! g) eqn:Eg; [done|]. cbn in H. injection H as <- <-. by apply tr_start.
  - unfold txn_step_build in H. destruct (transaction m) as [| |c g previous [|f fs]| | | | | | | |] eqn:Et; try done; destruct p as [p|]; try done.
    + destruct ctx; injection H as <- <-; [by eapply tr_build_canceled|by apply tr_publish].
    + destruct (build_factory _ _ _ _) as [[es o] [err|]] eqn:Eb; injection H as <- <-; [by eapply tr_prepare_failed|by eapply tr_prepare].
  - unfold txn_step_activate in H. destruct (transaction m) as [| | | |g previous i| | | | | |] eqn:Et; try done.
    destruct (entries_of m g !! i) as [e|] eqn:Ee; [injection H as <- <-; by eapply tr_activate|].
    destruct (graphs m !! g) as [graph|] eqn:Eg; [|done].
    destruct previous; injection H as <- <-; [by eapply tr_ready_reload|by eapply tr_ready_new].
  - unfold txn_step_retire in H. destruct (transaction m) as [| | | | |g why|g why| | | |] eqn:Et; try done.
    + destruct (graphs m !! g) eqn:Eg; [|done]. injection H as <- <-. by apply tr_retire.
    + destruct expired as [a|].
      * destruct (agents m !! a) eqn:Ea; [done|]. injection H as <- <-. by apply tr_expired.
      * destruct (graphs m !! g) as [graph|] eqn:Eg; [|done]. cbn in H. destruct (quiescent graph) eqn:Eq; try done.
        injection H as <- <-. by eapply tr_quiesced.
  - unfold txn_step_tear in H. destruct (agents m !! a) eqn:Ea; [done|].
    destruct (transaction m) as [| | |g previous err p| | | |g why p| | |] eqn:Et; try done.
    + destruct (tear_next fails g p m) as [[[m1 p'] evs']|] eqn:En; [injection H as <- <-; by eapply tr_reject_tear|].
      apply tear_next_nil in En. destruct previous as [old|].
      * injection H as <- <-. by eapply tr_rejected.
      * cbv zeta in H. case_bool_decide as Hp; injection H as <- <-; [by eapply tr_dropped|by eapply tr_new_failed].
    + destruct (tear_next fails g p m) as [[[m1 p'] evs']|] eqn:En; [injection H as <- <-; by eapply tr_tear|].
      apply tear_next_nil in En. injection H as <- <-. by eapply tr_torn.
  - unfold txn_step_finish in H. destruct (agents m !! a) eqn:Ea; [done|].
    destruct (transaction m) as [| | | | | | | | |batch o|] eqn:Et; try done.
    destruct (sequenceReports _ _) as [b s] eqn:Es. injection H as <- <-. by eapply tr_finish.
  - unfold begin_close in H. destruct (transaction m) eqn:Et; try done.
    destruct (m_closed m) eqn:Ec; injection H as <- <-; [by apply tr_close_again|by apply tr_close].
  - unfold detach in H. destruct (transaction m) eqn:Et; try done. destruct (active m) eqn:Ea; injection H as <- <-;
      [by apply tr_detach|by apply tr_detach_nil].
Qed.

Lemma acquire_transition a ctx m m' evs : step factories (LAcquire a ctx) m = Some (m', evs) -> transition m m' evs.
Proof.
  cbn [step]. destruct (agents m !! a) as [[at_| | | | | | | | | | | | | | | ]|] eqn:Ea; try done.
  destruct (acquire_step at_ ctx m) as [[m1 x]|] eqn:Es; [|done]. cbn. intros [= <- <-].
  pose proof Es as Es'. unfold acquire_step in Es. destruct at_.
  - injection Es as <- <-. eapply tr_acquire; try done; by destruct (m_closed m).
  - injection Es as <- <-. eapply tr_acquire; try done; by destruct (active m).
  - destruct (graphs m !! g) as [graph|] eqn:Eg; [|done]. unfold acquire in Es. destruct (retired graph) eqn:Er.
    { injection Es as <- <-. by eapply tr_acquire. }
    destruct (ready graph) eqn:Ey; [injection Es as <- <-; rewrite <-Er, <-Ey at 1; by apply tr_enter|].
    destruct ctx; [|done]. injection Es as <- <-. by eapply tr_acquire.
  - injection Es as <- <-. eapply tr_acquire; try done; by case_bool_decide.
  - injection Es as <- <-. eapply tr_acquire; try done; by destruct (m_closed m).
  - destruct (graphs m !! g) as [graph|] eqn:Eg; [|done]. injection Es as <- <-. by apply tr_undo.
  - injection Es as <- <-. eapply tr_acquire; try done; by destruct (m_closed m).
  - injection Es as <- <-. eapply tr_acquire; try done; by destruct (m_closed m).
  - injection Es as <- <-. eapply tr_acquire; try done; by case_bool_decide.
Qed.

Lemma step_transition l m m' evs : step factories l m = Some (m', evs) -> transition m m' evs.
Proof.
  intros H. destruct l as [c|ctx g|p ctx| |expired|fails a|a| | |a|a ctx|a child|a|a fails child|a fails|a|a|ok];
    try (by eapply txn_transition; [|exact H]); [|by eapply acquire_transition|..]; cbn [step] in H.
  - destruct (agents m !! a) eqn:Ea; [done|]. injection H as <- <-. by apply tr_call.
  - unfold fork_step in H.
    assert (Hf : exists g graph graph', (agents m !! a = Some (Leased g) \/ agents m !! a = Some (Releasing g)) /\
      agents m !! child = None /\ graphs m !! g = Some graph /\ fork graph = Some graph' /\
      m' = with_agent child (Leased g) (with_graph g graph' m) /\ evs = []).
    { destruct (agents m !! a) as [[| |g|g| | | | | | | | | | | |]|] eqn:Ea; try done;
        (destruct (agents m !! child) eqn:Ec; [done|]; destruct (graphs m !! g) as [graph|] eqn:Eg; [|done]; cbn in H;
         destruct (fork graph) as [graph'|] eqn:Ef; [|done]; injection H as <- <-; exists g, graph, graph'; split_and!; auto). }
    destruct Hf as (g & graph & graph' & ? & ? & ? & ? & -> & ->). by eapply tr_fork.
  - unfold release_step in H. destruct (agents m !! a) as [[| |g|g| | | | | | | | | | | |]|] eqn:Ea; try done.
    + injection H as <- <-. by apply tr_begin_release.
    + destruct (graphs m !! g) eqn:Eg; [|done]. injection H as <- <-. by apply tr_release.
  - unfold async_step in H. destruct (agents m !! a) as [[| | | | |g r|g r p|g target name|g b|g| | | | | |]|] eqn:Ea; try done.
    + destruct (graphs m !! g) as [graph|] eqn:Eg; [|done]. cbn in H. destruct (quiescent graph) eqn:Eq; try done.
      injection H as <- <-. by eapply tr_async_quiesced.
    + destruct (tear_next fails g p m) as [[[m1 p'] evs']|] eqn:En; [injection H as <- <-; by eapply tr_async_tear|].
      apply tear_next_nil in En. injection H as <- <-. destruct (failed (result p)) eqn:Ef; [by eapply tr_async_failed|by eapply tr_async_torn].
    + destruct (sequenceReports _ _) as [b s] eqn:Es. injection H as <- <-. by eapply tr_async_report.
    + destruct (dispatchReports _ _) as [ok s] eqn:Es. injection H as <- <-. by eapply tr_async_dispatch.
    + destruct (agents m !! child) eqn:Ec; [done|]. injection H as <- <-. by apply tr_async_schedule.
    + injection H as <- <-. by apply tr_async_done.
  - unfold retry_step in H. destruct (agents m !! a) as [[| | | | | | | | | | |g|g p| | |]|] eqn:Ea; try done.
    + injection H as <- <-. by apply tr_retry.
    + destruct (tear_next fails g p m) as [[[m1 p'] evs']|] eqn:En; [injection H as <- <-; by eapply tr_retry_tear|].
      apply tear_next_nil in En. destruct (failed (result p)) eqn:Ef; injection H as <- <-;
        [by eapply tr_retry_failed|by eapply tr_retry_done].
  - unfold dispatch_step in H. destruct (agents m !! a) as [[| | | | | | | | | | | | |b o| |]|] eqn:Ea; try done.
    destruct (dispatchReports _ _) as [ok s] eqn:Es. cbv zeta in H. destruct (_ || _); injection H as <- <-.
    + eapply tr_dispatch; eauto. destruct (envelopes b); repeat (apply Forall_cons; split; [by auto|]); apply Forall_nil_2.
    + eapply tr_dispatch; eauto. destruct (envelopes b); cbn; repeat (apply Forall_cons; split; [auto|]); apply Forall_nil_2.
  - unfold closing_step in H. destruct (agents m !! a) as [[| | | | | | | | | | | | | |at_ again o|]|] eqn:Ea; try done.
    cbv zeta in H. assert (Hr : forall x evs', reporting x = true -> (x = Ended \/ exists at' again', x = ClosingReporter at' again' o) ->
      Forall (fun ev => Some ev = EReturned <$> o) evs' -> transition m (with_agent a x m) evs').
    { intros x evs' Hx Hx' He. rewrite <-(with_reports_id m) at 2. eapply tr_closing; eauto. }
    assert (Ho : Forall (fun ev => Some ev = EReturned <$> o) (from_option (fun o => [EReturned o]) [] o)).
    { destruct o; repeat constructor. }
    destruct at_; [destruct (m_closed m)|destruct (_ =? _)%nat|case_bool_decide|destruct (_ =? _)%nat|];
      try (destruct again; injection H as <- <-; apply Hr; eauto; done).
    all: try (injection H as <- <-; apply Hr; eauto; done).
    destruct again; injection H as <- <-; eapply tr_closing; eauto.
  - destruct (worker_step ok (reports m)) as [[s attempts]|] eqn:Ew; [|done]. cbn in H. injection H as <- <-. by eapply tr_worker.
Qed.
End Rules.

(** ** The parts of a rule *)

Lemma tear_next_inv fails g p m m' p' evs :
  tear_next fails g p m = Some (m', p', evs) ->
  exists a rest td, todo p = a :: rest /\ td = do_action fails g a (mkTeardown (entries_of m g) (owned m) (result p) []) /\
    m' = with_group g (td_entries td) (td_owned td) m /\ p' = mkProgress rest (td_result td) /\ evs = ECalled <$> td_calls td.
Proof.
  unfold tear_next. destruct (todo p) as [|a rest]; [done|]. intros [= <- <- <-]. by exists a, rest, (do_action fails g a (mkTeardown (entries_of m g) (owned m) (result p) [])).
Qed.

Lemma after_retirement_eq why g r m : exists batch o, after_retirement why g r m = finish batch o m.
Proof. destruct why; cbn; [eauto|]. destruct (failed r); eauto. Qed.

Lemma schedule_eq g a m :
  (hasCleanupOwnership (entries_of m g) = false /\ scheduleCleanupRetry g a m = m) \/
  (hasCleanupOwnership (entries_of m g) = true /\
   scheduleCleanupRetry g a m = with_agent a (AwaitRetry g) (with_pending ({[ g ]} ∪ pending m) m)).
Proof. unfold scheduleCleanupRetry. destruct (hasCleanupOwnership _); [by right|by left]. Qed.

(** A rule's states in terms of the state before. *)
Ltac rule_cases H :=
  destruct H;
  repeat match goal with
  | H : tear_next _ _ _ _ = Some _ |- _ => apply tear_next_inv in H as (? & ? & ? & ? & ? & -> & -> & ->)
  | |- context [after_retirement ?w ?g ?r ?m] =>
      let E := fresh "E" in destruct (after_retirement_eq w g r m) as (? & ? & E); rewrite ?E in *; clear E
  | |- context [if failed ?r then scheduleCleanupRetry ?g ?a ?m else ?m] => destruct (failed r) eqn:?
  | |- context [scheduleCleanupRetry ?g ?a ?m] =>
      let E := fresh "E" in destruct (schedule_eq g a m) as [[? E]|[? E]]; rewrite ?E in *; clear E
  end.

(** ** Leases and users *)

Definition held (g : nat) (ag : gmap nat Agent) : nat := count (fun x => bool_decide (holds x = Some g)) ag.

Definition quiet_ok (gr : Graph) : Prop :=
  match quiescent gr with
  | NotRetired => retired gr = false
  | StillUsed => retired gr = true /\ (0 < users gr)%Z
  | Quiescent => retired gr = true /\ users gr = 0%Z
  end.

(** The group under construction is no graph yet. *)
Definition fresh_ok (t : Transaction) (gs : gmap nat Graph) (gp : gmap nat (list componentEntry)) : Prop :=
  match t with Building _ g _ _ | Rejecting g _ _ _ => gs !! g = None /\ is_Some (gp !! g) | _ => True end.

Record users_ok (m : Manager) : Prop := {
  uo_count : forall g gr, graphs m !! g = Some gr -> users gr = Z.of_nat (held g (agents m)) /\ quiet_ok gr;
  uo_ready : forall a x g, agents m !! a = Some x -> holds x = Some g -> exists gr, graphs m !! g = Some gr /\ ready gr = true;
  uo_groups : forall g, is_Some (graphs m !! g) -> is_Some (groups m !! g);
  uo_fresh : fresh_ok (transaction m) (graphs m) (groups m);
}.

Lemma held_insert g ag a x :
  (held g (<[a := x]> ag) + b2n (bool_decide ((ag !! a ≫= holds) = Some g)) =
   b2n (bool_decide (holds x = Some g)) + held g ag)%nat.
Proof.
  unfold held. rewrite <-(count_insert (fun x => bool_decide (holds x = Some g)) ag a x).
  by destruct (ag !! a).
Qed.

Lemma held_same g ag a x : holds x = (ag !! a ≫= holds) -> held g (<[a := x]> ag) = held g ag.
Proof. intros H. pose proof (held_insert g ag a x) as Hi. rewrite H in Hi. lia. Qed.

(** The part that producers see: graphs and holders. *)
Definition users_part (gs : gmap nat Graph) (ag : gmap nat Agent) : Prop :=
  (forall g gr, gs !! g = Some gr -> users gr = Z.of_nat (held g ag) /\ quiet_ok gr) /\
  (forall a x g, ag !! a = Some x -> holds x = Some g -> exists gr, gs !! g = Some gr /\ ready gr = true).

Lemma users_part_same gs ag a x : users_part gs ag -> holds x = (ag !! a ≫= holds) -> users_part gs (<[a := x]> ag).
Proof.
  intros [Hc Hr] H. split.
  - intros g gr Hg. rewrite held_same by done. by apply Hc.
  - intros b y g Hy Hh. destruct (decide (b = a)) as [->|Hne].
    + rewrite lookup_insert_eq in Hy. injection Hy as <-. rewrite H in Hh.
      destruct (ag !! a) as [z|] eqn:Ez; [|done]. by eapply Hr.
    + rewrite lookup_insert_ne in Hy by done. by eapply Hr.
Qed.

(** A graph and an agent change together. *)
Lemma users_part_graph gs ag g gr gr' a x :
  users_part gs ag -> gs !! g = Some gr -> quiet_ok gr' -> (ready gr = true -> ready gr' = true) ->
  users gr' = (users gr + Z.of_nat (b2n (bool_decide (holds x = Some g))) -
               Z.of_nat (b2n (bool_decide ((ag !! a ≫= holds) = Some g))))%Z ->
  (holds x = None \/ (holds x = Some g /\ ready gr' = true)) -> ((ag !! a ≫= holds) = None \/ (ag !! a ≫= holds) = Some g) ->
  users_part (<[g := gr']> gs) (<[a := x]> ag).
Proof.
  intros [Hc Hr] Hg Hq Hready Hu Hx Ha. split.
  - intros g' gr1 Hg'. pose proof (held_insert g' ag a x) as Hi. destruct (decide (g' = g)) as [->|Hne].
    + rewrite lookup_insert_eq in Hg'. injection Hg' as <-. split; [|done]. destruct (Hc g gr Hg) as [Hcg _]. lia.
    + rewrite lookup_insert_ne in Hg' by done. destruct (Hc g' gr1 Hg') as [-> ?]. split; [|done].
      rewrite (bool_decide_eq_false_2 (holds x = Some g')), (bool_decide_eq_false_2 ((ag !! a ≫= holds) = Some g')) in Hi;
        [cbn in Hi; lia| |]; intros E; rewrite E in *; naive_solver.
  - intros b y g' Hy Hh. destruct (decide (b = a)) as [->|Hne].
    + rewrite lookup_insert_eq in Hy. injection Hy as <-. destruct Hx as [Hx|[Hx ?]]; [congruence|].
      assert (g' = g) as -> by congruence. exists gr'. by rewrite lookup_insert_eq.
    + rewrite lookup_insert_ne in Hy by done. destruct (Hr b y g' Hy Hh) as (gr1 & Hg1 & Hr1).
      destruct (decide (g' = g)) as [->|Hne']; [|exists gr1; by rewrite lookup_insert_ne].
      exists gr'. rewrite lookup_insert_eq. split; [done|]. apply Hready. congruence.
Qed.

(** Only a graph changes, not its users. *)
Lemma users_part_update gs ag g gr gr' :
  users_part gs ag -> gs !! g = Some gr -> quiet_ok gr' -> (ready gr = true -> ready gr' = true) -> users gr' = users gr ->
  users_part (<[g := gr']> gs) ag.
Proof.
  intros [Hc Hr] Hg Hq Hready Hu. split.
  - intros g' gr1 Hg'. destruct (decide (g' = g)) as [->|Hne].
    + rewrite lookup_insert_eq in Hg'. injection Hg' as <-. rewrite Hu. split; [by apply (Hc g gr)|done].
    + rewrite lookup_insert_ne in Hg' by done. by apply Hc.
  - intros b y g' Hy Hh. destruct (Hr b y g' Hy Hh) as (gr1 & Hg1 & Hr1).
    destruct (decide (g' = g)) as [->|Hne']; [|exists gr1; by rewrite lookup_insert_ne].
    exists gr'. rewrite lookup_insert_eq. split; [done|]. apply Hready. congruence.
Qed.

Lemma users_part_new gs ag g c n : users_part gs ag -> gs !! g = None -> users_part (<[g := newGraph c n]> gs) ag.
Proof.
  intros [Hc Hr] Hg. split.
  - intros g' gr1 Hg'. destruct (decide (g' = g)) as [->|Hne].
    + rewrite lookup_insert_eq in Hg'. injection Hg' as <-. split; [|done]. cbn.
      assert (held g ag = 0%nat) as ->; [|done]. apply count_zero. intros a x Hx. apply bool_decide_eq_false.
      intros Hh. destruct (Hr a x g Hx Hh) as (? & ? & _). congruence.
    + rewrite lookup_insert_ne in Hg' by done. by apply Hc.
  - intros b y g' Hy Hh. destruct (Hr b y g' Hy Hh) as (gr1 & Hg1 & Hr1).
    exists gr1. split; [|done]. rewrite lookup_insert_ne; [done|]. congruence.
Qed.

Lemma release_ok gr : quiet_ok gr -> (0 < users gr)%Z ->
  quiet_ok (release gr) /\ users (release gr) = (users gr - 1)%Z /\ ready (release gr) = ready gr.
Proof.
  unfold release, quiet_ok. intros Hq Hu. destruct (Z.leb_spec (users gr) 0); [lia|]. cbn.
  destruct (quiescent gr) eqn:E.
  - rewrite Hq. by cbn.
  - destruct Hq as [-> _]. cbn. destruct (Z.eqb_spec (users gr - 1) 0); cbn; split_and!; try done; lia.
  - lia.
Qed.

(** [groups] and [graphs] only grow. *)
Lemma insert_is_Some {A} (m : gmap nat A) i j x : is_Some (m !! j) -> is_Some (<[i := x]> m !! j).
Proof. intros H. apply lookup_insert_is_Some. destruct (decide (i = j)); [by left|by right]. Qed.

#[export] Hint Resolve insert_is_Some : claw.

Lemma fresh_graph t gs gp g gr x : fresh_ok t gs gp -> gs !! g = Some gr -> fresh_ok t (<[g := x]> gs) gp.
Proof.
  intros Hf Hg. destruct t; try done; cbn in *; destruct Hf; (split; [|done]); rewrite lookup_insert_ne; congruence.
Qed.

Lemma fresh_group t gs gp g x : fresh_ok t gs gp -> fresh_ok t gs (<[g := x]> gp).
Proof. intros Hf. destruct t; try done; cbn in *; destruct Hf; auto with claw. Qed.

Ltac in_agents :=
  repeat match goal with
  | |- context [<[?a := _]> ?ag !! ?a] => rewrite lookup_insert_eq
  | H : ?ag !! ?a = _ |- context [?ag !! ?a] => rewrite H
  end.

Lemma users_ok_step factories m m' evs : users_ok m -> transition factories m m' evs -> users_ok m'.
Proof.
  intros [Hc Hr Hg Hf] H. assert (Hp : users_part (graphs m) (agents m)) by (split; done).
  assert (Hq : forall g gr, graphs m !! g = Some gr -> quiet_ok gr) by (intros g gr Hgr; by apply (Hc g gr)).
  assert (Hmk : users_part (graphs m') (agents m') /\ (forall g, is_Some (graphs m' !! g) -> is_Some (groups m' !! g)) /\
    fresh_ok (transaction m') (graphs m') (groups m')); [|by destruct Hmk as ([? ?] & ? & ?); split].
  assert (Hsame : forall a x, holds x = (agents m !! a ≫= holds) -> users_part (graphs m) (<[a := x]> (agents m)))
    by (intros; by apply users_part_same).
  assert (Hpos : forall a x g gr, agents m !! a = Some x -> holds x = Some g -> graphs m !! g = Some gr -> (0 < users gr)%Z).
  { intros a x g gr Ha Hh Hgr. destruct (Hc g gr Hgr) as [-> _].
    assert (0 < held g (agents m))%nat; [|lia]. eapply count_pos; [exact Ha|]. by apply bool_decide_eq_true. }
  assert (Hgi : forall g gr x g0, graphs m !! g = Some gr -> is_Some (<[g := x]> (graphs m) !! g0) -> is_Some (groups m !! g0)).
  { intros g gr x g0 Hgr [<-|[_ H0]]%lookup_insert_is_Some; apply Hg; eauto. }
  rule_cases H; cbn [graphs agents groups transaction with_txn with_group with_graph with_agent with_active with_closed
    with_pending with_async with_reports finish] in *;
    try match goal with E : transaction m = _ |- _ => rewrite E in Hf; cbn [fresh_ok] in Hf end;
    (split; [try exact Hp; try (apply Hsame; by in_agents)|split;
      [ try exact Hg; try (intros g0 Hg0; apply insert_is_Some; by apply Hg); try (intros g0 Hg0; by eapply Hgi)
      | try done; try exact Hf; try (by apply fresh_group); try (by eapply fresh_graph) ]]).
  - split; [|by rewrite lookup_insert_eq]. destruct (graphs m !! g) eqn:E; [|done].
    assert (is_Some (groups m !! g)) as [? ?] by (apply Hg; rewrite E; eauto). congruence.
  - apply users_part_new; [exact Hp|apply Hf].
  - intros g0 Hg0%lookup_insert_is_Some. destruct Hg0 as [<-|[_ Hg0]]; [apply Hf|by apply Hg].
  - eapply users_part_update; try done. by apply (Hq g graph).
  - eapply users_part_update; try done. by apply (Hq g graph).
  - eapply users_part_update; try done. unfold quiet_ok, beginRetirement. cbn.
    destruct (Z.eqb_spec (users graph) 0); cbn; (split; [done|]); [done|].
    destruct (Hc g graph) as [E _]; [done|]. lia.
  - eapply users_part_graph; try done; rewrite ?H; cbn.
    + assert (Hqg := Hq g graph H0). unfold quiet_ok in *. cbn. destruct (quiescent graph); [done|..]; by destruct Hqg as [? _]; congruence.
    + rewrite (bool_decide_eq_true_2 (Some g = Some g)), (bool_decide_eq_false_2 (None = Some g)) by done. cbn. lia.
    + by right.
    + by left.
  - assert (Hu : (0 < users graph)%Z) by (by eapply (Hpos a _ g)).
    destruct (release_ok graph (Hq g graph H0) Hu) as (? & Hu' & Hrd).
    eapply users_part_graph; try done; rewrite ?H; cbn; [congruence| |by left|by right].
    rewrite (bool_decide_eq_true_2 (Some g = Some g)), (bool_decide_eq_false_2 (None = Some g)) by done. cbn. lia.
  - unfold fork in H2. destruct (Z.leb_spec (users graph) 0); [done|]. injection H2 as <-.
    eapply users_part_graph; try done; rewrite ?H0; cbn.
    + assert (Hqg := Hq g graph H1). unfold quiet_ok in *. cbn. destruct (quiescent graph); [done|split; [apply Hqg|lia]|lia].
    + rewrite (bool_decide_eq_true_2 (Some g = Some g)), (bool_decide_eq_false_2 (None = Some g)) by done. cbn. lia.
    + right. split; [done|]. destruct H as [H|H]; (destruct (Hr a _ g H eq_refl) as (gr & Hgr & ?); congruence).
    + by left.
  - assert (Hu : (0 < users graph)%Z) by (by eapply (Hpos a _ g)).
    destruct (release_ok graph (Hq g graph H0) Hu) as (? & Hu' & Hrd).
    eapply users_part_graph; try done; rewrite ?H; cbn; [congruence| |by left|by right].
    rewrite (bool_decide_eq_true_2 (Some g = Some g)), (bool_decide_eq_false_2 (None = Some g)) by done. cbn. lia.
  - apply users_part_same; [apply Hsame; by rewrite H0|]. destruct (decide (a = child)) as [->|]; [congruence|].
    rewrite lookup_insert_ne by done. by rewrite H.
  - apply Hsame. rewrite H. destruct H1 as [[? ->]| ->]; done.
  - apply Hsame. rewrite H. by destruct x.
Qed.

(** ** Owners of a group *)

Definition handled (g : nat) (ag : gmap nat Agent) : nat := count (fun x => bool_decide (handles x = Some g)) ag.

Lemma handled_insert g ag a x :
  (handled g (<[a := x]> ag) + b2n (bool_decide ((ag !! a ≫= handles) = Some g)) =
   b2n (bool_decide (handles x = Some g)) + handled g ag)%nat.
Proof.
  unfold handled. rewrite <-(count_insert (fun x => bool_decide (handles x = Some g)) ag a x).
  by destruct (ag !! a).
Qed.

(** The group that the transaction is to tear down or to hand over. *)
Definition txn_handles (t : Transaction) : option nat :=
  match t with
  | Building _ g _ _ | Rejecting g _ _ _ | Retiring g _ | Awaiting g _ | TearingDown g _ _ => Some g
  | Activating _ previous _ => previous
  | _ => None
  end.

(** How many own the group: the active pointer, the transaction, agents. *)
Definition owners (g : nat) (m : Manager) : nat :=
  (handled g (agents m) + b2n (bool_decide (txn_handles (transaction m) = Some g)) +
   b2n (bool_decide (active m = Some g)))%nat.

Record owners_ok (m : Manager) : Prop := {
  oo_one : forall g, (owners g m <= 1)%nat;
  oo_known : forall g, owners g m <> 0%nat -> is_Some (groups m !! g);
  oo_txn : match transaction m with
           | Building _ _ previous _ | Rejecting _ previous _ _ => previous = active m
           | Activating g _ _ => active m = Some g
           | _ => True
           end;
}.

Lemma owner_agent g m a x : owners_ok m -> agents m !! a = Some x -> handles x = Some g ->
  txn_handles (transaction m) <> Some g /\ active m <> Some g /\
  forall b y, agents m !! b = Some y -> handles y = Some g -> b = a.
Proof.
  intros [Hone _ _] Ha Hx. specialize (Hone g). unfold owners in Hone.
  assert (Hp : (0 < handled g (agents m))%nat) by (eapply count_pos; [exact Ha|by apply bool_decide_eq_true]).
  split_and!.
  - intros E. rewrite (bool_decide_eq_true_2 (txn_handles _ = _)) in Hone by done. cbn in Hone. lia.
  - intros E. rewrite (bool_decide_eq_true_2 (active _ = _)) in Hone by done. cbn in Hone. lia.
  - intros b y Hb Hy. destruct (decide (b = a)) as [|Hne]; [done|]. exfalso.
    pose proof (handled_insert g (agents m) a Ended) as Hi. rewrite Ha in Hi. cbn [mbind option_bind] in Hi.
    rewrite Hx, (bool_decide_eq_true_2 (Some g = Some g)), (bool_decide_eq_false_2 (handles Ended = Some g)) in Hi by done.
    cbn in Hi. assert (Hp' : (0 < handled g (<[a := Ended]> (agents m)))%nat).
    { eapply count_pos; [by rewrite lookup_insert_ne|by apply bool_decide_eq_true]. }
    unfold handled in *. lia.
Qed.

Ltac agent_counts g :=
  repeat match goal with
  | |- context [handled g (<[?a := ?x]> ?ag)] =>
      let H := fresh "Hins" in pose proof (handled_insert g ag a x) as H; cbn [handles] in H;
      let n := fresh "n" in set (n := handled g (<[a := x]> ag)) in *; clearbody n
  end.

Lemma b2n_none (g : nat) (d : Decision (None = Some g)) : b2n (bool_decide (None = Some g)) = 0%nat.
Proof. by rewrite bool_decide_eq_false_2. Qed.

Lemma b2n_some (g : nat) (d : Decision (Some g = Some g)) : b2n (bool_decide (Some g = Some g)) = 1%nat.
Proof. by rewrite bool_decide_eq_true_2. Qed.

Ltac count_lia :=
  repeat match goal with
  | H : agents ?m !! ?a = _, Hi : context [agents ?m !! ?a] |- _ => rewrite H in Hi; cbn [mbind option_bind handles] in Hi
  end;
  rewrite ?b2n_none in *; lia.

Lemma owners_ok_step m m' evs factories : users_ok m -> owners_ok m -> transition factories m m' evs -> owners_ok m'.
Proof.
  intros Hu [Hone Hk Ht] H.
  assert (Hmk : (forall g, (owners g m' <= owners g m)%nat \/ (owners g m' <= 1)%nat /\ is_Some (groups m' !! g)) /\
    (forall g, is_Some (groups m !! g) -> is_Some (groups m' !! g)) /\
    match transaction m' with
    | Building _ _ previous _ | Rejecting _ previous _ _ => previous = active m'
    | Activating g _ _ => active m' = Some g
    | _ => True
    end).
  2:{ destruct Hmk as (H1 & H2 & H3). split; [| |exact H3].
      - intros g. specialize (Hone g). destruct (H1 g); lia.
      - intros g Hg. destruct (H1 g) as [?|[_ ?]]; [|done]. apply H2, Hk. lia. }
  unfold owners in *. rule_cases H; cbn [graphs agents groups transaction active with_txn with_group with_graph with_agent
    with_active with_closed with_pending with_async with_reports finish txn_handles] in *;
    try match goal with E : transaction m = _ |- _ => rewrite E in *; cbn [txn_handles] in * end;
    (split; [intros g0|split; [try done; try (intros; by apply insert_is_Some)|try done; try exact Ht]]).
  all: try (left; count_lia).
  all: try (left; agent_counts g0; count_lia).
  - destruct (decide (g0 = g)) as [->|Hne].
    + right. split; [|rewrite lookup_insert_eq; eauto]. rewrite b2n_some. specialize (Hk g). rewrite b2n_none, H4 in Hk.
      destruct (decide (handled g (agents m) + 0 + b2n (bool_decide (active m = Some g)) = 0)%nat) as [E|E]; [lia|].
      by destruct (Hk E).
    + left. rewrite (bool_decide_eq_false_2 (Some g = Some g0)) by congruence. cbn. lia.
  - left. rewrite Ht. lia.
  - left. rewrite H0. count_lia.
  - left. agent_counts g0. rewrite H2 in *. count_lia.
  - left. pose proof (handled_insert g0 (<[child:=AwaitRetry g]> (agents m)) a AsyncDone) as H2.
    pose proof (handled_insert g0 (agents m) child (AwaitRetry g)) as H3.
    rewrite lookup_insert_ne, H in H2 by congruence. rewrite H0 in H3. cbn [mbind option_bind handles] in *. count_lia.
  - left. agent_counts g0. assert (handles x = None) as Hx by (destruct H1 as [[? ->]| ->]; done). rewrite Hx in *. count_lia.
  - left. agent_counts g0. assert (handles x = None) as Hx by (by destruct x). rewrite Hx in *. count_lia.
Qed.

(** ** How graphs and groups change *)

(** What no step takes back. *)
Definition graph_le (gr gr' : Graph) : Prop :=
  gr_config gr' = gr_config gr /\ gr_generation gr' = gr_generation gr /\ (ready gr = true -> ready gr' = true) /\
  (retired gr = true -> retired gr' = true) /\ (quiescent gr = Quiescent -> quiescent gr' = Quiescent).

Lemma graph_le_refl gr : graph_le gr gr.
Proof. by split_and!. Qed.

#[export] Hint Resolve graph_le_refl : claw.

Lemma release_le gr : graph_le gr (release gr).
Proof.
  unfold release. destruct (_ <=? _)%Z; [apply graph_le_refl|]. split_and!; try done. cbn. intros ->. by destruct (_ && _).
Qed.

Lemma fork_le gr gr' : fork gr = Some gr' -> graph_le gr gr'.
Proof. unfold fork. destruct (_ <=? _)%Z; [done|]. by intros [= <-]. Qed.

Lemma beginRetirement_le gr : quiet_ok gr -> graph_le gr (beginRetirement gr).
Proof. unfold beginRetirement, quiet_ok. intros H. split_and!; try done. cbn. intros E. rewrite E in H. by destruct H as [_ ->]. Qed.

Lemma graph_stable factories m m' evs g gr :
  users_ok m -> transition factories m m' evs -> graphs m !! g = Some gr ->
  exists gr', graphs m' !! g = Some gr' /\ graph_le gr gr'.
Proof.
  intros [Hc _ _ Hf] H Hg. assert (Hq := proj2 (Hc g gr Hg)).
  assert (Hins : forall g' gr' gr0, graphs m !! g' = Some gr0 -> (g' = g -> graph_le gr gr') ->
    exists gr'', <[g' := gr']> (graphs m) !! g = Some gr'' /\ graph_le gr gr'').
  { intros g' gr' gr0 _ Hle. destruct (decide (g' = g)) as [->|Hne].
    - rewrite lookup_insert_eq. eauto.
    - rewrite lookup_insert_ne by done. eauto with claw. }
  rule_cases H; cbn [graphs agents groups transaction active with_txn with_group with_graph with_agent
    with_active with_closed with_pending with_async with_reports finish] in *; eauto with claw;
    try (eapply Hins; [eassumption|]; intros ->; simplify_eq; auto using release_le, beginRetirement_le with claw; by split_and!).
  - rewrite H in Hf. destruct (decide (g0 = g)) as [->|Hne]; [by destruct Hf; congruence|]. rewrite lookup_insert_ne by done. eauto with claw.
  - eapply Hins; [eassumption|]. intros ->. simplify_eq. by apply fork_le.
Qed.

(** A graph that a step adds is the one under construction. *)
Lemma graph_new factories m m' evs g gr' :
  transition factories m m' evs -> graphs m' !! g = Some gr' -> graphs m !! g = None ->
  exists c previous, transaction m = Building c g previous [] /\ gr' = newGraph c (next_generation m previous) /\
    transaction m' = Activating g previous 0 /\ groups m' = groups m.
Proof.
  intros H Hg Hn.
  assert (Hins : forall g' gr0 x, graphs m !! g' = Some gr0 -> <[g' := x]> (graphs m) !! g = Some gr' -> False).
  { intros g' gr0 x Hg' Hl. destruct (decide (g' = g)) as [->|Hne]; [congruence|]. rewrite lookup_insert_ne in Hl by done. congruence. }
  rule_cases H; cbn [graphs agents groups transaction active with_txn with_group with_graph with_agent
    with_active with_closed with_pending with_async with_reports finish] in *; try congruence; try (exfalso; by eapply Hins).
  destruct (decide (g0 = g)) as [->|Hne]; [|rewrite lookup_insert_ne in Hg by done; congruence].
  rewrite lookup_insert_eq in Hg. injection Hg as <-. exists c, previous. by split_and!.
Qed.

(** Somebody is in the middle of tearing the group down. *)
Definition tearer (m : Manager) (g : nat) (p : Progress) : Prop :=
  (exists previous err, transaction m = Rejecting g previous err p) \/
  (exists why, transaction m = TearingDown g why p) \/
  exists a, (exists r, agents m !! a = Some (AsyncTeardown g r p)) \/ agents m !! a = Some (Retrying g p).

Inductive group_step (m m' : Manager) (evs : list Event) : Prop :=
| gs_same : groups m' = groups m -> owned m' = owned m ->
    (forall c, ECalled c ∈ evs -> False) -> group_step m m' evs
| gs_new g : groups m !! g = None -> groups m' = <[g := []]> (groups m) -> owned m' = owned m -> evs = [] ->
    (exists c previous fs, transaction m' = Building c g previous fs) -> group_step m m' evs
| gs_build c g previous f fs p es o err :
    transaction m = Building c g previous (f :: fs) -> build_factory f p (entries_of m g) (owned m) = (es, o, err) ->
    groups m' = <[g := es]> (groups m) -> owned m' = o ->
    (match err with
     | None => transaction m' = Building c g previous fs
     | Some e => transaction m' = Rejecting g previous e (start_teardown m' g)
     end) ->
    (exists input, evs = [ECalled (mkCalled g (f_Name f) (Prepare input))]) -> group_step m m' evs
| gs_activate g previous i e :
    transaction m = Activating g previous i -> entries_of m g !! i = Some e ->
    groups m' = <[g := set_nth i set_active (entries_of m g)]> (groups m) -> owned m' = owned m ->
    transaction m' = Activating g previous (S i) -> evs = [ECalled (mkCalled g (e_name e) Activate)] ->
    group_step m m' evs
| gs_tear fails g p a rest td :
    tearer m g p -> todo p = a :: rest ->
    td = do_action fails g a (mkTeardown (entries_of m g) (owned m) (result p) []) ->
    groups m' = <[g := td_entries td]> (groups m) -> owned m' = td_owned td -> evs = ECalled <$> td_calls td ->
    tearer m' g (mkProgress rest (td_result td)) -> group_step m m' evs.

Lemma transition_groups factories m m' evs : transition factories m m' evs -> group_step m m' evs.
Proof.
  intros H.
  assert (Hnone : forall c, ECalled c ∈ ([] : list Event) -> False) by (by intros c ?%elem_of_nil).
  rule_cases H; try (by apply gs_same); cbn [finish with_txn] in *.
  - eapply gs_new; try done. cbn. eauto.
  - eapply gs_build; try done. eauto.
  - eapply gs_build; try done. eauto.
  - by eapply gs_activate.
  - apply (gs_tear _ _ _ fails g p x x0 x1); try done; left; cbn; eauto.
  - apply (gs_tear _ _ _ fails g p x x0 x1); try done; right; left; cbn; eauto.
  - apply gs_same; try done. intros c0 Hc. destruct batch; [by apply elem_of_nil in Hc|].
    by apply list_elem_of_singleton in Hc.
  - apply (gs_tear _ _ _ fails g p x x0 x1); try done; right; right; exists a; [by eauto|].
    left. exists r. cbn. by rewrite lookup_insert_eq.
  - apply gs_same; try done. intros c0 Hc. by apply list_elem_of_singleton in Hc.
  - apply gs_same; try done. intros c0 Hc. by apply list_elem_of_singleton in Hc.
  - apply (gs_tear _ _ _ fails g p x x0 x1); try done; right; right; exists a; right; [done|].
    cbn. by rewrite lookup_insert_eq.
  - apply gs_same; try done. intros c0 Hc. rewrite Forall_forall in H2. by destruct (H2 _ Hc) as [[? _]|?].
  - apply gs_same; try done. intros c0 Hc. rewrite Forall_forall in H3. specialize (H3 _ Hc). by destruct o.
  - apply gs_same; try done. intros c0 Hc. by apply list_elem_of_fmap in Hc as (? & ? & _).
Qed.
