(* ===== verification/ManagerInvariants.v ===== *)
(** * Ownership and clean-up in the runtime manager

    The second half of the invariants: entries and the components they own, the
    entries of a graph that can still be used, teardowns under way, and the
    bookkeeping of pending clean-ups. *)
From stdpp Require Import base list gmap strings.
From Stdlib Require Import ZArith Lia.
From S2P Require Import Prelude GoStrings Taxonomy RoutingPlan RuntimeGraph ReportSpool RuntimeManager ManagerFacts.

(** ** Entries *)

(** A call of a teardown. *)
Definition is_teardown (c : Call) : bool := match c with StopIntake | Drain | Close | Cleanup _ _ => true | _ => false end.

Section Entries.
Context (fails : Called -> bool) (g : nat).

Lemma stop_entry_ok e : entry_ok e -> entry_ok (stop_attempted fails g e).
Proof.
  intros H. pose proof (stop_entry_calls fails g e) as (_ & (_ & Hc & Hi & _) & _ & Hcl & Hm).
  fold (stop_attempted fails g e) in *. unfold entry_ok, has_component in *. rewrite Hc, Hi, Hcl, Hm. exact H.
Qed.

Lemma finished_ok e : entry_ok e -> entry_ok (finished fails g e).
Proof.
  intros (H1 & H2 & H3). destruct (finish_entry_spec fails g e) as (_ & _ & (_ & Hc & Hi & _) & _ & Hm & Hcl & _).
  unfold entry_ok, has_component in *. rewrite Hc, Hi, Hm, Hcl. split_and!.
  - intros [? _]%andb_true_iff. by apply H1.
  - intros Hh Hcf Hv. pose proof Hcf as [Hc0 _]%orb_false_iff. rewrite H2 by done. unfold releases. rewrite Hcl, Hcf.
    by rewrite andb_false_r.
  - intros [?|[Hd _]%andb_true_iff]%orb_true_iff; [by apply H3|]. unfold close_due, has_component in Hd.
    by apply andb_true_iff in Hd as [? _].
Qed.

(** What one iteration of a teardown does to an entry. *)
Lemma action_entry a es o r :
  let td := do_action fails g a (mkTeardown es o r []) in
  length (td_entries td) = length es /\
  Forall (fun c => group c = g /\ is_teardown (call c) = true) (td_calls td) /\
  ((td_entries td = es /\ td_owned td = o /\ td_result td = r /\ (forall i, a = StopAt i \/ a = FinishAt i -> es !! i = None)) \/
   exists i e, (a = StopAt i \/ a = FinishAt i) /\ es !! i = Some e /\
     let e' := match a with StopAt _ => stop_attempted fails g e | FinishAt _ => finished fails g e end in
     td_entries td = <[i := e']> es /\
     td_owned td = (match a with
                    | StopAt _ => o
                    | FinishAt _ => if releases fails g e then releaseComponent o (identity e) else o
                    end) /\
     (failed (td_result td) = false -> failed r = false /\ existsb fails (td_calls td) = false) /\
     (match a with StopAt _ => True | FinishAt _ => td_calls td = finish_calls fails g e end)).
Proof.
  assert (Hwhen : forall due n c, is_teardown c = true -> Forall (fun c => group c = g /\ is_teardown (call c) = true) (when g due n c)).
  { intros due n c Hc. unfold when. destruct due; repeat constructor. exact Hc. }
  assert (Hclean : forall n cs k, Forall (fun c => group c = g /\ is_teardown (call c) = true) (snd (clean_children fails g n cs k))).
  { intros n cs k. induction k as [|k IH]; [constructor|]. cbn. destruct (cs !! k); [|constructor].
    destruct (clean_children fails g n cs k). cbn in *. by constructor. }
  assert (Hrec : forall n err, failed (record_error r n err) = false -> failed r = false /\ err = false).
  { intros n err. unfold record_error. destruct err, (failed r) eqn:E; cbn; try done; by rewrite ?E. }
  cbv zeta. destruct a as [i|i]; cbn [do_action td_entries]; (destruct (es !! i) as [e|] eqn:Ei; cbn [td_entries td_owned td_result td_calls];
    [|split; [done|split; [constructor|left; split_and!; [done..|intros j [E|E]; congruence]]]]).
  - rewrite stop_entry_eq. cbn [td_entries td_owned td_result td_calls td_calls app].
    split; [by rewrite length_insert|]. split; [by apply Hwhen|]. right. exists i, e. split_and!; auto. intros Hf. by apply Hrec in Hf.
  - rewrite finish_entry_eq. cbn [td_entries td_owned td_result td_calls td_calls app].
    split; [by rewrite length_insert|]. split.
    { unfold finish_calls. apply Forall_app. split; [by apply Hwhen|]. apply Forall_app. split; [by apply Hwhen|apply Hclean]. }
    right. exists i, e. split_and!; auto. intros Hf. by apply Hrec in Hf.
Qed.

(** An entry whose second part went through without an error owns nothing. *)
Lemma finished_clean e : entry_ok e -> existsb fails (finish_calls fails g e) = false -> owns (finished fails g e) = false.
Proof.
  intros (H1 & H2 & H3) Hf. destruct (finish_entry_spec fails g e) as (_ & _ & (_ & Hc & _) & _ & Hm & Hcl & Hch).
  unfold finish_calls in Hf. rewrite !existsb_app in Hf. apply orb_false_iff in Hf as [_ [Hclose Hkids]%orb_false_iff].
  destruct (clean_children_spec fails g (e_name e) (children e) (length (children e))) as [[_ Hk] _]; [lia|].
  rewrite Hkids in Hk. rewrite <-Hch in Hk.
  assert (Hn : children (finished fails g e) = []) by (destruct (children (finished fails g e)); done).
  assert (Hcl' : has_component e = true -> closed (finished fails g e) = true).
  { intros Hh. rewrite Hcl. unfold when, close_due in *. rewrite Hh in *. destruct (closed e); [done|]. cbn in *.
    by rewrite orb_false_r in Hclose; rewrite Hclose. }
  unfold owns. rewrite Hn. cbn [length Nat.ltb Nat.leb]. rewrite orb_false_r.
  unfold has_component in *. rewrite Hc. apply orb_false_iff. split.
  - destruct (component e); [done|..]; by rewrite Hcl'.
  - rewrite Hm. destruct (claimed e) eqn:E; [|done]. unfold releases. rewrite E, Hn, Hcl'; [done|]. by rewrite H1.
Qed.
End Entries.

(** The entry that a factory adds. *)
Lemma build_factory_spec f p es o es' o' err :
  build_factory f p es o = (es', o', err) ->
  (es' = es /\ o' = o /\ err <> None) \/
  exists e, es' = es ++ [e] /\ e_name e = f_Name f /\ entry_ok e /\ started e = false /\ closed e = false /\
    (claimed e = true -> identity e ∉ o /\ o' = {[ identity e ]} ∪ o) /\ (claimed e = false -> o' = o) /\
    (err = None -> claimed e = true /\ validComponent (component e) = true).
Proof.
  unfold build_factory. cbn [seal]. unfold claimComponent.
  assert (Hk : forall es2 (refused : bool) c (o2 : gset componentIdentity),
    match p_error p with
    | Some e => (es2, o2, Some (mkGraphError ErrorInitialization "" (f_Name f)
         (if is_Canceled e || is_DeadlineExceeded e then Some (contextIdentity e) else None)))
    | None => if refused || negb (validComponent c) then (es2, o2, Some (mkGraphError ErrorInitialization "" (f_Name f) None))
              else (es2, o2, None)
    end = (es', o', err) ->
    es' = es2 /\ o' = o2 /\ (err = None -> refused = false /\ validComponent c = true)).
  { intros es2 refused c o2. destruct (p_error p); [by intros [= <- <- <-]|].
    destruct (refused || negb (validComponent c)) eqn:E; intros [= <- <- <-]; (split_and!; try done).
    apply orb_false_iff in E as [-> ?%negb_false_iff]. done. }
  destruct (p_component p) as [| |i]; [| |case_bool_decide as Hi]; intros H; apply Hk in H as (-> & -> & He); clear Hk;
    cbn [validComponent orb negb] in *.
  1-3: destruct (0 <? length _)%nat eqn:El; [right; eexists; split; [done|]; cbn; split_and!; try done;
         intros E; by destruct (He E)|left; split_and!; [done..|intros E; by destruct (He E)]].
  right. eexists. split; [done|]. cbn. split_and!; try done.
Qed.

(** ** Owned components *)

Record own_ok (m : Manager) : Prop := {
  ow_entry : forall g i e, entries_of m g !! i = Some e -> entry_ok e;
  ow_owned : forall g i e, entries_of m g !! i = Some e -> claimed e = true -> identity e ∈ owned m;
  ow_one : forall g i e g' i' e', entries_of m g !! i = Some e -> entries_of m g' !! i' = Some e' ->
    claimed e = true -> claimed e' = true -> identity e = identity e' -> g = g' /\ i = i';
  ow_claimed : forall d, d ∈ owned m -> exists g i e, entries_of m g !! i = Some e /\ claimed e = true /\ identity e = d;
}.

Lemma entries_of_insert m m' g es g' :
  groups m' = <[g := es]> (groups m) -> entries_of m' g' = if decide (g = g') then es else entries_of m g'.
Proof.
  intros H. unfold entries_of. rewrite H. destruct (decide (g = g')) as [->|Hne]; [by rewrite lookup_insert_eq|].
  by rewrite lookup_insert_ne.
Qed.

(** The ownership part of a state. *)
Definition own_part (entries : nat -> list componentEntry) (o : gset componentIdentity) : Prop :=
  (forall g i e, entries g !! i = Some e -> entry_ok e) /\
  (forall g i e, entries g !! i = Some e -> claimed e = true -> identity e ∈ o) /\
  (forall g i e g' i' e', entries g !! i = Some e -> entries g' !! i' = Some e' ->
    claimed e = true -> claimed e' = true -> identity e = identity e' -> g = g' /\ i = i') /\
  (forall d, d ∈ o -> exists g i e, entries g !! i = Some e /\ claimed e = true /\ identity e = d).

Lemma own_part_ok m : own_ok m <-> own_part (entries_of m) (owned m).
Proof. split; [by intros [? ? ? ?]|by intros (? & ? & ? & ?)]. Qed.

(** One entry of one group changes without its identity. *)
Lemma own_part_alter entries o g i e e' o' entries' :
  own_part entries o -> entries g !! i = Some e -> entry_ok e' -> identity e' = identity e ->
  (claimed e' = true -> claimed e = true) ->
  o' = (if claimed e && negb (claimed e') then o ∖ {[ identity e ]} else o) ->
  (forall g', entries' g' = if decide (g = g') then <[i := e']> (entries g) else entries g') ->
  own_part entries' o'.
Proof.
  intros (H1 & H2 & H3 & H4) He Hok Hid Hm -> Hes.
  assert (Hl : forall g' i' x, entries' g' !! i' = Some x ->
    (g' = g /\ i' = i /\ x = e') \/ ((g' <> g \/ i' <> i) /\ entries g' !! i' = Some x)).
  { intros g' i' x. rewrite Hes. destruct (decide (g = g')) as [<-|Hne]; [|by intros; right; auto].
    destruct (decide (i' = i)) as [->|Hne].
    - rewrite list_lookup_insert_eq by by eapply lookup_lt_Some. intros [= <-]. by left.
    - rewrite list_lookup_insert_ne by done. auto. }
  assert (Hother : forall g' i' x, g' <> g \/ i' <> i -> entries g' !! i' = Some x -> entries' g' !! i' = Some x).
  { intros g' i' x Hne Hx. rewrite Hes. destruct (decide (g = g')) as [<-|]; [|done]. destruct Hne as [?|?]; [done|].
    by rewrite list_lookup_insert_ne. }
  assert (Hself : entries' g !! i = Some e').
  { rewrite Hes, decide_True by done. apply list_lookup_insert_eq. by eapply lookup_lt_Some. }
  split_and!.
  - intros g' i' x [(-> & -> & ->)|[_ Hx]]%Hl; [done|by eapply H1].
  - intros g' i' x [(-> & -> & ->)|[Hne Hx]]%Hl Hc.
    + rewrite Hid, Hc, andb_false_r. by eapply H2; eauto.
    + assert (Hx' := H2 _ _ _ Hx Hc). destruct (claimed e && negb (claimed e')) eqn:E; [|done].
      apply andb_true_iff in E as [Ec _]. apply elem_of_difference. split; [done|]. intros Heq%elem_of_singleton.
      destruct (H3 _ _ _ _ _ _ Hx He Hc Ec Heq) as [-> ->]. naive_solver.
  - intros g1 i1 x1 g2 i2 x2 Hx1 Hx2 Hc1 Hc2 Heq. apply Hl in Hx1 as [(-> & -> & ->)|[Hn1 Hx1]], Hx2 as [(-> & -> & ->)|[Hn2 Hx2]].
    + done.
    + rewrite Hid in Heq. destruct (H3 _ _ _ _ _ _ He Hx2 (Hm Hc1) Hc2 Heq) as [-> ->]. naive_solver.
    + rewrite Hid in Heq. destruct (H3 _ _ _ _ _ _ Hx1 He Hc1 (Hm Hc2) Heq) as [-> ->]. naive_solver.
    + by eapply H3.
  - intros d Hd. destruct (claimed e && negb (claimed e')) eqn:E.
    + apply elem_of_difference in Hd as [Hd Hne]. destruct (H4 d Hd) as (g1 & i1 & x & Hx & Hc & Hi).
      exists g1, i1, x. split; [|done]. apply Hother; [|done].
      destruct (decide (g1 = g)) as [->|]; [|by left]. destruct (decide (i1 = i)) as [->|]; [|by right].
      exfalso. apply Hne, elem_of_singleton. congruence.
    + destruct (H4 d Hd) as (g1 & i1 & x & Hx & Hc & Hi). destruct (decide (g1 = g /\ i1 = i)) as [[-> ->]|Hne].
      * assert (x = e) as -> by congruence. exists g, i, e'. split; [done|]. split; [|by rewrite Hid].
        rewrite Hc in E. by apply negb_false_iff in E.
      * exists g1, i1, x. split; [|done]. apply Hother; [|done]. destruct (decide (g1 = g)); [right|by left]. naive_solver.
Qed.

Lemma own_part_ext entries entries' o : own_part entries o -> (forall g, entries' g = entries g) -> own_part entries' o.
Proof.
  intros (H1 & H2 & H3 & H4) He. split_and!.
  - intros g i e. rewrite He. apply H1.
  - intros g i e. rewrite He. apply H2.
  - intros g i e g' i' e'. rewrite !He. apply H3.
  - intros d Hd. destruct (H4 d Hd) as (g & i & e & ?). exists g, i, e. by rewrite He.
Qed.

(** A new entry, with a component nobody owned. *)
Lemma own_part_add entries o g e o' entries' :
  own_part entries o -> entry_ok e -> (claimed e = true -> identity e ∉ o /\ o' = {[ identity e ]} ∪ o) ->
  (claimed e = false -> o' = o) ->
  (forall g', entries' g' = if decide (g = g') then entries g ++ [e] else entries g') -> own_part entries' o'.
Proof.
  intros (H1 & H2 & H3 & H4) Hok Hc Hn Hes.
  assert (Hl : forall g' i' x, entries' g' !! i' = Some x ->
    (g' = g /\ i' = length (entries g) /\ x = e) \/ entries g' !! i' = Some x).
  { intros g' i' x. rewrite Hes. destruct (decide (g = g')) as [<-|Hne]; [|auto].
    intros [?|[? Hx]]%lookup_app_Some; [auto|]. apply list_lookup_singleton_Some in Hx as [? <-]. left. split_and!; [done|lia|done]. }
  assert (Hold : forall g' i' x, entries g' !! i' = Some x -> entries' g' !! i' = Some x).
  { intros g' i' x Hx. rewrite Hes. destruct (decide (g = g')) as [<-|]; [|done]. by apply lookup_app_l_Some. }
  assert (Ho : o ⊆ o') by (destruct (claimed e); [destruct (Hc eq_refl) as [_ ->]; set_solver|by rewrite Hn]).
  assert (Hfresh : forall g' i' x, entries g' !! i' = Some x -> claimed x = true -> claimed e = true -> identity x <> identity e).
  { intros g' i' x Hx Hcx Hce Heq. destruct (Hc Hce) as [Hno _]. apply Hno. rewrite <-Heq. by eapply H2. }
  split_and!.
  - intros g' i' x [(-> & -> & ->)|Hx]%Hl; [done|by eapply H1].
  - intros g' i' x [(-> & -> & ->)|Hx]%Hl Hcx; [destruct (Hc Hcx) as [_ ->]; set_solver|by eapply Ho, H2].
  - intros g1 i1 x1 g2 i2 x2 [(-> & -> & ->)|Hx1]%Hl [(-> & -> & ->)|Hx2]%Hl Hc1 Hc2 Heq; [done|..].
    + symmetry in Heq. by destruct (Hfresh _ _ _ Hx2 Hc2 Hc1).
    + by destruct (Hfresh _ _ _ Hx1 Hc1 Hc2).
    + by eapply H3.
  - intros d Hd. destruct (claimed e) eqn:E.
    + destruct (Hc eq_refl) as [_ ->]. apply elem_of_union in Hd as [->%elem_of_singleton|Hd].
      * exists g, (length (entries g)), e. split; [|done]. rewrite Hes, decide_True by done. by rewrite lookup_app_r, Nat.sub_diag.
      * destruct (H4 d Hd) as (g' & i' & x & ? & ?). eauto 10.
    + rewrite Hn in Hd by done. destruct (H4 d Hd) as (g' & i' & x & ? & ?). eauto 10.
Qed.

Lemma set_active_ok e : entry_ok e -> entry_ok (set_active e).
Proof. done. Qed.

Lemma own_ok_step factories m m' evs : own_ok m -> transition factories m m' evs -> own_ok m'.
Proof.
  rewrite !own_part_ok. intros Ho H. apply transition_groups in H. destruct H as
    [Hg Hw _|g Hn Hg Hw _ _|c g previous f fs p es o err _ Hb Hg Hw _ _|g previous i e _ Hi Hg Hw _ _|fails g p a rest td _ _ -> Hg Hw _ _].
  - rewrite Hw. apply (own_part_ext _ _ _ Ho). intros g. unfold entries_of. by rewrite Hg.
  - rewrite Hw. apply (own_part_ext _ _ _ Ho). intros g'. rewrite (entries_of_insert _ _ _ _ _ Hg).
    destruct (decide (g = g')) as [<-|]; [|done]. unfold entries_of. by rewrite Hn.
  - rewrite Hw. destruct (build_factory_spec _ _ _ _ _ _ _ Hb) as [(-> & -> & _)|(e & -> & _ & Hok & _ & _ & Hc & Hn & _)].
    + apply (own_part_ext _ _ _ Ho). intros g'. rewrite (entries_of_insert _ _ _ _ _ Hg). by destruct (decide (g = g')) as [<-|].
    + eapply own_part_add; try done. intros g'. apply (entries_of_insert _ _ _ _ _ Hg).
  - rewrite Hw. pose proof (proj1 Ho _ _ _ Hi) as Hok. eapply (own_part_alter _ _ g i e (set_active e)); try done.
    + by destruct (claimed e) eqn:E; cbn; rewrite ?E.
    + intros g'. rewrite (entries_of_insert _ _ _ _ _ Hg). destruct (decide (g = g')); [|done]. subst. unfold set_nth.
      apply list_eq. intros j. destruct (decide (j = i)) as [->|Hne].
      * rewrite list_lookup_alter_eq, Hi, list_lookup_insert_eq by (by eapply lookup_lt_Some). done.
      * by rewrite list_lookup_alter_ne, list_lookup_insert_ne.
  - destruct (action_entry fails g a (entries_of m g) (owned m) (result p)) as (_ & _ & [(He & Hw' & _)|(i & e & Ha & Hi & He & Hw' & _)]).
    + rewrite Hw, Hw'. apply (own_part_ext _ _ _ Ho). intros g'. rewrite (entries_of_insert _ _ _ _ _ Hg), He.
      by destruct (decide (g = g')) as [<-|].
    + pose proof (proj1 Ho _ _ _ Hi) as Hok. rewrite Hw, Hw'.
      pose proof (stop_entry_calls fails g e) as (_ & (_ & _ & Hsi & _) & _ & _ & Hsm). fold (stop_attempted fails g e) in *.
      destruct (finish_entry_spec fails g e) as (_ & _ & (_ & _ & Hfi & _) & _ & Hfm & _).
      destruct Ha as [->| ->].
      * eapply (own_part_alter _ _ g i e (stop_attempted fails g e)); try done; [by apply stop_entry_ok|congruence| |].
        { rewrite Hsm. by destruct (claimed e). }
        intros g'. rewrite (entries_of_insert _ _ _ _ _ Hg), He. done.
      * eapply (own_part_alter _ _ g i e (finished fails g e)); try done; [by apply finished_ok| | |].
        { rewrite Hfm. by intros [? _]%andb_true_iff. }
        { rewrite Hfm. unfold releases. destruct (claimed e); cbn; [|done]. by rewrite negb_involutive. }
        intros g'. rewrite (entries_of_insert _ _ _ _ _ Hg), He. done.
Qed.

Lemma own_ok_initial factories config : own_ok (initial factories config).
Proof.
  assert (H : forall g i e, entries_of (initial factories config) g !! i = Some e -> False).
  { intros g i e. unfold entries_of. cbn. destruct (decide (g = 0%nat)) as [->|].
    - by rewrite lookup_singleton_eq.
    - by rewrite lookup_singleton_ne. }
  split; [by intros ? ? ? ?%H|by intros ? ? ? ?%H|by intros ? ? ? ? ? ? ?%H|]. intros d Hd. by apply elem_of_empty in Hd.
Qed.
