(* ===== verification/ManagerCleanup.v ===== *)
(** * Clean-up of the generations of the runtime manager

    Every group that still owns something has somebody to clean it up: the
    active pointer, the transaction, or one goroutine.  A teardown without an
    error leaves nothing; a teardown only starts when the last user is gone. *)
From stdpp Require Import base list gmap strings.
From Stdlib Require Import ZArith Lia.
From S2P Require Import Prelude GoStrings Taxonomy RoutingPlan RuntimeGraph ReportSpool RuntimeManager ManagerFacts ManagerInvariants.

(** ** Who tears down *)

(** The teardown that an agent has under way. *)
Definition tearing (x : Agent) : option (nat * Progress) :=
  match x with AsyncTeardown g _ p | Retrying g p => Some (g, p) | _ => None end.

Definition txn_tearing (t : Transaction) : option (nat * Progress) :=
  match t with Rejecting g _ _ p | TearingDown g _ p => Some (g, p) | _ => None end.

Lemma tearer_iff m g p :
  tearer m g p <-> txn_tearing (transaction m) = Some (g, p) \/ exists a x, agents m !! a = Some x /\ tearing x = Some (g, p).
Proof.
  unfold tearer. split.
  - intros [(? & ? & ->)|[(? & ->)|(a & [(r & Ha)|Ha])]]; cbn; eauto 10.
  - intros [H|(a & x & Ha & Hx)].
    + destruct (transaction m); try done; cbn in H; injection H as -> ->; eauto.
    + destruct x; try done; cbn in Hx; injection Hx as -> ->; eauto 10.
Qed.

Lemma tearer_handles m g p : tearer m g p ->
  txn_handles (transaction m) = Some g \/ exists a x, agents m !! a = Some x /\ handles x = Some g.
Proof.
  rewrite tearer_iff. intros [H|(a & x & Ha & Hx)].
  - left. destruct (transaction m); try done; cbn in *; by injection H as -> _.
  - right. exists a, x. split; [done|]. destruct x; try done; cbn in *; by injection Hx as -> _.
Qed.

Lemma tearer_owner m g p : owners_ok m -> tearer m g p -> (0 < owners g m)%nat.
Proof.
  intros _ [H|(a & x & Ha & Hx)]%tearer_handles; unfold owners.
  - rewrite bool_decide_eq_true_2 by done. cbn. lia.
  - assert (0 < handled g (agents m))%nat; [|lia]. eapply count_pos; [exact Ha|by apply bool_decide_eq_true].
Qed.

Lemma tearing_handles x g p : tearing x = Some (g, p) -> handles x = Some g.
Proof. destruct x; try done; cbn; by intros [= -> _]. Qed.

Lemma txn_tearing_handles t g p : txn_tearing t = Some (g, p) -> txn_handles t = Some g.
Proof. destruct t; try done; cbn; by intros [= -> _]. Qed.

Lemma tearer_unique m g p p' : owners_ok m -> tearer m g p -> tearer m g p' -> p = p'.
Proof.
  intros Ho [H|(a & x & Ha & Hx)]%tearer_iff [H'|(a' & x' & Ha' & Hx')]%tearer_iff.
  - congruence.
  - destruct (owner_agent g m a' x' Ho Ha') as (Hn & _); [by eapply tearing_handles|]. by apply txn_tearing_handles in H.
  - destruct (owner_agent g m a x Ho Ha) as (Hn & _); [by eapply tearing_handles|]. by apply txn_tearing_handles in H'.
  - destruct (owner_agent g m a x Ho Ha) as (_ & _ & Hu); [by eapply tearing_handles|].
    rewrite (Hu a' x' Ha') in Ha' by (by eapply tearing_handles). congruence.
Qed.

(** One iteration of the teardown of [g]. *)
Definition tear_step (m m' : Manager) (g : nat) (p : Progress) : Prop :=
  exists fails p0 a rest td, tearer m g p0 /\ todo p0 = a :: rest /\
    td = do_action fails g a (mkTeardown (entries_of m g) (owned m) (result p0) []) /\
    groups m' = <[g := td_entries td]> (groups m) /\ owned m' = td_owned td /\ p = mkProgress rest (td_result td).

Lemma tearer_from factories m m' evs g p :
  transition factories m m' evs -> tearer m' g p -> tearer m g p \/ p = start_teardown m' g \/ tear_step m m' g p.
Proof.
  intros H Ht. apply tearer_iff in Ht. unfold tear_step.
  assert (Hold : forall b y, agents m !! b = Some y -> tearing y = Some (g, p) -> tearer m g p)
    by (intros; rewrite tearer_iff; eauto).
  rule_cases H; cbn [graphs agents groups transaction active with_txn with_group with_graph with_agent
    with_active with_closed with_pending with_async with_reports finish txn_tearing owned] in *;
    (destruct Ht as [Ht|(? & ? & Hb & Hy)];
     [try done; try (left; rewrite tearer_iff; by left)
     |repeat match goal with Hl : <[_ := _]> _ !! _ = Some _ |- _ => apply lookup_insert_Some in Hl as [[<- <-]|[_ Hl]] end;
      try done; try (left; by eapply Hold)]).
  all: try (injection Ht as <- <-); try (cbn in Hy; injection Hy as <- <-).
  all: try (right; left; reflexivity).
  all: try (right; right; do 5 eexists; split_and!; [|eassumption|eassumption|reflexivity..]; apply tearer_iff;
    solve [left; by rewrite H|right; by eauto]).
  all: try (left; match goal with E : transaction _ = _ |- _ => rewrite E; reflexivity end).
  all: try (right; eauto; fail).
  all: try (match goal with E : reporting ?y = true |- _ => destruct y; done end).
  all: try (match goal with E : _ \/ _ = Ended |- _ => destruct E as [[? ->]| ->]; done end).
  all: match goal with Hx : handles ?y = None, Hy : tearing ?y = _ |- _ => apply tearing_handles in Hy; congruence end.
Qed.

(** A teardown after a step was there before, has just begun, or made one
    iteration; nobody else touches its group. *)
Lemma tearer_step factories m m' evs g p :
  owners_ok m -> owners_ok m' -> transition factories m m' evs -> tearer m' g p ->
  (tearer m g p /\ groups m' !! g = groups m !! g) \/ p = start_teardown m' g \/ tear_step m m' g p.
Proof.
  intros Ho Ho' H Ht. destruct (tearer_from _ _ _ _ _ _ H Ht) as [Hm|Hm]; [|by right].
  assert (Hno : active m <> Some g /\ (txn_handles (transaction m) = Some g -> txn_tearing (transaction m) = Some (g, p))).
  { apply tearer_iff in Hm as [Hm|(a & x & Ha & Hx)].
    - split; [|done]. intros E. destruct Ho as [Hone _ _]. specialize (Hone g). unfold owners in Hone.
      rewrite (bool_decide_eq_true_2 (active m = _)), (bool_decide_eq_true_2 (txn_handles _ = _)) in Hone
        by (done || by eapply txn_tearing_handles). cbn in Hone. lia.
    - destruct (owner_agent g m a x Ho Ha) as (? & ? & _); [by eapply tearing_handles|]. done. }
  destruct Hno as [Hact Htxn]. assert (Hother : forall g' es, g' <> g -> groups m' = <[g' := es]> (groups m) ->
    tearer m g p /\ groups m' !! g = groups m !! g) by (intros g' es Hne ->; by rewrite lookup_insert_ne).
  pose proof H as Hg. apply transition_groups in Hg. destruct Hg as
    [Hg Hw _|g' Hn Hg Hw _ _|c g' previous f fs p' es o err Hb _ Hg Hw _ _|g' previous i e Ha _ Hg Hw _ _|fails g' p' a rest td Hp Htodo Htd Hg Hw _ Hp'].
  - left. by rewrite Hg.
  - left. apply (Hother _ _) with (2 := Hg). intros ->. pose proof (tearer_owner _ _ _ Ho Hm).
    destruct (oo_known _ Ho g); [lia|]. congruence.
  - left. apply (Hother _ _) with (2 := Hg). intros ->. rewrite Hb in Htxn. by specialize (Htxn eq_refl).
  - left. apply (Hother _ _) with (2 := Hg). intros ->. pose proof (oo_txn _ Ho) as E. by rewrite Ha in E.
  - destruct (decide (g' = g)) as [->|Hne]; [|left; by eapply Hother]. right. right.
    exists fails, p', a, rest, td. split_and!; try done. by eapply tearer_unique.
Qed.

(** ** What a teardown has done *)

(** The entries that are through without an error own nothing. *)
Definition progress_ok (m : Manager) : Prop :=
  forall g p i e, tearer m g p -> failed (result p) = false -> FinishAt i ∉ todo p -> entries_of m g !! i = Some e -> owns e = false.

Lemma owns_stop fails g e : owns (stop_attempted fails g e) = owns e.
Proof.
  pose proof (stop_entry_calls fails g e) as (_ & (_ & Hc & _) & Hch & Hcl & Hm). fold (stop_attempted fails g e) in *.
  unfold owns, has_component. by rewrite Hc, Hch, Hcl, Hm.
Qed.

Lemma finish_in_actions i n : (i < n)%nat -> FinishAt i ∈ teardown_actions n.
Proof.
  intros Hi. unfold teardown_actions. apply elem_of_app. right. apply list_elem_of_fmap. exists i. split; [done|].
  apply elem_of_reverse, elem_of_seq. lia.
Qed.

Lemma progress_ok_step factories m m' evs :
  owners_ok m -> owners_ok m' -> own_ok m -> progress_ok m -> transition factories m m' evs -> progress_ok m'.
Proof.
  intros Ho Ho' Hown Hp H g p i e Ht Hf Hn He.
  destruct (tearer_step _ _ _ _ _ _ Ho Ho' H Ht) as [[Hm Hg]|[->|(fails & p0 & a & rest & td & Hm & Htodo & Htd & Hg & _ & ->)]].
  - apply (Hp g p i e Hm Hf Hn). unfold entries_of in *. by rewrite <-Hg.
  - exfalso. apply Hn. cbn. apply finish_in_actions. by eapply lookup_lt_Some.
  - cbn [todo result] in *. assert (Hes : entries_of m' g = td_entries td) by (rewrite (entries_of_insert _ _ _ _ _ Hg); by rewrite decide_True).
    rewrite Hes in He. subst td.
    destruct (action_entry fails g a (entries_of m g) (owned m) (result p0)) as (Hlen & _ & [(E & _ & Hr & Hnone)|(j & ej & Ha & Hj & E & _ & Hr & Hcalls)]).
    + rewrite E in He. rewrite Hr in Hf. apply (Hp g p0 i e Hm Hf); [|done]. rewrite Htodo. intros [Hia|?]%elem_of_cons; [|done].
      rewrite Hnone in He by auto. done.
    + destruct (Hr Hf) as [Hf0 Hok]. rewrite E in He. destruct (decide (i = j)) as [->|Hne].
      * rewrite list_lookup_insert_eq in He by (by eapply lookup_lt_Some). injection He as <-. destruct Ha as [->| ->].
        { rewrite owns_stop. apply (Hp g p0 j ej Hm Hf0); [|done]. rewrite Htodo. by intros [?|?]%elem_of_cons. }
        { apply finished_clean; [by eapply ow_entry|]. by rewrite <-Hcalls. }
      * rewrite list_lookup_insert_ne in He by done. apply (Hp g p0 i e Hm Hf0); [|done]. rewrite Htodo.
        intros [Hia|?]%elem_of_cons; [|done]. destruct Ha; congruence.
Qed.

(** A teardown at its end without an error leaves nothing. *)
Lemma torn_clean m g p : progress_ok m -> tearer m g p -> todo p = [] -> failed (result p) = false ->
  hasCleanupOwnership (entries_of m g) = false.
Proof.
  intros Hp Ht Hn Hf. apply not_true_is_false. unfold hasCleanupOwnership. intros (e & He & Hi)%existsb_exists.
  apply list_elem_of_In, list_elem_of_lookup in He as [i He].
  rewrite (Hp g p i e Ht Hf) in Hi; [done| |done]. rewrite Hn. by intros ?%elem_of_nil.
Qed.

(** ** Nothing is left without an owner *)

Lemma b2n_ne (i g : nat) (d : Decision (Some i = Some g)) : i <> g -> b2n (bool_decide (Some i = Some g)) = 0%nat.
Proof. intros H. rewrite bool_decide_eq_false_2; [done|congruence]. Qed.

Lemma owners_lost factories m m' evs g :
  owners_ok m -> transition factories m m' evs -> owners g m <> 0%nat -> owners g m' = 0%nat ->
  (exists p, tearer m g p /\ todo p = [] /\ failed (result p) = false) \/ hasCleanupOwnership (entries_of m g) = false.
Proof.
  intros [_ _ Ht] H Hm. unfold owners in *.
  assert (Htear : forall p, txn_tearing (transaction m) = Some (g, p) -> todo p = [] -> failed (result p) = false ->
    exists p, tearer m g p /\ todo p = [] /\ failed (result p) = false).
  { intros p E ? ?. exists p. split; [|done]. apply tearer_iff. by left. }
  assert (Hagent : forall a x p, agents m !! a = Some x -> tearing x = Some (g, p) -> todo p = [] -> failed (result p) = false ->
    exists p, tearer m g p /\ todo p = [] /\ failed (result p) = false).
  { intros a x p Ha Hx ? ?. exists p. split; [|done]. apply tearer_iff. right. eauto. }
  rule_cases H; cbn [graphs agents groups transaction active with_txn with_group with_graph with_agent
    with_active with_closed with_pending with_async with_reports finish txn_handles] in *;
    try match goal with E : transaction m = _ |- _ => rewrite E in *; cbn [txn_handles txn_tearing] in * end.
  all: try (intros Hm'; exfalso; count_lia).
  all: try (agent_counts g; intros Hm'; exfalso; count_lia).
  all: try (agent_counts g; intros Hm'; exfalso; first [rewrite Ht in *|rewrite H0 in *]; count_lia).
  all: match goal with
    | E : hasCleanupOwnership (entries_of _ ?h) = false |- _ => destruct (decide (h = g)) as [->|]; [intros _; by right|]
    | E : failed (result ?q) = false |- _ =>
        match goal with
        | _ : _ = Rejecting ?h _ _ q |- _ => destruct (decide (h = g)) as [->|]; [intros _; left; by eapply Htear|]
        | _ : _ = TearingDown ?h _ q |- _ => destruct (decide (h = g)) as [->|]; [intros _; left; by eapply Htear|]
        | _ : _ = Some (AsyncTeardown ?h _ q) |- _ => destruct (decide (h = g)) as [->|]; [intros _; left; by eapply Hagent|]
        | _ : _ = Some (Retrying ?h q) |- _ => destruct (decide (h = g)) as [->|]; [intros _; left; by eapply Hagent|]
        end
    | _ => idtac
    end.
  all: try (match goal with E : ?h <> ?k |- _ =>
      agent_counts k; intros Hm'; exfalso; rewrite ?(fun d => b2n_ne _ _ d E) in *; count_lia end).
  all: match goal with E : ?h <> ?k |- context [AwaitRetry] => idtac | E : ?h <> ?k |- _ =>
      agent_counts k; intros Hm'; exfalso;
      repeat match goal with
      | H : agents ?m !! ?a = _, Hi : context [agents ?m !! ?a] |- _ => rewrite H in Hi; cbn [mbind option_bind handles] in Hi
      end; rewrite ?(fun d => b2n_ne _ _ d E) in *; count_lia end.
  intros Hm'. exfalso. pose proof (handled_insert g (<[child:=AwaitRetry g0]> (agents m)) a AsyncDone) as Hi.
  pose proof (handled_insert g (agents m) child (AwaitRetry g0)) as Hi'.
  rewrite lookup_insert_ne, H in Hi by congruence. rewrite H0 in Hi'. cbn [mbind option_bind handles] in *. rewrite b2n_none in *.
  destruct (decide (g0 = g)) as [->|Hne]; [rewrite b2n_some in *; lia|rewrite (b2n_ne g0 g _ Hne) in *; lia].
Qed.

(** No group is left with something to clean up and nobody to do it. *)
Definition leak_ok (m : Manager) : Prop := forall g, owners g m = 0%nat -> hasCleanupOwnership (entries_of m g) = false.

Lemma touched_owner factories m m' evs g :
  owners_ok m' -> transition factories m m' evs -> owners g m' = 0%nat -> entries_of m' g = entries_of m g.
Proof.
  intros Ho H Hn. assert (Htxn : txn_handles (transaction m') <> Some g).
  { intros E. unfold owners in Hn. rewrite (bool_decide_eq_true_2 (txn_handles _ = _)) in Hn by done. cbn in Hn. lia. }
  assert (Hact : active m' <> Some g).
  { intros E. unfold owners in Hn. rewrite (bool_decide_eq_true_2 (active _ = _)) in Hn by done. cbn in Hn. lia. }
  apply transition_groups in H. destruct H as
    [Hg _ _|g' _ Hg _ _ (c & previous & fs & E)|c g' previous f fs p' es o err _ _ Hg _ E _|g' previous i e _ _ Hg _ E _|fails g' p' a rest td _ _ _ Hg _ _ Hp'].
  - unfold entries_of. by rewrite Hg.
  - rewrite (entries_of_insert _ _ _ _ _ Hg). rewrite E in Htxn. destruct (decide (g' = g)) as [->|]; [|done]. by destruct Htxn.
  - rewrite (entries_of_insert _ _ _ _ _ Hg). destruct (decide (g' = g)) as [->|]; [|done].
    destruct err; rewrite E in Htxn; by destruct Htxn.
  - rewrite (entries_of_insert _ _ _ _ _ Hg). destruct (decide (g' = g)) as [->|]; [|done].
    pose proof (oo_txn _ Ho) as Ht. by rewrite E in Ht.
  - rewrite (entries_of_insert _ _ _ _ _ Hg). destruct (decide (g' = g)) as [->|]; [|done].
    apply tearer_owner in Hp'; [lia|done].
Qed.

Lemma leak_ok_step factories m m' evs :
  owners_ok m -> owners_ok m' -> progress_ok m -> leak_ok m -> transition factories m m' evs -> leak_ok m'.
Proof.
  intros Ho Ho' Hp Hl H g Hn. rewrite (touched_owner _ _ _ _ _ Ho' H Hn).
  destruct (decide (owners g m = 0%nat)) as [|Hne]; [by apply Hl|].
  destruct (owners_lost _ _ _ _ _ Ho H Hne Hn) as [(p & Ht & Hd & Hf)|]; [by eapply torn_clean|done].
Qed.

(** ** The clean-ups that are still to come *)

Definition pending_ok (pd : gset nat) (ag : gmap nat Agent) : Prop :=
  forall g, g ∈ pd <-> exists a x, ag !! a = Some x /\ retries x = Some g.

Lemma pending_same pd ag a x : pending_ok pd ag -> retries x = (ag !! a ≫= retries) -> pending_ok pd (<[a := x]> ag).
Proof.
  intros Hp Hx g. rewrite (Hp g). split; intros (b & y & Hb & Hy).
  - destruct (decide (b = a)) as [->|Hne]; [|exists b, y; by rewrite lookup_insert_ne].
    exists a, x. rewrite lookup_insert_eq. split; [done|]. rewrite Hx, Hb. done.
  - destruct (decide (b = a)) as [->|Hne]; [|rewrite lookup_insert_ne in Hb by done; eauto].
    rewrite lookup_insert_eq in Hb. injection Hb as <-. rewrite Hx in Hy.
    destruct (ag !! a) as [z|] eqn:E; [|done]. eauto.
Qed.

Lemma pending_add pd ag a g : pending_ok pd ag -> ag !! a = None -> pending_ok ({[ g ]} ∪ pd) (<[a := AwaitRetry g]> ag).
Proof.
  intros Hp Ha g'. rewrite elem_of_union, elem_of_singleton, (Hp g'). split.
  - intros [->|(b & y & Hb & Hy)].
    + exists a, (AwaitRetry g). by rewrite lookup_insert_eq.
    + exists b, y. rewrite lookup_insert_ne; [done|]. congruence.
  - intros (b & y & Hb & Hy). destruct (decide (b = a)) as [->|Hne].
    + rewrite lookup_insert_eq in Hb. injection Hb as <-. injection Hy as ->. by left.
    + rewrite lookup_insert_ne in Hb by done. eauto.
Qed.

Lemma pending_remove pd ag a g x :
  pending_ok pd ag -> retries x = None -> (forall b y, ag !! b = Some y -> handles y = Some g -> b = a) ->
  (ag !! a ≫= retries) = Some g -> pending_ok (pd ∖ {[ g ]}) (<[a := x]> ag).
Proof.
  intros Hp Hx Hu Ha g'. rewrite elem_of_difference, elem_of_singleton, (Hp g'). split.
  - intros [(b & y & Hb & Hy) Hne]. exists b, y. rewrite lookup_insert_ne; [done|]. intros <-. rewrite Hb in Ha. cbn in Ha. congruence.
  - intros (b & y & Hb & Hy). destruct (decide (b = a)) as [->|Hne].
    + rewrite lookup_insert_eq in Hb. congruence.
    + rewrite lookup_insert_ne in Hb by done. split; [eauto|]. intros ->. apply Hne, (Hu b y Hb).
      destruct y; try done; exact Hy.
Qed.

Lemma pending_step factories m m' evs :
  owners_ok m -> pending_ok (pending m) (agents m) -> transition factories m m' evs -> pending_ok (pending m') (agents m').
Proof.
  intros Ho Hp H.
  rule_cases H; cbn [graphs agents groups transaction active with_txn with_group with_graph with_agent
    with_active with_closed with_pending with_async with_reports finish pending] in *; try exact Hp.
  all: try (apply pending_same; [exact Hp|]; match goal with E : agents _ !! _ = _ |- _ => rewrite E; done end).
  all: try (by apply pending_add).
  - apply pending_same; [by apply pending_add|]. rewrite lookup_insert_ne, H; [done|congruence].
  - apply pending_remove; [done|done| |by rewrite H]. intros b y Hb Hy. by eapply owner_agent.
  - apply pending_same; [done|]. rewrite H. by destruct H1 as [[? ->]| ->].
  - apply pending_same; [done|]. rewrite H. by destruct x.
Qed.

Lemma async_step_ok factories m m' evs :
  asyncCleanup m = count is_async (agents m) -> transition factories m m' evs -> asyncCleanup m' = count is_async (agents m').
Proof.
  intros Hn H.
  assert (Hsame : forall a x, is_async x = from_option is_async false (agents m !! a) ->
    count is_async (<[a := x]> (agents m)) = count is_async (agents m)).
  { intros a x E. pose proof (count_insert is_async (agents m) a x). rewrite E in *. lia. }
  rule_cases H; cbn [graphs agents groups transaction active with_txn with_group with_graph with_agent
    with_active with_closed with_pending with_async with_reports finish asyncCleanup] in *; try exact Hn.
  all: try (rewrite Hsame; [exact Hn|]; match goal with E : agents _ !! _ = _ |- _ => rewrite E; done end).
  - pose proof (count_insert is_async (agents m) a (AwaitQuiescence g (report_graph why g))) as Hi. rewrite H0 in Hi. cbn in Hi. lia.
  - pose proof (count_insert is_async (<[child:=AwaitRetry g]> (agents m)) a AsyncDone) as Hi.
    rewrite lookup_insert_ne, H in Hi by congruence. rewrite Hsame in Hi by (by rewrite H0). cbn in Hi. lia.
  - pose proof (count_insert is_async (agents m) a (ClosingReporter MaybeClosed false None)) as Hi. rewrite H in Hi. cbn in Hi. lia.
  - rewrite Hsame; [done|]. rewrite H. by destruct H1 as [[? ->]| ->].
  - rewrite Hsame; [done|]. rewrite H. by destruct x.
Qed.

(** ** The closed flag and the active pointer *)

Definition closed_ok (m : Manager) : Prop :=
  match transaction m with
  | Building _ _ _ _ | Rejecting _ _ _ _ | Activating _ _ _ => m_closed m = false
  | Closing => m_closed m = true
  | _ => m_closed m = true -> active m = None
  end.

Lemma closed_ok_step factories m m' evs : owners_ok m -> closed_ok m -> transition factories m m' evs -> closed_ok m'.
Proof.
  intros [_ _ Ht] Hc H. unfold closed_ok in *.
  rule_cases H; cbn [graphs agents groups transaction active with_txn with_group with_graph with_agent m_closed
    with_active with_closed with_pending with_async with_reports finish] in *;
    try match goal with E : transaction _ = _ |- _ => rewrite E in *; cbn in * end; try done; try congruence.
  all: intros; congruence.
Qed.

(** ** Teardown only after the last user *)

(** Nobody uses the graph of the group, if there is one. *)
Definition dead (m : Manager) (g : nat) : Prop := forall gr, graphs m !! g = Some gr -> quiescent gr = Quiescent.

Definition cleaning (x : Agent) : option nat := match x with AwaitQuiescence _ _ => None | _ => handles x end.
Definition txn_cleaning (t : Transaction) : option nat :=
  match t with Rejecting g _ _ _ | TearingDown g _ _ => Some g | _ => None end.

Definition cleans (m : Manager) (g : nat) : Prop :=
  txn_cleaning (transaction m) = Some g \/ exists a x, agents m !! a = Some x /\ cleaning x = Some g.

Definition dead_ok (m : Manager) : Prop := forall g, cleans m g -> dead m g.

Lemma cleans_from factories m m' evs g :
  users_ok m -> transition factories m m' evs -> cleans m' g -> cleans m g \/ dead m' g.
Proof.
  intros [_ _ _ Hf] H Hc. unfold cleans in *.
  assert (Hold : forall b y, agents m !! b = Some y -> cleaning y = Some g -> exists a x, agents m !! a = Some x /\ cleaning x = Some g) by eauto.
  rule_cases H; cbn [graphs agents groups transaction active with_txn with_group with_graph with_agent
    with_active with_closed with_pending with_async with_reports finish] in *;
    (destruct Hc as [Hc|(? & ? & Hb & Hy)];
     [try done; try (left; by left)
     |repeat match goal with Hl : <[_ := _]> _ !! _ = Some _ |- _ => apply lookup_insert_Some in Hl as [[<- <-]|[_ Hl]] end;
      try done; try (left; right; by eapply Hold)]).
  all: try match goal with E : transaction _ = _ |- _ => rewrite E in *; cbn in * end; try (left; by left).
  all: cbn in *; try (injection Hc as <-); try (injection Hy as <-).
  all: try (left; right; eapply Hold; [eassumption|done]).
  all: try (right; intros ? ?; cbn in *; destruct_and?; congruence).
  all: try match goal with Hx : handles ?y = None, Hy : cleaning ?y = _ |- _ => by destruct y end.
  all: try match goal with E : reporting ?y = true |- _ => destruct y; done end.
  all: try match goal with E : _ \/ _ = Ended |- _ => destruct E as [[? ->]| ->]; done end.
Qed.

Lemma cleans_owner m g : cleans m g -> (0 < owners g m)%nat /\ forall c previous fs, transaction m <> Building c g previous fs \/ (1 < owners g m)%nat.
Proof.
  unfold owners. intros [Hc|(a & x & Ha & Hx)].
  - assert (txn_handles (transaction m) = Some g) as -> by (by destruct (transaction m)). rewrite bool_decide_eq_true_2 by done.
    cbn. split; [lia|]. intros c previous fs. left. intros E. by rewrite E in Hc.
  - assert (0 < handled g (agents m))%nat.
    { eapply count_pos; [exact Ha|]. apply bool_decide_eq_true. by destruct x. }
    split; [lia|]. intros c previous fs. destruct (decide (txn_handles (transaction m) = Some g)) as [E|E].
    + right. rewrite (bool_decide_eq_true_2 (txn_handles _ = _)) by done. cbn. lia.
    + left. intros E'. by rewrite E' in E.
Qed.

Lemma dead_ok_step factories m m' evs :
  users_ok m -> owners_ok m -> dead_ok m -> transition factories m m' evs -> dead_ok m'.
Proof.
  intros Hu Ho Hd H g Hc. destruct (cleans_from _ _ _ _ _ Hu H Hc) as [Hm|]; [|done].
  intros gr' Hg'. destruct (graphs m !! g) as [gr|] eqn:Hg.
  - destruct (graph_stable _ _ _ _ _ _ Hu H Hg) as (gr1 & Hg1 & _ & _ & _ & _ & Hq).
    assert (gr1 = gr') as -> by congruence. by apply Hq, (Hd g).
  - destruct (graph_new _ _ _ _ _ _ H Hg' Hg) as (c & previous & E & _).
    destruct (cleans_owner m g Hm) as [_ Hn]. pose proof (oo_one _ Ho g). destruct (Hn c previous []) as [?|?]; [done|lia].
Qed.

(** ** Retirement *)

Definition unretired (m : Manager) (g : nat) : Prop := exists gr, graphs m !! g = Some gr /\ retired gr = false.
Definition is_retired (m : Manager) (g : nat) : Prop := exists gr, graphs m !! g = Some gr /\ retired gr = true.

Record retire_ok (m : Manager) : Prop := {
  ro_active : forall g, active m = Some g -> unretired m g;
  ro_txn : match transaction m with
           | Activating _ (Some old) _ => unretired m old
           | Retiring g _ => unretired m g
           | Awaiting g _ => is_retired m g
           | _ => True
           end;
  ro_agents : forall a g r, agents m !! a = Some (AwaitQuiescence g r) -> is_retired m g;
}.

Lemma retired_stable factories m m' evs g :
  users_ok m -> transition factories m m' evs -> is_retired m g -> is_retired m' g.
Proof.
  intros Hu H (gr & Hg & Hr). destruct (graph_stable _ _ _ _ _ _ Hu H Hg) as (gr' & Hg' & _ & _ & _ & Hle & _).
  exists gr'. auto.
Qed.

Lemma unretired_stable factories m m' evs g :
  users_ok m -> transition factories m m' evs ->
  (forall why, transaction m = Retiring g why -> transaction m' = transaction m) -> unretired m g -> unretired m' g.
Proof.
  intros [_ _ _ Hf] H Hn (gr & Hg & Hr). unfold unretired.
  assert (Hins : forall g' gr', (g' = g -> retired gr' = false) ->
    exists gr0, <[g' := gr']> (graphs m) !! g = Some gr0 /\ retired gr0 = false).
  { intros g' gr' Hle. destruct (decide (g' = g)) as [->|Hne].
    - rewrite lookup_insert_eq. eauto.
    - rewrite lookup_insert_ne by done. eauto. }
  rule_cases H; cbn [graphs agents groups transaction active with_txn with_group with_graph with_agent
    with_active with_closed with_pending with_async with_reports finish] in *; eauto.
  all: try (apply Hins; intros ->; simplify_eq; done).
  - apply Hins. intros ->. specialize (Hn why H). congruence.
  - apply Hins. intros ->. simplify_eq. unfold release. by destruct (_ <=? _)%Z.
  - apply Hins. intros ->. simplify_eq. unfold fork in *. destruct (_ <=? _)%Z; [done|]. by simplify_eq.
  - apply Hins. intros ->. simplify_eq. unfold release. by destruct (_ <=? _)%Z.
Qed.

Lemma active_from factories m m' evs g :
  transition factories m m' evs -> active m' = Some g ->
  active m = Some g \/ (exists c previous, transaction m = Building c g previous [] /\ unretired m' g).
Proof.
  intros H. rule_cases H; cbn [graphs agents groups transaction active with_txn with_group with_graph with_agent
    with_active with_closed with_pending with_async with_reports finish] in *; intros Ha; auto; try done.
  injection Ha as <-. right. exists c, previous. split; [done|]. exists (newGraph c (next_generation m previous)).
  cbn. by rewrite lookup_insert_eq.
Qed.

Lemma not_retiring m g : owners_ok m -> active m = Some g -> forall why, transaction m <> Retiring g why.
Proof.
  intros [Hone _ _] Ha why E. specialize (Hone g). unfold owners in Hone.
  rewrite E, Ha in Hone. cbn [txn_handles] in Hone. rewrite !b2n_some in Hone. lia.
Qed.

Lemma awaiting_from factories m m' evs a g r :
  transition factories m m' evs -> agents m' !! a = Some (AwaitQuiescence g r) ->
  agents m !! a = Some (AwaitQuiescence g r) \/ exists why, transaction m = Awaiting g why.
Proof.
  intros H. rule_cases H; cbn [graphs agents groups transaction active with_txn with_group with_graph with_agent
    with_active with_closed with_pending with_async with_reports finish] in *; auto; intros Ha;
    repeat match goal with Hl : <[_ := _]> _ !! _ = Some _ |- _ => apply lookup_insert_Some in Hl as [[? ?]|[_ Hl]] end;
    subst; try done; try (by left); simplify_eq; eauto.
  by match goal with E : _ \/ AwaitQuiescence _ _ = Ended |- _ => destruct E as [[? ?]|?] end.
Qed.

Lemma retire_ok_step factories m m' evs :
  users_ok m -> owners_ok m -> retire_ok m -> transition factories m m' evs -> retire_ok m'.
Proof.
  intros Hu Ho [Hact Ht Hag] H.
  assert (Hst : forall g, active m = Some g -> unretired m' g).
  { intros g Ha. eapply unretired_stable; [done..|intros why E; by destruct (not_retiring m g Ho Ha why)|by apply Hact]. }
  assert (Hre : forall g, is_retired m g -> is_retired m' g) by (intros; by eapply retired_stable).
  assert (Hun : forall g, (forall why, transaction m = Retiring g why -> transaction m' = transaction m) -> unretired m g -> unretired m' g)
    by (intros; by eapply unretired_stable).
  split.
  - intros g Ha. destruct (active_from _ _ _ _ _ H Ha) as [?|(? & ? & _ & ?)]; auto.
  - pose proof (oo_txn _ Ho) as Hprev. rule_cases H; cbn [graphs agents groups transaction active with_txn with_group with_graph with_agent
      with_active with_closed with_pending with_async with_reports finish] in *; try done;
      try match goal with E : transaction _ = _ |- _ => rewrite E in *; cbn in * end; auto.
    all: try (destruct (transaction m) as [| | | |? [?|] ?|? ?|? ?| | | |]; try done; by auto).
    + destruct previous as [old|]; [|done]. by apply Hst.
    + by apply Hun.
    + exists (beginRetirement graph). cbn. by rewrite lookup_insert_eq.
  - intros a g r Ha.
    pose proof (awaiting_from _ _ _ _ _ _ _ H Ha) as Hnew.
    destruct Hnew as [Ho'|(why & E)]; [apply Hre; by eapply Hag|]. rewrite E in Ht. by apply Hre.
Qed.
