(* ===== verification/ManagerTrace.v ===== *)
(** * Live generations and the trace of the runtime manager

    What the components of a generation are like while it can be used, which
    calls a run has made by then, and the batches of reports on their way from a
    transaction to the spool.  All invariants together hold in every reachable
    state. *)
From stdpp Require Import base list gmap strings.
From Stdlib Require Import ZArith Lia.
From S2P Require Import Prelude GoStrings Taxonomy RoutingPlan RuntimeGraph ReportSpool RuntimeManager ManagerFacts ManagerInvariants ManagerCleanup.

(** ** The invariants of the state *)

Record manager_ok (m : Manager) : Prop := {
  mo_users : users_ok m;
  mo_owners : owners_ok m;
  mo_own : own_ok m;
  mo_progress : progress_ok m;
  mo_leak : leak_ok m;
  mo_pending : pending_ok (pending m) (agents m);
  mo_async : asyncCleanup m = count is_async (agents m);
  mo_closed : closed_ok m;
  mo_dead : dead_ok m;
  mo_retire : retire_ok m;
}.

Lemma initial_entries factories config g : entries_of (initial factories config) g = [].
Proof.
  unfold entries_of. cbn. destruct (decide (g = 0%nat)) as [->|]; [by rewrite lookup_singleton_eq|by rewrite lookup_singleton_ne].
Qed.

Lemma count_empty f : count f ∅ = 0%nat.
Proof. by apply count_zero. Qed.

Lemma manager_ok_initial factories config : manager_ok (initial factories config).
Proof.
  assert (Hag : forall a x, agents (initial factories config) !! a = Some x -> False) by (intros a x; cbn; by rewrite lookup_empty).
  assert (Hgr : forall g, graphs (initial factories config) !! g = None) by (intros g; cbn; by rewrite lookup_empty).
  split.
  - split; [by intros g gr; rewrite Hgr|by intros a x g ?%Hag|intros g [? H]; by rewrite Hgr in H|].
    cbn. by rewrite lookup_singleton_eq.
  - split; [| |done]; intros g; unfold owners, handled; cbn [initial agents transaction active txn_handles]; rewrite count_empty, b2n_none; cbn.
    + destruct (decide (0%nat = g)) as [->|Hne]; [rewrite b2n_some|rewrite (b2n_ne _ _ _ Hne)]; lia.
    + destruct (decide (0%nat = g)) as [->|Hne]; [by rewrite lookup_singleton_eq|by rewrite (b2n_ne _ _ _ Hne)].
  - apply own_ok_initial.
  - intros g p i e [H|(a & x & Ha & _)]%tearer_iff; [done|by apply Hag in Ha].
  - intros g _. by rewrite initial_entries.
  - intros g. split; [by intros ?%elem_of_empty|by intros (a & x & ?%Hag & _)].
  - cbn. by rewrite count_empty.
  - done.
  - intros g [H|(a & x & ?%Hag & _)]; done.
  - split; [done|done|by intros a g r ?%Hag].
Qed.

Lemma manager_ok_step factories m m' evs : manager_ok m -> transition factories m m' evs -> manager_ok m'.
Proof.
  intros [Hu Ho Hw Hp Hl Hpd Ha Hc Hd Hr] H. assert (Ho' : owners_ok m') by (by eapply owners_ok_step).
  split.
  - exact (users_ok_step _ _ _ _ Hu H).
  - exact Ho'.
  - exact (own_ok_step _ _ _ _ Hw H).
  - exact (progress_ok_step _ _ _ _ Ho Ho' Hw Hp H).
  - exact (leak_ok_step _ _ _ _ Ho Ho' Hp Hl H).
  - exact (pending_step _ _ _ _ Ho Hpd H).
  - exact (async_step_ok _ _ _ _ Ha H).
  - exact (closed_ok_step _ _ _ _ Ho Hc H).
  - exact (dead_ok_step _ _ _ _ Hu Ho Hd H).
  - exact (retire_ok_step _ _ _ _ Hu Ho Hr H).
Qed.

(** ** The entries of a generation that can be used *)

Definition live_entry (e : componentEntry) : Prop :=
  closed e = false /\ validComponent (component e) = true /\ claimed e = true.

Section Live.
Context (factories : list ComponentFactory).

Definition live_entries (es : list componentEntry) (fs : list ComponentFactory) : Prop :=
  (e_name <$> es) ++ (f_Name <$> fs) = f_Name <$> factories /\ Forall live_entry es.

Record live_ok (m : Manager) : Prop := {
  lv_txn : match transaction m with
           | Building _ g _ fs => live_entries (entries_of m g) fs
           | Activating g _ i => Forall (fun e => available e = true) (take i (entries_of m g))
           | _ => True
           end;
  lv_graph : forall g gr, graphs m !! g = Some gr -> quiescent gr <> Quiescent ->
    live_entries (entries_of m g) [] /\ (ready gr = true -> Forall (fun e => available e = true) (entries_of m g));
}.

Lemma building_from m m' evs c g previous fs :
  transition factories m m' evs -> transaction m' = Building c g previous fs ->
  transaction m = transaction m' \/
  (groups m !! g = None /\ entries_of m' g = [] /\ fs = factories) \/
  exists f p o, transaction m = Building c g previous (f :: fs) /\
    build_factory f p (entries_of m g) (owned m) = (entries_of m' g, o, None).
Proof.
  intros H. rule_cases H; cbn [graphs agents groups transaction active with_txn with_group with_graph with_agent
    with_active with_closed with_pending with_async with_reports finish] in *; intros Ht; auto; try done; try congruence.
  - injection Ht as <- <- <- <-. right. left. unfold entries_of. cbn. by rewrite lookup_insert_eq.
  - injection Ht as <- <- <- <-. right. right. exists f, p, o. split; [done|]. rewrite H0. f_equal. f_equal.
    erewrite entries_of_insert by reflexivity. by rewrite decide_True.
Qed.

Lemma activating_from m m' evs g previous i :
  transition factories m m' evs -> transaction m' = Activating g previous i ->
  transaction m = transaction m' \/ i = 0%nat \/
  exists j e, i = S j /\ transaction m = Activating g previous j /\ entries_of m g !! j = Some e /\
    entries_of m' g = set_nth j set_active (entries_of m g).
Proof.
  intros H. rule_cases H; cbn [graphs agents groups transaction active with_txn with_group with_graph with_agent
    with_active with_closed with_pending with_async with_reports finish] in *; intros Ht; auto; try done; try congruence.
  - injection Ht as <- <- <-. by right; left.
  - injection Ht as <- <- <-. right. right. exists i0, e. split_and!; try done.
    erewrite entries_of_insert by reflexivity. by rewrite decide_True.
Qed.

Lemma ready_from m m' evs g gr gr' :
  transition factories m m' evs -> graphs m !! g = Some gr -> graphs m' !! g = Some gr' -> ready gr' = true -> ready gr = false ->
  exists previous i, transaction m = Activating g previous i /\ entries_of m g !! i = None /\ groups m' = groups m.
Proof.
  intros H Hg. rule_cases H; cbn [graphs agents groups transaction active with_txn with_group with_graph with_agent
    with_active with_closed with_pending with_async with_reports finish] in *; intros Hg' Hr Hn; simplify_eq; eauto.
  all: try (apply lookup_insert_Some in Hg' as [[<- <-]|[_ Hg']]; simplify_eq; cbn in *; try congruence; eauto).
  all: try congruence.
  all: try (unfold release in Hr; destruct (_ <=? _)%Z; cbn in *; congruence).
  unfold fork in *. destruct (_ <=? _)%Z; [done|]. simplify_eq. cbn in *. congruence.
Qed.

(** The entries of a generation in use only change by an [Activate]. *)
Lemma live_step m m' evs g :
  users_ok m -> dead_ok m -> transition factories m m' evs -> ~ dead m g ->
  entries_of m' g = entries_of m g \/
  (exists previous i, transaction m = Activating g previous i /\ entries_of m' g = set_nth i set_active (entries_of m g)).
Proof.
  intros [_ _ Hgr Hf] Hd H Hn. assert (Hs : is_Some (graphs m !! g)).
  { destruct (graphs m !! g) eqn:E; [done|]. destruct Hn. intros gr Hgr'. congruence. }
  apply transition_groups in H. destruct H as
    [Hg _ _|g' Hnew Hg _ _ _|c g' previous f fs p' es o err E _ Hg _ _ _|g' previous i e E _ Hg _ _ _|fails g' p' a rest td Hp _ _ Hg _ _ _].
  - left. unfold entries_of. by rewrite Hg.
  - rewrite (entries_of_insert _ _ _ _ _ Hg). destruct (decide (g' = g)) as [->|]; [|by left].
    destruct (Hgr g Hs). congruence.
  - rewrite (entries_of_insert _ _ _ _ _ Hg). destruct (decide (g' = g)) as [->|]; [|by left].
    rewrite E in Hf. destruct Hf as [Hno _]. rewrite Hno in Hs. by destruct Hs.
  - rewrite (entries_of_insert _ _ _ _ _ Hg). destruct (decide (g' = g)) as [->|]; [|by left]. right. eauto.
  - rewrite (entries_of_insert _ _ _ _ _ Hg). destruct (decide (g' = g)) as [->|]; [|by left].
    destruct Hn. apply Hd. apply tearer_iff in Hp as [Hp|(b & x & Hb & Hx)].
    + left. destruct (transaction m); try done; cbn in *; congruence.
    + right. exists b, x. split; [done|]. destruct x; try done; cbn in *; congruence.
Qed.

Lemma live_set_nth j es fs : live_entries es fs -> live_entries (set_nth j set_active es) fs.
Proof.
  unfold set_nth. intros [Hn He]. split; [|apply Forall_alter; [done|by intros x _ (? & ? & ?)]].
  rewrite (list_fmap_alter e_name set_active id), list_alter_id; [done..|]. by apply Forall_true.
Qed.

Lemma available_set_nth i j es :
  Forall (fun e => available e = true) (take i es) -> Forall (fun e => available e = true) (take i (set_nth j set_active es)).
Proof. unfold set_nth. rewrite take_alter. intros H. case_decide; [|done]. by apply Forall_alter. Qed.

Lemma available_next i es e :
  es !! i = Some e -> Forall (fun e => available e = true) (take i es) ->
  Forall (fun e => available e = true) (take (S i) (set_nth i set_active es)).
Proof.
  intros He H. unfold set_nth. rewrite (take_S_r _ _ (set_active e)) by by rewrite list_lookup_alter_eq, He.
  rewrite take_alter_ge by done. apply Forall_app. split; [done|]. by repeat constructor.
Qed.

Lemma live_ok_initial config : live_ok (initial factories config).
Proof.
  split.
  - cbn. rewrite initial_entries. split; [done|constructor].
  - intros g gr. cbn. by rewrite lookup_empty.
Qed.

Lemma activating_alive m g previous i : manager_ok m -> transaction m = Activating g previous i -> ~ dead m g.
Proof.
  intros [[Hc _ _ _] Ho _ _ _ _ _ _ _ Hr] E Hd. pose proof (oo_txn _ Ho) as Ha. rewrite E in Ha.
  destruct (ro_active _ Hr g Ha) as (gr & Hg & Hre). destruct (Hc g gr Hg) as [_ Hq]. unfold quiet_ok in Hq.
  rewrite (Hd gr Hg) in Hq. destruct Hq. congruence.
Qed.

(** While a candidate is built nobody else touches its entries. *)
Lemma building_same m m' evs c g previous fs :
  manager_ok m -> transition factories m m' evs -> transaction m = Building c g previous fs -> transaction m' = transaction m ->
  entries_of m' g = entries_of m g.
Proof.
  intros [[_ _ _ Hf] Ho _ _ _ _ _ _ _ _] H E Es. rewrite E in Es, Hf. destruct Hf as [_ Hs]. apply transition_groups in H. destruct H as
    [Hg _ _|g' Hnew Hg _ _ _|c' g' previous' f fs' p' es o err E' _ Hg _ Et _|g' previous' i e E' _ Hg _ _ _|fails g' p' a rest td Hp _ _ Hg _ _ _].
  - unfold entries_of. by rewrite Hg.
  - rewrite (entries_of_insert _ _ _ _ _ Hg). destruct (decide (g' = g)) as [->|]; [|done]. rewrite Hnew in Hs. by destruct Hs.
  - exfalso. destruct err; [congruence|]. rewrite Es, E in *. assert (fs = f :: fs') as Hl by congruence. assert (fs = fs') as -> by congruence.
    apply (f_equal length) in Hl. cbn in Hl. lia.
  - congruence.
  - rewrite (entries_of_insert _ _ _ _ _ Hg). destruct (decide (g' = g)) as [->|]; [|done].
    apply tearer_iff in Hp as [Hp|(b & x & Hb & Hx)]; [by rewrite E in Hp|].
    destruct (owner_agent g m b x Ho Hb) as (Hno & _); [by eapply tearing_handles|]. by rewrite E in Hno.
Qed.

Lemma live_ok_step m m' evs : manager_ok m -> manager_ok m' -> live_ok m -> transition factories m m' evs -> live_ok m'.
Proof.
  intros Hm Hm' [Ht Hg] H. split.
  - destruct (transaction m') as [| |c g previous fs| |g previous i| | | | | |] eqn:E; try done.
    + destruct (building_from _ _ _ _ _ _ _ H E) as [Es|[(_ & -> & ->)|(f & p & o & Es & Hb)]].
      * rewrite (building_same _ _ _ _ _ _ _ Hm H (eq_trans Es E)) by congruence. rewrite E in Es. by rewrite Es in Ht.
      * split; [done|constructor].
      * rewrite Es in Ht. destruct Ht as [Hn Hl].
        destruct (build_factory_spec _ _ _ _ _ _ _ Hb) as [(_ & _ & ?)|(e & -> & He & _ & _ & Hcl & _ & _ & Hok)]; [done|].
        destruct (Hok eq_refl). split; [|apply Forall_app; split; [done|]; by repeat constructor].
        rewrite fmap_app, <-app_assoc. cbn. by rewrite He.
    + destruct (activating_from _ _ _ _ _ _ H E) as [Es|[->|(j & e & -> & Es & He & ->)]].
      * rewrite E in Es. rewrite Es in Ht.
        destruct (live_step _ _ _ _ (mo_users _ Hm) (mo_dead _ Hm) H (activating_alive _ _ _ _ Hm Es)) as [->|(? & ? & _ & ->)]; [done|].
        by apply available_set_nth.
      * by rewrite take_0.
      * rewrite Es in Ht. by eapply available_next.
  - intros g gr' Hg' Hq'. destruct (graphs m !! g) as [gr|] eqn:E.
    + destruct (graph_stable _ _ _ _ _ _ (mo_users _ Hm) H E) as (gr1 & Hg1 & _ & _ & _ & _ & Hq).
      assert (gr1 = gr') as -> by congruence. destruct (Hg g gr E) as [Hl Ha]; [intros ?; auto|].
      assert (Hd : ~ dead m g) by (intros Hd; apply Hq', Hq; by apply Hd).
      destruct (ready gr) eqn:Er.
      * destruct (live_step _ _ _ _ (mo_users _ Hm) (mo_dead _ Hm) H Hd) as [->|(? & ? & _ & ->)]; [by auto|].
        split; [by apply live_set_nth|]. intros _. unfold set_nth. apply Forall_alter; [by apply Ha|by intros].
      * split.
        { destruct (live_step _ _ _ _ (mo_users _ Hm) (mo_dead _ Hm) H Hd) as [->|(? & ? & _ & ->)]; [done|by apply live_set_nth]. }
        intros Hr. destruct (ready_from _ _ _ _ _ _ H E Hg' Hr Er) as (previous & i & Et & Hi & Hgs).
        unfold entries_of in *. rewrite Hgs. rewrite Et in Ht. apply lookup_ge_None in Hi. by rewrite take_ge in Ht.
    + destruct (graph_new _ _ _ _ _ _ H Hg' E) as (c & previous & Et & -> & _ & Hgs). rewrite Et in Ht.
      unfold entries_of. rewrite Hgs. by split.
Qed.
End Live.

(** ** Teardown calls *)

(** The graph of a torn group is gone, and its group is never built again. *)
Definition settled (m : Manager) (g : nat) : Prop :=
  dead m g /\ is_Some (groups m !! g) /\ forall c previous fs, transaction m <> Building c g previous fs.

Definition torn_ok (tr : list Event) (m : Manager) : Prop :=
  forall c, ECalled c ∈ tr -> is_teardown (call c) = true -> settled m (group c).

Lemma groups_stable factories m m' evs g : transition factories m m' evs -> is_Some (groups m !! g) -> is_Some (groups m' !! g).
Proof.
  intros H Hs. apply transition_groups in H. destruct H as [-> _ _|? _ -> _ _ _|????????? _ _ -> _ _ _|???? _ _ -> _ _ _|?????? _ _ _ -> _ _ _];
    [done|by apply insert_is_Some..].
Qed.

Lemma settled_step factories m m' evs g : users_ok m -> transition factories m m' evs -> settled m g -> settled m' g.
Proof.
  intros Hu H (Hd & Hs & Hb). split_and!.
  - intros gr' Hg'. destruct (graphs m !! g) as [gr|] eqn:E.
    + destruct (graph_stable _ _ _ _ _ _ Hu H E) as (gr1 & Hg1 & _ & _ & _ & _ & Hq). assert (gr1 = gr') as -> by congruence. auto.
    + destruct (graph_new _ _ _ _ _ _ H Hg' E) as (c & previous & Et & _). by destruct (Hb c previous []).
  - by eapply groups_stable.
  - intros c previous fs E. destruct (building_from _ _ _ _ _ _ _ _ H E) as [Es|[(Hn & _)|(f & p & o & Es & _)]].
    + rewrite E in Es. by eapply Hb.
    + rewrite Hn in Hs. by destruct Hs.
    + by eapply Hb.
Qed.

Lemma tearer_settled m g p : manager_ok m -> tearer m g p -> settled m g.
Proof.
  intros [_ Ho _ _ _ _ _ _ Hd _] Ht.
  assert (Hc : cleans m g).
  { apply tearer_iff in Ht as [E|(a & x & Ha & Hx)]; [left|right; exists a, x; split; [done|]].
    - by destruct (transaction m); try done; injection E as -> ->.
    - by destruct x; try done; injection Hx as -> ->. }
  destruct (cleans_owner m g Hc) as [Hpos Hn]. split_and!.
  - by apply Hd.
  - apply (oo_known _ Ho). lia.
  - intros c previous fs E. pose proof (oo_one _ Ho g). destruct (Hn c previous fs) as [?|?]; [done|lia].
Qed.

Lemma torn_ok_step factories tr m m' evs :
  manager_ok m -> manager_ok m' -> torn_ok tr m -> transition factories m m' evs -> torn_ok (tr ++ evs) m'.
Proof.
  intros Hm Hm' Ht H c [Hc|Hc]%elem_of_app Hd; [eapply settled_step; [apply Hm|done|by apply Ht]|].
  pose proof H as Hg. apply transition_groups in Hg.
  destruct Hg as [_ _ Hn|? _ _ _ -> _|????????? _ _ _ _ _ [? ->]|???? _ _ _ _ _ ->|fails g p a rest td _ _ -> _ _ -> Hp].
  - by destruct (Hn c).
  - by apply elem_of_nil in Hc.
  - apply list_elem_of_singleton in Hc. injection Hc as ->. done.
  - apply list_elem_of_singleton in Hc. injection Hc as ->. done.
  - apply list_elem_of_fmap in Hc as (c' & [= <-] & Hc).
    destruct (action_entry fails g a (entries_of m g) (owned m) (result p)) as (_ & Hall & _).
    rewrite Forall_forall in Hall. destruct (Hall c Hc) as [-> _]. by eapply tearer_settled.
Qed.

(** ** Reports *)

(** The batches that got a number, and the envelopes the reporter took. *)
Definition sequenced (tr : list Event) : list reportBatch := omap (fun e => match e with ESequenced b => Some b | _ => None end) tr.
Definition delivered (tr : list Event) : list reportEnvelope :=
  omap (fun e => match e with EReported e true => Some e | _ => None end) tr.

(** The batch that an agent is about to dispatch. *)
Definition batch_of (x : Agent) : option reportBatch :=
  match x with
  | Dispatching b _ => match envelopes b with [] => None | _ => Some b end
  | AsyncDispatch _ b => Some b
  | _ => None
  end.

Definition brings (k : nat) (x : Agent) : bool := match batch_of x with Some b => (sequence b =? k)%nat | None => false end.

(** The spool has had the batch [k]. *)
Definition taken_in (k : nat) (s : Spool) : Prop :=
  (k <= reportCompleted s)%nat \/ k = reportDelivering s \/ is_Some (reportSpool s !! k).

Record reports_ok (tr : list Event) (m : Manager) : Prop := {
  ro_spool : spool_ok (sequenced tr) (delivered tr) (reports m);
  ro_batch : forall a x b, agents m !! a = Some x -> batch_of x = Some b -> sequenced tr !! pred (sequence b) = Some b /\ sequence b <> 0%nat;
  ro_once : forall k, (count (brings k) (agents m) <= 1)%nat;
  ro_fresh : forall k, count (brings k) (agents m) <> 0%nat -> ~ taken_in k (reports m);
  ro_seen : forall k, taken_in k (reports m) -> (k <= length (sequenced tr))%nat;
  ro_refused : forall b, EDispatched b false ∈ tr -> reportSpoolClosed (reports m) = true;
}.

(** Agents change, but none of them gets or loses a batch. *)
Inductive silent (ag : gmap nat Agent) : gmap nat Agent -> Prop :=
| silent_refl : silent ag ag
| silent_insert ag' a x : silent ag ag' -> batch_of x = None -> (ag' !! a ≫= batch_of) = None -> silent ag (<[a := x]> ag').

Lemma silent_count ag ag' k : silent ag ag' -> count (brings k) ag' = count (brings k) ag.
Proof.
  induction 1 as [|ag' a x _ IH Hx Ha]; [done|]. pose proof (count_insert (brings k) ag' a x) as Hi.
  assert (brings k x = false) as E by (unfold brings; by rewrite Hx). rewrite E in Hi.
  assert (from_option (brings k) false (ag' !! a) = false) as E'.
  { destruct (ag' !! a) as [y|] eqn:Ey; [|done]. cbn in *. unfold brings. by rewrite Ha. }
  rewrite E' in Hi. cbn in Hi. lia.
Qed.

Lemma silent_batch ag ag' a x b : silent ag ag' -> ag' !! a = Some x -> batch_of x = Some b -> exists y, ag !! a = Some y /\ batch_of y = Some b.
Proof.
  intros H. revert a x. induction H as [|ag' a' x' _ IH Hx Ha]; intros a x Hl Hb; [eauto|].
  apply lookup_insert_Some in Hl as [[<- <-]|[_ Hl]]; [congruence|by eapply IH].
Qed.

(** What a step does to the reports. *)
Inductive report_step (m m' : Manager) (evs : list Event) : Prop :=
| rs_other : silent (agents m) (agents m') -> sequenced evs = [] -> delivered evs = [] -> (forall b ok, EDispatched b ok ∉ evs) ->
    reports m' = reports m \/ reports m' = startReporter (reports m) \/ reports m' = requestReporterClose (reports m) ->
    report_step m m' evs
| rs_sequence a x batch b :
    batch <> [] -> sequenceReports (mkBatch 0 batch) (reports m) = (b, reports m') ->
    agents m' = <[a := x]> (agents m) -> batch_of x = Some b -> (agents m !! a ≫= batch_of) = None ->
    evs = [ESequenced b] -> report_step m m' evs
| rs_dispatch a x y b ok :
    agents m !! a = Some x -> batch_of x = Some b -> dispatchReports b (reports m) = (ok, reports m') ->
    agents m' = <[a := y]> (agents m) -> batch_of y = None -> sequenced evs = [] -> delivered evs = [] ->
    (forall b' ok', EDispatched b' ok' ∈ evs -> b' = b /\ ok' = ok) -> report_step m m' evs
| rs_worker ok s attempts :
    worker_step ok (reports m) = Some (s, attempts) -> reports m' = s -> agents m' = agents m ->
    evs = (fun t => EReported (fst t) (snd t)) <$> attempts -> report_step m m' evs.

Lemma called_only evs : Forall (fun e => exists c, e = ECalled c) evs ->
  sequenced evs = [] /\ delivered evs = [] /\ forall b ok, EDispatched b ok ∉ evs.
Proof.
  induction 1 as [|e evs (c & ->) H (IH1 & IH2 & IH3)]; cbn; [split_and!; [done..|by intros ? ? ?%elem_of_nil]|].
  split_and!; [done..|]. intros b ok [?|Hin]%elem_of_cons; [done|by eapply IH3].
Qed.

Lemma ecalled_only calls : Forall (fun e => exists c, e = ECalled c) (ECalled <$> calls).
Proof. apply Forall_fmap, Forall_true. intros c. by exists c. Qed.

Lemma sequence_new batch s b s' :
  batch <> [] -> sequenceReports (mkBatch 0 batch) s = (b, s') -> envelopes b <> [] /\ sequence b <> 0%nat.
Proof.
  intros Hne. unfold sequenceReports. cbn. destruct batch; [done|]. by intros [= <- <-].
Qed.

Lemma acquire_batch at_ ctx m m' x : acquire_step at_ ctx m = Some (m', x) -> batch_of x = None.
Proof.
  unfold acquire_step. intros H. destruct at_.
  all: repeat match type of H with
    | match ?y with _ => _ end = _ => destruct y; try done
    end.
  all: injection H as _ <-; repeat case_match; done.
Qed.

Lemma transition_reports factories m m' evs : transition factories m m' evs -> report_step m m' evs.
Proof.
  intros H.
  assert (Hnil : forall b ok, EDispatched b ok ∉ ([] : list Event)) by (by intros ? ? ?%elem_of_nil).
  assert (Hone : forall c b ok, EDispatched b ok ∉ [ECalled c]) by (by intros ? ? ? ?%list_elem_of_singleton).
  rule_cases H.
  all: try (apply rs_other; try done; auto; cbn; repeat (first [apply silent_refl|apply silent_insert]); try done; in_agents; done).
  all: try (match goal with |- report_step _ _ (ECalled <$> ?l) => destruct (called_only (ECalled <$> l) (ecalled_only l)) as (? & ? & ?) end;
     apply rs_other; try done; auto; cbn; repeat (first [apply silent_refl|apply silent_insert]); try done; in_agents; done).
  - destruct batch as [|e batch].
    + injection H1 as <- <-. apply rs_other; try done; auto. cbn. apply silent_insert; [apply silent_refl|done|by rewrite H0].
    + destruct (sequence_new (e :: batch) (reports m) b s) as [Hb _]; [done..|].
      eapply (rs_sequence _ _ _ a (Dispatching b o) (e :: batch) b); try done; [|by cbn; rewrite H0].
      cbn. by destruct (envelopes b).
  - apply rs_other; try done; auto. cbn. apply silent_insert; [apply silent_refl| |by rewrite H].
    by eapply acquire_batch.
  - eapply (rs_sequence _ _ _ a (AsyncDispatch g b) batch b); try done. by rewrite H.
  - eapply (rs_dispatch _ _ _ a (AsyncDispatch g b) (AsyncSchedule g) b ok); try done.
    intros b' ok' Hin%list_elem_of_singleton. by injection Hin as -> ->.
  - apply rs_other; try done; auto. cbn. apply silent_insert; [apply silent_insert; [apply silent_refl|done|by rewrite H0]|done|].
    rewrite lookup_insert_ne by congruence. by rewrite H.
  - assert (Hx : batch_of x = None) by (by destruct H1 as [[? ->]| ->]).
    assert (Hev : sequenced evs = [] /\ delivered evs = [] /\
      forall b' ok', EDispatched b' ok' ∈ evs -> b' = b /\ ok' = ok /\ envelopes b <> []).
    { clear -H2. induction H2 as [|e evs He _ (IH1 & IH2 & IH3)]; [split_and!; [done..|by intros ? ? ?%elem_of_nil]|].
      unfold sequenced, delivered in *. destruct He as [[-> Hne]| ->]; cbn; split_and!; try done;
        intros b' ok' [E|Hin]%elem_of_cons; try (by injection E as -> ->); try done; by apply IH3. }
    destruct Hev as (? & ? & Hd). destruct (envelopes b) as [|e l] eqn:Eb.
    + assert (s = reports m) as ->. { unfold dispatchReports in H0. rewrite Eb in H0. by injection H0 as _ <-. }
      apply rs_other; try done; auto; [|intros b' ok' Hin; by destruct (Hd _ _ Hin) as (_ & _ & ?)].
      cbn. apply silent_insert; [apply silent_refl|done|]. rewrite H. cbn. by rewrite Eb.
    + eapply (rs_dispatch _ _ _ a (Dispatching b o) x b ok); try done; [by cbn; rewrite Eb|].
      intros b' ok' Hin. by destruct (Hd _ _ Hin) as (-> & -> & _).
  - assert (Hev : sequenced evs = [] /\ delivered evs = [] /\ forall b' ok', EDispatched b' ok' ∉ evs).
    { clear -H3. induction H3 as [|e evs He _ (IH1 & IH2 & IH3)]; [split_and!; [done..|by intros ? ? ?%elem_of_nil]|].
      destruct o; [|done]. injection He as ->. unfold sequenced, delivered in *. cbn. split_and!; try done.
      intros b' ok' [?|Hin]%elem_of_cons; [done|by eapply IH3]. }
    destruct Hev as (? & ? & ?). apply rs_other; try done; [|destruct H1 as [->|[_ ->]]; auto].
    cbn. apply silent_insert; [apply silent_refl| |by rewrite H]. by destruct H2 as [->|(? & ? & ->)].
  - by eapply (rs_worker _ _ _ ok s attempts).
Qed.

Lemma sequenced_app tr evs : sequenced (tr ++ evs) = sequenced tr ++ sequenced evs.
Proof. apply omap_app. Qed.

Lemma delivered_app tr evs : delivered (tr ++ evs) = delivered tr ++ delivered evs.
Proof. apply omap_app. Qed.

Lemma count_agent f ag : count f ag <> 0%nat -> exists a x, ag !! a = Some x /\ f x = true.
Proof.
  unfold count. intros H. destruct (map_choose (filter (fun kv => f (snd kv) = true) ag)) as (a & x & Ha).
  - intros E. by rewrite E in H.
  - apply map_lookup_filter_Some in Ha as [? ?]. eauto.
Qed.

Lemma brings_batch k x : brings k x = true -> exists b, batch_of x = Some b /\ sequence b = k.
Proof. unfold brings. destruct (batch_of x) as [b|]; [|done]. intros E%Nat.eqb_eq. eauto. Qed.

(** A step that leaves batches alone. *)
Lemma reports_ok_other tr evs m m' :
  reports_ok tr m -> silent (agents m) (agents m') -> sequenced evs = [] -> delivered evs = [] ->
  (forall b ok, EDispatched b ok ∉ evs) -> spool_ok (sequenced tr) (delivered tr) (reports m') ->
  (forall k, taken_in k (reports m') <-> taken_in k (reports m)) ->
  (reportSpoolClosed (reports m) = true -> reportSpoolClosed (reports m') = true) -> reports_ok (tr ++ evs) m'.
Proof.
  intros [Hs Hb Ho Hf Hn Hr] Hag Hse Hde Hnd Hs' Ht Hc.
  split; rewrite ?sequenced_app, ?delivered_app, ?Hse, ?Hde, ?app_nil_r; [done|..].
  - intros a x b Ha Hx. destruct (silent_batch _ _ _ _ _ Hag Ha Hx) as (y & Hy & Hyb). by eapply Hb.
  - intros k. rewrite (silent_count _ _ _ Hag). apply Ho.
  - intros k. rewrite (silent_count _ _ _ Hag), Ht. apply Hf.
  - intros k. rewrite Ht. apply Hn.
  - intros b [Hin|Hin]%elem_of_app; [apply Hc; by eapply Hr|by destruct (Hnd _ _ Hin)].
Qed.

Lemma reports_ok_sequence tr m m' a x batch b :
  reports_ok tr m -> batch <> [] -> sequenceReports (mkBatch 0 batch) (reports m) = (b, reports m') ->
  agents m' = <[a := x]> (agents m) -> batch_of x = Some b -> (agents m !! a ≫= batch_of) = None ->
  reports_ok (tr ++ [ESequenced b]) m'.
Proof.
  intros [Hs Hb Ho Hf Hn Hr] Hne E Hag Hx Ha.
  pose proof (sequence_ok _ _ _ (mkBatch 0 batch) Hs eq_refl) as Hsq. rewrite E in Hsq.
  destruct Hsq as [(? & _)|(_ & Hseq & Hs')]; [done|].
  assert (Ht : forall k, taken_in k (reports m') <-> taken_in k (reports m)).
  { unfold sequenceReports in E. cbn in E. destruct batch; [done|]. by injection E as _ <-. }
  assert (Hc : reportSpoolClosed (reports m') = reportSpoolClosed (reports m)).
  { unfold sequenceReports in E. cbn in E. destruct batch; [done|]. by injection E as _ <-. }
  assert (Hcount : forall k, count (brings k) (agents m') = (count (brings k) (agents m) + b2n (sequence b =? k)%nat)%nat).
  { intros k. rewrite Hag. pose proof (count_insert (brings k) (agents m) a x) as Hi.
    assert (brings k x = (sequence b =? k)%nat) as Ex by (unfold brings; by rewrite Hx). rewrite Ex in Hi.
    assert (from_option (brings k) false (agents m !! a) = false) as Ea.
    { destruct (agents m !! a) as [y|]; [|done]. cbn in *. unfold brings. by rewrite Ha. }
    rewrite Ea in Hi. cbn in Hi. lia. }
  assert (Hold : forall k, count (brings k) (agents m) <> 0%nat -> (0 < k <= length (sequenced tr))%nat).
  { intros k (c & y & Hy & (b' & Hb' & <-)%brings_batch)%count_agent. destruct (Hb c y b' Hy Hb') as [Hl ?].
    apply lookup_lt_Some in Hl. lia. }
  split; rewrite ?sequenced_app, ?delivered_app; cbn [sequenced delivered omap list_omap]; rewrite ?app_nil_r; [done|..].
  - intros c y b' Hy Hb'. rewrite Hag in Hy. apply lookup_insert_Some in Hy as [[<- <-]|[_ Hy]].
    + assert (b' = b) as -> by congruence. rewrite Hseq. cbn. split; [|done]. by rewrite lookup_app_r, Nat.sub_diag.
    + destruct (Hb c y b' Hy Hb'). split; [by apply lookup_app_l_Some|done].
  - intros k. rewrite Hcount. destruct (Nat.eqb_spec (sequence b) k) as [<-|]; cbn; [|specialize (Ho k); lia].
    destruct (decide (count (brings (sequence b)) (agents m) = 0%nat)) as [->|Hne']; [lia|]. specialize (Hold _ Hne'). lia.
  - intros k. rewrite Hcount, Ht. destruct (Nat.eqb_spec (sequence b) k) as [<-|]; cbn.
    + intros _ Hk. specialize (Hn _ Hk). lia.
    + rewrite Nat.add_0_r. apply Hf.
  - intros k. rewrite Ht, length_app. intros Hk. specialize (Hn k Hk). lia.
  - intros b' [Hin|Hin%list_elem_of_singleton]%elem_of_app; [|done]. rewrite Hc. by eapply Hr.
Qed.

Lemma dispatch_cases b s ok s' : dispatchReports b s = (ok, s') -> envelopes b <> [] -> sequence b <> 0%nat ->
  (ok = false /\ s' = s /\ (reportSpoolClosed s = true \/ taken_in (sequence b) s)) \/
  (ok = true /\ reportSpoolClosed s' = reportSpoolClosed s /\
    forall k, taken_in k s' <-> taken_in k s \/ k = sequence b).
Proof.
  unfold dispatchReports, taken_in. intros Hd Hne Hz. destruct (envelopes b); [done|].
  destruct (Nat.eqb_spec (sequence b) 0) as [|_]; [done|].
  destruct (_ || _) eqn:E.
  { injection Hd as <- <-. left. split_and!; [done..|].
    apply orb_true_iff in E as [[E|E%Nat.leb_le]%orb_true_iff|E%Nat.eqb_eq]; auto. }
  case_bool_decide as Hin; injection Hd as <- <-; [left; auto 10|]. right. split_and!; [done..|]. intros k. cbn.
  rewrite lookup_insert_is_Some. destruct (decide (sequence b = k)); naive_solver.
Qed.

Lemma reports_ok_dispatch tr evs m m' a x y b ok :
  reports_ok tr m -> agents m !! a = Some x -> batch_of x = Some b -> dispatchReports b (reports m) = (ok, reports m') ->
  agents m' = <[a := y]> (agents m) -> batch_of y = None -> sequenced evs = [] -> delivered evs = [] ->
  (forall b' ok', EDispatched b' ok' ∈ evs -> b' = b /\ ok' = ok) -> reports_ok (tr ++ evs) m'.
Proof.
  intros [Hs Hb Ho Hf Hn Hr] Ha Hx E Hag Hy Hse Hde Hd. destruct (Hb a x b Ha Hx) as [Hl Hz].
  destruct (so_numbers _ _ _ Hs _ _ Hl) as [_ Hne].
  pose proof (dispatch_ok _ _ _ _ Hs Hl) as Hs'. rewrite E in Hs'. cbn [snd] in Hs'.
  assert (Hcount : forall k, (count (brings k) (agents m') + b2n (sequence b =? k)%nat = count (brings k) (agents m))%nat).
  { intros k. rewrite Hag. pose proof (count_insert (brings k) (agents m) a y) as Hi. rewrite Ha in Hi. cbn [from_option] in Hi.
    assert (brings k x = (sequence b =? k)%nat) as Ex by (unfold brings; by rewrite Hx).
    assert (brings k y = false) as Ey by (unfold brings; by rewrite Hy). rewrite Ex, Ey in Hi. cbn in Hi. lia. }
  assert (Hmine : ~ taken_in (sequence b) (reports m)).
  { apply Hf. specialize (Hcount (sequence b)). rewrite Nat.eqb_refl in Hcount. cbn in Hcount. lia. }
  assert (Hgone : count (brings (sequence b)) (agents m') = 0%nat).
  { specialize (Hcount (sequence b)). rewrite Nat.eqb_refl in Hcount. cbn in Hcount. specialize (Ho (sequence b)). lia. }
  assert (Hlen : (sequence b <= length (sequenced tr))%nat) by (apply lookup_lt_Some in Hl; lia).
  assert (Ht : (forall k, taken_in k (reports m') -> taken_in k (reports m) \/ k = sequence b) /\
    reportSpoolClosed (reports m') = reportSpoolClosed (reports m) /\ (ok = false -> reportSpoolClosed (reports m) = true)).
  { destruct (dispatch_cases _ _ _ _ E Hne Hz) as [(-> & -> & [Hc|?])|(-> & Hc & Hk)]; [|done|].
    - split_and!; auto.
    - split_and!; [|done|done]. intros k. by rewrite Hk. }
  destruct Ht as (Ht & Hc & Hrefused).
  split; rewrite ?sequenced_app, ?delivered_app, ?Hse, ?Hde, ?app_nil_r; [done|..].
  - intros c z b' Hz' Hb'. rewrite Hag in Hz'. apply lookup_insert_Some in Hz' as [[<- <-]|[_ Hz']]; [congruence|by eapply Hb].
  - intros k. specialize (Ho k). specialize (Hcount k). lia.
  - intros k Hk Hin. destruct (Ht k Hin) as [Hin'| ->]; [|done]. apply (Hf k); [|done]. specialize (Hcount k). lia.
  - intros k Hin. destruct (Ht k Hin) as [?| ->]; [by apply Hn|done].
  - intros b' [Hin|Hin]%elem_of_app; rewrite Hc; [by eapply Hr|]. apply Hrefused. by destruct (Hd _ _ Hin).
Qed.

Lemma worker_taken hist dl s ok s' attempts :
  spool_ok hist dl s -> worker_step ok s = Some (s', attempts) ->
  (forall k, taken_in k s' -> taken_in k s) /\ reportSpoolClosed s' = reportSpoolClosed s.
Proof.
  intros [_ _ Hw]. unfold worker_step, worker_ok, taken_in in *. destruct (negb (reporterStarted s)); [done|].
  destruct (worker s) as [e|seq [|env rest]|] eqn:Ew; [| | |done].
  - destruct Hw as (-> & _). destruct (reportSpool s !! _) as [b|] eqn:Eb.
    + intros [= <- <-]. cbn. split; [|done]. intros k [?|[->|[z Hz%lookup_delete_Some]]]; [by left|by right; right; rewrite Eb|].
      right. right. exists z. naive_solver.
    + destruct (reportSpoolClosed s) eqn:Ec; [|done]. intros [= <- <-]. by cbn.
  - destruct Hw as (-> & Hd & _). intros [= <- <-]. cbn. split; [|done]. intros k [?|[?|?]]; [|by auto..].
    destruct (decide (k = S (reportCompleted s))) as [->|]; [by auto|left; lia].
  - destruct ok; intros [= <- <-]; by cbn.
Qed.

Lemma reports_ok_step factories tr m m' evs :
  reports_ok tr m -> transition factories m m' evs -> reports_ok (tr ++ evs) m'.
Proof.
  intros Hro H. pose proof Hro as [Hs Hb Ho Hf Hn Hr].
  destruct (transition_reports _ _ _ _ H) as
    [Hag Hse Hde Hnd Hsp|a x batch b Hne E Hag Hx Ha ->|a x y b ok Ha Hx E Hag Hy Hse Hde Hd|ok s attempts Hw <- Hag ->].
  - apply (reports_ok_other tr evs m m' Hro Hag Hse Hde Hnd); destruct Hsp as [->|[->| ->]]; try done.
    + by apply spool_ok_start.
    + by apply close_ok.
    + intros k. unfold taken_in, requestReporterClose. by destruct (reporterStarted _).
    + unfold requestReporterClose. by destruct (reporterStarted _).
  - by eapply reports_ok_sequence.
  - by eapply reports_ok_dispatch.
  - destruct (worker_taken _ _ _ _ _ _ Hs Hw) as [Ht Hc]. pose proof (worker_step_ok _ _ _ _ _ _ Hs Hw) as Hs'.
    assert (Hev : forall l : list (reportEnvelope * bool), let evs := (fun t => EReported (fst t) (snd t)) <$> l in
      sequenced evs = [] /\ delivered evs = taken l /\ forall b ok, EDispatched b ok ∉ evs).
    { induction l as [|[e r] l (IH1 & IH2 & IH3)]; cbn; [split_and!; [done..|by intros ? ? ?%elem_of_nil]|].
      split_and!; [done| |intros ? ? [?|Hin]%elem_of_cons; [done|by eapply IH3]]. unfold taken, delivered in *. cbn.
      destruct r; cbn; by rewrite IH2. }
    destruct (Hev attempts) as (Hse & Hde & Hnd).
    split; rewrite ?sequenced_app, ?delivered_app, ?Hse, ?Hde, ?app_nil_r, ?Hag; [done|done|done|..].
    + intros k Hk Hin. by apply (Hf k Hk), Ht.
    + intros k Hin. by apply Hn, Ht.
    + intros b [Hin|Hin]%elem_of_app; rewrite Hc; [by eapply Hr|by destruct (Hnd _ _ Hin)].
Qed.

Lemma reports_ok_initial factories config : reports_ok [] (initial factories config).
Proof.
  assert (Hag : forall k, count (brings k) (agents (initial factories config)) = 0%nat) by (intros; apply count_empty).
  split; [exact spool_ok_new| | | | |].
  - intros a x b. cbn. by rewrite lookup_empty.
  - intros k. rewrite Hag. lia.
  - intros k. by rewrite Hag.
  - intros k [?|[->|[z Hz]]]; cbn in *; [lia|lia|by rewrite lookup_empty in Hz].
  - by intros b ?%elem_of_nil.
Qed.

(** ** Generations *)

Definition generations (m : Manager) : gmap nat nat := gr_generation <$> graphs m.

Record generations_ok (m : Manager) : Prop := {
  gk_range : forall g n, generations m !! g = Some n -> (1 <= n <= size (generations m))%nat;
  gk_all : forall k, (1 <= k <= size (generations m))%nat -> exists g, generations m !! g = Some k;
  gk_one : forall g g' n, generations m !! g = Some n -> generations m !! g' = Some n -> g = g';
  gk_active : forall g, active m = Some g -> generations m !! g = Some (size (generations m));
  gk_none : active m = None -> m_closed m = true \/ generations m = ∅;
}.

Lemma generations_same gs g gr gr' : gs !! g = Some gr -> gr_generation gr' = gr_generation gr ->
  gr_generation <$> <[g := gr']> gs = gr_generation <$> (gs : gmap nat Graph).
Proof. intros Hg E. rewrite fmap_insert, E. apply insert_id. by rewrite lookup_fmap, Hg. Qed.

Lemma generations_ok_initial factories config : generations_ok (initial factories config).
Proof.
  assert (E : generations (initial factories config) = ∅) by apply fmap_empty.
  split; rewrite E; try (by intros; rewrite ?lookup_empty in *); [|by right].
  intros k. rewrite map_size_empty. lia.
Qed.

Lemma generations_from factories m m' evs :
  manager_ok m -> transition factories m m' evs ->
  (generations m' = generations m /\ (m_closed m = true -> m_closed m' = true) /\
    (active m' = active m \/ (active m' = None /\ m_closed m' = true))) \/
  (exists g, graphs m !! g = None /\ active m' = Some g /\ m_closed m = false /\
     generations m' = <[g := next_generation m (active m)]> (generations m)).
Proof.
  intros [[_ _ _ Hf] Ho _ _ _ _ _ Hc _ _] H. unfold generations. pose proof (oo_txn _ Ho) as Ht. unfold closed_ok in Hc.
  rule_cases H; cbn [graphs agents groups transaction active m_closed with_txn with_group with_graph with_agent
    with_active with_closed with_pending with_async with_reports finish] in *; auto 6;
    try (left; split_and!; [|done|by left]; eapply generations_same; [eassumption|]; try done; apply release_le).
  - right. exists g. rewrite H in *. destruct Hf as [Hf _]. split_and!; try done. rewrite fmap_insert. by rewrite Ht.
  - left. rewrite H in Hc. split_and!; auto.
  - left. split_and!; [|done|by left]. eapply generations_same; [eassumption|]. by apply (fork_le graph).
Qed.

Lemma generations_ok_step factories m m' evs :
  manager_ok m -> generations_ok m -> transition factories m m' evs -> generations_ok m'.
Proof.
  intros Hm [Hr Hall Hi Ha Hn] H. destruct (generations_from _ _ _ _ Hm H) as [(Hg & Hc & Hact)|(g & Hg & Hact & Hc & E)].
  - split; rewrite Hg; [done|done|done| |].
    + intros g E. destruct Hact as [Hact|[Hact _]]; [|congruence]. apply Ha. congruence.
    + intros E. destruct Hact as [Hact|[_ ?]]; [|by left]. rewrite Hact in E. destruct (Hn E); auto.
  - assert (Hnew : generations m !! g = None) by (unfold generations; by rewrite lookup_fmap, Hg).
    assert (Hnext : next_generation m (active m) = S (size (generations m))).
    { destruct (active m) as [old|] eqn:Eo; cbn.
      - specialize (Ha old eq_refl). unfold generations in Ha. rewrite lookup_fmap in Ha.
        destruct (graphs m !! old) as [gr|] eqn:Eg; [|done]. cbn in Ha. injection Ha as Ha. unfold generation_of. cbn in *. rewrite ?Eg. cbn.
        unfold generations. lia.
      - destruct (Hn eq_refl) as [?| ->]; [congruence|by rewrite map_size_empty]. }
    assert (Hs : size (generations m') = S (size (generations m))) by (rewrite E; by apply map_size_insert_None).
    rewrite Hnext in E.
    assert (Hl : forall g' n, generations m' !! g' = Some n -> (g' = g /\ n = S (size (generations m))) \/ (g' <> g /\ generations m !! g' = Some n)).
    { intros g' n. rewrite E. intros [[<- <-]|[? ?]]%lookup_insert_Some; auto. }
    split; rewrite ?Hs.
    + intros g' n [[_ ->]|[_ Hx]]%Hl; [lia|]. specialize (Hr g' n Hx). lia.
    + intros k Hk. destruct (decide (k = S (size (generations m)))) as [->|]; [exists g; by rewrite E, lookup_insert_eq|].
      destruct (Hall k) as [g' Hg']; [lia|]. exists g'. rewrite E, lookup_insert_ne; [done|congruence].
    + intros g1 g2 n [[-> ->]|[Hn1 Hx]]%Hl [[-> Hy]|[Hn2 Hy]]%Hl; [done| | |by eapply Hi].
      * specialize (Hr g2 _ Hy). lia.
      * subst n. specialize (Hr g1 _ Hx). lia.
    + intros g' E'. assert (g' = g) as -> by congruence. rewrite E. by rewrite lookup_insert_eq.
    + congruence.
Qed.

(** ** Settings that need a restart *)

Definition same_local (old c : GraphConfig) : Prop :=
  gc_LocalPath c = gc_LocalPath old /\ gc_JudgeBodiesPath c = gc_JudgeBodiesPath old /\
  gc_RetainJudgeBodies c = gc_RetainJudgeBodies old.

Lemma restartRequiredField_None old c : restartRequiredField old c = None -> same_local old c.
Proof.
  unfold restartRequiredField, same_local. destruct (String.eqb_spec (gc_LocalPath old) (gc_LocalPath c)) as [->|]; [|done].
  destruct (String.eqb_spec (gc_JudgeBodiesPath old) (gc_JudgeBodiesPath c)) as [->|]; [|done].
  destruct (Bool.eqb _ _) eqn:E; [|done]. by apply eqb_prop in E as ->.
Qed.

Record settings_ok (config : GraphConfig) (m : Manager) : Prop := {
  se_graph : forall g gr, graphs m !! g = Some gr -> same_local config (gr_config gr);
  se_build : forall c g previous fs, transaction m = Building c g previous fs -> same_local config c;
}.

Lemma settings_from factories m m' evs c g previous fs :
  transition factories m m' evs -> transaction m' = Building c g previous fs ->
  (exists fs', transaction m = Building c g previous fs') \/
  exists old, active m = Some old /\ (graphs m !! old ≫= fun graph => restartRequiredField (gr_config graph) c) = None.
Proof.
  intros H. rule_cases H; cbn [graphs agents groups transaction active with_txn with_group with_graph with_agent
    with_active with_closed with_pending with_async with_reports finish] in *; intros E; simplify_eq; eauto.
Qed.

Lemma settings_ok_step factories config m m' evs :
  manager_ok m -> settings_ok config m -> transition factories m m' evs -> settings_ok config m'.
Proof.
  intros Hm [Hg Hb] H. split.
  - intros g gr' Hg'. destruct (graphs m !! g) as [gr|] eqn:E.
    + destruct (graph_stable _ _ _ _ _ _ (mo_users _ Hm) H E) as (gr1 & Hg1 & Hc & _). assert (gr1 = gr') as -> by congruence.
      rewrite Hc. by eapply Hg.
    + destruct (graph_new _ _ _ _ _ _ H Hg' E) as (c & previous & Et & -> & _). cbn. by eapply Hb.
  - intros c g previous fs E. destruct (settings_from _ _ _ _ _ _ _ _ H E) as [[fs' Et]|(old & Ha & Hr)]; [by eapply Hb|].
    destruct (ro_active _ (mo_retire _ Hm) old Ha) as (gr & Hgr & _). rewrite Hgr in Hr. cbn in Hr.
    apply restartRequiredField_None in Hr. specialize (Hg old gr Hgr). unfold same_local in *. destruct_and!. split_and!; congruence.
Qed.

(** ** Acquire *)

Lemma closed_mono factories m m' evs : transition factories m m' evs -> m_closed m = true -> m_closed m' = true.
Proof.
  intros H. by rule_cases H; cbn [m_closed with_txn with_group with_graph with_agent with_active with_closed with_pending with_async
    with_reports finish].
Qed.

Lemma recheck_from factories m m' evs a g :
  transition factories m m' evs -> agents m' !! a = Some (Acquiring (Recheck g)) ->
  agents m !! a = Some (Acquiring (Recheck g)) \/ (agents m !! a = Some (Acquiring (Revalidate g)) /\ active m = Some g).
Proof.
  intros H. rule_cases H; cbn [graphs agents groups transaction active with_txn with_group with_graph with_agent
    with_active with_closed with_pending with_async with_reports finish] in *; auto; intros Ha;
    repeat match goal with Hl : <[_ := _]> _ !! _ = Some _ |- _ => apply lookup_insert_Some in Hl as [[? ?]|[_ Hl]] end;
    subst; try done; try (by left); simplify_eq; eauto.
  - right. unfold acquire_step in *. destruct at_; repeat case_match; simplify_eq; try done.
    case_bool_decide; [|done]. simplify_eq. done.
  - by match goal with E : _ \/ Acquiring _ = Ended |- _ => destruct E as [[? ?]|?] end.
Qed.

Section Runs.
Context (factories : list ComponentFactory) (config : GraphConfig).

Notation reached := (reachable (step factories) (initial factories config)).

(** A producer about to look at the closed flag again has seen the graph active
    in an earlier state of the same call. *)
Definition acquire_ok (ls : list Label) (m : Manager) : Prop :=
  forall a g, agents m !! a = Some (Acquiring (Recheck g)) ->
    exists ls1 ls2 m1 tr1, ls = ls1 ++ ls2 /\ reached ls1 m1 tr1 /\ agents m1 !! a = Some (Acquiring (Revalidate g)) /\
      active m1 = Some g /\ (m_closed m1 = true -> m_closed m = true).

Record run_ok (ls : list Label) (m : Manager) (tr : list Event) : Prop := {
  ru_state : manager_ok m;
  ru_generations : generations_ok m;
  ru_settings : settings_ok config m;
  ru_live : live_ok factories m;
  ru_torn : torn_ok tr m;
  ru_reports : reports_ok tr m;
  ru_acquire : acquire_ok ls m;
}.

Lemma reached_ok ls m tr : reached ls m tr -> run_ok ls m tr.
Proof.
  intros H. induction H as [|ls m tr l m' evs Hre [Hm Hgen Hset Hl Ht Hr Ha] Hs].
  - split; [apply manager_ok_initial|apply generations_ok_initial| |apply live_ok_initial|by intros c ?%elem_of_nil|
      apply reports_ok_initial|intros a g; cbn; by rewrite lookup_empty].
    split; [intros g gr; cbn; by rewrite lookup_empty|]. by intros c g previous fs [= <- _ _ _].
  - apply step_transition in Hs. pose proof (manager_ok_step _ _ _ _ Hm Hs) as Hm'.
    split; [done|exact (generations_ok_step _ _ _ _ Hm Hgen Hs)|exact (settings_ok_step _ _ _ _ _ Hm Hset Hs)|
      exact (live_ok_step _ _ _ _ Hm Hm' Hl Hs)|exact (torn_ok_step _ _ _ _ _ Hm Hm' Ht Hs)|exact (reports_ok_step _ _ _ _ _ Hr Hs)|].
    intros a g Hag. destruct (recheck_from _ _ _ _ _ _ Hs Hag) as [Hold|[Hrv Hact]].
    + destruct (Ha a g Hold) as (ls1 & ls2 & m1 & tr1 & -> & Hr1 & Ha1 & Hac & Hc).
      exists ls1, (ls2 ++ [l]), m1, tr1. rewrite app_assoc. split_and!; try done. intros Hc1. by eapply closed_mono, Hc.
    + exists ls, [l], m, tr. split_and!; try done. intros Hc. by eapply closed_mono.
Qed.
End Runs.
