(* ===== verification/ManagerProps.v ===== *)
(** * Properties of the runtime manager

    Leases, ownership of generations, teardown, reports and their witnesses. *)
From stdpp Require Import base list gmap strings.
From Stdlib Require Import ZArith Lia.
From S2P Require Import Prelude GoStrings Taxonomy RoutingPlan RuntimeGraph ReportSpool RuntimeManager ManagerFacts ManagerInvariants ManagerCleanup ManagerTrace.

Section Facts.
Context (factories : list ComponentFactory) (config : GraphConfig).
Notation reached := (reachable (step factories) (initial factories config)).

(** A graph somebody holds is in use. *)
Lemma held_in_use m a x g : users_ok m -> agents m !! a = Some x -> holds x = Some g ->
  exists gr, graphs m !! g = Some gr /\ ready gr = true /\ quiescent gr <> Quiescent.
Proof.
  intros [Hc Hr _ _] Ha Hh. destruct (Hr a x g Ha Hh) as (gr & Hg & Hre). exists gr. split_and!; [done|done|].
  destruct (Hc g gr Hg) as [Hu Hq]. intros E. unfold quiet_ok in Hq. rewrite E in Hq. destruct Hq as [_ Hz].
  assert (0 < held g (agents m))%nat; [|lia]. eapply count_pos; [exact Ha|by apply bool_decide_eq_true].
Qed.

Lemma byName_unique es e : NoDup (e_name <$> es) -> e ∈ es -> has_component e = true -> byName es (e_name e) = Some e.
Proof.
  intros Hn He Hc. unfold byName. apply list_elem_of_split in He as (l1 & l2 & ->).
  rewrite fmap_app, fmap_cons in Hn. apply NoDup_app in Hn as (_ & Hd & [Hn _]%NoDup_cons).
  rewrite filter_app, filter_cons_True by done.
  assert (Hnone : forall l, e_name e ∉ e_name <$> l -> filter (fun e' => has_component e' = true /\ e_name e' = e_name e) l = []).
  { intros l Hl. induction l as [|x l IH]; [done|]. rewrite fmap_cons, not_elem_of_cons in Hl. destruct Hl as [Hx Hl].
    rewrite filter_cons_False by (intros [_ E]; by rewrite E in Hx). by apply IH. }
  rewrite !Hnone; [done|done|]. intros Hin. apply (Hd _ Hin). by left.
Qed.

Lemma live_component es f : live_entries factories es [] -> NoDup (f_Name <$> factories) -> f ∈ factories ->
  exists i e, e ∈ es /\ byName es (f_Name f) = Some e /\ live_entry e /\ component e = PointerTo i.
Proof.
  intros [Hn Hl] Hd Hf. cbn in Hn. rewrite app_nil_r in Hn.
  assert (Hin : f_Name f ∈ e_name <$> es) by (rewrite Hn; by apply list_elem_of_fmap_2).
  apply list_elem_of_fmap in Hin as (e & He & Hin). rewrite Forall_forall in Hl. pose proof (Hl e Hin) as (Hc & Hv & Hm).
  unfold validComponent in Hv. destruct (component e) as [| |i] eqn:Ec; try done. exists i, e. split; [done|]. split; [|by split; [apply Hl|]].
  rewrite He. apply byName_unique; [by rewrite Hn|done|]. unfold has_component. by rewrite Ec.
Qed.
End Facts.

(** C7: a lease keeps its generation alive: while it is held no component of the generation has been stopped, drained, closed or cleaned up, and the lease gives out every component that a factory made for it. *)
Theorem lease_safety factories config ls m tr a g :
  NoDup (f_Name <$> factories) ->
  reachable (step factories) (initial factories config) ls m tr -> agents m !! a = Some (Leased g) ->
  (forall c, ECalled c ∈ tr -> group c = g -> is_teardown (call c) = false) /\
  (forall f, f ∈ factories -> exists i, lease_Component m a (f_Name f) = Some (PointerTo i) /\ i ∈ owned m).
Proof.
  intros Hd H Ha. apply reached_ok in H as [[Hu _ Hw _ _ _ _ _ _ _] _ _ Hl Ht _ _].
  destruct (held_in_use m a (Leased g) g Hu Ha eq_refl) as (gr & Hg & Hre & Hq). split.
  - intros c Hc <-. apply not_true_is_false. intros E. destruct (Ht c Hc E) as [Hdead _]. by apply Hq, Hdead.
  - intros f Hf. destruct (lv_graph _ _ Hl g gr Hg Hq) as [Hes Hav].
    destruct (live_component factories _ f Hes Hd Hf) as (i & e & He & Hb & (Hc & _ & Hm) & Hi).
    pose proof He as [k Hk]%list_elem_of_lookup. exists i. unfold lease_Component, lease_Graph. rewrite Ha, Hb, Hc.
    specialize (Hav Hre). rewrite Forall_forall in Hav. rewrite (Hav e He), Hi. split; [done|].
    destruct (ow_entry _ Hw g k e Hk) as (Hid & _). specialize (Hid Hm). rewrite Hi in Hid. injection Hid as ->.
    by eapply ow_owned.
Qed.

(** C20: what a generation still owns has exactly one party to clean it up, the active pointer, the transaction or one goroutine, and an owned component belongs to exactly one entry of one generation. *)
Theorem one_owner factories config ls m tr :
  reachable (step factories) (initial factories config) ls m tr ->
  (forall g, hasCleanupOwnership (entries_of m g) = true -> owners g m = 1%nat) /\
  (forall d, d ∈ owned m -> exists g i, (exists e, entries_of m g !! i = Some e /\ claimed e = true /\ component e = PointerTo d) /\
    forall g' i' e', entries_of m g' !! i' = Some e' -> claimed e' = true -> component e' = PointerTo d -> g' = g /\ i' = i).
Proof.
  intros H. apply reached_ok in H as [[_ Ho Hw _ Hl _ _ _ _ _] _ _ _ _ _ _]. split.
  - intros g Hg. pose proof (oo_one _ Ho g). destruct (decide (owners g m = 0%nat)) as [E|]; [|lia]. by rewrite (Hl g E) in Hg.
  - intros d Hd. destruct (ow_claimed _ Hw d Hd) as (g & i & e & He & Hc & Hi). exists g, i.
    assert (Hid : forall g i e, entries_of m g !! i = Some e -> claimed e = true -> component e = PointerTo (identity e))
      by (intros ? ? ? Hx; by apply (ow_entry _ Hw _ _ _ Hx)).
    split; [exists e; rewrite <-Hi; eauto|]. intros g' i' e' He' Hc' Hd'. rewrite (Hid _ _ _ He' Hc') in Hd'. injection Hd' as Hd'.
    eapply (ow_one _ Hw); try done. congruence.
Qed.

(** C19: once a closed manager has no transaction and no clean-up to wait for, which is when WaitCleanup returns nil, nothing is owned by any generation that ever was. *)
Theorem WaitCleanup_complete factories config ls m tr :
  reachable (step factories) (initial factories config) ls m tr ->
  m_closed m = true -> transaction m = Idle -> cleanup_done m ->
  owned m = ∅ /\ forall g, hasCleanupOwnership (entries_of m g) = false.
Proof.
  intros H Hc Ht [Hp Ha]. apply reached_ok in H as [[_ _ Hw _ Hl Hpd Has Hcl _ _] _ _ _ _ _ _].
  assert (Hall : forall g, hasCleanupOwnership (entries_of m g) = false).
  { intros g. apply Hl. unfold owners, handled. rewrite Ht. unfold closed_ok in Hcl. rewrite Ht in Hcl. rewrite (Hcl Hc). cbn [txn_handles].
    rewrite !b2n_none. assert (count (fun x => bool_decide (handles x = Some g)) (agents m) = 0%nat) as ->; [|done].
    rewrite Has in Ha. apply count_zero. intros a x Hx. apply bool_decide_eq_false. intros Hh.
    rewrite count_zero in Ha. specialize (Ha a x Hx). assert (Hr : g ∈ pending m) by (apply Hpd; exists a, x; by destruct x).
    rewrite Hp in Hr. by apply elem_of_empty in Hr. }
  split; [|done]. apply set_eq. intros d. split; [|by intros ?%elem_of_empty]. intros Hd. exfalso.
  destruct (ow_claimed _ Hw d Hd) as (g & i & e & He & Hcm & _). specialize (Hall g). unfold hasCleanupOwnership in Hall.
  assert (E : existsb owns (entries_of m g) = true); [|congruence]. apply existsb_exists. exists e. split.
  - apply list_elem_of_In, list_elem_of_lookup. eauto.
  - unfold owns. by rewrite Hcm, orb_true_r.
Qed.

(** C26: an Acquire that returns a lease has, at one point between its call and its return, found the generation to be the active one of an open manager. *)
Theorem Acquire_linearizes factories config ls m tr a ctx m' evs g :
  reachable (step factories) (initial factories config) ls m tr ->
  step factories (LAcquire a ctx) m = Some (m', evs) -> agents m' !! a = Some (Leased g) ->
  exists ls1 ls2 m1 tr1, ls = ls1 ++ ls2 /\ reachable (step factories) (initial factories config) ls1 m1 tr1 /\
    agents m1 !! a = Some (Acquiring (Revalidate g)) /\ active m1 = Some g /\ m_closed m1 = false.
Proof.
  intros H Hs Ha. apply reached_ok in H as [_ _ _ _ _ _ Hacq]. cbn [step] in Hs.
  destruct (agents m !! a) as [[at_| | | | | | | | | | | | | | | ]|] eqn:E; try done.
  assert (Hst : at_ = Recheck g /\ m_closed m = false).
  { destruct (acquire_step at_ ctx m) as [[m1 x]|] eqn:Eq; [|done]. cbn in Hs. injection Hs as <- <-. cbn in Ha.
    rewrite lookup_insert_eq in Ha. injection Ha as ->. unfold acquire_step in Eq. destruct at_; repeat case_match; simplify_eq; done. }
  destruct Hst as [-> Hc]. destruct (Hacq a g E) as (ls1 & ls2 & m1 & tr1 & -> & Hr & Ha1 & Hact & Hcl).
  exists ls1, ls2, m1, tr1. split_and!; try done. destruct (m_closed m1); [|done]. by rewrite Hcl in Hc.
Qed.

(** The reporter is given the envelopes of the numbered batches once each, in the order of the numbers and within a batch in the order of the batch; batches are numbered one by one, and one is refused only after the spool was closed. *)
Theorem reports_in_order factories config ls m tr :
  reachable (step factories) (initial factories config) ls m tr ->
  delivered tr `prefix_of` concat (envelopes <$> sequenced tr) /\
  (forall i b, sequenced tr !! i = Some b -> sequence b = S i /\ envelopes b <> []) /\
  (forall b, EDispatched b false ∈ tr -> reportSpoolClosed (reports m) = true).
Proof.
  intros H. apply reached_ok in H as [_ _ _ _ _ [Hs _ _ _ _ Hr] _].
  split; [by apply (delivered_prefix _ _ (reports m))|]. split; [apply (so_numbers _ _ _ Hs)|apply Hr].
Qed.

(** the published generations are numbered from 1 without a gap or a repetition, and the active one is the latest; only before the first and after Close is there none. *)
Theorem generations_in_order factories config ls m tr :
  reachable (step factories) (initial factories config) ls m tr ->
  (forall k, (1 <= k <= size (graphs m))%nat <-> exists g gr, graphs m !! g = Some gr /\ gr_generation gr = k) /\
  (forall g gr g' gr', graphs m !! g = Some gr -> graphs m !! g' = Some gr' -> gr_generation gr = gr_generation gr' -> g = g') /\
  (forall g, active m = Some g -> generation_of m (Some g) = size (graphs m)) /\
  (active m = None -> m_closed m = true \/ graphs m = ∅).
Proof.
  intros H. apply reached_ok in H as [_ [Hr Hall Hi Ha Hn] _ _ _ _ _].
  assert (Hsz : size (generations m) = size (graphs m)) by apply map_size_fmap. rewrite Hsz in *.
  assert (Hg : forall g n, generations m !! g = Some n <-> exists gr, graphs m !! g = Some gr /\ gr_generation gr = n).
  { intros g n. unfold generations. rewrite lookup_fmap. destruct (graphs m !! g); cbn; naive_solver. }
  split_and!.
  - intros k. split.
    + intros Hk. destruct (Hall k Hk) as [g Hgk]. exists g. by apply Hg.
    + intros (g & gr & ? & ?). apply (Hr g), Hg. eauto.
  - intros g gr g' gr' E E' Heq. apply (Hi g g' (gr_generation gr)); apply Hg; eauto.
  - intros g E. specialize (Ha g E). apply Hg in Ha as (gr & E' & <-). unfold generation_of. cbn. by rewrite E'.
  - intros E. destruct (Hn E) as [?|E']; [by left|right]. by apply fmap_empty_inv in E'.
Qed.

(** Whatever is reloaded, every generation keeps the audit database, the judge-bodies database and the retention of judge bodies that New was given. *)
Theorem local_settings_fixed factories config ls m tr g gr :
  reachable (step factories) (initial factories config) ls m tr -> graphs m !! g = Some gr ->
  gc_LocalPath (gr_config gr) = gc_LocalPath config /\ gc_JudgeBodiesPath (gr_config gr) = gc_JudgeBodiesPath config /\
  gc_RetainJudgeBodies (gr_config gr) = gc_RetainJudgeBodies config.
Proof. intros H Hg. apply reached_ok in H as [_ _ [Hs _] _ _ _ _]. by eapply Hs. Qed.

(** ** Clean-up comes to an end *)

Section Progress.
Context (factories : list ComponentFactory).

Definition never (c : Called) : bool := false.

Lemma never_exists l : existsb never l = false.
Proof. by induction l. Qed.

Lemma do_action_never g a td : failed (td_result (do_action never g a td)) = failed (td_result td).
Proof.
  destruct a as [i|i]; cbn; (destruct (td_entries td !! i) as [e|]; [|done]).
  - rewrite stop_entry_eq. cbn. by rewrite never_exists.
  - rewrite finish_entry_eq. cbn. by rewrite never_exists.
Qed.

(** A teardown in which no call fails runs to its end. *)
Lemma teardown_runs a g (mk : Progress -> Agent) l todo_ :
  (forall m p m1 p1 evs, agents m !! a = Some (mk p) -> tear_next never g p m = Some (m1, p1, evs) ->
     step factories l m = Some (with_agent a (mk p1) m1, evs)) ->
  forall m p, todo p = todo_ -> agents m !! a = Some (mk p) -> failed (result p) = false ->
  exists m' p' evs, run (step factories) (replicate (length todo_) l) m = Some (m', evs) /\
    agents m' !! a = Some (mk p') /\ todo p' = [] /\ failed (result p') = false.
Proof.
  intros Hstep. induction todo_ as [|x rest IH]; intros m p Hp Ha Hf; [by exists m, p, []|]. cbn [length replicate run].
  destruct (tear_next never g p m) as [[[m1 p1] evs]|] eqn:E; [|apply tear_next_nil in E; congruence].
  rewrite (Hstep _ _ _ _ _ Ha E). unfold tear_next in E. rewrite Hp in E. injection E as <- <- <-.
  match goal with |- context [run _ _ ?m1] => destruct (IH m1 (mkProgress rest (td_result
    (do_action never g x (mkTeardown (entries_of m g) (owned m) (result p) []))))) as (m' & p' & evs' & -> & ?) end.
  - done.
  - cbn. by rewrite lookup_insert_eq.
  - cbn. by rewrite do_action_never.
  - eauto 10.
Qed.
End Progress.

(** The steps of an agent in which no call fails. *)
Definition own_step (a : nat) (l : Label) : Prop := l = LRetry a never \/ exists child, l = LAsync a never child.

Section Completes.
Context (factories : list ComponentFactory) (config : GraphConfig).
Notation reached := (reachable (step factories) (initial factories config)).

(** From the beginning of a teardown to its end. *)
Lemma to_the_end ls m tr a g (mk : Progress -> Agent) l m1 :
  reached ls m tr -> own_step a l -> step factories l m = Some (m1, []) -> agents m1 !! a = Some (mk (start_teardown m g)) ->
  (forall p, tearing (mk p) = Some (g, p)) ->
  (forall m p m1 p1 evs, agents m !! a = Some (mk p) -> tear_next never g p m = Some (m1, p1, evs) ->
     step factories l m = Some (with_agent a (mk p1) m1, evs)) ->
  exists ls' m' p' evs, Forall (own_step a) ls' /\ run (step factories) ls' m = Some (m', evs) /\
    agents m' !! a = Some (mk p') /\ todo p' = [] /\ failed (result p') = false /\ manager_ok m' /\
    hasCleanupOwnership (entries_of m' g) = false.
Proof.
  intros Hre Hl Hs Ha Ht Hstep.
  destruct (teardown_runs factories a g mk l _ Hstep m1 _ eq_refl Ha eq_refl) as (m' & p' & evs & Hrun & Ha' & Hp & Hf).
  assert (Hall : run (step factories) (l :: replicate (length (todo (start_teardown m g))) l) m = Some (m', [] ++ evs)).
  { cbn [run]. by rewrite Hs, Hrun. }
  pose proof (run_reachable _ _ _ _ _ Hall) as Hre'. pose proof (reachable_trans _ _ _ _ _ _ _ _ Hre Hre') as Hre2.
  apply reached_ok in Hre2 as [Hm _ _ _ _ _ _]. do 4 eexists. split; [|split; [exact Hall|]].
  - apply Forall_cons. split; [done|]. by apply Forall_replicate.
  - split_and!; try done. eapply torn_clean; [apply Hm| |exact Hp|exact Hf].
    apply tearer_iff. right. exists a, (mk p'). by rewrite Ht.
Qed.

Lemma retry_completes ls m tr a g : reached ls m tr -> agents m !! a = Some (AwaitRetry g) ->
  exists ls' m' evs, Forall (own_step a) ls' /\ run (step factories) ls' m = Some (m', evs) /\
    hasCleanupOwnership (entries_of m' g) = false /\ g ∉ pending m' /\ (agents m' !! a ≫= handles) = None.
Proof.
  intros Hre Ha. edestruct (to_the_end ls m tr a g (Retrying g) (LRetry a never)) as (ls' & m' & p & evs & Hl & Hr & Ha' & Hp & Hf & Hm & Hc).
  - exact Hre.
  - by left.
  - cbn. unfold retry_step. by rewrite Ha.
  - cbn. by rewrite lookup_insert_eq.
  - done.
  - intros m0 p0 m1 p1 evs Hx E. cbn. unfold retry_step. by rewrite Hx, E.
  - exists (ls' ++ [LRetry a never]).
    assert (Hs : step factories (LRetry a never) m' =
      Some (with_agent a (ClosingReporter MaybeClosed false None) (with_pending (pending m' ∖ {[ g ]}) m'), [])).
    { cbn. unfold retry_step. rewrite Ha'. destruct (tear_next never g p m') eqn:E; [|by rewrite Hf].
      assert (tear_next never g p m' = None) by by apply tear_next_nil. congruence. }
    do 2 eexists. split; [apply Forall_app; split; [done|]; by repeat constructor|].
    split; [eapply run_app; [exact Hr|cbn [run]; by rewrite Hs]|].
    cbn. split; [exact Hc|]. split; [set_solver|]. by rewrite lookup_insert_eq.
Qed.

Lemma async_completes ls m tr a g r : reached ls m tr -> agents m !! a = Some (AwaitQuiescence g r) ->
  (forall b y, agents m !! b = Some y -> holds y <> Some g) ->
  exists ls' m' evs, Forall (own_step a) ls' /\ run (step factories) ls' m = Some (m', evs) /\
    hasCleanupOwnership (entries_of m' g) = false /\ g ∉ pending m' /\ (agents m' !! a ≫= handles) = None.
Proof.
  intros Hre Ha Hno.
  assert (Hq : exists gr, graphs m !! g = Some gr /\ quiescent gr = Quiescent).
  { pose proof Hre as [[[Hc _ _ _] _ _ _ _ _ _ _ _ Hret] _ _ _ _ _ _]%reached_ok.
    destruct (ro_agents _ Hret a g r Ha) as (gr & Hg & Hretd). exists gr. split; [done|].
    destruct (Hc g gr Hg) as [Hu Hqt]. unfold quiet_ok in Hqt. destruct (quiescent gr); [congruence| |done].
    exfalso. destruct Hqt as [_ Hpos]. assert (held g (agents m) = 0%nat); [|lia]. apply count_zero. intros b y Hb.
    apply bool_decide_eq_false. by eapply Hno. }
  destruct Hq as (gr & Hg & Hq).
  edestruct (to_the_end ls m tr a g (AsyncTeardown g r) (LAsync a never 0)) as (ls' & m' & p & evs & Hl & Hr & Ha' & Hp & Hf & Hm & Hc).
  - exact Hre.
  - right. by exists 0%nat.
  - cbn. unfold async_step. rewrite Ha, Hg. cbn. by rewrite Hq.
  - cbn. by rewrite lookup_insert_eq.
  - done.
  - intros m0 p0 m1 p1 evs Hx E. cbn. unfold async_step. by rewrite Hx, E.
  - exists (ls' ++ [LAsync a never 0]).
    assert (Hs : step factories (LAsync a never 0) m' = Some (with_agent a AsyncDone m', [])).
    { cbn. unfold async_step. rewrite Ha'. destruct (tear_next never g p m') eqn:E; [|by rewrite Hf].
      assert (tear_next never g p m' = None) by by apply tear_next_nil. congruence. }
    do 2 eexists. split; [apply Forall_app; split; [done|]; apply Forall_singleton; right; by exists 0%nat|].
    split; [eapply run_app; [exact Hr|cbn [run]; by rewrite Hs]|].
    cbn. split; [exact Hc|]. split; [|by rewrite lookup_insert_eq].
    intros (b & y & Hb & Hy)%(mo_pending _ Hm). destruct (owner_agent g m' a _ (mo_owners _ Hm) Ha' eq_refl) as (_ & _ & Hu).
    assert (b = a) as -> by (apply (Hu b y Hb); by destruct y). rewrite Ha' in Hb. by injection Hb as <-.
Qed.
End Completes.

(** C27: a clean-up that is pending, or that waited for users that are gone now, finishes by its own steps once the calls it makes do not fail: the generation then owns nothing and its batch is no longer pending. *)
Theorem cleanup_completes factories config ls m tr a g :
  reachable (step factories) (initial factories config) ls m tr ->
  agents m !! a = Some (AwaitRetry g) \/
  ((exists r, agents m !! a = Some (AwaitQuiescence g r)) /\ forall b y, agents m !! b = Some y -> holds y <> Some g) ->
  exists ls' m' evs, Forall (own_step a) ls' /\ run (step factories) ls' m = Some (m', evs) /\
    hasCleanupOwnership (entries_of m' g) = false /\ g ∉ pending m' /\ (agents m' !! a ≫= handles) = None.
Proof.
  intros Hre [Ha|[[r Ha] Hno]]; [by eapply retry_completes|by eapply async_completes].
Qed.

(** ** Teardown *)

Section Calls.
Context (fails : Called -> bool) (g : nat).

Lemma clean_children_all name cs n i c : (n <= length cs)%nat -> (i < n)%nat -> cs !! i = Some c ->
  mkCalled g name (Cleanup i (child_name c)) ∈ snd (clean_children fails g name cs n).
Proof.
  induction n as [|n IH]; [lia|]. intros Hn Hi Hc. cbn. destruct (lookup_lt_is_Some_2 cs n) as [x Hx]; [lia|]. rewrite Hx.
  destruct (clean_children fails g name cs n) as [failed evs]. cbn in *. destruct (decide (i = n)) as [->|].
  - assert (x = c) as -> by congruence. by left.
  - right. apply IH; [lia..|done].
Qed.

Lemma clean_children_failed name cs n c : c ∈ fst (clean_children fails g name cs n) ->
  exists i, mkCalled g name (Cleanup i (child_name c)) ∈ snd (clean_children fails g name cs n) /\
    fails (mkCalled g name (Cleanup i (child_name c))) = true.
Proof.
  induction n as [|n IH]; cbn; [by intros ?%elem_of_nil|]. destruct (cs !! n) as [x|]; [|by intros ?%elem_of_nil].
  destruct (clean_children fails g name cs n) as [failed evs]. cbn in *.
  assert (Hold : c ∈ failed -> exists i, mkCalled g name (Cleanup i (child_name c)) ∈ mkCalled g name (Cleanup n (child_name x)) :: evs /\
    fails (mkCalled g name (Cleanup i (child_name c))) = true).
  { intros Hc. destruct (IH Hc) as (i & ? & ?). exists i. split; [by right|done]. }
  destruct (fails (mkCalled g name (Cleanup n (child_name x)))) eqn:E; [|done].
  intros [Hc|Hc%list_elem_of_singleton]%elem_of_app; [by apply Hold|]. subst x. exists n. split; [by left|done].
Qed.

Lemma clean_children_calls name cs n c : (n <= length cs)%nat -> c ∈ snd (clean_children fails g name cs n) ->
  exists i x, cs !! i = Some x /\ c = mkCalled g name (Cleanup i (child_name x)).
Proof.
  induction n as [|n IH]; cbn; intros Hn; [by intros ?%elem_of_nil|].
  destruct (lookup_lt_is_Some_2 cs n) as [x Hx]; [lia|]. rewrite Hx.
  destruct (clean_children fails g name cs n) as [failed evs]. cbn in *. intros [->|Hc]%elem_of_cons; [eauto|]. apply IH; [lia|done].
Qed.

Lemma when_elem due name k c : c ∈ when g due name k <-> due = true /\ c = mkCalled g name k.
Proof. clear fails. unfold when. destruct due; [rewrite list_elem_of_singleton|rewrite elem_of_nil]; naive_solver. Qed.

Lemma finished_drained e : drained (finished fails g e) = drained e || (drain_due e && negb (fails (mkCalled g (e_name e) Drain))).
Proof.
  unfold finished, finish_entry, drain_entry, drain_due, close_entry, calls_if. destruct e as [n c cs st sp dr av cl i m].
  destruct c, st, dr, cl; cbn [has_component component started drained closed negb andb orb e_name set_drained set_closed];
    repeat match goal with |- context [if fails ?ev then _ else _] =>
      destruct (fails ev); cbn [has_component component started drained closed negb andb orb e_name set_drained set_closed] end;
    cbn [children set_drained set_closed]; destruct (clean_children fails g n cs (length cs)) as [fc ev];
    destruct m, fc; reflexivity.
Qed.

Lemma stop_attempted_eq e : stop_attempted fails g e =
  if stop_due e && negb (fails (mkCalled g (e_name e) StopIntake)) then set_stopped e else e.
Proof. unfold stop_attempted, stop_entry. rewrite calls_if_entry. done. Qed.
End Calls.

Lemma concat_elem {A B} (f : A -> list B) l y : y ∈ concat (f <$> l) <-> exists x, x ∈ l /\ y ∈ f x.
Proof.
  induction l as [|x l IH]; cbn; [rewrite elem_of_nil; split; [done|by intros (x & ?%elem_of_nil & _)]|].
  rewrite elem_of_app, IH. split.
  - intros [?|(z & ? & ?)]; [exists x; split; [by left|done]|exists z; split; [by right|done]].
  - intros (z & [->|?]%elem_of_cons & ?); eauto.
Qed.

(** The calls of a teardown, entry by entry. *)
Lemma teardown_calls_elem fails g entries owned c :
  c ∈ td_calls (teardownEntries fails g entries owned) <->
  exists e, e ∈ entries /\ (c ∈ stop_calls g e \/ c ∈ finish_calls fails g (stop_attempted fails g e)).
Proof.
  destruct (teardown_eq fails g entries owned) as (_ & -> & _ & _). rewrite elem_of_app, !concat_elem. split.
  - intros [(e & He & Hc)|(e' & He & Hc)]; rewrite elem_of_reverse in He; [eauto|].
    apply list_elem_of_fmap in He as (e & -> & He). eauto.
  - intros (e & He & [Hc|Hc]); [left; exists e|right; exists (stop_attempted fails g e)]; rewrite elem_of_reverse;
      (split; [|done]); [done|by apply list_elem_of_fmap_2].
Qed.

Lemma finish_calls_elem fails g e c : c ∈ finish_calls fails g e <->
  (drain_due e = true /\ c = mkCalled g (e_name e) Drain) \/ (close_due e = true /\ c = mkCalled g (e_name e) Close) \/
  c ∈ snd (clean_children fails g (e_name e) (children e) (length (children e))).
Proof. unfold finish_calls. by rewrite !elem_of_app, !when_elem. Qed.

(** A teardown first stops the intake of every component, last to first, and only then drains, closes and cleans up, last to first; nothing is skipped because something else failed, the first failure is the one reported, and without a failure nothing is owned any more. *)
Theorem teardown_complete fails g entries owned :
  Forall entry_ok entries ->
  let td := teardownEntries fails g entries owned in
  td_calls td = concat (stop_calls g <$> reverse entries) ++
    concat (finish_calls fails g <$> reverse (stop_attempted fails g <$> entries)) /\
  (forall e, e ∈ entries -> has_component e = true -> closed e = false ->
    (started e = true -> stopped e = false -> mkCalled g (e_name e) StopIntake ∈ td_calls td) /\
    (started e = true -> drained e = false -> mkCalled g (e_name e) Drain ∈ td_calls td) /\
    mkCalled g (e_name e) Close ∈ td_calls td) /\
  (forall e i c, e ∈ entries -> children e !! i = Some c -> mkCalled g (e_name e) (Cleanup i (child_name c)) ∈ td_calls td) /\
  td_result td = match find fails (td_calls td) with Some ev => mkCleanup true (entry ev) | None => clean end /\
  (failed (td_result td) = false -> hasCleanupOwnership (td_entries td) = false).
Proof.
  intros Hok td. destruct (teardown_eq fails g entries owned) as (He & Hc & _ & Hr). fold td in He, Hc, Hr.
  assert (Hst : forall e, same_entry e (stop_attempted fails g e) /\ children (stop_attempted fails g e) = children e /\
    closed (stop_attempted fails g e) = closed e /\ drained (stop_attempted fails g e) = drained e).
  { intros e. destruct (stop_entry_calls fails g e) as (_ & Hs & Hch & Hcl & _). split_and!; [exact Hs|exact Hch|exact Hcl|].
    rewrite stop_attempted_eq. by destruct (_ && _). }
  split; [done|]. split; [|split; [|split; [done|]]].
  - intros e Hin Hh Hcl. destruct (Hst e) as ((Hn & Hco & _ & Hsta & _) & _ & Hcl' & Hd').
    assert (Hh' : has_component (stop_attempted fails g e) = true) by (unfold has_component in *; by rewrite Hco).
    split_and!; [intros Hs Hp|intros Hs Hp|]; apply teardown_calls_elem; exists e; (split; [done|]).
    + left. apply when_elem. split; [|done]. unfold stop_due. by rewrite Hh, Hs, Hp, Hcl.
    + right. apply finish_calls_elem. left. unfold drain_due. by rewrite Hh', Hcl', Hcl, Hsta, Hs, Hd', Hp, Hn.
    + right. apply finish_calls_elem. right. left. unfold close_due. by rewrite Hh', Hcl', Hcl, Hn.
  - intros e i c Hin Hi. apply teardown_calls_elem. exists e. split; [done|]. right. apply finish_calls_elem. right. right.
    destruct (Hst e) as ((-> & _) & -> & _). apply clean_children_all; [done|by eapply lookup_lt_Some|done].
  - rewrite Hr. unfold first_failure. destruct (find fails (td_calls td)) eqn:Ef; [done|]. intros _.
    apply not_true_is_false. unfold hasCleanupOwnership. intros (x & Hx & Ho)%existsb_exists. rewrite He in Hx.
    apply list_elem_of_In, list_elem_of_fmap in Hx as (e1 & -> & Hx). apply list_elem_of_fmap in Hx as (e & -> & Hx).
    rewrite finished_clean in Ho; [done|apply stop_entry_ok; by eapply Forall_forall in Hok|].
    apply not_true_is_false. intros (c & Hin & Hf)%existsb_exists.
    assert (Hin' : c ∈ td_calls td) by (apply teardown_calls_elem; exists e; split; [done|right; by apply list_elem_of_In]).
    by rewrite (find_none _ _ Ef c) in Hf by by apply list_elem_of_In.
Qed.

(** a teardown of what an earlier one left calls nothing again that went through: each of its calls is one that failed before, a clean-up function of a child one whose earlier call failed. *)
Theorem teardown_retries_failures fails fails' g entries owned owned' c :
  c ∈ td_calls (teardownEntries fails' g (td_entries (teardownEntries fails g entries owned)) owned') ->
  match call c with
  | Cleanup _ child => exists i, let c' := mkCalled g (RuntimeGraph.entry c) (Cleanup i child) in
      c' ∈ td_calls (teardownEntries fails g entries owned) /\ fails c' = true
  | _ => c ∈ td_calls (teardownEntries fails g entries owned) /\ fails c = true
  end.
Proof.
  intros (e' & He' & Hc)%teardown_calls_elem.
  destruct (teardown_eq fails g entries owned) as (He & _ & _ & _). rewrite He in He'.
  apply list_elem_of_fmap in He' as (e1 & -> & He1). apply list_elem_of_fmap in He1 as (e & -> & Hin).
  pose proof (stop_attempted_eq fails g e) as Hse.
  destruct (stop_entry_calls fails g e) as (_ & (Hn1 & Hco1 & _ & Hs1 & _) & Hch1 & Hcl1 & _). fold (stop_attempted fails g e) in *.
  assert (Hfirst : forall c, c ∈ stop_calls g e \/ c ∈ finish_calls fails g (stop_attempted fails g e) ->
    c ∈ td_calls (teardownEntries fails g entries owned)) by (intros x Hx; apply teardown_calls_elem; by exists e).
  set (e1 := stop_attempted fails g e) in *. clearbody e1.
  destruct (finish_entry_spec fails g e1) as (_ & _ & (Hn & Hco & _ & Hs & _) & Hst & _ & Hcl & Hch).
  pose proof (finished_drained fails g e1) as Hd. set (e2 := finished fails g e1) in *. clearbody e2.
  assert (Hhas : has_component e2 = has_component e1) by (unfold has_component; by rewrite Hco).
  assert (Hhas1 : has_component e1 = has_component e) by (unfold has_component; by rewrite Hco1).
  (* The component is still there to be closed, so the first [Close] failed. *)
  assert (Hopen : has_component e2 = true -> closed e2 = false ->
    closed e1 = false /\ close_due e1 = true /\ fails (mkCalled g (e_name e1) Close) = true).
  { intros Hh Ho. rewrite Ho in Hcl. symmetry in Hcl. apply orb_false_iff in Hcl as [Hc1 Hf]. unfold close_due in *.
    rewrite <-Hhas, Hh, Hc1 in *. cbn in *. split_and!; [done..|]. by apply negb_false_iff in Hf. }
  destruct Hc as [Hc|Hc].
  - apply when_elem in Hc as [Hdue ->]. cbn [call]. unfold stop_due in Hdue. rewrite !andb_true_iff, !negb_true_iff in Hdue.
    destruct Hdue as [[[Hh Hsta] Hsto] Ho]. destruct (Hopen Hh Ho) as (Hc1 & _).
    assert (Hdue : stop_due e = true).
    { assert (Hp : stopped e = false) by (rewrite Hst, Hse in Hsto; by destruct (stop_due e && _)).
      unfold stop_due. by rewrite <-Hhas1, <-Hhas, Hh, <-Hs1, <-Hs, Hsta, <-Hcl1, Hc1, Hp. }
    rewrite Hdue in Hse. rewrite Hn, Hn1. destruct (fails (mkCalled g (e_name e) StopIntake)) eqn:Ef.
    + split; [|done]. apply Hfirst. left. by apply when_elem.
    + cbn in Hse. rewrite Hst, Hse in Hsto. done.
  - destruct (stop_entry_calls fails' g e2) as (_ & (Hn2 & Hco2 & _ & Hs2 & _) & Hch2 & Hcl2 & _). fold (stop_attempted fails' g e2) in *.
    pose proof (stop_attempted_eq fails' g e2) as Hse2.
    assert (Hd2 : drained (stop_attempted fails' g e2) = drained e2) by (rewrite Hse2; by case_match).
    assert (Hhas2 : has_component (stop_attempted fails' g e2) = has_component e2) by (unfold has_component; by rewrite Hco2).
    set (e3 := stop_attempted fails' g e2) in *. clearbody e3.
    apply finish_calls_elem in Hc as [[Hdue ->]|[[Hdue ->]|Hc]]; cbn [call].
    + unfold drain_due in Hdue. rewrite !andb_true_iff, !negb_true_iff in Hdue. destruct Hdue as [[Hh Ho] [Hsta Hdr]].
      rewrite Hhas2 in Hh. rewrite Hcl2 in Ho. destruct (Hopen Hh Ho) as (Hc1 & _).
      rewrite Hd2, Hd in Hdr. apply orb_false_iff in Hdr as [Hdr Hf].
      assert (Hdue : drain_due e1 = true) by (unfold drain_due; by rewrite <-Hhas, Hh, Hc1, <-Hs, <-Hs2, Hsta, Hdr).
      rewrite Hdue in Hf. cbn in Hf. apply negb_false_iff in Hf. rewrite Hn2, Hn. split; [|done].
      apply Hfirst. right. apply finish_calls_elem. by left.
    + unfold close_due in Hdue. rewrite !andb_true_iff, !negb_true_iff in Hdue. destruct Hdue as [Hh Ho].
      rewrite Hhas2 in Hh. rewrite Hcl2 in Ho. destruct (Hopen Hh Ho) as (_ & Hdue & Hf).
      rewrite Hn2, Hn. split; [|done]. apply Hfirst. right. apply finish_calls_elem. right. by left.
    + apply clean_children_calls in Hc as (i & x & Hx & ->); [|done]. cbn [call RuntimeGraph.entry]. rewrite Hch2, Hch in Hx.
      apply list_elem_of_lookup_2 in Hx. apply clean_children_failed in Hx as (j & Hj & Hf). rewrite Hn2, Hn.
      exists j. split; [|done]. apply Hfirst. right. apply finish_calls_elem. by right; right.
Qed.

(** ** Witnesses *)

Local Open Scope string_scope.
Definition w_digest : string := "0123456789abcdef0123456789abcdef0123456789abcdef0123456789abcdef".
Definition w_plan : Plan :=
  let e := mkEffectivePlan 1 {| el_Path := "/audit.db"; el_JudgeBodiesPath := "/judge.db"; el_RetentionDays := 30 |} [] [] [] [] in
  mkPlan e e w_digest.
Definition w_config : GraphConfig := ConfigFromPlan (Some w_plan) false.
Definition w_factories : list ComponentFactory := [mkFactory "exporter" None].
Definition w_prepared (pointer : Z) : option Prepared :=
  Some (mkPrepared (PointerTo (mkIdentityOf "exporter" pointer)) None (mkAcquisitions false [mkChild "client" 0])).

Local Close Scope string_scope.

Definition w_never (c : Called) : bool := false.
Definition w_close_fails (c : Called) : bool := match call c with Close => true | _ => false end.

(** [New]; the agent 0 dispatches its report. *)
Definition w_new : list Label := [LBuild (w_prepared 1) None; LBuild None None; LActivate; LActivate; LFinish 0].
Definition w_acquire : list Label := LCallAcquire 1 :: replicate 5 (LAcquire 1 None).
(** A reload that is applied while the lease is held. *)
Definition w_reload : list Label :=
  [LBeginReload w_config; LDecideReload None 1; LBuild (w_prepared 2) None; LBuild None None; LActivate; LActivate;
   LRetire None; LRetire (Some 2); LFinish 3].
Definition w_begin_close : list Label := [LBeginClose].
Definition w_close (fails : Called -> bool) : list Label := [LDetach; LRetire None; LRetire None] ++ replicate 3 (LTear fails 4) ++ [LFinish 5].

Definition w_after (ls : list Label) : Manager :=
  from_option fst (initial w_factories w_config) (run (step w_factories) ls (initial w_factories w_config)).
Definition w_trace (ls : list Label) : list Event :=
  from_option snd [] (run (step w_factories) ls (initial w_factories w_config)).

Lemma w_reached ls : (if run (step w_factories) ls (initial w_factories w_config) then true else false) = true ->
  reachable (step w_factories) (initial w_factories w_config) ls (w_after ls) (w_trace ls).
Proof.
  unfold w_after, w_trace. destruct (run _ ls _) as [[m tr]|] eqn:H; [|done]. intros _. by apply run_reachable.
Qed.

Definition w_leased : list Label := w_new ++ w_acquire ++ w_reload.
Definition w_closed : list Label := w_new ++ w_begin_close ++ w_close w_never.
Definition w_retry : list Label := w_new ++ w_begin_close ++ w_close w_close_fails.

Lemma lease_safety_witness :
  agents (w_after w_leased) !! 1 = Some (Leased 0) /\ active (w_after w_leased) = Some 1 /\
  exists i, lease_Component (w_after w_leased) 1 "exporter"%string = Some (PointerTo i) /\ i ∈ owned (w_after w_leased).
Proof.
  assert (H : agents (w_after w_leased) !! 1 = Some (Leased 0)) by (vm_compute; reflexivity).
  split; [exact H|]. split; [vm_compute; reflexivity|].
  refine (proj2 (lease_safety w_factories w_config w_leased _ _ 1 0 _ (w_reached w_leased _) H) (mkFactory "exporter"%string None) _).
  - by apply (bool_decide_unpack _).
  - vm_compute. reflexivity.
  - by left.
Defined.

Lemma one_owner_witness :
  (hasCleanupOwnership (entries_of (w_after w_leased) 0) = true /\ hasCleanupOwnership (entries_of (w_after w_leased) 1) = true) /\
  (forall g, hasCleanupOwnership (entries_of (w_after w_leased) g) = true -> owners g (w_after w_leased) = 1%nat).
Proof.
  split; [split; vm_compute; reflexivity|].
  refine (proj1 (one_owner w_factories w_config w_leased _ _ (w_reached w_leased _))). vm_compute. reflexivity.
Defined.

Lemma WaitCleanup_complete_witness :
  cleanup_done (w_after w_closed) /\ size (groups (w_after w_closed)) = 1%nat /\ owned (w_after w_closed) = ∅.
Proof.
  assert (H : cleanup_done (w_after w_closed)) by (split; vm_compute; reflexivity).
  split; [exact H|]. split; [vm_compute; reflexivity|].
  refine (proj1 (WaitCleanup_complete w_factories w_config w_closed _ _ (w_reached w_closed _) _ _ H)); vm_compute; reflexivity.
Defined.

(** The producer 1 about to return from its call. *)
Definition w_acquiring : list Label := w_new ++ LCallAcquire 1 :: replicate 4 (LAcquire 1 None).

Lemma Acquire_linearizes_witness :
  exists m1, agents m1 !! 1 = Some (Acquiring (Revalidate 0)) /\ active m1 = Some 0 /\ m_closed m1 = false.
Proof.
  assert (Hs : exists m' evs, step w_factories (LAcquire 1 None) (w_after w_acquiring) = Some (m', evs) /\ agents m' !! 1 = Some (Leased 0))
    by (do 2 eexists; split; vm_compute; reflexivity).
  destruct Hs as (m' & evs & Hs & Ha).
  assert (Hr : (if run (step w_factories) w_acquiring (initial w_factories w_config) then true else false) = true) by (vm_compute; reflexivity).
  destruct (Acquire_linearizes w_factories w_config w_acquiring _ _ 1 None m' evs 0 (w_reached w_acquiring Hr) Hs Ha)
    as (_ & _ & m1 & _ & _ & _ & H1 & H2 & H3).
  exists m1. split; [exact H1|]. split; [exact H2|exact H3].
Defined.

(** Both batches reach the reporter, the second at its second attempt. *)
Definition w_reported : list Label :=
  w_leased ++ [LDispatch 3; LDispatch 0] ++ replicate 3 (LWorker true) ++ LWorker true :: LWorker false :: replicate 2 (LWorker true).

Lemma reports_in_order_witness :
  (length (delivered (w_trace w_reported)) =? 3)%nat = true /\
  delivered (w_trace w_reported) `prefix_of` concat (envelopes <$> sequenced (w_trace w_reported)).
Proof.
  split; [vm_compute; reflexivity|].
  refine (proj1 (reports_in_order w_factories w_config w_reported _ _ (w_reached w_reported _))). vm_compute. reflexivity.
Defined.

Lemma generations_in_order_witness :
  generation_of (w_after w_leased) (Some 1) = 2%nat /\ generation_of (w_after w_leased) (Some 1) = size (graphs (w_after w_leased)).
Proof.
  split; [vm_compute; reflexivity|].
  refine (proj1 (proj2 (proj2 (generations_in_order w_factories w_config w_leased _ _ (w_reached w_leased _)))) 1 _);
    vm_compute; reflexivity.
Defined.

Lemma cleanup_completes_witness :
  agents (w_after w_retry) !! 4 = Some (AwaitRetry 0) /\ hasCleanupOwnership (entries_of (w_after w_retry) 0) = true /\
  exists ls' m' evs, run (step w_factories) ls' (w_after w_retry) = Some (m', evs) /\ hasCleanupOwnership (entries_of m' 0) = false.
Proof.
  assert (Ha : agents (w_after w_retry) !! 4 = Some (AwaitRetry 0)) by (vm_compute; reflexivity).
  split; [exact Ha|]. split; [vm_compute; reflexivity|].
  assert (Hr : (if run (step w_factories) w_retry (initial w_factories w_config) then true else false) = true) by (vm_compute; reflexivity).
  destruct (cleanup_completes w_factories w_config w_retry _ _ 4 0 (w_reached w_retry Hr) (or_introl Ha))
    as (ls' & m' & evs & _ & Hrun & Hc & _).
  exists ls', m', evs. split; [exact Hrun|exact Hc].
Defined.

Definition w_entry : componentEntry :=
  mkEntry "exporter" (PointerTo (mkIdentityOf "exporter" 1)) [mkChild "client" 0] true false false true false
    (mkIdentityOf "exporter" 1) true.

Lemma teardown_complete_witness :
  hasCleanupOwnership [w_entry] = true /\ failed (td_result (teardownEntries w_close_fails 0 [w_entry] ∅)) = true /\
  hasCleanupOwnership (td_entries (teardownEntries w_never 0 [w_entry] ∅)) = false.
Proof.
  split; [reflexivity|]. split; [reflexivity|].
  refine (proj2 (proj2 (proj2 (proj2 (teardown_complete w_never 0 [w_entry] ∅ _)))) _); [|reflexivity].
  apply Forall_singleton. split; [reflexivity|]. split; [reflexivity|]. discriminate.
Defined.

Lemma teardown_retries_failures_witness :
  let td := teardownEntries w_close_fails 0 [w_entry] ∅ in
  mkCalled 0 "exporter" Close ∈ td_calls td /\ w_close_fails (mkCalled 0 "exporter" Close) = true.
Proof.
  intros td. refine (teardown_retries_failures w_close_fails w_never 0 [w_entry] ∅ ∅ (mkCalled 0 "exporter" Close) _).
  by left.
Defined.

(** ** A report that is never delivered *)

(** [Close] sets the closed flag before its transaction has produced its reports;
    a dispatch on its way can see the flag and close the spool. *)
Definition w_lost : list Label :=
  w_new ++ w_begin_close ++ [LDispatch 0] ++ replicate 5 (LClosing 0) ++ w_close w_close_fails ++ [LDispatch 5] ++ replicate 4 (LWorker true).

(** the drain failure that Close reports can be refused by the spool, because a dispatch that saw the closed flag has closed it; the flush of the reports then never ends. *)
Theorem Close_report_lost : exists ls m tr b e,
  reachable (step w_factories) (initial w_factories w_config) ls m tr /\
  EDispatched b false ∈ tr /\ e ∈ envelopes b /\ rp_Code (en_report e) = ReportDrainFailed /\
  flushed (flush_target m) m = false /\ (forall ok, worker_step ok (reports m) = None).
Proof.
  assert (Hl : exists k b e, w_trace w_lost !! k = Some (EDispatched b false) /\ envelopes b !! 0%nat = Some e /\
    rp_Code (en_report e) = ReportDrainFailed).
  { exists 10%nat. do 2 eexists. split; [vm_compute; reflexivity|]. split; vm_compute; reflexivity. }
  destruct Hl as (k & b & e & Hk & He & Hc). exists w_lost, (w_after w_lost), (w_trace w_lost), b, e. split_and!.
  - apply w_reached. vm_compute. reflexivity.
  - by eapply list_elem_of_lookup_2.
  - by eapply list_elem_of_lookup_2.
  - done.
  - vm_compute. reflexivity.
  - intros ok. vm_compute. reflexivity.
Qed.

Lemma local_settings_fixed_witness :
  size (graphs (w_after w_leased)) = 2%nat /\
  from_option (fun gr => gc_LocalPath (gr_config gr)) ""%string (graphs (w_after w_leased) !! 1) = "/audit.db"%string.
Proof.
  split; [vm_compute; reflexivity|].
  assert (Hr : (if run (step w_factories) w_leased (initial w_factories w_config) then true else false) = true) by (vm_compute; reflexivity).
  destruct (graphs (w_after w_leased) !! 1) as [gr|] eqn:E; [|vm_compute in E; discriminate].
  exact (proj1 (local_settings_fixed w_factories w_config w_leased _ _ 1 gr (w_reached w_leased Hr) E)).
Defined.

(** A component that is no pointer, with a child registered, is refused and all
    the same closed by the clean-up of the build. *)
Lemma invalid_component_is_closed :
  let '(entries, owned, err) := build_factory (mkFactory "exporter" None)
    (mkPrepared NoPointer None (mkAcquisitions false [mkChild "client" 0])) [] ∅ in
  err = Some (mkGraphError ErrorInitialization "" "exporter" None) /\
  td_calls (teardownEntries w_never 0 entries owned) = [mkCalled 0 "exporter" Close; mkCalled 0 "exporter" (Cleanup 0 "client")].
Proof. split; reflexivity. Qed.
