(* ===== verification/PathFacts.v ===== *)
(** * Facts about clean absolute paths

    A clean absolute path is the rendering of its components; [Clean], [Dir],
    [Base], [Join], [Rel] and the appending of a suffix are operations on the
    list of components. *)
From stdpp Require Import base list strings.
From Stdlib Require Import ZArith Lia Ascii.
From S2P Require Import Prelude GoStrings Netguard Json Paths.

Local Open Scope string_scope.

Definition good_name (c : string) : bool :=
  avoids SLASH c && negb (c =? "") && negb (c =? ".") && negb (c =? "..").

Definition render (l : list string) : string := "/" ++ Join l "/".

(** ** Splitting and cleaning *)

Lemma SplitByte_sep a b : avoids SLASH a = true -> SplitByte (a ++ "/" ++ b) SLASH = a :: SplitByte b SLASH.
Proof.
  unfold avoids. induction a as [|x a IH]; [done|]. cbn [sall]. intros [Hx Ha]%andb_true_iff.
  apply negb_true_iff in Hx. change ((String x a ++ "/" ++ b)) with (String x (a ++ "/" ++ b)).
  cbn [SplitByte]. by rewrite Hx, (IH Ha).
Qed.

Lemma SplitByte_avoids p : Forall (fun c => avoids SLASH c = true) (SplitByte p SLASH).
Proof.
  induction p as [|x p IH]; [by repeat constructor|]. cbn [SplitByte].
  destruct (Ascii.eqb x SLASH) eqn:Hx; [by constructor|].
  destruct (SplitByte p SLASH) as [|w ws]; [by repeat constructor; unfold avoids; simpl; rewrite Hx|].
  apply Forall_cons_1 in IH as [Hw Hws]. constructor; [|done]. unfold avoids in *. simpl. by rewrite Hx.
Qed.

Lemma good_name_parts c : good_name c = true -> avoids SLASH c = true /\ c <> "" /\ c <> "." /\ c <> "..".
Proof. unfold good_name. rewrite !andb_true_iff, !negb_true_iff, !String.eqb_neq. tauto. Qed.

Lemma SplitByte_Join c l b :
  Forall (fun c => good_name c = true) (c :: l) ->
  SplitByte (Join (c :: l) "/" ++ "/" ++ b) SLASH = c :: l ++ SplitByte b SLASH /\
  SplitByte (Join (c :: l) "/") SLASH = c :: l.
Proof.
  revert c. induction l as [|d l IH]; intros c [Hc Hl]%Forall_cons_1; apply good_name_parts in Hc as (Hc & _).
  - split; [by apply SplitByte_sep|by apply SplitByte_plain].
  - destruct (IH d Hl) as [H1 H2]. change (Join (c :: d :: l) "/") with (c ++ "/" ++ Join (d :: l) "/").
    split; [|by rewrite SplitByte_sep, H2]. rewrite <- sapp_assoc, <- (sapp_assoc "/" (Join _ _) _).
    rewrite SplitByte_sep by done. f_equal. exact H1.
Qed.

Lemma clean_good rooted l done :
  Forall (fun c => good_name c = true) l -> clean_parts rooted l done = (reverse l ++ done)%list.
Proof.
  revert done. induction l as [|c l IH]; intros done H; [reflexivity|].
  apply Forall_cons_1 in H as [(_ & H1 & H2 & H3)%good_name_parts Hl]. cbn [clean_parts].
  apply String.eqb_neq in H1, H2, H3. rewrite H1, H2, H3. simpl. by rewrite (IH _ Hl), reverse_cons, <- app_assoc.
Qed.

Lemma clean_parts_skip rooted l done : clean_parts rooted ("" :: l) done = clean_parts rooted l done.
Proof. reflexivity. Qed.

Lemma clean_parts_snoc_empty rooted l done : clean_parts rooted (l ++ [""]) done = clean_parts rooted l done.
Proof.
  revert done. induction l as [|c l IH]; intros done; [reflexivity|]. cbn [clean_parts app].
  destruct (_ || _); [apply IH|]. destruct (c =? ".."); [|apply IH].
  destruct done as [|d ds]; [apply IH|]. destruct (d =? ".."); apply IH.
Qed.

(** ** Rendering *)

Lemma rooted_slash s : is_rooted ("/" ++ s) = true.
Proof. by destruct s. Qed.

Section Render.
Context (l : list string) (Hl : Forall (fun c => good_name c = true) l).

Lemma render_rooted : is_rooted (render l) = true.
Proof. apply rooted_slash. Qed.

Lemma split_render : clean_parts true (SplitByte (render l) SLASH) [] = reverse l.
Proof.
  unfold render. change (SplitByte ("/" ++ Join l "/") SLASH) with ("" :: SplitByte (Join l "/") SLASH).
  rewrite clean_parts_skip. destruct l as [|c l']; [reflexivity|].
  rewrite (proj2 (SplitByte_Join c l' "" Hl)), clean_good by done. by rewrite app_nil_r.
Qed.

Lemma comps_render : comps (render l) = l.
Proof. unfold comps. rewrite render_rooted. rewrite split_render. by rewrite reverse_involutive. Qed.

Lemma Clean_render : Clean (render l) = render l.
Proof. unfold Clean. rewrite render_rooted. rewrite split_render. by rewrite reverse_involutive. Qed.
End Render.

Lemma clean_parts_names l acc :
  Forall (fun c => avoids SLASH c = true) l -> Forall (fun c => good_name c = true) acc ->
  Forall (fun c => good_name c = true) (clean_parts true l acc).
Proof.
  revert acc. induction l as [|c l IH]; intros acc H Hd; [done|].
  apply Forall_cons_1 in H as [Hc Hl]. cbn [clean_parts].
  destruct (c =? "") eqn:H1; [by apply IH|]. destruct (c =? ".") eqn:H2; [by apply IH|]. simpl.
  destruct (c =? "..") eqn:H3.
  - destruct acc as [|d ds]; [by apply IH|]. apply Forall_cons_1 in Hd as [Hg Hds].
    apply good_name_parts in Hg as (_ & _ & _ & Hg%String.eqb_neq). rewrite Hg. by apply IH.
  - apply IH; [done|]. constructor; [|done]. unfold good_name. by rewrite Hc, H1, H2, H3.
Qed.

Lemma comps_good p : is_rooted p = true -> Forall (fun c => good_name c = true) (comps p).
Proof.
  intros Hp. unfold comps. rewrite Hp. apply Forall_reverse, clean_parts_names; [apply SplitByte_avoids|done].
Qed.

(** Every clean absolute path is a rendering. *)
Lemma Clean_is_render p : is_rooted p = true -> Clean p = render (comps p).
Proof. intros Hp. unfold Clean, comps, render. by rewrite Hp. Qed.

Lemma comps_Clean p : is_rooted p = true -> comps (Clean p) = comps p.
Proof. intros Hp. rewrite (Clean_is_render p Hp). by apply comps_render, comps_good. Qed.

Lemma render_inj l l' :
  Forall (fun c => good_name c = true) l -> Forall (fun c => good_name c = true) l' -> render l = render l' -> l = l'.
Proof. intros Hl Hl' H. by rewrite <- (comps_render l Hl), H, comps_render. Qed.

(** ** Parents, bases, suffixes *)

Lemma Join_snoc l c d : Join (c :: l ++ [d]) "/" = Join (c :: l) "/" ++ "/" ++ d.
Proof.
  revert c. induction l as [|e l IH]; intros c; [done|].
  change (Join (c :: (e :: l) ++ [d]) "/") with (c ++ "/" ++ Join (e :: l ++ [d]) "/").
  change (Join (c :: e :: l) "/") with (c ++ "/" ++ Join (e :: l) "/").
  by rewrite IH, !sapp_assoc.
Qed.

Lemma render_snoc l c : render (l ++ [c]) = (if bool_decide (l = []) then "" else render l) ++ "/" ++ c.
Proof. destruct l as [|d l]; [done|]. unfold render. simpl app. by rewrite Join_snoc, sapp_assoc. Qed.

Lemma render_suffix l c s : render (l ++ [c]) ++ s = render (l ++ [c ++ s]).
Proof. by rewrite !render_snoc, <- !sapp_assoc. Qed.

Lemma trim_right_all f s : sall f s = true -> trim_right f s = "".
Proof. induction s as [|x s IH]; [done|]. simpl. intros [Hx Hs]%andb_true_iff. by rewrite (IH Hs), Hx. Qed.

Lemma trim_right_stop f s x r : f x = false -> sall f r = true -> trim_right f (s ++ String x r) = s ++ String x "".
Proof.
  intros Hx Hr. induction s as [|y s IH]; simpl; [by rewrite (trim_right_all _ _ Hr), Hx|].
  rewrite IH. by destruct s.
Qed.

Section Snoc.
Context (l : list string) (c : string).
Context (Hl : Forall (fun c => good_name c = true) l) (Hc : good_name c = true).

Lemma good_snoc : Forall (fun c => good_name c = true) (l ++ [c]).
Proof. apply Forall_app. split; [done|by constructor]. Qed.

Lemma path_Dir_render : path_Dir (render (l ++ [c])) = render l.
Proof.
  unfold path_Dir, up_to_slash. rewrite render_snoc. change ("/" ++ c)%string with (String SLASH c).
  apply good_name_parts in Hc as (Ha & _). rewrite trim_right_stop; [|by rewrite Ascii.eqb_refl|done].
  destruct l as [|d l']; [reflexivity|]. simpl bool_decide. cbn iota.
  unfold Clean, render at 1 2 3. rewrite <- !sapp_assoc, rooted_slash.
  change (String SLASH "") with ("/" ++ "")%string.
  change (SplitByte ("/" ++ ?s) SLASH) with ("" :: SplitByte s SLASH). rewrite clean_parts_skip, (proj1 (SplitByte_Join d l' "" Hl)).
  change (d :: l' ++ SplitByte "" SLASH)%list with ((d :: l') ++ [""])%list.
  by rewrite clean_parts_snoc_empty, clean_good, app_nil_r, reverse_involutive.
Qed.

Lemma render_suffix_good s : avoids SLASH s = true -> (c ++ s)%string <> "." -> c ++ s <> ".." -> good_name (c ++ s) = true.
Proof.
  intros Hs H1 H2. apply good_name_parts in Hc as (Ha & Hn & _). unfold good_name.
  apply String.eqb_neq in H1, H2. rewrite avoids_app, Ha, Hs, H1, H2. by destruct c.
Qed.
End Snoc.

(** ** Containment *)

Lemma strip_common_spec a b a' b' :
  strip_common a b = (a', b') ->
  exists k, a = (k ++ a')%list /\ b = (k ++ b')%list /\ (forall x xs y ys, a' = x :: xs -> b' = y :: ys -> x <> y).
Proof.
  revert b. induction a as [|x a IH]; intros b H; [injection H as <- <-; by exists []|].
  destruct b as [|y b]; [injection H as <- <-; by exists []|]. cbn [strip_common] in H.
  destruct (String.eqb_spec x y) as [<-|Hn].
  - destruct (IH _ H) as (k & -> & -> & Hd). by exists (x :: k).
  - injection H as <- <-. exists []. split_and!; [done..|]. by intros ? ? ? ? [= <- <-] [= <- <-].
Qed.

Lemma strip_common_prefix k q : strip_common k (k ++ q) = ([], q).
Proof. induction k as [|x k IH]; [by destruct q|]. cbn [strip_common app]. by rewrite String.eqb_refl, IH. Qed.

Lemma Join_updots n l : (Join (".." :: replicate n ".." ++ l) "/" = "..")%string \/
  exists r, (Join (".." :: replicate n ".." ++ l) "/" = "../" ++ r)%string.
Proof. destruct (replicate n ".." ++ l)%list as [|d r]; [by left|right]. by exists (Join (d :: r) "/"). Qed.

(** [Rel] on clean paths: what lies below a root is named by the rest of its
    components. *)
Lemma Rel_below r q :
  Forall (fun c => good_name c = true) (r ++ q) -> q <> [] -> Rel (render r) (render (r ++ q)) = Some (Join q "/").
Proof.
  intros Hg Hq. pose proof Hg as [Hr _]%Forall_app. unfold Rel. rewrite !Clean_render, !render_rooted by done.
  assert (Hne : render r <> render (r ++ q)).
  { intros He%render_inj; [|done..]. apply (f_equal length) in He. rewrite length_app in He. destruct q; [done|simpl in He; lia]. }
  apply String.eqb_neq in Hne. rewrite Hne. cbn [Bool.eqb negb]. rewrite !comps_render by done.
  by rewrite strip_common_prefix.
Qed.

Lemma Join_good_split q : Forall (fun c => good_name c = true) q -> q <> [] -> SplitByte (Join q "/") SLASH = q.
Proof. intros Hq Hn. destruct q as [|c q]; [done|]. by apply (SplitByte_Join c q ""). Qed.

(** A relative path below a root is neither absolute nor does it go up. *)
Lemma Join_good q :
  Forall (fun c => good_name c = true) q -> q <> [] ->
  is_rooted (Join q "/") = false /\ Join q "/" <> "." /\ Join q "/" <> ".." /\ HasPrefix (Join q "/") "../" = false.
Proof.
  intros Hq Hn. pose proof (Join_good_split q Hq Hn) as Hs. destruct q as [|c q]; [done|].
  apply Forall_cons_1 in Hq as [(_ & H1 & H2 & H3)%good_name_parts _].
  assert (Hpre : forall a b, avoids SLASH a = true -> a <> c -> Join (c :: q) "/" = a ++ "/" ++ b -> False).
  { intros a b Ha Hac Hj. rewrite Hj, SplitByte_sep in Hs by done. by injection Hs. }
  split_and!.
  - apply not_true_iff_false. intros [r Hr]%HasPrefix_spec. by apply (Hpre "" r).
  - intros He. rewrite He in Hs. by injection Hs.
  - intros He. rewrite He in Hs. by injection Hs.
  - apply not_true_iff_false. intros [r Hr]%HasPrefix_spec. by apply (Hpre ".." r).
Qed.
