(* ===== verification/AssetTree.v ===== *)
(** * Asset trees (internal/enforce/quarantine_asset.go)

    What a file system holds at and below a path, as lstat, readdir and read
    show it: the reading and the replacing of the tree at a path, the content
    hash by which the quarantine identifies an asset, and the copy of an asset.
    Names and contents are strings of bytes, a directory lists its entries in
    the order of their names as [os.ReadDir] does.  SHA-256 and the rights of
    the process are arguments.  The hash is proved to bind paths, permissions
    and contents of assets whose files have no zero byte, and shown to confuse
    two assets when one has. *)
From stdpp Require Import base list sets strings.
From Stdlib Require Import ZArith Lia Ascii.
From S2P Require Import Prelude GoStrings Paths Netguard Snapshot.

Local Open Scope string_scope.

(** ** Trees *)

Inductive tree :=
| TFile (perm : Z) (data : string)
| TDir (perm : Z) (entries : list (string * tree))
| TLink
| TSpecial.

(** What [os.Lstat] answers.  A path that runs through something that is not a
    directory is refused (ENOTDIR); the model does not follow links, which the
    code does not accept among the ancestors of what it moves. *)
Inductive looked := Found (t : tree) | Missing | Denied.

Fixpoint assoc (c : string) (es : list (string * tree)) : option tree :=
  match es with
  | [] => None
  | (d, u) :: es' => if (c =? d)%string then Some u else assoc c es'
  end.

Fixpoint at_path (t : tree) (p : list string) : looked :=
  match p with
  | [] => Found t
  | c :: p' =>
      match t with
      | TDir _ es => match assoc c es with Some u => at_path u p' | None => Missing end
      | _ => Denied
      end
  end.

(** The entry of a directory replaced, added in its place, or removed. *)
Fixpoint put (c : string) (o : option tree) (es : list (string * tree)) : list (string * tree) :=
  match es with
  | [] => match o with Some t => [(c, t)] | None => [] end
  | (d, u) :: es' =>
      if (c =? d)%string then match o with Some t => (c, t) :: es' | None => put c None es' end
      else if String.ltb c d then match o with Some t => (c, t) :: es | None => (d, u) :: put c None es' end
      else (d, u) :: put c o es'
  end.

(** The tree at a path replaced or removed; nothing happens when the directory
    of the path is not there. *)
Fixpoint update (p : list string) (o : option tree) (t : tree) : tree :=
  match p, t with
  | [], _ => t
  | [c], TDir perm es => TDir perm (put c o es)
  | c :: p', TDir perm es =>
      match assoc c es with Some u => TDir perm (put c (Some (update p' o u)) es) | None => t end
  | _, _ => t
  end.

Definition is_dir (l : looked) : bool := match l with Found (TDir _ _) => true | _ => false end.

Lemma tree_ind' (P : tree -> Prop) :
  (forall perm data, P (TFile perm data)) ->
  (forall perm es, Forall (fun e => P e.2) es -> P (TDir perm es)) ->
  P TLink -> P TSpecial -> forall t, P t.
Proof.
  intros Hf Hd Hl Hs. fix IH 1. intros [perm data|perm es| |]; [apply Hf|apply Hd|done|done].
  induction es as [|[n u] es IHes]; constructor; [apply IH|exact IHes].
Qed.

(** ** Reading after writing *)

Lemma assoc_put_eq c o es : assoc c (put c o es) = o.
Proof.
  induction es as [|[d u] es IH]; simpl; [destruct o; simpl; by rewrite ?String.eqb_refl|].
  destruct (String.eqb_spec c d) as [<-|Hn].
  - destruct o; simpl; [by rewrite String.eqb_refl|exact IH].
  - apply String.eqb_neq in Hn. destruct (String.ltb c d), o; simpl; rewrite ?String.eqb_refl, ?Hn; done.
Qed.

Lemma assoc_put_ne c d o es : c <> d -> assoc d (put c o es) = assoc d es.
Proof.
  intros Hn. assert (Hn' : (d =? c)%string = false) by (by apply String.eqb_neq; congruence).
  induction es as [|[e u] es IH]; simpl; [destruct o; simpl; by rewrite ?Hn'|].
  destruct (String.eqb_spec c e) as [<-|]; [destruct o; simpl; by rewrite ?Hn', ?IH|].
  destruct (String.ltb c e), o; simpl; rewrite ?Hn'; try done; by rewrite IH.
Qed.

Lemma update_cons c d p o perm es :
  update (c :: d :: p) o (TDir perm es) =
    match assoc c es with Some u => TDir perm (put c (Some (update (d :: p) o u)) es) | None => TDir perm es end.
Proof. reflexivity. Qed.

Lemma at_path_app t p q :
  at_path t (p ++ q) = match at_path t p with Found u => at_path u q | r => r end.
Proof.
  revert t. induction p as [|c p IH]; intros t; [done|]. simpl. destruct t as [|perm es| |]; try done.
  destruct (assoc c es); [apply IH|done].
Qed.

(** Below the path. *)
Lemma at_path_update_below p c o t q :
  is_dir (at_path t p) = true ->
  at_path (update (p ++ [c]) o t) (p ++ c :: q) = match o with Some u => at_path u q | None => Missing end.
Proof.
  revert t. induction p as [|d p IH]; intros t Hd.
  - destruct t as [|perm es| |]; try done. simpl. by rewrite assoc_put_eq.
  - destruct t as [|perm es| |]; try done. simpl in Hd.
    destruct (assoc d es) as [u|] eqn:Ha; [|done].
    assert (Hu : update ((d :: p) ++ [c]) o (TDir perm es) = TDir perm (put d (Some (update (p ++ [c]) o u)) es)).
    { simpl. rewrite Ha. by destruct (p ++ [c])%list eqn:Hp; [apply app_eq_nil in Hp as [_ ?]|]. }
    rewrite Hu. cbn [at_path app]. rewrite assoc_put_eq. by apply IH.
Qed.

(** Elsewhere. *)
Lemma at_path_update_other p o t q :
  ~ p `prefix_of` q -> ~ q `prefix_of` p -> at_path (update p o t) q = at_path t q.
Proof.
  revert t q. induction p as [|c p IH]; intros t q Hp Hq; [done|].
  destruct q as [|d q]; [by destruct Hq; apply prefix_nil|].
  destruct t as [|perm es| |]; try (by destruct p).
  destruct (decide (c = d)) as [<-|Hn].
  - destruct p as [|c' p]; [destruct Hp; by apply prefix_cons, prefix_nil|].
    rewrite update_cons. destruct (assoc c es) as [u|] eqn:Ha; [|done].
    cbn [at_path]. rewrite assoc_put_eq, Ha. apply IH; intros H; [apply Hp|apply Hq]; by apply prefix_cons.
  - destruct p as [|c' p]; [cbn [update at_path]; by rewrite assoc_put_ne|].
    rewrite update_cons. destruct (assoc c es) as [u|] eqn:Ha; [|done].
    cbn [at_path]. by rewrite assoc_put_ne.
Qed.

(** A directory above the path stays a directory. *)
Lemma is_dir_update p o t q :
  ~ p `prefix_of` q -> is_dir (at_path t q) = true -> is_dir (at_path (update p o t) q) = true.
Proof.
  revert t q. induction p as [|c p IH]; intros t q Hp Hd; [done|].
  destruct q as [|d q]; [destruct t; try done; cbn; destruct p; [done|]; by destruct (assoc c entries)|].
  destruct t as [|perm es| |]; try (by destruct p).
  destruct (decide (c = d)) as [<-|Hn].
  - destruct p as [|c' p]; [destruct Hp; by apply prefix_cons, prefix_nil|].
    rewrite update_cons. cbn [at_path] in Hd. destruct (assoc c es) as [u|] eqn:Ha; [|done].
    cbn [at_path]. rewrite assoc_put_eq. apply IH; [|done]. intros H. apply Hp. by apply prefix_cons.
  - destruct p as [|c' p]; [cbn [update at_path] in *; by rewrite assoc_put_ne|].
    rewrite update_cons. destruct (assoc c es) as [u|] eqn:Ha; [|exact Hd].
    cbn [at_path] in *. by rewrite assoc_put_ne.
Qed.

Lemma found_is_below t p c u : at_path t (p ++ [c]) = Found u -> is_dir (at_path t p) = true.
Proof. rewrite at_path_app. destruct (at_path t p) as [[| | |]| |]; done. Qed.

Lemma missing_or_found_is_below t p c :
  at_path t (p ++ [c]) <> Denied -> at_path t p <> Missing -> is_dir (at_path t p) = true.
Proof. rewrite at_path_app. destruct (at_path t p) as [[| | |]| |]; done. Qed.

(** ** The content hash *)

(** [%04o] of permission bits. *)
Definition octal_digit (z : Z) : ascii := ascii_of_nat (48 + Z.to_nat (z mod 8)).
Definition octal4 (perm : Z) : string :=
  String (octal_digit (perm / 512)) (String (octal_digit (perm / 64))
    (String (octal_digit (perm / 8)) (String (octal_digit perm) ""))).

(** The rights of the owner: to read, to list and enter, to change a directory. *)
Definition can_read : Z := 256.
Definition can_list : Z := 320.
Definition can_change : Z := 192.

Inductive entry :=
| EDir (rel : string) (perm : Z)
| EFile (rel : string) (perm : Z) (data : string).

(** What [hashAssetDirectory] and [AssetContentHash] write for an entry. *)
Definition entry_bytes (e : entry) : string :=
  match e with
  | EDir rel perm => "D" ++ NUL ++ rel ++ NUL ++ octal4 perm ++ NUL
  | EFile rel perm data => "F" ++ NUL ++ rel ++ NUL ++ octal4 perm ++ NUL ++ data
  end.

Fixpoint stream (es : list entry) : string :=
  match es with [] => "" | e :: es' => entry_bytes e ++ stream es' end.

Section Assets.
Context (sha256 : string -> string).
(** The process may read everything. *)
Context (privileged : bool).

Definition may (right perm : Z) : bool := privileged || (Z.land perm right =? right)%Z.

Definition escapes (rel : string) : bool := HasPrefix rel "..".

(** The loop over the entries of a directory: directories are put off, a link
    or a special file is an error. *)
Fixpoint hash_files (rel : string) (l : list (string * tree)) : option (list entry) :=
  match l with
  | [] => Some []
  | (name, TDir _ _) :: l' => hash_files rel l'
  | (name, TFile p data) :: l' =>
      if escapes (join_rel rel name) || negb (may can_read p) then None
      else rest ← hash_files rel l'; Some (EFile (join_rel rel name) p data :: rest)
  | (_, _) :: _ => None
  end.

(** The directory itself, its files, then its directories; [None] is an error. *)
Fixpoint hashAssetDirectory (rel : string) (t : tree) : option (list entry) :=
  match t with
  | TDir perm es =>
      if escapes rel || negb (may can_list perm) then None
      else
        files ← hash_files rel es;
        dirs ← (fix dirs (l : list (string * tree)) : option (list entry) :=
                  match l with
                  | [] => Some []
                  | (name, u) :: l' =>
                      match u with
                      | TDir _ _ => es1 ← hashAssetDirectory (join_rel rel name) u; es2 ← dirs l'; Some (es1 ++ es2)%list
                      | _ => dirs l'
                      end
                  end) es;
        Some (EDir rel perm :: files ++ dirs)%list
  | _ => None
  end.

Definition asset_entries (t : tree) : option (list entry) :=
  match t with
  | TFile perm data => if may can_read perm then Some [EFile "." perm data] else None
  | TDir _ _ => hashAssetDirectory "." t
  | _ => None
  end.

(** The asset found at a path; the error has no further use. *)
Definition AssetContentHash (t : tree) : option string :=
  es ← asset_entries t; Some (hash_of sha256 (stream es)).

(** ** The copy *)

Context (umask : Z).

(** A directory is made with its permissions, filled, and given them again. *)
Fixpoint copyAssetPath (t : tree) : option tree :=
  match t with
  | TFile perm data => if may can_read perm then Some (TFile perm data) else None
  | TDir perm es =>
      if negb (may can_list perm) then None
      else
        es' ← (fix copy_entries (l : list (string * tree)) : option (list (string * tree)) :=
                 match l with
                 | [] => Some []
                 | (name, u) :: l' =>
                     if negb (may can_change (Z.ldiff perm umask)) then None
                     else u' ← copyAssetPath u; l'' ← copy_entries l'; Some ((name, u') :: l'')
                 end) es;
        Some (TDir perm es')
  | _ => None
  end.
End Assets.

(** ** What the hash binds *)

Lemma octal_digit_inj a b : octal_digit a = octal_digit b -> (a mod 8 = b mod 8)%Z.
Proof.
  unfold octal_digit. pose proof (Z.mod_pos_bound a 8). pose proof (Z.mod_pos_bound b 8).
  intros H1%ascii_byte_inj; lia.
Qed.

Lemma octal4_inj a b : (0 <= a < 4096)%Z -> (0 <= b < 4096)%Z -> octal4 a = octal4 b -> a = b.
Proof.
  intros Ha Hb H. unfold octal4 in H. injection H as H1%octal_digit_inj H2%octal_digit_inj H3%octal_digit_inj H4%octal_digit_inj.
  assert (E : forall z, (0 <= z < 4096 -> z = 512 * ((z / 512) mod 8) + 64 * ((z / 64) mod 8) + 8 * ((z / 8) mod 8) + z mod 8)%Z).
  { intros z Hz. Z.to_euclidean_division_equations. lia. }
  rewrite (E a Ha), (E b Hb). lia.
Qed.

(** Paths and contents without zero bytes. *)
Definition plain_entry (e : entry) : Prop :=
  match e with
  | EDir rel perm => has_nul rel = false /\ (0 <= perm < 4096)%Z
  | EFile rel perm data => has_nul rel = false /\ (0 <= perm < 4096)%Z /\ has_nul data = false
  end.

Lemma nul_in_app a b : has_nul (a ++ b) = has_nul a || has_nul b.
Proof. unfold has_nul. rewrite sall_app. by destruct (sall _ a), (sall _ b). Qed.

Lemma octal4_no_nul perm : has_nul (octal4 perm) = false.
Proof.
  assert (H : forall z, Ascii.eqb (octal_digit z) zero = false).
  { intros z. apply Ascii.eqb_neq. unfold octal_digit. intros H. pose proof (Z.mod_pos_bound z 8).
    change zero with (ascii_of_nat 0) in H. apply ascii_byte_inj in H; lia. }
  unfold has_nul, octal4. cbn [sall]. by rewrite !H.
Qed.

(** The rest of a stream is empty or begins with a tag of one byte. *)
Lemma stream_head es : stream es = "" \/ exists c r, stream es = String c (NUL ++ r) /\ c <> zero.
Proof. destruct es as [|[] es]; [by left|right; simpl; eauto..]. Qed.

Lemma sapp_length_cons a c b : a ++ String c b = (a ++ String c "") ++ b.
Proof. by rewrite <- sapp_assoc. Qed.

Lemma snoc_inj a b c d : a ++ String c "" = b ++ String d "" -> a = b /\ c = d.
Proof.
  revert b. induction a as [|x a IH]; intros [|y b] H; simpl in H.
  - by injection H.
  - injection H as _ H. by destruct b.
  - injection H as _ H. by destruct a.
  - injection H as -> H. by destruct (IH _ H) as [-> ->].
Qed.

Lemma tagged_no_nul a c : has_nul a = false -> c <> zero -> has_nul (a ++ String c "") = false.
Proof.
  intros Ha Hc. rewrite nul_in_app, Ha. unfold has_nul. simpl.
  apply Ascii.eqb_neq in Hc. by rewrite Hc.
Qed.

Lemma no_nul_tail a c r : has_nul (a ++ String c (NUL ++ r)) = true.
Proof.
  rewrite nul_in_app. apply orb_true_iff. right. unfold has_nul. simpl. by rewrite andb_false_r.
Qed.

Lemma data_split d d' es es' :
  has_nul d = false -> has_nul d' = false -> d ++ stream es = d' ++ stream es' -> d = d' /\ stream es = stream es'.
Proof.
  intros Hd Hd' H. destruct (stream_head es) as [He|(c & r & He & Hc)], (stream_head es') as [He'|(c' & r' & He' & Hc')];
    rewrite He, He' in H |- *; rewrite ?sapp_nil_r in H.
  - done.
  - by rewrite H, no_nul_tail in Hd.
  - by rewrite <- H, no_nul_tail in Hd'.
  - rewrite !(sapp_length_cons _ _ (NUL ++ _)) in H.
    apply nul_split in H as [H ->]; [|by apply tagged_no_nul..].
    by apply snoc_inj in H as [-> ->].
Qed.

Definition head (tag rel : string) (perm : Z) (rest : string) : string :=
  tag ++ NUL ++ rel ++ NUL ++ octal4 perm ++ NUL ++ rest.

Lemma head_inj tag rel perm rest tag' rel' perm' rest' :
  has_nul tag = false -> has_nul tag' = false -> has_nul rel = false -> has_nul rel' = false ->
  (0 <= perm < 4096)%Z -> (0 <= perm' < 4096)%Z ->
  head tag rel perm rest = head tag' rel' perm' rest' -> tag = tag' /\ rel = rel' /\ perm = perm' /\ rest = rest'.
Proof.
  unfold head. intros Ht Ht' Hr Hr' Hp Hp' H.
  apply nul_split in H as [-> H]; [|done..]. apply nul_split in H as [-> H]; [|done..].
  apply nul_split in H as [Ho ->]; [|apply octal4_no_nul..]. apply octal4_inj in Ho as ->; auto.
Qed.

Lemma stream_cons e es :
  stream (e :: es) = match e with
                     | EDir rel perm => head "D" rel perm (stream es)
                     | EFile rel perm data => head "F" rel perm (data ++ stream es)
                     end.
Proof. destruct e; cbn [stream entry_bytes]; unfold head; by rewrite <- !sapp_assoc. Qed.

(** The stream can be read back. *)
Lemma stream_inj es : forall es',
  Forall plain_entry es -> Forall plain_entry es' -> stream es = stream es' -> es = es'.
Proof.
  induction es as [|e es IH]; intros [|e' es'] H H' Heq.
  - done.
  - by destruct e'.
  - by destruct e.
  - apply Forall_cons_1 in H as [He Hes], H' as [He' Hes']. rewrite !stream_cons in Heq.
    destruct e as [rel perm|rel perm data], e' as [rel' perm'|rel' perm' data']; simpl in He, He'; destruct_and!;
      apply head_inj in Heq as (Ht & -> & -> & Heq); try done.
    + by rewrite (IH _ Hes Hes' Heq).
    + apply data_split in Heq as [-> Heq]; [|done..]. by rewrite (IH _ Hes Hes' Heq).
Qed.

Definition plain_asset (privileged : bool) (t : tree) : Prop :=
  exists es, asset_entries privileged t = Some es /\ Forall plain_entry es.

(** The hash of an asset binds what is in it: if no path and no content has a
    zero byte and SHA-256 does not collide on the two, assets with the same hash
    have the same directories and files with the same permissions and contents. *)
Theorem asset_hash_binds_tree sha256 privileged privileged' t t' es es' :
  asset_entries privileged t = Some es -> asset_entries privileged' t' = Some es' ->
  Forall plain_entry es -> Forall plain_entry es' ->
  collision_free sha256 [stream es; stream es'] ->
  AssetContentHash sha256 privileged t = AssetContentHash sha256 privileged' t' ->
  es = es'.
Proof.
  unfold AssetContentHash. intros -> -> Hp Hp' Hc [= H]. apply stream_inj; [done..|].
  eapply (hash_of_inj _ _ _ _ Hc); [set_solver|set_solver|exact H].
Qed.

Definition two_parts (x y : string) : tree := TDir 493 [("a", TFile 420 x); ("b", TFile 420 y)].
(** The contents of a file that ends like the entry of a second one. *)
Definition forged_data (x y : string) : string := x ++ entry_bytes (EFile "b" 420 y).

(** Contents with zero bytes: a file may hold what looks like the
    entry of another file, so that two trees have one hash. *)
Theorem asset_hash_ambiguous sha256 privileged x y :
  AssetContentHash sha256 privileged (TDir 493 [("a", TFile 420 (forged_data x y))]) =
    AssetContentHash sha256 privileged (two_parts x y) /\
  AssetContentHash sha256 privileged (two_parts x y) <> None.
Proof.
  unfold AssetContentHash, two_parts, asset_entries, may. destruct privileged; simpl; split; try done;
    unfold forged_data; cbn [entry_bytes]; rewrite ?sapp_nil_r, <- ?sapp_assoc; done.
Qed.

(** ** What has no hash *)

Section Unhashable.
Context (sha256 : string -> string) (privileged : bool).

Lemma assoc_elem c es u : assoc c es = Some u -> (c, u) ∈ es.
Proof.
  induction es as [|[d v] es IH]; [done|]. simpl.
  destruct (String.eqb_spec c d) as [->|]; [intros [= ->]; by constructor|intros; constructor; auto].
Qed.

Definition refused_kind (t : tree) : bool := match t with TLink | TSpecial => true | _ => false end.

Lemma hash_files_refuses rel es c u : (c, u) ∈ es -> refused_kind u = true -> hash_files privileged rel es = None.
Proof.
  intros Hin Hr. induction es as [|[d v] es IH]; [by apply elem_of_nil in Hin|].
  apply elem_of_cons in Hin as [[= <- <-]|Hin]; [by destruct u|].
  simpl. destruct v; rewrite ?(IH Hin); try done. by destruct (_ || _).
Qed.

Lemma refused_below t : forall rel p u,
  at_path t p = Found u -> refused_kind u = true -> hashAssetDirectory privileged rel t = None.
Proof.
  induction t as [perm data|perm es IH| |] using tree_ind'; intros rel p u Hat Hr; try done.
  destruct p as [|c p]; simpl in Hat; [by injection Hat as <-|].
  destruct (assoc c es) as [v|] eqn:Ha; [|done]. apply assoc_elem in Ha.
  cbn [hashAssetDirectory]. destruct (_ || _); [done|].
  destruct (refused_kind v) eqn:Hv; [by rewrite (hash_files_refuses rel es c v)|].
  destruct (hash_files privileged rel es) as [files|]; [simpl|done].
  assert (hashAssetDirectory privileged (join_rel rel c) v = None /\ exists q vs, v = TDir q vs) as [Hd (q & vs & ->)].
  { rewrite Forall_forall in IH. specialize (IH _ Ha). destruct v; try done.
    - destruct p; [by injection Hat as <-|done].
    - split; [by eapply IH|eauto]. }
  clear IH Hat. induction es as [|[d w] es IHes]; [by apply elem_of_nil in Ha|].
  apply elem_of_cons in Ha as [[= <- <-]|Ha]; [by rewrite Hd|].
  specialize (IHes Ha). destruct w; try exact IHes.
  destruct (hashAssetDirectory _ _ (TDir perm0 _)) as [es1|]; [|done].
  apply bind_None in IHes as [Hx|(ds & _ & ?)]; [|done]. cbn [mbind option_bind]. by rewrite Hx.
Qed.

(** An asset with a link or a special file anywhere in it has no hash. *)
Lemma refused_has_no_hash t p u :
  at_path t p = Found u -> refused_kind u = true -> AssetContentHash sha256 privileged t = None.
Proof.
  intros Hat Hr. unfold AssetContentHash.
  assert (asset_entries privileged t = None) as ->; [|done].
  destruct t as [perm data|perm es| |]; try done.
  - destruct p; [by injection Hat as <-|done].
  - by eapply refused_below.
Qed.
End Unhashable.

(** ** The copy *)

Section Copy.
Context (sha256 : string -> string) (privileged : bool) (umask : Z).

(** A copy that succeeds is exact. *)
Lemma copy_exact : forall t t', copyAssetPath privileged umask t = Some t' -> t' = t.
Proof.
  induction t as [perm data|perm es IH| |] using tree_ind'; intros t' H; simpl in H; try done.
  - destruct (may _ _ _); [by simplify_eq|done].
  - destruct (may _ _ _); [|done]. simpl in H.
    apply bind_Some in H as (es' & Hes & [= <-]). f_equal. revert es' Hes.
    induction IH as [|[n u] es Hu Hes IHes]; intros es' H; [by simplify_eq|].
    destruct (may _ can_change _); [|done]. simpl in H.
    apply bind_Some in H as (u' & Hc & (l & Hl & [= <-])%bind_Some).
    rewrite (IHes _ Hl). simpl in Hu. by rewrite (Hu _ Hc).
Qed.
End Copy.
