(* ===== verification/Quarantine.v ===== *)
(** * Moving an asset into and out of the quarantine (internal/enforce/quarantine_asset.go)

    The file-system half of the quarantine: plans are validated against the
    roots they may touch, an asset is copied to a stage, the copy is verified by
    its hash, published by a rename, verified again, and only then the original
    is removed.  The operations run on a [Disk], which keeps every state the
    file system went through: the process may stop in any of them.  The
    environment decides which system calls fail, what a removal or a copy in
    progress has left behind, and what other processes do between two calls. *)
From stdpp Require Import base list strings pretty.
From Stdlib Require Import ZArith Lia Ascii.
From S2P Require Import Prelude GoStrings Netguard Paths PathFacts Snapshot AssetTree.

Local Open Scope string_scope.

(** ** Data *)

Record AssetQuarantinePlan := {
  TargetType : string;
  TargetName : string;
  Connector : string;
  SourcePath : string;
  SourceRoot : string;
  QuarantineRoot : string;
  QuarantinePath : string;
  PlanHash : string;  (** the field ContentHash *)
  OwnershipJSON : string;
}.

Record AssetRestorePlan := {
  RecordID : string;
  r_TargetType : string;
  r_TargetName : string;
  r_QuarantineRoot : string;
  r_QuarantinePath : string;
  RestorePath : string;
  AllowedRoots : list string;
  r_ContentHash : string;
}.

(** ** The file system

    A system call has a number.  [fails] says which ones fail; [partial] what a
    copy or a removal in progress has left of the tree at its path; [meddle]
    what others have done to the file system before the call. *)
Record OS := {
  root_user : bool;
  os_umask : Z;
  working_dir : string;
  fails : nat -> bool;
  partial : nat -> tree -> option tree;
  meddle : nat -> tree -> tree;
}.

Record Disk := { root : tree; clock : nat; seen : list tree }.

Definition F (A : Type) : Type := Disk -> Disk * (A + string).

Definition fret {A} (a : A) : F A := fun d => (d, inl a).
Definition ffail {A} (e : string) : F A := fun d => (d, inr e).
Definition fbind {A B} (m : F A) (k : A -> F B) : F B := fun d =>
  match m d with
  | (d', inl a) => k a d'
  | (d', inr e) => (d', inr e)
  end.

Declare Scope disk_scope.
Delimit Scope disk_scope with disk.
Notation "x <- m ;; k" := (fbind m (fun x => k)) (at level 100, m at next level, right associativity) : disk_scope.
Notation "m ;; k" := (fbind m (fun _ => k)) (at level 100, right associativity) : disk_scope.
Local Open Scope disk_scope.

(** [fmt.Errorf] with [%w]. *)
Definition wrap {A} (what : string) (m : F A) : F A := fun d =>
  match m d with
  | (d', inl a) => (d', inl a)
  | (d', inr e) => (d', inr (what ++ ": " ++ e))
  end.

(** A deferred clean-up that runs when [m] fails; its own error is dropped. *)
Definition on_failure {A} (m : F A) (cleanup : F ()) : F A := fun d =>
  match m d with
  | (d', inl a) => (d', inl a)
  | (d', inr e) => let (d'', _) := cleanup d' in (d'', inr e)
  end.

Definition check (b : bool) (e : string) : F () := if b then fret () else ffail e.

Definition or_fail {A} (r : A + string) : F A := fun d => (d, r).

Section Calls.
Context (os : OS).

(** A call that reads. *)
Definition look {A} (f : tree -> A + string) : F A := fun d =>
  let n := clock d in
  let r := meddle os n (root d) in
  ({| root := r; clock := S n; seen := r :: seen d |}, if fails os n then inr "input/output error" else f r).

(** A call that changes the file system in one step. *)
Definition change (f : tree -> tree + string) : F () := fun d =>
  let n := clock d in
  let r := meddle os n (root d) in
  let unchanged := {| root := r; clock := S n; seen := r :: seen d |} in
  if fails os n then (unchanged, inr "input/output error")
  else match f r with
       | inl r' => ({| root := r'; clock := S n; seen := r' :: r :: seen d |}, inl ())
       | inr e => (unchanged, inr e)
       end.

(** A call that works on the tree at [p] for a while: it may be seen, or stop,
    half way; [start] gives what it works on, or says that there is nothing to do. *)
Definition change_slowly (p : list string) (start : tree -> option tree + string) (f : tree -> option tree) : F () := fun d =>
  let n := clock d in
  let r := meddle os n (root d) in
  match start r with
  | inr e => ({| root := r; clock := S n; seen := r :: seen d |}, inr e)
  | inl None => ({| root := r; clock := S n; seen := r :: seen d |}, inl ())
  | inl (Some t) =>
      let half := update p (partial os n t) r in
      let stopped := {| root := half; clock := S n; seen := half :: r :: seen d |} in
      if fails os n then (stopped, inr "input/output error")
      else match f r with
           | Some r' => ({| root := r'; clock := S n; seen := r' :: half :: r :: seen d |}, inl ())
           | None => (stopped, inr "input/output error")
           end
  end.

Definition Lstat (p : list string) : F looked := look (fun r => inl (at_path r p)).

Definition Mkdir (p : list string) (perm : Z) : F () := change (fun r =>
  match at_path r p with
  | Missing => if is_dir (at_path r (removelast p)) then inl (update p (Some (TDir (Z.ldiff perm (os_umask os)) [])) r)
               else inr "no such file or directory"
  | Found _ => inr "file exists"
  | Denied => inr "not a directory"
  end).

(** The directories from the top down. *)
Fixpoint mkdir_from (above : list string) (rest : list string) (perm : Z) : F () :=
  match rest with
  | [] => fret ()
  | c :: rest' =>
      let p := (above ++ [c])%list in
      l <- Lstat p ;;
      (match l with
       | Missing => Mkdir p perm
       | _ => check (is_dir l) "not a directory"
       end) ;;
      mkdir_from p rest' perm
  end.

Definition MkdirAll (p : list string) (perm : Z) : F () := mkdir_from [] p perm.

(** [os.Rename] looks at the new name first and refuses a directory there; what is
    no directory is replaced, but not by a directory.  The look and the system
    call are one step. *)
Definition Rename (p q : list string) : F () := change (fun r =>
  match at_path r p with
  | Found t =>
      let moved := update q (Some t) (update p None r) in
      match at_path r q with
      | Missing => if is_dir (at_path r (removelast q)) then inl moved else inr "no such file or directory"
      | Found u =>
          if is_dir (Found u) then inr "file exists"
          else if is_dir (Found t) then inr "not a directory" else inl moved
      | Denied => inr "not a directory"
      end
  | _ => inr "no such file or directory"
  end).

Definition Remove (p : list string) : F () := change (fun r =>
  match at_path r p with
  | Found _ => inl (update p None r)
  | _ => inr "no such file or directory"
  end).

Definition RemoveAll (p : list string) : F () :=
  change_slowly p
    (fun r => match at_path r p with Found t => inl (Some t) | Missing => inl None | Denied => inr "not a directory" end)
    (fun r => Some (update p None r)).

(** [copyAssetPath] up to the tree it makes. *)
Definition copy_to (source destination : list string) : F () :=
  change_slowly destination
    (fun r => match at_path r source, at_path r destination with
              | Found t, Missing => if is_dir (at_path r (removelast destination)) then inl (Some t)
                                    else inr "no such file or directory"
              | Found _, _ => inr "file exists"
              | _, _ => inr "no such file or directory"
              end)
    (fun r => match at_path r source with
              | Found t => t' ← copyAssetPath (root_user os) (os_umask os) t; Some (update destination (Some t') r)
              | _ => None
              end).
End Calls.

(** ** Paths and names *)

Section Assets.
Context {U : GoUnicode}.
Context (sha256 : string -> string).
Context (os : OS).

Definition quarantineTypeDir (targetType : string) : string + string :=
  let t := TrimSpace targetType in
  if t =? "skill" then inl "skills"
  else if t =? "plugin" then inl "plugins"
  else inr ("enforce: unsupported quarantine target type " ++ Quote targetType).

(** A slash, a backslash or a zero byte. *)
Definition path_byte (c : ascii) : bool := (byte_of c =? 47)%nat || (byte_of c =? 92)%nat || (byte_of c =? 0)%nat.

Definition safePathSegment (value : string) : bool :=
  negb (value =? "") && (value =? TrimSpace value) && negb (value =? ".") && negb (value =? "..") &&
  negb (is_rooted value) && sall (fun c => negb (path_byte c)) value.

Definition pathWithin (path root : string) (allowEqual : bool) : bool :=
  match Rel root path with
  | None => false
  | Some relative =>
      if is_rooted relative then false
      else if relative =? "." then allowEqual
      else negb (relative =? "..") && negb (HasPrefix relative "../")
  end.

Fixpoint within_loop (path : string) (roots : list string) (allowEqual : bool) : string * string + string :=
  match roots with
  | [] => inr "path is outside configured roots"
  | root :: roots' =>
      let rootInput := TrimSpace root in
      if rootInput =? "" then within_loop path roots' allowEqual
      else if negb (is_rooted rootInput) then inr "root is not absolute"
      else if pathWithin path (Clean rootInput) allowEqual then inl (path, Clean rootInput)
      else within_loop path roots' allowEqual
  end.

Definition pathWithinRoots (path : string) (roots : list string) (allowEqual : bool) : string * string + string :=
  let pathInput := TrimSpace path in
  if (pathInput =? "") || negb (is_rooted pathInput) then inr "path is not absolute"
  else within_loop (Clean pathInput) roots allowEqual.

(** bundled_skill.go *)
Definition BundledSkillContainer : string := ".system".
Definition ErrBundledSkill : string :=
  "enforce: bundled skill (.system container or descendant) is vendor-managed and cannot be blocked, disabled, or quarantined".

Definition IsBundledSkillPath (path : string) : bool :=
  let trimmed := TrimSpace path in
  if trimmed =? "" then false
  else existsb (fun part => part =? BundledSkillContainer) (SplitByte (Clean trimmed) SLASH).

Definition IsBundledSkillContainerName (basename : string) : bool := TrimSpace basename =? BundledSkillContainer.

Definition validateSHA256Hex (value : string) : string + string :=
  let s := ToLower (TrimSpace value) in
  if hex_decodes s && (slen s =? 64)%Z then inl s else inr "enforce: content hash must be SHA-256 hex".

(** ** Looking at assets *)

Definition linked (l : looked) : bool := match l with Found TLink => true | _ => false end.

Definition assetPathExists (path : string) : F bool := look os (fun r =>
  match at_path r (comps path) with
  | Found _ => inl true
  | Missing => inl false
  | Denied => inr ("enforce: inspect asset path " ++ path ++ ": not a directory")
  end).

(** The directories from [path], given by its components from the last one, up
    to the root of the file system. *)
Fixpoint existing_up (above : list string) : F () :=
  l <- Lstat os (reverse above) ;;
  match l with
  | Denied => ffail "enforce: inspect path ancestor"
  | _ =>
      check (negb (linked l)) "enforce: linked path ancestor" ;;
      match above with [] => fret () | _ :: up => existing_up up end
  end.

Definition validateExistingAncestors (path : string) : F () := existing_up (reverse (comps path)).

Fixpoint contained_up (above : list string) (root : string) : F () :=
  l <- Lstat os (reverse above) ;;
  match l with
  | Missing | Denied => ffail "enforce: inspect contained path"
  | Found _ =>
      check (negb (linked l)) "enforce: linked contained path" ;;
      if bool_decide (reverse above = comps root) then fret ()
      else match above with
           | [] => ffail "enforce: contained path escaped root"
           | _ :: up =>
               if pathWithin (render (reverse up)) root true then contained_up up root
               else ffail "enforce: contained path escaped root"
           end
  end.

Definition validateContainedAncestors (path root : string) : F () := contained_up (reverse (comps path)) root.

Definition ensureContainedDirectory (path root : string) : F () :=
  check (pathWithin path root true) "enforce: directory escaped allowed root" ;;
  validateExistingAncestors root ;;
  wrap "enforce: create contained directory" (MkdirAll os (comps path) 448) ;;
  validateContainedAncestors path root.

(** [AssetContentHash] of what is at a path. *)
Definition hash_at (path : string) : F string :=
  let pathInput := TrimSpace path in
  if pathInput =? "" then ffail "enforce: invalid asset path"
  else look os (fun r =>
    match at_path r (comps (Abs (working_dir os) pathInput)) with
    | Found t => match AssetContentHash sha256 (root_user os) t with
                 | Some h => inl h
                 | None => inr "enforce: refusing asset"
                 end
    | _ => inr "enforce: inspect asset"
    end).

Definition AssetContentHashMatches (path expected : string) : F bool :=
  h <- hash_at path ;; fret (h =? ToLower (TrimSpace expected)).

Definition requireAssetHash (path expected : string) : F () :=
  actual <- hash_at path ;;
  check (actual =? ToLower (TrimSpace expected)) "asset content hash mismatch".

Definition assetOwnershipJSON (path : string) : F string := look os (fun r =>
  match at_path r (comps path) with
  | Found (TFile perm _) | Found (TDir perm _) => inl ("{" ++ QUOTE ++ "mode" ++ QUOTE ++ ":" ++ pretty perm ++ "}")
  | _ => inr "enforce: inspect asset"
  end).

Definition removeAssetPath (path root : string) : F () :=
  check (pathWithin path root false) "enforce: removal path escaped allowed root" ;;
  wrap "enforce: removal ancestry" (validateContainedAncestors (path_Dir path) root) ;;
  l <- Lstat os (comps path) ;;
  match l with
  | Found (TDir _ _) => RemoveAll os (comps path)
  | Found _ => Remove os (comps path)
  | _ => ffail "no such file or directory"
  end.

Definition removeAssetPathIfExists (path root : string) : F () :=
  exists_ <- assetPathExists path ;;
  if exists_ then removeAssetPath path root else fret ().

(** ** Plans *)

Definition NewAssetQuarantinePlan (quarantineRoot : string) (sourceRoots : list string)
    (targetType targetName connector sourcePath : string) : F AssetQuarantinePlan :=
  typeDir <- or_fail (quarantineTypeDir targetType) ;;
  check (safePathSegment targetName) "enforce: invalid quarantine target name" ;;
  let connector := TrimSpace connector in
  check ((connector =? "") || safePathSegment connector) "enforce: invalid quarantine connector" ;;
  found <- wrap "enforce: quarantine source" (or_fail (pathWithinRoots sourcePath sourceRoots false)) ;;
  let '(sourcePath, sourceRoot) := found in
  check (negb ((TrimSpace targetType =? "skill") && IsBundledSkillPath sourcePath)) ErrBundledSkill ;;
  wrap "enforce: quarantine source ancestry" (validateExistingAncestors (path_Dir sourcePath)) ;;
  check (filepath_Base sourcePath =? targetName) "enforce: quarantine source identity mismatch" ;;
  let quarantineRootInput := TrimSpace quarantineRoot in
  check (negb (quarantineRootInput =? "")) "enforce: invalid quarantine root" ;;
  let quarantineRoot := Abs (working_dir os) quarantineRootInput in
  check (negb (pathWithin sourcePath quarantineRoot true)) "enforce: quarantine source is inside quarantine storage" ;;
  let destination := path_Join ([quarantineRoot; typeDir] ++ (if connector =? "" then [] else [connector]) ++ [targetName])%list in
  check (pathWithin destination quarantineRoot false) "enforce: quarantine destination escaped storage" ;;
  contentHash <- hash_at sourcePath ;;
  ownership <- assetOwnershipJSON sourcePath ;;
  fret {| TargetType := targetType; TargetName := targetName; Connector := connector;
          SourcePath := sourcePath; SourceRoot := sourceRoot;
          QuarantineRoot := quarantineRoot; QuarantinePath := destination;
          PlanHash := contentHash; OwnershipJSON := ownership |}.

Definition validateQuarantinePlan (plan : AssetQuarantinePlan) : F () :=
  or_fail (quarantineTypeDir (TargetType plan)) ;;
  check (safePathSegment (TargetName plan) && (safePathSegment (Connector plan) || (Connector plan =? "")))
    "enforce: invalid quarantine identity" ;;
  check (is_rooted (SourcePath plan) && is_rooted (SourceRoot plan) &&
         is_rooted (QuarantinePath plan) && is_rooted (QuarantineRoot plan))
    "enforce: quarantine plan paths must be absolute" ;;
  check (pathWithin (SourcePath plan) (SourceRoot plan) false && pathWithin (QuarantinePath plan) (QuarantineRoot plan) false)
    "enforce: quarantine plan escaped an allowed root" ;;
  check ((filepath_Base (SourcePath plan) =? TargetName plan) && (filepath_Base (QuarantinePath plan) =? TargetName plan))
    "enforce: quarantine plan identity mismatch" ;;
  or_fail (validateSHA256Hex (PlanHash plan)) ;;
  fret ().

Definition normalizeRestorePlan (plan : AssetRestorePlan) : F (AssetRestorePlan * string) :=
  or_fail (quarantineTypeDir (r_TargetType plan)) ;;
  check (safePathSegment (r_TargetName plan) && safePathSegment (RecordID plan)) "enforce: invalid restore identity" ;;
  let rootInput := TrimSpace (r_QuarantineRoot plan) in
  check (negb (rootInput =? "") && is_rooted rootInput) "enforce: quarantine root must be absolute" ;;
  let quarantineRoot := Abs (working_dir os) rootInput in
  let pathInput := TrimSpace (r_QuarantinePath plan) in
  check (negb (pathInput =? "") && is_rooted pathInput) "enforce: quarantine path must be absolute" ;;
  let quarantinePath := Abs (working_dir os) pathInput in
  check (pathWithin quarantinePath quarantineRoot false && (filepath_Base quarantinePath =? r_TargetName plan))
    "enforce: restore quarantine path escaped storage" ;;
  wrap "enforce: quarantine ancestry" (validateExistingAncestors (path_Dir quarantinePath)) ;;
  found <- wrap "enforce: restore destination" (or_fail (pathWithinRoots (RestorePath plan) (AllowedRoots plan) false)) ;;
  let '(restorePath, restoreRoot) := found in
  check (filepath_Base restorePath =? r_TargetName plan) "enforce: restore destination identity mismatch" ;;
  wrap "enforce: restore ancestry" (validateExistingAncestors (path_Dir restorePath)) ;;
  contentHash <- or_fail (validateSHA256Hex (r_ContentHash plan)) ;;
  fret ({| RecordID := RecordID plan; r_TargetType := r_TargetType plan; r_TargetName := r_TargetName plan;
           r_QuarantineRoot := quarantineRoot; r_QuarantinePath := quarantinePath; RestorePath := restorePath;
           AllowedRoots := AllowedRoots plan; r_ContentHash := contentHash |}, restoreRoot).

(** ** Execution *)

(** From the stage to the verified copy at [destination]; the stage goes when
    anything fails before it is published. *)
Definition publish (source stage destination root hash : string) (what : string) : F () :=
  on_failure
    (wrap ("enforce: copy " ++ what ++ " stage") (copy_to os (comps source) (comps stage)) ;;
     wrap ("enforce: verify " ++ what ++ " stage") (requireAssetHash stage hash) ;;
     wrap ("enforce: publish " ++ what ++ " destination") (Rename os (comps stage) (comps destination)))
    (removeAssetPathIfExists stage root).

Definition clear_stage (stage root what : string) : F () :=
  exists_ <- assetPathExists stage ;;
  if exists_ then wrap ("enforce: remove stale " ++ what ++ " stage") (removeAssetPath stage root) else fret ().

(** The destination is there: an earlier run was stopped. *)
Definition finish_quarantine (plan : AssetQuarantinePlan) : F () :=
  wrap "enforce: existing quarantine destination" (requireAssetHash (QuarantinePath plan) (PlanHash plan)) ;;
  sourceExists <- assetPathExists (SourcePath plan) ;;
  if negb sourceExists then fret ()
  else
    wrap "enforce: source changed during quarantine recovery" (requireAssetHash (SourcePath plan) (PlanHash plan)) ;;
    removeAssetPath (SourcePath plan) (SourceRoot plan).

Definition stage_of (plan : AssetQuarantinePlan) (recordID : string) : string :=
  QuarantinePath plan ++ ".pending-" ++ recordID.

Definition quarantine_afresh (plan : AssetQuarantinePlan) (stage : string) : F () :=
  wrap "enforce: source changed before quarantine" (requireAssetHash (SourcePath plan) (PlanHash plan)) ;;
  ensureContainedDirectory (path_Dir (QuarantinePath plan)) (QuarantineRoot plan) ;;
  check (pathWithin stage (QuarantineRoot plan) false) "enforce: quarantine stage escaped storage" ;;
  clear_stage stage (QuarantineRoot plan) "quarantine" ;;
  publish (SourcePath plan) stage (QuarantinePath plan) (QuarantineRoot plan) (PlanHash plan) "quarantine" ;;
  wrap "enforce: verify quarantine destination" (requireAssetHash (QuarantinePath plan) (PlanHash plan)) ;;
  wrap "enforce: source changed during quarantine" (requireAssetHash (SourcePath plan) (PlanHash plan)) ;;
  wrap "enforce: remove quarantined source" (removeAssetPath (SourcePath plan) (SourceRoot plan)).

Definition ExecuteAssetQuarantine (plan : AssetQuarantinePlan) (recordID : string) : F () :=
  validateQuarantinePlan plan ;;
  check (safePathSegment recordID) "enforce: invalid quarantine journal id" ;;
  destinationExists <- assetPathExists (QuarantinePath plan) ;;
  if destinationExists then finish_quarantine plan else quarantine_afresh plan (stage_of plan recordID).

(** The destination is there: an earlier run was stopped. *)
Definition finish_restore (n : AssetRestorePlan) (quarantineExists : bool) : F () :=
  wrap "enforce: restore destination already exists with different content"
    (requireAssetHash (RestorePath n) (r_ContentHash n)) ;;
  if quarantineExists then
    wrap "enforce: quarantine changed during restore recovery" (requireAssetHash (r_QuarantinePath n) (r_ContentHash n)) ;;
    wrap "enforce: finish quarantine removal" (removeAssetPath (r_QuarantinePath n) (r_QuarantineRoot n))
  else fret ().

Definition restore_stage (n : AssetRestorePlan) : string :=
  path_Join [path_Dir (RestorePath n); ".defenseclaw-restore-" ++ RecordID n].

Definition restore_afresh (n : AssetRestorePlan) (restoreRoot : string) (quarantineExists : bool) : F () :=
  check quarantineExists "enforce: quarantined asset is missing" ;;
  wrap "enforce: quarantine integrity check" (requireAssetHash (r_QuarantinePath n) (r_ContentHash n)) ;;
  ensureContainedDirectory (path_Dir (RestorePath n)) restoreRoot ;;
  let stage := restore_stage n in
  check (pathWithin stage restoreRoot false) "enforce: restore stage escaped allowed root" ;;
  clear_stage stage restoreRoot "restore" ;;
  publish (r_QuarantinePath n) stage (RestorePath n) restoreRoot (r_ContentHash n) "restore" ;;
  wrap "enforce: verify restore destination" (requireAssetHash (RestorePath n) (r_ContentHash n)) ;;
  wrap "enforce: quarantine changed during restore" (requireAssetHash (r_QuarantinePath n) (r_ContentHash n)) ;;
  wrap "enforce: remove restored quarantine copy" (removeAssetPath (r_QuarantinePath n) (r_QuarantineRoot n)).

Definition ExecuteAssetRestore (plan : AssetRestorePlan) : F () :=
  found <- normalizeRestorePlan plan ;;
  let '(n, restoreRoot) := found in
  quarantineExists <- assetPathExists (r_QuarantinePath n) ;;
  restoreExists <- assetPathExists (RestorePath n) ;;
  if restoreExists then finish_restore n quarantineExists else restore_afresh n restoreRoot quarantineExists.
End Assets.

(** ** A concrete asset, its file system and its plans *)

Definition w_skill : tree :=
  TDir 493 [("SKILL.md", TFile 420 "do evil"); ("run", TDir 493 [("a.py", TFile 493 "import os")])].

Definition w_root : tree := TDir 493 [("q", TDir 448 []); ("s", TDir 493 [("evil", w_skill); ("good", TDir 493 [])])].

Definition w_os (fails : nat -> bool) : OS := {|
  root_user := false; os_umask := 18; working_dir := "/"; fails := fails;
  partial := fun _ t => match t with TDir perm (e :: _) => Some (TDir perm [e]) | _ => None end;
  meddle := fun _ t => t |}.

Definition w_quiet : OS := w_os (fun _ => false).
Definition w_disk (t : tree) : Disk := {| root := t; clock := 0; seen := [] |}.

Definition w_plan : AssetQuarantinePlan := {|
  TargetType := "skill"; TargetName := "evil"; Connector := "codex"; SourcePath := "/s/evil"; SourceRoot := "/s";
  QuarantineRoot := "/q"; QuarantinePath := "/q/skills/codex/evil";
  PlanHash := default "" (AssetContentHash sum32 false w_skill);
  OwnershipJSON := "{" ++ QUOTE ++ "mode" ++ QUOTE ++ ":493}" |}.

Definition w_restore : AssetRestorePlan := {|
  RecordID := "id1"; r_TargetType := "skill"; r_TargetName := "evil"; r_QuarantineRoot := "/q";
  r_QuarantinePath := "/q/skills/codex/evil"; RestorePath := "/s/evil"; AllowedRoots := ["/s"];
  r_ContentHash := PlanHash w_plan |}.

Definition w_quarantined : tree :=
  TDir 493 [("q", TDir 448 [("skills", TDir 448 [("codex", TDir 448 [("evil", w_skill)])])]);
            ("s", TDir 493 [("good", TDir 493 [])])].

(** Out of the way and back. *)
Example quarantine_and_restore :
  (NewAssetQuarantinePlan (U := ascii_only) sum32 w_quiet "/q" ["/s"] "skill" "evil" "codex" "/s/evil" (w_disk w_root)).2
    = inl w_plan /\
  (let '(d, r) := ExecuteAssetQuarantine (U := ascii_only) sum32 w_quiet w_plan "id1" (w_disk w_root) in (root d, r))
    = (w_quarantined, inl ()) /\
  (let '(d, r) := ExecuteAssetRestore (U := ascii_only) sum32 w_quiet w_restore (w_disk w_quarantined) in (at_path (root d) ["s"; "evil"], r))
    = (Found w_skill, inl ()).
Proof. vm_compute. repeat split. Qed.
