(* ===== verification/QuarantineFacts.v ===== *)
(** * Reasoning about the quarantine's file operations

    A triple [runs I P m S E] says of a computation on the disk that, started
    in a state with [P], it goes through states with [I] only, ends in [S] with
    a value or in [E] with an error.  There is a rule for each kind of system
    call, for the combinators, and for the operations that plans are executed
    with. *)
From stdpp Require Import base list strings.
From Stdlib Require Import ZArith Lia Ascii.
From S2P Require Import Prelude GoStrings Netguard Paths PathFacts Snapshot AssetTree Quarantine.

Local Open Scope string_scope.
Local Open Scope disk_scope.

Definition runs {A} (I P : tree -> Prop) (m : F A) (S : A -> tree -> Prop) (E : tree -> Prop) : Prop :=
  forall d, P (root d) ->
    match m d with
    | (d', r) =>
        match r with inl a => S a (root d') | inr _ => E (root d') end /\
        exists new, seen d' = (new ++ seen d)%list /\ Forall I new
    end.

Section Rules.
Context (I : tree -> Prop).
Implicit Types (P E : tree -> Prop).

Lemma runs_weaken {A} P P' (m : F A) S S' E E' :
  runs I P m S E -> (forall t, P' t -> P t) -> (forall a t, S a t -> S' a t) -> (forall t, E t -> E' t) ->
  runs I P' m S' E'.
Proof.
  intros H HP HS HE d Hd. specialize (H d (HP _ Hd)). destruct (m d) as [d' [a|e]]; destruct H as [H1 H2]; auto.
Qed.

Lemma runs_pre {A} P P' (m : F A) S E : (forall t, P' t -> P t) -> runs I P m S E -> runs I P' m S E.
Proof. intros HP H. by eapply runs_weaken. Qed.

Lemma runs_within {A} (I' : tree -> Prop) P (m : F A) S E : (forall t, I t -> I' t) -> runs I P m S E -> runs I' P m S E.
Proof.
  intros HI H d Hd. specialize (H d Hd). destruct (m d) as [d' r]. destruct H as [H1 (new & H2 & H3)].
  split; [done|]. exists new. split; [done|]. by eapply Forall_impl.
Qed.

Lemma runs_ret {A} (a : A) P S E : (forall t, P t -> S a t) -> runs I P (fret a) S E.
Proof. intros H d Hd. split; [by apply H|]. by exists []. Qed.

Lemma runs_fail {A} e P (S : A -> tree -> Prop) E : (forall t, P t -> E t) -> runs I P (ffail e) S E.
Proof. intros H d Hd. split; [by apply H|]. by exists []. Qed.

Lemma runs_or_fail {A} (r : A + string) P S E :
  (forall a t, r = inl a -> P t -> S a t) -> (forall e t, r = inr e -> P t -> E t) -> runs I P (or_fail r) S E.
Proof. intros H1 H2 d Hd. split; [destruct r; eauto|]. by exists []. Qed.

Lemma runs_check b e P (S : () -> tree -> Prop) E :
  (forall t, b = true -> P t -> S () t) -> (forall t, b = false -> P t -> E t) -> runs I P (check b e) S E.
Proof. intros H1 H2. destruct b; [apply runs_ret; eauto|apply runs_fail; eauto]. Qed.

Lemma runs_bind {A B} P (m : F A) (k : A -> F B) R S E :
  runs I P m R E -> (forall a, runs I (R a) (k a) S E) -> runs I P (fbind m k) S E.
Proof.
  intros Hm Hk d Hd. specialize (Hm d Hd). unfold fbind.
  destruct (m d) as [d1 [a|e]]; destruct Hm as [H1 (new & Hs & HI)]; [|by eauto].
  specialize (Hk a d1 H1). destruct (k a d1) as [d2 r]. destruct Hk as [H2 (new' & Hs' & HI')].
  split; [done|]. exists (new' ++ new)%list. rewrite Hs', Hs, app_assoc. split; [done|]. by apply Forall_app.
Qed.

Lemma runs_wrap {A} what P (m : F A) S E : runs I P m S E -> runs I P (wrap what m) S E.
Proof. intros Hm d Hd. specialize (Hm d Hd). unfold wrap. destruct (m d) as [d1 [a|e]]; exact Hm. Qed.

Lemma runs_on_failure {A} P (m : F A) cleanup S E E' :
  runs I P m S E' -> runs I E' cleanup (fun _ => E) E -> runs I P (on_failure m cleanup) S E.
Proof.
  intros Hm Hc d Hd. specialize (Hm d Hd). unfold on_failure.
  destruct (m d) as [d1 [a|e]]; destruct Hm as [H1 (new & Hs & HI)]; [by eauto|].
  specialize (Hc d1 H1). destruct (cleanup d1) as [d2 r]. destruct Hc as [H2 (new' & Hs' & HI')].
  split; [by destruct r|]. exists (new' ++ new)%list. rewrite Hs', Hs, app_assoc. split; [done|]. by apply Forall_app.
Qed.

(** A property that holds at the start, in between and at the end. *)
Lemma runs_pure {A} (phi : Prop) P (m : F A) S E :
  (phi -> runs I P m S E) -> runs I (fun t => phi /\ P t) m S E.
Proof. intros H d [Hp Hd]. by apply H. Qed.
End Rules.

Section Calls.
Context (os : OS) (I : tree -> Prop).
Implicit Types (P E : tree -> Prop).

(** What other processes do leaves [P] true. *)
Definition stable P : Prop := forall n t, P t -> P (meddle os n t).

(** No call fails where failing is excluded. *)
Definition may_fail P E : Prop := forall n t, fails os n = true -> P t -> E t.

Lemma runs_look {A} (f : tree -> A + string) P S E :
  stable P -> may_fail P E -> (forall t, P t -> I t) ->
  (forall t, P t -> match f t with inl a => S a t | inr _ => E t end) ->
  runs I P (look os f) S E.
Proof.
  intros Hst Hf HI H d Hd. unfold look. cbn [root seen]. pose proof (Hst (clock d) _ Hd) as Hm.
  split; [|exists [meddle os (clock d) (root d)]; split; [done|by constructor; [apply HI|]]].
  destruct (fails os (clock d)) eqn:Hb; [by eapply Hf|]. specialize (H _ Hm). by destruct (f _).
Qed.

Lemma runs_change f P (S : () -> tree -> Prop) E :
  stable P -> may_fail P E -> (forall t, P t -> I t) ->
  (forall t, P t -> match f t with inl t' => S () t' /\ I t' | inr _ => E t end) ->
  runs I P (change os f) S E.
Proof.
  intros Hst Hf HI H d Hd. unfold change. pose proof (Hst (clock d) _ Hd) as Hm. specialize (H _ Hm).
  destruct (fails os (clock d)) eqn:Hb.
  - split; [by eapply Hf|]. exists [meddle os (clock d) (root d)]. split; [done|by constructor; [apply HI|]].
  - destruct (f _) as [t'|e].
    + destruct H as [H1 H2]. split; [done|]. exists [t'; meddle os (clock d) (root d)].
      split; [done|]. constructor; [done|]. by constructor; [apply HI|].
    + split; [done|]. exists [meddle os (clock d) (root d)]. split; [done|by constructor; [apply HI|]].
Qed.

Lemma runs_change_slowly p start f P (S : () -> tree -> Prop) E :
  stable P -> (forall t, P t -> I t) ->
  (forall t, P t -> match start t with
     | inr _ => E t
     | inl None => S () t
     | inl (Some u) =>
         (forall o, I (update p o t)) /\
         (forall n o, fails os n = true \/ f t = None -> E (update p o t)) /\
         (forall t', f t = Some t' -> S () t' /\ I t')
     end) ->
  runs I P (change_slowly os p start f) S E.
Proof.
  intros Hst HI H d Hd. unfold change_slowly. pose proof (Hst (clock d) _ Hd) as Hm. specialize (H _ Hm).
  set (r := meddle os (clock d) (root d)) in *.
  destruct (start r) as [[u|]|e].
  - destruct H as (Hh & HE & HS). set (half := update p _ r).
    assert (Hhalf : Forall I [half; r]) by (constructor; [apply Hh|by constructor; [apply HI|]]).
    destruct (fails os (clock d)) eqn:Hb; [split; [by eapply HE; left|by exists [half; r]]|].
    destruct (f r) as [r'|] eqn:Hfr.
    + destruct (HS _ eq_refl) as [H1 H2]. split; [done|]. exists [r'; half; r]. split; [done|by constructor].
    + split; [by eapply (HE 0); right|by exists [half; r]].
  - split; [done|]. exists [r]. split; [done|by constructor; [apply HI|]].
  - split; [done|]. exists [r]. split; [done|by constructor; [apply HI|]].
Qed.
End Calls.

(** ** Operations that only read *)

Section Reading.
Context {U : GoUnicode} (sha256 : string -> string) (os : OS) (I : tree -> Prop).
Context (P E : tree -> Prop).
Context (Hst : stable os P) (HE : forall t, P t -> E t) (HI : forall t, P t -> I t).

(** A computation that keeps [P], whatever its outcome. *)
Definition keeps {A} (m : F A) : Prop := runs I P m (fun _ => P) E.

Lemma keeps_look {A} (f : tree -> A + string) : keeps (look os f).
Proof.
  apply runs_look; [done|by intros n t _ Ht; apply HE|done|]. intros t Ht. destruct (f t); auto.
Qed.

Lemma keeps_fret {A} (a : A) : keeps (fret a).
Proof. by apply runs_ret. Qed.

Lemma keeps_ffail {A} e : keeps (ffail (A := A) e).
Proof. by apply runs_fail. Qed.

Lemma keeps_check b e : keeps (check b e).
Proof. apply runs_check; auto. Qed.

Lemma keeps_or_fail {A} (r : A + string) : keeps (or_fail r).
Proof. apply runs_or_fail; auto. Qed.

Lemma keeps_wrap {A} what (m : F A) : keeps m -> keeps (wrap what m).
Proof. apply runs_wrap. Qed.

Lemma keeps_fbind {A B} (m : F A) (k : A -> F B) : keeps m -> (forall a, keeps (k a)) -> keeps (fbind m k).
Proof. intros Hm Hk. eapply runs_bind; [exact Hm|exact Hk]. Qed.

Lemma keeps_if {A} (b : bool) (m m' : F A) : keeps m -> keeps m' -> keeps (if b then m else m').
Proof. by destruct b. Qed.
End Reading.

Create HintDb disk.
#[export] Hint Resolve keeps_look keeps_fret keeps_ffail keeps_check keeps_or_fail keeps_wrap keeps_fbind keeps_if : disk.

Ltac disk_reads := repeat first
  [ progress cbn beta zeta
  | apply keeps_fret | apply keeps_ffail | apply keeps_check | apply keeps_or_fail | apply keeps_look
  | apply keeps_wrap | apply keeps_if | apply keeps_fbind; [|intros ?]
  | match goal with |- keeps _ _ _ (match ?x with _ => _ end) => destruct x end
  | assumption ].

Section Keeping.
Context {U : GoUnicode} (sha256 : string -> string) (os : OS) (I : tree -> Prop).
Context (P E : tree -> Prop).
Context (Hst : stable os P) (HE : forall t, P t -> E t) (HI : forall t, P t -> I t).

Lemma keeps_existing_up above : keeps I P E (existing_up os above).
Proof. induction above as [|c up IH]; cbn [existing_up]; unfold Lstat; disk_reads. Qed.

Lemma keeps_contained_up above r : keeps I P E (contained_up os above r).
Proof. induction above as [|c up IH]; cbn [contained_up]; unfold Lstat; disk_reads. Qed.

Lemma keeps_hash_at path : keeps I P E (hash_at sha256 os path).
Proof. unfold hash_at. disk_reads. Qed.

Lemma keeps_validateQuarantinePlan plan : keeps I P E (validateQuarantinePlan plan).
Proof. unfold validateQuarantinePlan. disk_reads. Qed.

(** A path, the answer on it, and what that says of the state. *)
Definition holds (p : list string) (h : string) (t : tree) : Prop :=
  exists u, at_path t p = Found u /\ AssetContentHash sha256 (root_user os) u = Some h.

Lemma runs_exists path :
  runs I P (assetPathExists os path)
    (fun b t => P t /\ if b then is_Some (match at_path t (comps path) with Found u => Some u | _ => None end)
                       else at_path t (comps path) = Missing) E.
Proof.
  apply runs_look; [done|by intros n t _ Ht; apply HE|done|]. intros t Ht.
  destruct (at_path t (comps path)); simpl; eauto.
Qed.

(** A path as the plans of the quarantine have it. *)
Definition tidy (path : string) : bool := is_rooted path && (Clean path =? path) && (TrimSpace path =? path).

Lemma tidy_Abs path wd : tidy path = true -> comps (Abs wd (TrimSpace path)) = comps path /\ (TrimSpace path =? "") = false.
Proof.
  unfold tidy. rewrite !andb_true_iff, !String.eqb_eq. intros [[Hr Hc] ->]. unfold Abs. rewrite Hr.
  split; [by apply comps_Clean|]. apply String.eqb_neq. by intros ->.
Qed.

Lemma tidy_render path : tidy path = true -> path = render (comps path) /\ Forall (fun c => good_name c = true) (comps path).
Proof.
  unfold tidy. rewrite !andb_true_iff, !String.eqb_eq. intros [[Hr Hc] _].
  split; [by rewrite <- Clean_is_render|by apply comps_good].
Qed.

Lemma comps_Dir path : tidy path = true -> comps path <> [] -> comps (path_Dir path) = removelast (comps path).
Proof.
  intros [Hp Hg]%tidy_render Hn. destruct (exists_last Hn) as (l & c & Hl).
  rewrite Hl, removelast_last. rewrite Hl in Hg. apply Forall_app in Hg as [Hg Hc%Forall_cons_1].
  rewrite Hp, Hl, path_Dir_render by tauto. by apply comps_render.
Qed.

Definition expected (h : string) : string := ToLower (TrimSpace h).

Lemma runs_require path h :
  tidy path = true ->
  runs I P (requireAssetHash sha256 os path h) (fun _ t => P t /\ holds (comps path) (expected h) t) E.
Proof.
  intros Ht. destruct (tidy_Abs path (working_dir os) Ht) as [Ha Hn].
  unfold requireAssetHash. eapply (runs_bind _ _ _ _ (fun a t => P t /\ holds (comps path) a t)).
  - unfold hash_at. rewrite Hn. apply runs_look; [done|by intros n t _ Hp; apply HE|done|]. intros t Hp. rewrite Ha.
    destruct (at_path t (comps path)) as [u| |] eqn:Hu; [|by apply HE..].
    destruct (AssetContentHash _ _ u) as [a|] eqn:Hh; [|by apply HE]. split; [done|by exists u].
  - intros a. apply runs_check; [|by intros t _ [Hp _]; apply HE].
    intros t Heq%String.eqb_eq. by rewrite Heq.
Qed.

(** ** Changes elsewhere *)

Definition framed (q : list string) : Prop := forall o t, P t -> P (update q o t).

Lemma keeps_Remove q : framed q -> keeps I P E (Remove os q).
Proof.
  intros Hq. apply runs_change; [done|by intros n t _ Ht; apply HE|done|]. intros t Ht.
  destruct (at_path t q); auto.
Qed.

Lemma keeps_RemoveAll q : framed q -> keeps I P E (RemoveAll os q).
Proof.
  intros Hq. apply runs_change_slowly; [done|done|]. intros t Ht.
  destruct (at_path t q); auto. split_and!; [by eauto|by eauto|]. intros t' [= <-]. eauto.
Qed.

Lemma keeps_removeAssetPath path r : framed (comps path) -> keeps I P E (removeAssetPath os path r).
Proof.
  intros Hq. unfold removeAssetPath, validateContainedAncestors, Lstat.
  apply keeps_fbind; [disk_reads|intros ?]. apply keeps_fbind; [apply keeps_wrap, keeps_contained_up|intros ?].
  apply keeps_fbind; [disk_reads|intros [[]| |]]; try apply keeps_ffail; auto using keeps_Remove, keeps_RemoveAll.
Qed.

(** After a removal that succeeds nothing is there. *)
Definition removed (q : list string) (t : tree) : Prop := P t /\ at_path t q = Missing.

Lemma update_removes q u t : q <> [] -> at_path t q = Found u -> at_path (update q None t) q = Missing.
Proof.
  intros Hq Hf. destruct (exists_last Hq) as (p & c & ->).
  by rewrite (at_path_update_below _ _ _ _ []) by (by eapply found_is_below).
Qed.

Lemma runs_Remove q : q <> [] -> framed q -> runs I P (Remove os q) (fun _ => removed q) E.
Proof.
  intros Hn Hq. apply runs_change; [done|by intros n t _ Ht; apply HE|done|]. intros t Ht.
  destruct (at_path t q) eqn:Hf; auto. split; [split; [by apply Hq|by eapply update_removes]|auto].
Qed.

Lemma runs_RemoveAll q : q <> [] -> framed q -> runs I P (RemoveAll os q) (fun _ => removed q) E.
Proof.
  intros Hn Hq. apply runs_change_slowly; [done|done|]. intros t Ht.
  destruct (at_path t q) eqn:Hf; [|by split|by auto]. split_and!; [by eauto|by eauto|].
  intros t' [= <-]. split; [split; [by apply Hq|by eapply update_removes]|auto].
Qed.

Lemma runs_removeAssetPath path r :
  comps path <> [] -> framed (comps path) ->
  runs I P (removeAssetPath os path r) (fun _ => removed (comps path)) E.
Proof.
  intros Hn Hq. unfold removeAssetPath, validateContainedAncestors, Lstat.
  eapply runs_bind; [apply (keeps_check I P E HE)|intros ?].
  eapply runs_bind; [apply keeps_wrap, keeps_contained_up; done|intros ?].
  eapply runs_bind; [by apply (keeps_look os I P E)|intros [[]| |]];
    first [by apply runs_RemoveAll|by apply runs_Remove|by apply runs_fail].
Qed.

Lemma keeps_removeIfExists path r : framed (comps path) -> keeps I P E (removeAssetPathIfExists os path r).
Proof.
  intros Hq. unfold removeAssetPathIfExists, assetPathExists. apply keeps_fbind; [disk_reads|intros []].
  - by apply keeps_removeAssetPath.
  - disk_reads.
Qed.

Lemma keeps_clear_stage stage r what : framed (comps stage) -> keeps I P E (clear_stage os stage r what).
Proof.
  intros Hq. unfold clear_stage, assetPathExists. apply keeps_fbind; [disk_reads|intros []].
  - by apply keeps_wrap, keeps_removeAssetPath.
  - disk_reads.
Qed.

Lemma keeps_copy_to source stage : framed stage -> keeps I P E (copy_to os source stage).
Proof.
  intros Hq. apply runs_change_slowly; [done|done|]. intros t Ht.
  destruct (at_path t source); auto. destruct (at_path t stage); auto. destruct (is_dir _); auto.
  split_and!; [by eauto|by eauto|]. intros t' (c & _ & [= <-])%bind_Some. eauto.
Qed.

(** The directories made for a path. *)
Definition makes_room (q : list string) : Prop := forall p perm t,
  p `prefix_of` q -> P t -> at_path t p = Missing -> is_dir (at_path t (removelast p)) = true ->
  P (update p (Some (TDir perm [])) t).

Lemma keeps_mkdir_from rest : forall above perm, makes_room (above ++ rest) -> keeps I P E (mkdir_from os above rest perm).
Proof.
  induction rest as [|c rest IH]; intros above perm Hq; cbn [mkdir_from]; [disk_reads|].
  apply keeps_fbind; [unfold Lstat; disk_reads|intros l].
  apply keeps_fbind; [|intros _; apply IH; by rewrite <- app_assoc].
  assert (Hm : keeps I P E (Mkdir os (above ++ [c]) perm)).
  { apply runs_change; [done|by intros n t _ Ht; apply HE|done|]. intros t Ht.
    destruct (at_path t (above ++ [c])) eqn:Ha; auto. destruct (is_dir _) eqn:Hd; auto.
    assert (P (update (above ++ [c]) (Some (TDir (Z.ldiff perm (os_umask os)) [])) t)); [|by auto].
    apply Hq; [|done..]. by apply prefix_app, prefix_cons, prefix_nil. }
  destruct l; [disk_reads|exact Hm|disk_reads].
Qed.

Lemma keeps_ensure path r : makes_room (comps path) -> keeps I P E (ensureContainedDirectory os path r).
Proof.
  intros Hq. unfold ensureContainedDirectory.
  apply keeps_fbind; [disk_reads|intros _]. apply keeps_fbind; [apply keeps_existing_up|intros _].
  apply keeps_fbind; [by apply keeps_wrap, (keeps_mkdir_from _ [])|intros _; apply keeps_contained_up].
Qed.
End Keeping.

(** ** Containment *)

Lemma pathWithin_below r q b :
  Forall (fun c => good_name c = true) (r ++ q) -> (q = [] -> b = true) -> pathWithin (render (r ++ q)) (render r) b = true.
Proof.
  intros Hg Hq. unfold pathWithin. destruct (decide (q = [])) as [->|Hn].
  - rewrite app_nil_r. unfold Rel. rewrite String.eqb_refl. simpl. by apply Hq.
  - rewrite (Rel_below r q Hg Hn). apply Forall_app in Hg as [_ Hg].
    destruct (Join_good q Hg Hn) as (H1 & H2%String.eqb_neq & H3%String.eqb_neq & H4). by rewrite H1, H2, H3, H4.
Qed.

Lemma pathWithin_inv `{U : GoUnicode} path r :
  tidy path = true -> is_rooted r = true -> pathWithin path r false = true ->
  exists q, comps path = (comps r ++ q)%list /\ q <> [].
Proof.
  intros Ht Hr H. assert (Hp : is_rooted path = true) by (unfold tidy in Ht; rewrite !andb_true_iff in Ht; tauto).
  unfold pathWithin, Rel in H. destruct (Clean r =? Clean path) eqn:He; [done|].
  rewrite Hp, Hr in H. cbn [Bool.eqb negb] in H.
  destruct (strip_common (comps r) (comps path)) as [up down] eqn:Hsc.
  apply strip_common_spec in Hsc as (k & Hk1 & Hk2 & _). destruct up as [|d up].
  - exists down. rewrite Hk1, Hk2, app_nil_r. split; [done|]. intros ->.
    apply String.eqb_neq in He. apply He. rewrite (Clean_is_render r Hr), (Clean_is_render path Hp), Hk1, Hk2. done.
  - destruct (d =? ".."); [done|]. cbn [length replicate app] in H.
    destruct (Join_updots (length up) down) as [Hj|[s Hj]]; rewrite Hj in H; [done|].
    by destruct s.
Qed.
