(* ===== verification/QuarantineProps.v ===== *)
(** * Crash safety of the quarantine

    Whatever calls fail, wherever the process stops, whatever the working
    states of copies and removals are: the asset is complete at its old place as
    long as the new one is empty, and what appears at the new place has the
    recorded hash.  Success means that the old place is empty and the new one
    verified.  Interrupted operations are finished by running them again, except
    when the removal of the old copy was interrupted. *)
From stdpp Require Import base list strings.
From Stdlib Require Import ZArith Lia Ascii.
From S2P Require Import Prelude GoStrings Netguard Paths PathFacts Snapshot AssetTree Quarantine QuarantineFacts.

Local Open Scope string_scope.
Local Open Scope disk_scope.

(** ** Moving one asset *)

Definition apart (p q : list string) : bool :=
  negb (bool_decide (p `prefix_of` q)) && negb (bool_decide (q `prefix_of` p)).

Lemma apart_update p q o t : apart q p = true -> at_path (update q o t) p = at_path t p.
Proof.
  unfold apart. rewrite andb_true_iff, !negb_true_iff, !bool_decide_eq_false. intros [H1 H2].
  by apply at_path_update_other.
Qed.

Lemma apart_sym p q : apart p q = apart q p.
Proof. unfold apart. by rewrite andb_comm. Qed.

Section Move.
Context {U : GoUnicode} (sha256 : string -> string) (os : OS).
(** From [src] by [stage] to [dst]; [hash] is the recorded hash. *)
Context (src stage dst hash : string).

Definition well_placed : bool :=
  tidy src && tidy stage && tidy dst && bool_decide (removelast (comps stage) = removelast (comps dst)) &&
  apart (comps src) (comps stage) && apart (comps src) (comps dst) &&
  apart (comps stage) (comps dst) && negb (bool_decide (comps dst = [])).

Definition untouched (path : string) : Prop := forall n t, at_path (meddle os n t) (comps path) = at_path t (comps path).

Context (Hwell : well_placed = true) (Hstage : untouched stage) (Hdst : untouched dst).
(** What is known of the old place while the new one is empty. *)
Context (C : tree -> Prop).
Context (HC : stable os C) (HCf : framed C (comps stage)) (HCr : makes_room C (removelast (comps dst))).

Definition verified (t : tree) : Prop := holds sha256 os (comps dst) (expected hash) t.
Definition before (t : tree) : Prop := at_path t (comps dst) = Missing /\ C t.
Definition safe (t : tree) : Prop := before t \/ verified t.

Lemma placed : tidy src = true /\ tidy stage = true /\ tidy dst = true /\
  apart (comps src) (comps stage) = true /\ apart (comps src) (comps dst) = true /\
  apart (comps stage) (comps dst) = true /\ comps dst <> [].
Proof using Hwell.
  clear -Hwell. revert Hwell. unfold well_placed. rewrite !andb_true_iff, negb_true_iff, bool_decide_eq_false. tauto.
Qed.

Lemma same_directory : removelast (comps stage) = removelast (comps dst).
Proof using Hwell.
  clear -Hwell. revert Hwell. unfold well_placed. rewrite !andb_true_iff, bool_decide_eq_true. tauto.
Qed.

Lemma holds_at p h t t' : at_path t p = at_path t' p -> holds sha256 os p h t -> holds sha256 os p h t'.
Proof. unfold holds. by intros ->. Qed.

Lemma verified_stable : stable os verified.
Proof. intros n t. by apply holds_at. Qed.

Lemma before_stable : stable os before.
Proof. intros n t [H1 H2]. split; [by rewrite Hdst|by apply HC]. Qed.

Lemma safe_stable : stable os safe.
Proof. intros n t [H|H]; [left; by apply before_stable|right; by apply verified_stable]. Qed.

Lemma verified_framed p : apart p (comps dst) = true -> framed verified p.
Proof. intros Ha o t. apply holds_at. by rewrite apart_update. Qed.

Lemma before_framed : framed before (comps stage).
Proof.
  destruct placed as (_ & _ & _ & _ & _ & H3 & _). intros o t [Hm Hc].
  split; [by rewrite apart_update|by apply HCf].
Qed.

Lemma snoc_last (l : list string) : l <> [] -> l = (removelast l ++ [List.last l ""])%list.
Proof. intros H. by apply app_removelast_last. Qed.

(** Making a directory where nothing is. *)
Lemma makes_room_below p perm t :
  p `prefix_of` removelast (comps dst) -> at_path t p = Missing -> is_dir (at_path t (removelast p)) = true ->
  exists x q, comps dst = (p ++ x :: q)%list /\
    forall k, at_path (update p (Some (TDir perm [])) t) (p ++ k) = at_path (TDir perm []) k.
Proof using Hwell.
  destruct placed as (_ & _ & _ & _ & _ & _ & Hne). intros [k Hk] Hat Hd.
  assert (Hp0 : p <> []) by (intros ->; by destruct t).
  assert (Hdp : exists x q, comps dst = (p ++ x :: q)%list).
  { rewrite (snoc_last _ Hne), Hk, <- app_assoc. destruct k as [|x k]; simpl; eauto. }
  destruct Hdp as (x & q & Hdp). exists x, q. split; [done|]. intros k'.
  rewrite (snoc_last p Hp0) at 1 2. rewrite <- app_assoc. simpl. by rewrite at_path_update_below.
Qed.

Lemma before_room : makes_room before (removelast (comps dst)).
Proof using Hwell HCr.
  intros p perm t Hp [Hm Hc] Hat Hd. split; [|by apply HCr].
  destruct (makes_room_below p perm t Hp Hat Hd) as (x & q & -> & ->). done.
Qed.

(** What is said of the old place alone. *)
Lemma room_elsewhere (D : looked -> Prop) :
  (D Missing -> forall l, D l) -> makes_room (fun t => D (at_path t (comps src))) (removelast (comps dst)).
Proof using Hwell.
  destruct placed as (_ & _ & _ & _ & Ha & _). intros HD p perm t Hp Hc Hat Hd.
  destruct (makes_room_below p perm t Hp Hat Hd) as (x & q & Hdp & _).
  destruct (decide (p `prefix_of` comps src)) as [[k' Hs]|Hns].
  - rewrite Hs, at_path_app, Hat in Hc. by apply HD.
  - rewrite at_path_update_other; [done|done|]. intros [k' Hs].
    unfold apart in Ha. rewrite Hdp, Hs in Ha.
    rewrite bool_decide_eq_true_2 in Ha; [done|]. rewrite <- app_assoc. by apply prefix_app_r.
Qed.

Lemma framed_elsewhere (D : looked -> Prop) : framed (fun t => D (at_path t (comps src))) (comps stage).
Proof using Hwell.
  destruct placed as (_ & _ & _ & Ha & _). intros o t. by rewrite apart_update by (by rewrite apart_sym).
Qed.

Lemma apart_removelast p q : apart p q = true -> ~ p `prefix_of` removelast q.
Proof.
  unfold apart. rewrite andb_true_iff, !negb_true_iff, !bool_decide_eq_false. intros [H _] Hp. apply H.
  destruct (decide (q = [])) as [->|Hn]; [done|]. rewrite (snoc_last q Hn). by apply prefix_app_r.
Qed.

(** ** Publication *)

Lemma publish_runs r what :
  runs safe before (publish sha256 os src stage dst r hash what) (fun _ => verified) before.
Proof.
  destruct placed as (_ & Ht & _ & H1 & H2 & H3 & Hne).
  assert (HI : forall t, before t -> safe t) by (by left).
  eapply runs_on_failure; [|apply keeps_removeIfExists; auto using before_stable, before_framed].
  eapply runs_bind; [apply runs_wrap, keeps_copy_to; auto using before_stable, before_framed|intros ?].
  eapply runs_bind; [apply runs_wrap, (runs_require _ _ _ before before); auto using before_stable|intros ?].
  apply runs_wrap, runs_change.
  - intros n t [Hb Hh]. split; [by apply before_stable|]. by apply (holds_at _ _ t).  
  - by intros n t _ [Hb _].
  - intros t [Hb _]. by left.
  - intros t [[Hm Hc] (u & Hu & Hh)]. rewrite Hu, Hm.
    destruct (is_dir (at_path t (removelast (comps dst)))) eqn:Hd; [|done].
    assert (Hv : verified (update (comps dst) (Some u) (update (comps stage) None t))); [|by split; [|right]].
    exists u. split; [|done]. rewrite (snoc_last _ Hne) at 1 2.
    rewrite (at_path_update_below _ _ _ _ []); [done|]. apply is_dir_update; [by apply apart_removelast|done].
Qed.

(** ** Removal of the old copy *)

Definition moved (t : tree) : Prop := verified t /\ at_path t (comps src) = Missing.

Lemma src_not_root : comps src <> [].
Proof using Hwell.
  destruct placed as (_ & _ & _ & H1 & _). intros H. unfold apart in H1. rewrite H in H1.
  rewrite bool_decide_eq_true_2 in H1; [done|]. apply prefix_nil.
Qed.

Lemma remove_source_runs r : runs safe verified (removeAssetPath os src r) (fun _ => moved) safe.
Proof.
  destruct placed as (_ & _ & _ & _ & H & _). eapply runs_weaken; [apply runs_removeAssetPath with (P := verified) (E := safe)|..]; try done.
  - apply verified_stable.
  - by right.
  - by right.
  - apply src_not_root.
  - by apply verified_framed.
Qed.

Lemma keeps_require_source path : keeps safe verified safe (requireAssetHash sha256 os path hash).
Proof.
  unfold requireAssetHash. apply keeps_fbind; [apply keeps_hash_at|intros a; apply keeps_check];
    auto using verified_stable; by right.
Qed.

(** What is left to do when the new place is empty. *)
Lemma move_runs r r' what (w1 w2 w3 : string) :
  runs safe before
    (clear_stage os stage r what ;;
     publish sha256 os src stage dst r hash what ;;
     wrap w1 (requireAssetHash sha256 os dst hash) ;;
     wrap w2 (requireAssetHash sha256 os src hash) ;;
     wrap w3 (removeAssetPath os src r'))
    (fun _ => moved) safe.
Proof.
  eapply runs_bind; [apply (keeps_clear_stage os safe before safe); auto using before_stable, before_framed; by left|intros ?].
  eapply runs_bind; [eapply runs_weaken; [apply publish_runs|done|by intros|by left]|intros ?].
  eapply runs_bind; [apply runs_wrap, keeps_require_source|intros ?].
  eapply runs_bind; [apply runs_wrap, keeps_require_source|intros ?].
  apply runs_wrap, remove_source_runs.
Qed.

Lemma safe_reads {A} (m : F A) :
  (stable os safe -> (forall t, safe t -> safe t) -> keeps safe safe safe m) -> runs safe safe m (fun _ => safe) safe.
Proof. intros H. apply H; [apply safe_stable|done]. Qed.
End Move.

(** ** The two operations *)

Section Operations.
Context {U : GoUnicode} (sha256 : string -> string) (os : OS).

Lemma execute_runs plan id C :
  well_placed (SourcePath plan) (stage_of plan id) (QuarantinePath plan) = true ->
  untouched os (stage_of plan id) -> untouched os (QuarantinePath plan) ->
  stable os C -> framed C (comps (stage_of plan id)) -> makes_room C (removelast (comps (QuarantinePath plan))) ->
  let I := safe sha256 os (QuarantinePath plan) (PlanHash plan) C in
  runs I I (ExecuteAssetQuarantine sha256 os plan id)
    (fun _ => moved sha256 os (SourcePath plan) (QuarantinePath plan) (PlanHash plan)) I.
Proof.
  intros Hw Hs Hd HC HCf HCr I.
  assert (HI : stable os I) by (by eapply safe_stable).
  unfold ExecuteAssetQuarantine, finish_quarantine, quarantine_afresh.
  eapply runs_bind; [by apply keeps_validateQuarantinePlan|intros ?].
  eapply runs_bind; [by apply (keeps_check I I I)|intros ?].
  eapply runs_bind; [by apply (runs_exists os I I I)|intros [|]; cbn beta].
  - apply (runs_pre _ (verified sha256 os (QuarantinePath plan) (PlanHash plan))).
    { intros t [[[Hm _]|H] Hf]; [by rewrite Hm in Hf; destruct Hf|exact H]. }
    assert (Hv : forall t, verified sha256 os (QuarantinePath plan) (PlanHash plan) t -> I t) by (by right).
    eapply runs_bind; [apply runs_wrap; by eapply keeps_require_source|intros ?].
    eapply runs_bind; [apply (runs_exists os I _ I); [by eapply verified_stable|done|done]|intros [|]; cbn beta iota delta [negb]].
    + apply (runs_pre _ (verified sha256 os (QuarantinePath plan) (PlanHash plan))); [by intros t []|].
      eapply runs_bind; [apply runs_wrap; by eapply keeps_require_source|intros ?]. by eapply remove_source_runs.
    + apply runs_ret. by intros t [].
  - set (P := before (QuarantinePath plan) C).
    apply (runs_pre _ P); [intros t [[H|(u & Hu & _)] Hm]; [exact H|congruence]|].
    assert (HP : stable os P) by (by eapply before_stable).
    assert (HPI : forall t, P t -> I t) by (by left).
    eapply runs_bind; [apply runs_wrap; unfold requireAssetHash; apply (keeps_fbind I P I);
      [by apply keeps_hash_at|intros ?; by apply keeps_check]|intros ?].
    eapply runs_bind; [apply (keeps_ensure os I P I); try done|intros ?].
    { pose proof Hw as (_ & _ & Ht & _ & _ & _ & Hn)%placed. rewrite comps_Dir by done. by eapply before_room. }
    eapply runs_bind; [by apply (keeps_check I P I)|intros ?].
    by eapply move_runs.
Qed.

(** *** Restore *)

(** A plan whose paths and hash are as the journal keeps them. *)
Definition journalled (plan : AssetRestorePlan) : Prop :=
  tidy (r_QuarantinePath plan) = true /\ tidy (RestorePath plan) = true /\
  expected (r_ContentHash plan) = r_ContentHash plan.

Lemma within_loop_path p roots b q r : within_loop p roots b = inl (q, r) -> q = p.
Proof.
  induction roots as [|x roots IH]; [done|]. cbn [within_loop].
  destruct (TrimSpace x =? ""); [done|]. destruct (negb _); [done|]. destruct (pathWithin _ _ _); [|done].
  by intros [= <- _].
Qed.

Lemma tidy_Clean p : tidy p = true -> Clean (TrimSpace p) = p /\ Abs (working_dir os) (TrimSpace p) = p.
Proof.
  unfold tidy, Abs. rewrite !andb_true_iff, !String.eqb_eq. intros [[Hr Hc] ->]. by rewrite Hr.
Qed.

Lemma normalize_runs I P E plan :
  stable os P -> (forall t, P t -> E t) -> (forall t, P t -> I t) -> journalled plan ->
  runs I P (normalizeRestorePlan os plan)
    (fun r t => P t /\ r_QuarantinePath r.1 = r_QuarantinePath plan /\ RestorePath r.1 = RestorePath plan /\
                r_ContentHash r.1 = r_ContentHash plan /\ RecordID r.1 = RecordID plan) E.
Proof.
  intros Hst HE HI ([_ Hq]%tidy_Clean & [Hr _]%tidy_Clean & Hh). unfold normalizeRestorePlan.
  eapply runs_bind; [by apply (keeps_or_fail I P E)|intros ?].
  eapply runs_bind; [by apply (keeps_check I P E)|intros ?].
  eapply runs_bind; [by apply (keeps_check I P E)|intros ?].
  eapply runs_bind; [by apply (keeps_check I P E)|intros ?].
  eapply runs_bind; [by apply (keeps_check I P E)|intros ?].
  eapply runs_bind; [by apply (keeps_wrap I P E), (keeps_existing_up os I P E)|intros ?].
  eapply (runs_bind _ _ _ _ (fun f t => P t /\ f.1 = RestorePath plan)).
  { apply runs_wrap, runs_or_fail; [|by intros; apply HE]. intros [q r] t Hf Ht. split; [done|].
    unfold pathWithinRoots in Hf. destruct (_ || _); [done|]. apply within_loop_path in Hf. simpl. congruence. }
  intros [q r]. cbn [fst].
  eapply runs_pre; [intros t [H1 H2]; exact (conj H2 H1)|]. apply runs_pure. intros ->.
  eapply runs_bind; [by apply (keeps_check I P E)|intros ?].
  eapply runs_bind; [by apply (keeps_wrap I P E), (keeps_existing_up os I P E)|intros ?].
  eapply (runs_bind _ _ _ _ (fun h t => P t /\ h = r_ContentHash plan)).
  { apply runs_or_fail; [|by intros; apply HE]. unfold validateSHA256Hex. intros h t Hf Ht. split; [done|].
    destruct (_ && _); [|done]. injection Hf as <-. exact Hh. }
  intros h. apply runs_ret. by intros t [Ht ->].
Qed.

Lemma restore_runs plan C :
  well_placed (r_QuarantinePath plan) (restore_stage plan) (RestorePath plan) = true -> journalled plan ->
  untouched os (r_QuarantinePath plan) -> untouched os (restore_stage plan) -> untouched os (RestorePath plan) ->
  stable os C -> framed C (comps (restore_stage plan)) -> makes_room C (removelast (comps (RestorePath plan))) ->
  let I := safe sha256 os (RestorePath plan) (r_ContentHash plan) C in
  runs I I (ExecuteAssetRestore sha256 os plan)
    (fun _ => moved sha256 os (r_QuarantinePath plan) (RestorePath plan) (r_ContentHash plan)) I.
Proof.
  intros Hw Hj Hq Hs Hd HC HCf HCr I.
  assert (HI : stable os I) by (by eapply safe_stable).
  unfold ExecuteAssetRestore, finish_restore, restore_afresh.
  eapply runs_bind; [by apply (normalize_runs I I I)|intros [n rr]]. cbn [fst].
  eapply runs_pre; [intros t [H1 H2]; exact (conj H2 H1)|]. apply runs_pure. intros (-> & Hrp & Hrh & Hid).
  assert (Hst : restore_stage n = restore_stage plan) by (unfold restore_stage; by rewrite Hrp, Hid).
  rewrite Hst, Hrp, Hrh. set (V := verified sha256 os (RestorePath plan) (r_ContentHash plan)).
  assert (HV : stable os V) by (by eapply verified_stable).
  assert (HVI : forall t, V t -> I t) by (by right).
  eapply runs_bind; [by apply (runs_exists os I I I)|intros q; cbn beta].
  set (Pq := fun t => I t /\ if q then True else at_path t (comps (r_QuarantinePath plan)) = Missing).
  apply (runs_pre _ Pq); [intros t [H1 H2]; split; [exact H1|by destruct q]|].
  assert (HPq : stable os Pq) by (intros k t [H1 H2]; split; [by apply HI|by destruct q; rewrite ?Hq]).
  eapply runs_bind; [apply (runs_exists os I Pq I); [done|by intros t []..]|intros [|]; cbn beta].
  - set (Vq := fun t => V t /\ if q then True else at_path t (comps (r_QuarantinePath plan)) = Missing).
    apply (runs_pre _ Vq).
    { intros t [[[[Hm _]|H] Hf] Hg]; [by rewrite Hm in Hg; destruct Hg|by split]. }
    assert (HVq : stable os Vq) by (intros k t [H1 H2]; split; [by apply HV|by destruct q; rewrite ?Hq]).
    eapply runs_bind; [apply runs_wrap; unfold requireAssetHash; apply (keeps_fbind I Vq I)|intros ?].
    + apply keeps_hash_at; [done|by intros t [H _]; apply HVI..].
    + intros h. apply keeps_check. by intros t [H _]; apply HVI.
    + destruct q; [|by apply runs_ret]. apply (runs_pre _ V); [by intros t []|].
      eapply runs_bind; [apply runs_wrap; by eapply keeps_require_source|intros ?].
      apply runs_wrap. by eapply remove_source_runs.
  - set (P := before (RestorePath plan) C).
    apply (runs_pre _ P); [intros t [[[H|(u & Hu & _)] _] Hm]; [exact H|congruence]|].
    assert (HP : stable os P) by (by eapply before_stable).
    assert (HPI : forall t, P t -> I t) by (by left).
    eapply runs_bind; [by apply (keeps_check I P I)|intros ?].
    eapply runs_bind; [apply runs_wrap; unfold requireAssetHash; apply (keeps_fbind I P I);
      [by apply keeps_hash_at|intros ?; by apply keeps_check]|intros ?].
    eapply runs_bind; [apply (keeps_ensure os I P I); try done|intros ?].
    { pose proof Hw as (_ & _ & Ht & _ & _ & _ & Hn)%placed. rewrite comps_Dir by done. by eapply before_room. }
    eapply runs_bind; [by apply (keeps_check I P I)|intros ?].
    by eapply move_runs.
Qed.
End Operations.

(** ** What survives a crash *)

Section Crash.
Context {U : GoUnicode} (sha256 : string -> string) (os : OS).

(** The states a computation goes through, and what it ends with. *)
Definition goes_through {A} (m : F A) (d : Disk) (I : tree -> Prop) (S : A -> tree -> Prop) : Prop :=
  let '(d', r) := m d in
  (exists new, seen d' = (new ++ seen d)%list /\ Forall I new) /\ I (root d') /\
  match r with inl a => S a (root d') | inr _ => True end.

Lemma runs_goes_through {A} (m : F A) d (I : tree -> Prop) (S : A -> tree -> Prop) :
  runs I I m S I -> (forall a t, S a t -> I t) -> I (root d) -> goes_through m d I S.
Proof.
  intros H HS Hd. specialize (H d Hd). unfold goes_through. destruct (m d) as [d' [a|e]]; destruct H as [H1 H2]; eauto.
Qed.

Lemma stable_at path (D : looked -> Prop) : untouched os path -> stable os (fun t => D (at_path t (comps path))).
Proof. intros H n t. by rewrite H. Qed.

(** C8: the quarantine never loses the asset: whatever calls fail and wherever the
    run stops, the destination is empty and the asset as it was, or the
    destination has a copy with the recorded hash; after success the source is
    gone and the copy there. *)
Theorem quarantine_crash_safe plan id d a :
  well_placed (SourcePath plan) (stage_of plan id) (QuarantinePath plan) = true ->
  untouched os (SourcePath plan) -> untouched os (stage_of plan id) -> untouched os (QuarantinePath plan) ->
  let I := safe sha256 os (QuarantinePath plan) (PlanHash plan)
             (fun t => at_path t (comps (SourcePath plan)) = Found a) in
  I (root d) ->
  goes_through (ExecuteAssetQuarantine sha256 os plan id) d I
    (fun _ => moved sha256 os (SourcePath plan) (QuarantinePath plan) (PlanHash plan)).
Proof.
  intros Hw Hs Ht Hd I HI. apply runs_goes_through; [|by intros ? t [H _]; right|done].
  apply execute_runs; try done.
  - by apply (stable_at _ (fun l => l = Found a)).
  - by eapply (framed_elsewhere _ _ _ Hw (fun l => l = Found a)).
  - by eapply (room_elsewhere _ _ _ Hw (fun l => l = Found a)).
Qed.

(** A program that goes on writing its own directory can make the quarantine
    fail, but not put something unverified into it: nothing but copies with the
    recorded hash is ever seen at the destination, and after success the source
    is gone. *)
Theorem quarantine_verifies plan id d :
  well_placed (SourcePath plan) (stage_of plan id) (QuarantinePath plan) = true ->
  untouched os (stage_of plan id) -> untouched os (QuarantinePath plan) ->
  let I := fun t => at_path t (comps (QuarantinePath plan)) = Missing \/
                    holds sha256 os (comps (QuarantinePath plan)) (expected (PlanHash plan)) t in
  I (root d) ->
  goes_through (ExecuteAssetQuarantine sha256 os plan id) d I
    (fun _ => moved sha256 os (SourcePath plan) (QuarantinePath plan) (PlanHash plan)).
Proof.
  intros Hw Ht Hd I HI.
  assert (H : goes_through (ExecuteAssetQuarantine sha256 os plan id) d
    (safe sha256 os (QuarantinePath plan) (PlanHash plan) (fun _ => True))
    (fun _ => moved sha256 os (SourcePath plan) (QuarantinePath plan) (PlanHash plan))).
  { apply runs_goes_through; [by apply execute_runs|by intros ? t [H _]; right|].
    destruct HI as [H|H]; [by left|by right]. }
  unfold goes_through in *. destruct (ExecuteAssetQuarantine _ _ _ _ _) as [d' r].
  destruct H as ((new & Hn & Hf) & HIr & Hr). split_and!; [|by destruct HIr as [[H _]|H]; [left|right]|done].
  exists new. split; [done|]. eapply Forall_impl; [exact Hf|]. intros t [[H _]|H]; [by left|by right].
Qed.

(** A restore never loses the quarantined copy before the restored one is
    verified. *)
Theorem restore_crash_safe plan d a :
  well_placed (r_QuarantinePath plan) (restore_stage plan) (RestorePath plan) = true -> journalled plan ->
  untouched os (r_QuarantinePath plan) -> untouched os (restore_stage plan) -> untouched os (RestorePath plan) ->
  let I := safe sha256 os (RestorePath plan) (r_ContentHash plan)
             (fun t => at_path t (comps (r_QuarantinePath plan)) = Found a) in
  I (root d) ->
  goes_through (ExecuteAssetRestore sha256 os plan) d I
    (fun _ => moved sha256 os (r_QuarantinePath plan) (RestorePath plan) (r_ContentHash plan)).
Proof.
  intros Hw Hj Hs Ht Hd I HI. apply runs_goes_through; [|by intros ? t [H _]; right|done].
  apply restore_runs; try done.
  - by apply (stable_at _ (fun l => l = Found a)).
  - by eapply (framed_elsewhere _ _ _ Hw (fun l => l = Found a)).
  - by eapply (room_elsewhere _ _ _ Hw (fun l => l = Found a)).
Qed.
End Crash.

Lemma quarantine_crash_safe_witness :
  let os := w_os (fun n => Nat.eqb n 20) in
  goes_through (ExecuteAssetQuarantine (U := ascii_only) sum32 os w_plan "id1") (w_disk w_root)
    (safe (U := ascii_only) sum32 os (QuarantinePath w_plan) (PlanHash w_plan)
       (fun t => at_path t (comps (SourcePath w_plan)) = Found w_skill))
    (fun _ => moved (U := ascii_only) sum32 os (SourcePath w_plan) (QuarantinePath w_plan) (PlanHash w_plan)).
Proof.
  apply quarantine_crash_safe; [vm_compute; reflexivity|done..|]. left. split; vm_compute; reflexivity.
Defined.

(** The agent writes into its skill before every call. *)
Definition w_writing : OS := {|
  root_user := false; os_umask := 18; working_dir := "/"; fails := fun _ => false; partial := fun _ _ => None;
  meddle := fun n t => if Nat.eqb n 20 then update ["s"; "evil"; "more"] (Some (TFile 420 "")) t else t |}.

Lemma quarantine_verifies_witness :
  goes_through (ExecuteAssetQuarantine (U := ascii_only) sum32 w_writing w_plan "id1") (w_disk w_root)
    (fun t => at_path t (comps (QuarantinePath w_plan)) = Missing \/
              holds sum32 w_writing (comps (QuarantinePath w_plan)) (expected (U := ascii_only) (PlanHash w_plan)) t)
    (fun _ => moved (U := ascii_only) sum32 w_writing (SourcePath w_plan) (QuarantinePath w_plan) (PlanHash w_plan)).
Proof.
  apply quarantine_verifies; [vm_compute; reflexivity| | |left; vm_compute; reflexivity].
  all: intros n t; unfold w_writing, meddle; destruct (Nat.eqb n 20); [|done]; by apply apart_update.
Defined.

Lemma restore_crash_safe_witness :
  let os := w_os (fun n => Nat.eqb n 20) in
  goes_through (ExecuteAssetRestore (U := ascii_only) sum32 os w_restore) (w_disk w_quarantined)
    (safe (U := ascii_only) sum32 os (RestorePath w_restore) (r_ContentHash w_restore)
       (fun t => at_path t (comps (r_QuarantinePath w_restore)) = Found w_skill))
    (fun _ => moved (U := ascii_only) sum32 os (r_QuarantinePath w_restore) (RestorePath w_restore) (r_ContentHash w_restore)).
Proof.
  apply restore_crash_safe; [vm_compute; reflexivity|split_and!; vm_compute; reflexivity|done..|].
  left. split; vm_compute; reflexivity.
Defined.
