(* ===== verification/QuarantineRecovery.v ===== *)
(** * Finishing an interrupted quarantine

    When no call fails and nobody else writes, the quarantine of an asset that
    can be read, hashed and copied succeeds: from the untouched asset, from any
    state that a stopped or failed run has left with the old copy complete, and
    from a state in which only the published copy is left.  A run that was
    stopped inside the removal of the old copy is the exception: it can not be
    finished. *)
From stdpp Require Import base list strings.
From Stdlib Require Import ZArith Lia Ascii.
From S2P Require Import Prelude GoStrings Netguard Paths PathFacts Snapshot AssetTree Quarantine QuarantineFacts QuarantineProps.

Local Open Scope string_scope.
Local Open Scope disk_scope.

(** No call fails, and no other process writes. *)
Definition calm_os (os : OS) : Prop := (forall n, fails os n = false) /\ (forall n t, meddle os n t = t).

Section Calm.
Context {U : GoUnicode} (sha256 : string -> string) (os : OS) (Hcalm : calm_os os).

Definition succeeds {A} (P : tree -> Prop) (m : F A) (S : A -> tree -> Prop) : Prop :=
  runs (fun _ => True) P m S (fun _ => False).

Implicit Types (P : tree -> Prop).

Lemma calm_stable P : stable os P.
Proof. intros n t. by rewrite (proj2 Hcalm). Qed.

Lemma ok_look {A} (f : tree -> A + string) P (S : A -> tree -> Prop) :
  (forall t, P t -> exists a, f t = inl a /\ S a t) -> succeeds P (look os f) S.
Proof.
  intros H. apply runs_look; [apply calm_stable|intros n t Hf; by rewrite (proj1 Hcalm) in Hf|done|].
  intros t Ht. by destruct (H t Ht) as (a & -> & Ha).
Qed.

Lemma ok_change f P (S : () -> tree -> Prop) :
  (forall t, P t -> exists t', f t = inl t' /\ S () t') -> succeeds P (change os f) S.
Proof.
  intros H. apply runs_change; [apply calm_stable|intros n t Hf; by rewrite (proj1 Hcalm) in Hf|done|].
  intros t Ht. by destruct (H t Ht) as (a & -> & Ha).
Qed.

Lemma ok_change_slowly p start f P (S : () -> tree -> Prop) :
  (forall t, P t -> exists u t', start t = inl (Some u) /\ f t = Some t' /\ S () t') ->
  succeeds P (change_slowly os p start f) S.
Proof.
  intros H. apply runs_change_slowly; [apply calm_stable|done|].
  intros t Ht. destruct (H t Ht) as (u & t' & -> & Hf & HS). split_and!; [done| |].
  - intros n o [Hb|Hb]; [by rewrite (proj1 Hcalm) in Hb|congruence].
  - intros t'' Hf'. split; [congruence|done].
Qed.

Lemma ok_ret {A} (a : A) P S : (forall t, P t -> S a t) -> succeeds P (fret a) S.
Proof. apply runs_ret. Qed.

Lemma ok_check b e P S : b = true -> (forall t, P t -> S () t) -> succeeds P (check b e) S.
Proof. intros -> H. by apply runs_ret. Qed.

Lemma ok_bind {A B} P (m : F A) (k : A -> F B) R S :
  succeeds P m R -> (forall a, succeeds (R a) (k a) S) -> succeeds P (fbind m k) S.
Proof. apply runs_bind. Qed.

Lemma ok_wrap {A} what P (m : F A) S : succeeds P m S -> succeeds P (wrap what m) S.
Proof. apply runs_wrap. Qed.

Lemma ok_on_failure {A} P (m : F A) cleanup S : succeeds P m S -> succeeds P (on_failure m cleanup) S.
Proof.
  intros H. eapply runs_on_failure; [exact H|]. by intros d.
Qed.

Lemma ok_pre {A} P P' (m : F A) S : (forall t, P' t -> P t) -> succeeds P m S -> succeeds P' m S.
Proof. intros HP H. by eapply runs_weaken. Qed.

(** ** Ancestors *)

(** Every directory on the way to [p] is there. *)
Definition dirs (p : list string) (t : tree) : Prop := forall q, q `prefix_of` p -> is_dir (at_path t q) = true.

(** ... or nothing is. *)
Definition walkable (p : list string) (t : tree) : Prop :=
  forall q, q `prefix_of` p -> at_path t q = Missing \/ is_dir (at_path t q) = true.

Lemma prefix_snoc_inv (q p : list string) c : q `prefix_of` (p ++ [c])%list -> q `prefix_of` p \/ q = (p ++ [c])%list.
Proof.
  intros [k Hk]. destruct (decide (k = [])) as [->|Hn]; [right; by rewrite app_nil_r in Hk|left].
  destruct (exists_last Hn) as (k' & d & ->). rewrite app_assoc in Hk. apply app_inj_tail in Hk as [-> _].
  by apply prefix_app_r.
Qed.

Lemma found_dirs t p c u : at_path t (p ++ [c])%list = Found u -> dirs p t.
Proof.
  intros Hf q [k ->]. rewrite <- app_assoc, at_path_app in Hf.
  destruct (at_path t q) as [[| | |]| |]; try done; by destruct k.
Qed.

(** After a look at a directory that is there. *)
Lemma ok_Lstat p P : (forall t, P t -> at_path t p <> Denied) -> succeeds P (Lstat os p) (fun l t => P t /\ l = at_path t p).
Proof. intros H. apply ok_look. eauto. Qed.

Lemma ok_existing_up above P :
  (forall t, P t -> walkable (reverse above) t) -> succeeds P (existing_up os above) (fun _ => P).
Proof.
  induction above as [|c up IH]; intros Hw; cbn [existing_up].
  all: eapply (ok_bind _ _ _ (fun l t => P t /\ (l = Missing \/ is_dir l = true)));
    [apply ok_look; intros t Ht; eexists; split; [done|]; exact (conj Ht (Hw t Ht _ (reflexivity _)))|].
  all: intros l; destruct l as [[| | |]| |]; try (by intros d [_ [?|?]]).
  all: eapply ok_bind; [by apply (ok_check _ _ _ (fun _ => P)); [|intros t []]|intros ?].
  1,2: by apply ok_ret.
  all: apply IH; intros t Ht q Hq; apply (Hw t Ht); rewrite reverse_cons; by apply prefix_app_r.
Qed.

Lemma ok_contained_up above r P :
  Forall (fun c => good_name c = true) (reverse above) -> is_rooted r = true ->
  comps r `prefix_of` reverse above -> (forall t, P t -> dirs (reverse above) t) ->
  succeeds P (contained_up os above r) (fun _ => P).
Proof.
  intros Hg Hr. induction above as [|c up IH]; intros Hp Hw; cbn [contained_up].
  all: eapply (ok_bind _ _ _ (fun l t => P t /\ is_dir l = true));
    [apply ok_look; intros t Ht; eexists; split; [done|]; exact (conj Ht (Hw t Ht _ (reflexivity _)))|].
  all: intros l; destruct l as [[| | |]| |]; try (by intros d [_ ?]).
  all: eapply ok_bind; [by apply (ok_check _ _ _ (fun _ => P)); [|intros t []]|intros ?].
  all: destruct (bool_decide _) eqn:Heq; [by apply ok_ret|apply bool_decide_eq_false in Heq].
  - destruct Hp as [k Hk]. destruct Heq. by destruct (comps r).
  - rewrite reverse_cons in Hp, Hg, Hw, Heq. apply prefix_snoc_inv in Hp as [Hp|Hp]; [|congruence].
    apply Forall_app in Hg as [Hg _]. destruct Hp as [k Hk].
    assert (Hin : pathWithin (render (reverse up)) r true = true).
    { pose proof Hg as Hg'. rewrite Hk in Hg' |- *.
      pose proof (pathWithin_below (comps r) k true Hg' (fun _ => eq_refl)) as Hb.
      unfold pathWithin, Rel in *. rewrite Clean_render in Hb by (by apply Forall_app in Hg' as [? _]).
      rewrite comps_render, render_rooted in Hb by (by apply Forall_app in Hg' as [? _]).
      by rewrite Clean_is_render, Hr. }
    rewrite Hin. apply IH; [done|by exists k|]. intros t Ht q Hq. apply (Hw t Ht). by apply prefix_app_r.
Qed.

(** ** Making directories *)

Lemma prefix_longer (p q : list string) c : (p ++ [c])%list `prefix_of` q -> ~ q `prefix_of` p.
Proof. intros H1%prefix_length H2%prefix_length. rewrite length_app in H1. simpl in H1. lia. Qed.

Lemma not_prefix_update p o t q : p <> [] -> q `prefix_of` removelast p -> is_dir (at_path t q) = true ->
  is_dir (at_path (update p o t) q) = true.
Proof.
  intros Hn Hq. apply is_dir_update. intros H. rewrite (snoc_last p Hn) in H. by apply prefix_longer in H.
Qed.

Lemma ok_mkdir_from rest : forall above perm P,
  makes_room P (above ++ rest) ->
  succeeds (fun t => P t /\ dirs above t /\ walkable (above ++ rest) t) (mkdir_from os above rest perm)
    (fun _ t => P t /\ dirs (above ++ rest) t).
Proof.
  induction rest as [|c rest IH]; intros above perm P Hq; cbn [mkdir_from].
  - rewrite app_nil_r. apply ok_ret. tauto.
  - assert (Happ : (above ++ c :: rest)%list = ((above ++ [c]) ++ rest)%list) by (by rewrite <- app_assoc).
    rewrite Happ in *. specialize (IH (above ++ [c])%list perm P Hq).
    set (W := fun t => P t /\ dirs above t /\ walkable ((above ++ [c]) ++ rest) t) in *.
    set (W' := fun t => P t /\ dirs (above ++ [c]) t /\ walkable ((above ++ [c]) ++ rest) t) in *.
    eapply (ok_bind _ _ _ (fun l t => W t /\ l = at_path t (above ++ [c]))).
    { apply ok_look. intros t Ht. by eexists. }
    intros l. eapply (ok_bind _ _ _ (fun _ => W')); [|intros ?; exact IH].
    assert (Hdir : forall t, W t -> is_dir (at_path t (above ++ [c])) = true -> W' t).
    { intros t (Hp & Hd & Hw) Hc. split_and!; [done| |done]. by intros q [Hq'| ->]%prefix_snoc_inv; [apply Hd|]. }
    destruct l as [u| |]; cbn [is_dir].
    + destruct u as [| | |]; try (intros d [(_ & _ & Hw) He]; destruct (Hw (above ++ [c])%list) as [Hm|Hm];
        [by apply prefix_app_r|rewrite <- He in Hm; done..]).
      apply ok_check; [done|]. intros t [Ht He]. apply Hdir; [done|]. by rewrite <- He.
    + apply ok_change. intros t [[Hp [Hd Hw]] He]. rewrite <- He, removelast_last.
      rewrite (Hd above) by done. eexists. split; [done|].
      set (t' := update _ _ t).
      assert (Hab : forall q, q `prefix_of` above -> is_dir (at_path t' q) = true).
      { intros q Hqa. apply not_prefix_update; [by destruct above|by rewrite removelast_last|by apply Hd]. }
      assert (Hnew : forall k, at_path t' ((above ++ [c]) ++ k) = at_path (TDir (Z.ldiff perm (os_umask os)) []) k).
      { intros k. unfold t'. rewrite <- app_assoc. simpl. by rewrite at_path_update_below by (by apply Hd). }
      split_and!.
      * apply Hq; [by apply prefix_app_r|done|done|]. rewrite removelast_last. by apply Hd.
      * intros q [Hqa| ->]%prefix_snoc_inv; [by apply Hab|]. specialize (Hnew []). rewrite app_nil_r in Hnew. by rewrite Hnew.
      * intros q Hqa. destruct (decide ((above ++ [c])%list `prefix_of` q)) as [[k ->]|Hn].
        -- rewrite Hnew. destruct k; [by right|by left].
        -- right. apply Hab. destruct (prefix_weak_total q (above ++ [c]) ((above ++ [c]) ++ rest)) as [Hp'|Hp'];
             [done|by apply prefix_app_r| |done]. by apply prefix_snoc_inv in Hp' as [|He']; [|by rewrite He' in Hn].
    + by intros d [(_ & _ & Hw) He]; destruct (Hw (above ++ [c])%list) as [Hm|Hm];
        [by apply prefix_app_r|rewrite <- He in Hm; done..].
Qed.

(** ** The parts of an operation *)

Lemma prefix_of_removelast (r p : list string) q : p = (r ++ q)%list -> q <> [] -> r `prefix_of` removelast p.
Proof.
  intros -> Hn. destruct (exists_last Hn) as (k & c & ->). rewrite app_assoc, removelast_last. by apply prefix_app_r.
Qed.

Lemma tidy_good path : tidy path = true -> comps path <> [] ->
  Forall (fun c => good_name c = true) (removelast (comps path)).
Proof.
  intros [_ Hg]%tidy_render Hn. rewrite (snoc_last _ Hn) in Hg. by apply Forall_app in Hg as [Hg _].
Qed.

(** Removing what is there. *)
Lemma ok_removeAssetPath path r P P0 :
  tidy path = true -> comps path <> [] -> pathWithin path r false = true -> is_rooted r = true ->
  framed P (comps path) -> (forall t, P0 t -> P t) ->
  (forall t, P0 t -> exists u, at_path t (comps path) = Found u) ->
  succeeds P0 (removeAssetPath os path r) (fun _ => removed P (comps path)).
Proof.
  intros Ht Hn Hw Hr Hf HP Hfound. unfold removeAssetPath, validateContainedAncestors.
  eapply ok_bind; [by apply (ok_check _ _ _ (fun _ => P0))|intros ?].
  destruct (pathWithin_inv _ _ Ht Hr Hw) as (q & Hq & Hqn).
  eapply ok_bind; [apply ok_wrap, (ok_contained_up _ _ P0); rewrite ?reverse_involutive, ?comps_Dir by done|intros ?].
  - by apply tidy_good.
  - done.
  - by eapply prefix_of_removelast.
  - intros t Hp. destruct (Hfound t Hp) as [u Hu]. rewrite (snoc_last _ Hn) in Hu. by eapply found_dirs.
  - eapply ok_bind; [apply (ok_Lstat _ P0); intros t Hp; by destruct (Hfound t Hp) as [u ->]|intros l].
    assert (Hrm : forall t, (P0 t /\ l = at_path t (comps path)) -> exists u, l = Found u /\
              at_path t (comps path) = Found u /\ removed P (comps path) (update (comps path) None t)).
    { intros t [Hp ->]. destruct (Hfound t Hp) as [u Hu]. exists u. split; [done|split; [done|split; [by apply Hf, HP|by eapply update_removes]]]. }
    destruct l as [u| |]; [|intros d Hd; by destruct (Hrm _ Hd) as (? & ? & _)..].
    destruct u; [| | |]; first [apply ok_change|apply ok_change_slowly]; intros t Hd;
      destruct (Hrm _ Hd) as (v & _ & Hv & Hm); rewrite Hv; eauto 6.
Qed.

Lemma ok_exists path P (b : bool) :
  (forall t, P t -> if b then exists u, at_path t (comps path) = Found u else at_path t (comps path) = Missing) ->
  succeeds P (assetPathExists os path) (fun b' t => P t /\ b' = b).
Proof.
  intros H. apply ok_look. intros t Ht. specialize (H t Ht).
  destruct b; [destruct H as [u ->]|rewrite H]; eauto.
Qed.

Lemma ok_require path h P :
  tidy path = true -> (forall t, P t -> holds sha256 os (comps path) (expected h) t) ->
  succeeds P (requireAssetHash sha256 os path h) (fun _ => P).
Proof.
  intros Ht H. destruct (tidy_Abs path (working_dir os) Ht) as [Ha Hn]. unfold requireAssetHash.
  eapply (ok_bind _ _ _ (fun a t => P t /\ a = expected h)).
  - unfold hash_at. rewrite Hn. apply ok_look. intros t Hp. destruct (H t Hp) as (u & Hu & Hh).
    rewrite Ha, Hu, Hh. eauto.
  - intros a. apply (ok_pre (fun t => a = expected h /\ P t)); [tauto|]. apply runs_pure. intros ->.
    apply ok_check; [by apply String.eqb_refl|done].
Qed.

Lemma ok_ensure path r P :
  tidy path = true -> comps path <> [] -> pathWithin path r false = true -> tidy r = true ->
  makes_room P (removelast (comps path)) ->
  succeeds (fun t => P t /\ walkable (removelast (comps path)) t) (ensureContainedDirectory os (path_Dir path) r)
    (fun _ t => P t /\ dirs (removelast (comps path)) t).
Proof.
  intros Ht Hn Hw Hr Hm. unfold ensureContainedDirectory, validateContainedAncestors, validateExistingAncestors, MkdirAll.
  assert (Hrr : is_rooted r = true) by (unfold tidy in Hr; rewrite !andb_true_iff in Hr; tauto).
  destruct (pathWithin_inv _ _ Ht Hrr Hw) as (q & Hq & Hqn).
  pose proof (prefix_of_removelast _ _ _ Hq Hqn) as Hpre. pose proof (tidy_good _ Ht Hn) as Hg.
  rewrite comps_Dir by done. destruct Hpre as [k Hk].
  eapply ok_bind; [apply (ok_check _ _ _ (fun _ t => P t /\ walkable (removelast (comps path)) t)); [|done]|intros ?].
  { destruct (tidy_render _ Ht) as [Hp Hgp]. rewrite (snoc_last _ Hn) in Hp, Hgp. apply Forall_app in Hgp as [_ Hc%Forall_cons_1].
    rewrite Hp, path_Dir_render by tauto. destruct (tidy_render _ Hr) as [Hr' _]. rewrite Hr', Hk.
    apply pathWithin_below; [by rewrite <- Hk|done]. }
  eapply ok_bind; [apply ok_existing_up; intros t [_ Hwk]; rewrite reverse_involutive|intros ?].
  { intros x Hx. apply Hwk. rewrite Hk. by apply prefix_app_r. }
  eapply ok_bind.
  - apply ok_wrap, (ok_pre (fun t => P t /\ dirs [] t /\ walkable ([] ++ removelast (comps path)) t)).
    + intros t [H1 H2]. split; [done|split; [|done]]. intros x Hx%prefix_nil_inv. rewrite Hx.
      destruct (H2 [] (prefix_nil _)) as [H|H]; [by destruct t|done].
    + by apply ok_mkdir_from.
  - intros ?. apply ok_contained_up; rewrite ?reverse_involutive; [done|done|by exists k|by intros t []].
Qed.

(** ** A whole move *)

Section Move.
Context (src stage dst hash : string) (a : tree).
Context (Hwell : well_placed src stage dst = true).
Context (Hhash : AssetContentHash sha256 (root_user os) a = Some (expected hash)).
Context (Hcopy : copyAssetPath (root_user os) (os_umask os) a = Some a).

Definition there (path : string) (t : tree) : Prop := at_path t (comps path) = Found a.
Definition gone (path : string) (t : tree) : Prop := at_path t (comps path) = Missing.

(** The asset is at its old place, the new one is empty and can be written to. *)
Definition ready (t : tree) : Prop := gone dst t /\ there src t /\ dirs (removelast (comps dst)) t.

Lemma stage_not_root : comps stage <> [].
Proof.
  pose proof Hwell as (_ & _ & _ & H1 & _)%placed. intros H. unfold apart in H1. rewrite H, andb_comm in H1.
  rewrite bool_decide_eq_true_2 in H1; [done|apply prefix_nil].
Qed.

Lemma ready_framed : framed ready (comps stage).
Proof.
  pose proof Hwell as (_ & _ & _ & H1 & _ & H3 & _)%placed. intros o t (Hg & Ht & Hd).
  unfold ready, gone, there. rewrite !apart_update by (done || by rewrite apart_sym). split_and!; [done..|].
  intros q Hq. apply not_prefix_update; [apply stage_not_root| |by apply Hd].
  by rewrite (same_directory _ _ _ Hwell).
Qed.

Lemma stage_not_denied t : ready t -> is_dir (at_path t (removelast (comps stage))) = true /\ at_path t (comps stage) <> Denied.
Proof.
  intros (_ & _ & Hd). specialize (Hd _ (reflexivity _)). rewrite <- (same_directory _ _ _ Hwell) in Hd.
  split; [done|]. rewrite (snoc_last _ stage_not_root), at_path_app.
  destruct (at_path t (removelast (comps stage))) as [[| perm es| |]| |]; try done. simpl. by destruct (assoc _ es).
Qed.

Lemma ok_clear_stage r what :
  pathWithin stage r false = true -> is_rooted r = true ->
  succeeds ready (clear_stage os stage r what) (fun _ => removed ready (comps stage)).
Proof.
  intros Hw Hr. pose proof Hwell as (_ & Ht & _)%placed. unfold clear_stage.
  eapply (ok_bind _ _ _ (fun (b : bool) t => ready t /\ if b then exists u, at_path t (comps stage) = Found u else gone stage t)).
  - apply ok_look. intros t Hd. pose proof (proj2 (stage_not_denied t Hd)) as Hn. unfold gone.
    destruct (at_path t (comps stage)) as [u| |]; [exists true; eauto|by exists false|done].
  - intros [|]; [|by apply ok_ret]. apply ok_wrap.
    apply ok_removeAssetPath; try done; [apply stage_not_root|apply ready_framed|by intros t []..].
Qed.

Lemma found_hash path t : there path t -> holds sha256 os (comps path) (expected hash) t.
Proof. intros H. by exists a. Qed.

Lemma ok_copy : succeeds (removed ready (comps stage)) (copy_to os (comps src) (comps stage)) (fun _ t => ready t /\ there stage t).
Proof.
  apply ok_change_slowly. intros t [Hr Hg]. pose proof (proj1 (stage_not_denied t Hr)) as Hd.
  pose proof Hr as (_ & Ht & _). unfold there in Ht. rewrite Ht, Hg, Hd. cbn [mbind option_bind].
  do 2 eexists. split; [done|]. rewrite Hcopy. split; [done|]. split; [by apply ready_framed|].
  unfold there. rewrite (snoc_last _ stage_not_root) at 1 2.
  by rewrite (at_path_update_below _ _ _ _ []).
Qed.

Lemma ok_rename : succeeds (fun t => ready t /\ there stage t) (Rename os (comps stage) (comps dst))
  (fun _ t => there src t /\ there dst t).
Proof.
  pose proof Hwell as (_ & _ & _ & H1 & H2 & H3 & Hne)%placed.
  apply ok_change. intros t [(Hg & Hs & Hd) Ht]. unfold there, gone in *. rewrite Ht, Hg, (Hd _ (reflexivity _)).
  eexists. split; [done|]. split; [by rewrite !apart_update by (done || by rewrite apart_sym)|].
  rewrite (snoc_last _ Hne) at 1 2. rewrite (at_path_update_below _ _ _ _ []); [done|].
  apply is_dir_update; [by apply apart_removelast|by apply Hd].
Qed.

(** From the empty stage to the end. *)
Lemma ok_move r r' what (w1 w2 w3 : string) :
  pathWithin stage r false = true -> is_rooted r = true -> pathWithin src r' false = true -> is_rooted r' = true ->
  succeeds ready
    (clear_stage os stage r what ;;
     publish sha256 os src stage dst r hash what ;;
     wrap w1 (requireAssetHash sha256 os dst hash) ;;
     wrap w2 (requireAssetHash sha256 os src hash) ;;
     wrap w3 (removeAssetPath os src r'))
    (fun _ t => there dst t /\ gone src t).
Proof.
  intros Hr1 Hr2 Hr3 Hr4. pose proof Hwell as (Hts & Htt & Htd & _ & H2 & _)%placed.
  eapply ok_bind; [by apply ok_clear_stage|intros ?].
  eapply (ok_bind _ _ _ (fun _ t => there src t /\ there dst t)); [|intros ?].
  { apply ok_on_failure. eapply ok_bind; [apply ok_wrap, ok_copy|intros ?].
    eapply ok_bind; [apply ok_wrap, (ok_require _ _ (fun t => ready t /\ there stage t)); [done|]|intros ?; apply ok_wrap, ok_rename].
    intros t [_ Ht]. by apply found_hash. }
  eapply ok_bind; [apply ok_wrap, (ok_require _ _ (fun t => there src t /\ there dst t)); [done|]; intros t []; by apply found_hash|intros ?].
  eapply ok_bind; [apply ok_wrap, (ok_require _ _ (fun t => there src t /\ there dst t)); [done|]; intros t []; by apply found_hash|intros ?].
  apply ok_wrap, (ok_removeAssetPath _ _ (there dst)); try done.
  - by eapply src_not_root.
  - intros o t Ht. unfold there. by rewrite apart_update.
  - by intros t [].
  - intros t [Ht _]. eauto.
Qed.
End Move.

(** ** Running an operation to its end *)

Definition valid_plan (plan : AssetQuarantinePlan) : Prop := forall d, validateQuarantinePlan plan d = (d, inl ()).

Lemma valid_plan_facts plan : valid_plan plan ->
  is_rooted (SourceRoot plan) = true /\ is_rooted (QuarantineRoot plan) = true /\
  pathWithin (SourcePath plan) (SourceRoot plan) false = true /\
  pathWithin (QuarantinePath plan) (QuarantineRoot plan) false = true.
Proof.
  intros H. specialize (H {| root := TLink; clock := 0; seen := [] |}).
  unfold validateQuarantinePlan, fbind, or_fail, check in H.
  destruct (quarantineTypeDir _); [|done]. destruct (safePathSegment _ && _); [|done].
  destruct (is_rooted (SourcePath plan) && is_rooted (SourceRoot plan) && is_rooted (QuarantinePath plan) &&
            is_rooted (QuarantineRoot plan)) eqn:H1; [|done].
  destruct (pathWithin (SourcePath plan) (SourceRoot plan) false &&
            pathWithin (QuarantinePath plan) (QuarantineRoot plan) false) eqn:H2; [|done].
  clear H. rewrite !andb_true_iff in H1. rewrite andb_true_iff in H2. tauto.
Qed.

Lemma stage_within plan id :
  well_placed (SourcePath plan) (stage_of plan id) (QuarantinePath plan) = true -> tidy (QuarantineRoot plan) = true ->
  pathWithin (QuarantinePath plan) (QuarantineRoot plan) false = true ->
  pathWithin (stage_of plan id) (QuarantineRoot plan) false = true.
Proof.
  intros Hw Hr Hp. pose proof Hw as (_ & Hts & Htd & _ & _ & _ & Hne)%placed.
  assert (Hrr : is_rooted (QuarantineRoot plan) = true) by (unfold tidy in Hr; rewrite !andb_true_iff in Hr; tauto).
  destruct (pathWithin_inv _ _ Htd Hrr Hp) as (q & Hq & Hqn).
  destruct (prefix_of_removelast _ _ _ Hq Hqn) as [k Hk]. rewrite <- (same_directory _ _ _ Hw) in Hk.
  pose proof (stage_not_root _ _ _ Hw) as Hsn.
  assert (E : comps (stage_of plan id) = (comps (QuarantineRoot plan) ++ (k ++ [List.last (comps (stage_of plan id)) ""]))%list)
    by (rewrite app_assoc, <- Hk; by apply snoc_last).
  destruct (tidy_render _ Hts) as [Hst Hg]. destruct (tidy_render _ Hr) as [Hrt _]. rewrite Hst, Hrt. rewrite E in Hg |- *.
  apply pathWithin_below; [done|]. by destruct k.
Qed.

Section Quarantine.
Context (plan : AssetQuarantinePlan) (id : string).
Context (Hw : well_placed (SourcePath plan) (stage_of plan id) (QuarantinePath plan) = true).
Context (Htr : tidy (QuarantineRoot plan) = true) (Hv : valid_plan plan) (Hid : safePathSegment id = true).

Abbreviation src := (comps (SourcePath plan)).
Abbreviation dst := (comps (QuarantinePath plan)).
Abbreviation h := (expected (PlanHash plan)).

(** An asset that can be hashed and copied. *)
Definition movable (a : tree) : Prop :=
  AssetContentHash sha256 (root_user os) a = Some h /\ copyAssetPath (root_user os) (os_umask os) a = Some a.

(** The states from which the quarantine can be finished. *)
Definition untouched_asset (t : tree) : Prop :=
  gone (QuarantinePath plan) t /\ (exists a, there a (SourcePath plan) t /\ movable a) /\ walkable (removelast dst) t.
Definition published (t : tree) : Prop := holds sha256 os dst h t /\ (holds sha256 os src h t \/ gone (SourcePath plan) t).
Definition resumable (t : tree) : Prop := untouched_asset t \/ published t.

Lemma holds_after p q o t : apart q p = true -> holds sha256 os p h t -> holds sha256 os p h (update q o t).
Proof. intros Ha. apply holds_at. by rewrite apart_update. Qed.

Lemma ok_finish : succeeds published (finish_quarantine sha256 os plan)
  (fun _ => moved sha256 os (SourcePath plan) (QuarantinePath plan) (PlanHash plan)).
Proof.
  destruct (valid_plan_facts _ Hv) as (Hr1 & Hr2 & Hp1 & Hp2). pose proof Hw as (Hts & _ & Htd & _ & Ha & _ & Hne)%placed.
  unfold finish_quarantine.
  eapply ok_bind; [apply ok_wrap, (ok_require _ _ published); [done|by intros t []]|intros ?].
  set (V := holds sha256 os dst h). set (S := holds sha256 os src h).
  eapply (ok_bind _ _ _ (fun (b : bool) t => V t /\ if b then S t else gone (SourcePath plan) t)).
  { apply ok_look. intros t [Hd [Hs|Hs]]; [exists true|exists false]; (split; [|by split]).
    - by destruct Hs as (u & -> & _).
    - by rewrite Hs. }
  intros [|]; cbn [negb]; [|by apply ok_ret].
  eapply ok_bind; [apply ok_wrap, (ok_require _ _ (fun t => V t /\ S t)); [done|by intros t []]|intros ?].
  apply ok_removeAssetPath with (P := V); try done.
  - by eapply src_not_root.
  - intros o t. by apply holds_after.
  - by intros t [].
  - intros t [_ (u & Hu & _)]. eauto.
Qed.

Lemma ok_afresh : succeeds untouched_asset (quarantine_afresh sha256 os plan (stage_of plan id))
  (fun _ => moved sha256 os (SourcePath plan) (QuarantinePath plan) (PlanHash plan)).
Proof.
  destruct (valid_plan_facts _ Hv) as (Hr1 & Hr2 & Hp1 & Hp2). pose proof Hw as (Hts & _ & Htd & _ & _ & _ & Hne)%placed.
  intros d (Hg & (a & Ht & Hh & Hc) & Hwk).
  set (R := fun t => gone (QuarantinePath plan) t /\ there a (SourcePath plan) t).
  assert (H : succeeds (fun t => R t /\ walkable (removelast dst) t) (quarantine_afresh sha256 os plan (stage_of plan id))
    (fun _ => moved sha256 os (SourcePath plan) (QuarantinePath plan) (PlanHash plan))); [|by apply H].
  clear d Hg Ht Hwk. unfold quarantine_afresh.
  eapply ok_bind; [apply ok_wrap, (ok_require _ _ (fun t => R t /\ walkable (removelast dst) t)); [done|]; intros t [[_ Ht] _]; by exists a|intros ?].
  eapply ok_bind; [apply (ok_ensure _ _ R); try done|intros ?].
  { eapply (before_room _ _ _ Hw). eapply (room_elsewhere _ _ _ Hw (fun l => l = Found a)). done. }
  eapply ok_bind; [apply (ok_check _ _ _ (fun _ t => R t /\ dirs (removelast dst) t)); [by apply stage_within|done]|intros ?].
  apply (ok_pre (ready (SourcePath plan) (QuarantinePath plan) a)); [by intros t [[H1 H2] H3]|].
  eapply runs_weaken; [eapply ok_move; try done; by apply stage_within|done| |done].
  intros ? t [Hd Hs]. split; [by exists a|done].
Qed.

Lemma ok_execute : succeeds resumable (ExecuteAssetQuarantine sha256 os plan id)
  (fun _ => moved sha256 os (SourcePath plan) (QuarantinePath plan) (PlanHash plan)).
Proof.
  unfold ExecuteAssetQuarantine.
  eapply (ok_bind _ _ _ (fun _ => resumable)); [intros d Hd; rewrite Hv; split; [exact Hd|by exists []]|intros ?].
  eapply ok_bind; [by apply (ok_check _ _ _ (fun _ => resumable))|intros ?].
  eapply (ok_bind _ _ _ (fun (b : bool) t => if b then published t else untouched_asset t)).
  - apply ok_look. intros t [Hd|Hd].
    + exists false. split; [by rewrite (proj1 Hd)|exact Hd].
    + exists true. split; [by destruct Hd as [(u & -> & _) _]|exact Hd].
  - intros [|]; [apply ok_finish|apply ok_afresh].
Qed.
End Quarantine.
End Calm.

(** ** What a stopped run leaves *)

Lemma missing_above p o t q :
  q `prefix_of` removelast p -> at_path t q = Missing -> at_path (update p o t) q = Missing.
Proof.
  revert t q. induction p as [|c p IH]; intros t q Hq Hm; [done|].
  destruct q as [|d q]; [by destruct t|]. destruct p as [|c' p]; [by apply prefix_nil_inv in Hq|].
  pose proof Hq as Hq'. apply prefix_cons_inv_1 in Hq as <-. apply prefix_cons_inv_2 in Hq'.
  destruct t as [|perm es| |]; try done. rewrite update_cons. cbn [at_path] in Hm.
  destruct (assoc d es) as [u|] eqn:Ha; cbn [at_path]; [|by rewrite Ha].
  rewrite assoc_put_eq. by apply IH.
Qed.

Section Resume.
Context {U : GoUnicode} (sha256 : string -> string) (os : OS).
Context (plan : AssetQuarantinePlan) (id : string).
Context (Hw : well_placed (SourcePath plan) (stage_of plan id) (QuarantinePath plan) = true).
Abbreviation src := (comps (SourcePath plan)).
Abbreviation dst := (comps (QuarantinePath plan)).

Lemma walkable_framed : framed (walkable (removelast dst)) (comps (stage_of plan id)).
Proof.
  intros o t Hwk q Hq. rewrite <- (same_directory _ _ _ Hw) in Hq. pose proof (stage_not_root _ _ _ Hw) as Hn.
  destruct (Hwk q) as [Hm|Hd]; [by rewrite <- (same_directory _ _ _ Hw)|left; by apply missing_above|right; by apply not_prefix_update].
Qed.

Lemma walkable_room : makes_room (walkable (removelast dst)) (removelast dst).
Proof.
  intros p perm t Hp Hwk Hat Hd q Hq. destruct (makes_room_below _ _ _ Hw p perm t Hp Hat Hd) as (x & k & _ & Hb).
  destruct (decide (p `prefix_of` q)) as [[k' ->]|Hn]; [rewrite Hb; destruct k'; [by right|by left]|].
  right. destruct (prefix_weak_total q p _ Hq Hp) as [Hqp|]; [|done].
  assert (Hp0 : p <> []) by (intros ->; by destruct t).
  rewrite (snoc_last p Hp0) in Hqp. apply prefix_snoc_inv in Hqp as [Hqp|Hqp]; [|by rewrite <- (snoc_last p Hp0) in Hqp; subst].
  apply not_prefix_update; [done..|]. destruct (exists_last Hp0) as (r & c & ->). rewrite removelast_last in *.
  destruct Hqp as [m ->]. revert Hd. rewrite at_path_app. by destruct (at_path t q) as [[| | |]| |]; destruct m.
Qed.

(** C11: any run that was stopped or failed can be finished by running the quarantine
    again, unless it was stopped while the source was being removed: then the
    destination has the verified copy and the source something else. *)
Theorem stopped_quarantine_resumes os' d a t :
  calm_os os' -> root_user os' = root_user os -> os_umask os' = os_umask os ->
  tidy (QuarantineRoot plan) = true -> valid_plan plan -> safePathSegment id = true ->
  untouched os (SourcePath plan) -> untouched os (stage_of plan id) -> untouched os (QuarantinePath plan) ->
  stable os (walkable (removelast dst)) ->
  movable sha256 os plan a ->
  gone (QuarantinePath plan) (root d) -> there a (SourcePath plan) (root d) -> walkable (removelast dst) (root d) ->
  t ∈ seen (ExecuteAssetQuarantine sha256 os plan id d).1 -> t ∉ seen d ->
  (forall d', root d' = t ->
     exists d'', ExecuteAssetQuarantine sha256 os' plan id d' = (d'', inl ()) /\
                 moved sha256 os (SourcePath plan) (QuarantinePath plan) (PlanHash plan) (root d'')) \/
  (holds sha256 os dst (expected (PlanHash plan)) t /\
   ~ holds sha256 os src (expected (PlanHash plan)) t /\ ~ gone (SourcePath plan) t).
Proof.
  intros Hc Hu Hm Htr Hv Hid Hs Hst Hd Hwm Ha Hg Ht Hwk Hin Hnew.
  set (C := fun t => there a (SourcePath plan) t /\ walkable (removelast dst) t).
  assert (Hruns : runs (safe sha256 os (QuarantinePath plan) (PlanHash plan) C) (safe sha256 os (QuarantinePath plan) (PlanHash plan) C)
    (ExecuteAssetQuarantine sha256 os plan id) (fun _ => moved sha256 os (SourcePath plan) (QuarantinePath plan) (PlanHash plan))
    (safe sha256 os (QuarantinePath plan) (PlanHash plan) C)).
  { apply execute_runs; [done..| | |].
    - intros n r [H1 H2]. split; [unfold there; by rewrite Hs|by apply Hwm].
    - intros o r [H1 H2]. split; [by apply (framed_elsewhere _ _ _ Hw (fun l => l = Found a))|by apply walkable_framed].
    - intros p perm r Hp [H1 H2] Hat Hdir. split; [|by apply walkable_room].
      by apply (room_elsewhere _ _ _ Hw (fun l => l = Found a)). }
  specialize (Hruns d (or_introl (conj Hg (conj Ht Hwk)))).
  destruct (ExecuteAssetQuarantine sha256 os plan id d) as [d' r]. destruct Hruns as (_ & new & Hsn & Hf).
  simpl in Hin. rewrite Hsn in Hin. apply elem_of_app in Hin as [Hin|Hin]; [|done].
  rewrite Forall_forall in Hf. specialize (Hf t Hin).
  assert (Hok : resumable sha256 os' plan t -> forall d', root d' = t ->
     exists d'', ExecuteAssetQuarantine sha256 os' plan id d' = (d'', inl ()) /\
                 moved sha256 os (SourcePath plan) (QuarantinePath plan) (PlanHash plan) (root d'')).
  { intros Hr d1 <-. pose proof (ok_execute sha256 os' Hc plan id Hw Htr Hv Hid d1 Hr) as H.
    destruct (ExecuteAssetQuarantine sha256 os' plan id d1) as [d2 [[]|e]]; destruct H as [H _]; [|done].
    exists d2. split; [done|]. unfold moved, verified, holds in *. by rewrite <- Hu. }
  unfold resumable, untouched_asset, published, movable, holds in Hok. rewrite Hu, Hm in Hok.
  destruct Hf as [[Hm1 [Ha1 Hwk1]]|Hv1]; [left; apply Hok; left; split_and!; [done|by exists a|done]|].
  destruct (at_path t src) as [u| |] eqn:Hat.
  - destruct (decide (AssetContentHash sha256 (root_user os) u = Some (expected (PlanHash plan)))) as [He|He].
    + left. apply Hok. right. split; [done|left; by exists u].
    + right. split; [done|]. split; [intros (v & Hv' & He'); congruence|unfold gone; congruence].
  - left. apply Hok. right. by split; [|right].
  - right. split; [done|]. split; [intros (v & Hv' & He'); congruence|unfold gone; congruence].
Qed.

(** ** What can not be moved *)

Context (Halone : forall n t, meddle os n t = t).

Lemma refuses_hash (I P E : tree -> Prop) path h :
  stable os P -> (forall t, P t -> E t) -> (forall t, P t -> I t) -> tidy path = true ->
  (forall t, P t -> ~ holds sha256 os (comps path) (expected h) t) ->
  runs I P (requireAssetHash sha256 os path h) (fun _ _ => False) E.
Proof.
  intros HP HE HI Ht Hn. eapply runs_weaken; [by apply (runs_require sha256 os I P E)|done| |done].
  intros ? t [Hp Hh]. by apply (Hn t).
Qed.

Lemma alone_stable (P : tree -> Prop) : stable os P.
Proof. intros n t. by rewrite Halone. Qed.

(** A run that only ever fails. *)
Definition refused_by {A} (m : F A) (P : tree -> Prop) : Prop :=
  forall d, P (root d) -> exists d' e, m d = (d', inr e) /\ P (root d').

Lemma runs_refused {A} (m : F A) (P : tree -> Prop) : runs (fun _ => True) P m (fun _ _ => False) P -> refused_by m P.
Proof.
  intros H d Hd. specialize (H d Hd). destruct (m d) as [d' [a|e]]; destruct H as [H _]; [done|]. by exists d', e.
Qed.

(** A quarantine that was stopped while the source was being removed stays
    unfinished for ever: the rest of the source does not have the recorded
    hash, and every further run refuses to touch it. *)
Theorem interrupted_removal_is_stuck d :
  holds sha256 os dst (expected (PlanHash plan)) (root d) ->
  ~ holds sha256 os src (expected (PlanHash plan)) (root d) -> ~ gone (SourcePath plan) (root d) ->
  exists d' e, ExecuteAssetQuarantine sha256 os plan id d = (d', inr e) /\ root d' = root d.
Proof.
  intros Hd Hs Hg. pose proof Hw as (Hts & _ & Htd & _)%placed. set (P := fun t => t = root d).
  apply (runs_refused _ P); [|done]. set (T := fun _ : tree => True). pose proof (alone_stable P) as HP.
  unfold ExecuteAssetQuarantine, finish_quarantine.
  eapply runs_bind; [by apply (keeps_validateQuarantinePlan T P P)|intros ?].
  eapply runs_bind; [by apply (keeps_check T P P)|intros ?].
  eapply runs_bind; [by apply (runs_exists os T P P)|intros [|]; cbn beta].
  2: { intros d1 [H1 H2]. destruct Hd as (u & Hu & _). unfold P in H1. congruence. }
  apply (runs_pre _ P); [by intros t []|].
  eapply runs_bind; [apply runs_wrap; unfold requireAssetHash; apply (keeps_fbind T P P);
    [by apply keeps_hash_at|intros ?; by apply keeps_check]|intros ?].
  eapply runs_bind; [by apply (runs_exists os T P P)|intros [|]; cbn beta].
  2: { intros d1 [H1 H2]. unfold P, gone in *. congruence. }
  apply (runs_pre _ P); [by intros t []|]. cbn [negb].
  eapply runs_bind; [apply runs_wrap, (refuses_hash T P P); try done; by intros t ->|by intros ? d1].
Qed.

(** An asset that can not be copied, a directory its owner may not write to for
    one, is not quarantined: the run fails and the asset stays where it was. *)
Theorem uncopyable_asset_stays d a :
  copyAssetPath (root_user os) (os_umask os) a = None ->
  gone (QuarantinePath plan) (root d) -> there a (SourcePath plan) (root d) ->
  exists d' e, ExecuteAssetQuarantine sha256 os plan id d = (d', inr e) /\
               gone (QuarantinePath plan) (root d') /\ there a (SourcePath plan) (root d').
Proof.
  intros Hc Hg Ht. pose proof Hw as (Hts & _ & Htd & _ & _ & _ & Hn)%placed.
  set (C := fun t => at_path t src = Found a). set (P := before (QuarantinePath plan) C).
  apply (runs_refused _ P); [|done]. set (T := fun _ : tree => True). pose proof (alone_stable P) as HP.
  assert (HC : framed C (comps (stage_of plan id))) by (by eapply (framed_elsewhere _ _ _ Hw (fun l => l = Found a))).
  assert (HF : framed P (comps (stage_of plan id))) by (eapply before_framed; eauto).
  unfold ExecuteAssetQuarantine, quarantine_afresh.
  eapply runs_bind; [by apply (keeps_validateQuarantinePlan T P P)|intros ?].
  eapply runs_bind; [by apply (keeps_check T P P)|intros ?].
  eapply runs_bind; [by apply (runs_exists os T P P)|intros [|]; cbn beta].
  { intros d1 [[H1 _] H2]. rewrite H1 in H2. by destruct H2. }
  apply (runs_pre _ P); [by intros t []|].
  eapply runs_bind; [apply runs_wrap; unfold requireAssetHash; apply (keeps_fbind T P P);
    [by apply keeps_hash_at|intros ?; by apply keeps_check]|intros ?].
  eapply runs_bind; [apply (keeps_ensure os T P P); try done|intros ?].
  { rewrite comps_Dir by done. eapply before_room; [exact Hw|]. by eapply (room_elsewhere _ _ _ Hw (fun l => l = Found a)). }
  eapply runs_bind; [by apply (keeps_check T P P)|intros ?].
  eapply runs_bind; [by apply (keeps_clear_stage os T P P)|intros ?].
  eapply runs_bind with (R := fun _ _ => False); [|by intros ? d1]. eapply runs_on_failure; [|by apply (keeps_removeIfExists os T P P)].
  eapply runs_bind with (R := fun _ _ => False); [apply runs_wrap|by intros ? d1].
  apply runs_change_slowly; [done|done|]. intros t Hp. pose proof Hp as [_ Hsrc]. unfold C in Hsrc. rewrite Hsrc.
  destruct (at_path t (comps (stage_of plan id))); [done| |done]. destruct (is_dir _); [|done].
  split_and!; [done|intros n o _; by apply HF|]. cbn [mbind option_bind]. by rewrite Hc.
Qed.

(** An asset without a hash, for a link or an unreadable file in it, gets no
    plan: nothing changes. *)
Theorem unhashable_asset_stays quarantineRoot roots targetType name connector path d u :
  tidy path = true -> there u path (root d) -> AssetContentHash sha256 (root_user os) u = None ->
  exists d' e, NewAssetQuarantinePlan sha256 os quarantineRoot roots targetType name connector path d = (d', inr e) /\
               root d' = root d.
Proof.
  intros Ht Hu Hh. set (P := fun t => t = root d). apply (runs_refused _ P); [|done].
  set (T := fun _ : tree => True). pose proof (alone_stable P) as HP. unfold NewAssetQuarantinePlan.
  do 3 (eapply runs_bind; [by first [apply (keeps_or_fail T P P)|apply (keeps_check T P P)]|intros ?]).
  eapply (runs_bind _ _ _ _ (fun f t => P t /\ f.1 = path)).
  { apply runs_wrap, runs_or_fail; [|done]. intros [q r] t Hf Hp. split; [done|].
    unfold pathWithinRoots in Hf. destruct (_ || _); [done|]. apply within_loop_path in Hf.
    destruct (tidy_Clean os path Ht) as [Hcl _]. simpl. congruence. }
  intros [q r]. cbn [fst]. apply (runs_pre _ (fun t => q = path /\ P t)); [tauto|]. apply runs_pure. intros ->.
  eapply runs_bind; [by apply (keeps_check T P P)|intros ?].
  eapply runs_bind; [by apply (keeps_wrap T P P), (keeps_existing_up os T P P)|intros ?].
  do 4 (eapply runs_bind; [by apply (keeps_check T P P)|intros ?]).
  eapply runs_bind with (R := fun _ _ => False); [|by intros ? d1].
  destruct (tidy_Abs path (working_dir os) Ht) as [Ha Hn]. unfold hash_at. rewrite Hn.
  apply runs_look; [done|by intros n t _ Hp|done|]. intros t ->. rewrite Ha. unfold there in Hu. by rewrite Hu, Hh.
Qed.
End Resume.

(** ** On a concrete skill *)

(** The run that was stopped by an error at call [n], and the last state but
    [k] it went through. *)
Definition w_stopped (n k : nat) : tree :=
  default TLink (seen (ExecuteAssetQuarantine (U := ascii_only) sum32 (w_os (Nat.eqb n)) w_plan "id1" (w_disk w_root)).1 !! k).

Fixpoint prefixes (p : list string) : list (list string) :=
  [] :: match p with [] => [] | c :: p' => (fun q => c :: q) <$> prefixes p' end.

Lemma elem_of_prefixes q p : q `prefix_of` p -> q ∈ prefixes p.
Proof.
  revert p. induction q as [|c q IH]; intros p Hq; [destruct p; constructor|].
  destruct p as [|d p]; [by apply prefix_nil_inv in Hq|].
  pose proof Hq as ->%prefix_cons_inv_1. apply prefix_cons_inv_2 in Hq. simpl.
  apply elem_of_cons. right. apply list_elem_of_fmap_2, IH, Hq.
Qed.

Lemma walkable_eval p t :
  forallb (fun q => match at_path t q with Missing => true | l => is_dir l end) (prefixes p) = true -> walkable p t.
Proof.
  rewrite forallb_forall. intros H q Hq%elem_of_prefixes%list_elem_of_In. specialize (H q Hq).
  destruct (at_path t q); auto.
Qed.

(** The copy of the skill was interrupted. *)
Lemma stopped_quarantine_resumes_witness :
  let t := w_stopped 13 4 in
  at_path t ["q"; "skills"; "codex"; "evil.pending-id1"] = Found (TDir 493 [("SKILL.md", TFile 420 "do evil")]) /\
  ((forall d', root d' = t ->
     exists d'', ExecuteAssetQuarantine (U := ascii_only) sum32 w_quiet w_plan "id1" d' = (d'', inl ()) /\
       moved (U := ascii_only) sum32 (w_os (Nat.eqb 13)) (SourcePath w_plan) (QuarantinePath w_plan) (PlanHash w_plan) (root d'')) \/
  (holds sum32 (w_os (Nat.eqb 13)) (comps (QuarantinePath w_plan)) (expected (U := ascii_only) (PlanHash w_plan)) t /\
   ~ holds sum32 (w_os (Nat.eqb 13)) (comps (SourcePath w_plan)) (expected (U := ascii_only) (PlanHash w_plan)) t /\
   ~ gone (SourcePath w_plan) t)).
Proof.
  split; [vm_compute; reflexivity|].
  apply (stopped_quarantine_resumes (U := ascii_only) sum32 (w_os (Nat.eqb 13)) w_plan "id1") with (d := w_disk w_root) (a := w_skill);
    try done; try (vm_compute; reflexivity).
  - by intros n t.
  - apply walkable_eval. vm_compute. reflexivity.
  - apply list_elem_of_lookup. exists 4. vm_compute. reflexivity.
  - apply not_elem_of_nil.
Defined.

(** The removal of the skill was interrupted. *)
Lemma interrupted_removal_is_stuck_witness :
  let d := w_disk (w_stopped 20 0) in
  exists d' e, ExecuteAssetQuarantine (U := ascii_only) sum32 w_quiet w_plan "id1" d = (d', inr e) /\ root d' = root d.
Proof.
  apply (interrupted_removal_is_stuck (U := ascii_only) sum32 w_quiet w_plan "id1").
  - vm_compute. reflexivity.
  - done.
  - exists w_skill. split; vm_compute; reflexivity.
  - intros (u & Hu & Hh). vm_compute in Hu. injection Hu as <-. vm_compute in Hh. done.
  - vm_compute. done.
Defined.

Definition w_read_only : tree :=
  TDir 493 [("SKILL.md", TFile 420 "do evil"); ("run", TDir 365 [("a.py", TFile 493 "import os")])].

Lemma uncopyable_asset_stays_witness :
  let d := w_disk (TDir 493 [("q", TDir 448 []); ("s", TDir 493 [("evil", w_read_only)])]) in
  exists d' e, ExecuteAssetQuarantine (U := ascii_only) sum32 w_quiet w_plan "id1" d = (d', inr e) /\
    gone (QuarantinePath w_plan) (root d') /\ there w_read_only (SourcePath w_plan) (root d').
Proof.
  apply (uncopyable_asset_stays (U := ascii_only) sum32 w_quiet w_plan "id1"); try done; vm_compute; reflexivity.
Defined.

Lemma unhashable_asset_stays_witness :
  let u := TDir 493 [("SKILL.md", TFile 420 "do evil"); ("notes", TLink)] in
  let d := w_disk (TDir 493 [("q", TDir 448 []); ("s", TDir 493 [("evil", u)])]) in
  exists d' e, NewAssetQuarantinePlan (U := ascii_only) sum32 w_quiet "/q" ["/s"] "skill" "evil" "codex" "/s/evil" d = (d', inr e) /\
    root d' = root d.
Proof.
  intros u d. apply (unhashable_asset_stays (U := ascii_only) sum32 w_quiet) with (u := u); try done; vm_compute; reflexivity.
Defined.
