(* ===== verification/QuarantineJournal.v ===== *)
(** * The journal of the quarantine (internal/audit/quarantine_provenance.go)

    Two tables: the records, whose quarantine path is unique, and the action
    scopes associated with them.  A record is written before the file system is
    touched, advanced after, and retired together with the file action of its
    scopes.  Every operation is one transaction: it fails as a whole or commits.
    The table of actions is the one of [ActionStore]; its environment numbers
    the transactions and provides the clock and the identifiers. *)
From stdpp Require Import base list gmap strings sorting.
From Stdlib Require Import ZArith Lia Ascii.
From S2P Require Import Prelude GoStrings Netguard Paths Snapshot ActionStore.

Local Open Scope string_scope.

(** ** Data *)

Definition QuarantineStatePending : string := "pending".
Definition QuarantineStateActive : string := "active".
Definition QuarantineStateRestoring : string := "restoring".

(** A row of quarantine_records without its id. *)
Record QuarantineRecord := {
  q_TargetType : string;
  q_TargetName : string;
  q_OriginalPath : string;
  q_QuarantinePath : string;
  q_ContentHash : string;
  q_Reason : string;
  q_State : string;
  q_OwnershipJSON : string;
  q_RestorePath : string;
  q_CreatedAt : Time;
  q_UpdatedAt : Time;
}.

Record CreateQuarantineRecordInput := {
  in_TargetType : string;
  in_TargetName : string;
  in_OriginalPath : string;
  in_QuarantinePath : string;
  in_ContentHash : string;
  in_Reason : string;
  in_State : string;
  in_OwnershipJSON : string;
  in_Connectors : list string;
}.

(** The three tables; [links] is quarantine_record_connectors. *)
Record DB := {
  records : gmap string QuarantineRecord;
  links : gset (string * string);
  actions : Store;
}.

Definition J (A : Type) : Type := DB -> DB * (A + string).

Section Journal.
Context {U : GoUnicode}.
(** [json.Unmarshal] into a map succeeds with a map that is not nil. *)
Context (json_object : string -> bool).
Context (env : Env).

(** ** Validation *)

Definition validQuarantineState (state : string) : bool :=
  (state =? QuarantineStatePending) || (state =? QuarantineStateActive) || (state =? QuarantineStateRestoring).

Definition normalizeAbsolutePath (label path : string) : string + string :=
  let path := TrimSpace path in
  if (path =? "") || negb (is_rooted path) then inr ("audit: quarantine " ++ label ++ " path must be absolute")
  else
    let cleaned := Clean path in
    if (4096 <? slen cleaned)%Z then inr ("audit: quarantine " ++ label ++ " path exceeds 4096 bytes") else inl cleaned.

Fixpoint normalize_loop (connectors : list string) (seen : list string) : list string + string :=
  match connectors with
  | [] => inl (sort_Strings seen)
  | c :: cs =>
      let c := TrimSpace c in
      if (64 <? slen c)%Z then inr "audit: quarantine connector exceeds 64 bytes"
      else if bool_decide (c ∈ seen) then normalize_loop cs seen
      else normalize_loop cs (seen ++ [c])
  end.

Definition normalizeQuarantineConnectors (connectors : list string) : list string + string :=
  normalize_loop (match connectors with [] => [""] | _ => connectors end) [].

Definition or_default (s d : string) : string := if s =? "" then d else s.

Definition normalizeCreateQuarantineRecord (input : CreateQuarantineRecordInput) : CreateQuarantineRecordInput + string :=
  let TargetType := TrimSpace (in_TargetType input) in
  let TargetName := TrimSpace (in_TargetName input) in
  let ContentHash := ToLower (TrimSpace (in_ContentHash input)) in
  let Reason := TrimSpace (in_Reason input) in
  let State := or_default (TrimSpace (in_State input)) QuarantineStatePending in
  let OwnershipJSON := or_default (TrimSpace (in_OwnershipJSON input)) "{}" in
  if negb ((TargetType =? "skill") || (TargetType =? "plugin"))
  then inr ("audit: invalid quarantine target type " ++ Quote TargetType)
  else if (TargetName =? "") || (255 <? slen TargetName)%Z then inr "audit: invalid quarantine target name"
  else match normalizeAbsolutePath "original" (in_OriginalPath input) with
  | inr e => inr e
  | inl OriginalPath =>
  match normalizeAbsolutePath "quarantine" (in_QuarantinePath input) with
  | inr e => inr e
  | inl QuarantinePath =>
      if negb (hex_decodes ContentHash && (slen ContentHash =? 64)%Z)
      then inr "audit: quarantine content hash must be SHA-256 hex"
      else if negb (validQuarantineState State) || (State =? QuarantineStateRestoring)
      then inr ("audit: invalid initial quarantine state " ++ Quote State)
      else if (4096 <? slen OwnershipJSON)%Z || negb (json_object OwnershipJSON)
      then inr "audit: quarantine ownership marker must be a JSON object"
      else if (4096 <? slen Reason)%Z then inr "audit: quarantine reason exceeds 4096 bytes"
      else match normalizeQuarantineConnectors (in_Connectors input) with
      | inr e => inr e
      | inl Connectors =>
          inl {| in_TargetType := TargetType; in_TargetName := TargetName; in_OriginalPath := OriginalPath;
                 in_QuarantinePath := QuarantinePath; in_ContentHash := ContentHash; in_Reason := Reason;
                 in_State := State; in_OwnershipJSON := OwnershipJSON; in_Connectors := Connectors |}
      end
  end end.

Definition samePath (left right : string) : bool := Clean left =? Clean right.

Definition sameQuarantineIdentity (record : QuarantineRecord) (input : CreateQuarantineRecordInput) : bool :=
  (q_TargetType record =? in_TargetType input) && (q_TargetName record =? in_TargetName input) &&
  samePath (q_OriginalPath record) (in_OriginalPath input) && (q_ContentHash record =? in_ContentHash input).

(** ** Transactions *)

(** A transaction commits the answer of [f] at this time with the identifiers
    it draws, [used] of them, or fails and changes nothing. *)
Definition transaction {A} (what : string) (used : nat) (f : (nat -> string) -> Time -> DB -> DB * (A + string)) : J A := fun db =>
  let n := tick (actions db) in
  let counted db := {| records := records db; links := links db;
                       actions := {| rows := rows (actions db); tick := S n + used |} |} in
  if fault env n then (counted db, inr ("audit: " ++ what))
  else match f (fun i => NewUUID env (n + i)) (Now env n) db with
       | (db', inl a) => (counted db', inl a)
       | (_, inr e) => (counted db, inr e)
       end.

Definition quarantineConnectors (db : DB) (id : string) : list string :=
  sort_Strings (snd <$> filter (fun l => l.1 = id) (elements (links db))).

(** [SELECT ... WHERE quarantine_path = ?], at most one row. *)
Definition getQuarantineRecordByPath (db : DB) (path : string) : option (string * QuarantineRecord) :=
  head (filter (fun r => q_QuarantinePath r.2 = path) (map_to_list (records db))).

Definition created (input : CreateQuarantineRecordInput) (now : Time) : QuarantineRecord := {|
  q_TargetType := in_TargetType input; q_TargetName := in_TargetName input; q_OriginalPath := in_OriginalPath input;
  q_QuarantinePath := in_QuarantinePath input; q_ContentHash := in_ContentHash input; q_Reason := in_Reason input;
  q_State := in_State input; q_OwnershipJSON := in_OwnershipJSON input; q_RestorePath := "";
  q_CreatedAt := now; q_UpdatedAt := now |}.

Definition refreshed (record : QuarantineRecord) (input : CreateQuarantineRecordInput) (now : Time) : QuarantineRecord := {|
  q_TargetType := q_TargetType record; q_TargetName := q_TargetName record; q_OriginalPath := q_OriginalPath record;
  q_QuarantinePath := q_QuarantinePath record; q_ContentHash := q_ContentHash record;
  q_Reason := if negb (in_Reason input =? "") then in_Reason input else q_Reason record;
  q_State := q_State record;
  q_OwnershipJSON := if negb (in_OwnershipJSON input =? "{}") then in_OwnershipJSON input else q_OwnershipJSON record;
  q_RestorePath := q_RestorePath record; q_CreatedAt := q_CreatedAt record; q_UpdatedAt := now |}.

Definition link_all (id : string) (connectors : list string) (s : gset (string * string)) : gset (string * string) :=
  list_to_set ((fun c => (id, c)) <$> connectors) ∪ s.

(** The id, the record and its connectors. *)
Definition CreateQuarantineRecord (input : CreateQuarantineRecordInput) : J (string * QuarantineRecord * list string) := fun db =>
  match normalizeCreateQuarantineRecord input with
  | inr e => (db, inr e)
  | inl normalized =>
      transaction "quarantine provenance" 0 (fun uuids now db =>
        let uuid := uuids 0 in
        match getQuarantineRecordByPath db (in_QuarantinePath normalized) with
        | None =>
            if bool_decide (is_Some (records db !! uuid)) then (db, inr "audit: insert quarantine provenance")
            else
              let record := created normalized now in
              let db' := {| records := <[uuid := record]> (records db);
                            links := link_all uuid (in_Connectors normalized) (links db); actions := actions db |} in
              (db', inl (uuid, record, quarantineConnectors db' uuid))
        | Some (id, record) =>
            if negb (sameQuarantineIdentity record normalized)
            then (db, inr "audit: quarantine path already belongs to a different asset")
            else
              let record' := refreshed record normalized now in
              let db' := {| records := <[id := record']> (records db);
                            links := link_all id (in_Connectors normalized) (links db); actions := actions db |} in
              (db', inl (id, record', quarantineConnectors db' id))
        end) db
  end.

Definition with_state (record : QuarantineRecord) (state restorePath : string) (now : Time) : QuarantineRecord := {|
  q_TargetType := q_TargetType record; q_TargetName := q_TargetName record; q_OriginalPath := q_OriginalPath record;
  q_QuarantinePath := q_QuarantinePath record; q_ContentHash := q_ContentHash record; q_Reason := q_Reason record;
  q_State := state; q_OwnershipJSON := q_OwnershipJSON record; q_RestorePath := restorePath;
  q_CreatedAt := q_CreatedAt record; q_UpdatedAt := now |}.

Definition UpdateQuarantineRecordState (recordID state restorePath : string) : J () := fun db =>
  let recordID := TrimSpace recordID in
  if recordID =? "" then (db, inr "audit: quarantine record id is required")
  else
    let state := TrimSpace state in
    if negb (validQuarantineState state) then (db, inr ("audit: invalid quarantine state " ++ Quote state))
    else
      match (if state =? QuarantineStateRestoring then normalizeAbsolutePath "restore" restorePath else inl "") with
      | inr e => (db, inr e)
      | inl restorePath =>
          transaction "update quarantine provenance state" 0 (fun _ now db =>
            match records db !! recordID with
            | None => (db, inr "audit: quarantine record does not exist")
            | Some record => ({| records := <[recordID := with_state record state restorePath now]> (records db);
                                 links := links db; actions := actions db |}, inl ())
            end) db
      end.

Definition GetQuarantineRecord (recordID : string) : J (option (QuarantineRecord * list string)) := fun db =>
  let recordID := TrimSpace recordID in
  if recordID =? "" then (db, inr "audit: quarantine record id is required")
  else transaction "lookup quarantine provenance" 0 (fun _ _ db =>
    (db, inl ((fun r => (r, quarantineConnectors db recordID)) <$> records db !! recordID))) db.

Definition older (a b : string * QuarantineRecord) : Prop :=
  (q_CreatedAt a.2 < q_CreatedAt b.2)%Z \/ (q_CreatedAt a.2 = q_CreatedAt b.2 /\ byte_le a.1 b.1).
#[local] Instance older_dec : RelDecision older.
Proof. intros a b. unfold older. apply _. Defined.

Definition ListQuarantineRecordsForConnector (targetType targetName connector : string)
    : J (list (string * QuarantineRecord)) := fun db =>
  let targetType := TrimSpace targetType in
  let targetName := TrimSpace targetName in
  let connector := TrimSpace connector in
  if (targetType =? "") || (targetName =? "") then (db, inr "audit: quarantine target identity is incomplete")
  else transaction "list quarantine provenance" 0 (fun _ _ db =>
    (db, inl (merge_sort older (filter (fun r =>
       q_TargetType r.2 = targetType /\ q_TargetName r.2 = targetName /\ (r.1, connector) ∈ links db)
       (map_to_list (records db)))))) db.

Definition unlink (id : string) (s : gset (string * string)) : gset (string * string) := filter (fun l => l.1 <> id) s.

(** Only a pending record goes. *)
Definition DeleteQuarantineRecord (recordID : string) : J () :=
  transaction "delete quarantine provenance" 0 (fun _ _ db =>
    match records db !! recordID with
    | Some record =>
        if q_State record =? QuarantineStatePending
        then ({| records := delete recordID (records db); links := unlink recordID (links db); actions := actions db |}, inl ())
        else (db, inl ())
    | None => (db, inl ())
    end).

(** The row of an action scope after a restore: [json_remove(actions_json, '$.file')]. *)
Definition restored_row (uuid destination : string) (now : Time) (old : option Row) : option Row :=
  Some match old with
       | None => {| r_id := uuid; r_source_path := Some destination; r_actions := json_empty; r_reason := ""; r_updated_at := now |}
       | Some r => {| r_id := r_id r; r_source_path := Some destination; r_actions := json_put (r_actions r) DFile None;
                      r_reason := r_reason r; r_updated_at := now |}
       end.

Fixpoint clear_file_actions (targetType targetName destination : string) (uuids : nat -> string) (now : Time)
    (connectors : list string) (rs : gmap Key Row) : gmap Key Row :=
  match connectors with
  | [] => rs
  | c :: cs => clear_file_actions targetType targetName destination (fun i => uuids (S i)) now cs
                 (partial_alter (restored_row (uuids 0) destination now) (targetType, targetName, c) rs)
  end.

(** A record that is not there is no error. *)
Definition CompleteQuarantineRestore (recordID destination : string) : J () := fun db =>
  match normalizeAbsolutePath "restore" destination with
  | inr e => (db, inr e)
  | inl destination =>
      transaction "complete quarantine restore" (length (quarantineConnectors db recordID)) (fun uuids now db =>
        match records db !! recordID with
        | None => (db, inl ())
        | Some record =>
            if negb (q_State record =? QuarantineStateRestoring) || negb (samePath (q_RestorePath record) destination)
            then (db, inr "audit: quarantine restore journal does not match destination")
            else
              let rs := clear_file_actions (q_TargetType record) (q_TargetName record) destination uuids now
                          (quarantineConnectors db recordID) (rows (actions db)) in
              ({| records := delete recordID (records db); links := unlink recordID (links db);
                  actions := {| rows := rs; tick := tick (actions db) |} |}, inl ())
        end) db
  end.
End Journal.

(** ** What the journal promises *)

Section Facts.
Context {U : GoUnicode} (json_object : string -> bool) (env : Env).

(** The path is the second key of the records, and every scope belongs to one. *)
Definition journal_ok (db : DB) : Prop :=
  (forall i j r s, records db !! i = Some r -> records db !! j = Some s -> q_QuarantinePath r = q_QuarantinePath s -> i = j) /\
  (forall i (c : string), (i, c) ∈ links db -> is_Some (records db !! i)).

Lemma by_path_Some db path i r :
  getQuarantineRecordByPath db path = Some (i, r) -> records db !! i = Some r /\ q_QuarantinePath r = path.
Proof.
  unfold getQuarantineRecordByPath. intros H. apply head_Some_elem_of, list_elem_of_filter in H as [Hp Hin].
  by apply elem_of_map_to_list in Hin.
Qed.

Lemma by_path_None db path i r :
  getQuarantineRecordByPath db path = None -> records db !! i = Some r -> q_QuarantinePath r <> path.
Proof.
  unfold getQuarantineRecordByPath. intros H Hr Hp. apply head_None in H.
  assert (Hin : (i, r) ∈ filter (fun x => q_QuarantinePath x.2 = path) (map_to_list (records db))).
  { apply list_elem_of_filter. split; [done|]. by apply elem_of_map_to_list. }
  rewrite H in Hin. by apply elem_of_nil in Hin.
Qed.

Lemma elem_of_link_all (i c id : string) (cs : list string) (s : gset (string * string)) :
  (i, c) ∈ link_all id cs s <-> (i = id /\ c ∈ cs) \/ (i, c) ∈ s.
Proof.
  unfold link_all. rewrite elem_of_union, elem_of_list_to_set, list_elem_of_fmap.
  split; [intros [(x & [= -> ->] & Hx)|H]; auto|intros [[-> Hc]|H]; eauto].
Qed.

(** A transaction preserves what its body preserves. *)
Lemma transaction_keeps {A} (P : DB -> Prop) what used (f : (nat -> string) -> Time -> DB -> DB * (A + string)) db :
  (forall d k, P d -> P {| records := records d; links := links d; actions := {| rows := rows (actions d); tick := k |} |}) ->
  (forall us now d' a, f us now db = (d', inl a) -> P d') -> P db -> P (transaction env what used f db).1.
Proof.
  intros Hc Hf Hp. unfold transaction. destruct (fault env _); [by apply Hc|].
  destruct (f _ _ db) as [d' [a|e]] eqn:He; simpl; [by eapply Hc, Hf|by apply Hc].
Qed.

Lemma journal_ok_tick db k :
  journal_ok db -> journal_ok {| records := records db; links := links db; actions := {| rows := rows (actions db); tick := k |} |}.
Proof. done. Qed.

(** A record replaced by one with the same path. *)
Lemma journal_ok_update db id r r' ls a :
  journal_ok db -> records db !! id = Some r -> q_QuarantinePath r' = q_QuarantinePath r ->
  (forall i (c : string), (i, c) ∈ ls -> i = id \/ (i, c) ∈ links db) ->
  journal_ok {| records := <[id := r']> (records db); links := ls; actions := a |}.
Proof.
  intros [H1 H2] Hr Hp Hl. split; simpl.
  - intros i j x y. rewrite !lookup_insert_Some. intros [[<- <-]|[Hi Hx]] [[<- <-]|[Hj Hy]] Hxy; [done| | |by eapply H1].
    + eapply (H1 id j); [done..|congruence].
    + eapply (H1 i id); [done..|congruence].
  - intros i c Hin. destruct (Hl i c Hin) as [->|Hin']; [by rewrite lookup_insert_eq|].
    destruct (decide (i = id)) as [->|Hn]; [by rewrite lookup_insert_eq|]. rewrite lookup_insert_ne by done. by eapply H2.
Qed.

Lemma journal_ok_delete db id a :
  journal_ok db -> journal_ok {| records := delete id (records db); links := unlink id (links db); actions := a |}.
Proof.
  intros [H1 H2]. split; simpl.
  - intros i j r s [_ Hr]%lookup_delete_Some [_ Hs]%lookup_delete_Some. by apply H1.
  - intros i c [Hn Hin]%elem_of_filter. simpl in Hn. rewrite lookup_delete_ne by done. by eapply H2.
Qed.

Inductive journal_op :=
| OpCreate (input : CreateQuarantineRecordInput)
| OpUpdate (recordID state restorePath : string)
| OpDelete (recordID : string)
| OpComplete (recordID destination : string).

Definition exec_journal (o : journal_op) (db : DB) : DB :=
  match o with
  | OpCreate input => (CreateQuarantineRecord json_object env input db).1
  | OpUpdate i s p => (UpdateQuarantineRecordState env i s p db).1
  | OpDelete i => (DeleteQuarantineRecord env i db).1
  | OpComplete i d => (CompleteQuarantineRestore env i d db).1
  end.

(** C12: whatever is done to the journal and whatever fails, no two records
    claim one quarantine path, and no scope is associated with a record that is
    not there. *)
Theorem journal_invariant (ops : list journal_op) (db : DB) : journal_ok db -> journal_ok (fold_left (fun d o => exec_journal o d) ops db).
Proof.
  revert db. induction ops as [|o ops IH]; intros db Hok; [done|]. simpl. apply IH. clear IH ops.
  destruct o as [input|id s p|id|id d]; simpl.
  - unfold CreateQuarantineRecord. destruct (normalizeCreateQuarantineRecord _ _) as [n|e]; [|done].
    apply transaction_keeps; [by intros; apply journal_ok_tick| |done]. intros us now db' a Hf.
    destruct (getQuarantineRecordByPath db _) as [[i r]|] eqn:Hg.
    + apply by_path_Some in Hg as [Hr Hp]. destruct (negb _); [done|]. injection Hf as <- _.
      eapply journal_ok_update; [done|exact Hr|done|]. intros i' c. rewrite elem_of_link_all. tauto.
    + case_bool_decide as Hn; [done|]. injection Hf as <- _. apply eq_None_not_Some in Hn. destruct Hok as [H1 H2]. split; simpl.
      * intros i j x y. rewrite !lookup_insert_Some. intros [[<- <-]|[Hi Hx]] [[<- <-]|[Hj Hy]] Hxy; [done| | |by eapply H1].
        -- by destruct (by_path_None _ _ _ _ Hg Hy).
        -- by destruct (by_path_None _ _ _ _ Hg Hx).
      * intros i c [[-> _]|Hin]%elem_of_link_all; [by rewrite lookup_insert_eq|].
        destruct (decide (i = us 0)) as [->|Hne]; [by rewrite lookup_insert_eq|]. rewrite lookup_insert_ne by done. by eapply H2.
  - unfold UpdateQuarantineRecordState. destruct (_ =? ""); [done|]. destruct (negb _); [done|].
    destruct (if TrimSpace s =? QuarantineStateRestoring then _ else inl "") as [q|e]; [|done].
    apply transaction_keeps; [by intros; apply journal_ok_tick| |done]. intros us now db' a Hf.
    destruct (records db !! _) as [r|] eqn:Hr; [|done]. injection Hf as <- _.
    eapply journal_ok_update; [done|exact Hr|done|auto].
  - unfold DeleteQuarantineRecord. apply transaction_keeps; [by intros; apply journal_ok_tick| |done]. intros us now db' a Hf.
    destruct (records db !! _) as [r|]; [destruct (_ =? _)|]; injection Hf as <- _; [by apply journal_ok_delete|done..].
  - unfold CompleteQuarantineRestore. destruct (normalizeAbsolutePath _ _) as [q|e]; [|done].
    apply transaction_keeps; [by intros; apply journal_ok_tick| |done]. intros us now db' a Hf.
    destruct (records db !! _) as [r|]; [|by injection Hf as <- _]. destruct (_ || _); [done|].
    injection Hf as <- _. by apply journal_ok_delete.
Qed.

Lemma transaction_fails {A} what used (f : (nat -> string) -> Time -> DB -> DB * (A + string)) db db' e :
  transaction env what used f db = (db', inr e) ->
  records db' = records db /\ links db' = links db /\ rows (actions db') = rows (actions db).
Proof.
  unfold transaction. destruct (fault env _); [by intros [= <- _]|].
  destruct (f _ _ db) as [d [a|e']]; [done|by intros [= <- _]].
Qed.

Lemma transaction_commits {A} what used (f : (nat -> string) -> Time -> DB -> DB * (A + string)) db db' a :
  transaction env what used f db = (db', inl a) ->
  exists us now d, (forall i, exists k, us i = NewUUID env k) /\ f us now db = (d, inl a) /\ records db' = records d /\ links db' = links d /\
                   rows (actions db') = rows (actions d).
Proof.
  unfold transaction. destruct (fault env _); [done|].
  destruct (f _ _ db) as [d [a'|e']] eqn:Hf; [|done]. intros [= <- <-].
  do 3 eexists. split; [|split; [exact Hf|done]]. simpl. eauto.
Qed.

Lemma quarantineConnectors_links db db' id : links db = links db' -> quarantineConnectors db id = quarantineConnectors db' id.
Proof. unfold quarantineConnectors. by intros ->. Qed.

(** [db'] has the rest of [db] and this record. *)
Definition registers (db : DB) (n : CreateQuarantineRecordInput) (id : string) (r : QuarantineRecord) (db' : DB) : Prop :=
  records db' !! id = Some r /\ (forall j, j <> id -> records db' !! j = records db !! j) /\
  rows (actions db') = rows (actions db) /\
  q_QuarantinePath r = in_QuarantinePath n /\ sameQuarantineIdentity r n = true /\
  (forall c : string, c ∈ in_Connectors n -> (id, c) ∈ links db') /\
  match records db !! id with
  | None => q_State r = in_State n /\ q_RestorePath r = "" /\
            (exists k, id = NewUUID env k) /\
            forall j old, records db !! j = Some old -> q_QuarantinePath old <> in_QuarantinePath n
  | Some old => sameQuarantineIdentity old n = true /\ q_QuarantinePath old = in_QuarantinePath n /\
                q_State r = q_State old /\ q_RestorePath r = q_RestorePath old
  end.

Lemma create_succeeds input db db' id r cs :
  CreateQuarantineRecord json_object env input db = (db', inl (id, r, cs)) ->
  exists n, normalizeCreateQuarantineRecord json_object input = inl n /\ registers db n id r db'.
Proof.
  unfold CreateQuarantineRecord. destruct (normalizeCreateQuarantineRecord _ _) as [n|e] eqn:Hn; [|done].
  intros (us & now & d & Hus & Hf & Hr & Hl & Ha)%transaction_commits. exists n. split; [done|].
  unfold registers. rewrite Hr, Hl, Ha. clear Hr Hl Ha.
  destruct (getQuarantineRecordByPath db _) as [[i old]|] eqn:Hg.
  - apply by_path_Some in Hg as [Ho Hp]. destruct (negb _) eqn:Hs; [done|]. apply negb_false_iff in Hs.
    injection Hf as <- <- <- _. cbn [records links actions]. rewrite Ho, lookup_insert_eq.
    split_and!; try done; [by intros; rewrite lookup_insert_ne|]. intros c Hc. apply elem_of_link_all. auto.
  - case_bool_decide as Hu; [done|]. apply eq_None_not_Some in Hu. injection Hf as <- <- <- _. cbn [records links actions].
    rewrite Hu, lookup_insert_eq. split_and!; try done.
    + by intros; rewrite lookup_insert_ne.
    + unfold sameQuarantineIdentity, samePath. cbn. by rewrite !String.eqb_refl.
    + intros c Hc. apply elem_of_link_all. auto.
    + intros j o Hj. by eapply by_path_None.
Qed.

Lemma create_fails input db db' e :
  CreateQuarantineRecord json_object env input db = (db', inr e) ->
  records db' = records db /\ links db' = links db /\ rows (actions db') = rows (actions db).
Proof.
  unfold CreateQuarantineRecord. destruct (normalizeCreateQuarantineRecord _ _); [apply transaction_fails|by intros [= <- _]].
Qed.

(** Another asset at the path of a record is refused. *)
Lemma create_refuses input n db id old :
  journal_ok db -> normalizeCreateQuarantineRecord json_object input = inl n ->
  records db !! id = Some old -> q_QuarantinePath old = in_QuarantinePath n -> sameQuarantineIdentity old n = false ->
  exists db' e, CreateQuarantineRecord json_object env input db = (db', inr e).
Proof.
  intros [H1 _] Hn Ho Hp Hs. unfold CreateQuarantineRecord. rewrite Hn.
  destruct (getQuarantineRecordByPath db (in_QuarantinePath n)) as [[i r]|] eqn:Hg.
  - pose proof (by_path_Some _ _ _ _ Hg) as [Hr Hpr].
    assert (i = id) as -> by (eapply H1; [done..|congruence]). rewrite Ho in Hr. injection Hr as <-.
    unfold transaction. destruct (fault env _); [eauto|]. rewrite Hg, Hs. simpl. eauto.
  - by destruct (by_path_None _ _ _ _ Hg Ho).
Qed.

(** A change of state keeps what a record binds. *)
Lemma update_keeps id state path b b' u :
  UpdateQuarantineRecordState env id state path b = (b', u) ->
  rows (actions b') = rows (actions b) /\ links b' = links b /\
  forall i r, records b !! i = Some r -> exists r', records b' !! i = Some r' /\
    q_QuarantinePath r' = q_QuarantinePath r /\ q_OriginalPath r' = q_OriginalPath r /\ q_ContentHash r' = q_ContentHash r /\
    q_TargetType r' = q_TargetType r /\ q_TargetName r' = q_TargetName r.
Proof.
  unfold UpdateQuarantineRecordState. destruct (_ =? ""); [intros [= <- _]; eauto 10|].
  destruct (negb _); [intros [= <- _]; eauto 10|].
  destruct (if TrimSpace state =? QuarantineStateRestoring then _ else inl "") as [q|e]; [|intros [= <- _]; eauto 10].
  destruct u as [[]|e]; [|intros (-> & -> & ->)%transaction_fails; eauto 10].
  intros (us & now & d & _ & Hf & -> & -> & ->)%transaction_commits.
  destruct (records b !! _) as [r|] eqn:Hr; [|done]. injection Hf as <-. cbn [records links actions].
  split_and!; [done..|]. intros i s Hi. destruct (decide (i = TrimSpace id)) as [->|Hn].
  - rewrite lookup_insert_eq. rewrite Hr in Hi. injection Hi as <-. eauto 10.
  - rewrite lookup_insert_ne by done. eauto 10.
Qed.

Lemma delete_rows id b : rows (actions (DeleteQuarantineRecord env id b).1) = rows (actions b).
Proof.
  unfold DeleteQuarantineRecord, transaction. destruct (fault env _); [done|].
  destruct (records b !! id) as [r|]; [|done]. by destruct (_ =? _).
Qed.

(** ** Retiring a record *)

Lemma clear_file_actions_view ty nm dest us now cs : forall rs k d,
  row_view (clear_file_actions ty nm dest us now cs rs !! k) d =
    if bool_decide (d = DFile /\ k.1 = (ty, nm) /\ k.2 ∈ cs) then "" else row_view (rs !! k) d.
Proof.
  clear json_object.
  revert us. induction cs as [|c cs IH]; intros us rs k d; cbn [clear_file_actions].
  - rewrite bool_decide_eq_false_2; [done|]. intros (_ & _ & H). by apply elem_of_nil in H.
  - rewrite IH. destruct (bool_decide (d = DFile /\ k.1 = (ty, nm) /\ k.2 ∈ cs)) eqn:Hd.
    + apply bool_decide_eq_true in Hd as (? & ? & ?). rewrite bool_decide_eq_true_2; [done|]. rewrite elem_of_cons. auto.
    + apply bool_decide_eq_false in Hd. destruct (decide (k = (ty, nm, c))) as [->|Hk].
      * rewrite lookup_partial_alter. destruct (decide _); [|done].
        destruct (decide (d = DFile)) as [->|Hn].
        -- rewrite bool_decide_eq_true_2 by (split_and!; [done..|apply elem_of_cons; by left]).
           unfold restored_row, row_view. by destruct (rs !! _) as [r|]; [destruct (r_actions r)|].
        -- rewrite bool_decide_eq_false_2 by tauto. unfold restored_row, row_view.
           destruct (rs !! _) as [r|]; [destruct (r_actions r)|]; by destruct d.
      * rewrite lookup_partial_alter_ne by done. destruct k as [[t n] x]. cbn [fst snd] in *.
        case_bool_decide as H; [|done]. destruct H as (? & [= -> ->] & [->|H]%elem_of_cons); [done|tauto].
Qed.

(** The end of a restore retires the record and clears the file action of
    every scope that was associated with it; every other directive, the install
    block and the runtime disable of the asset among them, stays. *)
Lemma complete_retires recordID destination db db' r :
  CompleteQuarantineRestore env recordID destination db = (db', inl ()) -> records db !! recordID = Some r ->
  records db' = delete recordID (records db) /\
  (forall c : string, (recordID, c) ∉ links db') /\
  forall k d, row_view (rows (actions db') !! k) d =
    if bool_decide (d = DFile /\ k.1 = (q_TargetType r, q_TargetName r) /\ (recordID, k.2) ∈ links db) then ""
    else row_view (rows (actions db) !! k) d.
Proof.
  clear json_object.
  unfold CompleteQuarantineRestore. destruct (normalizeAbsolutePath _ _) as [dest|e]; [|done].
  intros (us & now & x & _ & Hf & -> & -> & ->)%transaction_commits Hr. rewrite Hr in Hf.
  destruct (_ || _); [done|]. injection Hf as <-. cbn [records links actions rows]. split_and!; [done| |].
  - intros c [Hn _]%elem_of_filter. by apply Hn.
  - intros k d. rewrite clear_file_actions_view. erewrite bool_decide_ext; [done|].
    unfold quarantineConnectors, sort_Strings. rewrite merge_sort_Permutation, list_elem_of_fmap.
    setoid_rewrite list_elem_of_filter. setoid_rewrite elem_of_elements. split.
    + intros (? & ? & [a b] & -> & Ha & Hl). simpl in Ha. subst a. auto.
    + intros (? & ? & H). split_and!; [done..|]. by exists (recordID, k.2).
Qed.
End Facts.

Lemma journal_invariant_witness :
  let json := fun _ => true in
  let input := {| in_TargetType := "skill"; in_TargetName := "s"; in_OriginalPath := "/s/s"; in_QuarantinePath := "/q/s";
                  in_ContentHash := hex_encode (sum32 ""); in_Reason := ""; in_State := ""; in_OwnershipJSON := ""; in_Connectors := [] |} in
  journal_ok (fold_left (fun d o => exec_journal (U := ascii_only) json calm o d) [OpCreate input; OpDelete "id"]
                {| records := ∅; links := ∅; actions := empty_store |}).
Proof.
  intros json input. apply journal_invariant. split; intros i j; [intros r s H|intros H].
  - cbn in H. by rewrite lookup_empty in H.
  - cbn in H. by apply elem_of_empty in H.
Defined.
