(* ===== verification/QuarantineWatch.v ===== *)
(** * The watcher's quarantine and restore (internal/watcher/watcher.go)

    What the watcher does with a blocked skill or plugin, and the way back: the
    journal is written before the files are moved and advanced after, a failed
    move takes its record back only if nothing was published.  A [World] is a
    file system with a database; it keeps every pair of states in which the
    process may stop. *)
From stdpp Require Import base list gmap strings sorting.
From Stdlib Require Import ZArith Lia Ascii.
From S2P Require Import Prelude GoStrings Netguard Paths PathFacts Snapshot ActionStore PolicyEngine Watcher.
From S2P Require Import AssetTree Quarantine QuarantineFacts QuarantineProps QuarantineJournal.

Local Open Scope string_scope.

(** ** The world *)

(** What is logged. *)
Inductive note :=
| QuarantineFailed (path reason : string)
| RestoredRetained (path : string)
| RestoreInProgress (path : string)
| ProvenancePending (path reason : string)
| Quarantined (path : string)
| Restored (path : string).

Record World := {
  disk : Disk;
  db : DB;
  trace : list (tree * DB);
  notes : list note;
}.

Definition X (A : Type) : Type := World -> World * A.

Definition xret {A} (a : A) : X A := fun w => (w, a).
Definition xbind {A B} (m : X A) (k : A -> X B) : X B := fun w => let (w', a) := m w in k a w'.

Declare Scope world_scope.
Delimit Scope world_scope with world.
Notation "x <- m ;; k" := (xbind m (fun x => k)) (at level 100, m at next level, right associativity) : world_scope.
Notation "m ;; k" := (xbind m (fun _ => k)) (at level 100, right associativity) : world_scope.
Local Open Scope world_scope.

(** The file system goes through its states while the database stays. *)
Definition on_disk {A} (m : F A) : X (A + string) := fun w =>
  let (d, r) := m (disk w) in
  let passed := take (length (seen d) - length (seen (disk w))) (seen d) in
  ({| disk := d; db := db w; trace := ((fun t => (t, db w)) <$> passed) ++ trace w; notes := notes w |}, r).

(** A transaction is one step. *)
Definition on_db {A} (m : J A) : X (A + string) := fun w =>
  let (b, r) := m (db w) in
  ({| disk := disk w; db := b; trace := (root (disk w), b) :: trace w; notes := notes w |}, r).

(** The queries of the policy engine, on the table of actions. *)
Definition on_actions {A} (m : W A) : X A := fun w =>
  let '(s, _, a) := m (actions (db w)) in
  let b := {| records := records (db w); links := links (db w); actions := s |} in
  ({| disk := disk w; db := b; trace := (root (disk w), b) :: trace w; notes := notes w |}, a).

Definition log (n : note) : X () := fun w =>
  ({| disk := disk w; db := db w; trace := trace w; notes := notes w ++ [n] |}, ()).

Record WatcherConfig := {
  QuarantineDir : string;
  skillDirs : list string;
  pluginDirs : list string;
  watch_cfg : AssetPolicy.Config;
}.

Section Watch.
Context {U : GoUnicode} (sha256 : string -> string) (json_object : string -> bool).
Context (os : OS) (env : Env) (cfg : WatcherConfig) (store_nil : bool).

Definition sameWatcherPath (left right : string) : bool :=
  Abs (working_dir os) (TrimSpace left) =? Abs (working_dir os) (TrimSpace right).

Definition sourceRootsFor (targetType : string) : list string :=
  if targetType =? InstallSkill then skillDirs cfg
  else if targetType =? InstallPlugin then pluginDirs cfg
  else [].

Definition quarantine_input (evt : InstallEvent) (connector : string) (plan : AssetQuarantinePlan) : CreateQuarantineRecordInput := {|
  in_TargetType := Type_ evt; in_TargetName := Name evt; in_OriginalPath := SourcePath plan;
  in_QuarantinePath := QuarantinePath plan; in_ContentHash := PlanHash plan; in_Reason := "watcher enforcement";
  in_State := QuarantineStatePending; in_OwnershipJSON := OwnershipJSON plan; in_Connectors := [connector; ""] |}.

(** A restore of the same files to the same place is under way. *)
Definition restore_under_way (record : QuarantineRecord) (plan : AssetQuarantinePlan) : X bool :=
  if (q_State record =? QuarantineStateRestoring) && sameWatcherPath (q_RestorePath record) (SourcePath plan) then
    r <- on_disk (AssetContentHashMatches sha256 os (SourcePath plan) (q_ContentHash record)) ;;
    xret (match r with inl b => b | inr _ => false end)
  else xret false.

(** The record goes if the destination is certainly not there. *)
Definition take_back (plan : AssetQuarantinePlan) (id : string) : X () :=
  l <- on_disk (Lstat os (comps (QuarantinePath plan))) ;;
  match l with
  | inl Missing => on_db (DeleteQuarantineRecord env id) ;; xret ()
  | _ => xret ()
  end.

Definition quarantine_planned (evt : InstallEvent) (connector : string) (plan : AssetQuarantinePlan) : X () :=
  created <- on_db (CreateQuarantineRecord json_object env (quarantine_input evt connector plan)) ;;
  match created with
  | inr e => log (QuarantineFailed (Path evt) e)
  | inl (id, record, _) =>
      under_way <- restore_under_way record plan ;;
      if under_way then log (RestoreInProgress (Path evt))
      else
        r <- on_disk (ExecuteAssetQuarantine sha256 os plan id) ;;
        match r with
        | inr e => take_back plan id ;; log (QuarantineFailed (Path evt) e)
        | inl _ =>
            u <- on_db (UpdateQuarantineRecordState env id QuarantineStateActive "") ;;
            (match u with inr e => log (ProvenancePending (Path evt) e) | inl _ => xret () end) ;;
            log (Quarantined (QuarantinePath plan))
        end
  end.

Definition quarantineAsset (evt : InstallEvent) : X () :=
  if store_nil then log (QuarantineFailed (Path evt) "watcher: quarantine provenance store is unavailable")
  else
    keep <- on_actions (preserveRestoredBlockedAsset env store_nil (watch_cfg cfg) sameWatcherPath evt) ;;
    if keep then log (RestoredRetained (Path evt))
    else
      let connector := eventConnector (watch_cfg cfg) evt in
      planned <- on_disk (NewAssetQuarantinePlan sha256 os (QuarantineDir cfg) (sourceRootsFor (Type_ evt)) (Type_ evt)
                            (Name evt) connector (Path evt)) ;;
      match planned with
      | inr e => log (QuarantineFailed (Path evt) e)
      | inl plan => quarantine_planned evt connector plan
      end.

(** The destination of a restore: the one a restore that was begun is bound
    to, the one asked for, or the original place. *)
Definition bound_restore_path (record : QuarantineRecord) (restorePath : string) : string + string :=
  let requested := TrimSpace restorePath in
  let bound := TrimSpace (q_RestorePath record) in
  if (q_State record =? QuarantineStateRestoring) && negb (bound =? "") then
    if requested =? "" then inl bound
    else if negb (sameWatcherPath requested bound)
    then inr "watcher: explicit restore path does not match durable restoring destination"
    else inl requested
  else if requested =? "" then inl (q_OriginalPath record)
  else inl requested.

Definition restore_plan (id : string) (record : QuarantineRecord) (restorePath : string) : AssetRestorePlan := {|
  RecordID := id; r_TargetType := q_TargetType record; r_TargetName := q_TargetName record;
  r_QuarantineRoot := QuarantineDir cfg; r_QuarantinePath := q_QuarantinePath record; RestorePath := restorePath;
  AllowedRoots := sourceRootsFor (q_TargetType record); r_ContentHash := q_ContentHash record |}.

(** The record is active again if the copy in the quarantine is still good. *)
Definition reactivate (id : string) (record : QuarantineRecord) : X () :=
  m <- on_disk (AssetContentHashMatches sha256 os (q_QuarantinePath record) (q_ContentHash record)) ;;
  match m with
  | inl true => on_db (UpdateQuarantineRecordState env id QuarantineStateActive "") ;; xret ()
  | _ => xret ()
  end.

Definition restore_record (id : string) (record : QuarantineRecord) (restorePath : string) : X (() + string) :=
  match bound_restore_path record restorePath with
  | inr e => xret (inr e)
  | inl restorePath =>
      u <- on_db (UpdateQuarantineRecordState env id QuarantineStateRestoring restorePath) ;;
      match u with
      | inr e => xret (inr ("watcher: journal quarantine restore: " ++ e))
      | inl _ =>
          r <- on_disk (ExecuteAssetRestore sha256 os (restore_plan id record restorePath)) ;;
          match r with
          | inr e => reactivate id record ;; xret (inr ("watcher: restore quarantined asset: " ++ e))
          | inl _ =>
              c <- on_db (CompleteQuarantineRestore env id restorePath) ;;
              match c with
              | inr e => xret (inr ("watcher: finalize quarantine restore: " ++ e))
              | inl _ => log (Restored restorePath) ;; xret (inl ())
              end
          end
      end
  end.

Definition RestoreQuarantined (targetType targetName connector restorePath : string) : X (() + string) :=
  if store_nil then xret (inr "watcher: quarantine provenance store is unavailable")
  else
    let targetType := TrimSpace targetType in
    let targetName := TrimSpace targetName in
    let connector := TrimSpace connector in
    if negb (targetType =? InstallSkill) && negb (targetType =? InstallPlugin)
    then xret (inr ("watcher: unsupported restore target type " ++ Quote targetType))
    else
      l <- on_db (ListQuarantineRecordsForConnector env targetType targetName connector) ;;
      match l with
      | inr e => xret (inr e)
      | inl [] => xret (inr ("watcher: " ++ targetType ++ " " ++ Quote targetName ++ " is not quarantined for connector " ++ Quote connector))
      | inl [(id, record)] => restore_record id record restorePath
      | inl _ => xret (inr ("watcher: restore is ambiguous for " ++ targetType ++ " " ++ Quote targetName ++ " connector " ++ Quote connector))
      end.
End Watch.
