(* ===== verification/QuarantineWatchProps.v ===== *)
(** * The quarantine as the watcher runs it

    The journal and the file system together: no crash leaves a copy in the
    quarantine that the journal does not know, no record is retired while its
    copy is still needed, and the way back clears the file action and nothing
    else.  What the journal binds to a path is also what keeps a second version
    of an asset out of the quarantine. *)
From stdpp Require Import base list gmap strings sorting.
From Stdlib Require Import ZArith Lia Ascii.
From S2P Require Import Prelude GoStrings Netguard Paths PathFacts Snapshot ActionStore PolicyEngine Watcher.
From S2P Require Import AssetTree Quarantine QuarantineFacts QuarantineProps QuarantineRecovery QuarantineJournal QuarantineWatch.

Local Open Scope string_scope.
Local Open Scope world_scope.

(** ** Triples on worlds *)

(** The file system, the database and the notes. *)
Abbreviation State := (tree * DB * list note)%type.

Definition state_of (w : World) : State := (root (disk w), db w, notes w).

Definition xruns {A} (I : tree * DB -> Prop) (P : State -> Prop) (m : X A) (Q : A -> State -> Prop) : Prop :=
  forall w, P (state_of w) ->
    let (w', a) := m w in
    Q a (state_of w') /\ exists new, trace w' = (new ++ trace w)%list /\ Forall I new.

Section Rules.
Context (I : tree * DB -> Prop).
Implicit Types (P : State -> Prop).

Lemma xruns_ret {A} (a : A) P Q : (forall s, P s -> Q a s) -> xruns I P (xret a) Q.
Proof. intros H w Hw. split; [by apply H|by exists []]. Qed.

Lemma xruns_pre {A} P P' (m : X A) Q : (forall s, P' s -> P s) -> xruns I P m Q -> xruns I P' m Q.
Proof. intros H Hm w Hw. by apply Hm, H. Qed.

Lemma xruns_bind {A B} P (m : X A) (k : A -> X B) R Q :
  xruns I P m R -> (forall a, xruns I (R a) (k a) Q) -> xruns I P (xbind m k) Q.
Proof.
  intros Hm Hk w Hw. specialize (Hm w Hw). unfold xbind. destruct (m w) as [w1 a].
  destruct Hm as [H1 (new & Ht & HI)]. specialize (Hk a w1 H1). destruct (k a w1) as [w2 b].
  destruct Hk as [H2 (new' & Ht' & HI')]. split; [done|]. exists (new' ++ new)%list.
  rewrite Ht', Ht, app_assoc. split; [done|]. by apply Forall_app.
Qed.

Lemma xruns_log n P (Q : () -> State -> Prop) :
  (forall t b ns, P (t, b, ns) -> Q () (t, b, (ns ++ [n])%list)) -> xruns I P (log n) Q.
Proof. intros H w Hw. split; [by apply H|by exists []]. Qed.

Lemma xruns_on_db {A} (m : J A) P (Q : A + string -> State -> Prop) :
  (forall t b ns, P (t, b, ns) -> let (b', r) := m b in Q r (t, b', ns) /\ I (t, b')) -> xruns I P (on_db m) Q.
Proof.
  intros H w Hw. specialize (H _ _ _ Hw). unfold on_db. destruct (m (db w)) as [b r]. destruct H as [H1 H2].
  split; [done|]. exists [(root (disk w), b)]. split; [done|]. by constructor.
Qed.

Lemma xruns_on_disk {A} (m : F A) P (S : A -> State -> Prop) (E : State -> Prop) :
  (forall b ns, runs (fun t => I (t, b)) (fun t => P (t, b, ns)) m (fun a t => S a (t, b, ns)) (fun t => E (t, b, ns))) ->
  xruns I P (on_disk m) (fun r s => match r with inl a => S a s | inr _ => E s end).
Proof.
  intros H w Hw. specialize (H (db w) (notes w) (disk w) Hw). unfold on_disk. destruct (m (disk w)) as [d r].
  destruct H as [H1 (new & Hs & HI)]. split; [by destruct r|].
  rewrite Hs, length_app, Nat.add_sub, take_app_length.
  exists ((fun t => (t, db w)) <$> new). split; [done|]. by apply Forall_fmap.
Qed.

(** Looking at the file system. *)
Lemma xruns_looks {A} (m : F A) P :
  (forall b ns, keeps (fun t => I (t, b)) (fun t => P (t, b, ns)) (fun t => P (t, b, ns)) m) ->
  xruns I P (on_disk m) (fun _ => P).
Proof.
  intros H w Hw. pose proof (xruns_on_disk m P (fun _ => P) P H w Hw) as Hx.
  destruct (on_disk m w) as [w' [x|e]]; exact Hx.
Qed.
End Rules.

(** ** Into the quarantine *)

Section Quarantine.
Context {U : GoUnicode} (sha256 : string -> string) (json_object : string -> bool).
Context (os : OS) (env : Env).
Context (evt : InstallEvent) (connector : string) (plan : AssetQuarantinePlan) (a : tree).

Abbreviation src := (SourcePath plan).
Abbreviation dst := (QuarantinePath plan).
Abbreviation hash := (PlanHash plan).

(** A record that binds the place in the quarantine to the original place and
    the hash. *)
Definition recorded (b : DB) : Prop :=
  exists id r, records b !! id = Some r /\ q_QuarantinePath r = dst /\ samePath (q_OriginalPath r) src = true /\
               q_ContentHash r = expected hash.

Definition in_place (t : tree) : Prop := gone dst t /\ there a src t.

(** The asset is where it was, or a verified copy is in the quarantine and in
    the journal. *)
Definition kept (s : tree * DB) : Prop := in_place s.1 \/ (verified sha256 os dst hash s.1 /\ recorded s.2).

(** The identifiers a record for this plan can get. *)
Definition good_ids (b : DB) : Prop := forall id, (exists n, id = NewUUID env n) \/ is_Some (records b !! id) ->
  well_placed src (stage_of plan id) dst = true /\ untouched os (stage_of plan id).

Context (Hsrc : untouched os src) (Hdst : untouched os dst) (Htidy : tidy src = true /\ tidy dst = true).

(** What the journal is given. *)
Lemma normalized_input n :
  normalizeCreateQuarantineRecord json_object (quarantine_input evt connector plan) = inl n ->
  in_OriginalPath n = src /\ in_QuarantinePath n = dst /\ in_ContentHash n = expected hash.
Proof.
  intros Hn. destruct Htidy as [Hts Htd]. apply (tidy_Clean os) in Hts as [Hts _], Htd as [Htd _].
  unfold normalizeCreateQuarantineRecord, quarantine_input in Hn. cbn [in_OriginalPath in_QuarantinePath in_ContentHash] in Hn.
  destruct (negb _); [done|]. destruct (_ || _); [done|].
  destruct (normalizeAbsolutePath "original" src) as [o|] eqn:Ho; [|done].
  destruct (normalizeAbsolutePath "quarantine" dst) as [q|] eqn:Hq; [|done].
  destruct (negb _); [done|]. destruct (_ || _); [done|]. destruct (_ || _); [done|]. destruct (Z.ltb _ _); [done|].
  destruct (normalizeQuarantineConnectors _) as [cs'|]; [|done]. injection Hn as <-. cbn.
  assert (Habs : forall l p c, normalizeAbsolutePath l p = inl c -> c = Clean (TrimSpace p)).
  { intros l p c. unfold normalizeAbsolutePath. destruct (_ || _); [done|]. destruct (Z.ltb _ _); [done|]. by intros [= <-]. }
  apply Habs in Ho, Hq. by split_and!; [congruence..|].
Qed.

Lemma created_is_recorded n b b' id r :
  normalizeCreateQuarantineRecord json_object (quarantine_input evt connector plan) = inl n ->
  registers env b n id r b' -> recorded b'.
Proof.
  intros (Ho & Hq & Hh)%normalized_input (Hr & _ & _ & Hp & Hs & _). exists id, r.
  unfold sameQuarantineIdentity in Hs. rewrite !andb_true_iff, !String.eqb_eq in Hs. destruct Hs as [[_ Hs] Hc].
  split_and!; [done|congruence|by rewrite <- Ho|congruence].
Qed.

Lemma update_keeps_recorded id state path b : recorded b -> recorded (UpdateQuarantineRecordState env id state path b).1.
Proof.
  intros (i & r & Hr & Hp & Ho & Hh). destruct (UpdateQuarantineRecordState _ _ _ _ b) as [b' u] eqn:Hu.
  apply update_keeps in Hu as (_ & _ & Hk). destruct (Hk i r Hr) as (r' & Hr' & Hp' & Ho' & Hh' & _).
  exists i, r'. split_and!; [done|congruence|by rewrite Ho'|congruence].
Qed.

(** What a note of success means. *)
Definition told (ns : list note) (s : State) : Prop :=
  kept s.1 /\ (Quarantined dst ∈ s.2 -> Quarantined dst ∈ ns \/ (moved sha256 os src dst hash s.1.1 /\ recorded s.1.2)).

Lemma told_failure ns t b p e : kept (t, b) -> told ns (t, b, (ns ++ [QuarantineFailed p e])%list).
Proof.
  intros Hk. split; [done|]. intros [H|H]%elem_of_app; [by left|]. by apply list_elem_of_singleton in H.
Qed.

Lemma in_place_stable : stable os in_place.
Proof. intros n t [H1 H2]. split; [unfold gone; by rewrite Hdst|unfold there; by rewrite Hsrc]. Qed.

Lemma execute_keeps id b :
  well_placed src (stage_of plan id) dst = true -> untouched os (stage_of plan id) -> recorded b ->
  runs (fun t => kept (t, b)) in_place (ExecuteAssetQuarantine sha256 os plan id)
    (fun _ => moved sha256 os src dst hash) (fun t => kept (t, b)).
Proof.
  intros Hw Hs Hb. set (C := fun t => there a src t).
  assert (HI : forall t, safe sha256 os dst hash C t -> kept (t, b)) by (intros t [H|H]; [by left|by right]).
  eapply runs_within; [exact HI|]. eapply runs_weaken; [apply (execute_runs sha256 os plan id C)|..]; try done.
  - by apply (stable_at os src (fun l => l = Found a)).
  - by eapply (framed_elsewhere _ _ _ Hw (fun l => l = Found a)).
  - by eapply (room_elsewhere _ _ _ Hw (fun l => l = Found a)).
  - intros t H. by left.
Qed.

Lemma take_back_runs id ns :
  xruns kept (fun s => kept s.1 /\ s.2 = ns) (take_back os env plan id) (fun _ s => kept s.1 /\ s.2 = ns).
Proof.
  unfold take_back. eapply xruns_bind.
  - apply (xruns_on_disk kept _ _ (fun l s => (kept s.1 /\ s.2 = ns) /\ (l = Missing -> in_place s.1.1)) (fun s => kept s.1 /\ s.2 = ns)).
    intros b ns'. apply runs_look.
    + intros n t [[H|[H Hb]] Hns]; (split; [|done]); [left; by apply in_place_stable|right; split; [|done]].
      by eapply (verified_stable sha256 os dst hash Hdst).
    + by intros n t _ H.
    + by intros t [H _].
    + intros t H. split; [done|]. intros Hm. destruct H as [[H|[(u & Hu & _) _]] _]; [done|]. simpl in Hu. congruence.
  - intros [[u| |]|e]; try (by apply xruns_ret; tauto).
    eapply (xruns_bind _ _ _ _ (fun _ s => kept s.1 /\ s.2 = ns)); [|intros; by apply xruns_ret].
    apply xruns_on_db. intros t b ns' [[_ Hns] Hm]. specialize (Hm eq_refl).
    destruct (DeleteQuarantineRecord _ _ _) as [b' r]. split; [split; [by left|done]|by left].
Qed.

Lemma quarantine_planned_runs ns :
  xruns kept (fun s => in_place s.1.1 /\ good_ids s.1.2 /\ s.2 = ns)
    (quarantine_planned sha256 json_object os env evt connector plan) (fun _ => told ns).
Proof.
  unfold quarantine_planned. eapply xruns_bind.
  { apply (xruns_on_db kept _ _ (fun r s => in_place s.1.1 /\ s.2 = ns /\ match r with
      | inl (id, _, _) => recorded s.1.2 /\ well_placed src (stage_of plan id) dst = true /\ untouched os (stage_of plan id)
      | inr _ => True end)).
    intros t b ns' (Hp & Hg & Hns). destruct (CreateQuarantineRecord _ _ _ b) as [b' [[[id r] cs]|e]] eqn:Hc; [|by split; [|left]].
    pose proof (create_succeeds _ _ _ _ _ _ _ _ Hc) as (n & Hn & Hr).
    pose proof (created_is_recorded _ _ _ _ _ Hn Hr) as Hrec.
    split; [|by left]. split_and!; [done..| |]; apply Hg; destruct Hr as (_ & _ & _ & _ & _ & _ & Hid);
      (destruct (records b !! id) eqn:Hid'; [right; cbn; by rewrite Hid'|left; by destruct Hid as (_ & _ & Hk & _)]). }
  intros [[[id r] cs]|e].
  2: { apply xruns_log. intros t b ns' (Hp & Hns & _). cbn in Hns. subst ns'. apply told_failure. by left. }
  set (P1 := fun s : State => in_place s.1.1 /\ s.2 = ns /\ recorded s.1.2 /\
    well_placed src (stage_of plan id) dst = true /\ untouched os (stage_of plan id)).
  assert (HP1 : forall b ns', stable os (fun t => P1 (t, b, ns'))).
  { intros b ns' n t (Hp & Hr). split; [by apply in_place_stable|exact Hr]. }
  eapply (xruns_bind _ _ _ _ (fun _ => P1)).
  { unfold restore_under_way. destruct (_ && _); [|by apply xruns_ret].
    eapply (xruns_bind _ _ _ _ (fun _ => P1)); [|intros; by apply xruns_ret].
    apply xruns_looks. intros b ns'. unfold AssetContentHashMatches.
    apply keeps_fbind; [apply keeps_hash_at; [done|done|by intros t [H _]; left]|intros h; by apply keeps_fret]. }
  intros [|]; [apply xruns_log; intros t b ns' (Hp & Hns & _); cbn in Hns; subst ns'|].
  { split; [by left|]. intros [H|H]%elem_of_app; [by left|]. by apply list_elem_of_singleton in H. }
  eapply (xruns_bind _ _ _ _ (fun x s => match x with
      | inl _ => (moved sha256 os src dst hash s.1.1 /\ recorded s.1.2) /\ s.2 = ns
      | inr _ => kept s.1 /\ s.2 = ns end)).
  { apply (xruns_on_disk kept _ _ (fun _ s => (moved sha256 os src dst hash s.1.1 /\ recorded s.1.2) /\ s.2 = ns) (fun s => kept s.1 /\ s.2 = ns)).
    intros b ns' d (Hp & Hns & Hrec & Hw & Hs). simpl in Hns, Hrec.
    pose proof (execute_keeps id b Hw Hs Hrec d Hp) as H. destruct (ExecuteAssetQuarantine _ _ _ _ d) as [d' [x|e]];
      destruct H as [H1 H2]; by split. }
  intros [x|e].
  - eapply (xruns_bind _ _ _ _ (fun _ s => (moved sha256 os src dst hash s.1.1 /\ recorded s.1.2) /\ s.2 = ns)).
    { apply xruns_on_db. intros t b ns' [[Hm Hr] Hns]. pose proof (update_keeps_recorded id QuarantineStateActive "" b Hr) as Hr'.
      destruct (UpdateQuarantineRecordState _ _ _ _ b) as [b' u]. split; [done|]. right. split; [exact (proj1 Hm)|exact Hr']. }
    intros u. set (M := fun s : State => (moved sha256 os src dst hash s.1.1 /\ recorded s.1.2) /\ kept s.1).
    eapply (xruns_bind _ _ _ _ (fun _ => M)).
    + destruct u as [[]|e]; [apply xruns_ret|apply xruns_log]; [intros s [[Hm Hr] _]|intros t b ns' [[Hm Hr] _]];
        (split; [done|]; right; split; [exact (proj1 Hm)|exact Hr]).
    + intros ?. apply xruns_log. intros t b ns' [Hm Hk]. split; [exact Hk|]. intros _. by right.
  - eapply xruns_bind; [apply take_back_runs|intros ?]. apply xruns_log.
    intros t b ns' [Hk Hns]. cbn in Hns. subst ns'. by apply told_failure.
Qed.

(** C9: the journal is written ahead: whatever fails and wherever the watcher
    stops, the asset is untouched and the destination empty, or the destination
    has a copy with the hash of the plan and the journal a record that binds it
    to its original place.  The watcher tells of success only if the source is
    gone and the copy verified and recorded. *)
Theorem quarantine_is_write_ahead w :
  in_place (root (disk w)) -> good_ids (db w) ->
  let w' := (quarantine_planned sha256 json_object os env evt connector plan w).1 in
  (exists new, trace w' = (new ++ trace w)%list /\ Forall kept new) /\ kept (root (disk w'), db w') /\
  (Quarantined dst ∈ notes w' -> Quarantined dst ∈ notes w \/
     (moved sha256 os src dst hash (root (disk w')) /\ recorded (db w'))).
Proof.
  intros Hp Hg w'. pose proof (quarantine_planned_runs (notes w) w (conj Hp (conj Hg eq_refl))) as H.
  unfold w'. destruct (quarantine_planned _ _ _ _ _ _ _ w) as [w1 x]. destruct H as [[H1 H2] H3]. by split_and!.
Qed.

(** C13: a second version is not quarantined: as long as the journal has a record of
    another content at the place in the quarantine, of the first version or of
    the rest that an interrupted removal has left, a blocked asset of the same
    name stays where it is. *)
Theorem other_version_stays w id old :
  journal_ok (db w) -> records (db w) !! id = Some old -> q_QuarantinePath old = dst -> q_ContentHash old <> expected hash ->
  let w' := (quarantine_planned sha256 json_object os env evt connector plan w).1 in
  disk w' = disk w /\ records (db w') = records (db w) /\
  exists e, notes w' = (notes w ++ [QuarantineFailed (Path evt) e])%list.
Proof.
  intros Hok Hold Hp Hc w'.
  assert (Hfail : exists b e, CreateQuarantineRecord json_object env (quarantine_input evt connector plan) (db w) = (b, inr e)).
  { destruct (normalizeCreateQuarantineRecord json_object (quarantine_input evt connector plan)) as [n|e] eqn:Hn.
    - pose proof (normalized_input n Hn) as (_ & Hq & Hh). eapply create_refuses; [done|exact Hn|exact Hold|congruence|].
      unfold sameQuarantineIdentity. rewrite Hh. apply String.eqb_neq in Hc. by rewrite Hc, andb_false_r.
    - unfold CreateQuarantineRecord. rewrite Hn. eauto. }
  destruct Hfail as (b & e & Hf). pose proof (create_fails _ _ _ _ _ _ Hf) as (Hr & _).
  unfold w', quarantine_planned, xbind, on_db. rewrite Hf. cbn. eauto.
Qed.
End Quarantine.

(** ** Out of the quarantine *)

Section Restore.
Context {U : GoUnicode} (sha256 : string -> string).
Context (os : OS) (env : Env) (cfg : WatcherConfig).
Context (id : string) (record : QuarantineRecord) (path : string) (a : tree) (rows0 : gmap Key Row) (links0 : gset (string * string)).

Abbreviation plan := (restore_plan cfg id record path).
Abbreviation quarantined := (q_QuarantinePath record).

Context (Hw : well_placed quarantined (restore_stage plan) path = true) (Hj : journalled plan).
Context (Hq : untouched os quarantined) (Hs : untouched os (restore_stage plan)) (Hp : untouched os path).

(** The record is there, and the actions are as they were. *)
Definition has_record (b : DB) : Prop :=
  rows (actions b) = rows0 /\ links b = links0 /\
  exists r, records b !! id = Some r /\ q_QuarantinePath r = quarantined /\ q_ContentHash r = q_ContentHash record /\
            q_TargetType r = q_TargetType record /\ q_TargetName r = q_TargetName record.

Definition restored (t : tree) : Prop := moved sha256 os quarantined path (q_ContentHash record) t.

(** The copy in the quarantine is complete and recorded as long as there is no
    verified one at the old place; the record goes last. *)
Definition returning (s : tree * DB) : Prop :=
  (gone path s.1 /\ there a quarantined s.1 /\ has_record s.2) \/
  (verified sha256 os path (q_ContentHash record) s.1 /\ (has_record s.2 \/ gone quarantined s.1)).

Lemma update_keeps_record state p b : has_record b -> has_record (UpdateQuarantineRecordState env id state p b).1.
Proof.
  intros (Hr & Hl & r & Hi & H1 & H2 & H3 & H4). destruct (UpdateQuarantineRecordState _ _ _ _ b) as [b' u] eqn:Hu.
  apply update_keeps in Hu as (Hr' & Hl' & Hk). destruct (Hk id r Hi) as (r' & Hi' & ? & ? & ? & ? & ?).
  split; [simpl; congruence|]. split; [simpl; congruence|]. exists r'. split_and!; [done|congruence..].
Qed.

Definition C : tree -> Prop := there a quarantined.
Abbreviation safe_ := (safe sha256 os path (q_ContentHash record) C).

Lemma safe_returning t b : safe_ t -> has_record b -> returning (t, b).
Proof. intros [[H1 H2]|H] Hb; [by left|right; auto]. Qed.

Lemma safe_meddle : stable os safe_.
Proof. eapply safe_stable; [exact Hp|]. by apply (stable_at os quarantined (fun l => l = Found a)). Qed.

Lemma restore_keeps b :
  has_record b ->
  runs (fun t => returning (t, b)) safe_ (ExecuteAssetRestore sha256 os plan) (fun _ => restored) safe_.
Proof.
  intros Hb. eapply runs_within; [intros t Ht; by apply safe_returning|].
  apply (restore_runs sha256 os plan C Hw Hj Hq Hs Hp).
  - by apply (stable_at os quarantined (fun l => l = Found a)).
  - by eapply (framed_elsewhere _ _ _ Hw (fun l => l = Found a)).
  - by eapply (room_elsewhere _ _ _ Hw (fun l => l = Found a)).
Qed.

(** What a return without an error says. *)
Definition returned (r : () + string) (s : State) : Prop :=
  returning s.1 /\
  match r with
  | inr _ => True
  | inl _ =>
      restored s.1.1 /\ records s.1.2 !! id = None /\
      forall k d, row_view (rows (actions s.1.2) !! k) d =
        if bool_decide (d = DFile /\ k.1 = (q_TargetType record, q_TargetName record) /\ (id, k.2) ∈ links0) then ""
        else row_view (rows0 !! k) d
  end.

Lemma complete_runs (P : State -> Prop) :
  (forall s, P s -> restored s.1.1 /\ has_record s.1.2) ->
  xruns returning P (on_db (CompleteQuarantineRestore env id path)) (fun r s => returned (match r with inl _ => inl () | inr e => inr e end) s).
Proof.
  intros HP. apply xruns_on_db. intros t b ns Hb. apply HP in Hb as [[Hv Hg] Hb]. cbn in Hv, Hg, Hb.
  destruct (CompleteQuarantineRestore env id path b) as [b' [[]|e]] eqn:Hc.
  - pose proof Hb as (Hr & Hl & r & Hi & _ & _ & Hty & Hnm).
    destruct (complete_retires _ _ _ _ _ _ Hc Hi) as (Hrec & _ & Hview).
    assert (Hret : returning (t, b')) by (right; split; [done|by right]).
    split; [|done]. split; [done|]. split; [done|]. split; [cbn; by rewrite Hrec, lookup_delete_eq|].
    intros k d. cbn. rewrite Hview, Hr, Hl, Hty, Hnm. done.
  - assert (Hb' : has_record b').
    { assert (Heq : records b' = records b /\ links b' = links b /\ rows (actions b') = rows (actions b)).
      { unfold CompleteQuarantineRestore in Hc. destruct (normalizeAbsolutePath _ _); [by eapply transaction_fails|by injection Hc as <- _]. }
      destruct Heq as (E1 & E2 & E3). unfold has_record in *. by rewrite E1, E2, E3. }
    split; [split; [|done]|]; right; auto.
Qed.

Lemma reactivate_runs :
  xruns returning (fun s => safe_ s.1.1 /\ has_record s.1.2) (reactivate sha256 os env id record) (fun _ s => returning s.1).
Proof.
  unfold reactivate. set (P := fun s : State => safe_ s.1.1 /\ has_record s.1.2).
  eapply (xruns_bind _ _ _ _ (fun _ => P)).
  - apply xruns_looks. intros b ns. unfold AssetContentHashMatches.
    assert (HP : stable os (fun t => P (t, b, ns))) by (intros n t [H1 H2]; split; [by apply safe_meddle|done]).
    apply keeps_fbind; [apply keeps_hash_at; [done|done|intros t [H1 H2]; by apply safe_returning]|intros h; by apply keeps_fret].
  - intros [[|]|e]; [|apply xruns_ret; intros s [H1 H2]; destruct s as [[t b] ns]; by apply safe_returning..].
    eapply (xruns_bind _ _ _ _ (fun _ s => returning s.1)); [|intros; by apply xruns_ret].
    apply xruns_on_db. intros t b ns [H1 H2]. pose proof (update_keeps_record QuarantineStateActive "" b H2) as H3.
    destruct (UpdateQuarantineRecordState _ _ _ _ b) as [b' u]. split; by apply safe_returning.
Qed.

Lemma restore_record_runs requested :
  bound_restore_path os record requested = inl path ->
  xruns returning (fun s => gone path s.1.1 /\ there a quarantined s.1.1 /\ has_record s.1.2)
    (restore_record sha256 os env cfg id record requested) returned.
Proof.
  intros Hbound. unfold restore_record. rewrite Hbound.
  set (P := fun s : State => safe_ s.1.1 /\ has_record s.1.2).
  assert (HP : forall s, P s -> returning s.1) by (intros [[t b] ns] [H1 H2]; by apply safe_returning).
  eapply (xruns_bind _ _ _ _ (fun _ => P)).
  { apply xruns_on_db. intros t b ns (H1 & H2 & H3). pose proof (update_keeps_record QuarantineStateRestoring path b H3) as H4.
    destruct (UpdateQuarantineRecordState _ _ _ _ b) as [b' u].
    assert (P (t, b', ns)) by (split; [by left|done]). split; [done|by apply (HP (t, b', ns))]. }
  intros [[]|e]; [|apply xruns_ret; intros s Hps; split; [by apply HP|done]].
  eapply (xruns_bind _ _ _ _ (fun x s => match x with inl _ => restored s.1.1 /\ has_record s.1.2 | inr _ => P s end)).
  { apply (xruns_on_disk returning _ _ (fun _ s => restored s.1.1 /\ has_record s.1.2) P). intros b ns d [H1 H2]. cbn in H1, H2.
    pose proof (restore_keeps b H2 d H1) as H. destruct (ExecuteAssetRestore _ _ _ d) as [d' [x|e]]; destruct H as [H3 H4]; by split. }
  intros [x|e].
  - eapply xruns_bind; [apply (complete_runs (fun s => restored s.1.1 /\ has_record s.1.2)); tauto|].
    intros [[]|e]; [|by apply xruns_ret].
    eapply (xruns_bind _ _ _ _ (fun _ => returned (inl ()))); [by apply xruns_log|intros; by apply xruns_ret].
  - eapply xruns_bind; [apply reactivate_runs|]. intros ?. apply xruns_ret. intros s H. by split.
Qed.

(** C10: the way back: at no point is the asset without a complete copy, the record
    stays until the quarantined copy is no longer needed, and when the restore
    returns without an error the asset is at the bound path with the recorded
    hash, the quarantine is empty, the record is retired, and of all directives
    only the file action of the associated scopes is cleared. *)
Theorem restore_returns_asset requested w :
  bound_restore_path os record requested = inl path ->
  gone path (root (disk w)) -> there a quarantined (root (disk w)) -> has_record (db w) ->
  let (w', r) := restore_record sha256 os env cfg id record requested w in
  returned r (state_of w') /\ exists new, trace w' = (new ++ trace w)%list /\ Forall returning new.
Proof. intros Hb H1 H2 H3. by apply (restore_record_runs requested Hb w). Qed.
End Restore.

(** ** A skill that is blocked, restored, and installed again *)

Definition w_evt : InstallEvent := w_event "skill" "evil" "/s/evil" "codex".

Definition w_watch : WatcherConfig := {|
  QuarantineDir := "/q"; skillDirs := ["/s"]; pluginDirs := []; watch_cfg := w_cfg |}.

Definition w_world (t : tree) (b : DB) : World := {| disk := w_disk t; db := b; trace := []; notes := [] |}.
Definition w_empty_db : DB := {| records := ∅; links := ∅; actions := empty_store |}.

Definition w_blocks (w : World) : World :=
  (quarantineAsset (U := ascii_only) sum32 (fun _ => true) w_quiet calm w_watch false w_evt w).1.

(** Another version of the skill is installed. *)
Definition w_installs (w : World) : World := {|
  disk := w_disk (update ["s"; "evil"] (Some (TDir 493 [("SKILL.md", TFile 420 "do more evil")])) (root (disk w)));
  db := db w; trace := trace w; notes := notes w |}.

Definition w_after : World := w_blocks (w_world w_root w_empty_db).

Example second_version_stays :
  notes w_after = [Quarantined "/q/skills/codex/evil"] /\ at_path (root (disk w_after)) ["s"; "evil"] = Missing /\
  notes (w_blocks (w_installs w_after)) =
    [Quarantined "/q/skills/codex/evil"; QuarantineFailed "/s/evil" "audit: quarantine path already belongs to a different asset"] /\
  at_path (root (disk (w_blocks (w_installs w_after)))) ["s"; "evil"] = Found (TDir 493 [("SKILL.md", TFile 420 "do more evil")]).
Proof. vm_compute. repeat split. Qed.

Definition w_faulty : OS := w_os (fun n => Nat.eqb n 20).

Lemma quarantine_is_write_ahead_witness :
  let w' := (quarantine_planned (U := ascii_only) sum32 (fun _ => true) w_faulty calm w_evt "codex" w_plan
               (w_world w_root w_empty_db)).1 in
  notes w' <> [] /\
  (exists new, trace w' = (new ++ [])%list /\ Forall (kept (U := ascii_only) sum32 w_faulty w_plan w_skill) new) /\
  kept (U := ascii_only) sum32 w_faulty w_plan w_skill (root (disk w'), db w') /\
  (Quarantined (QuarantinePath w_plan) ∈ notes w' -> Quarantined (QuarantinePath w_plan) ∈ notes (w_world w_root w_empty_db) \/
     (moved (U := ascii_only) sum32 w_faulty (SourcePath w_plan) (QuarantinePath w_plan) (PlanHash w_plan) (root (disk w')) /\
      recorded (U := ascii_only) w_plan (db w'))).
Proof.
  intros w'. split; [by vm_compute|].
  apply (quarantine_is_write_ahead (U := ascii_only) sum32 (fun _ => true) w_faulty calm w_evt "codex" w_plan w_skill); try done.
  intros id [[n ->]|[r Hr]]; [split; [vm_compute; reflexivity|done]|]. cbn in Hr. by rewrite lookup_empty in Hr.
Defined.

(** The record of the first version. *)
Definition w_record : QuarantineRecord := {|
  q_TargetType := "skill"; q_TargetName := "evil"; q_OriginalPath := "/s/evil"; q_QuarantinePath := "/q/skills/codex/evil";
  q_ContentHash := PlanHash w_plan; q_Reason := "watcher enforcement"; q_State := QuarantineStateActive;
  q_OwnershipJSON := "{}"; q_RestorePath := ""; q_CreatedAt := 0; q_UpdatedAt := 0 |}.

(** The skill is blocked and its file action is to quarantine it. *)
Definition w_rows : gmap Key Row :=
  {[("skill", "evil", "") := {| r_id := "a"; r_source_path := None;
      r_actions := {| j_file := Some "quarantine"; j_runtime := None; j_install := Some "block" |};
      r_reason := ""; r_updated_at := 0 |}]}.

Definition w_db : DB := {|
  records := {["id" := w_record]}; links := {[("id", "codex"); ("id", "")]}; actions := {| rows := w_rows; tick := 0 |} |}.

Definition w_second_plan : AssetQuarantinePlan := {|
  TargetType := "skill"; TargetName := "evil"; Connector := "codex"; SourcePath := "/s/evil"; SourceRoot := "/s";
  QuarantineRoot := "/q"; QuarantinePath := "/q/skills/codex/evil"; PlanHash := hex_encode (sum32 "another"); OwnershipJSON := "{}" |}.

Lemma other_version_stays_witness :
  let w := w_world w_root w_db in
  let w' := (quarantine_planned (U := ascii_only) sum32 (fun _ => true) w_quiet calm w_evt "codex" w_second_plan w).1 in
  disk w' = disk w /\ records (db w') = records (db w) /\
  exists e, notes w' = (notes w ++ [QuarantineFailed (Path w_evt) e])%list.
Proof.
  apply (other_version_stays (U := ascii_only) sum32 (fun _ => true) w_quiet calm w_evt "codex" w_second_plan) with (id := "id") (old := w_record).
  - vm_compute. split; reflexivity.
  - split.
    + cbn. intros i j r s [<- <-]%lookup_singleton_Some [<- <-]%lookup_singleton_Some. done.
    + intros i c Hc. cbn in Hc |- *. assert (i = "id") as -> by set_solver. by rewrite lookup_singleton_eq.
  - apply lookup_singleton_eq.
  - reflexivity.
  - vm_compute. done.
Defined.

Lemma restore_returns_asset_witness :
  let w := w_world w_quarantined w_db in
  let (w', r) := restore_record (U := ascii_only) sum32 w_quiet calm w_watch "id" w_record "" w in
  r = inl () /\
  returned (U := ascii_only) sum32 w_quiet "id" w_record "/s/evil" w_skill w_rows {[("id", "codex"); ("id", "")]} r (state_of w') /\
  exists new, trace w' = (new ++ trace w)%list /\
    Forall (returning (U := ascii_only) sum32 w_quiet "id" w_record "/s/evil" w_skill w_rows {[("id", "codex"); ("id", "")]}) new.
Proof.
  intros w.
  pose proof (restore_returns_asset (U := ascii_only) sum32 w_quiet calm w_watch "id" w_record "/s/evil" w_skill w_rows
    {[("id", "codex"); ("id", "")]}) as H.
  specialize (H ltac:(vm_compute; reflexivity) ltac:(split_and!; vm_compute; reflexivity)).
  specialize (H ltac:(done) ltac:(done) ltac:(done) "" w ltac:(vm_compute; reflexivity) ltac:(vm_compute; reflexivity)).
  specialize (H ltac:(vm_compute; reflexivity)).
  assert (Hr : (restore_record (U := ascii_only) sum32 w_quiet calm w_watch "id" w_record "" w).2 = inl ()) by (vm_compute; reflexivity).
  destruct (restore_record _ _ _ _ _ _ _ w) as [w' r]. split; [exact Hr|]. apply H.
  split; [done|split; [done|]]. exists w_record. split; [apply lookup_singleton_eq|done].
Defined.

(** ** An asset that can not be quarantined *)

Section Linked.
Context {U : GoUnicode} (sha256 : string -> string) (json_object : string -> bool).
Context (os : OS) (env : Env) (cfg : WatcherConfig) (store_nil : bool).

(** C14: a link or a special file anywhere in a blocked asset keeps it installed:
    the watcher notes a failure, and neither the files nor the journal
    change. *)
Theorem linked_asset_survives_block evt w u p v :
  (forall n t, meddle os n t = t) -> tidy (Path evt) = true ->
  there u (Path evt) (root (disk w)) -> at_path u p = Found v -> refused_kind v = true ->
  let w' := (quarantineAsset sha256 json_object os env cfg store_nil evt w).1 in
  root (disk w') = root (disk w) /\ records (db w') = records (db w) /\
  exists n, notes w' = (notes w ++ [n])%list /\ forall q, n <> Quarantined q.
Proof.
  intros Ha Ht Hu Hp Hv w'. unfold w'. clear w'.
  destruct (quarantineAsset sha256 json_object os env cfg store_nil evt w) as [w1 x] eqn:E. cbn [fst].
  unfold quarantineAsset in E. destruct store_nil; [injection E as <- _; cbn; eauto 6|].
  unfold xbind at 1, on_actions in E.
  destruct (preserveRestoredBlockedAsset _ _ _ _ _ _) as [[s es] keep]. destruct keep; [injection E as <- _; cbn; eauto 6|].
  unfold xbind at 1, on_disk in E. cbn [disk] in E.
  destruct (unhashable_asset_stays sha256 os Ha (QuarantineDir cfg) (sourceRootsFor cfg (Type_ evt)) (Type_ evt) (Name evt)
              (eventConnector (watch_cfg cfg) evt) (Path evt) (disk w) u Ht Hu) as (d & e & Hd & Hr).
  { by eapply refused_has_no_hash. }
  rewrite Hd in E. injection E as <- _. cbn. eauto 6.
Qed.
End Linked.

Definition w_linked : tree := TDir 493 [("SKILL.md", TFile 420 "do evil"); ("run", TDir 493 [("notes", TLink)])].

Lemma linked_asset_survives_block_witness :
  let w := w_world (TDir 493 [("q", TDir 448 []); ("s", TDir 493 [("evil", w_linked)])]) w_db in
  let w' := (quarantineAsset (U := ascii_only) sum32 (fun _ => true) w_quiet calm w_watch false w_evt w).1 in
  root (disk w') = root (disk w) /\ records (db w') = records (db w) /\
  exists n, notes w' = (notes w ++ [n])%list /\ forall q, n <> Quarantined q.
Proof.
  apply (linked_asset_survives_block (U := ascii_only) sum32 (fun _ => true) w_quiet calm w_watch false) with
    (u := w_linked) (p := ["run"; "notes"]) (v := TLink); try done; vm_compute; reflexivity.
Defined.
